(* ===== verification/_CoqProject ===== *)
-Q . S2P
Prelude.v
Kernel.v
Policy.v
Guard.v
GuardNames.v
GuardCache.v
GuardStreams.v
Drain.v
Pins.v
Loader.v
Json.v
Numbers.v
Holding.v
Text.v
Discard.v
DrainScan.v
Mounts.v
Enroll.v
Generations.v
Control.v
DnsWire.v
Observe.v
Attribution.v
Taking.v
Barrier.v
Sockets.v
Capacity.v
Contention.v
Upstream.v
DnsProbe.v
Dispatch.v
Transfers.v
PacketTypes.v
Supervisor.v
Identity.v
Identify.v
Inputs.v
Snapshots.v
Logs.v
DispatcherLog.v
LogWriter.v
LogContention.v
Images.v
HintEvents.v
PathIdentity.v
Trace.v
TraceProperties.v
DispatcherMain.v
DispatcherSelfTest.v
Runner.v
RunnerIo.v
Commands.v
Wfp.v
WfpEngine.v
WfpProbe.v
WfpReport.v
WfpSelfTest.v
Files.v
Service.v
NativeSelfTest.v
DispatcherTests.v
Programs.v
Tray.v
Handles.v
TrayRun.v
ProgramTests.v
Requests.v
TrayWindow.v
