(* ===== verification/Prelude.v ===== *)
(** * Verification of the WireGuard program split

    The repository routes the traffic of selected programs, their DNS lookups
    included, through a WireGuard tunnel, and everything else directly.  This
    library models its native code (C and C++ under [src/src/linux/bpf],
    [src/src/linux/native] and [src/src/native]) and proves what makes it safe:
    a selected program's packets and lookups never leave beside the tunnel, and
    the machinery that guarantees it survives interruption, loss and
    concurrency.  This file, the first one, also holds the shared notation,
    machine arithmetic, byte-string helpers and automation.

    ** The program's parts and the files that model them

    On Linux two BPF objects act inside the kernel and a loader installs them.
    - [Kernel]: the helper calls of the BPF programs, a class of parameters.
    - [Policy]: [policy.bpf.h], [classifier.bpf.c].  State: the enrolled-path
      maps ([policy_maps]) and the per-CPU path buffer.  [policy_select] decides
      whether a task's executable is enrolled; [classify] marks its sockets.
    - [Guard]: [resolver_guard.bpf.c], one definition per helper and hook, over
      the BPF maps (the record [guard]) and the kernel objects they read
      ([world]).  [GuardNames] states what the name matching means,
      [GuardCache] what the cached answers mean, [GuardStreams] what the labels
      on streams mean while other CPUs bind, rename and enrol.
    - [Drain], [DrainScan]: [drain.h], the proof that no operation still runs that
      began before the completion programs were attached, and the reading of the
      symbol table and of the task samples it rests on.
    - [Pins], [Discard], [Json]: [pin-set.h], [pin-removal.h] with the removal of
      recorded objects, [json-string.h].
    - [Loader]: the parts of [bpf-loader.cpp] that read and edit a policy and
      replace one generation of pinned objects by another.
    - [Text], [Mounts], [Enroll]: the text the loader reads, the kernel's device
      number of a file, and the enrollment of resolver objects ([guard_slot_add],
      [guard_user_bus], [seed_guards]) over the maps of [Guard].
    - [Generations]: which pin directories and attachments the loader takes for
      its own ([inspect_generation], [reject_competitors]).
    - [Control]: the commands on a published guard ([guard-slot], [state]), their
      checks and the dispatch of [main].
    - [Holding]: what a load does to generations an earlier one left attached, the
      kernel types it needs and its capability report.
    - [Observe]: birth records, status and snapshots, the loader's DNS probe and
      its observation loop.

    On Windows a dispatcher answers the system's DNS queries, a filter tool
    holds the firewall rules, and a service, a tray and a runner surround them.
    - [Numbers], [DnsWire]: [parse-number.h], [dns-wire.h] and the name helpers
      of [dns-dispatcher.cpp]; packets are byte lists, an access outside them is
      [None].
    - [Attribution], [Taking], [Barrier], [HintEvents]: [dns-attribution.h] and the
      trace session of [dns-dispatcher.cpp]; which program asked, and that a packet
      is routed only after every earlier event was seen.
    - [Trace], [TraceProperties]: the trace's events, its flushing and its life, and
      the property blocks it is started, flushed and filtered with.
    - [Capacity], [Sockets], [Upstream], [Dispatch], [Transfers], [PacketTypes]:
      [dns-capacity.h], [dns-sockets.h], the exchanges of [dns-wire.h], the query
      handlers of [dns-dispatcher.cpp], and the exchanges again over sockets that
      take time.
    - [DispatcherMain]: its [wmain] with the ingress of clients, start, reload and
      shutdown.
    - [DnsProbe]: [dns-probe.cpp].
    - [Images]: [dns-image-resolver.h], the pool of workers and the cache that
      turn process identifiers into image paths.
    - [Inputs], [Snapshots], [Files]: [dns-dispatcher-state.h] and the reload
      thread, the shared objects a query keeps while a reload replaces them, and the
      files that state is read from and published to, with every state of them a
      reader or a crash can find; the other readers and atomic writers are there
      too.
    - [Supervisor]: [dispatcher-supervisor.h], one pass of the loop at a time.
    - [Identity], [Identify], [PathIdentity]: [wfp-probe-identity.h] and
      [path-identity.h]; who a listed program is, and the record both the filter
      tool and the dispatcher read.
    - [Wfp], [WfpEngine], [WfpProbe], [WfpReport]: [wfp-probe.cpp]; the filters, the
      transactions on the filter engine, the commands and what they print.
    - [Logs], [LogWriter], [DispatcherLog], [Service], [Runner], [RunnerIo], [Commands], [Tray], [TrayRun],
      [TrayWindow]: [async-log.h], [bounded-log.h], [log-pipe.h],
      [controller-service.cpp], [bounded-run.h], [tray-support.h],
      [tray-supervisor.h], [tray.cpp].
    - [Handles]: the handles these programs open, close and pass to their children
      ([inherited-process.h] and the code that starts processes, pipes and
      threads).
    - [Programs], [Requests]: the entry points of the service, the tray and
      [tunnel-host.cpp], and the way of a request from the tray through the runner
      to a program and back.
    - [DispatcherSelfTest], [DispatcherTests], [WfpSelfTest], [NativeSelfTest],
      [ProgramTests]: the programs' own self-tests, replayed on the models;
      [Contention] and [LogContention] are the two of them whose threads compete, in
      every interleaving.

    ** Conventions

    A machine integer is a [Z]; where its width matters the wrap-around is
    written with [uN].  Bytes and characters are [Z], strings are lists of them.
    State is passed explicitly; a C++ exception or a failing call is [None] or a
    constructor of a sum.  Threads that share state are step relations
    ([Inductive] types) whose steps are the source's critical sections.  What an
    operating system, the kernel or a linked library answers is a class of
    parameters with its documented laws in a second class: [KernelReads] and
    [KernelReadsSpec], [FileSystem], [Engine] and [EngineSpec], [Os], [Host] and
    [SteadyHost], and the UTF-8, case-mapping and base64 conversions.  Each such class has a concrete
    instance, at which the witnesses of the theorems are evaluated.

    ** What the theorems show

    - Selection and marking: [policy_select_linked], [policy_select_never_direct]
      and [classify_included_marked] say an enrolled program's sockets carry the
      tunnel mark, and that no failing kernel read makes it direct.
    - The guard: [dentry_role_exact] and [object_role_exact] say the computed and
      cached roles are those of the specification; [fast_path_sound] is the
      invariant of the stream labels under interleaving; [stream_guard_allows],
      [guard_connect_allows] and [object_guard_allows] say what an allowing
      verdict means for an included program; [drain_settles_sound] is the proof
      obligation of the settled bit.
    - The loader: [load_keeps_protection] (no intermediate state of a load, at
      whatever step it stops, protects less than the state it began in) and
      [retried_load_completes]; [interrupted_is_prefix], [published_is_complete]
      and [no_competitor_left] say the directories it is applied to are of the
      kind those theorems describe; [held_generations_decide] says what the
      classifiers left attached decide meanwhile.
    - Enrollment: [seeded_resolvers_refused] composes the initial enrollment with
      the guard's connect hook, [enrolled_socket_named] with its name matching,
      [guard_slot_simulated] shows a run-time enrollment to be steps of the machine
      of [fast_path_sound]; [enrollment_only_adds], [user_content_never_blocks],
      [device_read_back], [state_command_exact], [context_check_exact] and
      [changes_are_guarded] are about the loader alone.
    - Lookups: [selected_lookup_never_direct] composes the event session, the
      barrier and the routing decision; [direct_route_needs_event] and
      [lost_events_block_direct] are the two ways a direct route is refused;
      [take_is_steps] refines the whole of [take] to the steps of that session,
      [logged_hint_is_evidence] joins an event's process to its evidence, and
      [flush_turn_refines], [session_released], [qpc_elapsed_exact] are about the
      trace;
      [handlers_confined], [datagram_answered] and [directExchange_complete] are
      about the handlers, [parseQuestion_safe], [parseQuestion_roundtrip] and
      [zeroResponseTtls_spec] about the wire format, [known_path_is_genuine]
      about the image cache, [loaded_inputs_validated] and [snapshot_stable] about
      reloading,
      [publication_ordered], [bounded_reads] and [sessions_accounted] about the
      files, [wait_bounded] and [exchange_ends_in_time] about sockets, [drained_nothing_left] about shutdown,
      [replies_are_packets] about the bytes sent, [probe_pass_means_answer] about
      the probe.
    - Filters: [payload_blocked_exact] is the equivalence of the filter set with
      the address rule it stands for, [install_outcome], [remove_exact] and
      [probe_protects] carry it through the engine's transactions to the exit
      code of the tool; [included_agrees], [unresolved_keeps_protection] and
      [interrupted_install_recovers] are about identities.
    - Hosts: [supervisor_patience], [service_runs_to_stopped],
      [service_failure_exact], [run_is_controlled], [run_frame_read_back],
      [cut_frame_refused], [quoted_argument_read_back], [change_not_interrupted],
      [change_marked_first], [frame_read_whole], [supervise_bounded],
      [results_all_taken], [window_outlives_operation], [log_is_bounded_fifo],
      [no_wakeup_lost], [writer_drains], [log_kept_in_order],
      [resolvePath_stable], [handles_accounted]; [run_request_understood] and
      [picked_file_requested] compose the tray, the service's program, the runner
      and the file picker.
    - The self-tests pass on the models: [table_tests_pass], [pure_tests_pass],
      [network_tests_pass], [self_test_passes], [wfp_self_test_passes],
      [native_self_tests_pass], [program_tests_pass]; [contention_test_passes] and
      [log_contention_ends] hold for every schedule.
    - Counterexamples to comments of the source are theorems too:
      [GuardCache.Stale.link_unlink_stale],
      [GuardCache.Stale.rename_then_parent_rename_stale],
      [GuardStreams.Machine.connect_ignores_own_identity],
      [GuardStreams.Machine.cache_name_hides_peer],
      [DnsWire.normalizeName_twice], [Identify.order_matters_when_paths_differ],
      [Generations.scattered_maps_accepted], [Mounts.control_character_shadows],
      [Enroll.numeric_name_aborts], [DrainScan.module_symbols_kept].

    ** Bounds and fuel

    Loops the source bounds by a constant (path components, labels of a name,
    tasks of a sample) recurse on that constant.  Other loops have fuel that is
    proved enough: the parsers of [DnsWire] one unit per packet byte, since each
    turn moves the offset; [PathIdentity] one per character of the path, since
    each turn drops a component; the enumeration of [WfpEngine] one per entry
    and one for the end mark; the waits of [Transfers] one per slice that is
    left and two more, since a slice that passes without an answer moves the clock; the writer of
    [LogWriter] [kDrainSteps], its operations for a full queue; the stop wait of [Service] 240001, since a wait
    that times out advances the clock by at least one millisecond of the four
    minutes it has.  Exhausted fuel is a distinct result, which the termination
    theorems exclude.

    ** Not modelled

    - The Python and PowerShell controllers, scripts and installers: other
      languages, and mostly calls of system tools.
    - The calls that only pass through to the system: loading the BPF object,
      creating sockets, drawing windows.
      Their outcomes are parameters of what calls them.
    - The tunnel library and libbpf, which are third-party.
    - The text of diagnostics, except where a program's outcome is read from it,
      and of the self-tests what measures the process itself (handle counts, the
      lifetime of captured objects).  Where a self-test's threads do not compete they
      are replayed in one schedule; the theorems cover the others.
    - The hooks compiled only into test builds of the loader. *)
From stdpp Require Export base list gmap numbers strings tactics.
#[export] Set Default Goal Selector "!".
Open Scope Z_scope.
Abbreviation length := Datatypes.length.

(** ** Machine integers *)

(** [uN w z] is the value a [w]-bit unsigned register holds after [z] is
    stored in it: C's wrap-around. *)
Definition uN (w z : Z) : Z := z mod 2 ^ w.
Abbreviation u8 := (uN 8).
Abbreviation u16 := (uN 16).
Abbreviation u32 := (uN 32).
Abbreviation u64 := (uN 64).

(** C's bitwise complement of a [w]-bit unsigned value. *)
Definition unot (w z : Z) : Z := uN w (Z.lnot z).

(** A flag test as C writes it: [x & m] used as a condition. *)
Definition has_bits (x m : Z) : bool := negb (Z.land x m =? 0).

(** ** Bytes and C strings *)

Definition is_byte (b : Z) : Prop := 0 <= b < 256.

(** The bytes of a string literal, without its terminator. *)
Definition str (s : String.string) : list Z :=
  map (fun c => Z.of_N (Ascii.N_of_ascii c)) (String.list_ascii_of_string s).

(** The C string a buffer holds: its bytes before the first NUL. *)
Fixpoint cstr (buf : list Z) : list Z :=
  match buf with
  | [] => []
  | b :: rest => if b =? 0 then [] else b :: cstr rest
  end.

(** A byte string a C string can hold: no NUL inside. *)
Definition no_nul (s : list Z) : Prop := 0 ∉ s.

(** A C string stored in a zero-filled fixed-size buffer. *)
Definition pad (n : nat) (s : list Z) : list Z := s ++ replicate (n - length s) 0.

(** Reading a byte of a buffer the code indexes within its bounds. *)
Definition rd (buf : list Z) (i : nat) : Z := nth i buf 0.

(** ** Automation *)

Create HintDb wgps.

(** Turn the boolean tests of the code into the propositions they decide. *)
Ltac bool_to_prop :=
  repeat match goal with
  | H : (_ =? _)%Z = true |- _ => apply Z.eqb_eq in H
  | H : (_ =? _)%Z = false |- _ => apply Z.eqb_neq in H
  | H : (_ <? _)%Z = true |- _ => apply Z.ltb_lt in H
  | H : (_ <? _)%Z = false |- _ => apply Z.ltb_ge in H
  | H : (_ <=? _)%Z = true |- _ => apply Z.leb_le in H
  | H : (_ <=? _)%Z = false |- _ => apply Z.leb_gt in H
  | H : (_ <? _)%nat = true |- _ => apply Nat.ltb_lt in H
  | H : (_ <? _)%nat = false |- _ => apply Nat.ltb_ge in H
  | H : (_ <=? _)%nat = true |- _ => apply Nat.leb_le in H
  | H : (_ <=? _)%nat = false |- _ => apply Nat.leb_gt in H
  | H : (_ =? _)%nat = true |- _ => apply Nat.eqb_eq in H
  | H : (_ =? _)%nat = false |- _ => apply Nat.eqb_neq in H
  | H : _ && _ = true |- _ => apply andb_true_iff in H; destruct H
  | H : _ || _ = false |- _ => apply orb_false_iff in H; destruct H
  | H : negb _ = true |- _ => apply negb_true_iff in H
  | H : negb _ = false |- _ => apply negb_false_iff in H
  | H : bool_decide _ = true |- _ => apply bool_decide_eq_true in H
  | H : bool_decide _ = false |- _ => apply bool_decide_eq_false in H
  end.

(** Split on every [if]/[match] left in the goal or in [H]. *)
Ltac split_ifs := repeat (case_match; simplify_eq/=; try done).

(** ** Lemmas shared by the components *)

Lemma uN_range w z : 0 <= w -> 0 <= uN w z < 2 ^ w.
Proof. intros Hw. apply Z.mod_pos_bound. lia. Qed.

Lemma uN_id w z : 0 <= z < 2 ^ w -> uN w z = z.
Proof. apply Z.mod_small. Qed.

Lemma has_bits_lor x y m : has_bits (Z.lor x y) m = has_bits x m || has_bits y m.
Proof.
  unfold has_bits. rewrite Z.land_lor_distr_l.
  destruct (Z.land x m =? 0) eqn:E1, (Z.land y m =? 0) eqn:E2; bool_to_prop; simpl.
  - by rewrite E1, E2.
  - rewrite E1, Z.lor_0_l. by apply negb_true_iff, Z.eqb_neq.
  - rewrite E2, Z.lor_0_r. by apply negb_true_iff, Z.eqb_neq.
  - apply negb_true_iff, Z.eqb_neq. intros H. apply Z.lor_eq_0_iff in H. tauto.
Qed.

(** Single-bit masks. *)
Lemma has_bits_pow2 x n : 0 <= n -> has_bits x (2 ^ n) = Z.testbit x n.
Proof.
  intros Hn. unfold has_bits. destruct (Z.testbit x n) eqn:E.
  - apply negb_true_iff, Z.eqb_neq. intros H. apply (f_equal (fun v => Z.testbit v n)) in H.
    rewrite Z.land_spec, Z.pow2_bits_true, E, Z.bits_0 in H by done. done.
  - apply negb_false_iff, Z.eqb_eq, Z.bits_inj'. intros m Hm.
    rewrite Z.land_spec, Z.bits_0, Z.pow2_bits_eqb by done.
    destruct (n =? m) eqn:Em; bool_to_prop; [subst; by rewrite E|apply andb_false_r].
Qed.

Lemma has_bits_top x n : 0 <= n -> 0 <= x < 2 ^ (n + 1) -> has_bits x (2 ^ n) = (2 ^ n <=? x).
Proof.
  intros Hn Hx. rewrite has_bits_pow2 by done. rewrite Z.testbit_odd, Z.shiftr_div_pow2 by done.
  rewrite Z.pow_add_r in Hx by lia.
  destruct (2 ^ n <=? x) eqn:E; bool_to_prop.
  - assert (x / 2 ^ n = 1) as -> by (symmetry; apply (Z.div_unique _ _ _ (x - 2 ^ n)); lia). done.
  - by rewrite Z.div_small by lia.
Qed.

Lemma has_bits_odd x : has_bits x 1 = Z.odd x.
Proof. change 1 with (2 ^ 0). by rewrite has_bits_pow2, Z.bit0_odd. Qed.

(** Setting a clear bit adds its weight. *)
Lemma lor_clear_bits x m : has_bits x m = false -> Z.lor x m = x + m.
Proof.
  unfold has_bits. intros H. bool_to_prop.
  by rewrite Z.add_nocarry_lxor, Z.lxor_lor.
Qed.

(** Bits put below a shifted value. *)
Lemma lor_mul_low x k d : 0 <= k -> 0 <= d < 2 ^ k -> Z.lor (x * 2 ^ k) d = x * 2 ^ k + d.
Proof.
  intros Hk Hd. apply lor_clear_bits. unfold has_bits.
  replace d with (Z.land d (Z.ones k)) by (rewrite Z.land_ones by lia; apply Z.mod_small; lia).
  rewrite (Z.land_comm d), Z.land_assoc, Z.land_ones by lia. by rewrite Z.mod_mul by lia.
Qed.

Lemma lor_set_bit x n : 0 <= n -> has_bits x (2 ^ n) = true -> Z.lor x (2 ^ n) = x.
Proof.
  intros Hn. rewrite has_bits_pow2 by done. intros H. apply Z.bits_inj'. intros m Hm.
  rewrite Z.lor_spec, Z.pow2_bits_eqb by done.
  destruct (n =? m) eqn:E; bool_to_prop; [subst; by rewrite H|apply orb_false_r].
Qed.

(** The low bit of a doubled word. *)
Lemma lor_even_1 x (b : bool) : Z.lor (2 * x) (if b then 1 else 0) = 2 * x + (if b then 1 else 0).
Proof.
  destruct b; [|by rewrite Z.lor_0_r, Z.add_0_r].
  apply lor_clear_bits. rewrite has_bits_odd, Z.odd_mul. done.
Qed.

Lemma land_not_1 w x (b : bool) :
  1 <= w -> 0 <= 2 * x + 1 < 2 ^ w -> Z.land (2 * x + (if b then 1 else 0)) (unot w 1) = 2 * x.
Proof.
  intros Hw Hx. unfold unot, uN. rewrite <- Z.land_ones by lia. apply Z.bits_inj'. intros m Hm.
  rewrite !Z.land_spec, Z.lnot_spec by done.
  assert (Z.testbit 1 m = (0 =? m)) as -> by (change 1 with (2 ^ 0); by apply Z.pow2_bits_eqb).
  destruct (0 =? m) eqn:E; bool_to_prop.
  - subst. rewrite !Z.bit0_odd, Z.odd_mul. simpl. by rewrite andb_false_r.
  - destruct (decide (m < w)).
    + rewrite Z.ones_spec_low by lia. simpl. rewrite andb_true_r.
      replace m with (Z.succ (m - 1)) by lia.
      destruct b; rewrite ?Z.testbit_odd_succ, ?Z.add_0_r, ?Z.testbit_even_succ by lia; done.
    + rewrite Z.ones_spec_high by lia. simpl. rewrite andb_false_r. symmetry.
      apply (Z.bits_above_log2); [lia|]. destruct (decide (x = 0)) as [->|]; [simpl; lia|].
      apply Z.log2_lt_pow2; [lia|]. eapply (Z.lt_le_trans _ (2 ^ w)); [lia|]. apply Z.pow_le_mono_r; lia.
Qed.

Lemma cstr_no_nul buf : no_nul (cstr buf).
Proof.
  induction buf as [|b rest IH]; simpl; [apply not_elem_of_nil|].
  destruct (b =? 0) eqn:E; [apply not_elem_of_nil|]. bool_to_prop.
  intros [H|H]%elem_of_cons; [by subst|]. by apply IH.
Qed.

(** A terminated string followed by anything is read back exactly: the bytes
    after the terminator do not matter. *)
Lemma cstr_app s rest : no_nul s -> cstr (s ++ 0 :: rest) = s.
Proof.
  unfold no_nul. induction s as [|b s IH]; simpl; [done|].
  intros [Hb Hs]%not_elem_of_cons. destruct (b =? 0) eqn:E; bool_to_prop; [by subst|].
  by rewrite IH.
Qed.

Lemma length_pad n s : (length s <= n)%nat -> length (pad n s) = n.
Proof. intros H. unfold pad. rewrite length_app, length_replicate. lia. Qed.

Lemma pad_cstr n s : no_nul s -> (length s < n)%nat -> cstr (pad n s) = s.
Proof.
  intros Hs Hn. unfold pad. destruct (n - length s)%nat as [|k] eqn:E; [lia|].
  simpl. by apply cstr_app.
Qed.

(** Padding loses nothing: distinct strings have distinct keys. *)
Lemma pad_inj n s t :
  no_nul s -> no_nul t -> (length s < n)%nat -> (length t < n)%nat ->
  pad n s = pad n t -> s = t.
Proof. intros Hs Ht Hls Hlt E. by rewrite <- (pad_cstr n s), <- (pad_cstr n t), E. Qed.

Lemma nth_replicate_0 k i : nth i (replicate k 0) 0 = 0.
Proof. revert i. induction k as [|k IH]; intros [|i]; simpl; auto. Qed.

Lemma triple_eta {A B C} (c : A * B * C) a : c.1.1 = a -> c = (a, c.1.2, c.2).
Proof. destruct c as [[??]?]. simpl. by intros ->. Qed.

(** Little-endian bytes, as [memcpy] reads them into an integer. *)
Fixpoint of_le (bytes : list Z) : Z :=
  match bytes with [] => 0 | b :: rest => b + 256 * of_le rest end.

Fixpoint to_le (n : nat) (value : Z) : list Z :=
  match n with O => [] | S n => value mod 256 :: to_le n (value / 256) end.

Lemma of_le_to_le n value : 0 <= value < 256 ^ Z.of_nat n -> of_le (to_le n value) = value.
Proof.
  revert value. induction n as [|n IH]; intros value Hv; simpl; [simpl in Hv; lia|].
  rewrite Nat2Z.inj_succ, Z.pow_succ_r in Hv by lia.
  rewrite IH; [pose proof (Z.div_mod value 256); lia|].
  split; [apply Z.div_pos; lia|]. apply Z.div_lt_upper_bound; lia.
Qed.

Lemma length_to_le n value : length (to_le n value) = n.
Proof. revert value. induction n; intros value; simpl; [done|]. by rewrite IHn. Qed.

(** Checks in order, each with the exit code of its failure: the first that
    fails decides. *)
Fixpoint first_failure (checks : list (bool * Z)) : Z :=
  match checks with
  | [] => 0
  | (ok, code) :: rest => if (ok : bool) then first_failure rest else code
  end.

Lemma default_Some {A} (d : A) (o : option A) :
  (match o with Some _ => true | None => false end) = true -> o = Some (default d o).
Proof. by destruct o. Qed.

#[export] Hint Resolve cstr_no_nul : wgps.
