(* ===== verification/Kernel.v ===== *)
(** * Kernel: the helper calls the BPF programs make

    The programs under [src/src/linux/bpf] read kernel memory through helper
    functions that are not part of this repository.  They are parameters: the
    class [KernelReads] has one field per helper, [KernelReadsSpec] states the
    documented behaviour the programs rely on (either the read faults and a
    negative value is returned, or the destination holds the documented
    bytes), and [MappedReads] that a read of mapped memory does not fault.
    [plain_reads] is a concrete instance that never faults. *)
From S2P Require Import Prelude.

Class KernelReads := {
  (** [bpf_probe_read_kernel_str(dst, size, ptr)]: the returned length and the
      destination buffer afterwards; the source is the memory at [ptr]. *)
  probe_read_kernel_str : list Z -> nat -> list Z -> Z * list Z;
  (** [bpf_probe_read_kernel(dst, size, ptr)]: the returned error and the
      destination bytes afterwards, given those it held before. *)
  probe_read_kernel : list Z -> nat -> list Z -> Z * list Z
}.

(** What the string helper documents: at most [size - 1] bytes are copied, the
    copy is terminated, the rest of the destination is not padded, and the
    length returned includes the terminator. *)
Definition str_copied (dst : list Z) (size : nat) (src : list Z) : Z * list Z :=
  let s := take (size - 1) (cstr src) in
  (Z.of_nat (S (length s)), s ++ 0 :: drop (S (length s)) dst).

Definition mem_copied (dst : list Z) (size : nat) (src : list Z) : Z * list Z :=
  (0, take size (src ++ replicate size 0) ++ drop size dst).

Class KernelReadsSpec (R : KernelReads) : Prop := {
  probe_str_spec dst size src :
    (probe_read_kernel_str dst size src).1 < 0 \/
    probe_read_kernel_str dst size src = str_copied dst size src;
  probe_mem_spec dst size src :
    (probe_read_kernel dst size src).1 <> 0 \/
    probe_read_kernel dst size src = mem_copied dst size src
}.

(** Reads of mapped memory: nothing faults. *)
Class MappedReads (R : KernelReads) : Prop := {
  probe_str_mapped dst size src :
    probe_read_kernel_str dst size src = str_copied dst size src;
  probe_mem_mapped dst size src :
    probe_read_kernel dst size src = mem_copied dst size src
}.

#[export] Instance mapped_reads_spec (R : KernelReads) (M : MappedReads R) : KernelReadsSpec R.
Proof. split; intros; right; [apply probe_str_mapped|apply probe_mem_mapped]. Qed.

#[export] Instance plain_reads : KernelReads := {
  probe_read_kernel_str := str_copied;
  probe_read_kernel := mem_copied
}.

#[export] Instance plain_reads_mapped : MappedReads plain_reads.
Proof. split; reflexivity. Qed.

(** A string that fits is copied whole. *)
Lemma str_copied_fits dst size s rest :
  no_nul s -> (length s < size)%nat ->
  str_copied dst size (s ++ 0 :: rest) =
    (Z.of_nat (S (length s)), s ++ 0 :: drop (S (length s)) dst).
Proof.
  intros Hs Hn. unfold str_copied. rewrite cstr_app by done.
  rewrite take_ge by lia. done.
Qed.

(** Into a zero-filled buffer, a string that fits is stored padded. *)
Lemma str_copied_pad n size s rest :
  no_nul s -> (length s < size)%nat -> (size <= n)%nat ->
  str_copied (replicate n 0) size (s ++ 0 :: rest) =
    (Z.of_nat (S (length s)), pad n s).
Proof.
  intros Hs Hsz Hn. rewrite str_copied_fits by done. f_equal. unfold pad.
  rewrite drop_replicate, <- replicate_S. do 2 f_equal. lia.
Qed.
