(* ===== verification/Policy.v ===== *)
(** * Policy: executable selection and the socket classifier

    Models [src/src/linux/bpf/policy.bpf.h] (the enrolled-path maps, the
    per-CPU path buffer and [policy_select]) and
    [src/src/linux/bpf/classifier.bpf.c] (the [socket_post_create] hook that
    marks an included program's sockets). *)
From S2P Require Import Prelude Kernel.

(** ** Data *)

Definition POLICY_ABI : Z := 4.
Definition PATH_BYTES : nat := 4096.
Definition SHORT_PATH_BYTES : nat := 256.

Record policy_config := {
  version : Z; ready : Z; mask : Z; mark : Z;
  root_dev : Z; root_ino : Z; netns : Z; userns : Z
}.

(** The per-CPU buffer: the key being looked up and the resolved path. *)
Record path_scratch := { key : list Z; resolved : list Z }.

Inductive reason :=
  | DIRECT | INCLUDED | BLOCKED | UNSUPPORTED_CONTEXT | EXE_ERROR
  | PATH_ERROR | UNLINKED_IMAGE | UNSUPPORTED_SOCKET | SOCKOPT_ERROR.

#[export] Instance reason_eq_dec : EqDecision reason.
Proof. solve_decision. Defined.

(** The value of the C enumerator, used as the index into [stats]. *)
Definition reason_index (r : reason) : nat :=
  match r with
  | DIRECT => 0 | INCLUDED => 1 | BLOCKED => 2 | UNSUPPORTED_CONTEXT => 3
  | EXE_ERROR => 4 | PATH_ERROR => 5 | UNLINKED_IMAGE => 6
  | UNSUPPORTED_SOCKET => 7 | SOCKOPT_ERROR => 8
  end.

(** The maps of one CPU.  Array lookups are checked for NULL by the code, so
    the two single-entry arrays are optional here. *)
Record policy_maps := {
  paths : gmap (list Z) Z;
  paths_short : gmap (list Z) Z;
  policy_cfg : option policy_config;
  scratch : option path_scratch;
  stats : list Z
}.

Definition set_scratch (pm : policy_maps) (w : path_scratch) : policy_maps :=
  {| paths := paths pm; paths_short := paths_short pm;
     policy_cfg := policy_cfg pm; scratch := Some w; stats := stats pm |}.

Definition set_stats (pm : policy_maps) (s : list Z) : policy_maps :=
  {| paths := paths pm; paths_short := paths_short pm;
     policy_cfg := policy_cfg pm; scratch := scratch pm; stats := s |}.

(** What the hooks can observe of a running image: its inode's link count (no
    inode reads as [None]), whether its dentry is hashed ([d_hash.pprev]), its
    dentry operations ([Some b]: present, with [d_dname] set or not), and what
    [bpf_path_d_path] returns and leaves in the buffer given its old content. *)
Record exe_file := {
  x_nlink : option Z;
  x_hashed : bool;
  x_ops : option bool;
  x_d_path : list Z -> Z * list Z
}.

(** The current task: its root inode, its network namespace and its image. *)
Record task := {
  t_root_ino : Z; t_root_dev : Z; t_netns : Z; t_exe : option exe_file
}.

(** ** Operations *)

(** Count [r] and return [allow]. *)
Definition result (pm : policy_maps) (r : reason) (allow : Z) : Z * policy_maps :=
  (allow, set_stats pm (alter (fun c => u64 (c + 1)) (reason_index r) (stats pm))).

Definition synthetic_file (f : exe_file) : bool :=
  match x_ops f with Some d_dname => d_dname | None => false end.

Definition linked_file (f : exe_file) : bool :=
  match x_nlink f with Some n => negb (n =? 0) | None => false end &&
  x_hashed f &&
  match x_ops f with None => true | Some d_dname => negb d_dname end.

(** The eleven bytes d_path appends to an unlinked name, terminator included. *)
Definition deleted_suffix : list Z := str " (deleted)" ++ [0].

Definition tail_is_deleted (buf : list Z) (cut : nat) : bool :=
  forallb (fun i => rd buf (cut + i) =? rd deleted_suffix i) (seq 0 11).

Section Operations.
Context {R : KernelReads}.

(** Zero [n] bytes of the key, copy the resolved path over it and compare the
    copied length with the resolved one; [None] is a mismatch. *)
Definition fill_key (n : nat) (work : path_scratch) (len : Z) : option (list Z) * path_scratch :=
  let zeroed := replicate n 0 ++ drop n (key work) in
  let '(copied, key') := probe_read_kernel_str zeroed n (resolved work) in
  let work' := {| key := key'; resolved := resolved work |} in
  (if copied =? len then Some (take n key') else None, work').

(** The lookup that follows resolution: the short tier when the path with its
    terminator fits it. *)
Definition lookup_path (pm : policy_maps) (work : path_scratch) (len : Z) (linked : bool)
  : reason * path_scratch :=
  let short := len <=? Z.of_nat SHORT_PATH_BYTES in
  let '(k, work') := fill_key (if short then SHORT_PATH_BYTES else PATH_BYTES) work len in
  match k with
  | None => (PATH_ERROR, work')
  | Some k =>
      match (if short then paths_short pm else paths pm) !! k with
      | None => (DIRECT, work')
      | Some _ => (if linked then INCLUDED else UNLINKED_IMAGE, work')
      end
  end.

Definition resolve_policy (pm : policy_maps) (exe : exe_file) : reason * policy_maps :=
  match scratch pm with
  | None => (PATH_ERROR, pm)
  | Some work0 =>
      let '(len, buf) := x_d_path exe (resolved work0) in
      let work := {| key := key work0; resolved := buf |} in
      let linked := linked_file exe in
      let finish '(r, w) := (r, set_scratch pm w) in
      if (len <=? 1) || (Z.of_nat PATH_BYTES <? len) || negb (rd buf 0 =? 47)
      then finish (PATH_ERROR, work)
      else if linked then finish (lookup_path pm work len true)
      else if synthetic_file exe then finish (UNLINKED_IMAGE, work)
      else if len <? 12 then finish (PATH_ERROR, work)
      else
        let cut := u32 (len - 11) in
        if Z.of_nat PATH_BYTES - 11 <? cut then finish (PATH_ERROR, work)
        else if negb (tail_is_deleted buf (Z.to_nat cut)) then finish (PATH_ERROR, work)
        else
          let work1 := {| key := key work; resolved := <[Z.to_nat cut := 0]> buf |} in
          finish (lookup_path pm work1 (cut + 1) false)
  end.

(** Preemption is disabled around [resolve_policy], so no other program of
    this CPU touches the buffer inside it: it is one step here. *)
Definition policy_select (pm : policy_maps) (t : task) : reason * policy_maps :=
  match policy_cfg pm with
  | None => (BLOCKED, pm)
  | Some cfg =>
      if negb (version cfg =? POLICY_ABI) then (BLOCKED, pm)
      else if negb (t_root_ino t =? root_ino cfg) || negb (t_root_dev t =? root_dev cfg) ||
              negb (t_netns t =? netns cfg)
      then (UNSUPPORTED_CONTEXT, pm)
      else match t_exe t with
           | None => (EXE_ERROR, pm)
           | Some exe => resolve_policy pm exe
           end
  end.

(** ** The classifier *)

(** The socket a [socket_post_create] call sees: no [struct sock], or one with
    a mark and the outcomes of reading and writing it. *)
Record new_socket := {
  so_mark : Z; getsockopt_fails : bool; setsockopt_fails : bool
}.

(** [classify(sock, family, type, protocol, kern)]: the verdict (1 grants), the
    socket's mark afterwards ([None] for a socket without [sk]) and the maps. *)
Definition classify (pm : policy_maps) (t : task) (sk : option new_socket)
    (family type protocol : Z) (kern : bool) : Z * option Z * policy_maps :=
  let old := so_mark <$> sk in
  let deny r pm := let '(v, pm') := result pm r 0 in (v, old, pm') in
  if kern || (negb (family =? 2) && negb (family =? 10) && negb (family =? 17))
  then (1, old, pm)
  else
    let '(selection, pm1) := policy_select pm t in
    if negb (bool_decide (selection = INCLUDED)) then
      let '(v, pm2) := result pm1 selection
        (if bool_decide (selection = DIRECT) || bool_decide (selection = UNSUPPORTED_CONTEXT)
         then 1 else 0) in
      (v, old, pm2)
    else
      match policy_cfg pm1 with
      | None => deny BLOCKED pm1
      | Some cfg =>
          if negb (family =? 2) || (negb (type =? 1) && negb (type =? 2)) ||
             (negb (protocol =? 0) && negb (protocol =? 6) && negb (protocol =? 17))
          then deny UNSUPPORTED_SOCKET pm1
          else if ready cfg =? 0 then deny BLOCKED pm1
          else match sk with
               | None => deny SOCKOPT_ERROR pm1
               | Some s =>
                   if getsockopt_fails s then deny SOCKOPT_ERROR pm1
                   else
                     let m := Z.lor (Z.land (so_mark s) (unot 32 (mask cfg))) (mark cfg) in
                     if setsockopt_fails s then deny SOCKOPT_ERROR pm1
                     else let '(v, pm2) := result pm1 INCLUDED 1 in (v, Some m, pm2)
               end
      end.
End Operations.

(** ** Enrollment by the loader *)

(** The tier of a key: [maps[1]] (paths_short) when the name is short. *)
Definition path_map_spec (k : list Z) : bool := (length (cstr k) <? SHORT_PATH_BYTES)%nat.

(** [bpf_map_update_elem(fd, key, value, BPF_NOEXIST)] on a 1024-entry hash
    map: [None] when the key exists or the map is full. *)
Definition map_add_new (m : gmap (list Z) Z) (k : list Z) (v : Z) : option (gmap (list Z) Z) :=
  if bool_decide (is_Some (m !! k)) || (1024 <=? size m)%nat then None else Some (<[k := v]> m).

Definition set_paths (pm : policy_maps) (long short : gmap (list Z) Z) : policy_maps :=
  {| paths := long; paths_short := short; policy_cfg := policy_cfg pm;
     scratch := scratch pm; stats := stats pm |}.

Definition initialize_path (pm : policy_maps) (k : list Z) : option policy_maps :=
  if path_map_spec k then
    m ← map_add_new (paths_short pm) (take SHORT_PATH_BYTES k) 1; Some (set_paths pm (paths pm) m)
  else
    m ← map_add_new (paths pm) k 1; Some (set_paths pm m (paths_short pm)).

Fixpoint initialize_each (pm : policy_maps) (keys : list (list Z)) : option policy_maps :=
  match keys with
  | [] => Some pm
  | k :: rest => pm' ← initialize_path pm k; initialize_each pm' rest
  end.

(** [None] is the exception [fail] or [check] raises. *)
Definition initialize_paths (pm : policy_maps) (keys : list (list Z)) : option policy_maps :=
  if (1024 <? length keys)%nat then None else initialize_each pm keys.

(** ** Specification *)

(** The enrollment the two maps describe: [p] is enrolled when its padded key
    is present in the tier its length selects. *)
Definition enrolled (pm : policy_maps) (p : list Z) : bool :=
  if (length p <? SHORT_PATH_BYTES)%nat
  then bool_decide (is_Some (paths_short pm !! pad SHORT_PATH_BYTES p))
  else bool_decide (is_Some (paths pm !! pad PATH_BYTES p)).

(** An absolute path the kernel's buffer can hold. *)
Definition abs_path (p : list Z) : Prop :=
  no_nul p /\ head p = Some 47 /\ (length p < PATH_BYTES)%nat.

(** [bpf_path_d_path] resolves the image to [p]: it returns the length with
    the terminator and leaves [p], a NUL and arbitrary bytes in the buffer. *)
Definition d_path_is (exe : exe_file) (p : list Z) : Prop :=
  forall buf, length buf = PATH_BYTES ->
  exists rest, x_d_path exe buf = (Z.of_nat (S (length p)), p ++ 0 :: rest) /\
    length (p ++ 0 :: rest) = PATH_BYTES.

(** A CPU whose buffer exists and has its declared size. *)
Definition scratch_ok (pm : policy_maps) : Prop :=
  exists w, scratch pm = Some w /\ length (key w) = PATH_BYTES /\
    length (resolved w) = PATH_BYTES.

(** The configuration the loader accepts: a mark contained in a 32-bit mask. *)
Definition marks_ok (cfg : policy_config) : Prop :=
  0 <= mask cfg < 2 ^ 32 /\ 0 <= mark cfg < 2 ^ 32 /\ Z.land (mark cfg) (unot 32 (mask cfg)) = 0.

(** The sockets the classifier lets an included program create. *)
Definition supported_socket (family type protocol : Z) : Prop :=
  family = 2 /\ (type = 1 \/ type = 2) /\ (protocol = 0 \/ protocol = 6 \/ protocol = 17).

(** ** Lemmas *)

Lemma take_pad n p rest :
  (length p < n)%nat ->
  take n (p ++ 0 :: drop (S (length p)) (replicate n 0 ++ rest)) = pad n p.
Proof.
  intros Hn. unfold pad. rewrite drop_app_le by (rewrite length_replicate; lia).
  rewrite drop_replicate, app_comm_cons, <- replicate_S, app_assoc.
  rewrite take_app_length'; [do 2 f_equal; lia|].
  rewrite length_app, length_replicate. lia.
Qed.

Section Lemmas.
Context {R : KernelReads}.

Lemma fill_key_mapped `{!MappedReads R} n work p rest :
  no_nul p -> (length p < n)%nat -> resolved work = p ++ 0 :: rest ->
  (fill_key n work (Z.of_nat (S (length p)))).1 = Some (pad n p).
Proof.
  intros Hp Hn Hw. unfold fill_key. rewrite probe_str_mapped, Hw, str_copied_fits by done.
  cbn -[Z.of_nat take]. rewrite Z.eqb_refl. f_equal. by apply take_pad.
Qed.

Lemma fill_key_spec `{!KernelReadsSpec R} n work p rest :
  no_nul p -> (length p < n)%nat -> resolved work = p ++ 0 :: rest ->
  (fill_key n work (Z.of_nat (S (length p)))).1 ∈ [None; Some (pad n p)].
Proof.
  intros Hp Hn Hw. unfold fill_key.
  destruct (probe_str_spec (replicate n 0 ++ drop n (key work)) n (resolved work)) as [Hf|Heq].
  - destruct (probe_read_kernel_str _ _ _) as [copied k] eqn:E. simpl in *.
    destruct (copied =? _) eqn:Ec; bool_to_prop; [lia|]. constructor.
  - rewrite Heq, Hw, str_copied_fits by done. cbn -[Z.of_nat take].
    rewrite Z.eqb_refl, take_pad by done. set_solver.
Qed.

(** The tier chosen by the length with its terminator is the one [enrolled]
    uses for the path itself. *)
Lemma tier_of_length (p : list Z) :
  (Z.of_nat (S (length p)) <=? Z.of_nat SHORT_PATH_BYTES) = (length p <? SHORT_PATH_BYTES)%nat.
Proof.
  destruct (length p <? _)%nat eqn:E; bool_to_prop; [apply Z.leb_le|apply Z.leb_gt]; lia.
Qed.

(** The key size of that tier holds the path. *)
Lemma tier_fits (p : list Z) :
  (length p < PATH_BYTES)%nat ->
  (length p < if (length p <? SHORT_PATH_BYTES)%nat then SHORT_PATH_BYTES else PATH_BYTES)%nat.
Proof. intros H. destruct (length p <? _)%nat eqn:E; bool_to_prop; done. Qed.

(** [enrolled] as a lookup in the selected tier. *)
Lemma enrolled_tier pm p :
  enrolled pm p = bool_decide (is_Some
    ((if (length p <? SHORT_PATH_BYTES)%nat then paths_short pm else paths pm) !!
     pad (if (length p <? SHORT_PATH_BYTES)%nat then SHORT_PATH_BYTES else PATH_BYTES) p)).
Proof. unfold enrolled. by destruct (length p <? _)%nat. Qed.

Lemma lookup_path_mapped `{!MappedReads R} pm work p rest linked :
  no_nul p -> (length p < PATH_BYTES)%nat -> resolved work = p ++ 0 :: rest ->
  (lookup_path pm work (Z.of_nat (S (length p))) linked).1 =
    if enrolled pm p then if linked then INCLUDED else UNLINKED_IMAGE else DIRECT.
Proof.
  intros Hp Hn Hw. unfold lookup_path. rewrite tier_of_length, enrolled_tier.
  pose proof (fill_key_mapped _ work p rest Hp (tier_fits p Hn) Hw) as Hk.
  destruct (fill_key _ work _) as [k w'] eqn:Ek. cbn [fst] in Hk. subst k.
  destruct (_ !! pad _ p); case_bool_decide as Hs; try done.
  by destruct Hs.
Qed.

Lemma lookup_path_never_direct `{!KernelReadsSpec R} pm work p rest linked :
  no_nul p -> (length p < PATH_BYTES)%nat -> resolved work = p ++ 0 :: rest ->
  enrolled pm p = true ->
  (lookup_path pm work (Z.of_nat (S (length p))) linked).1 <> DIRECT.
Proof.
  intros Hp Hn Hw. unfold lookup_path. rewrite tier_of_length, enrolled_tier.
  intros [v Hv]%bool_decide_eq_true.
  pose proof (fill_key_spec _ work p rest Hp (tier_fits p Hn) Hw) as Hk.
  destruct (fill_key _ work _) as [k w'] eqn:Ek. cbn [fst] in Hk.
  destruct k as [k|]; [|done].
  apply list_elem_of_In in Hk as [?|[[= <-]|[]]]; [done|]. rewrite Hv. by destruct linked.
Qed.

Lemma rd_head p rest : head p = Some 47 -> rd (p ++ 0 :: rest) 0 = 47.
Proof. destruct p; simpl; intros; by simplify_eq. Qed.

(** The guards at the top of [resolve_policy] pass on any absolute path. *)
Lemma resolve_guards p rest :
  abs_path p ->
  (Z.of_nat (S (length p)) <=? 1) || (Z.of_nat PATH_BYTES <? Z.of_nat (S (length p))) ||
  negb (rd (p ++ 0 :: rest) 0 =? 47) = false.
Proof.
  intros (Hp & Hh & Hl). rewrite rd_head by done. destruct p; [done|].
  rewrite Z.eqb_refl. simpl length in *.
  repeat (apply orb_false_iff; split); [apply Z.leb_gt|apply Z.ltb_ge|done]; lia.
Qed.

(** Only the buffer changes in a selection. *)
Lemma policy_select_frame pm t :
  policy_cfg (policy_select pm t).2 = policy_cfg pm /\
  stats (policy_select pm t).2 = stats pm /\
  paths (policy_select pm t).2 = paths pm /\
  paths_short (policy_select pm t).2 = paths_short pm.
Proof.
  unfold policy_select, resolve_policy.
  repeat (case_match; simpl; try done).
Qed.

Lemma cut_tail_deleted p rest :
  tail_is_deleted ((p ++ str " (deleted)") ++ 0 :: rest) (length p) = true.
Proof.
  unfold tail_is_deleted. apply forallb_forall. intros i Hi%in_seq.
  unfold rd. rewrite <- app_assoc. rewrite app_nth2 by lia.
  replace (length p + i - length p)%nat with i by lia.
  do 11 (destruct i as [|i]; [reflexivity|]). lia.
Qed.

Lemma insert_cut p rest :
  <[length p := 0]> ((p ++ str " (deleted)") ++ 0 :: rest) =
    p ++ 0 :: (str "(deleted)" ++ 0 :: rest).
Proof.
  rewrite <- app_assoc, insert_app_r_alt by lia. by rewrite Nat.sub_diag.
Qed.

Lemma resolve_linked_path `{!MappedReads R} pm exe p :
  scratch_ok pm -> abs_path p -> linked_file exe = true -> d_path_is exe p ->
  (resolve_policy pm exe).1 = if enrolled pm p then INCLUDED else DIRECT.
Proof.
  intros (w & Hw & Hk & Hr) Hp Hlink Hd. unfold resolve_policy. rewrite Hw.
  destruct (Hd (resolved w) Hr) as (rest & -> & _).
  rewrite resolve_guards, Hlink by done. destruct Hp as (Hn & _ & Hl).
  pose proof (lookup_path_mapped pm {| key := key w; resolved := p ++ 0 :: rest |}
    p rest true Hn Hl eq_refl) as E.
  destruct (lookup_path _ _ _ _). cbn in *. by subst.
Qed.

Lemma resolve_unlinked_path `{!MappedReads R} pm exe p :
  scratch_ok pm -> abs_path (p ++ str " (deleted)") ->
  linked_file exe = false -> synthetic_file exe = false ->
  p <> [] -> d_path_is exe (p ++ str " (deleted)") ->
  (resolve_policy pm exe).1 = if enrolled pm p then UNLINKED_IMAGE else DIRECT.
Proof.
  intros (w & Hw & Hk & Hr) Hp Hlink Hsyn Hne Hd. unfold resolve_policy. rewrite Hw.
  destruct (Hd (resolved w) Hr) as (rest & -> & Hlen).
  rewrite resolve_guards, Hlink, Hsyn by done.
  destruct Hp as (Hn & Hh & Hl). rewrite length_app in *.
  change (length (str " (deleted)")) with 10%nat in *.
  assert (length p <> 0%nat) by (by destruct p).
  destruct (_ <? 12) eqn:E12; bool_to_prop; [lia|].
  replace (u32 (Z.of_nat (S (length p + 10)) - 11)) with (Z.of_nat (length p))
    by (unfold uN, PATH_BYTES in *; rewrite Z.mod_small; lia).
  destruct (_ <? Z.of_nat (length p)) eqn:Ecut; bool_to_prop; [lia|].
  rewrite Nat2Z.id, cut_tail_deleted. cbn [negb]. rewrite insert_cut.
  replace (Z.of_nat (length p) + 1) with (Z.of_nat (S (length p))) by lia.
  assert (no_nul p) by (intros ?; apply Hn; set_solver).
  pose proof (lookup_path_mapped pm
    {| key := key w; resolved := p ++ 0 :: str "(deleted)" ++ 0 :: rest |}
    p _ false ltac:(done) ltac:(lia) eq_refl) as E.
  destruct (lookup_path _ _ _ _). cbn in *. by subst.
Qed.
End Lemmas.

(** The new mark: inside the mask the configured mark, outside it the old one. *)
Lemma masked_mark_bit old m k i :
  0 <= m < 2 ^ 32 -> 0 <= k < 2 ^ 32 -> Z.land k (unot 32 m) = 0 -> 0 <= i < 32 ->
  Z.testbit (Z.lor (Z.land old (unot 32 m)) k) i =
    if Z.testbit m i then Z.testbit k i else Z.testbit old i.
Proof.
  intros Hm Hk Hsub Hi. rewrite Z.lor_spec, Z.land_spec. unfold unot, uN in *.
  assert (Hnot : Z.testbit (Z.lnot m mod 2 ^ 32) i = negb (Z.testbit m i)).
  { rewrite Z.mod_pow2_bits_low by lia. apply Z.lnot_spec. lia. }
  rewrite Hnot. destruct (Z.testbit m i) eqn:Em; simpl; [by rewrite andb_false_r|].
  rewrite andb_true_r. destruct (Z.testbit k i) eqn:Ek; [|by rewrite orb_false_r].
  exfalso. apply (f_equal (fun z => Z.testbit z i)) in Hsub.
  rewrite Z.land_spec, Hnot, Ek, Z.bits_0 in Hsub. done.
Qed.

Lemma family_covered (family : Z) :
  family ∈ [2; 10; 17] ->
  false || (negb (family =? 2) && negb (family =? 10) && negb (family =? 17)) = false.
Proof. intros H. repeat (apply elem_of_cons in H as [->|H]; [reflexivity|]). set_solver. Qed.

Lemma supported_socketb family type protocol :
  negb (family =? 2) || (negb (type =? 1) && negb (type =? 2)) ||
  (negb (protocol =? 0) && negb (protocol =? 6) && negb (protocol =? 17)) = false ->
  supported_socket family type protocol.
Proof. unfold supported_socket. lia. Qed.

Lemma take_pad_short p :
  (length p < SHORT_PATH_BYTES)%nat ->
  take SHORT_PATH_BYTES (pad PATH_BYTES p) = pad SHORT_PATH_BYTES p.
Proof.
  intros H. unfold pad. rewrite take_app, take_ge, take_replicate by lia.
  do 2 f_equal. unfold SHORT_PATH_BYTES, PATH_BYTES in *. lia.
Qed.

(** Enrolling one key adds exactly its path. *)
Lemma initialize_path_enrolled pm q pm' p :
  abs_path q -> abs_path p -> initialize_path pm (pad PATH_BYTES q) = Some pm' ->
  enrolled pm' p = bool_decide (p = q) || enrolled pm p.
Proof.
  intros (Hq & _ & Hlq) (Hp & _ & Hlp). unfold initialize_path, path_map_spec, map_add_new.
  rewrite pad_cstr by done. unfold enrolled.
  destruct (length q <? SHORT_PATH_BYTES)%nat eqn:Eq;
  (destruct (_ || _); simpl; [done|]); intros [= <-]; simpl; bool_to_prop;
  destruct (length p <? SHORT_PATH_BYTES)%nat eqn:Ep; bool_to_prop.
  - rewrite take_pad_short by done. rewrite lookup_insert.
    destruct (decide (p = q)) as [->|Hne].
    + by rewrite decide_True, (bool_decide_true (q = q)) by done.
    + rewrite decide_False, (bool_decide_false (p = q)); [done..|].
      intros E. apply Hne. by apply (pad_inj SHORT_PATH_BYTES).
  - rewrite (bool_decide_false (p = q)); [done|]. intros ->. lia.
  - rewrite (bool_decide_false (p = q)); [done|]. intros ->. lia.
  - rewrite lookup_insert. destruct (decide (p = q)) as [->|Hne].
    + by rewrite decide_True, (bool_decide_true (q = q)) by done.
    + rewrite decide_False, (bool_decide_false (p = q)); [done..|].
      intros E. apply Hne. by apply (pad_inj PATH_BYTES).
Qed.

Lemma initialize_enrolled pm ps pm' p :
  Forall abs_path ps -> abs_path p ->
  initialize_paths pm (pad PATH_BYTES <$> ps) = Some pm' ->
  enrolled pm' p = bool_decide (p ∈ ps) || enrolled pm p.
Proof.
  unfold initialize_paths. destruct (_ <? _)%nat; [done|]. intros Hps Hp.
  revert pm. induction Hps as [|q ps Hq Hps IH]; intros pm; simpl; [by intros [= ->]|].
  destruct (initialize_path pm _) as [pm1|] eqn:E1; simpl; [|done]. intros E2.
  rewrite (IH _ E2), (initialize_path_enrolled _ _ _ _ Hq Hp E1).
  destruct (enrolled pm p); [by rewrite !orb_true_r|]. rewrite !orb_false_r.
  apply eq_true_iff_eq. rewrite orb_true_iff, !bool_decide_eq_true, elem_of_cons. tauto.
Qed.

(** ** Properties *)

Section Properties.
Context {R : KernelReads}.

(** C2: a running image that is still linked is classified by its exact
    resolved path, whatever the per-CPU buffer held before and whatever bytes
    d_path leaves behind the terminator: INCLUDED when the path is enrolled in
    the tier of its length, DIRECT otherwise. *)
Theorem policy_select_linked `{!MappedReads R} pm t cfg exe p :
  policy_cfg pm = Some cfg -> version cfg = POLICY_ABI ->
  t_root_ino t = root_ino cfg -> t_root_dev t = root_dev cfg -> t_netns t = netns cfg ->
  t_exe t = Some exe -> scratch_ok pm -> abs_path p ->
  linked_file exe = true -> d_path_is exe p ->
  (policy_select pm t).1 = if enrolled pm p then INCLUDED else DIRECT.
Proof.
  intros Hc Hv H1 H2 H3 He Hs Hp Hl Hd. unfold policy_select.
  rewrite Hc, Hv, H1, H2, H3, He, !Z.eqb_refl. simpl. by apply resolve_linked_path.
Qed.

(** An image whose file was unlinked or replaced: d_path's " (deleted)"
    suffix is cut off and the exact old path decides; an enrolled one is
    refused (UNLINKED_IMAGE), any other stays DIRECT. *)
Theorem policy_select_unlinked `{!MappedReads R} pm t cfg exe p :
  policy_cfg pm = Some cfg -> version cfg = POLICY_ABI ->
  t_root_ino t = root_ino cfg -> t_root_dev t = root_dev cfg -> t_netns t = netns cfg ->
  t_exe t = Some exe -> scratch_ok pm -> abs_path (p ++ str " (deleted)") -> p <> [] ->
  linked_file exe = false -> synthetic_file exe = false ->
  d_path_is exe (p ++ str " (deleted)") ->
  (policy_select pm t).1 = if enrolled pm p then UNLINKED_IMAGE else DIRECT.
Proof.
  intros Hc Hv H1 H2 H3 He Hs Hp Hne Hl Hsyn Hd. unfold policy_select.
  rewrite Hc, Hv, H1, H2, H3, He, !Z.eqb_refl. simpl. by apply resolve_unlinked_path.
Qed.

(** C4: when the classifier grants a socket to an included program, the socket
    is an IPv4 TCP or UDP one, the guard is ready, and the socket carries the
    configured mark: its bits inside the mask are the configured ones and the
    others keep their value. *)
Theorem classify_included_marked pm t cfg sk family type protocol m pm' :
  policy_cfg pm = Some cfg -> marks_ok cfg ->
  (policy_select pm t).1 = INCLUDED -> family ∈ [2; 10; 17] ->
  classify pm t sk family type protocol false = (1, m, pm') ->
  supported_socket family type protocol /\ ready cfg <> 0 /\
  exists s new, sk = Some s /\ m = Some new /\
    forall i, 0 <= i < 32 ->
    Z.testbit new i = if Z.testbit (mask cfg) i then Z.testbit (mark cfg) i
                      else Z.testbit (so_mark s) i.
Proof.
  intros Hc (Hm & Hk & Hsub) Hsel Hfam. unfold classify.
  rewrite family_covered by done.
  destruct (policy_select_frame pm t) as (Hcfg & _).
  destruct (policy_select pm t) as [sel pm1]. simpl in Hsel, Hcfg. subst sel.
  rewrite Hcfg, Hc, bool_decide_true by done. cbn [negb].
  destruct (_ || _) eqn:Esup; [done|]. apply supported_socketb in Esup.
  destruct (ready cfg =? 0) eqn:Er; [done|]. bool_to_prop.
  destruct sk as [s|]; [|done].
  destruct (getsockopt_fails s); [done|]. destruct (setsockopt_fails s); [done|].
  intros [= <- <-]. split; [done|]. split; [done|]. eexists s, _. split; [done|].
  split; [done|]. intros i Hi. by apply masked_mark_bit.
Qed.

(** A creator that is not INCLUDED never gets a marked socket: whatever
    the verdict, the mark stays as it was, and the socket is granted exactly
    when the creator is DIRECT or outside the host context. *)
Theorem classify_unmarked pm t sk family type protocol :
  family ∈ [2; 10; 17] -> (policy_select pm t).1 <> INCLUDED ->
  (classify pm t sk family type protocol false).1 =
    (if bool_decide ((policy_select pm t).1 ∈ [DIRECT; UNSUPPORTED_CONTEXT]) then 1 else 0,
     so_mark <$> sk).
Proof.
  intros Hfam Hsel. unfold classify. rewrite family_covered by done.
  destruct (policy_select pm t) as [sel pm1]. simpl in Hsel |- *.
  rewrite bool_decide_false by done. by destruct sel.
Qed.

(** C3: reads that fault fail closed: whatever the kernel's string copy does,
    a linked image whose path is enrolled is never classified DIRECT. *)
Theorem policy_select_never_direct `{!KernelReadsSpec R} pm t exe p :
  t_exe t = Some exe -> scratch_ok pm -> abs_path p ->
  linked_file exe = true -> d_path_is exe p -> enrolled pm p = true ->
  (policy_select pm t).1 <> DIRECT.
Proof.
  intros He (w & Hw & Hk & Hr) Hp Hlink Hd Hen. unfold policy_select.
  repeat (case_match; try done). simplify_eq. unfold resolve_policy. rewrite Hw.
  destruct (Hd (resolved w) Hr) as (rest & -> & _).
  rewrite resolve_guards, Hlink by done. destruct Hp as (Hn & _ & Hl).
  pose proof (lookup_path_never_direct pm {| key := key w; resolved := p ++ 0 :: rest |}
    p rest true Hn Hl eq_refl Hen) as Hnd.
  by destruct (lookup_path _ _ _ _).
Qed.
End Properties.

(** The loader and the classifier agree on enrollment: after
    [initialize_paths] filled empty maps, a path is enrolled exactly when it
    was given to the loader. *)
Theorem initialize_paths_enrolled pm ps pm' p :
  paths pm = ∅ -> paths_short pm = ∅ ->
  Forall abs_path ps -> abs_path p ->
  initialize_paths pm (pad PATH_BYTES <$> ps) = Some pm' ->
  enrolled pm' p = bool_decide (p ∈ ps).
Proof.
  intros H1 H2 Hps Hp Hi. rewrite (initialize_enrolled _ _ _ _ Hps Hp Hi).
  replace (enrolled pm p) with false.
  - apply orb_false_r.
  - unfold enrolled. rewrite H1, H2. by destruct (length p <? _)%nat.
Qed.

(** ** A concrete host *)

Definition demo_path : list Z := str "/usr/bin/curl".
Definition demo_cfg : policy_config :=
  {| version := 4; ready := 1; mask := 255; mark := 17;
     root_dev := 8; root_ino := 2; netns := 7; userns := 9 |}.
Definition demo_maps : policy_maps :=
  {| paths := ∅; paths_short := {[ pad SHORT_PATH_BYTES demo_path := 1 ]};
     policy_cfg := Some demo_cfg;
     scratch := Some {| key := replicate PATH_BYTES 255; resolved := replicate PATH_BYTES 254 |};
     stats := replicate 9 0 |}.
Definition demo_exe (linked : bool) (p : list Z) : exe_file :=
  {| x_nlink := Some (if linked then 1 else 0); x_hashed := linked; x_ops := None;
     x_d_path := fun _ => (Z.of_nat (S (length p)), p ++ 0 :: replicate (PATH_BYTES - S (length p)) 88) |}.
Definition demo_task (linked : bool) (p : list Z) : task :=
  {| t_root_ino := 2; t_root_dev := 8; t_netns := 7; t_exe := Some (demo_exe linked p) |}.

Lemma demo_d_path linked p : (length p < PATH_BYTES)%nat -> d_path_is (demo_exe linked p) p.
Proof.
  intros Hp buf _. eexists. split; [reflexivity|].
  rewrite length_app, length_cons, length_replicate. lia.
Qed.

Lemma demo_scratch : scratch_ok demo_maps.
Proof. eexists. split; [reflexivity|]. split; apply length_replicate. Qed.

Lemma demo_abs (s : String.string) :
  forallb (fun b => negb (b =? 0)) (str s) = true -> head (str s) = Some 47 ->
  (length (str s) <? PATH_BYTES)%nat = true -> abs_path (str s).
Proof.
  intros H1 H2 H3. bool_to_prop. split; [|done]. intros Hin%list_elem_of_In.
  by apply (forallb_forall (fun b => negb (b =? 0))) with (x := 0) in H1.
Qed.

Lemma policy_select_linked_witness :
  (policy_select (R:=plain_reads) demo_maps (demo_task true demo_path)).1 = INCLUDED.
Proof.
  rewrite (policy_select_linked demo_maps (demo_task true demo_path) demo_cfg
    (demo_exe true demo_path) demo_path).
  1: vm_compute; reflexivity.
  all: try reflexivity.
  - apply demo_scratch.
  - by apply demo_abs.
  - apply demo_d_path. vm_compute. lia.
Defined.

Lemma policy_select_unlinked_witness :
  (policy_select (R:=plain_reads) demo_maps
     (demo_task false (demo_path ++ str " (deleted)"))).1 = UNLINKED_IMAGE.
Proof.
  rewrite (policy_select_unlinked demo_maps _ demo_cfg
    (demo_exe false (demo_path ++ str " (deleted)")) demo_path).
  1: vm_compute; reflexivity.
  all: try reflexivity.
  - apply demo_scratch.
  - by apply (demo_abs "/usr/bin/curl (deleted)").
  - vm_compute. congruence.
  - apply demo_d_path. vm_compute. lia.
Defined.

Definition demo_socket : new_socket :=
  {| so_mark := 4096; getsockopt_fails := false; setsockopt_fails := false |}.

Lemma classify_included_marked_witness :
  supported_socket 2 1 6 /\ ready demo_cfg <> 0 /\
  exists s new, Some demo_socket = Some s /\
    (classify (R:=plain_reads) demo_maps (demo_task true demo_path) (Some demo_socket) 2 1 6 false).1.2
      = Some new /\
    forall i, 0 <= i < 32 ->
    Z.testbit new i = if Z.testbit (mask demo_cfg) i then Z.testbit (mark demo_cfg) i
                      else Z.testbit (so_mark s) i.
Proof.
  eapply (classify_included_marked (R:=plain_reads) demo_maps (demo_task true demo_path)).
  - reflexivity.
  - repeat split; vm_compute; congruence.
  - vm_compute. reflexivity.
  - constructor.
  - apply triple_eta. vm_compute. reflexivity.
Defined.

Lemma classify_unmarked_witness :
  (classify (R:=plain_reads) demo_maps (demo_task true (str "/usr/bin/wget"))
    (Some demo_socket) 2 1 6 false).1 = (1, Some 4096).
Proof.
  rewrite (classify_unmarked (R:=plain_reads) demo_maps (demo_task true (str "/usr/bin/wget"))).
  - vm_compute. reflexivity.
  - constructor.
  - vm_compute. congruence.
Defined.

Lemma policy_select_never_direct_witness :
  (policy_select (R:=plain_reads) demo_maps (demo_task true demo_path)).1 <> DIRECT.
Proof.
  apply (policy_select_never_direct demo_maps (demo_task true demo_path)
    (demo_exe true demo_path) demo_path).
  all: try reflexivity.
  - apply demo_scratch.
  - by apply demo_abs.
  - apply demo_d_path. vm_compute. lia.
Defined.

Definition demo_loaded : policy_maps :=
  default demo_maps (initialize_paths (set_paths demo_maps ∅ ∅) (pad PATH_BYTES <$> [demo_path])).

Lemma initialize_paths_enrolled_witness :
  enrolled demo_loaded demo_path = true /\ enrolled demo_loaded (str "/usr/bin/wget") = false.
Proof.
  split.
  all: rewrite (initialize_paths_enrolled (set_paths demo_maps ∅ ∅) [demo_path] demo_loaded).
  all: try reflexivity.
  all: try (apply default_Some; vm_compute; reflexivity).
  all: try (apply List.Forall_cons; [|apply List.Forall_nil]); by apply demo_abs.
Defined.
