(* ===== verification/Guard.v ===== *)
(** * Guard: the resolver guard's programs

    Models [src/src/linux/bpf/resolver_guard.bpf.c] and the guard structures of
    [policy.bpf.h]: which kernel objects are resolver endpoints or caches (the
    role computation), the caches in front of it, the stream labels, and every
    hook program.  Kernel objects the programs read (inodes, dentries, sockets)
    form a [world]; the BPF maps form a [guard] state; a hook takes both and
    returns its verdict and the new state. *)
From S2P Require Import Prelude Kernel Policy.

(** ** Constants *)

Definition ROLE_SOCKET : Z := 1.
Definition ROLE_CACHE : Z := 2.
Definition ROLE_CACHE_DIR : Z := 4.
Definition ROLE_NSCD_PARENT : Z := 8.
Definition ROLE_USER_ROOT : Z := 16.
Definition ROLE_RUNTIME : Z := 32.
Definition ROLE_SYSTEMD : Z := 64.
Definition GUARD_SETTLED : Z := 2 ^ 62.
Definition STREAM_STALE : Z := 2 ^ 64 - 2.
Definition EACCES : Z := 13.
Definition MAY_READ : Z := 4.
Definition PARENT_SOCKET : Z := 2 ^ 8.
Definition PARENT_BUS_SOCKET : Z := 2 ^ 9.
Definition PARENT_RESOLVE : Z := 2 ^ 10.
Definition PARENT_USER_BUS : Z := 2 ^ 11.
Definition S_IFMT : Z := 61440.
Definition S_IFREG : Z := 32768.
Definition S_IFSOCK : Z := 49152.
Definition S_IFDIR : Z := 16384.

(** ** The kernel objects the programs read *)

Abbreviation object_id := (Z * Z)%type.
Abbreviation guard_slot := (object_id * list Z)%type.
Abbreviation endpoint_name := (Z * Z * list Z)%type.
Abbreviation negative_key := (Z * Z * Z * Z)%type.

Record inode := {
  s_dev : Z; s_magic : Z; i_ino : Z; i_generation : Z;
  i_nlink : Z; i_mode : Z; i_uid : Z
}.

(** A dentry: the memory at [d_name.name], its parent and its inode. *)
Record dentry := { d_name : list Z; d_parent : positive; d_inode : option positive }.

Record unix_address := { addr_len : Z; sun_path : list Z }.

Record sock := {
  skc_family : Z; sk_type : Z;
  is_unix_sock : bool;               (* bpf_skc_to_unix_sock is not NULL *)
  unix_path : option positive;       (* path.dentry *)
  unix_addr : option unix_address;
  unix_peer : option positive;
  net_inum : Z
}.

Record world := {
  inodes : positive -> inode;
  dentries : positive -> dentry;
  socks : positive -> sock
}.

(** Loads through a NULL typed pointer read zero in a BPF program. *)
Definition null_inode : inode :=
  {| s_dev := 0; s_magic := 0; i_ino := 0; i_generation := 0;
     i_nlink := 0; i_mode := 0; i_uid := 0 |}.
Definition deref_inode (w : world) (i : option positive) : inode :=
  match i with Some i => inodes w i | None => null_inode end.

(** A [struct file]: its inode, its dentry and the socket behind it. *)
Record gfile := {
  f_inode : option positive; f_dentry : option positive;
  f_socket : option (option positive)
}.

(** ** The guard's maps *)

Record guard := {
  guard_slots : gmap guard_slot Z;
  guard_dirs : gmap object_id Z;
  endpoint_names : gmap endpoint_name Z;
  object_roles : gmap positive Z;
  negative_roles : gmap negative_key Z;
  held_roles : gmap negative_key Z;
  stream_roles : gmap positive Z;
  role_generation : option Z;
  guard_config : option Z;
  guard_stats : list Z;
  g_policy : policy_maps
}.

Definition set_object_roles s m := {| guard_slots := guard_slots s; guard_dirs := guard_dirs s;
  endpoint_names := endpoint_names s; object_roles := m; negative_roles := negative_roles s;
  held_roles := held_roles s; stream_roles := stream_roles s; role_generation := role_generation s;
  guard_config := guard_config s; guard_stats := guard_stats s; g_policy := g_policy s |}.
Definition set_negative_roles s m := {| guard_slots := guard_slots s; guard_dirs := guard_dirs s;
  endpoint_names := endpoint_names s; object_roles := object_roles s; negative_roles := m;
  held_roles := held_roles s; stream_roles := stream_roles s; role_generation := role_generation s;
  guard_config := guard_config s; guard_stats := guard_stats s; g_policy := g_policy s |}.
Definition set_held_roles s m := {| guard_slots := guard_slots s; guard_dirs := guard_dirs s;
  endpoint_names := endpoint_names s; object_roles := object_roles s; negative_roles := negative_roles s;
  held_roles := m; stream_roles := stream_roles s; role_generation := role_generation s;
  guard_config := guard_config s; guard_stats := guard_stats s; g_policy := g_policy s |}.
Definition set_stream_roles s m := {| guard_slots := guard_slots s; guard_dirs := guard_dirs s;
  endpoint_names := endpoint_names s; object_roles := object_roles s; negative_roles := negative_roles s;
  held_roles := held_roles s; stream_roles := m; role_generation := role_generation s;
  guard_config := guard_config s; guard_stats := guard_stats s; g_policy := g_policy s |}.
Definition set_generation s g := {| guard_slots := guard_slots s; guard_dirs := guard_dirs s;
  endpoint_names := endpoint_names s; object_roles := object_roles s; negative_roles := negative_roles s;
  held_roles := held_roles s; stream_roles := stream_roles s; role_generation := g;
  guard_config := guard_config s; guard_stats := guard_stats s; g_policy := g_policy s |}.
Definition set_accounting s c p := {| guard_slots := guard_slots s; guard_dirs := guard_dirs s;
  endpoint_names := endpoint_names s; object_roles := object_roles s; negative_roles := negative_roles s;
  held_roles := held_roles s; stream_roles := stream_roles s; role_generation := role_generation s;
  guard_config := guard_config s; guard_stats := c; g_policy := p |}.

(** What a hook's environment decides: the current task and whether each kind
    of allocation succeeds. *)
Record genv := {
  e_task : task;
  e_inode_alloc : bool;
  e_sock_alloc : positive -> bool;
  e_held_alloc : bool;
  e_negative_alloc : bool
}.

Inductive guard_counter := GUARD_LOOKUPS | GUARD_DENIES | GUARD_OBJECTS | GUARD_UNKNOWN.
Definition counter_index (c : guard_counter) : nat :=
  match c with GUARD_LOOKUPS => 0 | GUARD_DENIES => 1 | GUARD_OBJECTS => 2 | GUARD_UNKNOWN => 3 end.

Definition guard_count (s : guard) (c : guard_counter) : guard :=
  set_accounting s (alter (fun v => u64 (v + 1)) (counter_index c) (guard_stats s)) (g_policy s).

(** ** Names *)

(** The NAME_IS macro: one branch-free comparison over the literal's bytes,
    terminator included. *)
Definition name_is (buffer : list Z) (literal : String.string) : bool :=
  let lit := str literal ++ [0] in
  foldl (fun d i => Z.lor d (Z.lxor (rd buffer i) (rd lit i))) 0 (seq 0 (length lit)) =? 0.

(** The digit loop of the user-root rule: validity and value of the first ten
    characters that lie inside a name of [len] bytes with its terminator. *)
Definition user_digits (name : list Z) (len : Z) : bool * Z :=
  foldl (fun '(valid, number) i =>
           if Z.of_nat i <? len - 1
           then (valid && negb ((rd name i <? 48) || (57 <? rd name i)),
                 u64 (number * 10 + (rd name i - 48)))
           else (valid, number))
        ((1 <? len) && (len <? 12), 0) (seq 0 10).

Section Programs.
Context {R : KernelReads}.

Definition guard_selected (s : guard) (e : genv) : Z * guard :=
  let s1 := guard_count s GUARD_LOOKUPS in
  let '(selection, pm) := policy_select (g_policy s1) (e_task e) in
  let s2 := set_accounting s1 (guard_stats s1) pm in
  if bool_decide (selection = DIRECT) || bool_decide (selection = UNSUPPORTED_CONTEXT)
  then (0, s2)
  else (- EACCES, guard_count s2 GUARD_DENIES).

Definition inode_id (i : inode) : object_id := (s_dev i, i_ino i).

Definition inode_role (s : guard) (i : inode) : Z := default 0 (guard_dirs s !! inode_id i).

Definition directory_role (w : world) (s : guard) (d : positive) : Z :=
  inode_role s (deref_inode w (d_inode (dentries w d))).

(** [parent_names(name_ptr, ancestor, directory)]. *)
Definition parent_names (name_ptr : list Z) (ancestor uid : Z) : Z :=
  let '(len, name) := probe_read_kernel_str (replicate 20 0) 20 name_ptr in
  let bits0 := if has_bits ancestor ROLE_RUNTIME && (name_is name "nscd" || name_is name "avahi-daemon")
               then PARENT_SOCKET else 0 in
  let bits1 := if has_bits ancestor ROLE_RUNTIME && name_is name "dbus"
               then Z.lor bits0 PARENT_BUS_SOCKET else bits0 in
  let bits2 := if has_bits ancestor ROLE_SYSTEMD && name_is name "resolve"
               then Z.lor bits1 PARENT_RESOLVE else bits1 in
  if has_bits ancestor ROLE_USER_ROOT then
    let '(valid, number) := user_digits name len in
    if valid && (number <=? 4294967295) && (number =? uid)
    then Z.lor bits2 PARENT_USER_BUS else bits2
  else bits2.

Definition socket_child (name : list Z) (bits : Z) : bool :=
  (name_is name "socket" && has_bits bits PARENT_SOCKET) ||
  (name_is name "system_bus_socket" && has_bits bits PARENT_BUS_SOCKET) ||
  (name_is name "io.systemd.Resolve" && has_bits bits PARENT_RESOLVE) ||
  (name_is name "bus" && has_bits bits PARENT_USER_BUS).

(** The cache_name condition of [dentry_role]: "hosts", or eight characters
    that start with "db". *)
Definition cache_name (name : list Z) : bool :=
  ((rd name 0 =? 104) && (rd name 1 =? 111) && (rd name 2 =? 115) && (rd name 3 =? 116) &&
   (rd name 4 =? 115) && (rd name 5 =? 0)) ||
  ((rd name 0 =? 100) && (rd name 1 =? 98) && negb (rd name 2 =? 0) &&
   negb (rd name 7 =? 0) && (rd name 8 =? 0)).

(** The parent is called nscd and lies in an audited nscd parent. *)
Definition nscd_parent (w : world) (s : guard) (parent : positive) : bool :=
  let '(len, name) := probe_read_kernel_str (replicate 6 0) 6 (d_name (dentries w parent)) in
  (len =? 5) && (rd name 0 =? 110) && (rd name 1 =? 115) && (rd name 2 =? 99) && (rd name 3 =? 100) &&
  has_bits (directory_role w s (d_parent (dentries w parent))) ROLE_NSCD_PARENT.

(** The part of [dentry_role] after the name was read completely into [name]. *)
Definition named_role (w : world) (s : guard) (parent : positive) (name : list Z) : Z * bool :=
  let parent_inode := deref_inode w (d_inode (dentries w parent)) in
  let role0 := default 0 (guard_slots s !! (inode_id parent_inode, name)) in
  let cname := cache_name name in
  let role1 := if cname && has_bits (directory_role w s parent) ROLE_CACHE_DIR
               then Z.lor role0 ROLE_CACHE else role0 in
  let role2 := if cname && negb (has_bits role1 ROLE_CACHE) && nscd_parent w s parent
               then Z.lor role1 ROLE_CACHE else role1 in
  let socket_name := name_is name "socket" || name_is name "system_bus_socket" ||
                     name_is name "io.systemd.Resolve" in
  let bus_name := name_is name "bus" in
  let grand := d_parent (dentries w parent) in
  let role3 := if (socket_name || bus_name) &&
                  socket_child name (parent_names (d_name (dentries w parent))
                    (directory_role w s grand) (i_uid parent_inode))
               then Z.lor role2 ROLE_SOCKET else role2 in
  let role4 := if bus_name && bool_decide (parent = grand) && (s_magic parent_inode =? 16914836)
               then Z.lor role3 ROLE_SOCKET else role3 in
  (role4, negb cname && negb socket_name && negb bus_name).

(** [dentry_role(dentry, &cacheable)]: the role and the cacheable flag. *)
Definition dentry_role (w : world) (s : guard) (d : option positive) : Z * bool :=
  match d with
  | None => (0, false)
  | Some d =>
      let de := dentries w d in
      let '(copied, name) := probe_read_kernel_str (replicate 64 0) 64 (d_name de) in
      if copied <? 1 then (0, false)
      else if copied =? 64 then
        let '(err, extra) := probe_read_kernel [0] 1 (drop 63 (d_name de)) in
        if negb (err =? 0) then (0, false)
        else if negb (rd extra 0 =? 0) then (0, true)
        else named_role w s (d_parent de) name
      else named_role w s (d_parent de) name
  end.

(** ** Roles of inodes *)

Definition inode_key (w : world) (i : positive) : negative_key :=
  (Zpos i, i_ino (inodes w i), s_dev (inodes w i), i_generation (inodes w i)).

Definition held_role (w : world) (s : guard) (i : positive) : Z :=
  default 0 (held_roles s !! inode_key w i).

(** [label_inode]: or the role into the inode's storage, creating it. *)
Definition label_inode (s : guard) (e : genv) (i : positive) (role : Z) : Z * guard :=
  if role =? 0 then (role, s)
  else match object_roles s !! i with
       | Some old => (role, set_object_roles s (<[i := Z.lor old role]> (object_roles s)))
       | None => if e_inode_alloc e
                 then (role, set_object_roles s (<[i := role]> (object_roles s)))
                 else (-1, s)
       end.

Definition known_role (s : guard) (i : positive) : option Z :=
  known ← object_roles s !! i; if known =? 0 then None else Some known.

Definition object_role_uncached (w : world) (s : guard) (e : genv) (d i : option positive) : Z * guard :=
  match i, d with
  | Some i, Some d =>
      match known_role s i with
      | Some known => (known, s)
      | None => label_inode s e i (dentry_role w s (Some d)).1
      end
  | _, _ => (0, s)
  end.

(** The stable condition: no enrollment in progress, settled, single link. *)
Definition role_stable (w : world) (config : Z) (i : positive) : bool :=
  negb (has_bits config 1) && has_bits config GUARD_SETTLED && (i_nlink (inodes w i) =? 1).

Definition object_role (w : world) (s : guard) (e : genv) (d i : option positive) : Z * guard :=
  match i, d with
  | Some i, Some d =>
      match known_role s i with
      | Some known => (known, s)
      | None =>
          let held := held_role w s i in
          if negb (held =? 0) then (held, s)
          else match guard_config s, role_generation s with
               | Some config, Some generation =>
                   let epoch := u64 (config + generation) in
                   let stable := role_stable w config i in
                   let k := inode_key w i in
                   if stable && bool_decide (negative_roles s !! k = Some epoch) then (0, s)
                   else
                     let '(computed, cacheable) := dentry_role w s (Some d) in
                     let '(role, s1) := label_inode s e i computed in
                     if (role =? 0) && cacheable && stable && e_negative_alloc e
                     then (role, set_negative_roles s1 (<[k := epoch]> (negative_roles s1)))
                     else (role, s1)
               | _, _ => (-1, s)
               end
      end
  | _, _ => (0, s)
  end.

(** [address_role(unix, address)]. *)
Definition address_role (w : world) (s : guard) (k : positive) (a : option unix_address) : Z :=
  match a with
  | None => 0
  | Some a =>
      let len := addr_len a - 2 in
      if (len <? 1) || (108 <? len) then 0
      else
        let first := rd (probe_read_kernel [0] 1 (sun_path a)).2 0 in
        let find length name := default 0 (endpoint_names s !! (net_inum (socks w k), length, name)) in
        if negb (first =? 0) then
          let '(n, name) := probe_read_kernel_str (replicate 108 0) 108 (sun_path a) in
          if (n <? 1) || (108 <? n) then 0 else find n name
        else
          let '(err, name) := probe_read_kernel (replicate 108 0) (Z.to_nat len) (sun_path a) in
          if negb (err =? 0) then 0 else find len name
  end.

Definition unix_role (w : world) (s : guard) (e : genv) (k : positive) : Z * guard :=
  let d := unix_path (socks w k) in
  let '(role, s1) := match d with
                     | Some d => object_role w s e (Some d) (d_inode (dentries w d))
                     | None => (0, s)
                     end in
  if negb (role =? 0) then (role, s1)
  else (address_role w s1 k (unix_addr (socks w k)), s1).

Definition peer_role (w : world) (s : guard) (e : genv) (peer : option positive) : Z * guard :=
  match peer with
  | None => (0, s)
  | Some p => if is_unix_sock (socks w p) then unix_role w s e p else (0, s)
  end.

(** ** Stream labels *)

(** A snapshot of the two counters: (topology, configuration). *)
Definition role_version (s : guard) : option (Z * Z) :=
  match role_generation s, guard_config s with
  | Some g, Some c => Some (g, c)
  | _, _ => None
  end.

Definition stream_stamp (v : Z * Z) : Z := u64 (Z.shiftl (u64 (v.1 + v.2)) 1).

(** [stream_storage]: the socket's storage, created stale; [None] is NULL. *)
Definition stream_storage (s : guard) (e : genv) (k : positive) : option guard :=
  match stream_roles s !! k with
  | Some _ => Some s
  | None => if e_sock_alloc e k
            then Some (set_stream_roles s (<[k := STREAM_STALE]> (stream_roles s)))
            else None
  end.

Definition set_stream_role (s : guard) (e : genv) (k : option positive) (safe : bool) (v : Z * Z)
  : Z * guard :=
  match k with
  | None => (- EACCES, s)
  | Some k =>
      if negb (has_bits v.2 GUARD_SETTLED) then (0, s)
      else match stream_storage s e k with
           | None => (- EACCES, s)
           | Some s1 =>
               (0, set_stream_roles s1
                     (<[k := Z.lor (stream_stamp v) (if safe then 1 else 0)]> (stream_roles s1)))
           end
  end.

Definition stream_label_read (s : guard) (k : positive) : option Z := stream_roles s !! k.

(** The tag both labelling paths compute: protected when the role is a socket
    role or an enrollment is in progress. *)
Definition stream_safe (role : Z) (v : Z * Z) : bool :=
  negb (has_bits role ROLE_SOCKET || has_bits v.2 1).

Definition count_and_select (s : guard) (e : genv) : Z * guard :=
  guard_selected (guard_count s GUARD_OBJECTS) e.

(** [stream_guard]'s relabelling branch (a pre-guard stream, or a moved
    generation): resolve the socket's own identity, then its peer's, label it
    and decide. *)
Definition relabel_stream (w : world) (s : guard) (e : genv) (v : Z * Z) (k : positive) : Z * guard :=
  let s0 := guard_count s GUARD_UNKNOWN in
  if negb (is_unix_sock (socks w k)) then guard_selected s0 e
  else
    let peer := unix_peer (socks w k) in
    let '(found0, s1) := unix_role w s0 e k in
    let '(found, s2) := if found0 =? 0 then peer_role w s1 e peer else (found0, s1) in
    if found <? 0 then (- EACCES, s2)
    else
      let safe := stream_safe found v in
      if safe && bool_decide (peer = None) then (0, s2)
      else
        let '(err, s3) := set_stream_role s2 e (Some k) safe v in
        if negb (err =? 0) then (- EACCES, s3)
        else if safe then (0, s3)
        else count_and_select s3 e.

Definition stream_guard (w : world) (s : guard) (e : genv) (sk : option (option positive)) : Z * guard :=
  match sk with
  | Some (Some k) =>
      if negb (skc_family (socks w k) =? 1) then (0, s)
      else if negb (sk_type (socks w k) =? 1) && negb (sk_type (socks w k) =? 5) then (0, s)
      else match role_version s with
           | None => guard_selected s e
           | Some v =>
               match stream_label_read s k with
               | Some word =>
                   if Z.land word (unot 64 1) =? stream_stamp v then
                     if negb (has_bits v.2 1) && has_bits word 1 then (0, s)
                     else guard_selected s e
                   else relabel_stream w s e v k
               | None => relabel_stream w s e v k
               end
           end
  | _ => (0, s)
  end.

(** ** The hooks *)

(** [held_roles] is a 4096-entry hash map: an insertion of a new key fails when
    it is full. *)
Definition held_update (s : guard) (e : genv) (k : negative_key) (role : Z) : option guard :=
  if e_held_alloc e && ((size (held_roles s) <? 4096)%nat || bool_decide (is_Some (held_roles s !! k)))
  then Some (set_held_roles s (<[k := role]> (held_roles s)))
  else None.

Definition invalidate_streams (s : guard) : guard :=
  match role_generation s with
  | Some g => set_generation s (Some (u64 (g + 1)))
  | None => s
  end.

Definition guard_rename (w : world) (s : guard) (e : genv) (old_dentry new_dentry : positive) (ret : Z)
  : Z * guard :=
  if negb (ret =? 0) then (ret, s)
  else
    let inode := d_inode (dentries w old_dentry) in
    let '(current, s1) := object_role_uncached w s e (Some old_dentry) inode in
    if current <? 0 then (- EACCES, s1)
    else
      let target := Z.land (dentry_role w s1 (Some new_dentry)).1 (Z.lor ROLE_SOCKET ROLE_CACHE) in
      match inode with
      | None => (0, s1)
      | Some i =>
          if target =? 0 then (0, s1)
          else match role_generation s1, guard_config s1 with
               | Some _, Some config =>
                   if negb (has_bits config GUARD_SETTLED) then (0, s1)
                   else
                     let s2 := invalidate_streams s1 in
                     match held_update s2 e (inode_key w i) target with
                     | Some s3 => (0, s3)
                     | None => (- EACCES, s2)
                     end
               | _, _ => (- EACCES, s1)
               end
      end.

Definition guard_connect (w : world) (s : guard) (e : genv) (sk other newsk : option positive) (ret : Z)
  : Z * guard :=
  if negb (ret =? 0) then (ret, s)
  else match role_version s with
       | None => (- EACCES, s)
       | Some v =>
           let '(role, s1) := peer_role w s e other in
           if role <? 0 then (- EACCES, s1)
           else
             let safe := stream_safe role v in
             let '(err1, s2) := set_stream_role s1 e sk safe v in
             if negb (err1 =? 0) then (- EACCES, s2)
             else
               let '(err2, s3) := set_stream_role s2 e newsk safe v in
               if negb (err2 =? 0) then (- EACCES, s3)
               else if safe then (0, s3)
               else count_and_select s3 e
       end.

Definition guard_datagram (w : world) (s : guard) (e : genv) (other : option positive) (ret : Z) : Z * guard :=
  if negb (ret =? 0) then (ret, s)
  else
    let '(role, s1) := peer_role w s e other in
    if role <? 0 then (- EACCES, s1)
    else if negb (has_bits role ROLE_SOCKET) then (0, s1)
    else count_and_select s1 e.

Definition file_guard (w : world) (s : guard) (e : genv) (file : option gfile) (check_stream : bool) : Z * guard :=
  match file with
  | None => (0, s)
  | Some f =>
      match f_inode f with
      | None => (0, s)
      | Some i =>
          let kind := Z.land (i_mode (inodes w i)) S_IFMT in
          if negb (kind =? S_IFREG) then
            if check_stream && (kind =? S_IFSOCK) then stream_guard w s e (f_socket f) else (0, s)
          else
            let '(role, s1) := object_role w s e (f_dentry f) (Some i) in
            if role <? 0 then (- EACCES, s1)
            else if negb (has_bits role ROLE_CACHE) then (0, s1)
            else count_and_select s1 e
      end
  end.

Definition guard_pair (s : guard) (e : genv) (one two : option positive) (ret : Z) : Z * guard :=
  if negb (ret =? 0) then (ret, s)
  else match role_version s with
       | None => (- EACCES, s)
       | Some v =>
           let '(err1, s1) := set_stream_role s e one true v in
           if negb (err1 =? 0) then (- EACCES, s1)
           else
             let '(err2, s2) := set_stream_role s1 e two true v in
             if negb (err2 =? 0) then (- EACCES, s2) else (0, s2)
       end.

Definition guard_bind (s : guard) (ret : Z) : Z * guard := (ret, s).

Definition guard_open (w : world) (s : guard) (e : genv) (file : option gfile) (ret : Z) : Z * guard :=
  if negb (ret =? 0) then (ret, s) else file_guard w s e file false.

Definition guard_mmap (w : world) (s : guard) (e : genv) (file : option gfile) (ret : Z) : Z * guard :=
  if negb (ret =? 0) then (ret, s) else file_guard w s e file false.

Definition guard_read (w : world) (s : guard) (e : genv) (file : option gfile) (may : Z) (ret : Z) : Z * guard :=
  if negb (ret =? 0) || negb (has_bits may MAY_READ) then (ret, s) else file_guard w s e file true.

Definition guard_receive (w : world) (s : guard) (e : genv) (file : option gfile) (ret : Z) : Z * guard :=
  if negb (ret =? 0) then (ret, s) else file_guard w s e file true.

Definition guard_send (w : world) (s : guard) (e : genv) (sk : option (option positive)) (ret : Z) : Z * guard :=
  if negb (ret =? 0) then (ret, s) else stream_guard w s e sk.

Definition guard_recv (w : world) (s : guard) (e : genv) (sk : option (option positive)) (ret : Z) : Z * guard :=
  if negb (ret =? 0) then (ret, s) else stream_guard w s e sk.

(** [fexit/unix_bind]. *)
Definition guard_bound (w : world) (s : guard) (sk : option (option positive)) (ret : Z) : Z * guard :=
  if negb (ret =? 0) then (0, s)
  else match sk with
       | Some (Some k) =>
           let so := socks w k in
           if negb (sk_type so =? 1) && negb (sk_type so =? 5) then (0, s)
           else if negb (is_unix_sock so) then (0, s)
           else match unix_addr so with
                | None => (0, s)
                | Some bound =>
                    let first := rd (probe_read_kernel [0] 1 (sun_path bound)).2 0 in
                    if negb (first =? 0) || negb (address_role w s k (Some bound) =? 0)
                    then (0, invalidate_streams s) else (0, s)
                end
       | _ => (0, s)
       end.

(** Retire what [guard_rename] held for one participant. *)
Definition release_held (w : world) (s : guard) (i : option positive) : bool * guard :=
  match i with
  | None => (false, s)
  | Some i =>
      (bool_decide (is_Some (held_roles s !! inode_key w i)),
       set_held_roles s (delete (inode_key w i) (held_roles s)))
  end.

Definition inode_kind (w : world) (i : option positive) : Z :=
  match i with Some i => Z.land (i_mode (inodes w i)) S_IFMT | None => 0 end.

(** [fexit/vfs_rename]; the four dentries of the [renamedata]. *)
Definition guard_renamed (w : world) (s : guard) (moved other from to : option positive) (ret : Z) : Z * guard :=
  match moved, other with
  | Some moved, Some other =>
      let first := d_inode (dentries w moved) in
      let second := d_inode (dentries w other) in
      let '(held1, s1) := release_held w s first in
      let '(held2, s2) := release_held w s1 second in
      if held1 || held2 then (0, invalidate_streams s2)
      else if negb (ret =? 0) then (0, s2)
      else
        let kind := inode_kind w first in
        let exchanged := inode_kind w second in
        if (kind =? S_IFSOCK) || (exchanged =? S_IFSOCK) then (0, invalidate_streams s2)
        else if negb (kind =? S_IFDIR) && negb (exchanged =? S_IFDIR) then (0, s2)
        else match from, to with
             | Some from, Some to =>
                 match d_inode (dentries w from), d_inode (dentries w to) with
                 | Some fi, Some ti =>
                     if has_bits (Z.lor (inode_role s2 (inodes w fi)) (inode_role s2 (inodes w ti)))
                          (Z.lor ROLE_RUNTIME (Z.lor ROLE_SYSTEMD ROLE_USER_ROOT))
                     then (0, invalidate_streams s2) else (0, s2)
                 | _, _ => (0, s2)
                 end
             | _, _ => (0, s2)
             end
  | _, _ => (0, s)
  end.

(** [lsm/inode_post_setattr]; ATTR_UID is bit 1. *)
Definition guard_attr (w : world) (s : guard) (d : option positive) (valid : Z) : Z * guard :=
  match d with
  | None => (0, s)
  | Some d =>
      if negb (has_bits valid 2) then (0, s)
      else match d_inode (dentries w d) with
           | None => (0, s)
           | Some i =>
               if negb (Z.land (i_mode (inodes w i)) S_IFMT =? S_IFDIR) then (0, s)
               else if has_bits (directory_role w s (d_parent (dentries w d))) ROLE_USER_ROOT
               then (0, invalidate_streams s) else (0, s)
           end
  end.
End Programs.
