(* ===== verification/GuardNames.v ===== *)
(** * GuardNames: what the guard's name matching means

    The guard matches names with fixed-size buffers, truncating copies and
    branch-free byte comparisons.  [role_spec] states the same rules over whole
    names; [dentry_role_exact] shows the program computes exactly them. *)
From S2P Require Import Prelude Kernel Policy Guard.

(** ** The rules, over whole names *)

Definition is_digit (c : Z) : bool := (48 <=? c) && (c <=? 57).
Definition dec (l : list Z) : Z := foldl (fun n c => n * 10 + (c - 48)) 0 l.

(** A runtime directory named by its owner's decimal user ID. *)
Definition uid_name (name : list Z) (uid : Z) : bool :=
  (1 <=? length name)%nat && (length name <=? 10)%nat && forallb is_digit name &&
  (dec name <=? 4294967295) && (dec name =? uid).

Definition is_cache_name (name : list Z) : bool :=
  bool_decide (name = str "hosts") ||
  ((length name =? 8)%nat && bool_decide (take 2 name = str "db")).

Section Spec.
Context (w : world) (s : guard).

Definition cache_rule (parent : positive) (pname name : list Z) : bool :=
  is_cache_name name &&
  (has_bits (directory_role w s parent) ROLE_CACHE_DIR ||
   (bool_decide (pname = str "nscd") &&
    has_bits (directory_role w s (d_parent (dentries w parent))) ROLE_NSCD_PARENT)).

Definition socket_rule (parent : positive) (pname name : list Z) : bool :=
  let grand := d_parent (dentries w parent) in
  let ancestor := directory_role w s grand in
  let dir := deref_inode w (d_inode (dentries w parent)) in
  (bool_decide (name = str "socket") && has_bits ancestor ROLE_RUNTIME &&
   (bool_decide (pname = str "nscd") || bool_decide (pname = str "avahi-daemon"))) ||
  (bool_decide (name = str "system_bus_socket") && has_bits ancestor ROLE_RUNTIME &&
   bool_decide (pname = str "dbus")) ||
  (bool_decide (name = str "io.systemd.Resolve") && has_bits ancestor ROLE_SYSTEMD &&
   bool_decide (pname = str "resolve")) ||
  (bool_decide (name = str "bus") &&
   ((has_bits ancestor ROLE_USER_ROOT && uid_name pname (i_uid dir)) ||
    (bool_decide (parent = grand) && (s_magic dir =? 16914836)))).

(** The role of an object called [name] (at most 63 bytes) in [parent], a
    directory called [pname]: its enrolled slot, or'ed with the built-in cache
    and socket rules. *)
Definition role_spec (parent : positive) (pname name : list Z) : Z :=
  Z.lor (default 0 (guard_slots s !!
           (inode_id (deref_inode w (d_inode (dentries w parent))), pad 64 name)))
    (Z.lor (if cache_rule parent pname name then ROLE_CACHE else 0)
           (if socket_rule parent pname name then ROLE_SOCKET else 0)).

(** The names no built-in rule inspects. *)
Definition slot_only_name (name : list Z) : bool :=
  negb (is_cache_name name) &&
  negb (bool_decide (name = str "socket") || bool_decide (name = str "system_bus_socket") ||
        bool_decide (name = str "io.systemd.Resolve")) &&
  negb (bool_decide (name = str "bus")).
End Spec.

(** The memory at a name pointer: the name, its terminator and what follows. *)
Definition holds_name (mem name : list Z) : Prop :=
  no_nul name /\ exists rest, mem = name ++ 0 :: rest.

(** ** Comparisons with literals *)

Lemma foldl_lor_zero (f : nat -> Z) l d :
  foldl (fun d i => Z.lor d (f i)) d l = 0 <-> d = 0 /\ forall i, i ∈ l -> f i = 0.
Proof.
  revert d. induction l as [|i l IH]; intros d; simpl; [set_solver|].
  rewrite IH, Z.lor_eq_0_iff. set_solver.
Qed.

Lemma cstr_eq_bytes buf lit :
  no_nul lit ->
  cstr buf = lit <-> forall i, (i < S (length lit))%nat -> rd buf i = rd (lit ++ [0]) i.
Proof.
  unfold no_nul. revert buf. induction lit as [|c lit IH]; intros buf Hn.
  - split.
    + intros H i Hi. assert (i = 0%nat) as -> by (simpl in Hi; lia).
      destruct buf as [|b buf]; [done|]. simpl in H. unfold rd. simpl.
      destruct (b =? 0) eqn:E; [by bool_to_prop|done].
    + intros H. specialize (H 0%nat ltac:(simpl; lia)). destruct buf as [|b buf]; [done|].
      unfold rd in H. simpl in *. by subst.
  - apply not_elem_of_cons in Hn as [Hc Hn]. destruct buf as [|b buf].
    + split; [done|]. intros H. specialize (H 0%nat ltac:(simpl; lia)). unfold rd in H. simpl in H. congruence.
    + simpl. destruct (b =? 0) eqn:E; bool_to_prop.
      * split; [done|]. intros H. specialize (H 0%nat ltac:(simpl; lia)). unfold rd in H. simpl in H. congruence.
      * split.
        { intros [= -> H] i Hi. destruct i as [|i]; [done|]. unfold rd. simpl.
          apply IH; [done..|simpl in *; lia]. }
        { intros H. f_equal; [by apply (H 0%nat ltac:(simpl; lia))|]. apply IH; [done|].
          intros i Hi. apply (H (S i)). simpl. lia. }
Qed.

(** NAME_IS compares the whole C string in the buffer with the literal. *)
Lemma name_is_cstr buf lit :
  no_nul (str lit) -> name_is buf lit = bool_decide (cstr buf = str lit).
Proof.
  intros Hn. unfold name_is. apply eq_true_iff_eq.
  rewrite Z.eqb_eq, foldl_lor_zero, bool_decide_eq_true, cstr_eq_bytes by done.
  rewrite length_app. simpl length. split.
  - intros [_ H] i Hi. apply Z.lxor_eq. apply H. apply list_elem_of_In, in_seq. lia.
  - intros H. split; [done|]. intros i Hi%list_elem_of_In%in_seq.
    apply Z.lxor_eq_0_iff, H. lia.
Qed.

(** A truncated copy equals a literal shorter than the buffer exactly when the
    whole name does. *)
Lemma take_eq_short {A} n (l lit : list A) : (length lit < n)%nat -> take n l = lit <-> l = lit.
Proof.
  intros H. split; [|intros ->; apply take_ge; lia]. intros E.
  assert (length (take n l) = length lit) as Hl by congruence.
  rewrite length_take in Hl. rewrite <- E, take_ge; [done|lia].
Qed.

Ltac no_nul_lit := vm_compute; intros ?%list_elem_of_In; simpl in *; intuition congruence.

Lemma rd_pad n s i : rd (pad n s) i = nth i s 0.
Proof.
  unfold rd, pad. destruct (decide (i < length s)%nat).
  - by rewrite app_nth1.
  - rewrite app_nth2, (nth_overflow s) by lia. apply nth_replicate_0.
Qed.

Lemma cache_name_spec s : no_nul s -> cache_name (pad 64 s) = is_cache_name s.
Proof.
  intros Hn. unfold cache_name, is_cache_name. rewrite !rd_pad. f_equal.
  - apply eq_true_iff_eq. rewrite !andb_true_iff, !Z.eqb_eq, bool_decide_eq_true. split.
    + intros (((((H0 & H1) & H2) & H3) & H4) & H5).
      do 5 (destruct s as [|? s]; [done|]; simpl in *; subst; apply not_elem_of_cons in Hn as [? Hn]).
      destruct s; [done|]. simpl in H5. subst. set_solver.
    + by intros ->.
  - apply eq_true_iff_eq.
    rewrite !andb_true_iff, !negb_true_iff, !Z.eqb_eq, !Z.eqb_neq, Nat.eqb_eq, bool_decide_eq_true.
    split.
    + intros ((((H0 & H1) & H2) & H7) & H8).
      do 8 (destruct s as [|? s]; [done|]; apply not_elem_of_cons in Hn as [? Hn]).
      destruct s; simpl in *; [by subst|]. subst. set_solver.
    + intros [Hl Ht]. do 8 (destruct s as [|? s]; [done|]; apply not_elem_of_cons in Hn as [? Hn]).
      destruct s; [|done]. change (str "db") with [100; 98] in Ht. simpl in Ht. injection Ht as -> ->.
      repeat split; done.
Qed.

(** ** The user-root rule *)

Lemma dec_app l c : dec (l ++ [c]) = dec l * 10 + (c - 48).
Proof. unfold dec. by rewrite foldl_app. Qed.

Lemma dec_bound l : forallb is_digit l = true -> 0 <= dec l < 10 ^ Z.of_nat (length l).
Proof.
  induction l as [|c l IH] using rev_ind; [done|].
  rewrite forallb_app, andb_true_iff, dec_app, length_app. intros [Hl Hc].
  specialize (IH Hl). simpl in Hc. unfold is_digit in Hc. bool_to_prop.
  replace (Z.of_nat (length l + length [c])) with (Z.succ (Z.of_nat (length l))) by (simpl; lia).
  rewrite Z.pow_succ_r by lia. lia.
Qed.

(** One step of the digit loop, over the list of characters read so far. *)
Definition digit_step (acc : bool * Z) (c : Z) : bool * Z :=
  (acc.1 && negb ((c <? 48) || (57 <? c)), u64 (acc.2 * 10 + (c - 48))).

Lemma user_digits_list name len v0 k :
  (k <= Z.to_nat (len - 1))%nat ->
  foldl (fun '(valid, number) i =>
           if Z.of_nat i <? len - 1
           then (valid && negb ((rd name i <? 48) || (57 <? rd name i)),
                 u64 (number * 10 + (rd name i - 48)))
           else (valid, number)) (v0, 0) (seq 0 k) =
  foldl digit_step (v0, 0) (map (rd name) (seq 0 k)).
Proof.
  induction k as [|k IH]; intros Hk; [done|].
  rewrite seq_S, map_app, !foldl_app, IH by lia. simpl.
  destruct (foldl digit_step _ _) as [valid number].
  destruct (Z.of_nat k <? len - 1) eqn:E; bool_to_prop; [done|lia].
Qed.

Lemma digit_step_spec v0 l :
  (length l <= 10)%nat ->
  (foldl digit_step (v0, 0) l).1 = v0 && forallb is_digit l /\
  (forallb is_digit l = true -> (foldl digit_step (v0, 0) l).2 = dec l).
Proof.
  induction l as [|c l IH] using rev_ind; [by rewrite andb_true_r|].
  rewrite length_app. simpl. intros Hl. destruct IH as [IH1 IH2]; [lia|].
  rewrite foldl_app, forallb_app. simpl.
  assert (negb ((c <? 48) || (57 <? c)) = is_digit c) as Hd by (unfold is_digit; lia).
  split; [rewrite IH1, Hd, andb_true_r; by destruct v0, (forallb is_digit l), (is_digit c)|].
  intros [H1 H2]%andb_true_iff. rewrite andb_true_r in H2. rewrite IH2, dec_app by done.
  apply uN_id. pose proof (dec_bound (l ++ [c])) as Hb.
  rewrite forallb_app, dec_app, length_app in Hb. simpl in Hb.
  rewrite H1, H2 in Hb. specialize (Hb eq_refl).
  assert (10 ^ Z.of_nat (length l + 1) <= 10 ^ 10) by (apply Z.pow_le_mono_r; lia). lia.
Qed.

(** Past the end of the name the loop does nothing. *)
Lemma user_digits_stop name len acc m k :
  0 <= len - 1 -> (Z.to_nat (len - 1) <= m)%nat ->
  foldl (fun '(valid, number) i =>
           if Z.of_nat i <? len - 1
           then (valid && negb ((rd name i <? 48) || (57 <? rd name i)),
                 u64 (number * 10 + (rd name i - 48)))
           else (valid, number)) acc (seq m k) = acc.
Proof.
  intros Hl. revert m. induction k as [|k IH]; intros m Hm; [done|]. simpl.
  destruct acc as [valid number]. destruct (Z.of_nat m <? len - 1) eqn:E; bool_to_prop; [lia|].
  apply IH. lia.
Qed.

Lemma map_rd_pad n (s : list Z) : map (rd (pad n s)) (seq 0 (length s)) = s.
Proof.
  transitivity (map (fun i => nth i s 0) (seq 0 (length s))).
  - apply map_ext. intros i. apply rd_pad.
  - induction s as [|c s IH]; [done|]. simpl. f_equal. by rewrite <- seq_shift, map_map.
Qed.

Lemma user_digits_invalid name len number l :
  (foldl (fun '(valid, number) i =>
           if Z.of_nat i <? len - 1
           then (valid && negb ((rd name i <? 48) || (57 <? rd name i)),
                 u64 (number * 10 + (rd name i - 48)))
           else (valid, number)) (false, number) l).1 = false.
Proof.
  revert number. induction l as [|i l IH]; intros number; simpl; [done|].
  destruct (_ <? _); apply IH.
Qed.

(** The digit loop on the truncated copy decides the rule on the whole name. *)
Lemma user_digits_spec pn uid :
  (let '(valid, number) :=
     user_digits (pad 20 (take 19 pn)) (Z.of_nat (S (length (take 19 pn)))) in
   valid && (number <=? 4294967295) && (number =? uid)) = uid_name pn uid.
Proof.
  unfold user_digits, uid_name. rewrite length_take.
  destruct (length pn <=? 10)%nat eqn:E10; bool_to_prop.
  - rewrite take_ge by lia. replace (19 `min` length pn)%nat with (length pn) by lia.
    replace 10%nat with (length pn + (10 - length pn))%nat at 1 by lia.
    rewrite seq_app, foldl_app, user_digits_stop by lia.
    rewrite user_digits_list, map_rd_pad by lia.
    set (v0 := _ && _). destruct (digit_step_spec v0 pn E10) as [H1 H2].
    destruct (foldl digit_step (v0, 0) pn) as [valid number]. simpl in H1, H2.
    assert (v0 = (1 <=? length pn)%nat) as Hv0.
    { apply eq_true_iff_eq. unfold v0. rewrite andb_true_iff, !Z.ltb_lt, Nat.leb_le. lia. }
    rewrite Hv0 in H1.
    subst valid. rewrite andb_true_r.
    destruct (forallb is_digit pn); [by rewrite H2|]. by rewrite !andb_false_r.
  - rewrite (andb_false_r (1 <=? _)%nat), !andb_false_l.
    replace ((1 <? _) && (_ <? 12)) with false.
    2: { symmetry. apply andb_false_iff. right. apply Z.ltb_ge. lia. }
    pose proof (user_digits_invalid (pad 20 (take 19 pn)) (Z.of_nat (S (19 `min` length pn))) 0 (seq 0 10)) as Hf.
    destruct (foldl _ _ _) as [valid number]. simpl in Hf. by subst.
Qed.

(** ** The whole role computation *)

Lemma str_copied_trunc n s rest :
  (0 < n)%nat -> no_nul s ->
  str_copied (replicate n 0) n (s ++ 0 :: rest) =
    (Z.of_nat (S (length (take (n - 1) s))), pad n (take (n - 1) s)).
Proof.
  intros Hn Hs. unfold str_copied. rewrite cstr_app by done. f_equal. unfold pad.
  rewrite drop_replicate, <- replicate_S. do 2 f_equal. rewrite length_take. lia.
Qed.

Lemma no_nul_take n s : no_nul s -> no_nul (take n s).
Proof. intros H Hin. apply H. rewrite <- (take_drop n s). set_solver. Qed.

(** A literal comparison on a truncated copy is a comparison of the name. *)
Lemma name_is_trunc n s lit :
  no_nul s -> no_nul (str lit) -> (length (str lit) < n - 1)%nat ->
  name_is (pad n (take (n - 1) s)) lit = bool_decide (s = str lit).
Proof.
  intros Hs Hl Hn. rewrite name_is_cstr by done.
  rewrite pad_cstr; [|by apply no_nul_take|rewrite length_take; lia].
  apply bool_decide_ext, take_eq_short. lia.
Qed.

Section Exact.
Context {R : KernelReads} `{!MappedReads R}.

Lemma parent_names_spec mem pn ancestor uid :
  holds_name mem pn ->
  parent_names mem ancestor uid =
    Z.lor (Z.lor (Z.lor
      (if has_bits ancestor ROLE_RUNTIME && (bool_decide (pn = str "nscd") || bool_decide (pn = str "avahi-daemon"))
       then PARENT_SOCKET else 0)
      (if has_bits ancestor ROLE_RUNTIME && bool_decide (pn = str "dbus") then PARENT_BUS_SOCKET else 0))
      (if has_bits ancestor ROLE_SYSTEMD && bool_decide (pn = str "resolve") then PARENT_RESOLVE else 0))
      (if has_bits ancestor ROLE_USER_ROOT && uid_name pn uid then PARENT_USER_BUS else 0).
Proof.
  intros (Hn & rest & ->). unfold parent_names.
  rewrite probe_str_mapped, str_copied_trunc by (done || lia).
  change (20 - 1)%nat with 19%nat.
  rewrite !(name_is_trunc 20) by (done || no_nul_lit || (vm_compute; lia)).
  pose proof (user_digits_spec pn uid) as Hu.
  destruct (user_digits _ _) as [valid number]. rewrite Hu.
  repeat case_match; rewrite ?Z.lor_0_r, ?Z.lor_0_l; try done; simpl in *; congruence.
Qed.

Lemma socket_child_spec mem pn name ancestor uid :
  holds_name mem pn -> no_nul name -> (length name < 64)%nat ->
  socket_child (pad 64 name) (parent_names mem ancestor uid) =
  (bool_decide (name = str "socket") && has_bits ancestor ROLE_RUNTIME &&
   (bool_decide (pn = str "nscd") || bool_decide (pn = str "avahi-daemon"))) ||
  (bool_decide (name = str "system_bus_socket") && has_bits ancestor ROLE_RUNTIME &&
   bool_decide (pn = str "dbus")) ||
  (bool_decide (name = str "io.systemd.Resolve") && has_bits ancestor ROLE_SYSTEMD &&
   bool_decide (pn = str "resolve")) ||
  (bool_decide (name = str "bus") && (has_bits ancestor ROLE_USER_ROOT && uid_name pn uid)).
Proof.
  intros Hm Hn Hl. unfold socket_child. rewrite (parent_names_spec mem pn) by done.
  rewrite !name_is_cstr by no_nul_lit. rewrite pad_cstr by done. rewrite !has_bits_lor.
  rewrite <- !andb_assoc.
  f_equal; [f_equal; [f_equal|]|]; f_equal; repeat case_match; vm_compute; congruence.
Qed.

Lemma nscd_parent_spec w s parent pn :
  holds_name (d_name (dentries w parent)) pn ->
  nscd_parent w s parent =
    bool_decide (pn = str "nscd") &&
    has_bits (directory_role w s (d_parent (dentries w parent))) ROLE_NSCD_PARENT.
Proof.
  intros (Hn & rest & Hm). unfold nscd_parent. rewrite Hm, probe_str_mapped, str_copied_trunc by (done || lia).
  change (6 - 1)%nat with 5%nat. f_equal. rewrite !rd_pad.
  apply eq_true_iff_eq. rewrite !andb_true_iff, !Z.eqb_eq, bool_decide_eq_true. split.
  - intros ((((Hlen & H0) & H1) & H2) & H3). rewrite length_take in Hlen.
    assert (length pn = 4%nat) as Hl by lia. rewrite take_ge in * by lia.
    do 4 (destruct pn as [|? pn]; [done|]). destruct pn; [|done]. simpl in *. by subst.
  - by intros ->.
Qed.

Lemma lor_has_bit1 x : has_bits x ROLE_CACHE = true -> Z.lor x ROLE_CACHE = x.
Proof.
  unfold has_bits, ROLE_CACHE. intros H%negb_true_iff%Z.eqb_neq. apply Z.bits_inj'. intros i Hi.
  rewrite Z.lor_spec. destruct (Z.testbit 2 i) eqn:E; [|by rewrite orb_false_r].
  rewrite orb_true_r. assert (i = 1) as ->.
  { change 2 with (2 ^ 1) in E. rewrite Z.pow2_bits_eqb in E by lia. bool_to_prop. lia. }
  destruct (Z.testbit x 1) eqn:Ex; [done|]. exfalso. apply H. apply Z.bits_inj'. intros j Hj.
  rewrite Z.land_spec, Z.bits_0. change 2 with (2 ^ 1). rewrite Z.pow2_bits_eqb by lia.
  destruct (1 =? j) eqn:Ej; bool_to_prop; [subst; by rewrite Ex|by rewrite andb_false_r].
Qed.

(** The two cache steps together: the second adds nothing when the slot
    already carries the bit. *)
Lemma cache_or slot (c dd nn : bool) :
  (let role1 := if c && dd then Z.lor slot ROLE_CACHE else slot in
   if c && negb (has_bits role1 ROLE_CACHE) && nn then Z.lor role1 ROLE_CACHE else role1) =
  Z.lor slot (if c && (dd || nn) then ROLE_CACHE else 0).
Proof.
  destruct c, dd, nn; simpl; rewrite ?andb_false_r, ?Z.lor_0_r; try done.
  - destruct (has_bits _ ROLE_CACHE); simpl; [done|]. by rewrite <- Z.lor_assoc.
  - rewrite andb_true_r. destruct (has_bits slot ROLE_CACHE) eqn:E; simpl; [|done].
    by rewrite lor_has_bit1.
Qed.

Lemma named_role_spec w s parent pn name :
  holds_name (d_name (dentries w parent)) pn -> no_nul name -> (length name < 64)%nat ->
  named_role w s parent (pad 64 name) = (role_spec w s parent pn name, slot_only_name name).
Proof.
  intros Hp Hn Hl. unfold named_role.
  rewrite !name_is_cstr by no_nul_lit. rewrite pad_cstr, cache_name_spec by done.
  rewrite (nscd_parent_spec w s parent pn), (socket_child_spec _ pn) by done.
  unfold role_spec, cache_rule, socket_rule, slot_only_name. f_equal.
  set (slot := default 0 _). set (c := is_cache_name name).
  set (dd := has_bits (directory_role w s parent) ROLE_CACHE_DIR).
  set (nn := bool_decide (pn = str "nscd") && has_bits _ ROLE_NSCD_PARENT).
  rewrite cache_or.
  rewrite !Z.lor_assoc. set (r := Z.lor slot _).
  destruct (decide (name = str "bus")) as [->|Hb].
  - rewrite (bool_decide_false (str "bus" = str "socket")), (bool_decide_false (str "bus" = str "system_bus_socket")),
      (bool_decide_false (str "bus" = str "io.systemd.Resolve")) by (vm_compute; congruence).
    rewrite (bool_decide_true (str "bus" = str "bus")) by done. rewrite !andb_false_l, !orb_false_l, !andb_true_l.
    destruct (has_bits _ ROLE_USER_ROOT && _); simpl;
    destruct (bool_decide (parent = _) && _); rewrite ?Z.lor_0_r; try done.
    by rewrite <- Z.lor_assoc.
  - rewrite (bool_decide_false (name = str "bus")) by done. rewrite !orb_false_r. simpl.
    destruct (bool_decide (name = str "socket")), (bool_decide (name = str "system_bus_socket")),
      (bool_decide (name = str "io.systemd.Resolve")); simpl; rewrite ?Z.lor_0_r; try done;
    case_match; rewrite ?Z.lor_0_r; done.
Qed.

(** The role of a dentry, its name read exactly: names longer than any slot or
    rule have no role, every other name gets [role_spec]. *)
Lemma dentry_role_spec w s d pn name :
  holds_name (d_name (dentries w (d_parent (dentries w d)))) pn ->
  holds_name (d_name (dentries w d)) name ->
  dentry_role w s (Some d) =
    if (length name <? 64)%nat
    then (role_spec w s (d_parent (dentries w d)) pn name, slot_only_name name)
    else (0, true).
Proof.
  intros Hp (Hn & rest & Hm). unfold dentry_role. rewrite Hm, probe_str_mapped, str_copied_trunc by (done || lia).
  change (64 - 1)%nat with 63%nat. rewrite length_take.
  destruct (_ <? 1) eqn:E1; bool_to_prop; [lia|].
  destruct (length name <? 64)%nat eqn:E64; bool_to_prop.
  - rewrite take_ge by lia. rewrite (named_role_spec w s _ pn name) by done.
    destruct (_ =? 64) eqn:E; bool_to_prop; [|done].
    rewrite probe_mem_mapped. unfold mem_copied. simpl.
    rewrite drop_app_ge by lia. replace (63 - length name)%nat with 0%nat by lia. done.
  - rewrite (proj2 (Z.eqb_eq _ 64)) by lia. rewrite probe_mem_mapped. unfold mem_copied. simpl.
    rewrite drop_app_le by lia.
    destruct (drop 63 name) as [|c tl] eqn:Ed; [apply (f_equal length) in Ed; rewrite length_drop in Ed; simpl in Ed; lia|].
    simpl. unfold rd. simpl. destruct (c =? 0) eqn:Ec; bool_to_prop; [|done].
    subst. exfalso. apply Hn. rewrite <- (take_drop 63 name), Ed. set_solver.
Qed.
End Exact.
