(* ===== verification/GuardCache.v ===== *)
(** * GuardCache: the "no role" cache in front of the role computation

    [object_role] remembers inodes proved to have no resolver role, keyed by
    inode identity and stamped with the configuration epoch plus the role
    generation.  This file states when a remembered answer is exact, shows that
    lookups and completed renames preserve it, and gives the two sequences of
    operations after which it is not. *)
From S2P Require Import Prelude Kernel Policy Guard GuardNames.

(** ** Names of dentries *)

Definition nm (w : world) (d : positive) : list Z := cstr (d_name (dentries w d)).

(** Every dentry's name is terminated. *)
Definition names_ok (w : world) : Prop := forall d, 0 ∈ d_name (dentries w d).

(** The bits of a role the hooks act on. *)
Definition guarded_bits (role : Z) : Z := Z.land role (Z.lor ROLE_SOCKET ROLE_CACHE).

(** ** The invariant *)

(** The entry for [i] is current: consulted by [object_role] and answering. *)
Definition answers_none (w : world) (s : guard) (i : positive) : Prop :=
  exists config gen, guard_config s = Some config /\ role_generation s = Some gen /\
    role_stable w config i = true /\
    negative_roles s !! inode_key w i = Some (u64 (config + gen)).

(** [name] in [parent] has no guarded role for a reason only a rename or an
    enrollment can change: it is longer than any slot or rule name, or no rule
    inspects it and its slot is not enrolled. *)
Definition no_role_name (w : world) (s : guard) (parent : positive) (name : list Z) : Prop :=
  (64 <= length name)%nat \/
  slot_only_name name = true /\
  guarded_bits (default 0 (guard_slots s !!
    (inode_id (deref_inode w (d_inode (dentries w parent))), pad 64 name))) = 0.

(** A current entry is exact: the object's dentries really have no guarded
    role. *)
Definition cache_exact (w : world) (s : guard) : Prop :=
  forall i d, d_inode (dentries w d) = Some i -> answers_none w s i ->
  no_role_name w s (d_parent (dentries w d)) (nm w d).

(** Stamps come from the past and the counters have not wrapped. *)
Definition stamps_ok (s : guard) : Prop :=
  forall config gen, guard_config s = Some config -> role_generation s = Some gen ->
  0 <= config /\ 0 <= gen /\ config + gen + 2 < 2 ^ 64 /\
  forall k stamp, negative_roles s !! k = Some stamp -> stamp <= config + gen.

(** One inode, one name: an inode with a single link has one dentry. *)
Definition single_name (w : world) : Prop :=
  forall i d d', d_inode (dentries w d) = Some i -> d_inode (dentries w d') = Some i ->
  i_nlink (inodes w i) = 1 -> d = d'.

(** ** The kernel's rename *)

(** [vfs_rename]'s effect: [old] takes [new]'s name and parent; what [new]
    named loses its link. *)
Definition move (w : world) (old new : positive) : world :=
  {| inodes := fun i =>
       if bool_decide (d_inode (dentries w new) = Some i)
       then {| s_dev := s_dev (inodes w i); s_magic := s_magic (inodes w i); i_ino := i_ino (inodes w i);
               i_generation := i_generation (inodes w i); i_nlink := i_nlink (inodes w i) - 1;
               i_mode := i_mode (inodes w i); i_uid := i_uid (inodes w i) |}
       else inodes w i;
     dentries := fun d =>
       if bool_decide (d = old)
       then {| d_name := d_name (dentries w new); d_parent := d_parent (dentries w new);
               d_inode := d_inode (dentries w old) |}
       else if bool_decide (d = new)
       then {| d_name := d_name (dentries w new); d_parent := d_parent (dentries w new); d_inode := None |}
       else dentries w d;
     socks := socks w |}.

(** A rename the kernel performs: onto a free name or over an object with no
    other link, and not below itself. *)
Definition valid_move (w : world) (old new : positive) : Prop :=
  old <> new /\ (d_parent (dentries w new) ∉ [old; new]) /\
  (forall d, d_parent (dentries w d) = new -> d = new) /\
  (forall j, d_inode (dentries w new) = Some j ->
     i_nlink (inodes w j) = 1 /\ d_inode (dentries w old) <> Some j).

(** ** Lemmas *)

Lemma holds_nm w d : names_ok w -> holds_name (d_name (dentries w d)) (nm w d).
Proof.
  intros H. split; [apply cstr_no_nul|]. specialize (H d). unfold nm.
  induction (d_name (dentries w d)) as [|b l IH]; [set_solver|]. simpl.
  destruct (b =? 0) eqn:E; bool_to_prop; [subst; by exists l|].
  apply elem_of_cons in H as [H|H]; [congruence|]. destruct (IH H) as [rest Hr].
  exists rest. simpl. f_equal. exact Hr.
Qed.

(** For a name no rule inspects, the slot map alone decides. *)
Lemma role_spec_slot_only w s parent pn name :
  slot_only_name name = true ->
  role_spec w s parent pn name =
    default 0 (guard_slots s !! (inode_id (deref_inode w (d_inode (dentries w parent))), pad 64 name)).
Proof.
  unfold slot_only_name, role_spec, cache_rule, socket_rule. intros H. bool_to_prop.
  repeat match goal with Hne : name <> _ |- _ => rewrite (bool_decide_false _ Hne); clear Hne end.
  rewrite H. simpl. by rewrite !Z.lor_0_r.
Qed.

Lemma guarded_bits_0 : guarded_bits 0 = 0.
Proof. done. Qed.

Section Lemmas.
Context {R : KernelReads} `{!MappedReads R}.

Lemma dentry_role_nm w s d :
  names_ok w ->
  dentry_role w s (Some d) =
    if (length (nm w d) <? 64)%nat
    then (role_spec w s (d_parent (dentries w d)) (nm w (d_parent (dentries w d))) (nm w d),
          slot_only_name (nm w d))
    else (0, true).
Proof. intros H. apply dentry_role_spec; by apply holds_nm. Qed.

(** What an exact entry promises about the computation it replaces. *)
Lemma cache_exact_role w s i d :
  names_ok w -> cache_exact w s -> d_inode (dentries w d) = Some i -> answers_none w s i ->
  guarded_bits (dentry_role w s (Some d)).1 = 0.
Proof.
  intros Hn Hc Hd Ha. rewrite dentry_role_nm by done.
  destruct (_ <? 64)%nat eqn:E; [|done]. bool_to_prop.
  destruct (Hc i d Hd Ha) as [?|[Hname Hslot]]; [lia|]. simpl. by rewrite role_spec_slot_only.
Qed.

Lemma label_inode_frame s e i role :
  let s' := (label_inode s e i role).2 in
  guard_slots s' = guard_slots s /\ guard_dirs s' = guard_dirs s /\
  negative_roles s' = negative_roles s /\ held_roles s' = held_roles s /\
  role_generation s' = role_generation s /\ guard_config s' = guard_config s.
Proof. unfold label_inode. repeat (case_match; simpl); done. Qed.

(** Labelling reports the role, or -1 when the storage could not be allocated. *)
Lemma label_inode_value s e i role : (label_inode s e i role).1 = role \/ (label_inode s e i role).1 = -1.
Proof. unfold label_inode. repeat (case_match; simpl); auto. Qed.

Lemma label_inode_zero s e i role : (label_inode s e i role).1 = 0 -> role = 0.
Proof. unfold label_inode. repeat (case_match; simpl); bool_to_prop; done. Qed.

(** [cache_exact] only depends on the parts of the state it names. *)
Lemma cache_exact_frame w s s' :
  guard_slots s' = guard_slots s -> negative_roles s' = negative_roles s ->
  role_generation s' = role_generation s -> guard_config s' = guard_config s ->
  cache_exact w s -> cache_exact w s'.
Proof.
  intros H1 H2 H3 H4 Hc i d Hd (config & gen & ? & ? & ? & ?).
  unfold no_role_name. rewrite H1. apply (Hc i d Hd).
  exists config, gen. by rewrite <- H2, <- H3, <- H4.
Qed.
End Lemmas.

(** ** Lookups preserve exactness *)

Section Lookup.
Context {R : KernelReads} `{!MappedReads R}.

(** A computed "no role, cacheable" answer has a lasting reason. *)
Lemma cacheable_no_role w s d :
  names_ok w -> dentry_role w s (Some d) = (0, true) ->
  no_role_name w s (d_parent (dentries w d)) (nm w d).
Proof.
  intros Hn. rewrite dentry_role_nm by done. destruct (_ <? 64)%nat eqn:E; bool_to_prop.
  - intros [= Hrole Hslot]. right. split; [done|].
    rewrite <- (role_spec_slot_only w s _ (nm w (d_parent (dentries w d)))) by done.
    by rewrite Hrole.
  - by left.
Qed.

(** Recording a computed answer keeps the cache exact. *)
Lemma cache_exact_record w s d i config gen :
  names_ok w -> single_name w -> cache_exact w s -> d_inode (dentries w d) = Some i ->
  guard_config s = Some config -> role_generation s = Some gen ->
  dentry_role w s (Some d) = (0, true) -> i_nlink (inodes w i) = 1 ->
  cache_exact w (set_negative_roles s (<[inode_key w i := u64 (config + gen)]> (negative_roles s))).
Proof.
  intros Hn Hone Hc Hd Hcfg Hgen Hr Hl i' d' Hd' (config' & gen' & Hc' & Hg' & Hs & Hneg).
  simpl in *. rewrite Hcfg in Hc'. rewrite Hgen in Hg'. simplify_eq.
  destruct (decide (i' = i)) as [->|Hne].
  - assert (d' = d) as -> by eauto. by apply cacheable_no_role.
  - rewrite lookup_insert_ne in Hneg by (unfold inode_key; congruence).
    apply (Hc i' d' Hd'). by exists config', gen'.
Qed.

(** A role lookup through the cache: it keeps the cache exact, and an answer of
    no guarded role for an unlabelled object is the computed one. *)
Lemma object_role_preserves w s e d i :
  names_ok w -> single_name w -> cache_exact w s -> d_inode (dentries w d) = Some i ->
  cache_exact w (object_role w s e (Some d) (Some i)).2.
Proof.
  intros Hn Hone Hc Hd. unfold object_role. destruct (known_role s i); [done|].
  destruct (negb _); [done|].
  destruct (guard_config s) as [config|] eqn:Ecfg; [|done].
  destruct (role_generation s) as [gen|] eqn:Egen; [|done].
  destruct (role_stable w config i && _) eqn:Ehit; [done|].
  destruct (dentry_role w s (Some d)) as [computed cacheable] eqn:Er.
  pose proof (label_inode_frame s e i computed) as (F1 & _ & F3 & _ & F5 & F6).
  pose proof (label_inode_zero s e i computed) as Hz.
  destruct (label_inode s e i computed) as [role s1]. simpl in *.
  destruct (_ && _ && _ && _) eqn:Erec; simpl; [|by apply (cache_exact_frame w s)].
  unfold role_stable in *. bool_to_prop. subst role. rewrite (Hz eq_refl) in Er. subst cacheable.
  rewrite F3. apply (cache_exact_frame w (set_negative_roles s (<[inode_key w i := u64 (config + gen)]> (negative_roles s))));
    [done..|]. by apply (cache_exact_record w s d).
Qed.

Lemma object_role_answer w s e d i :
  names_ok w -> cache_exact w s -> d_inode (dentries w d) = Some i ->
  (object_role w s e (Some d) (Some i)).1 = 0 ->
  guarded_bits (dentry_role w s (Some d)).1 = 0.
Proof.
  intros Hn Hc Hd. unfold object_role.
  destruct (known_role s i) as [k|] eqn:Ek.
  { unfold known_role in Ek. destruct (object_roles s !! i); simpl in Ek; [|done].
    destruct (_ =? 0) eqn:E; simplify_eq. bool_to_prop. done. }
  destruct (negb _) eqn:Eh; [by bool_to_prop|].
  destruct (guard_config s) as [config|] eqn:Ecfg; [|done].
  destruct (role_generation s) as [gen|] eqn:Egen; [|done].
  destruct (role_stable w config i && _) eqn:Ehit.
  { intros _. bool_to_prop. apply (cache_exact_role w s i d); [done..|]. by exists config, gen. }
  destruct (dentry_role w s (Some d)) as [computed cacheable] eqn:Er.
  pose proof (label_inode_zero s e i computed) as Hz.
  destruct (label_inode s e i computed) as [role s1]. simpl in *.
  intros H. rewrite Hz; [done|]. destruct (_ && _) in H; done.
Qed.
End Lookup.

(** ** Completed renames preserve exactness *)

Lemma inode_key_move w old new i : inode_key (move w old new) i = inode_key w i.
Proof. unfold inode_key, move. simpl. by case_bool_decide. Qed.

Lemma inode_id_move w old new d :
  (d = new -> d_inode (dentries w new) = None) ->
  inode_id (deref_inode (move w old new) (d_inode (dentries (move w old new) d))) =
  inode_id (deref_inode w (d_inode (dentries w d))).
Proof.
  intros Hnew. assert (d_inode (dentries (move w old new) d) = d_inode (dentries w d)) as ->.
  { simpl. case_bool_decide; [by subst|]. case_bool_decide; [subst; by rewrite Hnew|done]. }
  destruct (d_inode (dentries w d)) as [q|]; [|done]. simpl. by case_bool_decide.
Qed.

Section Frame.
Context {R : KernelReads}.

Lemma dentry_role_frame w s s' d :
  guard_slots s' = guard_slots s -> guard_dirs s' = guard_dirs s ->
  dentry_role w s' d = dentry_role w s d.
Proof.
  intros H1 H2. unfold dentry_role, named_role, nscd_parent, directory_role, inode_role.
  by rewrite H1, H2.
Qed.

Lemma object_role_uncached_frame w s e d i :
  let s' := (object_role_uncached w s e d i).2 in
  guard_slots s' = guard_slots s /\ guard_dirs s' = guard_dirs s /\
  negative_roles s' = negative_roles s /\ held_roles s' = held_roles s /\
  role_generation s' = role_generation s /\ guard_config s' = guard_config s.
Proof.
  unfold object_role_uncached. repeat (case_match; try done). apply label_inode_frame.
Qed.

(** A permitted rename: either nothing is held and the generation stands (no
    inode, no guarded destination role, or an unsettled guard), or the role is
    held for the inode and the generation advanced. *)
Lemma guard_rename_cases w s e old new s1 :
  guard_rename w s e old new 0 = (0, s1) ->
  guard_slots s1 = guard_slots s /\ negative_roles s1 = negative_roles s /\
  guard_config s1 = guard_config s /\
  ((role_generation s1 = role_generation s /\
    (d_inode (dentries w old) = None \/ guarded_bits (dentry_role w s (Some new)).1 = 0 \/
     exists config, guard_config s = Some config /\ has_bits config GUARD_SETTLED = false)) \/
   (exists i g, d_inode (dentries w old) = Some i /\ role_generation s = Some g /\
      role_generation s1 = Some (u64 (g + 1)) /\ is_Some (held_roles s1 !! inode_key w i))).
Proof.
  unfold guard_rename. rewrite Z.eqb_refl. cbn [negb].
  pose proof (object_role_uncached_frame w s e (Some old) (d_inode (dentries w old)))
    as (F1 & F2 & F3 & F4 & F5 & F6).
  destruct (object_role_uncached _ _ _ _ _) as [current s0]. cbn [snd] in *.
  destruct (current <? 0); [done|]. rewrite (dentry_role_frame w s s0) by done.
  destruct (d_inode (dentries w old)) as [i|] eqn:Ei.
  2: { intros [= <-]. repeat (split; [done|]). left. split; [done|]. by left. }
  destruct (_ =? 0) eqn:Et.
  { intros [= <-]. bool_to_prop. repeat (split; [done|]). left. split; [done|]. right. by left. }
  destruct (role_generation s0) as [g|] eqn:Eg; [|done].
  destruct (guard_config s0) as [config|] eqn:Ec; [|done].
  destruct (negb (has_bits config GUARD_SETTLED)) eqn:Es.
  { intros [= <-]. bool_to_prop. repeat (split; [done || congruence|]).
    left. split; [congruence|]. right. right. exists config. by rewrite <- F6. }
  unfold held_update, invalidate_streams. rewrite Eg. simpl.
  destruct (_ && _); [|done]. intros [= <-]. simpl. repeat (split; [congruence|]).
  right. exists i, g. rewrite lookup_insert_eq. split; [done|]. split; [congruence|]. split; [done|]. by eexists.
Qed.

(** What the completion program does to the parts the cache depends on. *)
Lemma guard_renamed_frame w s moved other from to ret :
  let s' := (guard_renamed w s (Some moved) (Some other) from to ret).2 in
  guard_slots s' = guard_slots s /\ negative_roles s' = negative_roles s /\
  guard_config s' = guard_config s /\
  (role_generation s' = role_generation s \/ role_generation s' = role_generation (invalidate_streams s)) /\
  (forall i, d_inode (dentries w moved) = Some i -> is_Some (held_roles s !! inode_key w i) ->
     role_generation s' = role_generation (invalidate_streams s)).
Proof.
  unfold guard_renamed, release_held, invalidate_streams.
  destruct (d_inode (dentries w moved)) as [i|] eqn:Ei, (d_inode (dentries w other)) as [j|] eqn:Ej; simpl;
  try destruct (bool_decide (is_Some (held_roles s !! inode_key w i))) eqn:Eh; simpl; bool_to_prop;
  repeat (case_match; simpl in *; simplify_eq); repeat split; try done; try (by left); try (by right);
  intros ? [= <-]; done.
Qed.
End Frame.

(** Once the generation moved past every stamp, no entry answers. *)
Lemma bumped_answers_none w s s' i g g' :
  stamps_ok s -> role_generation s = Some g -> role_generation s' = Some g' -> g < g' <= g + 2 ->
  guard_config s' = guard_config s -> negative_roles s' = negative_roles s ->
  ~ answers_none w s' i.
Proof.
  intros Hok Hg Hg' Hlt Hc Hneg (config & gen & Hc' & Hgen & _ & Hstamp).
  rewrite Hg' in Hgen. injection Hgen as <-. rewrite Hc in Hc'. rewrite Hneg in Hstamp.
  destruct (Hok config g Hc' Hg) as (? & ? & Hb & Hst). specialize (Hst _ _ Hstamp).
  rewrite uN_id in Hst by lia. lia.
Qed.

(** An entry that answers after a move already answered before it. *)
Lemma answers_none_move w s s' old new i :
  valid_move w old new ->
  guard_config s' = guard_config s -> role_generation s' = role_generation s ->
  negative_roles s' = negative_roles s ->
  answers_none (move w old new) s' i -> answers_none w s i.
Proof.
  intros (_ & _ & _ & Hj) H1 H2 H3 (config & gen & Hc & Hg & Hs & Hn).
  rewrite inode_key_move, H3 in Hn. rewrite H1 in Hc. rewrite H2 in Hg.
  exists config, gen. repeat (split; [done|]). split; [|done].
  unfold role_stable in *. bool_to_prop. rewrite H. cbn [negb andb]. rewrite H4. cbn [andb].
  simpl in H0. case_bool_decide as Hr; [|by apply Z.eqb_eq].
  destruct (Hj _ Hr) as [Hl _]. simpl in H0. lia.
Qed.

(** [no_role_name] of an untouched dentry survives a move. *)
Lemma no_role_name_move w s s' old new parent name :
  guard_slots s' = guard_slots s -> parent <> new ->
  no_role_name w s parent name -> no_role_name (move w old new) s' parent name.
Proof.
  intros Hs Hp. unfold no_role_name. rewrite Hs, inode_id_move by done. done.
Qed.

Section Rename.
Context {R : KernelReads} `{!MappedReads R}.

(** The moved object: its destination has no guarded role. *)
Lemma no_role_destination w s s' old new :
  names_ok w -> valid_move w old new -> guard_slots s' = guard_slots s ->
  slot_only_name (nm w new) = true \/ (64 <= length (nm w new))%nat ->
  guarded_bits (dentry_role w s (Some new)).1 = 0 ->
  no_role_name (move w old new) s' (d_parent (dentries w new)) (nm w new).
Proof.
  intros Hn (_ & Hpar & _) Hs Hname Hrole.
  apply (no_role_name_move w s); [done|set_solver|]. rewrite dentry_role_nm in Hrole by done.
  destruct (_ <? 64)%nat eqn:E; bool_to_prop; [|by left].
  destruct Hname as [Hname|]; [|lia]. right. split; [done|].
  simpl in Hrole. by rewrite role_spec_slot_only in Hrole.
Qed.

(** A rename without generation change: the cache stays exact. *)
Lemma rename_exact_same w s s' old new :
  names_ok w -> cache_exact w s -> valid_move w old new ->
  guard_slots s' = guard_slots s -> negative_roles s' = negative_roles s ->
  guard_config s' = guard_config s -> role_generation s' = role_generation s ->
  (d_inode (dentries w old) = None \/
   no_role_name (move w old new) s' (d_parent (dentries w new)) (nm w new)) ->
  cache_exact (move w old new) s'.
Proof.
  intros Hn Hc Hv H1 H2 H3 H4 Hdest i d Hd Ha.
  apply (answers_none_move w s) in Ha; [|done..]. destruct Hv as (Hne & Hpar & Hchild & _).
  unfold nm. simpl in *. case_bool_decide as Eold; [subst; simpl in *|].
  - destruct Hdest as [?|Hdest]; [congruence|]. exact Hdest.
  - case_bool_decide as Enew; [done|]. apply (no_role_name_move w s); [done|naive_solver|].
    by apply (Hc i d).
Qed.

(** A completed rename (permission hook, the kernel's move, completion
    program) keeps every "no role" answer exact, when the destination carries a
    guarded role or its name is one no built-in rule inspects. *)
Theorem rename_preserves_cache w s e old new s1 from to :
  names_ok w -> cache_exact w s -> stamps_ok s -> valid_move w old new ->
  guard_rename w s e old new 0 = (0, s1) ->
  guarded_bits (dentry_role w s (Some new)).1 <> 0 \/
    slot_only_name (nm w new) = true \/ (64 <= length (nm w new))%nat ->
  cache_exact (move w old new) (guard_renamed (move w old new) s1 (Some old) (Some new) from to 0).2.
Proof.
  intros Hn Hc Hok Hv Hren Hdest.
  apply guard_rename_cases in Hren as (R1 & R2 & R3 & Hcases).
  destruct (guard_renamed_frame (move w old new) s1 old new from to 0) as (F1 & F2 & F3 & F4 & F5).
  set (s2 := (guard_renamed _ _ _ _ _ _ _).2) in *.
  destruct (role_generation s) as [g|] eqn:Eg.
  2: { intros i d _ (config & gen & _ & Hg & _). exfalso.
       destruct Hcases as [[Hg1 _]|(?&?&_&?&_)]; [|done].
       unfold invalidate_streams in F4. rewrite Hg1 in F4. destruct F4; congruence. }
  destruct (guard_config s) as [config|] eqn:Ecfg.
  2: { intros i d _ (? & ? & Hcf & _). congruence. }
  destruct (Hok config g Ecfg Eg) as (? & ? & Hb & _).
  assert (forall i, role_generation s2 = Some (u64 (g + 1)) \/ role_generation s2 = Some (u64 (u64 (g + 1) + 1)) ->
          ~ answers_none (move w old new) s2 i) as Hbump.
  { intros i [Hg2|Hg2]; (eapply (bumped_answers_none _ s); [done|done|exact Hg2| |congruence..]);
    rewrite !uN_id by (rewrite ?uN_id; lia); lia. }
  destruct Hcases as [[Hg1 Hwhy]|(i & g' & Hi & [= <-] & Hg1 & Hheld)].
  - destruct F4 as [F4|F4].
    + destruct Hwhy as [Hnone|[Hz|(c & Hcf & Hset)]].
      * apply (rename_exact_same w s); [done..|congruence|congruence|congruence|congruence|by left].
      * apply (rename_exact_same w s); [done..|congruence|congruence|congruence|congruence|right].
        apply (no_role_destination w s); [done..|congruence| |done]. by destruct Hdest as [?|?].
      * intros i d _ (config' & gen & Hc' & _ & Hs & _). exfalso. unfold role_stable in Hs.
        bool_to_prop. congruence.
    + intros i d _ Ha. exfalso. apply (Hbump i); [left|done].
      rewrite F4. unfold invalidate_streams. by rewrite Hg1.
  - intros i' d _ Ha. exfalso. apply (Hbump i'); [right|done].
    rewrite (F5 i); [unfold invalidate_streams; by rewrite Hg1| |by rewrite inode_key_move].
    simpl. by rewrite bool_decide_true.
Qed.
End Rename.

Section Exact.
Context {R : KernelReads} `{!MappedReads R}.

(** The role of a named object is exactly the declared table: the enrolled
    slot of its directory, the cache rule and the endpoint rules, for every
    name that fits the 64-byte slot key; a longer name has no role and is
    remembered as such; and the answer is cacheable only for a name no rule
    inspects. *)
Theorem dentry_role_exact w s d :
  names_ok w ->
  dentry_role w s (Some d) =
    if (length (nm w d) <? 64)%nat
    then (role_spec w s (d_parent (dentries w d)) (nm w (d_parent (dentries w d))) (nm w d),
          slot_only_name (nm w d))
    else (0, true).
Proof. exact (dentry_role_nm w s d). Qed.

End Exact.

(** ** Where the answer is not exact

    The two sequences below use only operations the guard observes or that the
    kernel performs without a hook, and end with [object_role] answering "no
    role" from the cache for an object whose computed role is ROLE_CACHE. *)

Module Stale.
Definition dir (n : Z) : inode :=
  {| s_dev := 8; s_magic := 61267; i_ino := n; i_generation := 1; i_nlink := 2; i_mode := 16877; i_uid := 0 |}.
Definition file (nlink : Z) : inode :=
  {| s_dev := 8; s_magic := 61267; i_ino := 30; i_generation := 1; i_nlink := nlink; i_mode := 33188; i_uid := 0 |}.
Definition entry (name : String.string) (parent : positive) (i : option positive) : dentry :=
  {| d_name := str name ++ [0]; d_parent := parent; d_inode := i |}.

(** /var/cache (1) with a directory (2) holding one file (3); 4 and 5 are the
    free names "hosts" in that directory and "nscd" in /var/cache. *)
Definition w0 : world :=
  {| inodes := fun i => if bool_decide (i = 3%positive) then file 1 else dir (Zpos i * 10);
     dentries := fun d => match d with
       | 1%positive => entry "cache" 1 (Some 1%positive)
       | 2%positive => entry "build" 1 (Some 2%positive)
       | 3%positive => entry "foo" 2 (Some 3%positive)
       | 4%positive => entry "hosts" 2 None
       | 5%positive => entry "nscd" 1 None
       | 6%positive => entry "slot" 2 None
       | _ => entry "other" 1 None
       end;
     socks := fun _ => {| skc_family := 1; sk_type := 1; is_unix_sock := true; unix_path := None;
                          unix_addr := None; unix_peer := None; net_inum := 7 |} |}.

(** /var/cache is an audited nscd parent and "slot" in the directory is an
    enrolled cache slot; the guard is settled. *)
Definition g0 : guard :=
  {| guard_slots := {[ ((8, 20), pad 64 (str "slot")) := ROLE_CACHE ]};
     guard_dirs := {[ (8, 10) := ROLE_NSCD_PARENT ]};
     endpoint_names := ∅; object_roles := ∅; negative_roles := ∅; held_roles := ∅; stream_roles := ∅;
     role_generation := Some 0; guard_config := Some GUARD_SETTLED; guard_stats := [0; 0; 0; 0];
     g_policy := demo_maps |}.
Definition env : genv :=
  {| e_task := demo_task true demo_path; e_inode_alloc := true; e_sock_alloc := fun _ => true;
     e_held_alloc := true; e_negative_alloc := true |}.

(** The file is opened once: "no role" is remembered. *)
Definition g1 : guard := (object_role (R:=plain_reads) w0 g0 env (Some 3%positive) (Some 3%positive)).2.

(** A full rename: permission, move, completion. *)
Definition rename (w : world) (s : guard) (old new from to : positive) : Z * world * guard :=
  let '(v, s1) := guard_rename (R:=plain_reads) w s env old new 0 in
  let w' := move w old new in
  (v, w', (guard_renamed w' s1 (Some old) (Some new) (Some from) (Some to) 0).2).

(** foo is renamed to hosts in its directory (no role there), then the
    directory is renamed to nscd inside the audited parent. *)
Definition after_foo := rename w0 g1 3 4 2 2.
Definition after_dir := rename after_foo.1.2 after_foo.2 2 5 1 1.

Example rename_then_parent_rename_stale :
  after_foo.1.1 = 0 /\ after_dir.1.1 = 0 /\
  (object_role (R:=plain_reads) after_dir.1.2 after_dir.2 env (Some 3%positive) (Some 3%positive)).1 = 0 /\
  dentry_role (R:=plain_reads) after_dir.1.2 after_dir.2 (Some 3%positive) = (ROLE_CACHE, false).
Proof. vm_compute. repeat split. Qed.

(** link(foo, slot), then unlink(foo): the only name is now the slot, the link
    count is one again and no generation moved. *)
Definition linked : world :=
  {| inodes := inodes w0;
     dentries := fun d => if bool_decide (d = 3%positive) then entry "foo" 2 None
                          else if bool_decide (d = 6%positive) then entry "slot" 2 (Some 3%positive)
                          else dentries w0 d;
     socks := socks w0 |}.

Example link_unlink_stale :
  (object_role (R:=plain_reads) linked g1 env (Some 6%positive) (Some 3%positive)).1 = 0 /\
  dentry_role (R:=plain_reads) linked g1 (Some 6%positive) = (ROLE_CACHE, true).
Proof. vm_compute. repeat split. Qed.

(** An enrolled program's open of that file is allowed, and refused when the
    cache is empty. *)
Example stale_open_allowed :
  let f := Some {| f_inode := Some 3%positive; f_dentry := Some 6%positive; f_socket := None |} in
  (guard_open (R:=plain_reads) linked g1 env f 0).1 = 0 /\
  (guard_open (R:=plain_reads) linked g0 env f 0).1 = - EACCES.
Proof. vm_compute. repeat split. Qed.
End Stale.

(** ** Witnesses *)

Module Exercise.
Import Stale.

Lemma w0_names : names_ok w0.
Proof. intros d. unfold w0. simpl. repeat case_match; simpl; set_solver. Qed.

Lemma w0_single : single_name w0.
Proof.
  intros i d d' H1 H2 _. unfold w0 in *. simpl in *.
  repeat (case_match; simpl in *; simplify_eq); done.
Qed.

Lemma g0_exact : cache_exact w0 g0.
Proof. intros i d _ (config & gen & _ & _ & _ & H). simpl in H. by rewrite lookup_empty in H. Qed.

Lemma g1_exact : cache_exact w0 g1.
Proof. apply (object_role_preserves (R:=plain_reads)); [apply w0_names|apply w0_single|apply g0_exact|done]. Qed.

Lemma g1_negative : negative_roles g1 = {[ inode_key w0 3 := GUARD_SETTLED ]}.
Proof. reflexivity. Qed.

Lemma g1_stamps : stamps_ok g1.
Proof.
  intros config gen Hc Hg. vm_compute in Hc, Hg. simplify_eq. repeat (split; [lia|]).
  intros k stamp. rewrite g1_negative. intros [_ <-]%lookup_singleton_Some. by vm_compute.
Qed.
End Exercise.

(** The remembered file is renamed to an ordinary name in /var/cache. *)
Lemma rename_preserves_cache_witness :
  cache_exact (move Stale.w0 3 7)
    (guard_renamed (move Stale.w0 3 7) Stale.g1 (Some 3%positive) (Some 7%positive) (Some 2%positive) (Some 1%positive) 0).2.
Proof.
  apply (rename_preserves_cache (R:=plain_reads) Stale.w0 Stale.g1 Stale.env).
  - apply Exercise.w0_names.
  - apply Exercise.g1_exact.
  - apply Exercise.g1_stamps.
  - repeat split; simpl; try done.
    + set_solver.
    + intros d. repeat case_match; done.
  - reflexivity.
  - right. left. by vm_compute.
Defined.


(** The file "slot" of the directory gets its enrolled role. *)
Lemma dentry_role_exact_witness :
  dentry_role (R:=plain_reads) Stale.linked Stale.g0 (Some 6%positive) = (ROLE_CACHE, true).
Proof.
  rewrite (dentry_role_exact (R:=plain_reads)).
  - by vm_compute.
  - intros d. unfold Stale.linked. simpl. repeat case_match; simpl; set_solver.
Defined.
