(* ===== verification/GuardStreams.v ===== *)
(** * GuardStreams: stream labels under concurrency

    A hook labels a stream in several steps (snapshot the two counters, resolve
    the endpoints, store the label) while binds, renames and enrollments run on
    other CPUs.  This file models those steps as a transition system whose
    labelling operations are the ones of [Guard], and proves that a SAFE label
    the fast path of [stream_guard] would accept rests on endpoints that are
    still unprotected.  The second half is about single hook calls: what an
    allowing verdict means for an included program. *)
From S2P Require Import Prelude Kernel Policy Guard.

(** ** The loader's configuration word *)

Definition set_config s c := {| guard_slots := guard_slots s; guard_dirs := guard_dirs s;
  endpoint_names := endpoint_names s; object_roles := object_roles s; negative_roles := negative_roles s;
  held_roles := held_roles s; stream_roles := stream_roles s; role_generation := role_generation s;
  guard_config := c; guard_stats := guard_stats s; g_policy := g_policy s |}.

(** [guard-slot]: refused while an earlier update is incomplete or the counter
    is exhausted; otherwise the word becomes odd before any map changes. *)
Definition enroll_begin (s : guard) : option guard :=
  epoch ← guard_config s;
  if has_bits epoch 1 || (2 ^ 64 - 1 - 2 <? epoch) then None
  else Some (set_config s (Some (epoch + 1))).

(** The [finish] step, after success and after failure alike. *)
Definition enroll_finish (s : guard) : option guard :=
  epoch ← guard_config s; Some (set_config s (Some (epoch + 1))).

(** The end of [drain]: the settled bit is added to the word. *)
Definition settle_config (s : guard) : option guard :=
  epoch ← guard_config s; Some (set_config s (Some (Z.lor epoch GUARD_SETTLED))).

(** ** The transition system *)

(** A labelling in progress: the snapshot it took, the sockets it will label,
    the role found so far and the endpoints whose identity it resolved. *)
Record attempt := {
  a_targets : list positive;
  a_version : Z * Z;
  a_role : Z;
  a_basis : list positive
}.

(** [protected_end] is the truth the resolutions observe; [pending] counts
    protecting operations whose generation bump is still to come; [unobserved]
    counts operations that entered before the completion programs attached. *)
Record system := {
  maps : guard;
  protected_end : positive -> bool;
  pending : nat;
  unobserved : nat;
  inflight : gmap positive attempt;
  label_basis : gmap positive (list positive)
}.

Definition with_maps y g := {| maps := g; protected_end := protected_end y; pending := pending y;
  unobserved := unobserved y; inflight := inflight y; label_basis := label_basis y |}.
Definition with_ends y p n u := {| maps := maps y; protected_end := p; pending := n;
  unobserved := u; inflight := inflight y; label_basis := label_basis y |}.
Definition with_attempts y a := {| maps := maps y; protected_end := protected_end y; pending := pending y;
  unobserved := unobserved y; inflight := a; label_basis := label_basis y |}.

(** What [set_stream_role] leaves a label resting on: nothing changes for an
    unsettled snapshot or a failed allocation. *)
Definition basis_after (y : system) (k : positive) (a : attempt) (err : Z) : gmap positive (list positive) :=
  if has_bits (a_version a).2 GUARD_SETTLED && (err =? 0)
  then <[k := a_basis a]> (label_basis y) else label_basis y.

(** The counters stay below the width of a stamp, and the enrollment count does
    not carry into the settled bit. *)
Definition counters_fit (g : guard) : Prop :=
  match role_version g with
  | Some v => v.1 + v.2 + 2 < 2 ^ 63 /\ (v.2 + 2 < 2 ^ 62 \/ 2 ^ 62 <= v.2)
  | None => True
  end.

(** Parts of the maps the labels do not depend on may change at any time. *)
Definition same_labels (g g' : guard) : Prop :=
  stream_roles g' = stream_roles g /\ role_generation g' = role_generation g /\
  guard_config g' = guard_config g.

Inductive step : system -> system -> Prop :=
| step_snapshot y id targets v :
    inflight y !! id = None -> role_version (maps y) = Some v ->
    step y (with_attempts y (<[id := {| a_targets := targets; a_version := v; a_role := 0; a_basis := [] |}]> (inflight y)))
| step_resolve y id a j role :
    inflight y !! id = Some a -> has_bits (a_role a) ROLE_SOCKET = false ->
    0 <= role -> has_bits role ROLE_SOCKET = protected_end y j ->
    step y (with_attempts y (<[id := {| a_targets := a_targets a; a_version := a_version a; a_role := role;
                                        a_basis := j :: a_basis a |}]> (inflight y)))
| step_store y id a k e err g' :
    inflight y !! id = Some a -> k ∈ a_targets a ->
    set_stream_role (maps y) e (Some k) (stream_safe (a_role a) (a_version a)) (a_version a) = (err, g') ->
    step y {| maps := g'; protected_end := protected_end y; pending := pending y; unobserved := unobserved y;
              inflight := inflight y; label_basis := basis_after y k a err |}
| step_leave y id :
    step y (with_attempts y (delete id (inflight y)))
| step_pair y e one two err g' :
    protected_end y one = false -> protected_end y two = false ->
    guard_pair (maps y) e (Some one) (Some two) 0 = (err, g') ->
    step y {| maps := g'; protected_end := protected_end y; pending := pending y; unobserved := unobserved y;
              inflight := inflight y;
              label_basis := <[two := [one; two]]> (<[one := [one; two]]> (label_basis y)) |}
| step_effect y p :
    step y (with_ends y p (S (pending y)) (unobserved y))
| step_retire y (p : positive -> bool) :
    (forall j, p j = true -> protected_end y j = true) ->
    step y (with_ends y p (pending y) (unobserved y))
| step_invalidate y n :
    (pending y = n \/ pending y = S n) -> counters_fit (maps y) ->
    step y (with_ends (with_maps y (invalidate_streams (maps y))) (protected_end y) n (unobserved y))
| step_unobserved y p u :
    unobserved y = S u -> step y (with_ends y p (pending y) u)
| step_settle y g' :
    unobserved y = 0%nat -> settle_config (maps y) = Some g' -> counters_fit g' ->
    step y (with_maps y g')
| step_enroll_begin y g' :
    counters_fit (maps y) -> enroll_begin (maps y) = Some g' -> step y (with_maps y g')
| step_enroll_change y p c :
    guard_config (maps y) = Some c -> has_bits c 1 = true ->
    step y (with_ends y p (pending y) (unobserved y))
| step_enroll_finish y g' c :
    guard_config (maps y) = Some c -> has_bits c 1 = true -> counters_fit (maps y) ->
    enroll_finish (maps y) = Some g' -> step y (with_maps y g')
| step_other y g' :
    same_labels (maps y) g' -> step y (with_maps y g').

(** The published guard: nothing labelled, unsettled, any number of operations
    still running from before the attachment. *)
Definition published (y : system) : Prop :=
  stream_roles (maps y) = ∅ /\ role_generation (maps y) = Some 0 /\ guard_config (maps y) = Some 0 /\
  inflight y = ∅ /\ label_basis y = ∅ /\ pending y = 0%nat.

Inductive reachable : system -> Prop :=
| reach_published y : published y -> reachable y
| reach_step y y' : reachable y -> step y y' -> reachable y'.

(** ** The invariant *)

(** Endpoints a label rests on are unprotected, unless a bump is still due. *)
Definition clean (y : system) (l : list positive) : Prop :=
  (0 < pending y)%nat \/ forall j, j ∈ l -> protected_end y j = false.

Definition version_upto (gen c : Z) (v : Z * Z) : Prop := 0 <= v.1 <= gen /\ 0 <= v.2 <= c.

(** A stored word is the initial stale one, or a stamp of an earlier settled
    version; a SAFE one of the current version is clean. *)
Definition label_ok (gen c : Z) (ok : list positive -> Prop) (basis : option (list positive)) (word : Z) : Prop :=
  word = STREAM_STALE \/
  exists v, version_upto gen c v /\ 2 ^ 62 <= v.2 /\
    (word = 2 * (v.1 + v.2) \/
     word = 2 * (v.1 + v.2) + 1 /\
     exists l, basis = Some l /\ (v = (gen, c) -> has_bits c 1 = false -> ok l)).

Definition attempt_ok (gen c : Z) (ok : list positive -> Prop) (a : attempt) : Prop :=
  version_upto gen c (a_version a) /\
  (a_version a = (gen, c) -> has_bits (a_role a) ROLE_SOCKET = false ->
   has_bits c 1 = false -> 2 ^ 62 <= c -> ok (a_basis a)).

Definition inv (y : system) : Prop :=
  exists gen c, role_generation (maps y) = Some gen /\ guard_config (maps y) = Some c /\
    0 <= gen /\ 0 <= c /\ gen + c + 1 < 2 ^ 63 /\
    ((0 < unobserved y)%nat -> c < 2 ^ 62) /\
    (forall id a, inflight y !! id = Some a -> attempt_ok gen c (clean y) a) /\
    (forall k word, stream_roles (maps y) !! k = Some word ->
       label_ok gen c (clean y) (label_basis y !! k) word).

(** ** Lemmas on the counters *)

Lemma has_settled c : 0 <= c < 2 ^ 63 -> has_bits c GUARD_SETTLED = (2 ^ 62 <=? c).
Proof. intros Hc. apply has_bits_top; lia. Qed.

Lemma stream_stamp_exact v :
  0 <= v.1 -> 0 <= v.2 -> v.1 + v.2 < 2 ^ 63 -> stream_stamp v = 2 * (v.1 + v.2).
Proof.
  intros ???. unfold stream_stamp. rewrite (uN_id 64 (v.1 + v.2)) by lia.
  rewrite Z.shiftl_mul_pow2 by lia. rewrite uN_id by lia. lia.
Qed.

(** Stamps and verdicts only get weaker as the counters advance. *)
Lemma label_ok_mono gen c ok gen' c' (ok' : list positive -> Prop) basis word :
  label_ok gen c ok basis word -> gen <= gen' -> c <= c' ->
  (gen' = gen -> c' = c -> 2 ^ 62 <= c -> has_bits c 1 = false -> forall l, ok l -> ok' l) ->
  label_ok gen' c' ok' basis word.
Proof.
  unfold label_ok, version_upto. intros [->|([v1 v2] & (Hv1 & Hv2) & Hs & Hw)] Hg Hc Hok; [by left|].
  right. exists (v1, v2). simpl in *. split; [lia|]. split; [done|].
  destruct Hw as [->|(-> & l & Hb & Hl)]; [by left|]. right. split; [done|].
  exists l. split; [done|]. intros [= -> ->] He.
  assert (gen' = gen) as -> by lia. assert (c' = c) as -> by lia. apply Hok; try done. by apply Hl.
Qed.

Lemma attempt_ok_mono gen c ok gen' c' (ok' : list positive -> Prop) a :
  attempt_ok gen c ok a -> gen <= gen' -> c <= c' ->
  (gen' = gen -> c' = c -> 2 ^ 62 <= c -> has_bits c 1 = false -> forall l, ok l -> ok' l) ->
  attempt_ok gen' c' ok' a.
Proof.
  unfold attempt_ok, version_upto. destruct a as [tg [v1 v2] r b]. simpl. intros [Hv Ha] Hg Hc Hok.
  split; [lia|]. intros [= -> ->] Hr He Hs.
  assert (gen' = gen) as -> by lia. assert (c' = c) as -> by lia. apply Hok; try done. by apply Ha.
Qed.

(** A change of counters, endpoints or unrelated maps that either advances a
    counter or keeps clean bases clean. *)
Lemma inv_advance y g' p n u gen c gen' c' :
  inv y -> role_generation (maps y) = Some gen -> guard_config (maps y) = Some c ->
  role_generation g' = Some gen' -> guard_config g' = Some c' -> stream_roles g' = stream_roles (maps y) ->
  gen <= gen' -> c <= c' -> gen' + c' + 1 < 2 ^ 63 -> ((0 < u)%nat -> c' < 2 ^ 62) ->
  let y' := with_ends (with_maps y g') p n u in
  (gen' = gen -> c' = c -> 2 ^ 62 <= c -> has_bits c 1 = false -> forall l, clean y l -> clean y' l) ->
  inv y'.
Proof.
  intros (gen0 & c0 & Hg & Hc & ? & ? & ? & ? & Ha & Hl) Eg Ec Eg' Ec' Es ?? ? ? y' Hok.
  rewrite Hg in Eg. rewrite Hc in Ec. simplify_eq.
  exists gen', c'. simpl. repeat (split; [done || lia|]). split.
  - intros id a H'. eapply attempt_ok_mono; eauto.
  - intros k word Hk. rewrite Es in Hk. eapply label_ok_mono; eauto.
Qed.

(** What [set_stream_role] does: nothing (unsettled, or out of memory), or one
    store of the stamped word. *)
Lemma set_stream_role_cases s e k safe v err s' :
  set_stream_role s e (Some k) safe v = (err, s') ->
  (s' = s /\ has_bits v.2 GUARD_SETTLED && (err =? 0) = false) \/
  (err = 0 /\ has_bits v.2 GUARD_SETTLED = true /\
   stream_roles s' = <[k := Z.lor (stream_stamp v) (if safe then 1 else 0)]> (stream_roles s) /\
   role_generation s' = role_generation s /\ guard_config s' = guard_config s).
Proof.
  unfold set_stream_role, stream_storage.
  destruct (has_bits v.2 GUARD_SETTLED); simpl; [|intros [= <- <-]; by left].
  destruct (stream_roles s !! k); [|destruct (e_sock_alloc e k)]; intros [= <- <-]; auto.
  - right. done.
  - right. simpl. by rewrite insert_insert_eq.
Qed.

(** Storing a label keeps the invariant when a SAFE one is clean now. *)
Lemma inv_store y k e safe v err g' l :
  inv y ->
  (forall gen c, role_version (maps y) = Some (gen, c) -> version_upto gen c v /\
     (safe = true -> v = (gen, c) -> has_bits c 1 = false -> 2 ^ 62 <= c -> clean y l)) ->
  set_stream_role (maps y) e (Some k) safe v = (err, g') ->
  inv {| maps := g'; protected_end := protected_end y; pending := pending y; unobserved := unobserved y;
         inflight := inflight y;
         label_basis := if has_bits v.2 GUARD_SETTLED && (err =? 0) then <[k := l]> (label_basis y) else label_basis y |}.
Proof.
  intros (gen & c & Hg & Hc & ? & ? & ? & ? & Ha & Hl) Hv Hset.
  destruct (Hv gen c) as [Hup Hsafe]; [unfold role_version; by rewrite Hg, Hc|].
  pose proof Hup as [??].
  apply set_stream_role_cases in Hset as [[-> ->]|(-> & Hs & Hr & Eg & Ec)].
  { exists gen, c. done. }
  rewrite Hs. exists gen, c. simpl. rewrite Eg, Ec. repeat (split; [done|]). intros k' word.
  rewrite Hr. destruct (decide (k' = k)) as [->|Hne].
  2: { rewrite !lookup_insert_ne by done. apply Hl. }
  rewrite !lookup_insert_eq. intros [= <-]. right. exists v.
  rewrite has_settled in Hs by lia. bool_to_prop. split; [done|]. split; [done|].
  rewrite stream_stamp_exact, lor_even_1 by lia. destruct safe; [right|left; lia].
  split; [done|]. exists l. split; [done|].
  intros -> He. apply Hsafe; auto.
Qed.

(** ** Every step preserves the invariant *)

Lemma inv_published y : published y -> inv y.
Proof.
  intros (H1 & H2 & H3 & H4 & H5 & H6). exists 0, 0. rewrite H1, H2, H3, H4.
  repeat (split; [done || lia|]). intros ??; by rewrite lookup_empty.
Qed.

Lemma inv_version y gen c : inv y -> role_version (maps y) = Some (gen, c) ->
  0 <= gen /\ 0 <= c /\ gen + c + 1 < 2 ^ 63 /\
  (forall id a, inflight y !! id = Some a -> attempt_ok gen c (clean y) a).
Proof.
  intros (g & c0 & Hg & Hc & ? & ? & ? & ? & Ha & _). unfold role_version. rewrite Hg, Hc.
  intros [= <- <-]. done.
Qed.

(** Adding or replacing one labelling in progress. *)
Lemma inv_attempt y id a :
  inv y -> (forall gen c, role_version (maps y) = Some (gen, c) -> 0 <= gen -> 0 <= c -> attempt_ok gen c (clean y) a) ->
  inv (with_attempts y (<[id := a]> (inflight y))).
Proof.
  intros (gen & c & Hg & Hc & ? & ? & ? & ? & Ha & Hl) Hok. exists gen, c. simpl.
  repeat (split; [done|]). split; [|done]. intros id' a'.
  destruct (decide (id' = id)) as [->|Hne]; [rewrite lookup_insert_eq|rewrite lookup_insert_ne by done; apply Ha].
  intros [= <-]. apply Hok; [|done..]. unfold role_version. by rewrite Hg, Hc.
Qed.

Lemma inv_resolve y id a j role :
  inv y -> inflight y !! id = Some a -> has_bits (a_role a) ROLE_SOCKET = false ->
  has_bits role ROLE_SOCKET = protected_end y j ->
  inv (with_attempts y (<[id := {| a_targets := a_targets a; a_version := a_version a; a_role := role;
                                   a_basis := j :: a_basis a |}]> (inflight y))).
Proof.
  intros Hi Hid Hr Hj. apply inv_attempt; [done|]. intros gen c Hv _ _.
  destruct (inv_version _ _ _ Hi Hv) as (_ & _ & _ & Ha). destruct (Ha _ _ Hid) as [Hup Hok].
  split; [done|]. simpl. intros Hcur Hrole He Hs. destruct (Hok Hcur Hr He Hs) as [?|Hcl]; [by left|right].
  intros i [->|Hi']%elem_of_cons; [congruence|by apply Hcl].
Qed.

Definition with_basis y b := {| maps := maps y; protected_end := protected_end y; pending := pending y;
  unobserved := unobserved y; inflight := inflight y; label_basis := b |}.

(** A label may be taken to rest on any clean set of endpoints. *)
Lemma inv_rebase y k l : inv y -> clean y l -> inv (with_basis y (<[k := l]> (label_basis y))).
Proof.
  intros (gen & c & Hg & Hc & ? & ? & ? & ? & Ha & Hl) Hcl. exists gen, c. simpl.
  repeat (split; [done|]). intros k' word Hk. specialize (Hl k' word Hk).
  destruct (decide (k' = k)) as [->|Hne]; [rewrite lookup_insert_eq|by rewrite lookup_insert_ne].
  destruct Hl as [?|(v & Hv & Hs & Hw)]; [by left|right]. exists v. do 2 (split; [done|]).
  destruct Hw as [?|(Hw & _)]; [by left|right]. split; [done|]. by exists l.
Qed.

(** Storing under a basis the label already has. *)
Lemma inv_store_same y k e v err g' l :
  inv y -> label_basis y !! k = Some l -> clean y l -> role_version (maps y) = Some v ->
  set_stream_role (maps y) e (Some k) true v = (err, g') -> inv (with_maps y g').
Proof.
  intros Hi Hb Hcl Hv Hset. destruct v as [gen c]. destruct (inv_version _ _ _ Hi Hv) as (? & ? & _ & _).
  eapply (inv_store y k e true (gen, c) err g' l) in Hset; [|done|].
  - rewrite (insert_id (label_basis y)) in Hset by done. by destruct (_ && _) in Hset.
  - intros gen' c'. rewrite Hv. intros [= <- <-]. split; [unfold version_upto; simpl; lia|]. auto.
Qed.

Lemma inv_pair y e one two err g' :
  inv y -> protected_end y one = false -> protected_end y two = false ->
  guard_pair (maps y) e (Some one) (Some two) 0 = (err, g') ->
  inv {| maps := g'; protected_end := protected_end y; pending := pending y; unobserved := unobserved y;
         inflight := inflight y;
         label_basis := <[two := [one; two]]> (<[one := [one; two]]> (label_basis y)) |}.
Proof.
  intros Hi H1 H2. assert (clean y [one; two]) as Hcl.
  { right. intros j. rewrite !elem_of_cons, elem_of_nil. naive_solver. }
  set (y1 := with_basis y (<[two := [one; two]]> (<[one := [one; two]]> (label_basis y)))).
  assert (inv y1) as Hi1.
  { pose proof (inv_rebase y one [one; two] Hi Hcl) as Hi0.
    exact (inv_rebase _ two [one; two] Hi0 Hcl). }
  assert (label_basis y1 !! one = Some [one; two] /\ label_basis y1 !! two = Some [one; two]) as [B1 B2].
  { simpl. rewrite lookup_insert_eq. split; [|done]. destruct (decide (one = two)) as [->|];
    [by rewrite lookup_insert_eq|by rewrite lookup_insert_ne, lookup_insert_eq]. }
  unfold guard_pair. rewrite Z.eqb_refl. cbn [negb]. destruct (role_version (maps y)) as [v|] eqn:Hv; [|intros ?; by simplify_eq].
  destruct (set_stream_role (maps y) e (Some one) true v) as [err1 s1] eqn:E1.
  pose proof (inv_store_same y1 one e v err1 s1 _ Hi1 B1 Hcl Hv E1) as Hi2.
  destruct (negb (err1 =? 0)); [intros ?; by simplify_eq|].
  destruct (set_stream_role s1 e (Some two) true v) as [err2 s2] eqn:E2.
  assert (role_version s1 = Some v) as Hv1.
  { apply set_stream_role_cases in E1 as [[-> _]|(_ & _ & _ & Eg & Ec)]; [done|].
    unfold role_version. by rewrite Eg, Ec. }
  pose proof (inv_store_same (with_maps y1 s1) two e v err2 s2 _ Hi2 B2 Hcl Hv1 E2) as Hi3.
  destruct (negb (err2 =? 0)); intros ?; by simplify_eq.
Qed.

(** The counters of a state in the invariant. *)
Lemma inv_counters y : inv y -> exists gen c,
  role_generation (maps y) = Some gen /\ guard_config (maps y) = Some c /\ 0 <= gen /\ 0 <= c /\
  gen + c + 1 < 2 ^ 63 /\ ((0 < unobserved y)%nat -> c < 2 ^ 62).
Proof. intros (gen & c & Hg & Hc & ? & ? & ? & ? & _). by exists gen, c. Qed.

Lemma counters_fit_bound g gen c :
  counters_fit g -> role_generation g = Some gen -> guard_config g = Some c ->
  gen + c + 2 < 2 ^ 63 /\ (c + 2 < 2 ^ 62 \/ 2 ^ 62 <= c).
Proof. unfold counters_fit, role_version. intros H Hg Hc. by rewrite Hg, Hc in H. Qed.

(** Only the truth about endpoints moves. *)
Lemma inv_ends y p n u :
  inv y -> (u <= unobserved y)%nat ->
  (forall c, guard_config (maps y) = Some c -> 2 ^ 62 <= c -> has_bits c 1 = false ->
   forall l, clean y l -> clean (with_ends y p n u) l) ->
  inv (with_ends y p n u).
Proof.
  intros Hi Hu Hcl. destruct (inv_counters y Hi) as (gen & c & Hg & Hc & ? & ? & ? & Hun).
  apply (inv_advance y (maps y) p n u gen c gen c); try done; try lia.
  intros _ _ Hs He l. exact (Hcl c Hc Hs He l).
Qed.

(** Only the configuration word moves, forwards. *)
Lemma inv_config y gen c c' :
  inv y -> role_generation (maps y) = Some gen -> guard_config (maps y) = Some c -> c < c' ->
  gen + c' + 1 < 2 ^ 63 -> ((0 < unobserved y)%nat -> c' < 2 ^ 62) ->
  inv (with_maps y (set_config (maps y) (Some c'))).
Proof.
  intros Hi Hg Hc Hlt Hb Hun.
  apply (inv_advance y (set_config (maps y) (Some c')) (protected_end y) (pending y) (unobserved y) gen c gen c');
    try done; lia.
Qed.

Lemma inv_invalidate y n :
  inv y -> counters_fit (maps y) ->
  inv (with_ends (with_maps y (invalidate_streams (maps y))) (protected_end y) n (unobserved y)).
Proof.
  intros Hi Hf. destruct (inv_counters y Hi) as (gen & c & Hg & Hc & ? & ? & ? & Hun).
  destruct (counters_fit_bound _ _ _ Hf Hg Hc) as [? _].
  apply (inv_advance y (invalidate_streams (maps y)) (protected_end y) n (unobserved y) gen c (gen + 1) c);
    try done; try lia; unfold invalidate_streams; rewrite Hg; simpl; try done. by rewrite uN_id by lia.
Qed.

Lemma inv_settle y g' :
  inv y -> unobserved y = 0%nat -> settle_config (maps y) = Some g' -> counters_fit g' -> inv (with_maps y g').
Proof.
  intros Hi Hu Hs Hf. destruct (inv_counters y Hi) as (gen & c & Hg & Hc & ? & ? & ? & _).
  unfold settle_config in Hs. rewrite Hc in Hs. simpl in Hs. injection Hs as <-.
  destruct (counters_fit_bound _ gen _ Hf Hg eq_refl) as [Hb _].
  destruct (has_bits c GUARD_SETTLED) eqn:E.
  - unfold GUARD_SETTLED in *. rewrite (lor_set_bit c 62) by (done || lia).
    apply (inv_advance y (set_config (maps y) (Some c)) (protected_end y) (pending y) (unobserved y) gen c gen c);
      try done; lia.
  - rewrite lor_clear_bits in Hb |- * by done. unfold GUARD_SETTLED in *.
    apply (inv_config y gen c); try done; lia.
Qed.

Lemma inv_enroll y gen c :
  inv y -> counters_fit (maps y) -> role_generation (maps y) = Some gen -> guard_config (maps y) = Some c ->
  inv (with_maps y (set_config (maps y) (Some (c + 1)))).
Proof.
  intros Hi Hf Hg Hc. destruct (counters_fit_bound _ _ _ Hf Hg Hc) as [? Hs].
  destruct (inv_counters y Hi) as (? & ? & ? & Hc' & ? & ? & ? & Hun).
  rewrite Hc in Hc'. injection Hc' as <-.
  apply (inv_config y gen c); try done; lia.
Qed.

Lemma step_inv y y' : step y y' -> inv y -> inv y'.
Proof.
  intros Hstep Hi. destruct Hstep.
  - apply inv_attempt; [done|]. intros gen c Hv ??. rewrite H0 in Hv. simplify_eq.
    split; [unfold version_upto; simpl; lia|]. intros _ _ _ _. right. intros ?. by rewrite elem_of_nil.
  - by apply inv_resolve.
  - unfold basis_after. apply (inv_store y k e _ (a_version a) err g' (a_basis a)) in H1; [done..|].
    intros gen c Hv. destruct (inv_version _ _ _ Hi Hv) as (_ & _ & _ & Ha). destruct (Ha _ _ H) as [Hup Hok].
    split; [done|]. unfold stream_safe. intros Hsafe. bool_to_prop. auto.
  - destruct Hi as (gen & c & Hg & Hc & ? & ? & ? & ? & Ha & Hl). exists gen, c. simpl.
    repeat (split; [done|]). split; [|done]. intros id' a [_ Hid]%lookup_delete_Some. eauto.
  - eapply inv_pair; eauto.
  - apply inv_ends; [done|lia|]. intros. left. simpl. lia.
  - apply inv_ends; [done|lia|]. intros c _ _ _ l [?|Hl]; [by left|right]. intros j Hj. simpl.
    destruct (p j) eqn:E; [|done]. rewrite <- (H j E). by apply Hl.
  - by apply inv_invalidate.
  - apply inv_ends; [done|lia|]. intros c Hc Hs _. exfalso.
    destruct (inv_counters y Hi) as (? & ? & ? & Hc' & ? & ? & ? & Hun). rewrite Hc in Hc'. simplify_eq. lia.
  - by apply inv_settle.
  - destruct (inv_counters y Hi) as (gen & c & Hg & Hc & _). unfold enroll_begin in H0. rewrite Hc in H0.
    simpl in H0. case_match; simplify_eq. by apply (inv_enroll y gen c).
  - apply inv_ends; [done|lia|]. intros c' Hc' _ He. congruence.
  - destruct (inv_counters y Hi) as (gen & c' & Hg & Hc & _). unfold enroll_finish in H2. rewrite Hc in H2.
    simpl in H2. simplify_eq. by apply (inv_enroll y gen c).
  - destruct (inv_counters y Hi) as (gen & c & Hg & Hc & ? & ? & ? & Hun). destruct H as (E1 & E2 & E3).
    apply (inv_advance y g' (protected_end y) (pending y) (unobserved y) gen c gen c); try done; try congruence; lia.
Qed.

Lemma reachable_inv y : reachable y -> inv y.
Proof. induction 1; [by apply inv_published|by eapply step_inv]. Qed.

(** ** The fast path *)

(** The condition under which [stream_guard] answers from the label alone. *)
Definition fast_path (g : guard) (k : positive) : bool :=
  match role_version g, stream_label_read g k with
  | Some v, Some word =>
      (Z.land word (unot 64 1) =? stream_stamp v) && negb (has_bits v.2 1) && has_bits word 1
  | _, _ => false
  end.

(** A word is current only if it was stamped with exactly the current version. *)
Lemma label_ok_current gen c ok basis word :
  label_ok gen c ok basis word -> gen + c + 1 < 2 ^ 63 ->
  Z.land word (unot 64 1) = 2 * (gen + c) -> has_bits word 1 = true -> has_bits c 1 = false ->
  exists l, basis = Some l /\ ok l.
Proof.
  unfold label_ok, version_upto. intros [->|([v1 v2] & Hup & Hs & Hw)] Hb; simpl in *.
  { change (Z.land STREAM_STALE (unot 64 1)) with (2 * (2 ^ 63 - 1)). lia. }
  destruct Hw as [->|(-> & l & Hbasis & Hok)].
  { intros _. rewrite has_bits_odd, Z.odd_mul. done. }
  rewrite (land_not_1 64 _ true) by lia. intros Heq _ He. exists l. split; [done|].
  apply Hok; [f_equal; lia|done].
Qed.


(** A settled guard with one stream labelled SAFE from two resolutions. *)
Definition start : system :=
  {| maps := {| guard_slots := ∅; guard_dirs := ∅; endpoint_names := ∅; object_roles := ∅; negative_roles := ∅;
                held_roles := ∅; stream_roles := ∅; role_generation := Some 0; guard_config := Some 0;
                guard_stats := [0; 0; 0; 0]; g_policy := demo_maps |};
     protected_end := fun _ => false; pending := 0; unobserved := 0; inflight := ∅; label_basis := ∅ |}.
Definition start_env : genv :=
  {| e_task := demo_task true demo_path; e_inode_alloc := true; e_sock_alloc := fun _ => true;
     e_held_alloc := true; e_negative_alloc := true |}.
Definition settled : system := with_maps start (set_config (maps start) (Some GUARD_SETTLED)).
Definition taken : attempt :=
  {| a_targets := [7%positive]; a_version := (0, GUARD_SETTLED); a_role := 0; a_basis := [] |}.
Definition snapped : system := with_attempts settled (<[1%positive := taken]> ∅).
Definition seen : attempt :=
  {| a_targets := [7%positive]; a_version := (0, GUARD_SETTLED); a_role := 0; a_basis := [8%positive] |}.
Definition resolved : system := with_attempts snapped (<[1%positive := seen]> (inflight snapped)).
Definition stored : system :=
  {| maps := (set_stream_role (maps resolved) start_env (Some 7%positive) true (0, GUARD_SETTLED)).2;
     protected_end := fun _ => false; pending := 0; unobserved := 0; inflight := inflight resolved;
     label_basis := {[ 7%positive := [8%positive] ]} |}.

Lemma stored_reachable : reachable stored.
Proof.
  apply (reach_step resolved).
  2: { eapply (step_store resolved 1 seen 7 start_env 0); [reflexivity|set_solver|reflexivity]. }
  apply (reach_step snapped).
  2: { eapply (step_resolve snapped 1 taken 8 0); [done|done|done|done]. }
  apply (reach_step settled).
  2: { eapply (step_snapshot settled 1 [7%positive] (0, GUARD_SETTLED)); done. }
  apply (reach_step start); [by apply reach_published|].
  apply step_settle; [done|reflexivity|]. unfold counters_fit. simpl. split; [done|by right].
Qed.


(** ** The hooks as runs of the transition system *)

Section Hooks.
Context {R : KernelReads}.

(** Resolutions leave the labels, the counters and the policy alone. *)
Definition resolving (s s' : guard) : Prop := same_labels s s' /\ g_policy s' = g_policy s.

Lemma resolving_refl s : resolving s s.
Proof. done. Qed.

Lemma resolving_trans s1 s2 s3 : resolving s1 s2 -> resolving s2 s3 -> resolving s1 s3.
Proof. unfold resolving, same_labels. intuition congruence. Qed.

Lemma resolving_label s e i role : resolving s (label_inode s e i role).2.
Proof. unfold label_inode. repeat (case_match; simpl); done. Qed.

Lemma resolving_object s e w d i : resolving s (object_role w s e d i).2.
Proof.
  unfold object_role. destruct i as [i|], d as [d|]; try done.
  destruct (known_role s i); [done|]. destruct (negb _); [done|].
  destruct (guard_config s), (role_generation s); try done.
  destruct (_ && _); [done|]. destruct (dentry_role w s (Some d)) as [computed cacheable].
  pose proof (resolving_label s e i computed) as Hl. destruct (label_inode s e i computed) as [role s1].
  destruct (_ && _); simpl; [|done]. eapply resolving_trans; [exact Hl|done].
Qed.

Lemma resolving_unix s e w k : resolving s (unix_role w s e k).2.
Proof.
  unfold unix_role. destruct (unix_path (socks w k)) as [d|]; [|by destruct (negb _)].
  pose proof (resolving_object s e w (Some d) (d_inode (dentries w d))) as H.
  destruct (object_role _ _ _ _ _) as [role s1]. by destruct (negb _).
Qed.

Lemma resolving_peer s e w p : resolving s (peer_role w s e p).2.
Proof. unfold peer_role. destruct p; [|done]. destruct (is_unix_sock _); [apply resolving_unix|done]. Qed.

Lemma selecting_labels s e : same_labels s (guard_selected s e).2.
Proof.
  unfold guard_selected. destruct (policy_select _ _) as [sel pm]. by destruct (_ || _).
Qed.

(** ** What an allowing verdict means for an included program *)

(** The task is one the policy restricts: neither direct nor out of scope. *)
Definition restricted (s : guard) (e : genv) : Prop :=
  (policy_select (g_policy s) (e_task e)).1 <> DIRECT /\
  (policy_select (g_policy s) (e_task e)).1 <> UNSUPPORTED_CONTEXT.

Lemma restricted_denied s s' e :
  restricted s e -> g_policy s' = g_policy s -> (guard_selected s' e).1 = - EACCES.
Proof.
  intros [H1 H2] Hp. unfold guard_selected. simpl. rewrite Hp.
  destruct (policy_select (g_policy s) (e_task e)) as [sel pm]. simpl in *.
  by rewrite !bool_decide_false.
Qed.

Lemma set_stream_role_policy s e k safe v : g_policy (set_stream_role s e k safe v).2 = g_policy s.
Proof. unfold set_stream_role, stream_storage. repeat (case_match; simplify_eq/=); done. Qed.

Lemma count_and_select_denied s s' e :
  restricted s e -> g_policy s' = g_policy s -> (count_and_select s' e).1 <> 0.
Proof. intros Hr Hp. unfold count_and_select. by rewrite (restricted_denied s). Qed.

(** C11: an included program's connect succeeds only when the peer resolved to
    no resolver endpoint outside any enrollment, and both new stream ends were
    labelled SAFE with the version read before the resolution (on a settled
    guard). *)
Theorem guard_connect_allows w s e sk other newsk s' :
  restricted s e -> guard_connect w s e sk other newsk 0 = (0, s') ->
  exists v, role_version s = Some v /\ has_bits v.2 1 = false /\
    0 <= (peer_role w s e other).1 /\ has_bits (peer_role w s e other).1 ROLE_SOCKET = false /\
    exists k k', sk = Some k /\ newsk = Some k' /\
      (has_bits v.2 GUARD_SETTLED = true ->
       stream_roles s' !! k = Some (Z.lor (stream_stamp v) 1) /\
       stream_roles s' !! k' = Some (Z.lor (stream_stamp v) 1)).
Proof.
  intros Hr. unfold guard_connect. rewrite Z.eqb_refl. cbn [negb].
  destruct (role_version s) as [v|] eqn:Hv; [|done].
  pose proof (resolving_peer s e w other) as [_ Hpol].
  destruct (peer_role w s e other) as [role s1]. cbn [fst snd] in *.
  destruct (role <? 0) eqn:Ezero; [done|]. bool_to_prop.
  pose proof (set_stream_role_policy s1 e sk (stream_safe role v) v) as P2.
  destruct (set_stream_role s1 e sk (stream_safe role v) v) as [err1 s2] eqn:E1.
  destruct (negb (err1 =? 0)) eqn:Z1; [done|].
  pose proof (set_stream_role_policy s2 e newsk (stream_safe role v) v) as P3.
  destruct (set_stream_role s2 e newsk (stream_safe role v) v) as [err2 s3] eqn:E2.
  destruct (negb (err2 =? 0)) eqn:Z2; [done|]. bool_to_prop. cbn [fst snd] in *.
  destruct (stream_safe role v) eqn:Esafe.
  2: { intros Hd. exfalso. apply (count_and_select_denied s s3 e Hr); [congruence|by rewrite Hd]. }
  intros [= <-]. unfold stream_safe in Esafe. bool_to_prop. exists v. repeat (split; [done|]).
  destruct sk as [k|]; [|by simplify_eq]. destruct newsk as [k'|]; [|by simplify_eq].
  exists k, k'. repeat (split; [done|]). intros Hs.
  apply set_stream_role_cases in E1 as [[_ F]|(_ & _ & L1 & _)]; [by rewrite Hs, Z1 in F|].
  apply set_stream_role_cases in E2 as [[_ F]|(_ & _ & L2 & _)]; [by rewrite Hs, Z2 in F|].
  rewrite L2, L1. split; [|by rewrite lookup_insert_eq].
  destruct (decide (k = k')) as [->|]; [by rewrite lookup_insert_eq|].
  by rewrite lookup_insert_ne, lookup_insert_eq.
Qed.

(** The role [stream_guard] resolves for a stream: its own identity, then its
    peer's. *)
Definition stream_found (w : world) (s : guard) (e : genv) (k : positive) : Z :=
  let '(found0, s1) := unix_role w s e k in
  if found0 =? 0 then (peer_role w s1 e (unix_peer (socks w k))).1 else found0.


(** An included program's open, map, read or receipt of a regular file,
    and its datagram, succeed only when the object resolved to no cache and no
    resolver endpoint; a failed resolution denies. *)
Theorem object_guard_allows w s e f check_stream other i s' :
  restricted s e -> f_inode f = Some i -> Z.land (i_mode (inodes w i)) S_IFMT = S_IFREG ->
  (file_guard w s e (Some f) check_stream = (0, s') ->
   0 <= (object_role w s e (f_dentry f) (Some i)).1 /\
   has_bits (object_role w s e (f_dentry f) (Some i)).1 ROLE_CACHE = false) /\
  (guard_datagram w s e other 0 = (0, s') ->
   0 <= (peer_role w s e other).1 /\ has_bits (peer_role w s e other).1 ROLE_SOCKET = false).
Proof.
  intros Hr Hi Hk. split.
  - unfold file_guard. rewrite Hi, Hk. cbn [negb Z.eqb S_IFREG Pos.eqb].
    pose proof (resolving_object s e w (f_dentry f) (Some i)) as [_ P].
    destruct (object_role w s e (f_dentry f) (Some i)) as [role s1]. cbn [fst snd] in *.
    destruct (role <? 0) eqn:Ez; [done|]. bool_to_prop.
    destruct (has_bits role ROLE_CACHE); [|done]. cbn [negb]. intros Hd. exfalso.
    apply (count_and_select_denied s s1 e Hr); [congruence|by rewrite Hd].
  - unfold guard_datagram. cbn [negb Z.eqb]. pose proof (resolving_peer s e w other) as [_ P].
    destruct (peer_role w s e other) as [role s1]. cbn [fst snd] in *.
    destruct (role <? 0) eqn:Ez; [done|]. bool_to_prop.
    destruct (has_bits role ROLE_SOCKET); [|done]. cbn [negb]. intros Hd. exfalso.
    apply (count_and_select_denied s s1 e Hr); [congruence|by rewrite Hd].
Qed.
End Hooks.

(** ** A concrete machine *)

(** /run (2) with nscd/socket (3) and an ordinary socket file (4), and an
    audited cache directory (6) with a socket file called hosts (5).  Socket 1
    listens at nscd/socket and socket 3 at the ordinary path; 2 is an unbound
    client of 3, 4 a client of 1 bound to hosts, 6 a socket bound to nscd/socket
    that connects to 3. *)
Module Machine.
Definition node (n mode : Z) : inode :=
  {| s_dev := 8; s_magic := 61267; i_ino := n; i_generation := 1; i_nlink := 1; i_mode := mode; i_uid := 0 |}.
Definition entry (name : String.string) (parent i : positive) : dentry :=
  {| d_name := str name ++ [0]; d_parent := parent; d_inode := Some i |}.
Definition stream (path peer : option positive) : sock :=
  {| skc_family := 1; sk_type := 1; is_unix_sock := true; unix_path := path; unix_addr := None;
     unix_peer := peer; net_inum := 7 |}.

Definition machine : world :=
  {| inodes := fun i => node (Zpos i) (match i with 3%positive | 4%positive | 5%positive => 49645 | 7%positive => 33188 | _ => 16877 end);
     dentries := fun d => match d with
       | 1%positive => entry "nscd" 2 1
       | 2%positive => entry "run" 8 2
       | 3%positive => entry "socket" 1 3
       | 4%positive => entry "plain" 2 4
       | 5%positive => entry "hosts" 6 5
       | 6%positive => entry "cache" 8 6
       | 7%positive => entry "file" 8 7
       | _ => entry "root" 8 8
       end;
     socks := fun k => match k with
       | 1%positive => stream (Some 3%positive) None
       | 2%positive => stream None (Some 3%positive)
       | 3%positive => stream (Some 4%positive) None
       | 4%positive => stream (Some 5%positive) (Some 1%positive)
       | 6%positive => stream (Some 3%positive) (Some 3%positive)
       | _ => stream None None
       end |}.

Definition guarded : guard :=
  {| guard_slots := ∅; guard_dirs := {[ (8, 2) := ROLE_RUNTIME; (8, 6) := ROLE_CACHE_DIR ]};
     endpoint_names := ∅; object_roles := ∅; negative_roles := ∅; held_roles := ∅; stream_roles := ∅;
     role_generation := Some 0; guard_config := Some GUARD_SETTLED; guard_stats := [0; 0; 0; 0];
     g_policy := demo_maps |}.

Lemma included : restricted (R:=plain_reads) guarded start_env.
Proof. split; by vm_compute. Qed.

Definition connect (sk other newsk : positive) :=
  guard_connect (R:=plain_reads) machine guarded start_env (Some sk) (Some other) (Some newsk) 0.
Definition use (s : guard) (k : positive) := stream_guard (R:=plain_reads) machine s start_env (Some (Some k)).

(** The listener at nscd/socket is protected, from connect and from use. *)
Example connect_denied : (connect 2 1 9).1 = - EACCES.
Proof. reflexivity. Qed.

(** A connecting socket's own identity is not resolved: its label is SAFE
    although a later relabel of the same socket protects it. *)
Example connect_ignores_own_identity :
  (connect 6 3 9).1 = 0 /\ (use (connect 6 3 9).2 6).1 = 0 /\
  (use (invalidate_streams (connect 6 3 9).2) 6).1 = - EACCES.
Proof. repeat split; reflexivity. Qed.

(** A stream whose own name has the cache role is relabelled SAFE without
    resolving its peer, which is the protected listener. *)
Example cache_name_hides_peer :
  (use guarded 4).1 = 0 /\ fast_path (use guarded 4).2 4 = true /\
  has_bits (peer_role (R:=plain_reads) machine guarded start_env (Some 1%positive)).1 ROLE_SOCKET = true /\
  (connect 4 1 9).1 = - EACCES.
Proof. repeat split; reflexivity. Qed.
End Machine.

Lemma guard_connect_allows_witness :
  exists v, role_version Machine.guarded = Some v /\ has_bits v.2 1 = false /\
    0 <= (peer_role (R:=plain_reads) Machine.machine Machine.guarded start_env (Some 3%positive)).1 /\
    has_bits (peer_role (R:=plain_reads) Machine.machine Machine.guarded start_env (Some 3%positive)).1 ROLE_SOCKET = false /\
    exists k k', Some 2%positive = Some k /\ Some 9%positive = Some k' /\
      (has_bits v.2 GUARD_SETTLED = true ->
       stream_roles (Machine.connect 2 3 9).2 !! k = Some (Z.lor (stream_stamp v) 1) /\
       stream_roles (Machine.connect 2 3 9).2 !! k' = Some (Z.lor (stream_stamp v) 1)).
Proof. apply (guard_connect_allows (R:=plain_reads)); [apply Machine.included|reflexivity]. Defined.


Lemma object_guard_allows_witness :
  (0 <= (object_role (R:=plain_reads) Machine.machine Machine.guarded start_env (Some 7%positive) (Some 7%positive)).1 /\
   has_bits (object_role (R:=plain_reads) Machine.machine Machine.guarded start_env (Some 7%positive) (Some 7%positive)).1 ROLE_CACHE = false).
Proof.
  eapply (object_guard_allows (R:=plain_reads) Machine.machine Machine.guarded start_env
           {| f_inode := Some 7%positive; f_dentry := Some 7%positive; f_socket := None |} false None 7);
    [apply Machine.included|done|done|reflexivity].
Defined.
