(* ===== verification/Drain.v ===== *)
(** * Drain: proving that no unobserved operation still runs

    Models [src/src/linux/native/drain.h] and the sampling program [drain_tasks]
    of [resolver_guard.bpf.c]: classifying one kernel-stack walk, the loop over
    scans, and setting the settled bit.  What a walk of the kernel stack shows is
    a hypothesis on samples; the theorem is that the bit is set only when no
    task can still be inside a bind or rename that began before the completion
    programs attached. *)
From S2P Require Import Prelude Kernel Policy Guard GuardStreams.

Record Range := { start : Z; end_ : Z }.
Definition contains (r : Range) (address : Z) : bool := (start r <=? address) && (address <? end_ r).

Record KernelSymbols := { traced : list Range; bottoms : list Range; sorted : list (Z * list Z) }.

(** ** Symbols *)

(** The first symbol of that name. *)
Fixpoint find_symbol (table : list (Z * list Z)) (name : list Z) : Z :=
  match table with
  | [] => 0
  | (address, symbol) :: rest => if bool_decide (symbol = name) then address else find_symbol rest name
  end.

(** The first address above [address]: where its function ends. *)
Fixpoint next_symbol (table : list (Z * list Z)) (address : Z) : option Z :=
  match table with
  | [] => None
  | (a, _) :: rest => if address <? a then Some a else next_symbol rest address
  end.

(** A function's range: from its symbol to the next one. *)
Definition function_range (table : list (Z * list Z)) (name : list Z) : list Range :=
  let s := find_symbol table name in
  match next_symbol table s with
  | Some e => if s =? 0 then [] else [{| start := s; end_ := e |}]
  | None => []
  end.

(** [kernel_symbols], from the sorted table. *)
Definition kernel_symbols (table : list (Z * list Z)) : KernelSymbols :=
  let entry_start := find_symbol table (str "__entry_text_start") in
  let entry_end := find_symbol table (str "__entry_text_end") in
  {| traced := function_range table (str "unix_bind") ++ function_range table (str "vfs_rename");
     bottoms := (if negb (entry_start =? 0) && (entry_start <? entry_end)
                 then [{| start := entry_start; end_ := entry_end |}] else []) ++
                function_range table (str "ret_from_fork_asm");
     sorted := table |}.

(** ** One sample *)

Definition TASK_EXITED : Z := 1.
Definition TASK_SELF : Z := 2.
Definition TASK_ON_CPU : Z := 4.
Definition TASK_WALK_ERROR : Z := 8.

Record Sample := { tid : Z; flags : Z; start_time : Z; switches_before : Z; switches_after : Z; frames : list Z }.

(** What [drain_tasks] reads of a task. *)
Record task_state := {
  pid : Z; task_start : Z; exit_state : bool; is_self : bool;
  on_cpu1 : bool; on_cpu2 : bool; switches1 : Z; switches2 : Z;
  walk_size : Z; walk_frames : list Z
}.

(** [drain_tasks]: the record it writes; [buffer]: the per-CPU scratch was
    found; the buffer holds 8192 bytes. *)
Definition drain_tasks (t : task_state) (buffer : bool) : Sample :=
  let flags0 := Z.lor (if exit_state t then TASK_EXITED else 0) (if is_self t then TASK_SELF else 0) in
  if negb (flags0 =? 0) || negb buffer then
    {| tid := pid t; flags := Z.lor flags0 (if buffer then 0 else TASK_WALK_ERROR); start_time := task_start t;
       switches_before := 0; switches_after := 0; frames := [] |}
  else
    let walked := (0 <? walk_size t) && (walk_size t <=? 8192) in
    {| tid := pid t;
       flags := Z.lor (Z.lor flags0 (if on_cpu1 t || on_cpu2 t then TASK_ON_CPU else 0))
                      (if walked then 0 else TASK_WALK_ERROR);
       start_time := task_start t; switches_before := switches1 t; switches_after := switches2 t;
       frames := if walked then walk_frames t else [] |}.

Inductive Walk := Clear | Unknown | Inside.
#[export] Instance walk_eq_dec : EqDecision Walk.
Proof. solve_decision. Defined.

Definition classify (s : Sample) (cap : nat) (symbols : KernelSymbols) : Walk :=
  if has_bits (flags s) (Z.lor TASK_EXITED TASK_SELF) then Clear
  else if has_bits (flags s) (Z.lor TASK_ON_CPU TASK_WALK_ERROR) ||
          negb (switches_before s =? switches_after s) ||
          (length (frames s) =? 0)%nat || (cap <=? length (frames s))%nat then Unknown
  else if existsb (fun address => existsb (fun r => contains r address) (traced symbols)) (frames s) then Inside
  else if existsb (fun r => contains r (List.last (frames s) 0)) (bottoms symbols) then Clear
  else Unknown.

(** ** The loop *)

Inductive Drain := Settled | Unproven | Deadline.

Abbreviation task_id := (Z * Z)%type.
Definition id_of (s : Sample) : task_id := (tid s, start_time s).

(** The pending set after the first scan. *)
Definition first_pending (clear : Sample -> bool) (samples : list Sample) : gset task_id :=
  list_to_set (id_of <$> filter (fun s => clear s = false) samples).

(** The last sample of a task decides (each overwrites the earlier). *)
Definition last_clear (clear : Sample -> bool) (samples : list Sample) (t : task_id) : option bool :=
  List.last (map Some (map clear (filter (fun s => id_of s = t) samples))) None.

(** A task stays pending unless it is gone or its sample is clear. *)
Definition still_pending (clear : Sample -> bool) (samples : list Sample) (t : task_id) : bool :=
  match last_clear clear samples t with Some c => negb c | None => false end.

(** One round over the pending set: a full scan, or one filtered scan per
    pending thread, each given by [scan]. *)
Definition round (clear : Sample -> bool) (scan : task_id -> list Sample) (pending : gset task_id) : gset task_id :=
  filter (fun t => still_pending clear (scan t) t = true) pending.

(** The rounds until nothing is pending; running out of rounds is the
    deadline. *)
Fixpoint rounds (clear : Sample -> bool) (scans : list (task_id -> list Sample)) (pending : gset task_id) : Drain :=
  if bool_decide (pending = ∅) then Settled
  else match scans with
       | [] => Deadline
       | scan :: scans => rounds clear scans (round clear scan pending)
       end.

Definition drain (table : list (Z * list Z)) (cap : nat) (iterator : bool) (first : option (list Sample))
  (scans : list (task_id -> list Sample)) (g : guard) : Drain * option guard :=
  let symbols := kernel_symbols table in
  if negb iterator || negb (length (traced symbols) =? 2)%nat || (length (bottoms symbols) =? 0)%nat
  then (Unproven, Some g)
  else
    let clear s := bool_decide (classify s cap symbols = Clear) in
    match first with
    | None => (Deadline, Some g)
    | Some samples =>
        match rounds clear scans (first_pending clear samples) with
        | Settled => (Settled, settle_config g)
        | r => (r, Some g)
        end
    end.

(** ** What a sample shows *)

Section Sound.
Variables (cap : nat) (symbols : KernelSymbols).

(** A sample is faithful to a task that is still inside a traced call: the task
    has not exited and is not the scanning task; and when the walk is proven
    (the task did not run meanwhile, the walk is complete down to a stack
    bottom), a return address inside a traced function is among its frames. *)
Definition faithful (inside : task_id -> Prop) (s : Sample) : Prop :=
  inside (id_of s) ->
  has_bits (flags s) (Z.lor TASK_EXITED TASK_SELF) = false /\
  (has_bits (flags s) (Z.lor TASK_ON_CPU TASK_WALK_ERROR) = false -> switches_before s = switches_after s ->
   frames s <> [] -> (length (frames s) < cap)%nat ->
   existsb (fun r => contains r (List.last (frames s) 0)) (bottoms symbols) = true ->
   exists address r, address ∈ frames s /\ r ∈ traced symbols /\ contains r address = true).

(** The samples show every task still inside. *)
Definition shows (inside : task_id -> Prop) (samples : list Sample) : Prop :=
  (forall t, inside t -> exists s, s ∈ samples /\ id_of s = t) /\ Forall (faithful inside) samples.

Lemma existsb_true {A} (f : A -> bool) l x : x ∈ l -> f x = true -> existsb f l = true.
Proof. intros Hx Hf. apply existsb_exists. exists x. split; [by apply list_elem_of_In|done]. Qed.

(** A task that is still inside is never classified clear. *)
Lemma classify_inside inside s :
  faithful inside s -> inside (id_of s) -> classify s cap symbols <> Clear.
Proof.
  intros Hf Hi. destruct (Hf Hi) as [He Hw]. unfold classify. rewrite He.
  destruct (_ || (cap <=? _)%nat) eqn:E; [done|]. bool_to_prop.
  destruct (existsb _ (frames s)) eqn:Et; [done|].
  destruct (existsb _ (bottoms symbols)) eqn:Eb; [|done]. exfalso.
  destruct Hw as (address & r & Ha & Hr & Hc); [done|done| |done|done|].
  - intros Hn. rewrite Hn in *. done.
  - assert (existsb (fun a => existsb (fun r => contains r a) (traced symbols)) (frames s) = true) as Ht; [|congruence].
    eapply existsb_true; [exact Ha|]. by eapply existsb_true.
Qed.

Abbreviation clear := (fun s => bool_decide (classify s cap symbols = Clear)).

Lemma last_elem {A} (l : list A) d : l <> [] -> List.last l d ∈ l.
Proof.
  induction l as [|x l IH]; [done|]. intros _. destruct l as [|y l]; [set_solver|].
  change (List.last (x :: y :: l) d) with (List.last (y :: l) d). apply elem_of_cons. right. by apply IH.
Qed.

Lemma still_pending_inside inside samples t :
  shows inside samples -> inside t -> still_pending clear samples t = true.
Proof.
  intros [Hs Hf] Hi. unfold still_pending, last_clear. set (mine := filter _ samples).
  assert (mine <> []) as Hne.
  { destruct (Hs t Hi) as (s & Hin & Ht). intros H. apply (not_elem_of_nil s). rewrite <- H. by apply list_elem_of_filter. }
  assert (List.last (map Some (map clear mine)) None ∈ map Some (map clear mine)) as Hl.
  { apply last_elem. by destruct mine. }
  apply list_elem_of_In, in_map_iff in Hl as (b & Hb & Hin). apply in_map_iff in Hin as (s & Hc & Hin).
  rewrite <- Hb, <- Hc. apply list_elem_of_In, list_elem_of_filter in Hin as [Hid Hin].
  rewrite list.Forall_forall in Hf. specialize (Hf s Hin). subst t.
  rewrite bool_decide_false; [done|]. by eapply classify_inside.
Qed.

(** The tasks inside can only leave. *)
Lemma rounds_settled inside scans pending :
  (forall scan, scan ∈ scans -> forall t, t ∈ pending -> inside t -> shows inside (scan t)) ->
  (forall t, inside t -> t ∈ pending) ->
  rounds clear scans pending = Settled -> forall t, ~ inside t.
Proof.
  revert pending. induction scans as [|scan scans IH]; intros pending Hscan Hp; simpl;
    (destruct (bool_decide (pending = ∅)) eqn:E; [bool_to_prop; subst; intros _ t Hi; by apply Hp in Hi|]); [done|].
  apply IH.
  - intros sc Hsc t Ht Hi. apply Hscan; [set_solver|set_solver|done].
  - intros t Hi. apply elem_of_filter. split; [|by apply Hp].
    apply (still_pending_inside inside); [|done]. apply Hscan; [set_solver|by apply Hp|done].
Qed.
End Sound.

(** C19: the settled bit is set only when no task is still inside a traced
    operation that it entered before the completion programs attached:
    [inside] are the tasks still inside when the drain ends, which every scan
    therefore observed inside.  In every other outcome the guard is left
    unsettled as it was. *)
Theorem drain_settles_sound table cap iterator first scans g r g' inside :
  drain table cap iterator first scans g = (r, Some g') ->
  (forall samples, first = Some samples -> shows cap (kernel_symbols table) inside samples) ->
  (forall scan, scan ∈ scans -> forall t, inside t -> shows cap (kernel_symbols table) inside (scan t)) ->
  (r = Settled -> (forall t, ~ inside t) /\
     forall c, guard_config g = Some c -> guard_config g' = Some (Z.lor c GUARD_SETTLED)) /\
  (r <> Settled -> g' = g).
Proof.
  unfold drain. intros Hd Hfirst Hscans.
  destruct (_ || _); [injection Hd as <- <-; done|].
  destruct first as [samples|]; [|injection Hd as <- <-; done].
  destruct (rounds _ scans _) eqn:Er; [|injection Hd as <- <-; done..].
  injection Hd as <- Hg. split; [intros _|done]. split.
  - eapply rounds_settled; [| |exact Er].
    + intros scan Hs t _ Hi. by apply Hscans.
    + intros t Hi. destruct (Hfirst samples eq_refl) as [Hs Hf]. destruct (Hs t Hi) as (s & Hin & Hid).
      unfold first_pending. apply elem_of_list_to_set, list_elem_of_fmap. exists s. split; [done|].
      apply list_elem_of_filter. split; [|done]. rewrite list.Forall_forall in Hf.
      apply bool_decide_eq_false. apply (classify_inside _ _ inside); [by apply Hf|]. by subst t.
  - intros c Hc. unfold settle_config in Hg. rewrite Hc in Hg. simpl in Hg. by injection Hg as <-.
Qed.

(** A table, and one task that is inside unix_bind at the first scan and has
    returned at the second. *)
Module Demo.
Definition table : list (Z * list Z) :=
  [(16, str "__entry_text_start"); (32, str "__entry_text_end"); (48, str "unix_bind"); (64, str "vfs_rename");
   (80, str "ret_from_fork_asm"); (96, str "end")].
Definition task (fs : list Z) : task_state :=
  {| pid := 7; task_start := 1; exit_state := false; is_self := false; on_cpu1 := false; on_cpu2 := false;
     switches1 := 5; switches2 := 5; walk_size := 16; walk_frames := fs |}.
Definition busy : Sample := drain_tasks (task [50; 20]) true.
Definition gone : Sample := drain_tasks (task [70000; 20]) true.
Definition scans : list (task_id -> list Sample) := [fun _ => [busy]; fun _ => [gone]].

Example busy_inside : classify busy 512 (kernel_symbols table) = Inside /\ classify gone 512 (kernel_symbols table) = Clear.
Proof. by vm_compute. Qed.
End Demo.

Lemma drain_settles_sound_witness :
  (Settled = Settled -> (forall t : task_id, ~ False) /\
     forall c, guard_config (maps GuardStreams.start) = Some c ->
       guard_config (set_config (maps GuardStreams.start) (Some GUARD_SETTLED)) = Some (Z.lor c GUARD_SETTLED)) /\
  (Settled <> Settled -> set_config (maps GuardStreams.start) (Some GUARD_SETTLED) = maps GuardStreams.start).
Proof.
  apply (drain_settles_sound Demo.table 512 true (Some [Demo.busy]) Demo.scans (maps GuardStreams.start) Settled _ (fun _ => False)).
  - reflexivity.
  - intros samples [= <-]. split; [done|]. constructor; [|constructor]. intros H. destruct H.
  - done.
Defined.
