(* ===== verification/Pins.v ===== *)
(** * Pins: the loader's pin set and its removal

    Models [src/src/linux/native/pin-set.h] (the exact maps and links, in pin
    order), [pin-removal.h] (removal in reverse order, interruptible after every
    pin, and the identity check before a resumed removal) and
    [json-string.h]. *)
From S2P Require Import Prelude.

(** ** The pin set *)

Inductive LinkKind := LINK_CGROUP | LINK_LSM | LINK_FEXIT.
#[export] Instance link_kind_eq_dec : EqDecision LinkKind.
Proof. solve_decision. Defined.

Record LinkSpec := { pin : String.string; program : String.string; hook : String.string; kind : LinkKind; added : bool }.

Definition link_spec p pr h k a : LinkSpec := {| pin := p; program := pr; hook := h; kind := k; added := a |}.

Definition links : list LinkSpec := [
  link_spec "link" "classify" "socket_post_create" LINK_CGROUP false;
  link_spec "link_bound" "guard_bound" "unix_bind" LINK_FEXIT true;
  link_spec "link_renamed" "guard_renamed" "vfs_rename" LINK_FEXIT true;
  link_spec "link_attr" "guard_attr" "inode_post_setattr" LINK_LSM true;
  link_spec "link_rename" "guard_rename" "inode_rename" LINK_LSM false;
  link_spec "link_connect" "guard_connect" "unix_stream_connect" LINK_LSM false;
  link_spec "link_pair" "guard_pair" "socket_socketpair" LINK_LSM false;
  link_spec "link_send" "guard_send" "socket_sendmsg" LINK_LSM false;
  link_spec "link_recv" "guard_recv" "socket_recvmsg" LINK_LSM false;
  link_spec "link_read" "guard_read" "file_permission" LINK_LSM false;
  link_spec "link_receive" "guard_receive" "file_receive" LINK_LSM false;
  link_spec "link_open" "guard_open" "file_open" LINK_LSM false;
  link_spec "link_mmap" "guard_mmap" "mmap_file" LINK_LSM false;
  link_spec "link_datagram" "guard_datagram" "unix_may_send" LINK_LSM false;
  link_spec "link_bind" "guard_bind" "socket_bind" LINK_LSM false].

Definition map_names : list String.string :=
  ["paths"; "paths_short"; "policy_cfg"; "scratch"; "stats"; "guard_slots"; "guard_dirs"; "endpoint_names";
   "object_roles"; "stream_roles"; "role_generation"; "guard_config"; "guard_stats"; "negative_roles"; "held_roles"]%string.

(** ** Removal *)

(** The entries of the pin directory. *)
Abbreviation directory := (gset String.string).

(** The names [remove_pins] visits, in its order: links reversed, then maps
    reversed. *)
Definition removal_order : list String.string := rev (map pin links) ++ rev map_names.

(** The directory after the first [n] visits: each present pin is unlinked.  A
    failing call stops it there, as does an interruption. *)
Fixpoint remove_first (order : list String.string) (n : nat) (dir : directory) : directory :=
  match n, order with
  | S n, name :: order => remove_first order n (dir ∖ {[ name ]})
  | _, _ => dir
  end.

(** [remove_pins]: [None] while it is interrupted or when the final [rmdir]
    finds something left. *)
Definition remove_pins (dir : directory) : option directory :=
  let dir := remove_first removal_order (length removal_order) dir in
  if bool_decide (dir = ∅) then Some dir else None.

(** ** Loading: pinned in order, maps before links *)

Definition load_order : list String.string := map_names ++ map pin links.
Definition loaded (n : nat) : directory := list_to_set (take n load_order).

(** Programs that cache stream labels, "no role" answers or held roles, and the
    programs that invalidate or release them. *)
Definition invalidators : list String.string := ["link_bound"; "link_renamed"; "link_attr"]%string.
Definition cachers : list String.string :=
  ["link_rename"; "link_connect"; "link_pair"; "link_send"; "link_recv"; "link_read"; "link_receive"; "link_open";
   "link_mmap"; "link_datagram"]%string.

(** No pinned program caches without every invalidator pinned too. *)
Definition caches_guarded (dir : directory) : Prop :=
  forall c, c ∈ cachers -> c ∈ dir -> forall i, i ∈ invalidators -> i ∈ dir.

Definition caches_guarded_b (dir : directory) : bool :=
  forallb (fun c => negb (bool_decide (c ∈ dir)) || forallb (fun i => bool_decide (i ∈ dir)) invalidators) cachers.

Lemma caches_guarded_spec dir : caches_guarded_b dir = true -> caches_guarded dir.
Proof.
  unfold caches_guarded_b, caches_guarded. rewrite forallb_forall. intros H c Hc Hd i Hi.
  apply list_elem_of_In in Hc. apply H in Hc. rewrite (bool_decide_true (c ∈ dir)) in Hc by done. cbn [negb orb] in Hc.
  rewrite forallb_forall in Hc. apply list_elem_of_In in Hi. apply Hc in Hi. by bool_to_prop.
Qed.

Lemma remove_first_elem order n dir x :
  x ∈ remove_first order n dir <-> x ∈ dir /\ x ∉ take n order.
Proof.
  revert order dir. induction n as [|n IH]; intros [|y order] dir; simpl; try set_solver.
  rewrite IH. rewrite elem_of_difference, not_elem_of_singleton, not_elem_of_cons. tauto.
Qed.

(** A name before another in the list. *)
Definition precedes (x y : String.string) (l : list String.string) : Prop :=
  forall n, y ∈ take n l -> x ∈ take n l.

Definition precedes_b (x y : String.string) (l : list String.string) : bool :=
  forallb (fun n => negb (bool_decide (y ∈ take n l)) || bool_decide (x ∈ take n l)) (seq 0 (S (length l))).

Lemma precedes_spec x y l : precedes_b x y l = true -> precedes x y l.
Proof.
  unfold precedes_b, precedes. rewrite forallb_forall. intros H n Hy.
  assert (exists m, (m <= length l)%nat /\ take n l = take m l) as (m & Hm & Em).
  { destruct (decide (n <= length l)%nat); [by exists n|]. exists (length l). by rewrite !take_ge by lia. }
  rewrite Em in *. specialize (H m ltac:(apply in_seq; lia)). rewrite bool_decide_true in H by done. simpl in H. by bool_to_prop.
Qed.

(** Every cacher precedes every invalidator in the removal order; the reverse in
    the load order. *)
Lemma removal_ordered c i : c ∈ cachers -> i ∈ invalidators -> precedes c i removal_order.
Proof.
  intros Hc Hi. apply precedes_spec.
  assert (forallb (fun c => forallb (fun i => precedes_b c i removal_order) invalidators) cachers = true) as H by (by vm_compute).
  rewrite forallb_forall in H. specialize (H c ltac:(by apply list_elem_of_In)). rewrite forallb_forall in H.
  apply H. by apply list_elem_of_In.
Qed.

Lemma load_ordered c i : c ∈ cachers -> i ∈ invalidators -> precedes i c load_order.
Proof.
  intros Hc Hi. apply precedes_spec.
  assert (forallb (fun c => forallb (fun i => precedes_b i c load_order) invalidators) cachers = true) as H by (by vm_compute).
  rewrite forallb_forall in H. specialize (H c ltac:(by apply list_elem_of_In)). rewrite forallb_forall in H.
  apply H. by apply list_elem_of_In.
Qed.

(** However a load or a removal is interrupted, no program that caches
    labels, roles or answers is left pinned without every program that
    invalidates them: after any prefix of the load, and after any prefix of a
    removal of any directory that satisfies it. *)
Theorem interrupted_pins_guarded n dir m :
  caches_guarded (loaded n) /\ (caches_guarded dir -> caches_guarded (remove_first removal_order m dir)).
Proof.
  split.
  - intros c Hc Hd i Hi. apply elem_of_list_to_set in Hd. apply elem_of_list_to_set. by apply (load_ordered c i).
  - intros Hg c Hc Hd i Hi. apply remove_first_elem in Hd as [Hd Hn]. apply remove_first_elem.
    split; [by apply (Hg c)|]. intros Hr. apply Hn. by apply (removal_ordered c i).
Qed.

Lemma caches_guarded_full : caches_guarded (loaded 30).
Proof. apply caches_guarded_spec. by vm_compute. Qed.

(** A complete removal empties every directory that holds only this loader's
    pins. *)
Lemma remove_pins_complete dir :
  (forall x, x ∈ dir -> x ∈ removal_order) -> remove_pins dir = Some ∅.
Proof.
  intros H. unfold remove_pins. assert (remove_first removal_order (length removal_order) dir = ∅) as ->; [|done].
  apply set_eq. intros x. rewrite remove_first_elem, take_ge by done. set_solver.
Qed.

(** ** Resuming an interrupted removal *)

Record Recorded := { rec_link : bool; rec_id : Z; rec_program : Z }.

(** What a directory entry is: the kind, identifier and program (or map name)
    the kernel reports. *)
Record pinned := { is_link : bool; object_id : Z; prog_id : Z; map_name : String.string }.

(** The recorded lines: kind, name, identifier and, for a link, its program. *)
Fixpoint read_recorded (lines : list (bool * String.string * Z * Z)) (recorded : gmap String.string Recorded)
  : option (gmap String.string Recorded) :=
  match lines with
  | [] => Some recorded
  | (link, name, id, prog) :: lines =>
      let known := if link then bool_decide (name ∈ map pin links) else bool_decide (name ∈ map_names) in
      if negb known || bool_decide (is_Some (recorded !! name)) then None
      else read_recorded lines (<[name := {| rec_link := link; rec_id := id; rec_program := prog |}]> recorded)
  end.

(** The entry is the very object that was recorded. *)
Definition same_object (name : String.string) (e : Recorded) (p : pinned) : bool :=
  bool_decide (is_link p = rec_link e) &&
  (if rec_link e then (object_id p =? rec_id e) && (prog_id p =? rec_program e)
   else (object_id p =? rec_id e) && bool_decide (map_name p = name)).

(** [discard]: every entry is checked before anything is removed. *)
Definition discard (lines : list (bool * String.string * Z * Z)) (dir : gmap String.string pinned) : option directory :=
  recorded ← read_recorded lines ∅;
  if forallb (fun '(name, p) => match recorded !! name with Some e => same_object name e p | None => false end) (map_to_list dir)
  then remove_pins (dom dir) else None.

Lemma read_recorded_known lines recorded r :
  read_recorded lines recorded = Some r ->
  (forall x, is_Some (recorded !! x) -> x ∈ removal_order) -> forall x, is_Some (r !! x) -> x ∈ removal_order.
Proof.
  revert recorded. induction lines as [|[[[link name] id] prog] lines IH]; intros recorded; simpl; [by intros [= <-]|].
  destruct (_ || _) eqn:E; [done|]. intros Hr Hk. apply (IH _ Hr). intros x.
  destruct (decide (x = name)) as [->|Hne]; [|by rewrite lookup_insert_ne; auto]. intros _.
  unfold removal_order. apply elem_of_app. bool_to_prop.
  destruct link; bool_to_prop; [left|right]; apply list_elem_of_In, in_rev; rewrite ?rev_involutive; by apply list_elem_of_In.
Qed.

(** A resumed removal removes nothing unless every entry of the directory
    was recorded and is still the same kernel object, and then it removes
    exactly this loader's pins and the directory. *)
Theorem discard_only_recorded lines dir d :
  discard lines dir = Some d ->
  d = ∅ /\ exists recorded, read_recorded lines ∅ = Some recorded /\
    forall name p, dir !! name = Some p ->
      name ∈ removal_order /\ exists e, recorded !! name = Some e /\ same_object name e p = true.
Proof.
  unfold discard. destruct (read_recorded lines ∅) as [recorded|] eqn:Er; [|done]. simpl.
  destruct (forallb _ _) eqn:Ef; [|done]. intros Hrem.
  assert (forall name p, dir !! name = Some p -> name ∈ removal_order /\ exists e, recorded !! name = Some e /\ same_object name e p = true) as H.
  { intros name p Hp. rewrite forallb_forall in Ef. specialize (Ef (name, p)). simpl in Ef.
    assert (In (name, p) (map_to_list dir)) as Hin by (apply list_elem_of_In, elem_of_map_to_list; done).
    specialize (Ef Hin). destruct (recorded !! name) as [e|] eqn:E; [|done]. split; [|by exists e].
    eapply read_recorded_known; [exact Er| |by eexists]. intros x [? Hx]. by rewrite lookup_empty in Hx. }
  rewrite remove_pins_complete in Hrem; [|intros x [p Hp]%elem_of_dom; by apply (H x p)].
  injection Hrem as <-. split; [done|]. exists recorded. done.
Qed.

Lemma discard_only_recorded_witness :
  let dir : gmap String.string pinned := {[ "link_attr"%string := {| is_link := true; object_id := 4; prog_id := 9; map_name := "" |} ]} in
  (∅ : directory) = ∅ /\ exists recorded, read_recorded [(true, "link_attr"%string, 4, 9); (false, "stats"%string, 5, 0)] ∅ = Some recorded /\
    forall name p, dir !! name = Some p ->
      name ∈ removal_order /\ exists e, recorded !! name = Some e /\ same_object name e p = true.
Proof. apply discard_only_recorded. reflexivity. Defined.
