(* ===== verification/Loader.v ===== *)
(** * Loader: the loader's policy keys, policy edits and replacement of a guard

    Models [src/src/linux/native/bpf-loader.cpp]: the policy read from standard
    input ([read_policy_stdin], [path_key]), readback and edits of a pinned
    policy ([policy_entries], [change_path]), and how [load] replaces an
    interrupted generation ([covered_generation], [discard_staging], the staging
    names and the publishing rename).  The kernel's answer to each call is part
    of the state the definitions act on. *)
From S2P Require Import Prelude Kernel Policy Pins.

(** ** Policy keys *)

(** The components of an absolute path, after its root: cut at every slash. *)
Fixpoint components (text : list Z) : list (list Z) :=
  match text with
  | [] => [[]]
  | c :: rest =>
      if c =? 47 then [] :: components rest
      else match components rest with
           | item :: items => (c :: item) :: items
           | [] => [[c]]
           end
  end.

Fixpoint join_slashes (items : list (list Z)) : list Z :=
  match items with
  | [] => []
  | [x] => x
  | x :: rest => x ++ 47 :: join_slashes rest
  end.

Definition dot : list Z := [46].
Definition dot_dot : list Z := [46; 46].

(** [lexically_normal] on the components: the kept names, last first, and
    whether a trailing slash remains. *)
Fixpoint normal_parts (items kept : list (list Z)) (slash : bool) : list (list Z) * bool :=
  match items with
  | [] => (kept, slash)
  | item :: items =>
      if bool_decide (item = []) || bool_decide (item = dot) then normal_parts items kept true
      else if bool_decide (item = dot_dot) then normal_parts items (tail kept) true
      else normal_parts items (item :: kept) false
  end.

(** Of an absolute path. *)
Definition lexically_normal (path : list Z) : list Z :=
  let '(kept, slash) := normal_parts (components (tail path)) [] false in
  47 :: join_slashes (rev kept) ++ (if slash && negb (bool_decide (kept = [])) then [47] else []).

Definition is_absolute (path : list Z) : bool := match path with c :: _ => c =? 47 | [] => false end.

(** [path_key(input, false)]: a stored key must be spelled canonically. *)
Definition path_key (input : list Z) : option (list Z) :=
  if negb (is_absolute input) then None
  else if negb (bool_decide (lexically_normal input = input)) || bool_decide (input = [47]) || (List.last input 0 =? 47) then None
  else if (PATH_BYTES <=? length input)%nat then None
  else Some (pad PATH_BYTES input).

(** The reading loop: what remains, the keys and records read so far, the
    current record and the bytes read. *)
Fixpoint read_records (input : list Z) (keys unique : list (list Z)) (current : list Z) (total : Z) : option (list (list Z)) :=
  match input with
  | [] => if bool_decide (current = []) then Some keys else None
  | byte :: input =>
      if 1024 * Z.of_nat PATH_BYTES <? total + 1 then None
      else if negb (byte =? 0) then
        if (PATH_BYTES - 1 <=? length current)%nat then None
        else read_records input keys unique (current ++ [byte]) (total + 1)
      else if (1024 <=? length keys)%nat || bool_decide (current = []) || (List.last current 0 =? 47) ||
              bool_decide (current ∈ unique) then None
      else key ← path_key current; read_records input (keys ++ [key]) (current :: unique) [] (total + 1)
  end.

(** [eof]: the input ended, rather than failed. *)
Definition read_policy_stdin (input : list Z) (eof : bool) : option (list (list Z)) :=
  keys ← read_records input [] [] [] 0; if eof then Some keys else None.

(** A record of the input, with its terminator. *)
Definition records (ps : list (list Z)) : list Z := concat (map (fun p => p ++ [0]) ps).

(** A path spelled the only way the loader stores it. *)
Definition canonical (p : list Z) : Prop := abs_path p /\ lexically_normal p = p /\ p <> [47] /\ List.last p 0 <> 47.

Lemma path_key_spec p key : no_nul p -> path_key p = Some key <-> key = pad PATH_BYTES p /\ canonical p.
Proof.
  intros Hn. unfold path_key, canonical, abs_path. split.
  - destruct (is_absolute p) eqn:Ea; [|done]. cbn [negb]. destruct (_ || _) eqn:E; [done|].
    destruct (_ <=? _)%nat eqn:El; [done|]. intros [= <-]. bool_to_prop. split; [done|]. split; [|done].
    split; [done|]. split; [|lia]. destruct p as [|c p]; [done|]. simpl in *. by bool_to_prop; subst.
  - intros (-> & (_ & Hh & Hl) & Hnorm & Hne & Hlast). destruct p as [|c p]; [done|]. injection Hh as ->. cbn [is_absolute].
    rewrite Z.eqb_refl. cbn [negb]. rewrite bool_decide_true, bool_decide_false by done. rewrite (proj2 (Z.eqb_neq _ _)) by done.
    cbn [negb orb]. by rewrite (proj2 (Nat.leb_gt _ _)) by lia.
Qed.

Lemma read_records_inv input ps current total keys :
  read_records input (pad PATH_BYTES <$> ps) (rev ps) current total = Some keys ->
  Forall canonical ps -> NoDup ps -> (length ps <= 1024)%nat -> no_nul current ->
  exists qs, records ps ++ current ++ input = records qs /\ keys = pad PATH_BYTES <$> qs /\
    Forall canonical qs /\ NoDup qs /\ (length qs <= 1024)%nat.
Proof.
  revert ps current total. induction input as [|b input IH]; intros ps current total; cbn [read_records].
  { case_bool_decide as Hc; [|done]. intros [= <-] H1 H2 H3 _. subst. exists ps. by rewrite app_nil_r. }
  destruct (_ <? _); [done|]. destruct (b =? 0) eqn:Eb; cbn [negb].
  - destruct (_ || _) eqn:E; [done|]. destruct (path_key current) as [key|] eqn:Ek; [|done]. cbn [mbind option_bind].
    intros Hr H1 H2 H3 H4. bool_to_prop. subst b. apply path_key_spec in Ek as (-> & Hcan); [|done].
    assert (pad PATH_BYTES <$> ps ++ [current] = (pad PATH_BYTES <$> ps) ++ [pad PATH_BYTES current]) as Em by (by rewrite fmap_app).
    rewrite <- Em in Hr. replace (current :: rev ps) with (rev (ps ++ [current])) in Hr by (by rewrite rev_app_distr).
    apply IH in Hr as (qs & Hq & Hk); [|by apply Forall_app; auto| | |by apply not_elem_of_nil].
    + exists qs. split; [|done]. rewrite <- Hq. unfold records. rewrite map_app, concat_app. simpl. by rewrite app_nil_r, <- !app_assoc.
    + apply list.NoDup_app. split; [done|]. split; [|apply NoDup_singleton]. intros x Hx ->%list_elem_of_singleton.
      match goal with H : current ∉ rev ps |- _ => apply H end. apply list_elem_of_In, in_rev. rewrite rev_involutive. by apply list_elem_of_In.
    + rewrite length_app. simpl. match goal with H : (length (pad PATH_BYTES <$> ps) < _)%nat |- _ => rewrite length_fmap in H end. lia.
  - destruct (_ <=? _)%nat; [done|]. intros Hr H1 H2 H3 H4. bool_to_prop.
    apply IH in Hr as (qs & Hq & Hk); [|done..|]; [exists qs; split; [|done]; rewrite <- Hq; by rewrite <- app_assoc|].
    unfold no_nul. rewrite elem_of_app, list_elem_of_singleton. intros [?|?]; [done|by subst].
Qed.

Lemma records_cons p ps : records (p :: ps) = p ++ 0 :: records ps.
Proof. unfold records. simpl. by rewrite <- app_assoc. Qed.

Lemma canonical_key p : canonical p -> path_key p = Some (pad PATH_BYTES p).
Proof. intros Hp. apply path_key_spec; [apply Hp|done]. Qed.

(** Reading the rest of one record. *)
Lemma read_records_chars p rest keys unique current total :
  no_nul p -> (length current + length p < PATH_BYTES)%nat -> total + Z.of_nat (length p) <= 1024 * Z.of_nat PATH_BYTES ->
  read_records (p ++ rest) keys unique current total =
  read_records rest keys unique (current ++ p) (total + Z.of_nat (length p)).
Proof.
  revert current total. induction p as [|c p IH]; intros current total Hn Hl Ht; [by rewrite app_nil_r, Z.add_0_r|].
  apply not_elem_of_cons in Hn as [Hc Hn]. cbn [app read_records]. cbn [length] in Hl, Ht.
  rewrite (proj2 (Z.ltb_ge _ _)), (proj2 (Z.eqb_neq _ _)) by lia. cbn [negb].
  rewrite (proj2 (Nat.leb_gt _ _)) by lia. rewrite IH; [|done|rewrite length_app; simpl; lia|lia].
  rewrite <- app_assoc. cbn [app length]. f_equal. lia.
Qed.

Lemma read_records_all ps qs total :
  Forall canonical ps -> NoDup (qs ++ ps) -> (length qs + length ps <= 1024)%nat ->
  0 <= total <= Z.of_nat (length qs) * Z.of_nat PATH_BYTES ->
  read_records (records ps) (pad PATH_BYTES <$> qs) (rev qs) [] total = Some (pad PATH_BYTES <$> qs ++ ps).
Proof.
  intros Hps. revert qs total. induction Hps as [|p ps Hp _ IH]; intros qs total Hnd Hlen Ht; [by rewrite app_nil_r|].
  rewrite records_cons. destruct Hp as ((Hno & Hhd & Hpl) & Hcan). cbn [length] in Hlen.
  rewrite read_records_chars by (done || simpl; lia || nia). cbn [app read_records].
  rewrite (proj2 (Z.ltb_ge _ _)) by nia. cbn [Z.eqb negb]. rewrite (proj2 (Nat.leb_gt _ _)) by (rewrite length_fmap; lia).
  rewrite (bool_decide_false (p = [])) by (by intros ->). rewrite (proj2 (Z.eqb_neq _ _)) by apply Hcan.
  rewrite bool_decide_false; cycle 1.
  { intros Hin. apply list.NoDup_app in Hnd as (_ & Hd & _). apply (Hd p); [|by left].
    apply list_elem_of_In, in_rev, list_elem_of_In, Hin. }
  rewrite canonical_key by (split; [split|]; done). cbn [orb mbind option_bind].
  specialize (IH (qs ++ [p]) (total + Z.of_nat (length p) + 1)). rewrite <- app_assoc in IH. cbn [app] in IH.
  rewrite <- IH, fmap_app, rev_app_distr; [done|done|rewrite length_app; simpl; lia|rewrite length_app; simpl; nia].
Qed.

Lemma policy_stdin_keys input keys :
  read_policy_stdin input true = Some keys <->
  exists ps, input = records ps /\ keys = pad PATH_BYTES <$> ps /\ Forall canonical ps /\ NoDup ps /\ (length ps <= 1024)%nat.
Proof.
  unfold read_policy_stdin. split.
  - destruct (read_records _ _ _ _ _) as [ks|] eqn:E; [|done]. intros [= <-].
    apply (read_records_inv input [] [] 0) in E; [|constructor|constructor|simpl; lia|by apply not_elem_of_nil]. exact E.
  - intros (ps & -> & -> & H1 & H2 & H3). pose proof (read_records_all ps [] 0 H1 H2 H3) as H. cbn [fmap list_fmap rev] in H.
    by rewrite H by (simpl; lia).
Qed.

(** ** A pinned policy *)

(** One key of [policy_entries]: [short] is the tier it was read from. *)
Definition read_entry (entries : option (gset (list Z))) (e : bool * list Z) : option (gset (list Z)) :=
  let '(short, k) := e in
  entries ← entries;
  if negb (bool_decide (0 ∈ k)) then None
  else if negb (Bool.eqb (length (cstr k) <? SHORT_PATH_BYTES)%nat short) then None
  else if bool_decide (cstr k ∈ entries) || (1024 <? size ({[cstr k]} ∪ entries))%nat then None
  else Some ({[cstr k]} ∪ entries).

Definition keys_of (pm : policy_maps) : list (bool * list Z) :=
  map (fun e => (false, e.1)) (map_to_list (paths pm)) ++ map (fun e => (true, e.1)) (map_to_list (paths_short pm)).

Definition policy_entries (pm : policy_maps) : option (gset (list Z)) := foldl read_entry (Some ∅) (keys_of pm).

(** [bpf_map_update_elem(fd, key, value, BPF_ANY)] on a 1024-entry hash map. *)
Definition map_set (m : gmap (list Z) Z) (k : list Z) (v : Z) : option (gmap (list Z) Z) :=
  if bool_decide (m !! k = None) && (1024 <=? size m)%nat then None else Some (<[k := v]> m).

Definition map_del (m : gmap (list Z) Z) (k : list Z) : option (gmap (list Z) Z) :=
  if bool_decide (m !! k = None) then None else Some (delete k m).

(** [change_path]: [None] is the exception it raises. *)
Definition change_path (pm : policy_maps) (key : list Z) (adding : bool) : option policy_maps :=
  let short := path_map_spec key in
  let m := if short then paths_short pm else paths pm in
  let k := if short then take SHORT_PATH_BYTES key else key in
  let full := if adding && bool_decide (m !! k = None)
              then match policy_entries pm with Some e => (1024 <=? size e)%nat | None => true end else false in
  if full then None
  else m' ← (if adding then map_set m k 1 else map_del m k);
       Some (if short then set_paths pm (paths pm) m' else set_paths pm m' (paths_short pm)).

(** Every key in the tier of its length, and at most 1024 in both. *)
Record policy_wf (pm : policy_maps) : Prop := {
  wf_long k : is_Some (paths pm !! k) ->
    exists p, k = pad PATH_BYTES p /\ no_nul p /\ (SHORT_PATH_BYTES <= length p < PATH_BYTES)%nat;
  wf_short k : is_Some (paths_short pm !! k) ->
    exists p, k = pad SHORT_PATH_BYTES p /\ no_nul p /\ (length p < SHORT_PATH_BYTES)%nat;
  wf_count : (size (paths pm) + size (paths_short pm) <= 1024)%nat
}.

(** Where a path's key is. *)
Definition tier_map (pm : policy_maps) (p : list Z) : gmap (list Z) Z :=
  if (length p <? SHORT_PATH_BYTES)%nat then paths_short pm else paths pm.
Definition tier_key (p : list Z) : list Z :=
  pad (if (length p <? SHORT_PATH_BYTES)%nat then SHORT_PATH_BYTES else PATH_BYTES) p.
Definition set_tier (pm : policy_maps) (p : list Z) (m : gmap (list Z) Z) : policy_maps :=
  if (length p <? SHORT_PATH_BYTES)%nat then set_paths pm (paths pm) m else set_paths pm m (paths_short pm).

Lemma change_path_tier pm p adding :
  abs_path p ->
  change_path pm (pad PATH_BYTES p) adding =
    if (if adding && bool_decide (tier_map pm p !! tier_key p = None)
        then match policy_entries pm with Some e => (1024 <=? size e)%nat | None => true end else false)
    then None
    else m' ← (if adding then map_set (tier_map pm p) (tier_key p) 1 else map_del (tier_map pm p) (tier_key p));
         Some (set_tier pm p m').
Proof.
  intros (Hn & _ & Hl). unfold change_path, path_map_spec, tier_map, tier_key, set_tier. rewrite pad_cstr by done.
  destruct (length p <? SHORT_PATH_BYTES)%nat eqn:E; [|done]. bool_to_prop. by rewrite take_pad_short.
Qed.

Lemma tier_key_inj p q :
  abs_path p -> abs_path q -> (length p <? SHORT_PATH_BYTES)%nat = (length q <? SHORT_PATH_BYTES)%nat ->
  tier_key p = tier_key q -> p = q.
Proof.
  intros (Hp & _ & Hlp) (Hq & _ & Hlq) Ht. unfold tier_key. rewrite Ht. destruct (length q <? _)%nat eqn:E; bool_to_prop.
  - by apply pad_inj.
  - by apply pad_inj.
Qed.

Lemma enrolled_set_tier pm p m q :
  abs_path p -> abs_path q ->
  enrolled (set_tier pm p m) q =
    if Bool.eqb (length p <? SHORT_PATH_BYTES)%nat (length q <? SHORT_PATH_BYTES)%nat
    then bool_decide (is_Some (m !! tier_key q)) else enrolled pm q.
Proof.
  intros _ _. unfold enrolled, set_tier, tier_key. destruct (length p <? _)%nat, (length q <? _)%nat; done.
Qed.

(** The path a key names, and that the key is read back. *)
Definition entry_path (e : bool * list Z) : list Z := cstr e.2.
Definition entry_wf (e : bool * list Z) : Prop :=
  0 ∈ e.2 /\ e.1 = (length (entry_path e) <? SHORT_PATH_BYTES)%nat.

Lemma read_entries l acc :
  Forall entry_wf l -> NoDup (map entry_path l) -> (forall e, e ∈ l -> entry_path e ∉ acc) -> (size acc + length l <= 1024)%nat ->
  exists E, foldl read_entry (Some acc) l = Some E /\ size E = (size acc + length l)%nat /\
    forall p, p ∈ E <-> p ∈ acc \/ p ∈ map entry_path l.
Proof.
  intros Hl. revert acc. induction Hl as [|[short k] l [H0 Ht] _ IH]; intros acc Hnd Hacc Hsz; simpl.
  { exists acc. split; [done|]. split; [lia|]. set_solver. }
  simpl in *. unfold entry_path in *. simpl in *. apply list.NoDup_cons in Hnd as [Hk Hnd].
  assert (cstr k ∉ acc) as Hka by (apply (Hacc (short, k)); by left).
  assert (size ({[cstr k]} ∪ acc) = S (size acc)) as Hs1 by (rewrite size_union, size_singleton by set_solver; lia).
  rewrite (bool_decide_true (0 ∈ k)), Ht, eqb_reflx, (bool_decide_false (cstr k ∈ acc)) by done. cbn [negb orb].
  rewrite (proj2 (Nat.ltb_ge _ _)) by lia.
  destruct (IH ({[cstr k]} ∪ acc)) as (E & HE & HsE & HinE); [done| |lia|].
  { intros [s k'] Hin. simpl. rewrite elem_of_union, elem_of_singleton. intros [Heq|Hin2].
    - apply Hk. rewrite <- Heq. apply list_elem_of_fmap. by exists (s, k').
    - by apply (Hacc (s, k')); [right|]. }
  exists E. split; [done|]. split; [lia|]. intros p. rewrite HinE, elem_of_union, elem_of_singleton, elem_of_cons. tauto.
Qed.

Lemma keys_of_elem pm (short : bool) k :
  (short, k) ∈ keys_of pm <-> is_Some ((if short then paths_short pm else paths pm) !! k).
Proof.
  unfold keys_of. rewrite elem_of_app, !list_elem_of_In, !in_map_iff. split.
  - intros [([k' v] & [= <- <-] & Hin)|([k' v] & [= <- <-] & Hin)]; apply list_elem_of_In, elem_of_map_to_list in Hin; by eexists.
  - intros [v Hv]. destruct short; [right|left]; exists (k, v); (split; [done|]); by apply list_elem_of_In, elem_of_map_to_list.
Qed.

Lemma keys_of_length pm : length (keys_of pm) = (size (paths pm) + size (paths_short pm))%nat.
Proof. unfold keys_of. by rewrite length_app, !length_map, !length_map_to_list. Qed.

Section Readback.
Context (pm : policy_maps) (Hwf : policy_wf pm).

Lemma key_entry short k : (short, k) ∈ keys_of pm ->
  exists p, k = tier_key p /\ entry_path (short, k) = p /\ no_nul p /\ (length p < PATH_BYTES)%nat /\ short = (length p <? SHORT_PATH_BYTES)%nat.
Proof.
  intros Hin. apply keys_of_elem in Hin. destruct short.
  - destruct (wf_short _ Hwf k Hin) as (p & -> & Hn & Hl). exists p. unfold entry_path, tier_key. simpl.
    rewrite (proj2 (Nat.ltb_lt _ _)) by done. rewrite pad_cstr by done. repeat split; try done. unfold PATH_BYTES, SHORT_PATH_BYTES in *. lia.
  - destruct (wf_long _ Hwf k Hin) as (p & -> & Hn & Hl). exists p. unfold entry_path, tier_key. simpl.
    rewrite (proj2 (Nat.ltb_ge _ _)) by lia. rewrite pad_cstr by (done || lia). repeat split; try done. lia.
Qed.

Lemma keys_of_wf : Forall entry_wf (keys_of pm).
Proof.
  apply list.Forall_forall. intros [short k] Hin. destruct (key_entry short k Hin) as (p & Hk & Hp & Hn & Hl & Hs).
  split; simpl; [|by rewrite Hp]. rewrite Hk. unfold tier_key, pad. apply elem_of_app. right. apply elem_of_replicate. split; [done|].
  destruct (length p <? SHORT_PATH_BYTES)%nat eqn:E; bool_to_prop; lia.
Qed.

Lemma keys_of_nodup : NoDup (map entry_path (keys_of pm)).
Proof.
  apply NoDup_fmap_2_strong.
  - intros [s1 k1] [s2 k2] H1 H2 Heq. destruct (key_entry _ _ H1) as (p & -> & E1 & _ & _ & ->).
    destruct (key_entry _ _ H2) as (q & -> & E2 & _ & _ & ->). rewrite E1, E2 in Heq. by subst.
  - unfold keys_of. apply list.NoDup_app. repeat split.
    + apply (NoDup_fmap_1 snd). rewrite <- list_fmap_compose. apply NoDup_fst_map_to_list.
    + intros [s k] H1 H2. apply list_elem_of_In, in_map_iff in H1 as (? & [= <- _] & _).
      apply list_elem_of_In, in_map_iff in H2 as (? & [=] & _).
    + apply (NoDup_fmap_1 snd). rewrite <- list_fmap_compose. apply NoDup_fst_map_to_list.
Qed.

(** Reading the policy back gives exactly the enrolled paths. *)
Lemma policy_entries_spec :
  exists E, policy_entries pm = Some E /\ size E = (size (paths pm) + size (paths_short pm))%nat /\
    forall p, abs_path p -> p ∈ E <-> enrolled pm p = true.
Proof.
  unfold policy_entries. destruct (read_entries (keys_of pm) ∅) as (E & HE & Hs & Hin).
  - apply keys_of_wf.
  - apply keys_of_nodup.
  - intros e _. apply not_elem_of_empty.
  - rewrite keys_of_length, size_empty. apply (wf_count _ Hwf).
  - exists E. split; [done|]. rewrite Hs, size_empty, keys_of_length. split; [done|]. intros p Hp. rewrite Hin.
    rewrite enrolled_tier, bool_decide_eq_true. change (pad _ p) with (tier_key p). split.
    + intros [?%elem_of_empty|Hp2]; [done|]. apply list_elem_of_fmap in Hp2 as ([s k] & -> & Hk).
      destruct (key_entry s k Hk) as (q & -> & -> & _ & _ & ->). apply keys_of_elem in Hk. done.
    + intros Hsome. right. apply list_elem_of_fmap. exists ((length p <? SHORT_PATH_BYTES)%nat, tier_key p). split.
      * destruct (key_entry (length p <? SHORT_PATH_BYTES)%nat (tier_key p)) as (q & Hq & <- & _); [by apply keys_of_elem|].
        unfold entry_path, tier_key. simpl. destruct Hp as (Hn & _ & Hl). rewrite pad_cstr; [done|done|].
        destruct (length p <? _)%nat eqn:E1; by bool_to_prop.
      * by apply keys_of_elem.
Qed.
End Readback.

(** ** Edits *)

Lemma tier_count pm p : (size (tier_map pm p) <= size (paths pm) + size (paths_short pm))%nat.
Proof. unfold tier_map. destruct (_ <? _)%nat; lia. Qed.

(** Replacing one tier by a map with [p]'s key added, or with keys removed. *)
Lemma set_tier_wf pm p m :
  policy_wf pm -> abs_path p -> (forall k, is_Some (m !! k) -> k = tier_key p \/ is_Some (tier_map pm p !! k)) ->
  (size (paths pm) + size (paths_short pm) + size m <= 1024 + size (tier_map pm p))%nat -> policy_wf (set_tier pm p m).
Proof.
  intros [W1 W2 W3] (Hn & _ & Hl) Hm Hs. unfold set_tier, tier_map, tier_key in *.
  destruct (length p <? SHORT_PATH_BYTES)%nat eqn:E; bool_to_prop; split; simpl; auto; try lia.
  - intros k Hk. destruct (Hm k Hk) as [->|H]; [by exists p|by apply W2].
  - intros k Hk. destruct (Hm k Hk) as [->|H]; [exists p; repeat split; done || lia|by apply W1].
Qed.

Lemma is_Some_insert_key (m : gmap (list Z) Z) k v k' : is_Some (<[k := v]> m !! k') <-> k' = k \/ is_Some (m !! k').
Proof. rewrite lookup_insert_is_Some. destruct (decide (k = k')); naive_solver. Qed.

Lemma enrolled_key pm p : enrolled pm p = bool_decide (is_Some (tier_map pm p !! tier_key p)).
Proof. apply enrolled_tier. Qed.

Lemma enrolled_insert pm p q v :
  abs_path p -> abs_path q ->
  enrolled (set_tier pm p (<[tier_key p := v]> (tier_map pm p))) q = bool_decide (q = p) || enrolled pm q.
Proof.
  intros Hp Hq. rewrite enrolled_set_tier by done. destruct (Bool.eqb _ _) eqn:E.
  - apply eqb_prop in E. rewrite (enrolled_key pm q). apply eq_true_iff_eq.
    rewrite orb_true_iff, !bool_decide_eq_true, is_Some_insert_key.
    assert (tier_map pm p = tier_map pm q) as -> by (unfold tier_map; by rewrite E).
    assert (tier_key q = tier_key p <-> q = p) as ->; [|done].
    split; [intros H; symmetry; by apply tier_key_inj|by intros ->].
  - rewrite (bool_decide_false (q = p)); [done|]. intros ->. by rewrite eqb_reflx in E.
Qed.

Lemma enrolled_delete pm p q :
  abs_path p -> abs_path q ->
  enrolled (set_tier pm p (delete (tier_key p) (tier_map pm p))) q = negb (bool_decide (q = p)) && enrolled pm q.
Proof.
  intros Hp Hq. rewrite enrolled_set_tier by done. destruct (Bool.eqb _ _) eqn:E.
  - apply eqb_prop in E. rewrite (enrolled_key pm q). assert (tier_map pm p = tier_map pm q) as -> by (unfold tier_map; by rewrite E).
    destruct (decide (q = p)) as [->|Hne].
    + rewrite lookup_delete_eq. rewrite (bool_decide_true (p = p)) by done. by rewrite bool_decide_false by (by intros [? ?]).
    + rewrite lookup_delete_ne, (bool_decide_false (q = p)); [done|done|].
      intros H. apply Hne. symmetry. by apply tier_key_inj.
  - rewrite (bool_decide_false (q = p)); [done|]. intros ->. by rewrite eqb_reflx in E.
Qed.

(** The effect of one edit, and when it is refused. *)
Definition edited (pm : policy_maps) (p : list Z) (adding : bool) (result : option policy_maps) : Prop :=
  match result with
  | Some pm' => policy_wf pm' /\ forall q, abs_path q ->
      enrolled pm' q = if adding then bool_decide (q = p) || enrolled pm q else negb (bool_decide (q = p)) && enrolled pm q
  | None => enrolled pm p = false /\ (adding = true -> exists E, policy_entries pm = Some E /\ size E = 1024%nat)
  end.

(** Editing a pinned policy changes exactly the named path and keeps the
    combined bound of 1024 paths; adding is refused only when that bound is
    reached, removing only when the path is not enrolled; and re-adding an
    enrolled path always succeeds. *)
Theorem policy_edit_exact pm p adding :
  policy_wf pm -> canonical p -> edited pm p adding (change_path pm (pad PATH_BYTES p) adding).
Proof.
  intros Hwf [Hp _]. rewrite change_path_tier by done. destruct (policy_entries_spec pm Hwf) as (E & HE & HsE & _). rewrite HE.
  pose proof (wf_count _ Hwf) as Hc. pose proof (tier_count pm p) as Ht. destruct adding; cbn [andb].
  - case_bool_decide as Hk.
    + assert (enrolled pm p = false) as Hen by (rewrite enrolled_key, Hk; by apply bool_decide_false; intros [? ?]).
      destruct (1024 <=? size E)%nat eqn:Ef; bool_to_prop.
      * simpl. split; [done|]. intros _. exists E. split; [done|lia].
      * unfold map_set. rewrite Hk, bool_decide_true, (proj2 (Nat.leb_gt _ _)) by (done || lia). cbn [andb mbind option_bind].
        split; [|intros q Hq; by rewrite enrolled_insert]. apply set_tier_wf; [done..| |].
        { intros k. rewrite is_Some_insert_key. tauto. }
        { rewrite map_size_insert_None by done. lia. }
    + unfold map_set. rewrite (bool_decide_false (_ = None)) by done. cbn [andb mbind option_bind].
      split; [|intros q Hq; by rewrite enrolled_insert]. apply set_tier_wf; [done..| |].
      { intros k. rewrite is_Some_insert_key. tauto. }
      { destruct (tier_map pm p !! tier_key p) as [v|] eqn:Ev; [|done]. erewrite map_size_insert_Some by done. lia. }
  - unfold map_del. case_bool_decide as Hk; cbn [mbind option_bind].
    + split; [rewrite enrolled_key, Hk; by apply bool_decide_false; intros [? ?]|done].
    + split; [|intros q Hq; by rewrite enrolled_delete]. apply set_tier_wf; [done..| |].
      { intros k [v Hv]. apply lookup_delete_Some in Hv as [_ Hv]. right. by eexists. }
      { destruct (tier_map pm p !! tier_key p) as [v|] eqn:Ev; [|done]. erewrite map_size_delete_Some by done. lia. }
Qed.

(** ** The policy given to a load *)

Lemma initialize_path_tier pm p :
  abs_path p -> initialize_path pm (pad PATH_BYTES p) = (m ← map_add_new (tier_map pm p) (tier_key p) 1; Some (set_tier pm p m)).
Proof.
  intros (Hn & _ & Hl). unfold initialize_path, path_map_spec, tier_map, tier_key, set_tier. rewrite pad_cstr by done.
  destruct (length p <? SHORT_PATH_BYTES)%nat eqn:E; [|done]. bool_to_prop. by rewrite take_pad_short.
Qed.

Lemma initialize_each_fits pm ps :
  policy_wf pm -> Forall canonical ps -> NoDup ps -> (forall p, p ∈ ps -> enrolled pm p = false) ->
  (size (paths pm) + size (paths_short pm) + length ps <= 1024)%nat ->
  exists pm', initialize_each pm (pad PATH_BYTES <$> ps) = Some pm' /\ policy_wf pm'.
Proof.
  intros Hwf Hps. revert pm Hwf. induction Hps as [|p ps [Hp Hcan] Hps IH]; intros pm Hwf Hnd Hfree Hc; [by exists pm|].
  apply list.NoDup_cons in Hnd as [Hni Hnd]. cbn [fmap list_fmap initialize_each]. cbn [length] in Hc.
  rewrite initialize_path_tier by done. unfold map_add_new. pose proof (tier_count pm p) as Ht.
  assert (enrolled pm p = false) as Hen by (apply Hfree; by left). pose proof Hen as Hk. rewrite enrolled_key in Hk.
  rewrite Hk, (proj2 (Nat.leb_gt _ _)) by lia. cbn [orb mbind option_bind]. apply bool_decide_eq_false, eq_None_not_Some in Hk.
  apply IH; [|done| |].
  - apply set_tier_wf; [done..| |]; [intros k; rewrite is_Some_insert_key; tauto|]. rewrite map_size_insert_None by done. lia.
  - intros q Hq. rewrite enrolled_insert; [|done|].
    + rewrite bool_decide_false by (by intros ->). apply Hfree. by right.
    + rewrite list.Forall_forall in Hps. by apply Hps.
  - unfold set_tier, tier_map. destruct (_ <? _)%nat eqn:E; simpl; unfold tier_map in Hk; rewrite E in Hk;
      rewrite map_size_insert_None by done; lia.
Qed.

(** Standard input is accepted exactly when it is a list of at most 1024
    distinct canonical paths, each ended by a NUL, and then the load succeeds in
    enrolling those paths and no other, in a policy within its bounds. *)
Theorem stdin_policy_enrolled pm input :
  paths pm = ∅ -> paths_short pm = ∅ ->
  match read_policy_stdin input true with
  | Some keys => exists ps pm', input = records ps /\ initialize_paths pm keys = Some pm' /\ policy_wf pm' /\
      forall p, abs_path p -> enrolled pm' p = bool_decide (p ∈ ps)
  | None => ~ exists ps, input = records ps /\ Forall canonical ps /\ NoDup ps /\ (length ps <= 1024)%nat
  end.
Proof.
  intros H1 H2. destruct (read_policy_stdin input true) as [keys|] eqn:E.
  - apply policy_stdin_keys in E as (ps & -> & -> & Hps & Hnd & Hlen).
    assert (forall p, enrolled pm p = false) as Hfree.
    { intros p. unfold enrolled. rewrite H1, H2. by destruct (_ <? _)%nat. }
    destruct (initialize_each_fits pm ps) as (pm' & Hi & Hwf); [|done..| |].
    { split; rewrite ?H1, ?H2, ?map_size_empty; [by intros k [? ?]..|lia]. }
    { rewrite H1, H2, !map_size_empty. lia. }
    exists ps, pm'. split; [done|].
    assert (initialize_paths pm (pad PATH_BYTES <$> ps) = Some pm') as Hip.
    { unfold initialize_paths. by rewrite (proj2 (Nat.ltb_ge _ _)) by (rewrite length_fmap; lia). }
    split; [done|]. split; [done|]. intros p Hp. rewrite (initialize_enrolled pm ps pm'); [by rewrite Hfree, orb_false_r| |done|done].
    eapply list.Forall_impl; [exact Hps|]. by intros q [Hq _].
  - intros (ps & -> & Hps & Hnd & Hlen). assert (read_policy_stdin (records ps) true = Some (pad PATH_BYTES <$> ps)) as He.
    { apply policy_stdin_keys. by exists ps. }
    by rewrite E in He.
Qed.

(** ** Replacing an interrupted generation *)

(** A pin directory: the first [g_pins] names of the load order, and the policy
    its maps hold.  Both a killed load and a killed removal leave one. *)
Record generation := { g_pins : nat; g_policy : gset (list Z) }.

Definition n_pins : nat := length load_order.
Definition n_maps : nat := length map_names.
Definition n_links : nat := length links.

(** [Generation::links] and [Generation::maps]. *)
Definition g_links (g : generation) : nat := (g_pins g - n_maps)%nat.
Definition g_maps (g : generation) : bool := (n_maps <=? g_pins g)%nat.

(** The owned name and its two staging names. *)
Inductive slot := New | Next.
#[export] Instance slot_eq_dec : EqDecision slot.
Proof. solve_decision. Defined.
Record pin_dirs := { published : option generation; new_ : option generation; next_ : option generation }.

Definition staged (s : pin_dirs) (x : slot) : option generation := match x with New => new_ s | Next => next_ s end.
Definition set_staged (s : pin_dirs) (x : slot) (g : option generation) : pin_dirs :=
  match x with
  | New => {| published := published s; new_ := g; next_ := next_ s |}
  | Next => {| published := published s; new_ := new_ s; next_ := g |}
  end.
Definition other (x : slot) : slot := match x with New => Next | Next => New end.

(** [discard_staging]: one pin at a time, the last first, then the directory;
    the states it passes through. *)
Definition removal (g : generation) : list (option generation) :=
  map (fun n => Some {| g_pins := n; g_policy := g_policy g |}) (rev (seq 0 (g_pins g))) ++ [None].

Definition discard_staging (s : pin_dirs) (x : slot) : list pin_dirs :=
  match staged s x with Some g => map (set_staged s x) (removal g) | None => [] end.

(** [covered_generation]: the protection of [a] is provided by [b]. *)
Definition covered (a b : generation) : bool :=
  (g_links a =? 0)%nat || ((g_links a <=? g_links b)%nat && g_maps b && bool_decide (g_policy a ⊆ g_policy b)).

(** Freeing a staging name: the states passed through, [None] when the load is
    refused. *)
Definition make_room (s : pin_dirs) : option (list pin_dirs) :=
  match new_ s, next_ s with
  | Some a, Some b =>
      if covered a b then Some (discard_staging s New)
      else if covered b a then Some (discard_staging s Next) else None
  | _, _ => Some []
  end.

Definition last_state (s : pin_dirs) (t : list pin_dirs) : pin_dirs := List.last t s.

(** The staging name a load uses. *)
Definition staging (s : pin_dirs) : slot := match new_ s with None => New | Some _ => Next end.

(** Pinning into it, up to [n] pins. *)
Definition pinning (s : pin_dirs) (keys : gset (list Z)) (n : nat) : list pin_dirs :=
  map (fun k => set_staged s (staging s) (Some {| g_pins := k; g_policy := keys |})) (seq 0 (S n)).

(** The publishing rename. *)
Definition publish (s : pin_dirs) (keys : gset (list Z)) : pin_dirs :=
  let s := set_staged s (staging s) None in
  {| published := Some {| g_pins := n_pins; g_policy := keys |}; new_ := new_ s; next_ := next_ s |}.

(** [load]: every state it passes through, so that a load killed anywhere leaves
    one of them; [fails] is the number of pins after which a step raises, if
    one does.  [None]: refused before anything is changed. *)
Definition load (s : pin_dirs) (keys : gset (list Z)) (fails : option nat) : option (list pin_dirs) :=
  match published s with
  | Some _ => None
  | None =>
      room ← make_room s;
      let s1 := last_state s room in
      match fails with
      | Some n =>
          let tried := pinning s1 keys (Nat.min n n_pins) in
          Some (room ++ tried ++ discard_staging (last_state s1 tried) (staging s1))
      | None =>
          let s2 := publish s1 keys in
          let s3 := last_state s2 (discard_staging s2 New) in
          Some (room ++ pinning s1 keys n_pins ++ [s2] ++ discard_staging s2 New ++ discard_staging s3 Next)
      end
  end.

(** ** Protection *)

(** The [h]-th hook acts on the program at [p]. *)
Definition attached (g : option generation) (h : nat) (p : list Z) : Prop :=
  match g with Some g => (h < g_links g)%nat /\ p ∈ g_policy g | None => False end.

Definition protects (s : pin_dirs) (h : nat) (p : list Z) : Prop :=
  attached (published s) h p \/ exists x, attached (staged s x) h p.

Lemma staged_set s x g y : staged (set_staged s x g) y = if decide (x = y) then g else staged s y.
Proof. destruct x, y; done. Qed.

Lemma published_set s x g : published (set_staged s x g) = published s.
Proof. by destruct x. Qed.

Lemma discard_elem s x s' : s' ∈ discard_staging s x -> exists g, staged s x = Some g /\ exists o, s' = set_staged s x o.
Proof.
  unfold discard_staging. destruct (staged s x) as [g|]; [|by intros ?%elem_of_nil].
  intros (o & -> & _)%list_elem_of_fmap. eauto.
Qed.

Lemma last_state_app s t1 t2 : last_state s (t1 ++ t2) = last_state (last_state s t1) t2.
Proof.
  unfold last_state. destruct (decide (t2 = [])) as [->|Hne]; [by rewrite app_nil_r|].
  destruct (exists_last Hne) as (l & y & ->). by rewrite app_assoc, !last_last.
Qed.

Lemma discard_last s x : last_state s (discard_staging s x) = set_staged s x None.
Proof.
  unfold last_state, discard_staging. destruct (staged s x) as [g|] eqn:E.
  - unfold removal. rewrite map_app. cbn [map]. apply last_last.
  - destruct s, x; simpl in *; by subst.
Qed.

(** Discarding a covered generation loses nothing. *)
Lemma covered_protects s x a b o h p :
  staged s x = Some a -> staged s (other x) = Some b -> covered a b = true -> protects s h p -> protects (set_staged s x o) h p.
Proof.
  intros Ha Hb Hc [H|[y H]]; [left; by rewrite published_set|]. right. exists (other x).
  rewrite staged_set, decide_False by (by destruct x). destruct (decide (y = x)) as [->|Hy].
  - rewrite Ha in H. rewrite Hb. simpl in *. unfold covered in Hc. bool_to_prop.
    apply orb_true_iff in Hc as [Hc|Hc]; [bool_to_prop; lia|]. apply andb_true_iff in Hc as [[H1 H2]%andb_true_iff H3]. bool_to_prop.
    split; [lia|set_solver].
  - assert (y = other x) as -> by (by destruct x, y). done.
Qed.

(** Filling an empty staging name loses nothing. *)
Lemma empty_protects s x o h p : staged s x = None -> protects s h p -> protects (set_staged s x o) h p.
Proof.
  intros Hx [H|[y H]]; [left; by rewrite published_set|]. right. exists y. rewrite staged_set.
  destruct (decide (x = y)) as [->|]; [by rewrite Hx in H|done].
Qed.

Lemma room_spec s room :
  published s = None -> make_room s = Some room ->
  staged (last_state s room) (staging (last_state s room)) = None /\ published (last_state s room) = None /\
  forall s', s' ∈ room \/ s' = last_state s room ->
    published s' = None /\ forall h p, protects s h p -> protects s' h p.
Proof.
  intros Hp. unfold make_room. destruct (new_ s) as [a|] eqn:Ea; [destruct (next_ s) as [b|] eqn:Eb|].
  - assert (forall x y, staged s x = Some y -> (exists z, staged s (other x) = Some z /\ covered y z = true) ->
      room = discard_staging s x -> staged (last_state s room) (staging (last_state s room)) = None /\
      published (last_state s room) = None /\ forall s', s' ∈ room \/ s' = last_state s room ->
      published s' = None /\ forall h p, protects s h p -> protects s' h p) as Hx.
    { intros x y Hy (z & Hz & Hc) ->. rewrite discard_last. rewrite published_set.
      split; [destruct x; simpl in *; unfold staging; simpl; by rewrite ?Ea, ?Eb|]. split; [done|].
      intros s' [(g & _ & o & ->)%discard_elem| ->]; rewrite published_set; (split; [done|]); intros h p H; by eapply covered_protects. }
    destruct (covered a b) eqn:Eab; [intros [= <-]; apply (Hx New a); simpl; eauto|].
    destruct (covered b a) eqn:Eba; [intros [= <-]; apply (Hx Next b); simpl; eauto|done].
  - intros [= <-]. unfold last_state, staging. simpl. rewrite Ea. split; [done|]. split; [done|]. intros s' [?%elem_of_nil| ->]; done.
  - intros [= <-]. unfold last_state, staging. simpl. rewrite Ea. split; [done|]. split; [done|]. intros s' [?%elem_of_nil| ->]; done.
Qed.

Lemma pinning_elem s keys n s' : s' ∈ pinning s keys n -> exists o, s' = set_staged s (staging s) o.
Proof. intros (k & -> & _)%list_elem_of_fmap. eauto. Qed.

Lemma pinning_last s keys n :
  last_state s (pinning s keys n) = set_staged s (staging s) (Some {| g_pins := n; g_policy := keys |}).
Proof. unfold last_state, pinning. rewrite seq_S, map_app. cbn [map]. apply last_last. Qed.

(** Nothing of the pin directories is protected less than before, unless the new
    policy is published, complete. *)
Definition keeps (s : pin_dirs) (keys : gset (list Z)) (s' : pin_dirs) : Prop :=
  (published s' = None /\ forall h p, protects s h p -> protects s' h p) \/
  (published s' = Some {| g_pins := n_pins; g_policy := keys |} /\ forall h p, (h < n_links)%nat -> p ∈ keys -> protects s' h p).

Lemma complete_links : g_links {| g_pins := n_pins; g_policy := ∅ |} = n_links.
Proof. by vm_compute. Qed.

Lemma published_keeps s keys s' : published s' = Some {| g_pins := n_pins; g_policy := keys |} -> keeps s keys s'.
Proof.
  intros Hp. right. split; [done|]. intros h p Hh Hk. left. rewrite Hp. simpl. split; [|done].
  pose proof complete_links as Hc. unfold g_links in *. simpl in *. lia.
Qed.

(** C5: replacing an interrupted guard never leaves a gap: in every state a
    load passes through, whether it completes, fails after any number of pins
    or is killed at any moment, either every program stays protected by every
    hook that protected it before, or the new policy is published with every
    hook attached to it. *)
Theorem load_keeps_protection s keys fails states s' :
  load s keys fails = Some states -> s' ∈ states -> keeps s keys s'.
Proof.
  unfold load. destruct (published s) eqn:Hp; [done|]. destruct (make_room s) as [room|] eqn:Er; [|done]. cbn [mbind option_bind].
  destruct (room_spec s room Hp Er) as (Hst & Hpub & Hroom). set (s1 := last_state s room) in *.
  assert (forall o, keeps s keys (set_staged s1 (staging s1) o)) as Htry.
  { intros o. left. rewrite published_set. split; [done|]. intros h p H. apply empty_protects; [done|]. by apply (Hroom s1); [right|]. }
  destruct fails as [n|]; intros Hs; apply (inj Some) in Hs; subst states; rewrite !elem_of_app.
  - intros [H|[(o & ->)%pinning_elem|(g & _ & o & ->)%discard_elem]]; [left; apply Hroom; by left|done|].
    rewrite pinning_last. replace (set_staged _ _ _) with (set_staged s1 (staging s1) o) by (by destruct (staging s1)). done.
  - intros [H|[(o & ->)%pinning_elem|[->%list_elem_of_singleton|[(g & _ & o & ->)%discard_elem|(g & _ & o & ->)%discard_elem]]]];
      [left; apply Hroom; by left|done|..]; apply published_keeps; [done|..]; rewrite published_set; [done|].
    rewrite discard_last. by rewrite published_set.
Qed.

(** ** Retrying *)

(** What loads of one policy can leave when none of them has published: each
    failed, or was killed, at any point. *)
Inductive interrupted (keys : gset (list Z)) : pin_dirs -> Prop :=
| Fresh : interrupted keys {| published := None; new_ := None; next_ := None |}
| Killed s fails states s' :
    interrupted keys s -> load s keys fails = Some states -> s' ∈ states -> published s' = None -> interrupted keys s'.

(** Every staged generation holds that policy. *)
Definition same_policy (keys : gset (list Z)) (s : pin_dirs) : Prop := forall x g, staged s x = Some g -> g_policy g = keys.

Lemma same_policy_set keys s x o :
  same_policy keys s -> (forall g, o = Some g -> g_policy g = keys) -> same_policy keys (set_staged s x o).
Proof. intros Hs Ho y g. rewrite staged_set. destruct (decide (x = y)); [apply Ho|apply Hs]. Qed.

Lemma discard_same keys s x s' : same_policy keys s -> s' ∈ discard_staging s x -> same_policy keys s'.
Proof.
  intros Hs. unfold discard_staging. destruct (staged s x) as [g|] eqn:Eg; [|by intros ?%elem_of_nil].
  intros (o & -> & Ho)%list_elem_of_fmap. apply same_policy_set; [done|]. intros g' ->. unfold removal in Ho.
  apply elem_of_app in Ho as [(n & [= ->] & _)%list_elem_of_fmap|?%list_elem_of_singleton]; [|done]. simpl. by apply (Hs x).
Qed.

Lemma make_room_elem s room s' : make_room s = Some room -> s' ∈ room -> exists x, room = discard_staging s x.
Proof.
  unfold make_room. destruct (new_ s); [destruct (next_ s)|]; [|by intros [= <-] ?%elem_of_nil..].
  destruct (covered _ _); [intros [= <-]; by exists New|]. destruct (covered _ _); [intros [= <-]; by exists Next|done].
Qed.

Lemma room_same keys s room s' : same_policy keys s -> make_room s = Some room -> s' ∈ room \/ s' = last_state s room -> same_policy keys s'.
Proof.
  intros Hs Hr Hin. assert (s' ∈ room \/ s' = s) as [H| ->]; [|by destruct (make_room_elem s room s' Hr H) as [x ->]; eapply discard_same|done].
  destruct Hin as [H| ->]; [by left|]. unfold last_state. destruct (decide (room = [])) as [->|Hne]; [by right|].
  left. destruct (exists_last Hne) as (l & y & ->). rewrite last_last. apply elem_of_app. right. by apply list_elem_of_singleton.
Qed.

Lemma interrupted_same keys s : interrupted keys s -> same_policy keys s.
Proof.
  induction 1 as [|s fails states s' _ IH Hl Hin Hp]; [by intros [] ?|]. unfold load in Hl. destruct (published s); [done|].
  destruct (make_room s) as [room|] eqn:Er; [|done]. cbn [mbind option_bind] in Hl. set (s1 := last_state s room) in *.
  assert (same_policy keys s1) as H1 by (eapply room_same; [done..|by right]).
  assert (forall n, s' ∈ pinning s1 keys n -> same_policy keys s') as Hpin.
  { intros n (k & -> & _)%list_elem_of_fmap. apply same_policy_set; [done|]. by intros g [= <-]. }
  destruct fails as [n|]; apply (inj Some) in Hl; subst states; rewrite !elem_of_app in Hin.
  - destruct Hin as [H|[H|H]]; [apply (room_same keys s room); [done..|by left]|by eapply Hpin|]. eapply discard_same; [|exact H].
    rewrite pinning_last. apply same_policy_set; [done|]. by intros g [= <-].
  - destruct Hin as [H|[H|[->%list_elem_of_singleton|[(g & _ & o & ->)%discard_elem|(g & _ & o & ->)%discard_elem]]]];
      [apply (room_same keys s room); [done..|by left]|by eapply Hpin|done|by rewrite published_set in Hp|].
    by rewrite discard_last, !published_set in Hp.
Qed.

Lemma covered_total a b : g_policy a = g_policy b -> covered a b = false -> covered b a = true.
Proof.
  intros Hp. unfold covered. rewrite Hp, !(bool_decide_true (_ ⊆ _)) by done. rewrite !andb_true_r. unfold g_maps, g_links. intros H.
  apply orb_false_iff in H as [H1 H2]. apply andb_false_iff in H2.
  rewrite orb_true_iff, andb_true_iff, Nat.eqb_eq, !Nat.leb_le. destruct H2 as [H2|H2]; bool_to_prop; lia.
Qed.

Lemma staging_other s : staged (set_staged s (staging s) None) (staging s) = None.
Proof. rewrite staged_set. by rewrite decide_True. Qed.

(** C24: a load retried with the same policy always goes through: after any
    number of loads that failed or were killed anywhere, a load is not refused,
    and when it is not interrupted it ends with the policy published, every pin
    in place, and nothing staged. *)
Theorem retried_load_completes keys s :
  interrupted keys s -> published s = None ->
  exists states, load s keys None = Some states /\
    last_state s states = {| published := Some {| g_pins := n_pins; g_policy := keys |}; new_ := None; next_ := None |}.
Proof.
  intros Hi Hp. pose proof (interrupted_same keys s Hi) as Hs. unfold load. rewrite Hp.
  assert (exists room, make_room s = Some room) as [room Hr].
  { unfold make_room. destruct (new_ s) as [a|] eqn:Ea; [destruct (next_ s) as [b|] eqn:Eb|]; eauto.
    destruct (covered a b) eqn:E; [eauto|]. rewrite covered_total; [eauto| |done].
    by rewrite (Hs New a Ea), (Hs Next b Eb). }
  rewrite Hr. cbn [mbind option_bind]. eexists. split; [done|]. set (s1 := last_state s room). set (s2 := publish s1 keys).
  rewrite !last_state_app. fold s1. change (last_state (last_state s1 (pinning s1 keys n_pins)) [s2]) with s2.
  rewrite !discard_last. unfold s2, publish. simpl. done.
Qed.

(** ** Examples *)

Definition no_policy : policy_maps := set_paths demo_maps ∅ ∅.

Lemma no_policy_wf : policy_wf no_policy.
Proof. split; simpl; [by intros k [? ?]..|rewrite !map_size_empty; lia]. Qed.

Lemma demo_canonical : canonical demo_path.
Proof. split; [split; [|split]|]; [by vm_compute; set_solver|done|by vm_compute; lia|]. split; [done|]. split; done. Qed.

Example traversal_refused : path_key (str "/usr/bin/../lib/tool") = None /\ lexically_normal (str "/usr/bin/../lib/./tool") = str "/usr/lib/tool".
Proof. split; by vm_compute. Qed.

Lemma policy_edit_exact_witness : edited no_policy demo_path true (change_path no_policy (pad PATH_BYTES demo_path) true).
Proof. apply policy_edit_exact; [apply no_policy_wf|apply demo_canonical]. Defined.

Lemma stdin_policy_enrolled_witness :
  match read_policy_stdin (records [demo_path; str "/opt/app"]) true with
  | Some keys => exists ps pm', records [demo_path; str "/opt/app"] = records ps /\ initialize_paths no_policy keys = Some pm' /\ policy_wf pm' /\
      forall p, abs_path p -> enrolled pm' p = bool_decide (p ∈ ps)
  | None => ~ exists ps, records [demo_path; str "/opt/app"] = records ps /\ Forall canonical ps /\ NoDup ps /\ (length ps <= 1024)%nat
  end.
Proof. apply stdin_policy_enrolled; done. Defined.

(** Two loads killed while attaching: the first after twenty pins, the second,
    which found the first name taken, after twenty-five. *)
Definition demo_keys : gset (list Z) := {[ demo_path ]}.
Definition held (n : nat) : option generation := Some {| g_pins := n; g_policy := demo_keys |}.
Definition twice_killed : pin_dirs := {| published := None; new_ := held 20; next_ := held 25 |}.

Lemma load_keeps_protection_witness :
  exists states, load twice_killed demo_keys None = Some states /\ forall s', s' ∈ states -> keeps twice_killed demo_keys s'.
Proof.
  eexists. split; [reflexivity|]. intros s' Hs'. eapply (load_keeps_protection twice_killed demo_keys None); [reflexivity|exact Hs'].
Defined.

Lemma twice_killed_interrupted : interrupted demo_keys twice_killed.
Proof.
  assert (interrupted demo_keys {| published := None; new_ := held 20; next_ := None |}) as H1.
  { eapply (Killed demo_keys _ None); [apply Fresh|reflexivity| |done]. apply list_elem_of_lookup. exists 20%nat. by vm_compute. }
  eapply (Killed demo_keys _ None); [exact H1|reflexivity| |done]. apply list_elem_of_lookup. exists 25%nat. by vm_compute.
Qed.

Lemma retried_load_completes_witness :
  exists states, load twice_killed demo_keys None = Some states /\
    last_state twice_killed states = {| published := Some {| g_pins := n_pins; g_policy := demo_keys |}; new_ := None; next_ := None |}.
Proof. apply retried_load_completes; [apply twice_killed_interrupted|done]. Defined.
