(* ===== verification/Json.v ===== *)
(** * Json: JSON strings for raw file names

    Models [src/src/linux/native/json-string.h].  The specification is a reader
    of JSON strings that undoes Python's surrogateescape, and the UTF-8 table of
    RFC 3629. *)
From Stdlib Require Import ZifyBool.
From S2P Require Import Prelude.

Definition hex (n : Z) : Z := if n <? 10 then 48 + n else 87 + n.

(** The length a leading byte announces, 0 for none. *)
Definition sequence_length (ch : Z) : nat :=
  if (194 <=? ch) && (ch <=? 223) then 2
  else if (224 <=? ch) && (ch <=? 239) then 3
  else if (240 <=? ch) && (ch <=? 244) then 4
  else 0.

Definition continuation (b : Z) : bool := Z.land b 192 =? 128.

(** The [valid] computation for the sequence at the head of [text]. *)
Definition valid_sequence (text : list Z) : bool :=
  match text with
  | [] => false
  | ch :: rest =>
      let n := sequence_length ch in
      negb (n =? 0)%nat && (n <=? length text)%nat && forallb continuation (take (n - 1) rest) &&
      (let second := rd rest 0 in
       negb (((ch =? 224) && (second <? 160)) || ((ch =? 237) && (160 <=? second)) ||
             ((ch =? 240) && (second <? 144)) || ((ch =? 244) && (144 <=? second))))
  end.

(** One turn of the loop: what is output, and how many bytes were consumed. *)
Definition json_char (text : list Z) : list Z * nat :=
  match text with
  | [] => ([], 0%nat)
  | ch :: _ =>
      if (ch =? 34) || (ch =? 92) then ([92; ch], 1%nat)
      else if ch <? 32 then ([92; 117; 48; 48; hex (Z.shiftr ch 4); hex (Z.land ch 15)], 1%nat)
      else if ch <? 128 then ([ch], 1%nat)
      else if valid_sequence text then (take (sequence_length ch) text, sequence_length ch)
      else ([92; 117; 100; 99; hex (Z.shiftr ch 4); hex (Z.land ch 15)], 1%nat)
  end.

Fixpoint json_body (fuel : nat) (text : list Z) : list Z :=
  match fuel, text with
  | S fuel, _ :: _ => let '(out, n) := json_char text in out ++ json_body fuel (drop n text)
  | _, _ => []
  end.

Definition json_string (text : list Z) : list Z := [34] ++ json_body (length text) text ++ [34].

(** ** Specification *)

Definition unhex (c : Z) : Z := if c <? 58 then c - 48 else c - 87.

(** Reading the body back: escapes undone, everything else literal. *)
Fixpoint json_read (body : list Z) : list Z :=
  match body with
  | 92 :: 117 :: 48 :: 48 :: a :: b :: rest => (16 * unhex a + unhex b) :: json_read rest
  | 92 :: 117 :: 100 :: 99 :: a :: b :: rest => (16 * unhex a + unhex b) :: json_read rest
  | 92 :: c :: rest => c :: json_read rest
  | c :: rest => c :: json_read rest
  | [] => []
  end.

(** RFC 3629: well-formed byte sequences, and inside a JSON string no raw
    quote, and no control character. *)
Definition between (lo hi b : Z) : bool := (lo <=? b) && (b <=? hi).
Definition tail := between 128 191.

Inductive utf8 : list Z -> Prop :=
| utf8_nil : utf8 []
| utf8_1 b l : between 32 127 b = true -> utf8 l -> utf8 (b :: l)
| utf8_2 a b l : between 194 223 a = true -> tail b = true -> utf8 l -> utf8 (a :: b :: l)
| utf8_3 a b c l : (a = 224 /\ between 160 191 b = true \/ between 225 236 a = true /\ tail b = true \/
                    a = 237 /\ between 128 159 b = true \/ between 238 239 a = true /\ tail b = true) ->
    tail c = true -> utf8 l -> utf8 (a :: b :: c :: l)
| utf8_4 a b c d l : (a = 240 /\ between 144 191 b = true \/ between 241 243 a = true /\ tail b = true \/
                      a = 244 /\ between 128 143 b = true) ->
    tail c = true -> tail d = true -> utf8 l -> utf8 (a :: b :: c :: d :: l).

(** ** Lemmas *)

(** A fact about every byte, by computation. *)
Lemma byte_ind (P : Z -> bool) b : is_byte b -> forallb P (map Z.of_nat (seq 0 256)) = true -> P b = true.
Proof.
  intros Hb H. rewrite forallb_forall in H. apply H. apply in_map_iff. exists (Z.to_nat b).
  unfold is_byte in Hb. split; [lia|]. apply in_seq. lia.
Qed.

Lemma continuation_tail b : is_byte b -> continuation b = tail b.
Proof.
  intros Hb. apply Bool.eqb_prop. apply (byte_ind (fun b => Bool.eqb (continuation b) (tail b)) b Hb). by vm_compute.
Qed.

Lemma unhex_byte b : is_byte b ->
  16 * unhex (hex (Z.shiftr b 4)) + unhex (hex (Z.land b 15)) = b /\
  between 48 102 (hex (Z.shiftr b 4)) = true /\ between 48 102 (hex (Z.land b 15)) = true.
Proof.
  intros Hb.
  assert (((16 * unhex (hex (Z.shiftr b 4)) + unhex (hex (Z.land b 15)) =? b) &&
           between 48 102 (hex (Z.shiftr b 4)) && between 48 102 (hex (Z.land b 15))) = true) as H.
  { apply (byte_ind (fun b => (16 * unhex (hex (Z.shiftr b 4)) + unhex (hex (Z.land b 15)) =? b) &&
           between 48 102 (hex (Z.shiftr b 4)) && between 48 102 (hex (Z.land b 15))) b Hb). by vm_compute. }
  bool_to_prop. done.
Qed.

Lemma sequence_length_cases ch : sequence_length ch = 0%nat \/ sequence_length ch = 2%nat \/
  sequence_length ch = 3%nat \/ sequence_length ch = 4%nat.
Proof. unfold sequence_length. repeat case_match; tauto. Qed.

Lemma json_char_consumes text : text <> [] -> (1 <= (json_char text).2 <= length text)%nat.
Proof.
  destruct text as [|ch rest]; [done|]. intros _. unfold json_char.
  repeat (case_match; [simpl; lia|]). destruct (valid_sequence (ch :: rest)) eqn:E; [|simpl; lia].
  unfold valid_sequence in E. bool_to_prop. simpl in *. lia.
Qed.

(** A valid sequence is one of the table's. *)
Lemma valid_sequence_utf8 ch rest l :
  Forall is_byte (ch :: rest) -> valid_sequence (ch :: rest) = true -> utf8 l ->
  utf8 (take (sequence_length ch) (ch :: rest) ++ l) /\ Forall (fun b => 128 <= b) (take (sequence_length ch) (ch :: rest)).
Proof.
  intros Hb0 Hv Hl. pose proof (Forall_inv Hb0) as Hch. pose proof (Forall_inv_tail Hb0) as Hb. clear Hb0. unfold valid_sequence in Hv. bool_to_prop.
  assert (forall b, b ∈ rest -> continuation b = tail b) as Hct.
  { intros b Hin. apply continuation_tail. rewrite list.Forall_forall in Hb. auto. }
  unfold tail, between in *.
  destruct (sequence_length_cases ch) as [E|[E|[E|E]]]; rewrite E in *; try done; simpl in *;
    unfold sequence_length in E.
  - destruct rest as [|b rest]; [simpl in *; lia|]. simpl in *. bool_to_prop. rewrite Hct in * by set_solver. unfold rd in *. simpl in *.
    repeat (case_match; [try done|]); try done. split; [apply utf8_2; unfold tail, between; [lia|lia|done]|].
    repeat constructor; lia.
  - destruct rest as [|b [|c rest]]; [simpl in *; lia..|]. simpl in *. bool_to_prop. rewrite !Hct in * by set_solver. unfold rd in *. simpl in *.
    repeat (case_match; [try done|]); try done. split; [apply utf8_3; unfold tail, between; [lia|lia|done]|].
    repeat constructor; lia.
  - destruct rest as [|b [|c [|d rest]]]; [simpl in *; lia..|]. simpl in *. bool_to_prop. rewrite !Hct in * by set_solver. unfold rd in *. simpl in *.
    repeat (case_match; [try done|]); try done. split; [apply utf8_4; unfold tail, between; [lia|lia|lia|done]|].
    repeat constructor; lia.
Qed.

Lemma json_read_literal c rest : c <> 92 -> json_read (c :: rest) = c :: json_read rest.
Proof. intros Hc. destruct c as [|p|p]; try done. do 7 (destruct p as [p|p|]; try done). Qed.

Lemma json_read_literals lits rest :
  Forall (fun b => 128 <= b) lits -> json_read (lits ++ rest) = lits ++ json_read rest.
Proof.
  induction 1 as [|b lits Hb _ IH]; [done|]. rewrite <- !app_comm_cons.
  rewrite json_read_literal by lia. by rewrite IH.
Qed.

(** One turn of the loop, read back and checked. *)
Lemma json_char_spec text body :
  text <> [] -> Forall is_byte text -> utf8 body ->
  utf8 ((json_char text).1 ++ body) /\
  json_read ((json_char text).1 ++ body) = take (json_char text).2 text ++ json_read body.
Proof.
  intros Hne Hb Hu. destruct text as [|ch rest]; [done|]. pose proof (Forall_inv Hb) as Hch. unfold json_char.
  destruct (unhex_byte ch Hch) as (Hx & Hh1 & Hh2).
  assert (forall a b, between 48 102 a = true -> between 48 102 b = true -> utf8 (a :: b :: body)) as Hhex.
  { unfold between. intros a b Ha Hb'. apply utf8_1; [unfold between; lia|]. apply utf8_1; [unfold between; lia|done]. }
  destruct ((ch =? 34) || (ch =? 92)) eqn:E1.
  { simpl. split; [apply utf8_1; [done|]; apply utf8_1; [unfold between; lia|done]|].
    apply orb_true_iff in E1 as [E1|E1]; bool_to_prop; by subst. }
  destruct (ch <? 32) eqn:E2.
  { split; [do 4 (apply utf8_1; [done|]); by apply Hhex|]. cbn [fst snd take app json_read]. by rewrite Hx. }
  destruct (ch <? 128) eqn:E3.
  { split; [apply utf8_1; [unfold between; lia|done]|]. cbn [fst snd take app]. apply json_read_literal. lia. }
  destruct (valid_sequence (ch :: rest)) eqn:Ev.
  { destruct (valid_sequence_utf8 ch rest body Hb Ev Hu) as [Hu' Hl]. split; [done|]. cbn [fst snd].
    by apply json_read_literals. }
  split; [do 4 (apply utf8_1; [done|]); by apply Hhex|]. cbn [fst snd take app json_read]. by rewrite Hx.
Qed.

Lemma json_body_spec fuel text :
  (length text <= fuel)%nat -> Forall is_byte text ->
  utf8 (json_body fuel text) /\ json_read (json_body fuel text) = text.
Proof.
  revert text. induction fuel as [|fuel IH]; intros text Hf Hb.
  { destruct text; [|simpl in Hf; lia]. split; [constructor|done]. }
  destruct text as [|ch rest]; [split; [constructor|done]|].
  assert (json_body (S fuel) (ch :: rest) =
    (json_char (ch :: rest)).1 ++ json_body fuel (drop (json_char (ch :: rest)).2 (ch :: rest))) as ->.
  { cbn [json_body]. by destruct (json_char (ch :: rest)). }
  pose proof (json_char_consumes (ch :: rest) ltac:(done)) as Hn.
  set (n := (json_char (ch :: rest)).2) in *.
  destruct (IH (drop n (ch :: rest))) as [Hu Hr].
  - rewrite length_drop. simpl in *. lia.
  - by apply Forall_drop.
  - destruct (json_char_spec (ch :: rest) (json_body fuel (drop n (ch :: rest))) ltac:(done) Hb Hu) as [H1 H2].
    fold n in H2. split; [done|]. rewrite H2, Hr. apply take_drop.
Qed.

(** The JSON string of any byte string is well-formed UTF-8 without raw
    control characters between its quotes, whatever invalid sequences the file
    name holds, and reading it back with surrogate escapes gives the original
    bytes. *)
Theorem json_string_roundtrip text :
  Forall is_byte text ->
  exists body, json_string text = [34] ++ body ++ [34] /\ utf8 body /\ json_read body = text.
Proof. intros Hb. exists (json_body (length text) text). split; [done|]. by apply json_body_spec. Qed.

Lemma json_string_roundtrip_witness :
  exists body, json_string [47; 255; 195; 169; 34; 10; 237; 160; 128] = [34] ++ body ++ [34] /\ utf8 body /\
    json_read body = [47; 255; 195; 169; 34; 10; 237; 160; 128].
Proof. apply json_string_roundtrip. repeat (constructor; [done|]). constructor. Defined.
