(* ===== verification/Numbers.v ===== *)
(** * Numbers: reading and printing numbers

    Models [src/src/native/parse-number.h] and the decimal text of
    [std::to_string]/[std::to_wstring] that the dispatcher, the supervisor and
    the runner put in keys, records and frames. *)
From S2P Require Import Prelude.

Definition is_digit (c : Z) : bool := (48 <=? c) && (c <=? 57).

(** The loop of [parseDecimal], in 64-bit unsigned arithmetic. *)
Fixpoint decimal_loop (text : list Z) (maximum value : Z) : option Z :=
  match text with
  | [] => Some value
  | c :: rest =>
      if (c <? 48) || (57 <? c) then None
      else
        let digit := u64 (c - 48) in
        if (maximum <? digit) || (u64 (maximum - digit) / 10 <? value) then None
        else decimal_loop rest maximum (u64 (value * 10 + digit))
  end.

Definition parseDecimal (text : list Z) (maximum : Z) : option Z :=
  match text with [] => None | _ => decimal_loop text maximum 0 end.

Definition hexDigit (c : Z) : Z :=
  if (48 <=? c) && (c <=? 57) then c - 48
  else if (97 <=? c) && (c <=? 102) then c - 97 + 10
  else if (65 <=? c) && (c <=? 70) then c - 65 + 10
  else -1.

(** [std::to_string] of an unsigned value: its decimal digits. *)
Fixpoint decimal_go (fuel : nat) (n : Z) (acc : list Z) : list Z :=
  match fuel with
  | O => acc
  | S fuel => if n <? 10 then (48 + n) :: acc else decimal_go fuel (n / 10) ((48 + n mod 10) :: acc)
  end.

(** Twenty digits cover every 64-bit value. *)
Definition to_string (n : Z) : list Z := decimal_go 20 n [].

(** ** Specification: the number a digit string denotes *)

Definition denote (text : list Z) (value : Z) : Z := foldl (fun v c => v * 10 + (c - 48)) value text.

(** ** Lemmas *)

Lemma denote_ge text value :
  forallb is_digit text = true -> 0 <= value -> value <= denote text value.
Proof.
  revert value. induction text as [|c text IH]; intros value Ht Hv; simpl in *; [lia|].
  unfold is_digit in Ht at 1. bool_to_prop.
  assert (value * 10 + (c - 48) <= denote text (value * 10 + (c - 48))) by (apply IH; [done|lia]). lia.
Qed.

(** Once a prefix exceeds the maximum, so does the whole number. *)
Lemma denote_exceeds text value maximum :
  0 <= value -> maximum < value ->
  (if forallb is_digit text && (denote text value <=? maximum) then Some (denote text value) else None) = None.
Proof.
  intros Hv Hm. destruct (forallb is_digit text) eqn:Ef; [|done]. simpl.
  pose proof (denote_ge text value Ef Hv). by rewrite (proj2 (Z.leb_gt _ _)) by lia.
Qed.

Lemma decimal_loop_spec text maximum value :
  0 <= value <= maximum -> maximum < 2 ^ 64 ->
  decimal_loop text maximum value =
    if forallb is_digit text && (denote text value <=? maximum) then Some (denote text value) else None.
Proof.
  intros Hv Hm. revert value Hv. induction text as [|c text IH]; intros value Hv; simpl.
  { rewrite (proj2 (Z.leb_le _ _)) by lia. done. }
  unfold is_digit at 1. destruct (c <? 48) eqn:E1; [|destruct (57 <? c) eqn:E2]; bool_to_prop; simpl.
  - by rewrite (proj2 (Z.leb_gt 48 c)) by lia.
  - rewrite (proj2 (Z.leb_gt c 57)) by lia. by rewrite andb_false_r.
  - rewrite (proj2 (Z.leb_le 48 c)), (proj2 (Z.leb_le c 57)) by lia. simpl.
    rewrite (uN_id 64 (c - 48)) by lia.
    destruct (maximum <? c - 48) eqn:E3; bool_to_prop; simpl; [by rewrite denote_exceeds by lia|].
    rewrite uN_id by lia. destruct (_ <? value) eqn:E4; bool_to_prop.
    + rewrite denote_exceeds; [done|lia|]. pose proof (Z.mul_succ_div_gt (maximum - (c - 48)) 10). lia.
    + pose proof (Z.mul_div_le (maximum - (c - 48)) 10). rewrite uN_id by lia. apply IH. lia.
Qed.

(** A decimal text is accepted exactly when it is a nonempty run of digits
    whose value does not exceed the maximum, and the result is that value; no
    intermediate value overflows 64 bits. *)
Theorem parseDecimal_spec text maximum :
  0 <= maximum < 2 ^ 64 ->
  parseDecimal text maximum =
    if negb (bool_decide (text = [])) && forallb is_digit text && (denote text 0 <=? maximum)
    then Some (denote text 0) else None.
Proof.
  intros Hm. unfold parseDecimal. destruct text as [|c text]; [done|].
  rewrite decimal_loop_spec by lia. done.
Qed.

Lemma parseDecimal_spec_witness : parseDecimal (str "65536") 65535 = None /\ parseDecimal (str "600000") 600000 = Some 600000.
Proof. rewrite !parseDecimal_spec by lia. by vm_compute. Defined.

(** ** Printing and reading back *)

Lemma decimal_go_spec fuel n acc :
  0 <= n < 10 ^ Z.of_nat fuel -> (0 < fuel)%nat ->
  exists ds, decimal_go fuel n acc = ds ++ acc /\ ds <> [] /\ forallb is_digit ds = true /\ denote ds 0 = n.
Proof.
  revert n acc. induction fuel as [|fuel IH]; intros n acc Hn Hf; [lia|]. simpl.
  destruct (n <? 10) eqn:E; bool_to_prop.
  - exists [48 + n]. split; [done|]. split; [done|]. unfold is_digit, denote. simpl.
    rewrite (proj2 (Z.leb_le _ _)), (proj2 (Z.leb_le _ _)) by lia. split; [done|lia].
  - destruct fuel as [|fuel']; [simpl in Hn; lia|].
    destruct (IH (n / 10) ((48 + n mod 10) :: acc)) as (ds & -> & Hne & Hd & Hv); [|lia|].
    { split; [apply Z.div_pos; lia|]. apply Z.div_lt_upper_bound; [lia|].
      rewrite <- Z.pow_succ_r by lia. rewrite <- Nat2Z.inj_succ. lia. }
    exists (ds ++ [48 + n mod 10]). rewrite <- app_assoc. split; [done|]. split; [by destruct ds|].
    pose proof (Z.mod_pos_bound n 10). split.
    + rewrite forallb_app, Hd. simpl. unfold is_digit.
      by rewrite (proj2 (Z.leb_le _ _)), (proj2 (Z.leb_le _ _)) by lia.
    + unfold denote in *. rewrite foldl_app, Hv. simpl. pose proof (Z.div_mod n 10). lia.
Qed.

Lemma to_string_spec n :
  0 <= n < 2 ^ 64 -> to_string n <> [] /\ forallb is_digit (to_string n) = true /\ denote (to_string n) 0 = n.
Proof.
  intros Hn. destruct (decimal_go_spec 20 n []) as (ds & Hs & H); [lia..|].
  unfold to_string. by rewrite Hs, app_nil_r.
Qed.

Lemma length_decimal fuel n acc : (length (decimal_go fuel n acc) <= fuel + length acc)%nat.
Proof.
  revert n acc. induction fuel as [|fuel IH]; intros n acc; cbn [decimal_go]; [lia|].
  destruct (n <? 10); [simpl; lia|]. etransitivity; [apply IH|]. simpl. lia.
Qed.

(** Never more than twenty characters. *)
Lemma to_string_length n : (length (to_string n) <= 20)%nat.
Proof. apply (length_decimal 20 n []). Qed.

(** What [std::to_string] prints of a 64-bit value, [parseDecimal] reads
    back, under any maximum that allows it. *)
Theorem parseDecimal_to_string n maximum :
  0 <= n <= maximum -> maximum < 2 ^ 64 -> parseDecimal (to_string n) maximum = Some n.
Proof.
  intros Hn Hm. destruct (to_string_spec n) as (Hne & Hd & Hv); [lia|].
  unfold parseDecimal. destruct (to_string n) as [|c ds] eqn:E; [done|].
  rewrite decimal_loop_spec by lia. rewrite Hd, Hv, (proj2 (Z.leb_le _ _)) by lia. done.
Qed.

Lemma parseDecimal_to_string_witness : parseDecimal (to_string 4294967295) 4294967295 = Some 4294967295.
Proof. apply parseDecimal_to_string; lia. Defined.

Lemma to_string_inj n m : 0 <= n < 2 ^ 64 -> 0 <= m < 2 ^ 64 -> to_string n = to_string m -> n = m.
Proof.
  intros Hn Hm E. destruct (to_string_spec n Hn) as (_ & _ & <-). destruct (to_string_spec m Hm) as (_ & _ & <-).
  by rewrite E.
Qed.

Lemma hexDigit_range c : -1 <= hexDigit c < 16.
Proof. unfold hexDigit. repeat (case_match; bool_to_prop); lia. Qed.
