(* ===== verification/Holding.v ===== *)
(** * Holding: interrupted generations under a replacement's load

    Models [hook_types], [guard_maps], [hold_interrupted], the configuration
    [load] builds, and [capabilities] of [src/src/linux/native/bpf-loader.cpp].
    While a replacement is loaded, every generation an interrupted load left
    attached still decides each new socket: the kernel runs all attached
    classifiers and grants only what all of them grant ([all_grant]).  The
    theorem says what holding them achieves over the classifier of [Policy]. *)
From S2P Require Import Prelude Kernel Policy Numbers Pins.

(** ** The kernel's types *)

(** The kernel function a link attaches to: its name in the type information. *)
Definition hook_symbol (spec : LinkSpec) : String.string :=
  match kind spec with LINK_FEXIT => hook spec | _ => String.append "bpf_lsm_" (hook spec) end.

(** [hook_types]: the identifiers in link order; [None] when the kernel has no
    type information or lacks one of the functions. *)
Fixpoint find_types (find : String.string -> Z) (specs : list LinkSpec) : option (list Z) :=
  match specs with
  | [] => Some []
  | spec :: specs =>
      let id := find (hook_symbol spec) in
      if id <=? 0 then None else ids ← find_types find specs; Some (id :: ids)
  end.

Definition hook_types (btf : option (String.string -> Z)) : option (list Z) := find ← btf; find_types find links.

(** [guard_maps] *)
Record GuardMaps := { slots : Z; dirs : Z; names : Z; roles : Z }.
Definition guard_maps (find : String.string -> Z) : GuardMaps :=
  {| slots := find "guard_slots"%string; dirs := find "guard_dirs"%string; names := find "endpoint_names"%string; roles := find "object_roles"%string |}.

(** ** Holding *)

(** A generation left behind: whether all its maps were pinned, how many links
    (a prefix of the pin order, which begins with the classifier's), and its maps. *)
Record interrupted := { complete_maps : bool; link_count : nat; policy_of : policy_maps }.

Definition with_config (pm : policy_maps) (cfg : policy_config) : policy_maps :=
  {| paths := paths pm; paths_short := paths_short pm; policy_cfg := Some cfg; scratch := scratch pm; stats := stats pm |}.

(** [hold_interrupted]: [opened] and [updated] are the answers of the two system
    calls; [None] is the exception they raise. *)
Definition hold_interrupted (opened updated : bool) (stale : interrupted) (cfg : policy_config) : option interrupted :=
  if negb (complete_maps stale) then Some stale
  else if negb opened then None
  else if negb updated then None
  else Some {| complete_maps := true; link_count := link_count stale; policy_of := with_config (policy_of stale) cfg |}.

(** [load]'s loop over them. *)
Fixpoint hold_all (answers : list (bool * bool)) (stale : list interrupted) (cfg : policy_config) : option (list interrupted) :=
  match stale with
  | [] => Some []
  | item :: rest =>
      let '(opened, updated) := default (false, false) (head answers) in
      held ← hold_interrupted opened updated item cfg;
      rest ← hold_all (tail answers) rest cfg;
      Some (held :: rest)
  end.

(** The configuration [load] gives: this build's, blocked; [None] when the mark
    is refused. *)
Definition load_configuration (mask_ mark_ device inode net user : Z) : option policy_config :=
  if (mask_ =? 0) || (mark_ =? 0) || negb (Z.land mark_ (unot 32 mask_) =? 0) then None
  else Some {| version := POLICY_ABI; ready := 0; mask := mask_; mark := mark_; root_dev := device; root_ino := inode; netns := net; userns := user |}.

(** ** What it achieves *)

Section Attached.
Context {R : KernelReads}.

(** The generations whose classifier is attached. *)
Definition is_attached (g : interrupted) : bool := (0 <? link_count g)%nat.
Definition attached (generations : list interrupted) : list policy_maps :=
  map policy_of (List.filter is_attached generations).

(** What [inspect_generation] has made sure of: links come after all maps. *)
Definition inspected (g : interrupted) : Prop := is_attached g = true -> complete_maps g = true.

(** Every attached classifier decides, and all of them have to grant. *)
Definition all_grant (generations : list policy_maps) (t : task) (sk : option new_socket) (family type protocol : Z) : bool :=
  forallb (fun pm => (classify pm t sk family type protocol false).1.1 =? 1) generations.

Lemma hold_all_attached answers stale cfg held :
  Forall inspected stale -> hold_all answers stale cfg = Some held -> attached held = map (fun pm => with_config pm cfg) (attached stale).
Proof.
  intros Hi. revert answers held. induction Hi as [|item stale Hi _ IH]; intros answers held; cbn [hold_all]; [by intros [= <-]|].
  destruct (default (false, false) (head answers)) as [opened updated].
  destruct (hold_interrupted opened updated item cfg) as [now|] eqn:E; [|done]. cbn [mbind option_bind].
  destruct (hold_all (tail answers) stale cfg) as [rest|] eqn:Er; [|done]. cbn [mbind option_bind]. intros [= <-]. apply IH in Er.
  unfold attached, hold_interrupted in *. cbn [List.filter]. unfold inspected in Hi. destruct (complete_maps item); cbn [negb] in E.
  - destruct opened, updated; try done. injection E as <-. change (is_attached {| complete_maps := _; link_count := link_count item; policy_of := _ |}) with (is_attached item).
    destruct (is_attached item); cbn [map policy_of]; by rewrite Er.
  - injection E as <-. destruct (is_attached item); [by specialize (Hi eq_refl)|done].
Qed.

(** A generation without a usable configuration refuses every socket. *)
Lemma unconfigured_refuses pm t sk family type protocol :
  (policy_cfg pm = None \/ exists cfg, policy_cfg pm = Some cfg /\ version cfg <> POLICY_ABI) -> family ∈ [2; 10; 17] ->
  (classify pm t sk family type protocol false).1.1 = 0.
Proof.
  intros Hc Hf. assert (policy_select pm t = (BLOCKED, pm)) as Hs.
  { unfold policy_select. destruct Hc as [-> | (cfg & -> & Hv)]; [done|]. by rewrite (proj2 (Z.eqb_neq _ _)). }
  rewrite classify_unmarked by (rewrite ?Hs; done). by rewrite Hs.
Qed.

Context `{!MappedReads R}.

(** A running image in the host's context, at a path. *)
Record runs_at (cfg : policy_config) (t : task) (path : list Z) : Prop := {
  ra_ino : t_root_ino t = root_ino cfg; ra_dev : t_root_dev t = root_dev cfg; ra_net : t_netns t = netns cfg;
  ra_exe : exists exe, t_exe t = Some exe /\ linked_file exe = true /\ d_path_is exe path;
  ra_path : abs_path path
}.

Lemma held_verdict pm cfg t path sk family type protocol :
  version cfg = POLICY_ABI -> ready cfg = 0 -> runs_at cfg t path -> scratch_ok pm -> family ∈ [2; 10; 17] ->
  (classify (with_config pm cfg) t sk family type protocol false).1.1 = if enrolled pm path then 0 else 1.
Proof.
  intros Hv Hr [H1 H2 H3 (exe & He & Hl & Hd) Hp] Hs Hf.
  assert ((policy_select (with_config pm cfg) t).1 = if enrolled pm path then INCLUDED else DIRECT) as Hsel.
  { unfold policy_select. cbn [policy_cfg with_config]. rewrite Hv, H1, H2, H3, He, !Z.eqb_refl. cbn [negb orb].
    by rewrite (resolve_linked_path (with_config pm cfg) exe path). }
  destruct (enrolled pm path).
  - unfold classify. rewrite family_covered by done. destruct (policy_select_frame (with_config pm cfg) t) as (Hc & _).
    destruct (policy_select (with_config pm cfg) t) as [sel pm1]. cbn [fst snd] in *. subst sel. rewrite Hc. cbn [policy_cfg with_config].
    rewrite bool_decide_true by done. cbn [negb]. rewrite Hr. destruct (_ || _ : bool); done.
  - rewrite classify_unmarked by (rewrite ?Hsel; done). by rewrite Hsel.
Qed.

End Attached.

(** Two interrupted loads: one killed before its configuration was written, one
    with the demonstration policy; a shell that neither lists may use sockets,
    the listed program may not. *)
Definition unwritten : interrupted := {| complete_maps := true; link_count := 3; policy_of :=
  {| paths := ∅; paths_short := ∅; policy_cfg := None; scratch := scratch demo_maps; stats := stats demo_maps |} |}.
Definition written_ : interrupted := {| complete_maps := true; link_count := 15; policy_of := demo_maps |}.
Definition no_links : interrupted := {| complete_maps := false; link_count := 0; policy_of := demo_maps |}.
Definition demo_load : policy_config := {| version := 4; ready := 0; mask := 255; mark := 17; root_dev := 8; root_ino := 2; netns := 7; userns := 9 |}.


(** ** [capabilities] *)

Definition abi_line (kernel libbpf lsm : list Z) : list Z :=
  str "abi=4 kernel=" ++ kernel ++ str " libbpf=" ++ libbpf ++ [10] ++ str "lsm=" ++ lsm ++ [10] ++
  str "coverage=host-root,host-netns,any-userns;private-mounts-with-host-root" ++ [10] ++
  str "unsupported-context=outside-classification;restart-required=yes;cache=none" ++ [10] ++
  str "attachment-and-helper-support=unverified-until-load" ++ [10].
Definition kSymbols : list String.string :=
  ["bpf_get_task_exe_file"; "bpf_put_file"; "bpf_path_d_path"; "bpf_preempt_disable"; "bpf_preempt_enable"; "bpf_lsm_socket_post_create"]%string.
Definition signed_text (n : Z) : list Z := if n <? 0 then 45 :: to_string (- n) else to_string n.
Definition symbol_line (find : String.string -> Z) (symbol : String.string) : list Z := str symbol ++ str "_btf=" ++ signed_text (find symbol) ++ [10].

(** What is written, and whether it ends without an exception: [release] and
    [lsm] are [None] when they cannot be read. *)
Definition capabilities (release lsm : option (list Z)) (libbpf : list Z) (btf : option (String.string -> Z)) : list Z * bool :=
  match release with
  | None => ([], false)
  | Some kernel =>
      match lsm with
      | None => (str "abi=4 kernel=" ++ kernel ++ str " libbpf=" ++ libbpf ++ [10] ++ str "lsm=", false)
      | Some text =>
          match btf with
          | None => (abi_line kernel libbpf text, false)
          | Some find => (abi_line kernel libbpf text ++ concat (map (symbol_line find) kSymbols), true)
          end
      end
  end.
