(* ===== verification/Text.v ===== *)
(** * Text: the loader's reading of text

    Models what [src/src/linux/native/bpf-loader.cpp] does with the text files
    of the host and with its arguments: lines and fields ([std::getline], the
    stream extraction of words), searching, and [number], its reader of 32-bit
    values through [std::stoul]. *)
From S2P Require Import Prelude Numbers.

(** ** Lines, words and searches *)

(** [std::getline] in a loop: the pieces between delimiters; nothing after a
    final one. *)
Fixpoint getlines (delimiter : Z) (text : list Z) : list (list Z) :=
  match text with
  | [] => []
  | c :: rest =>
      if c =? delimiter then [] :: getlines delimiter rest
      else match getlines delimiter rest with
           | line :: lines => (c :: line) :: lines
           | [] => [[c]]
           end
  end.

Definition newline : Z := 10.

(** [isspace] in the C locale. *)
Definition is_space (c : Z) : bool := ((9 <=? c) && (c <=? 13)) || (c =? 32).

(** [stream >> word] in a loop, [word] being what is read of the next one. *)
Fixpoint words_from (text word : list Z) : list (list Z) :=
  match text with
  | [] => if bool_decide (word = []) then [] else [word]
  | c :: rest =>
      if is_space c then if bool_decide (word = []) then words_from rest [] else word :: words_from rest []
      else words_from rest (word ++ [c])
  end.
Definition words (text : list Z) : list (list Z) := words_from text [].

(** [text.find(c)]. *)
Fixpoint find_char (c : Z) (text : list Z) : option nat :=
  match text with
  | [] => None
  | x :: rest => if x =? c then Some O else S <$> find_char c rest
  end.

(** [text.rfind(prefix, 0) == 0], and [compare(0, prefix.size(), prefix) == 0]. *)
Definition starts_with (prefix text : list Z) : bool := bool_decide (take (length prefix) text = prefix).

(** [text.find(piece)]. *)
Fixpoint find_text (piece text : list Z) : option nat :=
  if starts_with piece text then Some O
  else match text with [] => None | _ :: rest => S <$> find_text piece rest end.

(** ** Numbers *)

Fixpoint skip_spaces (text : list Z) : list Z :=
  match text with c :: rest => if is_space c then skip_spaces rest else text | [] => [] end.

Definition is_digit_of (base c : Z) : bool := (0 <=? hexDigit c) && (hexDigit c <? base).

(** The longest run of digits, its value, and what follows. *)
Fixpoint take_digits (base : Z) (text : list Z) (value : Z) : Z * list Z :=
  match text with
  | c :: rest => if is_digit_of base c then take_digits base rest (value * base + hexDigit c) else (value, text)
  | [] => (value, [])
  end.

(** The base a text announces, and the text after its prefix.  A C23 library
    also knows a binary prefix. *)
Definition announced_base (c23 : bool) (text : list Z) : Z * list Z :=
  match text with
  | z :: rest =>
      if z =? 48 then
        match rest with
        | x :: (d :: _) as digits =>
            if ((x =? 120) || (x =? 88)) && is_digit_of 16 d then (16, tail rest)
            else if c23 && ((x =? 98) || (x =? 66)) && is_digit_of 2 d then (2, tail rest)
            else (8, text)
        | _ => (8, text)
        end
      else (10, text)
  | [] => (10, text)
  end.

(** [std::stoul(input, &end, 0)]: the value and the text from [end] on; [None]
    is either exception. *)
Definition stoul (c23 : bool) (input : list Z) : option (Z * list Z) :=
  let text := skip_spaces input in
  let '(negative, text) := match text with
                           | c :: rest => if c =? 45 then (true, rest) else if c =? 43 then (false, rest) else (false, text)
                           | [] => (false, text)
                           end in
  let '(base, text) := announced_base c23 text in
  let '(value, rest) := take_digits base text 0 in
  if (length rest =? length text)%nat then None
  else if 2 ^ 64 - 1 <? value then None
  else Some (u64 (if negative then - value else value), rest).

(** [number(input)]. *)
Definition number (c23 : bool) (input : list Z) : option Z :=
  match stoul c23 input with
  | Some (result, []) => if 2 ^ 32 - 1 <? result then None else Some result
  | _ => None
  end.

(** ** Lemmas *)

Lemma take_digits_decimal text value :
  forallb is_digit text = true -> take_digits 10 text value = (denote text value, []).
Proof.
  revert value. induction text as [|c text IH]; intros value H; [done|]. cbn [forallb] in H. bool_to_prop.
  cbn [take_digits]. unfold is_digit in *. bool_to_prop.
  assert (hexDigit c = c - 48) as E.
  { unfold hexDigit. by rewrite (proj2 (Z.leb_le 48 c)), (proj2 (Z.leb_le c 57)) by lia. }
  unfold is_digit_of. rewrite E, (proj2 (Z.leb_le 0 (c - 48))), (proj2 (Z.ltb_lt (c - 48) 10)) by lia.
  cbn [andb]. rewrite IH by done. done.
Qed.

(** [std::to_string] writes no leading zero. *)
Lemma decimal_go_head fuel n acc :
  0 < n < 10 ^ Z.of_nat fuel -> exists c rest, decimal_go fuel n acc = c :: rest /\ 49 <= c <= 57.
Proof.
  revert n acc. induction fuel as [|fuel IH]; intros n acc Hn; [simpl in Hn; lia|].
  cbn [decimal_go]. destruct (n <? 10) eqn:E; bool_to_prop; [eexists _, _; split; [done|lia]|].
  apply IH. split; [apply Z.div_str_pos; lia|]. apply Z.div_lt_upper_bound; [lia|].
  rewrite <- Z.pow_succ_r by lia. rewrite <- Nat2Z.inj_succ. lia.
Qed.

Lemma number_range c23 input n : number c23 input = Some n -> 0 <= n < 2 ^ 32.
Proof.
  unfold number. destruct (stoul c23 input) as [[v [|]]|] eqn:E; try done. case_match; intros; simplify_eq. bool_to_prop.
  unfold stoul in E. repeat case_match; simplify_eq.
  all: match goal with |- context [u64 ?x] => pose proof (uN_range 64 x ltac:(lia)) end; lia.
Qed.

(** Every 32-bit value the system prints in decimal, [number] reads back,
    whichever version of the library it is linked with; in particular the
    digits are not taken for octal. *)
Theorem number_to_string c23 n : 0 <= n < 2 ^ 32 -> number c23 (to_string n) = Some n.
Proof.
  intros Hn. destruct (decide (n = 0)) as [->|]; [by destruct c23|].
  destruct (to_string_spec n) as (Hne & Hd & Hv); [lia|].
  destruct (decimal_go_head 20 n []) as (c & rest & E & Hc); [lia|]. fold (to_string n) in E. rewrite E in *.
  unfold number, stoul. cbn [skip_spaces]. unfold is_space.
  rewrite (proj2 (Z.leb_gt c 13)), (proj2 (Z.eqb_neq c 32)), andb_false_r by lia. cbn [orb].
  rewrite (proj2 (Z.eqb_neq c 45)), (proj2 (Z.eqb_neq c 43)) by lia. cbn [announced_base].
  rewrite (proj2 (Z.eqb_neq c 48)) by lia. rewrite take_digits_decimal by done. rewrite Hv. cbn [length Nat.eqb].
  rewrite (proj2 (Z.ltb_ge _ n)) by lia. rewrite uN_id by lia. by rewrite (proj2 (Z.ltb_ge _ n)) by lia.
Qed.

Lemma number_to_string_witness : number true (to_string 4294967295) = Some 4294967295.
Proof. apply number_to_string. lia. Defined.

(** A text with a leading zero is octal, or refused where it is not octal. *)
Example number_octal : number true (str "010") = Some 8 /\ number true (str "08") = None.
Proof. by vm_compute. Qed.

(** ** Lines and words read back *)

Lemma getlines_line d line text :
  d ∉ line -> getlines d (line ++ d :: text) = line :: getlines d text.
Proof.
  induction line as [|c line IH]; intros Hd; cbn [app getlines]; [by rewrite Z.eqb_refl|].
  apply not_elem_of_cons in Hd as [Hc Hd]. rewrite (proj2 (Z.eqb_neq c d)) by congruence. by rewrite IH.
Qed.

Lemma getlines_lines d lines :
  Forall (fun line => d ∉ line) lines -> getlines d (concat (map (fun line => line ++ [d]) lines)) = lines.
Proof.
  induction 1 as [|line lines Hl _ IH]; [done|]. cbn [map concat]. rewrite <- app_assoc. cbn [app].
  rewrite getlines_line by done. by rewrite IH.
Qed.

Lemma words_from_word text rest word :
  forallb (fun c => negb (is_space c)) text = true -> word ++ text <> [] ->
  words_from (text ++ 32 :: rest) word = (word ++ text) :: words rest.
Proof.
  revert word. induction text as [|c text IH]; intros word Ht Hne; cbn [app words_from].
  - rewrite app_nil_r in *. cbn. by rewrite bool_decide_false.
  - cbn [forallb] in Ht. bool_to_prop. rewrite H. rewrite IH by (done || by destruct word).
    by rewrite <- app_assoc.
Qed.

(** A word followed by a blank is read whole. *)
Lemma words_word text rest :
  forallb (fun c => negb (is_space c)) text = true -> text <> [] -> words (text ++ 32 :: rest) = text :: words rest.
Proof. intros Ht Hne. unfold words at 1. by rewrite words_from_word. Qed.

Lemma find_char_first c text rest : c ∉ text -> find_char c (text ++ c :: rest) = Some (length text).
Proof.
  induction text as [|x text IH]; intros Hc; cbn [app find_char]; [by rewrite Z.eqb_refl|].
  apply not_elem_of_cons in Hc as [Hx Hc]. rewrite (proj2 (Z.eqb_neq x c)) by congruence. by rewrite IH.
Qed.

Lemma digits_no_char text c : forallb is_digit text = true -> is_digit c = false -> c ∉ text.
Proof.
  rewrite forallb_forall. intros Ht Hc Hin. apply list_elem_of_In, Ht in Hin. congruence.
Qed.

Lemma digits_no_space text : forallb is_digit text = true -> forallb (fun c => negb (is_space c)) text = true.
Proof.
  rewrite !forallb_forall. intros Ht c Hc. apply Ht in Hc. unfold is_digit, is_space in *. bool_to_prop.
  rewrite (proj2 (Z.leb_gt c 13)), (proj2 (Z.eqb_neq c 32)) by lia. by rewrite andb_false_r.
Qed.

Lemma drop_past {A} (text : list A) c rest : drop (S (length text)) (text ++ c :: rest) = rest.
Proof. by induction text. Qed.

(** ** Words joined by blanks *)

Definition is_word (word : list Z) : Prop := word <> [] /\ forallb (fun c => negb (is_space c)) word = true.

Lemma words_from_app text rest word : words_from (text ++ 32 :: rest) word = words_from text word ++ words rest.
Proof.
  revert word. induction text as [|c text IH]; intros word; cbn [app words_from].
  - cbn. by destruct (bool_decide (word = [])).
  - destruct (is_space c); [|apply IH]. destruct (bool_decide (word = [])); rewrite IH; done.
Qed.

Lemma words_from_one text word :
  forallb (fun c => negb (is_space c)) text = true -> word ++ text <> [] -> words_from text word = [word ++ text].
Proof.
  revert word. induction text as [|c text IH]; intros word Ht Hne; cbn [words_from].
  - rewrite app_nil_r in *. by rewrite bool_decide_false.
  - cbn [forallb] in Ht. bool_to_prop. rewrite H. rewrite IH by (done || by destruct word). by rewrite <- app_assoc.
Qed.

Lemma words_one word : is_word word -> words word = [word].
Proof. intros [Hne Hs]. unfold words. by rewrite words_from_one. Qed.

Lemma words_from_words text word :
  forallb (fun c => negb (is_space c)) word = true -> Forall is_word (words_from text word).
Proof.
  revert word. induction text as [|c text IH]; intros word Hw; cbn [words_from].
  - case_bool_decide; repeat constructor; done.
  - destruct (is_space c) eqn:E.
    + case_bool_decide; [by apply IH|]. constructor; [done|]. by apply IH.
    + apply IH. rewrite forallb_app, Hw. cbn. by rewrite E.
Qed.

Lemma words_words text : Forall is_word (words text).
Proof. by apply words_from_words. Qed.
