(* ===== verification/Discard.v ===== *)
(** * Discard: resuming an interrupted removal, from its texts

    The outside of [discard] in [src/src/linux/native/pin-removal.h]: the lines of
    standard input that record what a caller adopted, the text of
    [/proc/self/fdinfo] that tells the kind of a pinned object, and what the
    kernel reports of each entry.  [Pins] has the check of the entries against
    the records and the removal itself. *)
From S2P Require Import Prelude Numbers Text Pins.

(** ** Fields of a line *)

Fixpoint take_word (text word : list Z) : list Z * list Z :=
  match text with
  | c :: rest => if is_space c then (word, text) else take_word rest (word ++ [c])
  | [] => (word, [])
  end.

(** [fields >> word]: nothing at the end of the line. *)
Definition stream_word (text : list Z) : option (list Z * list Z) :=
  let '(word, rest) := take_word (skip_spaces text) [] in
  if bool_decide (word = []) then None else Some (word, rest).

(** [fields >> value] of a [uint32_t]: a sign, then decimal digits; a value out of
    range fails, a negative one wraps around. *)
Definition stream_uint (text : list Z) : option (Z * list Z) :=
  let text := skip_spaces text in
  let '(negative, text) := match text with
                           | c :: rest => if c =? 45 then (true, rest) else if c =? 43 then (false, rest) else (false, text)
                           | [] => (false, text)
                           end in
  let '(value, rest) := take_digits 10 text 0 in
  if (length rest =? length text)%nat then None
  else if 2 ^ 32 - 1 <? value then None
  else Some (u32 (if negative then - value else value), rest).

(** The pin or map of this loader with that name. *)
Definition known_pin (name : list Z) : option String.string := pin <$> find (fun spec => bool_decide (str (pin spec) = name)) links.
Definition known_map (name : list Z) : option String.string := find (fun s => bool_decide (str s = name)) map_names.

(** One line: kind, name, identifier and, for a link, its program; nothing after
    them. *)
Definition read_line (line : list Z) : option (bool * String.string * Z * Z) :=
  '(kind, rest) ← stream_word line;
  '(name, rest) ← stream_word rest;
  '(id, rest) ← stream_uint rest;
  let link := bool_decide (kind = str "link") in
  '(program, rest) ← (if link then stream_uint rest else Some (0, rest));
  known ← (if link then known_pin name else if bool_decide (kind = str "map") then known_map name else None);
  if bool_decide (is_Some (stream_word rest)) then None else Some (link, known, id, program).

Definition read_lines (input : list Z) : option (list (bool * String.string * Z * Z)) := mapM read_line (getlines newline input).

(** ** What an entry is *)

(** [object_kind], on the text of the descriptor's [fdinfo]. *)
Fixpoint kind_of_lines (lines : list (list Z)) : list Z :=
  match lines with
  | [] => []
  | line :: lines =>
      if starts_with (str "map_id:") line then str "map"
      else if starts_with (str "link_id:") line then str "link"
      else if starts_with (str "prog_type:") line then str "prog"
      else kind_of_lines lines
  end.
Definition object_kind (fdinfo : list Z) : list Z := kind_of_lines (getlines newline fdinfo).

(** An entry of the directory: whether it opens, its [fdinfo], and what the kernel
    reports when asked about a link (identifier, program) or a map (identifier,
    name). *)
Record entry := { opens : bool; fdinfo : list Z; link_info : option (Z * Z); map_info : option (Z * list Z) }.

(** The check of one entry; [None] is an exception. *)
Definition same_entry (name : String.string) (expected : Recorded) (e : entry) : option bool :=
  if negb (opens e) then None
  else if negb (bool_decide (object_kind (fdinfo e) = (if rec_link expected then str "link" else str "map"))) then Some false
  else if rec_link expected then
    '(id, prog) ← link_info e; Some ((id =? rec_id expected) && (prog =? rec_program expected))
  else '(id, map_name) ← map_info e; Some ((id =? rec_id expected) && bool_decide (map_name = str name)).

Fixpoint check_entries (recorded : gmap String.string Recorded) (entries : list (String.string * entry)) : option unit :=
  match entries with
  | [] => Some tt
  | (name, e) :: entries =>
      expected ← recorded !! name;
      same ← same_entry name expected e;
      if (same : bool) then check_entries recorded entries else None
  end.

(** [discard] on the text of standard input; [locked] is whether the directory
    could be opened and locked. *)
Definition discard_input (input : list Z) (locked : bool) (entries : list (String.string * entry)) : option directory :=
  lines ← read_lines input;
  recorded ← read_recorded lines ∅;
  if negb locked then None
  else check_entries recorded entries ;; remove_pins (list_to_set (map fst entries)).

(** ** Reading the lines back *)

Definition recorded_line (line : bool * String.string * Z * Z) : list Z :=
  let '(link, name, id, program) := line in
  (if (link : bool) then str "link" else str "map") ++ [32] ++ str name ++ [32] ++ to_string id ++
  (if link then [32] ++ to_string program else []).

(** A record this loader can have made. *)
Definition valid_line (line : bool * String.string * Z * Z) : Prop :=
  let '(link, name, id, program) := line in
  0 <= id < 2 ^ 32 /\ (if (link : bool) then name ∈ map pin links /\ 0 <= program < 2 ^ 32 else name ∈ map_names /\ program = 0).

Definition plain (text : list Z) : bool := forallb (fun c => negb (is_space c)) text && negb (bool_decide (text = [])).

Lemma take_word_plain text rest word :
  forallb (fun c => negb (is_space c)) text = true -> take_word (text ++ 32 :: rest) word = (word ++ text, 32 :: rest).
Proof.
  revert word. induction text as [|c text IH]; intros word Ht; [by rewrite app_nil_r|].
  cbn [forallb] in Ht. apply andb_true_iff in Ht as [Hc Ht]. apply negb_true_iff in Hc. cbn [app take_word]. rewrite Hc, IH by done.
  by rewrite <- app_assoc.
Qed.

Lemma skip_plain text rest : plain text = true -> skip_spaces (text ++ rest) = text ++ rest.
Proof.
  unfold plain. destruct text as [|c text]; [done|]. cbn [forallb]. intros Ht. bool_to_prop. cbn [app skip_spaces]. by destruct (is_space c).
Qed.

Lemma stream_word_plain text rest : plain text = true -> stream_word (text ++ 32 :: rest) = Some (text, 32 :: rest).
Proof.
  intros Hp. unfold stream_word. rewrite skip_plain by done. unfold plain in Hp. apply andb_true_iff in Hp as [Hp Hne].
  rewrite take_word_plain by done. cbn [app]. apply negb_true_iff, bool_decide_eq_false in Hne. by rewrite bool_decide_false.
Qed.

Lemma skip_blank text : skip_spaces (32 :: text) = skip_spaces text.
Proof. done. Qed.

Lemma stream_word_blank text : stream_word (32 :: text) = stream_word text.
Proof. done. Qed.

Lemma stream_uint_blank text : stream_uint (32 :: text) = stream_uint text.
Proof. done. Qed.

Lemma take_digits_stop text rest value :
  forallb is_digit text = true -> (forall c, head rest = Some c -> is_digit_of 10 c = false) ->
  take_digits 10 (text ++ rest) value = (denote text value, rest).
Proof.
  revert value. induction text as [|c text IH]; intros value Ht Hr; cbn [app].
  - destruct rest as [|c rest]; [done|]. cbn [take_digits]. by rewrite (Hr c eq_refl).
  - cbn [forallb] in Ht. apply andb_true_iff in Ht as [Hc Ht]. pose proof (take_digits_decimal [c] value) as H1. cbn [forallb] in H1.
    rewrite Hc in H1. specialize (H1 eq_refl). cbn [take_digits] in *. destruct (is_digit_of 10 c) eqn:Ed; [|by injection H1].
    injection H1 as H1. rewrite IH by done. unfold denote in *. cbn [foldl] in *. by rewrite H1.
Qed.

(** A printed number is read whole, whatever does not continue it. *)
Lemma stream_uint_printed n rest :
  0 <= n < 2 ^ 32 -> (forall c, head rest = Some c -> is_digit_of 10 c = false) -> stream_uint (to_string n ++ rest) = Some (n, rest).
Proof.
  intros Hn Hr. destruct (to_string_spec n) as (Hne & Hd & Hv); [lia|].
  assert (plain (to_string n) = true) as Hp.
  { unfold plain. rewrite digits_no_space by done. by rewrite bool_decide_false. }
  unfold stream_uint. rewrite skip_plain by done. destruct (to_string n) as [|c ds] eqn:E; [done|]. cbn [app].
  pose proof Hd as Hc. cbn [forallb] in Hc. apply andb_true_iff in Hc as [Hc _]. unfold is_digit in Hc. apply andb_true_iff in Hc as [H1 H2].
  apply Z.leb_le in H1, H2. rewrite (proj2 (Z.eqb_neq c 45)), (proj2 (Z.eqb_neq c 43)) by lia.
  change (c :: ds ++ rest) with ((c :: ds) ++ rest). rewrite take_digits_stop by done. rewrite Hv.
  rewrite (proj2 (Nat.eqb_neq _ _)) by (rewrite length_app; simpl; lia). rewrite (proj2 (Z.ltb_ge _ _)) by lia. by rewrite uN_id by lia.
Qed.

Lemma pins_known : forallb (fun n => plain (str n) && bool_decide (known_pin (str n) = Some n)) (map pin links) = true.
Proof. by vm_compute. Qed.

Lemma maps_known : forallb (fun n => plain (str n) && bool_decide (known_map (str n) = Some n)) map_names = true.
Proof. by vm_compute. Qed.

Lemma checked_name names (f : String.string -> bool) name : forallb f names = true -> name ∈ names -> f name = true.
Proof. rewrite forallb_forall. intros H Hin. by apply H, list_elem_of_In. Qed.

Lemma read_recorded_line line : valid_line line -> read_line (recorded_line line) = Some line.
Proof.
  destruct line as [[[link name] id] program]. intros [Hid Hl]. unfold recorded_line, read_line.
  assert (plain (str name) = true /\ (if link then known_pin (str name) else known_map (str name)) = Some name) as [Hp Hk].
  { destruct link; destruct Hl as [Hin _].
    - pose proof (checked_name _ _ _ pins_known Hin) as H. cbv beta in H. apply andb_true_iff in H as [? ?]. by bool_to_prop.
    - pose proof (checked_name _ _ _ maps_known Hin) as H. cbv beta in H. apply andb_true_iff in H as [? ?]. by bool_to_prop. }
  change ([32] ++ ?x) with (32 :: x). cbn [app]. destruct link.
  - destruct Hl as [_ Hprog]. rewrite stream_word_plain by done. cbn [mbind option_bind]. rewrite stream_word_blank, stream_word_plain by done.
    cbn [mbind option_bind]. rewrite stream_uint_blank, stream_uint_printed by (done || by intros c [= <-]). cbn [mbind option_bind].
    rewrite bool_decide_true by done. rewrite stream_uint_blank, <- (app_nil_r (to_string program)), stream_uint_printed by done.
    cbn [mbind option_bind]. by rewrite Hk.
  - destruct Hl as [_ ->]. rewrite stream_word_plain by done. cbn [mbind option_bind]. rewrite stream_word_blank, stream_word_plain by done.
    cbn [mbind option_bind]. rewrite stream_uint_blank, stream_uint_printed by done. cbn [mbind option_bind].
    rewrite (bool_decide_false (str "map" = str "link")) by done. cbn [mbind option_bind]. rewrite (bool_decide_true (str "map" = str "map")) by done.
    by rewrite Hk.
Qed.

(** The lines a caller wrote are read as they were meant. *)
Theorem recorded_lines_read_back lines :
  Forall valid_line lines -> read_lines (concat (map (fun line => recorded_line line ++ [newline]) lines)) = Some lines.
Proof.
  intros Hl. unfold read_lines.
  rewrite <- (map_map recorded_line (fun line => line ++ [newline])), getlines_lines.
  - induction Hl as [|line lines Hv _ IH]; [done|]. cbn [map mapM]. rewrite read_recorded_line by done. cbn [mbind option_bind]. by rewrite IH.
  - apply list.Forall_forall. intros text Ht. apply list_elem_of_fmap in Ht as ([[[link name] id] program] & -> & Hin).
    rewrite list.Forall_forall in Hl. destruct (Hl _ Hin) as [Hid Hv]. unfold recorded_line, newline.
    assert (10 ∉ str name) as Hname.
    { assert (forall text, plain text = true -> 10 ∉ text) as Hno.
      { intros text Hp Hc. unfold plain in Hp. apply andb_true_iff in Hp as [Hp _]. rewrite forallb_forall in Hp. by apply list_elem_of_In, Hp in Hc. }
      apply Hno. destruct link; destruct Hv as [Hn _];
        [pose proof (checked_name _ _ _ pins_known Hn) as H|pose proof (checked_name _ _ _ maps_known Hn) as H]; cbv beta in H; by apply andb_true_iff in H as [? _]. }
    assert (forall n, 0 <= n < 2 ^ 32 -> 10 ∉ to_string n) as Hnum.
    { intros n Hn. destruct (to_string_spec n) as (_ & Hd & _); [lia|]. by eapply digits_no_char. }
    assert ((10 ∉ [32]) /\ (10 ∉ str "link") /\ (10 ∉ str "map") /\ (10 ∉ ([] : list Z))) as (H1 & H2 & H3 & H4) by (split_and!; by apply (bool_decide_unpack _)).
    rewrite !not_elem_of_app. destruct link; rewrite ?not_elem_of_app; split_and!; try done; apply Hnum; tauto.
Qed.

(** ** What is removed *)

Definition matches_line (name : String.string) (e : entry) (line : bool * String.string * Z * Z) : Prop :=
  let '(link, n, id, program) := line in
  n = name /\ opens e = true /\ object_kind (fdinfo e) = (if (link : bool) then str "link" else str "map") /\
  (if link then link_info e = Some (id, program) else map_info e = Some (id, str name)).

Lemma read_recorded_lines lines recorded r name rc :
  read_recorded lines recorded = Some r -> r !! name = Some rc ->
  recorded !! name = Some rc \/ (rec_link rc, name, rec_id rc, rec_program rc) ∈ lines.
Proof.
  revert recorded. induction lines as [|[[[link n] id] prog] lines IH]; intros recorded; cbn [read_recorded]; [intros [= ->]; by left|].
  destruct (_ || _); [done|]. intros Hr Hn. destruct (IH _ Hr Hn) as [H|H]; [|right; by right].
  apply lookup_insert_Some in H as [[<- <-]|[_ H]]; [right; by left|by left].
Qed.

Lemma same_entry_line name rc e :
  same_entry name rc e = Some true -> matches_line name e (rec_link rc, name, rec_id rc, rec_program rc).
Proof.
  unfold same_entry, matches_line. destruct (opens e); [|done]. cbn [negb]. case_bool_decide as Hk; [|done]. cbn [negb].
  destruct (rec_link rc).
  - destruct (link_info e) as [[i p]|]; [|done]. cbn [mbind option_bind]. intros [= H]. bool_to_prop. by subst.
  - destruct (map_info e) as [[i m]|]; [|done]. cbn [mbind option_bind]. intros [= H]. bool_to_prop. by subst.
Qed.

Lemma check_entries_matched recorded entries :
  check_entries recorded entries = Some tt ->
  forall name e, (name, e) ∈ entries -> exists rc, recorded !! name = Some rc /\ same_entry name rc e = Some true.
Proof.
  induction entries as [|[n e'] entries IH]; [by intros _ name e ?%elem_of_nil|]. cbn [check_entries].
  destruct (recorded !! n) as [rc|] eqn:Er; [|done]. cbn [mbind option_bind]. destruct (same_entry n rc e') as [[]|] eqn:Es; [|done|done].
  intros Hc name e [[= -> ->]|Hin]%elem_of_cons; [by exists rc|by apply IH].
Qed.

(** A resumed removal that ends well removed the whole directory, and nothing that
    was not recorded: each of its entries was named by a line of the input as the
    kind, identifier and program, or map name, the kernel reports for it now, and
    is a pin of this loader. *)
Theorem discard_removes_recorded input locked entries d :
  discard_input input locked entries = Some d ->
  d = ∅ /\ exists lines, read_lines input = Some lines /\
    forall name e, (name, e) ∈ entries -> name ∈ removal_order /\ exists line, line ∈ lines /\ matches_line name e line.
Proof.
  unfold discard_input. destruct (read_lines input) as [lines|]; [|done]. cbn [mbind option_bind].
  destruct (read_recorded lines ∅) as [recorded|] eqn:Er; [|done]. cbn [mbind option_bind]. destruct (negb locked); [done|].
  destruct (check_entries recorded entries) as [[]|] eqn:Ec; [|done]. cbn [mbind option_bind]. intros Hrem.
  pose proof (check_entries_matched _ _ Ec) as Hm.
  assert (forall name, is_Some (recorded !! name) -> name ∈ removal_order) as Hk.
  { eapply read_recorded_known; [exact Er|]. intros x [? Hx]. by rewrite lookup_empty in Hx. }
  rewrite remove_pins_complete in Hrem.
  2:{ intros x Hx. apply elem_of_list_to_set, list_elem_of_fmap in Hx as ([n e] & -> & Hin). destruct (Hm n e Hin) as (rc & Hrc & _). apply Hk. by eexists. }
  injection Hrem as <-. split; [done|]. exists lines. split; [done|]. intros name e Hin. destruct (Hm name e Hin) as (rc & Hrc & Hs).
  split; [apply Hk; by eexists|]. exists (rec_link rc, name, rec_id rc, rec_program rc). split; [|by apply same_entry_line].
  destruct (read_recorded_lines _ _ _ _ _ Er Hrc) as [H|H]; [by rewrite lookup_empty in H|done].
Qed.

(** Half of a directory is left: a link and two maps. *)
Definition demo_lines : list (bool * String.string * Z * Z) := [(true, "link_attr"%string, 4, 9); (false, "stats"%string, 5, 0); (false, "paths"%string, 6, 0)].
Definition demo_entries : list (String.string * entry) :=
  [("stats"%string, {| opens := true; fdinfo := str "pos:	0" ++ [10] ++ str "map_type:	2" ++ [10] ++ str "map_id:	5"; link_info := None; map_info := Some (5, str "stats") |});
   ("link_attr"%string, {| opens := true; fdinfo := str "link_type:	tracing" ++ [10] ++ str "link_id:	4"; link_info := Some (4, 9); map_info := None |})].

Definition demo_input : list Z := concat (map (fun line => recorded_line line ++ [newline]) demo_lines).

Lemma discard_removes_recorded_witness :
  discard_input demo_input true demo_entries = Some ∅ /\
  exists lines, read_lines demo_input = Some lines /\
    forall name e, (name, e) ∈ demo_entries -> name ∈ removal_order /\ exists line, line ∈ lines /\ matches_line name e line.
Proof.
  assert (discard_input demo_input true demo_entries = Some ∅) as H by (by vm_compute).
  split; [exact H|]. apply (discard_removes_recorded demo_input true demo_entries ∅ H).
Defined.

(** A link replaced by another one, a map of another identifier, a line with a
    trailing field and an entry nobody recorded stop it. *)
Example discard_refuses :
  discard_input demo_input true (map (fun '(n, e) => (n, {| opens := true; fdinfo := fdinfo e; link_info := Some (4, 8); map_info := map_info e |})) demo_entries) = None /\
  discard_input demo_input true (("scratch"%string, {| opens := true; fdinfo := []; link_info := None; map_info := None |}) :: demo_entries) = None /\
  discard_input (str "map stats 5 9") true [] = None /\ discard_input (str "map stats -1") true [] = Some ∅ /\
  discard_input (str "map stats 4294967296") true [] = None.
Proof. split_and!; by vm_compute. Qed.
