(* ===== verification/DrainScan.v ===== *)
(** * DrainScan: reading the task iterator and the symbol table

    Models the rest of [src/src/linux/native/drain.h]: the table of kernel
    symbols read from its text, the depth cap, one pass over the iterator (the
    reads into a growing buffer, then the records in it), the proof that the
    thread filter works, and the diagnostic report.  [Drain] has what the
    samples mean; here is how they come out of the byte stream. *)
From Stdlib Require Import ZifyBool Sorted.
From S2P Require Import Prelude Kernel Policy Guard Numbers Text Drain.

(** ** Symbols *)

(** [std::stoull(address, nullptr, 16)]: a prefix of digits; [None] is an
    exception. *)
Definition stoull16 (word : list Z) : option Z :=
  let '(negative, text) := match word with
                           | c :: rest => if c =? 45 then (true, rest) else if c =? 43 then (false, rest) else (false, word)
                           | [] => (false, word)
                           end in
  let text := match text with
              | z :: x :: (d :: _) as digits =>
                  if (z =? 48) && ((x =? 120) || (x =? 88)) && is_digit_of 16 d then drop 2 text else text
              | _ => text
              end in
  let '(value, rest) := take_digits 16 text 0 in
  if (length rest =? length text)%nat then None
  else if 2 ^ 64 - 1 <? value then None
  else Some (u64 (if negative then - value else value)).

(** One line: nothing for a line of fewer fields, for a name with a bracket and
    for address zero; [None] when the address is no number. *)
Definition symbol_line (line : list Z) : option (option (Z * list Z)) :=
  match words line with
  | address :: _ :: name :: _ =>
      if bool_decide (is_Some (find_char 91 name)) then Some None
      else value ← stoull16 address; Some (if value =? 0 then None else Some (value, name))
  | _ => Some None
  end.

(** The order of [std::pair<uint64_t, std::string>]. *)
Fixpoint string_leb (a b : list Z) : bool :=
  match a, b with
  | [], _ => true
  | _ :: _, [] => false
  | x :: a, y :: b => (x <? y) || ((x =? y) && string_leb a b)
  end.

Definition symbol_leb (a b : Z * list Z) : bool := (a.1 <? b.1) || ((a.1 =? b.1) && string_leb a.2 b.2).

Fixpoint insert_symbol (s : Z * list Z) (table : list (Z * list Z)) : list (Z * list Z) :=
  match table with
  | [] => [s]
  | t :: rest => if symbol_leb s t then s :: table else t :: insert_symbol s rest
  end.

Fixpoint sort_symbols (table : list (Z * list Z)) : list (Z * list Z) :=
  match table with [] => [] | s :: rest => insert_symbol s (sort_symbols rest) end.

(** The sorted table of a kallsyms text. *)
Definition symbol_table (text : list Z) : option (list (Z * list Z)) :=
  lines ← mapM symbol_line (getlines newline text);
  Some (sort_symbols (omap id lines)).

(** [KernelSymbols::name]: the last symbol at or below an address. *)
Fixpoint symbol_below (table : list (Z * list Z)) (address : Z) (found : list Z) : list Z :=
  match table with
  | [] => found
  | (a, name) :: rest => if a <=? address then symbol_below rest address name else found
  end.

Definition symbol_name (s : KernelSymbols) (address : Z) : list Z := symbol_below (sorted s) address (str "?").

(** [depth_cap]: the entries of the buffer, or the kernel's limit below it. *)
Definition depth_cap (limit : option Z) : Z :=
  match limit with Some limit => Z.min 1024 limit | None => 1024 end.

(** ** One pass over the iterator *)

Definition kChunk : Z := 65536.

(** What one [read] gives, and the time after it. *)
Inductive reading := ReadError | Chunk (bytes : list Z) (after : Z).

Inductive scanned (A : Type) := Scan (a : A) | Expired | ScanFailed | Blocked.
Arguments Scan {A} a.
Arguments Expired {A}.
Arguments ScanFailed {A}.
Arguments Blocked {A}.

(** The size asked for next. *)
Definition asked_size (size : Z) (data : list Z) : Z := Z.min (size - Z.of_nat (length data)) kChunk.

(** The read loop: [data] is what was read so far into a buffer of [size]
    bytes.  [Blocked]: the calls given end before the stream does. *)
Fixpoint read_loop (reads : list reading) (size : Z) (data : list Z) (deadline : Z) : scanned (list Z) :=
  match reads with
  | [] => Blocked
  | ReadError :: _ => ScanFailed
  | Chunk [] _ :: _ => Scan data
  | Chunk bytes after :: rest =>
      let data := data ++ bytes in
      if deadline <? after then Expired
      else
        let size := if size - Z.of_nat (length data) <? kChunk then size * 2 else size in
        read_loop rest size data deadline
  end.

Definition kRecordBytes : nat := 40.

(** The record at the front of [data], with its number of frame bytes. *)
Definition record_at (data : list Z) : Sample * Z :=
  let field offset n := of_le (take n (drop offset data)) in
  ({| tid := field 0 4; flags := field 4 4; start_time := field 8 8; switches_before := field 16 8;
      switches_after := field 24 8; frames := [] |}%nat, field 32 8)%nat.

(** The frames in so many bytes. *)
Fixpoint words_of (n : nat) (data : list Z) : list Z :=
  match n with O => [] | S n => of_le (take 8 data) :: words_of n (drop 8 data) end.

Definition with_frames (s : Sample) (fs : list Z) : Sample :=
  {| tid := tid s; flags := flags s; start_time := start_time s; switches_before := switches_before s;
     switches_after := switches_after s; frames := fs |}.

(** [for (offset = 0; offset + sizeof(DrainRecord) <= used;)], on the bytes from
    [offset] on. *)
Fixpoint read_records (fuel : nat) (data : list Z) : scanned (list Sample) :=
  match fuel with
  | O => Blocked
  | S fuel =>
      if (length data <? kRecordBytes)%nat then Scan []
      else
        let '(s, bytes) := record_at data in
        let data := drop kRecordBytes data in
        if negb (bytes mod 8 =? 0) || (Z.of_nat (length data) <? bytes) then ScanFailed
        else
          match read_records fuel (drop (Z.to_nat bytes) data) with
          | Scan samples => Scan (with_frames s (words_of (Z.to_nat (bytes / 8)) data) :: samples)
          | r => r
          end
  end.

(** [scan_tasks], with [attached] saying whether the iterator could be
    attached. *)
Definition scan_tasks (attached : bool) (reads : list reading) (deadline : Z) : scanned (list Sample) :=
  if negb attached then ScanFailed
  else match read_loop reads kChunk [] deadline with
       | Scan data => read_records (S (length data)) data
       | Expired => Expired
       | ScanFailed => ScanFailed
       | Blocked => Blocked
       end.

(** ** The thread filter *)

(** How the helper thread fares: the two pipes, its creation, and the thread
    number it announces. *)
Record helper := { h_ready_pipe : bool; h_release_pipe : bool; h_created : bool; h_announced : option Z }.

(** A filtered scan of the helper returns exactly that thread; the helper is
    released and joined whatever the scan gave. *)
Definition thread_filter_works (h : helper) (self : Z) (scan : Z -> scanned (list Sample)) : bool :=
  if negb (h_ready_pipe h) || negb (h_release_pipe h) || negb (h_created h) then false
  else match h_announced h with
       | Some t =>
           if negb (t =? self) then
             match scan t with
             | Scan [s] => tid s =? u32 t
             | _ => false
             end
           else false
       | None => false
       end.

(** ** The report *)

Definition outcome_label (symbols : KernelSymbols) (cap : nat) (s : Sample) : list Z :=
  (match classify s cap symbols with Clear => str "clear" | Inside => str "inside" | Unknown => str "unknown" end) ++
  (if has_bits (flags s) (Z.lor TASK_EXITED TASK_SELF) then str " exited-or-self"
   else if bool_decide (frames s = []) then str " no-frames"
   else str " " ++ symbol_name symbols (List.last (frames s) 0)).

(** [counts[label]++] in a [std::map]. *)
Fixpoint count_label (label : list Z) (counts : list (list Z * Z)) : list (list Z * Z) :=
  match counts with
  | [] => [(label, 1)]
  | (l, n) :: rest =>
      if bool_decide (l = label) then (l, n + 1) :: rest
      else if string_leb label l then (label, 1) :: counts
      else (l, n) :: count_label label rest
  end.

Definition count_samples (symbols : KernelSymbols) (cap : nat) (samples : list Sample) : list (list Z * Z) :=
  foldl (fun counts s => count_label (outcome_label symbols cap s) counts) [] samples.

Definition report_lines (counts : list (list Z * Z)) : list (list Z) :=
  map (fun e => to_string e.2 ++ [32] ++ e.1) counts.

(** [drain_report]: [None] is a failure.  [iterator] says whether the program was
    found; [scan_seconds] and [probe_seconds] are the two times as they are printed. *)
Definition drain_report (symbols : KernelSymbols) (limit : option Z) (iterator attached : bool) (reads : list reading) (deadline : Z)
  (filter : bool) (scan_seconds probe_seconds : list Z) : option (list (list Z)) :=
  if negb iterator then None
  else match scan_tasks attached reads deadline with
       | Scan samples =>
           Some ((str "tasks=" ++ to_string (Z.of_nat (length samples)) ++ str " full_scan_seconds=" ++ scan_seconds ++ str " thread_filter=" ++
                  (if filter then str "works" else str "unavailable") ++ str " thread_probe_seconds=" ++ probe_seconds) ::
                 report_lines (count_samples symbols (Z.to_nat (depth_cap limit)) samples))
       | _ => None
       end.

(** ** Records: theorems *)

(** A sample as [drain_tasks] writes it: the record, then its frames. *)
Definition encode_sample (s : Sample) : list Z :=
  to_le 4 (tid s) ++ to_le 4 (flags s) ++ to_le 8 (start_time s) ++ to_le 8 (switches_before s) ++
  to_le 8 (switches_after s) ++ to_le 8 (8 * Z.of_nat (length (frames s))) ++ concat (map (to_le 8) (frames s)).

(** The widths of the record's fields. *)
Record sample_ok (s : Sample) : Prop := {
  ok_tid : 0 <= tid s < 2 ^ 32; ok_flags : 0 <= flags s < 2 ^ 32; ok_start : 0 <= start_time s < 2 ^ 64;
  ok_before : 0 <= switches_before s < 2 ^ 64; ok_after : 0 <= switches_after s < 2 ^ 64;
  ok_length : 8 * Z.of_nat (length (frames s)) < 2 ^ 64; ok_frames : Forall (fun f => 0 <= f < 2 ^ 64) (frames s)
}.

Lemma length_frames (fs : list Z) : length (concat (map (to_le 8) fs)) = (8 * length fs)%nat.
Proof. induction fs as [|f fs IH]; cbn [map concat length]; [done|]. rewrite length_app, length_to_le, IH. lia. Qed.

Lemma words_of_encoded fs rest :
  Forall (fun f => 0 <= f < 2 ^ 64) fs -> words_of (length fs) (concat (map (to_le 8) fs) ++ rest) = fs.
Proof.
  induction 1 as [|f fs Hf _ IH]; [done|]. cbn [map concat length words_of]. rewrite <- app_assoc.
  change (take 8 (to_le 8 f ++ ?x)) with (to_le 8 f). change (drop 8 (to_le 8 f ++ ?x)) with x.
  rewrite IH. f_equal. by apply of_le_to_le.
Qed.

Lemma record_at_encoded s rest :
  sample_ok s ->
  record_at (encode_sample s ++ rest) = (with_frames s [], 8 * Z.of_nat (length (frames s))) /\
  drop kRecordBytes (encode_sample s ++ rest) = concat (map (to_le 8) (frames s)) ++ rest.
Proof.
  intros [H1 H2 H3 H4 H5 H6 H7]. split; [|done].
  transitivity ({| tid := of_le (to_le 4 (tid s)); flags := of_le (to_le 4 (flags s));
                   start_time := of_le (to_le 8 (start_time s)); switches_before := of_le (to_le 8 (switches_before s));
                   switches_after := of_le (to_le 8 (switches_after s)); frames := [] |},
                of_le (to_le 8 (8 * Z.of_nat (length (frames s))))); [reflexivity|].
  rewrite !of_le_to_le; [done|..]; change (256 ^ Z.of_nat 4) with (2 ^ 32); change (256 ^ Z.of_nat 8) with (2 ^ 64); lia.
Qed.

Lemma read_records_encoded fuel samples rest :
  Forall sample_ok samples -> (length rest < kRecordBytes)%nat -> (length samples < fuel)%nat ->
  read_records fuel (concat (map encode_sample samples) ++ rest) = Scan samples.
Proof.
  intros Hok Hr. revert fuel. induction Hok as [|s samples Hs Hok IH]; intros fuel Hf; (destruct fuel as [|fuel]; [simpl in Hf; lia|]).
  { cbn [map concat app read_records]. by rewrite (proj2 (Nat.ltb_lt _ _)). }
  cbn [map concat]. rewrite <- app_assoc. set (more := concat (map encode_sample samples) ++ rest) in *.
  destruct (record_at_encoded s more Hs) as [Er Ed]. cbn [read_records].
  rewrite (proj2 (Nat.ltb_ge _ _)).
  2: { rewrite length_app. unfold encode_sample. rewrite !length_app, !length_to_le. unfold kRecordBytes. lia. }
  rewrite Er, Ed. rewrite Z.mul_comm, Z.mod_mul, Z.div_mul by lia. cbn [Z.eqb negb orb].
  rewrite (proj2 (Z.ltb_ge _ _)) by (rewrite length_app, length_frames; lia).
  replace (Z.to_nat (Z.of_nat (length (frames s)) * 8)) with (length (concat (map (to_le 8) (frames s)))) by (rewrite length_frames; lia).
  rewrite drop_app_length. unfold more. rewrite IH by (simpl in Hf; lia). f_equal. f_equal.
  rewrite Nat2Z.id, words_of_encoded by apply Hs. by destruct s.
Qed.

(** ** Reads: theorems *)

(** Reads that end before the deadline and then report the end. *)
Definition stream_reads (chunks : list (list Z * Z)) (more : list reading) : list reading :=
  map (fun c => Chunk c.1 c.2) chunks ++ Chunk [] 0 :: more.

Lemma read_loop_stream chunks more size data deadline :
  Forall (fun c => c.1 <> [] /\ c.2 <= deadline) chunks ->
  read_loop (stream_reads chunks more) size data deadline = Scan (data ++ concat (map fst chunks)).
Proof.
  intros Hc. revert size data. induction Hc as [|[bytes t] chunks [Hb Ht] _ IH]; intros size data.
  { simpl. by rewrite app_nil_r. }
  unfold stream_reads. cbn [map app fst snd read_loop]. destruct bytes as [|b bytes]; [done|]. simpl in Ht.
  rewrite (proj2 (Z.ltb_ge _ _)) by lia. fold (stream_reads chunks more). rewrite IH. cbn [concat map fst]. by rewrite <- app_assoc.
Qed.

(** The sizes asked for in the loop, when a read returns at most what was asked
    for; the buffer always has room for a whole chunk, so a read of nothing is the
    end of the stream and nothing is written past the buffer. *)
Fixpoint asks (chunks : list (list Z)) (size : Z) (data : list Z) : list (Z * Z) :=
  let ask := asked_size size data in
  (ask, size - Z.of_nat (length data)) ::
  match chunks with
  | [] => []
  | bytes :: rest =>
      let data := data ++ take (Z.to_nat ask) bytes in
      asks rest (if size - Z.of_nat (length data) <? kChunk then size * 2 else size) data
  end.

Lemma kChunk_positive : 0 < kChunk.
Proof. done. Qed.

#[local] Opaque kChunk.

Theorem reads_have_room chunks size data :
  kChunk <= size - Z.of_nat (length data) -> kChunk <= size ->
  Forall (fun a => a.1 = kChunk /\ kChunk <= a.2) (asks chunks size data).
Proof.
  revert size data. induction chunks as [|bytes chunks IH]; intros size data Hs Hk; cbn [asks].
  - constructor; [|constructor]. unfold asked_size. simpl. lia.
  - constructor; [unfold asked_size; simpl; lia|]. unfold asked_size. rewrite Z.min_r by done.
    pose proof kChunk_positive as Hpos.
    pose proof (firstn_le_length (Z.to_nat kChunk) bytes) as Ht.
    destruct (_ <? kChunk) eqn:E; bool_to_prop; apply IH; rewrite ?length_app in *; lia.
Qed.

Lemma encoded_length samples rest : (length samples < S (length (concat (map encode_sample samples) ++ rest)))%nat.
Proof.
  rewrite length_app. induction samples as [|s samples IH]; cbn [map concat length]; [lia|]. rewrite length_app.
  unfold encode_sample at 1. rewrite !length_app, !length_to_le. lia.
Qed.

(** However the kernel cuts the iterator's stream into reads, and whatever
    shorter remainder follows the last record, a pass that ends in time returns
    exactly the samples the sampling program wrote, frames included; so the
    settling decision is made on what the kernel observed. *)
Theorem samples_read_back samples rest chunks more deadline :
  Forall sample_ok samples -> (length rest < kRecordBytes)%nat ->
  Forall (fun c => c.1 <> [] /\ c.2 <= deadline) chunks ->
  concat (map fst chunks) = concat (map encode_sample samples) ++ rest ->
  scan_tasks true (stream_reads chunks more) deadline = Scan samples.
Proof.
  intros Hok Hr Hc Ec. unfold scan_tasks. cbn [negb]. rewrite read_loop_stream, Ec by done. cbn [app].
  apply read_records_encoded; [done..|]. by apply encoded_length.
Qed.

Definition demo_sample : Sample := Demo.busy.
Definition demo_stream : list Z := encode_sample demo_sample ++ [1; 2; 3].

Lemma samples_read_back_witness :
  scan_tasks true (stream_reads [(take 25 demo_stream, 4); (drop 25 demo_stream, 5)] []) 10 = Scan [demo_sample].
Proof.
  apply (samples_read_back [demo_sample] [1; 2; 3]).
  - constructor; [|constructor]. change demo_sample with
      {| tid := 7; flags := 0; start_time := 1; switches_before := 5; switches_after := 5; frames := [50; 20] |}.
    split; cbn [tid flags start_time switches_before switches_after frames length]; try lia.
    constructor; [lia|]. constructor; [lia|]. constructor.
  - unfold kRecordBytes. simpl. lia.
  - constructor; [split; [done|cbn [snd]; lia]|]. constructor; [split; [done|cbn [snd]; lia]|]. constructor.
  - by vm_compute.
Defined.

(** The records are always read to the end of the fuel given in [scan_tasks]: the
    decoding ends, with the samples or with the truncation error. *)
Lemma read_records_total fuel data : (length data < fuel)%nat -> read_records fuel data <> Blocked.
Proof.
  revert data. induction fuel as [|fuel IH]; intros data Hf; [lia|]. cbn [read_records].
  destruct (length data <? kRecordBytes)%nat eqn:E; [done|]. bool_to_prop. destruct (record_at data) as [s bytes].
  destruct (_ || _); [done|].
  assert (length (drop (Z.to_nat bytes) (drop kRecordBytes data)) < fuel)%nat as Hd.
  { rewrite !length_drop. unfold kRecordBytes in *. lia. }
  specialize (IH _ Hd). by destruct (read_records fuel _).
Qed.

(** ** Symbols: theorems *)

Lemma insert_symbol_perm s table : insert_symbol s table ≡ₚ s :: table.
Proof.
  induction table as [|t table IH]; simpl; [done|]. destruct (symbol_leb s t); [done|]. rewrite IH. constructor.
Qed.

Lemma sort_symbols_perm table : sort_symbols table ≡ₚ table.
Proof. induction table as [|s table IH]; simpl; [done|]. by rewrite insert_symbol_perm, IH. Qed.

(** Addresses in order. *)
Definition ascending (table : list (Z * list Z)) : Prop := StronglySorted (fun a b => a.1 <= b.1) table.

Lemma symbol_leb_address a b : symbol_leb a b = true -> a.1 <= b.1.
Proof. unfold symbol_leb. destruct (string_leb _ _); lia. Qed.

Lemma symbol_nleb_address a b : symbol_leb a b = false -> b.1 <= a.1.
Proof. unfold symbol_leb. destruct (string_leb _ _); lia. Qed.

Lemma insert_ascending s table : ascending table -> ascending (insert_symbol s table).
Proof.
  induction 1 as [|t table Hs IH Hf]; simpl; [repeat constructor|]. destruct (symbol_leb s t) eqn:E.
  - apply symbol_leb_address in E. constructor; [by constructor|]. constructor; [done|].
    revert Hf. apply Forall_impl. intros x Hx. lia.
  - apply symbol_nleb_address in E. constructor; [done|]. rewrite list.Forall_forall in *. intros x Hx.
    rewrite insert_symbol_perm in Hx. apply elem_of_cons in Hx as [->|Hx]; [done|]. by apply Hf.
Qed.

Lemma sort_ascending table : ascending (sort_symbols table).
Proof. induction table as [|s table IH]; simpl; [constructor|]. by apply insert_ascending. Qed.

(** A name stands for its lowest address. *)
Theorem find_symbol_lowest table name :
  let a := find_symbol (sort_symbols table) name in
  (forall b, (b, name) ∈ table -> a <= b) /\ ((exists b, (b, name) ∈ table) -> (a, name) ∈ table).
Proof.
  cbv zeta. assert (forall l, ascending l -> (forall b, (b, name) ∈ l -> find_symbol l name <= b) /\
    ((exists b, (b, name) ∈ l) -> (find_symbol l name, name) ∈ l)) as H.
  { induction 1 as [|[a n] l Hs [IH1 IH2] Hf]; [split; [set_solver|by intros [b Hb%not_elem_of_nil]]|]. cbn [find_symbol].
    case_bool_decide as E.
    - subst n. split; [|intros _; apply elem_of_cons; by left].
      intros b [Hb|Hb]%elem_of_cons; [injection Hb as ->; lia|].
      rewrite list.Forall_forall in Hf. exact (Hf _ Hb).
    - split; [|intros [b Hb]; apply elem_of_cons; right; apply IH2; exists b].
      + intros b [Hb|Hb]%elem_of_cons; [congruence|by apply IH1].
      + apply elem_of_cons in Hb as [Hb|Hb]; [congruence|done]. }
  destruct (H (sort_symbols table) (sort_ascending table)) as [H1 H2].
  pose proof (fun x => elem_of_Permutation_proper x _ _ (sort_symbols_perm table)) as Hp. split.
  - intros b Hb. apply H1. by apply Hp.
  - intros [b Hb]. apply Hp, H2. exists b. by apply Hp.
Qed.

(** The bracket test looks at the third field, and a module's tag is the fourth:
    a module's symbols are not left out. *)
Example module_symbols_kept :
  symbol_line (str "ffffffffc0001000 t helper [module]") = Some (Some (18446744072635813888, str "helper")).
Proof. by vm_compute. Qed.

(** ** The report: theorem *)

Definition total_counts (counts : list (list Z * Z)) : Z := foldr (fun e n => e.2 + n) 0 counts.

Lemma count_label_total label counts : total_counts (count_label label counts) = total_counts counts + 1.
Proof.
  induction counts as [|[l n] counts IH]; simpl; [done|]. case_bool_decide; simpl; [lia|].
  destruct (string_leb label l); simpl in *; lia.
Qed.

(** Every sample is counted once. *)
Theorem report_counts_all symbols cap samples :
  total_counts (count_samples symbols cap samples) = Z.of_nat (length samples).
Proof.
  unfold count_samples. assert (forall counts, total_counts (foldl (fun counts s => count_label (outcome_label symbols cap s) counts) counts samples)
    = total_counts counts + Z.of_nat (length samples)) as H; [|apply H].
  induction samples as [|s samples IH]; intros counts; cbn [foldl length]; [lia|]. rewrite IH, count_label_total. lia.
Qed.

(** *** The order of the labels *)

Lemma string_leb_total a b : string_leb a b = false -> string_leb b a = true.
Proof.
  revert b. induction a as [|x a IH]; intros [|y b]; simpl; try done. specialize (IH b).
  destruct (Z.ltb_spec x y), (Z.ltb_spec y x), (Z.eqb_spec x y), (Z.eqb_spec y x); simpl; try done; try lia.
Qed.

Lemma string_leb_antisym a b : string_leb a b = true -> string_leb b a = true -> a = b.
Proof.
  revert b. induction a as [|x a IH]; intros [|y b]; simpl; try done. specialize (IH b).
  destruct (Z.ltb_spec x y), (Z.ltb_spec y x), (Z.eqb_spec x y), (Z.eqb_spec y x); simpl; try done; try lia. subst. intros. by rewrite IH.
Qed.

Lemma string_leb_trans a b c : string_leb a b = true -> string_leb b c = true -> string_leb a c = true.
Proof.
  revert b c. induction a as [|x a IH]; intros [|y b] [|z c]; simpl; try done. specialize (IH b c).
  destruct (Z.ltb_spec x y), (Z.ltb_spec y z), (Z.ltb_spec x z), (Z.eqb_spec x y), (Z.eqb_spec y z), (Z.eqb_spec x z); simpl; try done; try lia; auto.
Qed.

Definition label_before (a b : list Z * Z) : Prop := string_leb a.1 b.1 = true /\ a.1 <> b.1.

(** How often a label was counted. *)
Definition tally (label : list Z) (counts : list (list Z * Z)) : Z :=
  foldr (fun e n => (if bool_decide (e.1 = label) then e.2 else 0) + n) 0 counts.

Lemma count_label_tally l label counts : tally l (count_label label counts) = tally l counts + if bool_decide (label = l) then 1 else 0.
Proof.
  induction counts as [|[k n] counts IH]; simpl; [repeat case_bool_decide; lia|].
  destruct (decide (k = label)) as [->|Hne]; [rewrite (bool_decide_true (label = label)) by done; simpl; repeat case_bool_decide; lia|].
  rewrite (bool_decide_false (k = label)) by done. destruct (string_leb label k); simpl; [repeat case_bool_decide; lia|]. rewrite IH. lia.
Qed.

Lemma count_label_sorted label counts : StronglySorted label_before counts -> StronglySorted label_before (count_label label counts).
Proof.
  assert (forall (P : list Z * Z -> Prop) l, Forall P l -> (forall n, P (label, n)) -> (forall a n m, P (a, n) -> P (a, m)) -> Forall P (count_label label l)) as Hall.
  { intros P l Hl Hp Hc. induction Hl as [|[k n] l Hk Hl IH]; simpl; [by constructor|]. case_bool_decide; [constructor; [by eapply Hc|done]|].
    destruct (string_leb label k); by repeat constructor. }
  induction 1 as [|[k n] l Hs IH Hf]; simpl; [repeat constructor|]. case_bool_decide as E; [by constructor|].
  destruct (string_leb label k) eqn:El.
  - constructor; [by constructor|]. constructor; [split; simpl; congruence|]. revert Hf. apply List.Forall_impl. intros [j m] [H1 H2].
    simpl in *. split; simpl; [by eapply string_leb_trans|]. intros ->. by destruct E; apply string_leb_antisym.
  - constructor; [done|]. apply Hall; [done| |done]. intros m. split; simpl; [by apply string_leb_total|done].
Qed.

(** The report of a pass that ends in time has a line for every kind of outcome that
    occurs, with the number of tasks it occurs for; a kind is not listed twice. *)
Theorem drain_report_exact symbols limit samples rest chunks more deadline filter s1 s2 :
  Forall sample_ok samples -> (length rest < kRecordBytes)%nat ->
  Forall (fun c => c.1 <> [] /\ c.2 <= deadline) chunks ->
  concat (map fst chunks) = concat (map encode_sample samples) ++ rest ->
  exists header counts,
    drain_report symbols limit true true (stream_reads chunks more) deadline filter s1 s2 = Some (header :: report_lines counts) /\
    StronglySorted label_before counts /\
    forall label, tally label counts =
      Z.of_nat (length (List.filter (fun s => bool_decide (outcome_label symbols (Z.to_nat (depth_cap limit)) s = label)) samples)).
Proof.
  intros Hok Hr Hc Ec. set (cap := Z.to_nat (depth_cap limit)). eexists _, (count_samples symbols cap samples). split.
  - unfold drain_report. cbn [negb]. assert (scan_tasks true (stream_reads chunks more) deadline = Scan samples) as ->; [|done].
    unfold scan_tasks. cbn [negb]. rewrite read_loop_stream, Ec by done. cbn [app]. apply read_records_encoded; [done..|]. by apply encoded_length.
  - unfold count_samples. assert (forall counts, StronglySorted label_before counts ->
      let counts' := foldl (fun counts s => count_label (outcome_label symbols cap s) counts) counts samples in
      StronglySorted label_before counts' /\ forall label, tally label counts' =
        tally label counts + Z.of_nat (length (List.filter (fun s => bool_decide (outcome_label symbols cap s = label)) samples))) as H; [|apply (H []); constructor].
    clear. induction samples as [|s samples IH]; intros counts Hs; [split; [done|]; intros label; simpl; lia|]. cbn [foldl].
    destruct (IH (count_label (outcome_label symbols cap s) counts)) as [H1 H2]; [by apply count_label_sorted|]. split; [done|].
    intros label. rewrite H2, count_label_tally. cbn [List.filter]. case_bool_decide; cbn [length]; lia.
Qed.
