(* ===== verification/Mounts.v ===== *)
(** * Mounts: the kernel's device number of a file

    Models [kernel_device] of [src/src/linux/native/bpf-loader.cpp]: the guard
    compares superblock device numbers, which the loader takes from the mount
    table.  The theorem is that it reads back what the kernel printed there. *)
From S2P Require Import Prelude Numbers Loader Text.

Record file_stat := { st_dev : Z; st_ino : Z; st_mode : Z; st_uid : Z }.

(** The components [std::filesystem::path] compares: repeated separators count
    once, a final one as an empty name. *)
Definition path_parts (text : list Z) : list (list Z) :=
  let items := components text in
  let names := filter (fun item => item <> []) items in
  names ++ if bool_decide (names <> []) && bool_decide (List.last items [] = []) then [[]] else [].

Definition path_eq (a b : list Z) : bool :=
  eqb (is_absolute a) (is_absolute b) && bool_decide (path_parts a = path_parts b).

(** ** The kernel's device number *)

(** The mount table's octal escapes undone; [std::stoi] reads the octal digits
    it finds and throws when there is none. *)
Fixpoint decode_point (point : list Z) : option (list Z) :=
  match point with
  | [] => Some []
  | c :: rest =>
      match rest with
      | x :: y :: z :: rest' =>
          if (c =? 92) && is_digit x then
            let '(value, unread) := take_digits 8 [x; y; z] 0 in
            if (length unread =? 3)%nat then None else cons (u8 value) <$> decode_point rest'
          else cons c <$> decode_point rest
      | _ => cons c <$> decode_point rest
      end
  end.

Definition covers (path decoded : list Z) : bool :=
  bool_decide (decoded = str "/") || path_eq path decoded || starts_with (decoded ++ [47]) path.

(** The loop over the mount table: the point and the device of the last of the
    longest mount points above [path]. *)
Fixpoint best_mount (path : list Z) (lines : list (list Z)) (best : list Z * list Z) : option (list Z * list Z) :=
  match lines with
  | [] => Some best
  | line :: lines =>
      match words line with
      | _ :: _ :: device :: _ :: point :: _ =>
          decoded ← decode_point point;
          best_mount path lines
            (if covers path decoded && (length best.1 <=? length decoded)%nat then (decoded, device) else best)
      | _ => best_mount path lines best
      end
  end.

(** glibc's [major] and [minor]. *)
Definition major (dev : Z) : Z :=
  Z.lor (Z.shiftr (Z.land dev 0xfff00) 8) (Z.shiftr (Z.land dev 0xfffff00000000000) 32).
Definition minor (dev : Z) : Z := Z.lor (Z.land dev 0xff) (Z.shiftr (Z.land dev 0xffffff00000) 12).

Definition mountinfo : list Z := str "/proc/self/mountinfo".

(** What [kernel_device] makes of the table's text. *)
Definition device_in (c23 : bool) (table path : list Z) (st : file_stat) : option Z :=
  '(point, device) ← best_mount path (getlines newline table) ([], []);
  match find_char 58 device with
  | Some colon =>
      if bool_decide (point = []) then Some (Z.lor (Z.shiftl (major (st_dev st)) 20) (minor (st_dev st)))
      else
        first ← number c23 (take colon device);
        second ← number c23 (drop (S colon) device);
        Some (Z.lor (Z.shiftl first 20) second)
  | None => Some (Z.lor (Z.shiftl (major (st_dev st)) 20) (minor (st_dev st)))
  end.


(** ** Reading back what the kernel printed *)

(** A mount, and the line [/proc/self/mountinfo] shows of it: the root and the
    point with blanks, newlines and backslashes in octal. *)
Record mount := {
  m_id : Z; m_parent : Z; m_major : Z; m_minor : Z; m_root : list Z; m_point : list Z; m_rest : list Z
}.

Definition escaped (c : Z) : bool := (c =? 32) || (c =? 9) || (c =? 10) || (c =? 92).
Definition escape (text : list Z) : list Z :=
  concat (map (fun c => if escaped c then [92; 48 + c / 64; 48 + (c / 8) mod 8; 48 + c mod 8] else [c]) text).

Definition show_mount (m : mount) : list Z :=
  to_string (m_id m) ++ 32 :: to_string (m_parent m) ++ 32 ::
  (to_string (m_major m) ++ 58 :: to_string (m_minor m)) ++ 32 :: escape (m_root m) ++ 32 :: escape (m_point m) ++
  32 :: m_rest m.
Definition show_mounts (ms : list mount) : list Z := concat (map (fun line => line ++ [newline]) (map show_mount ms)).

(** The kernel's [s_dev]: [MKDEV(major, minor)]. *)
Definition superblock_device (m : mount) : Z := m_major m * 2 ^ 20 + m_minor m.

(** A mount whose paths have no control character the table leaves as it is. *)
Record plain_mount (m : mount) : Prop := {
  plain_ids : 0 <= m_id m < 2 ^ 32 /\ 0 <= m_parent m < 2 ^ 32;
  plain_device : 0 <= m_major m < 2 ^ 12 /\ 0 <= m_minor m < 2 ^ 20;
  plain_root : m_root m <> [] /\ Forall (fun c => is_byte c /\ ~ 11 <= c <= 13) (m_root m);
  plain_point : m_point m <> [] /\ Forall (fun c => is_byte c /\ ~ 11 <= c <= 13) (m_point m);
  plain_rest : newline ∉ m_rest m
}.

Lemma decode_escaped c rest : escaped c = true ->
  decode_point (92 :: 48 + c / 64 :: 48 + (c / 8) mod 8 :: 48 + c mod 8 :: rest) = cons c <$> decode_point rest.
Proof.
  unfold escaped. intros H. assert (c = 32 \/ c = 9 \/ c = 10 \/ c = 92) as Hc.
  { repeat (apply orb_true_iff in H as [H|H]); bool_to_prop; tauto. }
  destruct Hc as [-> | [-> | [-> | ->] ] ]; done.
Qed.

Lemma decode_plain c rest : c <> 92 -> decode_point (c :: rest) = cons c <$> decode_point rest.
Proof.
  intros Hc. destruct rest as [|x [|y [|z rest]]]; try done. cbn [decode_point].
  by rewrite (proj2 (Z.eqb_neq c 92)).
Qed.

(** The loader undoes the kernel's escapes. *)
Lemma decode_escape text : decode_point (escape text) = Some text.
Proof.
  unfold escape. induction text as [|c text IH]; [done|]. cbn [map concat].
  destruct (escaped c) eqn:E; cbn [app].
  - by rewrite decode_escaped, IH.
  - rewrite decode_plain, IH; [done|]. intros ->. done.
Qed.

Lemma escape_words text :
  text <> [] -> Forall (fun c => is_byte c /\ ~ 11 <= c <= 13) text ->
  escape text <> [] /\ forallb (fun c => negb (is_space c)) (escape text) = true.
Proof.
  intros Hne Ht. split.
  { destruct text as [|c text]; [done|]. unfold escape. cbn [map concat]. by destruct (escaped c). }
  clear Hne. unfold escape. induction Ht as [|c text [Hb Hc] _ IH]; [done|]. cbn [map concat]. rewrite forallb_app, IH.
  destruct (escaped c) eqn:E; cbn [forallb]; unfold is_space.
  - rewrite !andb_true_r. unfold is_byte in Hb. pose proof (Z.mod_pos_bound (c / 8) 8). pose proof (Z.mod_pos_bound c 8).
    assert (0 <= c / 64) by (apply Z.div_pos; lia). cbn.
    rewrite !(proj2 (Z.leb_gt _ 13)), !(proj2 (Z.eqb_neq _ 32)) by lia. by rewrite !andb_false_r.
  - unfold escaped in E. bool_to_prop. rewrite (proj2 (Z.eqb_neq c 32)) by done.
    destruct ((9 <=? c) && (c <=? 13)) eqn:E2; [|done]. bool_to_prop. lia.
Qed.

Lemma escape_no_newline text : Forall is_byte text -> newline ∉ escape text.
Proof.
  unfold escape. induction 1 as [|c text Hb _ IH]; [apply not_elem_of_nil|]. cbn [map concat].
  rewrite not_elem_of_app. split; [|done]. unfold newline, is_byte in *.
  pose proof (Z.mod_pos_bound (c / 8) 8). pose proof (Z.mod_pos_bound c 8). assert (0 <= c / 64) by (apply Z.div_pos; lia).
  destruct (escaped c) eqn:E; rewrite ?not_elem_of_cons; repeat split; try apply not_elem_of_nil; try lia.
  intros <-. done.
Qed.

Definition show_device (m : mount) : list Z := to_string (m_major m) ++ 58 :: to_string (m_minor m).

Lemma to_string_word n :
  0 <= n < 2 ^ 64 -> to_string n <> [] /\ forallb is_digit (to_string n) = true /\
  forallb (fun c => negb (is_space c)) (to_string n) = true.
Proof. intros Hn. destruct (to_string_spec n Hn) as (? & ? & _). eauto using digits_no_space. Qed.

Lemma show_words m : plain_mount m ->
  words (show_mount m) =
    to_string (m_id m) :: to_string (m_parent m) :: show_device m :: escape (m_root m) :: escape (m_point m) :: words (m_rest m).
Proof.
  intros [[I1 I2] [D1 D2] [R1 R2] [P1 P2] _]. unfold show_mount. fold (show_device m).
  destruct (to_string_word (m_id m)) as (? & _ & ?); [lia|]. destruct (to_string_word (m_parent m)) as (? & _ & ?); [lia|].
  destruct (to_string_word (m_major m)) as (Hne & _ & Hj); [lia|]. destruct (to_string_word (m_minor m)) as (_ & _ & Hi); [lia|].
  destruct (escape_words _ R1 R2). destruct (escape_words _ P1 P2).
  assert (show_device m <> [] /\ forallb (fun c => negb (is_space c)) (show_device m) = true) as [??].
  { unfold show_device. split; [intros Hn; by apply app_eq_nil in Hn as [? _]|].
    rewrite forallb_app, Hj. cbn [forallb]. by rewrite Hi. }
  do 5 rewrite words_word by assumption. reflexivity.
Qed.

Lemma show_no_newline m : plain_mount m -> newline ∉ show_mount m.
Proof.
  intros [[I1 I2] [D1 D2] [R1 R2] [P1 P2] Hr]. unfold show_mount.
  assert (forall n, 0 <= n < 2 ^ 64 -> newline ∉ to_string n) as Hs.
  { intros n Hn. apply digits_no_char; [by apply to_string_word|done]. }
  assert (forall text, Forall (fun c => is_byte c /\ ~ 11 <= c <= 13) text -> newline ∉ escape text) as He.
  { intros text Ht. apply escape_no_newline. eapply list.Forall_impl; [exact Ht|]. naive_solver. }
  repeat match goal with
  | |- _ ∉ _ ++ _ => apply not_elem_of_app; split
  | |- _ ∉ _ :: _ => apply not_elem_of_cons; split
  | |- _ ∉ to_string _ => apply Hs; lia
  | |- _ ∉ escape _ => by apply He
  end; done.
Qed.

(** One turn of the loop, on the mount a line shows. *)
Definition better (path : list Z) (best : list Z * list Z) (m : mount) : list Z * list Z :=
  if covers path (m_point m) && (length best.1 <=? length (m_point m))%nat then (m_point m, show_device m) else best.

Lemma best_mount_show path ms best :
  Forall plain_mount ms -> best_mount path (map show_mount ms) best = Some (foldl (better path) best ms).
Proof.
  intros Hp. revert best. induction Hp as [|m ms Hm _ IH]; intros best; [done|]. cbn [map best_mount foldl].
  rewrite show_words by done. rewrite decode_escape. cbn [mbind option_bind]. by rewrite IH.
Qed.

Lemma better_before path ms best n :
  (forall m, m ∈ ms -> covers path (m_point m) = true -> (length (m_point m) <= n)%nat) -> (length best.1 <= n)%nat ->
  (length (foldl (better path) best ms).1 <= n)%nat.
Proof.
  revert best. induction ms as [|m ms IH]; intros best Hm Hb; [done|]. cbn [foldl]. apply IH.
  - intros m' Hin. apply Hm. by right.
  - unfold better. destruct (covers path (m_point m)) eqn:E; [|done]. destruct (_ <=? _)%nat; [|done].
    apply Hm; [by left|done].
Qed.

Lemma better_after path ms best :
  (forall m, m ∈ ms -> covers path (m_point m) = true -> (length (m_point m) < length best.1)%nat) ->
  foldl (better path) best ms = best.
Proof.
  induction ms as [|m ms IH]; intros Hm; [done|]. cbn [foldl]. assert (better path best m = best) as ->.
  { unfold better. destruct (covers path (m_point m)) eqn:E; [|done].
    specialize (Hm m ltac:(by left) E). by rewrite (proj2 (Nat.leb_gt _ _)) by lia. }
  apply IH. intros m' Hin. apply Hm. by right.
Qed.

(** C16: the loader reads the kernel's own device number of a file from the
    mount table: of the mounts whose point is above the path, that of the
    longest point, the last listed among several mounted over each other,
    whatever the paths in the table contain that the kernel escapes. *)
Theorem device_read_back c23 before m after path st :
  Forall plain_mount (before ++ m :: after) -> covers path (m_point m) = true ->
  (forall m', m' ∈ before -> covers path (m_point m') = true -> (length (m_point m') <= length (m_point m))%nat) ->
  (forall m', m' ∈ after -> covers path (m_point m') = true -> (length (m_point m') < length (m_point m))%nat) ->
  device_in c23 (show_mounts (before ++ m :: after)) path st = Some (superblock_device m).
Proof.
  intros Hp Hc Hb Ha. unfold device_in, show_mounts. rewrite getlines_lines.
  2: { apply List.Forall_map. eapply list.Forall_impl; [exact Hp|]. apply show_no_newline. }
  rewrite best_mount_show by done. cbn [mbind option_bind]. rewrite foldl_app. cbn [foldl].
  assert (better path (foldl (better path) ([], []) before) m = (m_point m, show_device m)) as ->.
  { unfold better at 1. rewrite Hc, (proj2 (Nat.leb_le _ _)); [done|]. apply better_before; [done|cbn; lia]. }
  rewrite better_after by done. apply list.Forall_app in Hp as [_ Hp]. apply list.Forall_cons in Hp as [[_ [D1 D2] _ [P1 _] _] _].
  destruct (to_string_word (m_major m)) as (_ & Hd & _); [lia|].
  unfold show_device. rewrite find_char_first by (by apply digits_no_char). rewrite bool_decide_false by done.
  rewrite take_app_length, drop_past. rewrite !number_to_string by lia. cbn [mbind option_bind]. f_equal.
  rewrite Z.shiftl_mul_pow2 by lia. rewrite lor_mul_low by lia. done.
Qed.

(** ** A concrete table *)

Definition demo_mount (id : Z) (point : list Z) (device : Z) : mount :=
  {| m_id := id; m_parent := 1; m_major := 0; m_minor := device; m_root := str "/"; m_point := point;
     m_rest := str "rw shared:1 - tmpfs tmpfs rw" |}.
Definition demo_stat : file_stat := {| st_dev := 77; st_ino := 5; st_mode := 16877; st_uid := 0 |}.

(** Decides that a concrete path is plain. *)
Ltac plain_text := unfold is_byte; apply (bool_decide_unpack (Forall _ _)); vm_compute; exact I.

Lemma demo_mount_plain id point device :
  0 <= id < 2 ^ 32 -> 0 <= device < 2 ^ 20 -> point <> [] -> Forall (fun c => is_byte c /\ ~ 11 <= c <= 13) point ->
  plain_mount (demo_mount id point device).
Proof.
  intros Hi Hd Hn Hp. split; cbn [m_id m_parent m_major m_minor m_root m_point m_rest demo_mount]; try lia; try done.
  - split; [done|]. plain_text.
  - apply (bool_decide_unpack (newline ∉ _)). by vm_compute.
Qed.

Lemma device_read_back_witness :
  device_in true (show_mounts [demo_mount 20 (str "/") 30; demo_mount 21 (str "/run/user/1 0") 40; demo_mount 22 (str "/mnt") 50])
    (str "/run/user/1 0/x") demo_stat = Some 40.
Proof.
  apply (device_read_back true [_] (demo_mount 21 (str "/run/user/1 0") 40) [_]).
  - repeat apply list.Forall_cons_2; [..|apply list.Forall_nil_2]; apply demo_mount_plain; try lia; try done; plain_text.
  - by vm_compute.
  - intros m' Hm _. apply list_elem_of_singleton in Hm as ->. cbn. lia.
  - intros m' Hm Hc. apply list_elem_of_singleton in Hm as ->. by vm_compute in Hc.
Defined.

(** A mount point with a control character the kernel does not escape is cut
    there, and shadows the mount of the directory its beginning names. *)
Example control_character_shadows :
  device_in true (show_mounts [demo_mount 20 (str "/") 30; demo_mount 21 (str "/srv/a" ++ 11 :: str "b") 40])
    (str "/srv/a") demo_stat = Some 40.
Proof. by vm_compute. Qed.
