(* ===== verification/Enroll.v ===== *)
(** * Enroll: giving roles to the objects the guard protects

    Models the enrollment of [src/src/linux/native/bpf-loader.cpp]: the kernel's
    device number of a file ([kernel_device]), [merge_role], [guard_slot_add],
    [guard_user_bus], [seed_guards] and the [guard-slot] command.  The host's
    answers are the class [Host]; each is numbered by the calls made before it,
    so two questions may be answered differently.  An exception keeps what was
    enrolled before it. *)
From S2P Require Import Prelude Kernel Policy Guard GuardStreams Numbers Loader Text Mounts.

(** ** The host *)

Class Host := {
  c23 : bool;                                     (* which number syntax the C library reads *)
  read_text : nat -> list Z -> list Z;            (* [read_text]: nothing of an unreadable file *)
  stat_ : nat -> list Z -> option file_stat;
  lstat : nat -> list Z -> option file_stat;
  weakly_canonical : nat -> list Z -> option (list Z);
  exists_ : nat -> list Z -> option bool;
  open_path : nat -> list Z -> option positive;      (* [O_PATH]: the inode behind the descriptor *)
  open_nofollow : nat -> list Z -> option positive;  (* [O_PATH | O_NOFOLLOW] *)
  is_regular_file : nat -> list Z -> bool;
  listing : nat -> list Z -> list (list Z) * bool;   (* the names a directory iterator gives, and whether it throws then *)
  map_read_ok : nat -> bool;                         (* the kernel reads the map; an absent key is no failure *)
  map_write_ok : nat -> bool                         (* the kernel has memory for the update *)
}.

(** The guard's maps and the number of calls made. *)
Record host_state := { h_maps : guard; h_calls : nat }.

(** A computation that may throw, keeping the maps as they are then. *)
Definition act (A : Type) : Type := host_state -> option A * host_state.
#[export] Instance act_ret : MRet act := fun A a s => (Some a, s).
#[export] Instance act_bind : MBind act := fun A B k m s =>
  match m s with (Some a, s') => k a s' | (None, s') => (None, s') end.

Definition throw {A} : act A := fun s => (None, s).
Definition done_ : act unit := mret tt.
Definition need {A} (o : option A) : act A := match o with Some a => mret a | None => throw end.
Definition call {A} (f : nat -> A) : act A := fun s => (Some (f (h_calls s)), {| h_maps := h_maps s; h_calls := S (h_calls s) |}).
Definition ask {A} (f : nat -> option A) : act A := o ← call f; need o.
Definition with_guard (f : guard -> guard) : act unit := fun s => (Some tt, {| h_maps := f (h_maps s); h_calls := h_calls s |}).
Definition get_guard : act guard := fun s => (Some (h_maps s), s).

Fixpoint each {A} (f : A -> act unit) (items : list A) : act unit :=
  match items with [] => done_ | x :: rest => f x ≫= fun _ => each f rest end.

(** A [for] over a directory iterator. *)
Definition each_entry {A} (f : A -> act unit) (found : list A * bool) : act unit :=
  each f found.1 ≫= fun _ => if found.2 then throw else done_.

(** ** Paths *)

Definition filename (path : list Z) : list Z := List.last (components path) [].

Fixpoint drop_slashes (text : list Z) : list Z :=
  match text with c :: rest => if c =? 47 then drop_slashes rest else text | [] => [] end.

Definition parent_path (path : list Z) : list Z :=
  let head := take (length path - length (filename path)) path in
  let kept := reverse (drop_slashes (reverse head)) in
  if bool_decide (kept = []) then take 1 head else kept.

(** [directory / name], [name] being relative. *)
Definition path_join (directory name : list Z) : list Z :=
  if bool_decide (directory = []) || (List.last directory 0 =? 47) then directory ++ name
  else directory ++ 47 :: name.

Section Enrollment.
Context `{H : Host}.

Definition kernel_device (path : list Z) (st : file_stat) : act Z :=
  table ← call (fun t => read_text t mountinfo);
  need (device_in c23 table path st).

Definition identity (path : list Z) (st : file_stat) : act object_id :=
  device ← kernel_device path st;
  mret (device, st_ino st).

(** ** Roles *)

(** A key of one of the four maps enrollment writes. *)
Inductive guard_key :=
  | SlotKey (k : guard_slot) | DirKey (k : object_id) | NameKey (k : endpoint_name) | ObjectKey (i : positive).

Definition read_key (s : guard) (k : guard_key) : option Z :=
  match k with
  | SlotKey k => guard_slots s !! k
  | DirKey k => guard_dirs s !! k
  | NameKey k => endpoint_names s !! k
  | ObjectKey i => object_roles s !! i
  end.

Definition set_enrolled s slots dirs names roles := {| guard_slots := slots; guard_dirs := dirs;
  endpoint_names := names; object_roles := roles; negative_roles := negative_roles s;
  held_roles := held_roles s; stream_roles := stream_roles s; role_generation := role_generation s;
  guard_config := guard_config s; guard_stats := guard_stats s; Guard.g_policy := Guard.g_policy s |}.

Definition write_key (k : guard_key) (v : Z) (s : guard) : guard :=
  let put slots dirs names roles := set_enrolled s slots dirs names roles in
  match k with
  | SlotKey k => put (<[k := v]> (guard_slots s)) (guard_dirs s) (endpoint_names s) (object_roles s)
  | DirKey k => put (guard_slots s) (<[k := v]> (guard_dirs s)) (endpoint_names s) (object_roles s)
  | NameKey k => put (guard_slots s) (guard_dirs s) (<[k := v]> (endpoint_names s)) (object_roles s)
  | ObjectKey i => put (guard_slots s) (guard_dirs s) (endpoint_names s) (<[i := v]> (object_roles s))
  end.

(** A hash map refuses a new key when it is full. *)
Definition has_room (s : guard) (k : guard_key) : bool :=
  bool_decide (is_Some (read_key s k)) ||
  match k with
  | SlotKey _ => (size (guard_slots s) <? 1024)%nat
  | DirKey _ => (size (guard_dirs s) <? 32)%nat
  | NameKey _ => (size (endpoint_names s) <? 1024)%nat
  | ObjectKey _ => true
  end.

Definition merge_role (k : guard_key) (role : Z) : act unit :=
  readable ← call map_read_ok;
  if negb readable then throw else
  s ← get_guard;
  writable ← call map_write_ok;
  if negb writable || negb (has_room s k) then throw
  else with_guard (write_key k (Z.lor role (default 0 (read_key s k)))).

(** A filesystem socket's bind address, as [struct endpoint_name] holds it. *)
Definition NAME_BYTES : nat := 108.
Definition bind_name (netns : Z) (spelling : list Z) : endpoint_name :=
  (netns, Z.of_nat (S (length spelling)), pad NAME_BYTES spelling).

Definition S_ISDIR (st : file_stat) : bool := Z.land (st_mode st) S_IFMT =? S_IFDIR.
Definition S_ISREG (st : file_stat) : bool := Z.land (st_mode st) S_IFMT =? S_IFREG.
Definition S_ISSOCK (st : file_stat) : bool := Z.land (st_mode st) S_IFMT =? S_IFSOCK.

Definition is_text (text : list Z) (literal : String.string) : bool := bool_decide (text = str literal).

(** The [abstract] branch of [guard_slot_add]. *)
Definition add_abstract (netns : Z) (input : list Z) : act unit :=
  if bool_decide (input = []) || negb (hd 0 input =? 64) || (NAME_BYTES <? length input)%nat then throw
  else merge_role (NameKey (netns, Z.of_nat (length input), pad NAME_BYTES (0 :: tail input))) ROLE_SOCKET.

(** The directory branch. *)
Definition add_directory (kind path : list Z) : act unit :=
  st ← ask (fun t => stat_ t path);
  if negb (S_ISDIR st) then throw else
  let role := if is_text kind "cache-dir" then ROLE_CACHE_DIR
              else if is_text kind "user-bus-dir" then ROLE_USER_ROOT else ROLE_NSCD_PARENT in
  key ← identity path st;
  merge_role (DirKey key) role.

(** The names a socket may be bound by. *)
Definition add_spelling (netns role : Z) (spelling : list Z) : act unit :=
  if (NAME_BYTES <? S (length spelling))%nat then throw else merge_role (NameKey (bind_name netns spelling)) role.

(** The name in its directory, which must exist for a cache. *)
Definition add_slot (kind path : list Z) (role : Z) : act unit :=
  present ← ask (fun t => exists_ t (parent_path path));
  if present : bool then
    st ← ask (fun t => stat_ t (parent_path path));
    parent ← identity (parent_path path) st;
    let name := filename path in
    if (64 <=? length name)%nat then throw else merge_role (SlotKey (parent, pad 64 name)) role
  else if is_text kind "cache" then throw else done_.

(** The object itself, where it exists. *)
Definition add_object (path : list Z) (role : Z) : act unit :=
  present ← ask (fun t => exists_ t path);
  if present : bool then
    file ← ask (fun t => open_path t path);
    st ← ask (fun t => stat_ t path);
    if ((role =? ROLE_SOCKET) && negb (S_ISSOCK st)) || ((role =? ROLE_CACHE) && negb (S_ISREG st)) then throw
    else merge_role (ObjectKey file) role
  else done_.

Definition guard_slot_add (netns : Z) (kind input : list Z) : act unit :=
  let role := if is_text kind "socket" || is_text kind "abstract" then ROLE_SOCKET else ROLE_CACHE in
  if is_text kind "abstract" then add_abstract netns input
  else if negb (is_absolute input) then throw
  else
    path ← ask (fun t => weakly_canonical t input);
    if is_text kind "cache-dir" || is_text kind "user-bus-dir" || is_text kind "nscd-parent" then add_directory kind path
    else if negb (is_text kind "socket") && negb (is_text kind "cache") then throw
    else
      _ ← if role =? ROLE_SOCKET then each (add_spelling netns role) [input; path] else done_;
      _ ← add_slot kind path role;
      add_object path role.

Definition guard_user_bus (netns : Z) (directory : list Z) : act unit :=
  let path := path_join directory (str "bus") in
  if (NAME_BYTES <? S (length path))%nat then done_ else
  _ ← merge_role (NameKey (bind_name netns path)) ROLE_SOCKET;
  found ← call (fun t => lstat t directory);
  match found with
  | None => done_
  | Some st =>
      if negb (S_ISDIR st) then done_ else
      parent ← identity directory st;
      _ ← merge_role (SlotKey (parent, pad 64 (str "bus"))) ROLE_SOCKET;
      object ← call (fun t => lstat t path);
      match object with
      | None => done_
      | Some st =>
          if negb (S_ISSOCK st) then done_ else
          raw ← call (fun t => open_nofollow t path);
          match raw with None => done_ | Some file => merge_role (ObjectKey file) ROLE_SOCKET end
      end
  end.

(** ** The initial enrollment *)

Definition default_sockets : list (list Z) := map str
  ["/run/systemd/resolve/io.systemd.Resolve"; "/run/nscd/socket"; "/var/run/nscd/socket";
   "/run/avahi-daemon/socket"; "/var/run/avahi-daemon/socket"; "/run/dbus/system_bus_socket";
   "/var/run/dbus/system_bus_socket"]%string.

Definition add_known_directory (path : list Z) (role : Z) : act unit :=
  st ← ask (fun t => stat_ t path);
  key ← identity path st;
  merge_role (DirKey key) role.

Definition run_user : list Z := str "/run/user".

(** One entry of [/run/user]. *)
Definition add_user (netns : Z) (name : list Z) : act unit :=
  if bool_decide (name = []) || (10 <? length name)%nat || negb (forallb is_digit name) then done_ else
  let path := path_join run_user name in
  found ← call (fun t => lstat t path);
  match found with
  | None => done_
  | Some st =>
      if negb (S_ISDIR st) then done_ else
      uid ← need (number c23 name);
      if negb (st_uid st =? uid) then done_ else guard_user_bus netns path
  end.

(** One entry of a cache directory. *)
Definition add_cache_file (netns : Z) (directory name : list Z) : act unit :=
  regular ← call (fun t => is_regular_file t (path_join directory name));
  if regular && (is_text name "hosts" || ((length name =? 8)%nat && starts_with (str "db") name))
  then guard_slot_add netns (str "cache") (path_join directory name)
  else done_.

Definition add_cache_directory (netns : Z) (path : list Z) : act unit :=
  present ← ask (fun t => exists_ t path);
  if negb present then done_ else
  _ ← guard_slot_add netns (str "cache-dir") path;
  found ← call (fun t => listing t path);
  each_entry (add_cache_file netns path) found.

Definition seed_guards (netns : Z) : act unit :=
  _ ← each (guard_slot_add netns (str "socket")) default_sockets;
  _ ← each (guard_slot_add netns (str "nscd-parent")) (map str ["/run"; "/var/cache"; "/var/lib"]%string);
  _ ← add_known_directory (str "/run") ROLE_RUNTIME;
  _ ← add_known_directory (str "/run/systemd") ROLE_SYSTEMD;
  users ← ask (fun t => exists_ t run_user);
  _ ← (if users : bool then
         _ ← guard_slot_add netns (str "user-bus-dir") run_user;
         found ← call (fun t => listing t run_user);
         each_entry (add_user netns) found
       else done_);
  each (add_cache_directory netns) (map str ["/run/nscd"; "/var/cache/nscd"; "/var/lib/nscd"]%string).

End Enrollment.

(** ** Enrollment only adds *)

Definition role_of (s : guard) (k : guard_key) : Z := default 0 (read_key s k).

(** [s'] has every role [s] has; everything but the four maps is the same. *)
Record grows (s s' : guard) : Prop := {
  grows_roles k m : has_bits (role_of s k) m = true -> has_bits (role_of s' k) m = true;
  grows_negative : negative_roles s' = negative_roles s;
  grows_held : held_roles s' = held_roles s;
  grows_streams : stream_roles s' = stream_roles s;
  grows_generation : role_generation s' = role_generation s;
  grows_config : guard_config s' = guard_config s;
  grows_stats : guard_stats s' = guard_stats s;
  grows_policy : Guard.g_policy s' = Guard.g_policy s
}.

#[export] Instance grows_preorder : PreOrder grows.
Proof.
  split; [by intros s|]. intros s1 s2 s3 [R ???????] [R' ???????]. split; try congruence. auto.
Qed.

#[export] Instance guard_key_eq_dec : EqDecision guard_key.
Proof. solve_decision. Defined.

Lemma role_of_write s k v k' : role_of (write_key k v s) k' = if decide (k = k') then v else role_of s k'.
Proof.
  unfold role_of. destruct (decide (k = k')) as [<-|Hk].
  - by destruct k; cbn; rewrite lookup_insert_eq.
  - destruct k, k'; cbn; try done; by rewrite lookup_insert_ne by congruence.
Qed.

Definition growing {A} (m : act A) : Prop := forall s, grows (h_maps s) (h_maps (m s).2).

Lemma growing_bind {A B} (m : act A) (k : A -> act B) : growing m -> (forall a, growing (k a)) -> growing (m ≫= k).
Proof.
  intros Hm Hk s. specialize (Hm s). unfold mbind, act_bind. destruct (m s) as [[a|] s1]; [|done].
  etrans; [exact Hm|apply Hk].
Qed.
Lemma growing_ret {A} (a : A) : growing (mret a).
Proof. by intros s. Qed.
Lemma growing_throw {A} : growing (@throw A).
Proof. by intros s. Qed.
Lemma growing_need {A} (o : option A) : growing (need o).
Proof. by destruct o; intros s. Qed.
Lemma growing_call {A} (f : nat -> A) : growing (call f).
Proof. by intros s. Qed.
Lemma growing_each {A} (f : A -> act unit) items : (forall x, growing (f x)) -> growing (each f items).
Proof.
  intros Hf. induction items as [|x items IH]; cbn [each]; [apply growing_ret|]. by apply growing_bind.
Qed.
#[export] Hint Resolve growing_ret growing_throw growing_need growing_call growing_each : wgps.

(** Walks through a computation, leaving the calls no lemma covers. *)
Ltac grow :=
  unfold done_, ask, each_entry;
  repeat first [ progress intros | solve [eauto 2 with wgps] | case_match | apply growing_bind | apply growing_each ].

Lemma growing_merge `{Host} k role : growing (merge_role k role).
Proof.
  intros s. unfold merge_role, mbind, act_bind, call, get_guard, with_guard, throw. cbn.
  repeat case_match; simplify_eq; cbn in *; simplify_eq; try done; bool_to_prop.
  all: split; [|by destruct k..]. all: intros k' m Hm; rewrite role_of_write; case_decide; [subst k'|done].
  all: rewrite has_bits_lor; unfold role_of in Hm; by rewrite Hm, orb_true_r.
Qed.
#[export] Hint Resolve growing_merge : wgps.

Lemma growing_identity `{Host} path st : growing (identity path st).
Proof. unfold identity, kernel_device. grow. Qed.
#[export] Hint Resolve growing_identity : wgps.

Section Growth.
Context `{H : Host}.

Lemma growing_abstract netns input : growing (add_abstract netns input).
Proof. unfold add_abstract. grow. Qed.
Lemma growing_directory kind path : growing (add_directory kind path).
Proof. unfold add_directory. grow. Qed.
Lemma growing_spelling netns role spelling : growing (add_spelling netns role spelling).
Proof. unfold add_spelling. grow. Qed.
Lemma growing_slot kind path role : growing (add_slot kind path role).
Proof. unfold add_slot. grow. Qed.
Lemma growing_object path role : growing (add_object path role).
Proof. unfold add_object. grow. Qed.
Hint Resolve growing_abstract growing_directory growing_spelling growing_slot growing_object : wgps.

Lemma growing_slot_add netns kind input : growing (guard_slot_add netns kind input).
Proof. unfold guard_slot_add. grow. Qed.
Lemma growing_user_bus netns directory : growing (guard_user_bus netns directory).
Proof. unfold guard_user_bus. grow. Qed.
Lemma growing_known path role : growing (add_known_directory path role).
Proof. unfold add_known_directory. grow. Qed.
Hint Resolve growing_slot_add growing_user_bus growing_known : wgps.

Lemma growing_user netns name : growing (add_user netns name).
Proof. unfold add_user. grow. Qed.
Lemma growing_cache_file netns directory name : growing (add_cache_file netns directory name).
Proof. unfold add_cache_file. grow. Qed.
Hint Resolve growing_user growing_cache_file : wgps.

Lemma growing_entries {A} (f : A -> act unit) found : (forall x, growing (f x)) -> growing (each_entry f found).
Proof. intros Hf. grow. Qed.
Hint Resolve growing_entries : wgps.

Lemma growing_cache_directory netns path : growing (add_cache_directory netns path).
Proof. unfold add_cache_directory. grow. Qed.
Hint Resolve growing_cache_directory : wgps.

Lemma growing_seed netns : growing (seed_guards netns).
Proof. unfold seed_guards. grow. Qed.

End Growth.
#[export] Hint Resolve growing_slot growing_spelling growing_object growing_slot_add growing_user_bus growing_known
  growing_user growing_cache_directory growing_seed : wgps.

(** ** What a completed enrollment holds *)

(** When [m] returns, the object [k] has the role [b]. *)
Definition enrolls {A} (m : act A) (k : guard_key) (b : Z) : Prop :=
  forall s a s', m s = (Some a, s') -> has_bits (role_of (h_maps s') k) b = true.

Lemma enrolls_first {A B} (m : act A) (f : A -> act B) k b :
  enrolls m k b -> (forall a, growing (f a)) -> enrolls (m ≫= f) k b.
Proof.
  intros Hm Hf s c s'. unfold mbind, act_bind. destruct (m s) as [[a|] s1] eqn:E; [|done]. intros E2.
  apply Hm in E. pose proof (Hf a s1) as Hg. rewrite E2 in Hg. by apply (grows_roles _ _ Hg).
Qed.

Lemma enrolls_then {A B} (m : act A) (f : A -> act B) k b : (forall a, enrolls (f a) k b) -> enrolls (m ≫= f) k b.
Proof.
  intros Hf s c s'. unfold mbind, act_bind. destruct (m s) as [[a|] s1] eqn:E; [|done]. by apply Hf.
Qed.

Lemma enrolls_throw {A} k b : enrolls (@throw A) k b.
Proof. done. Qed.

Lemma enrolls_each {A} (f : A -> act unit) items x k b :
  x ∈ items -> enrolls (f x) k b -> (forall y, growing (f y)) -> enrolls (each f items) k b.
Proof.
  intros Hx He Hg. induction items as [|y items IH]; [by apply not_elem_of_nil in Hx|]. cbn [each].
  apply elem_of_cons in Hx as [->|Hx].
  - apply enrolls_first; [done|]. intros _. by apply growing_each.
  - apply enrolls_then. intros _. auto.
Qed.

Lemma enrolls_merge `{Host} k role b : has_bits role b = true -> enrolls (merge_role k role) k b.
Proof.
  intros Hb s a s'. unfold merge_role, mbind, act_bind, call, get_guard, with_guard, throw. cbn.
  repeat case_match; intros; simplify_eq; cbn in *; simplify_eq; try done.
  all: rewrite role_of_write, decide_True by done; by rewrite has_bits_lor, Hb.
Qed.

Section Seeded.
Context `{H : Host} `{R : KernelReads} `{!MappedReads R}.

Lemma enrolls_spelling netns spelling :
  enrolls (add_spelling netns ROLE_SOCKET spelling) (NameKey (bind_name netns spelling)) ROLE_SOCKET.
Proof. unfold add_spelling. case_match; [apply enrolls_throw|by apply enrolls_merge]. Qed.

(** Adding a socket, branch by branch. *)
Lemma socket_add netns input :
  is_absolute input = true ->
  guard_slot_add netns (str "socket") input =
    (path ← ask (fun t => weakly_canonical t input);
     _ ← each (add_spelling netns ROLE_SOCKET) [input; path];
     _ ← add_slot (str "socket") path ROLE_SOCKET;
     add_object path ROLE_SOCKET).
Proof. intros Ha. unfold guard_slot_add. by rewrite Ha. Qed.

Lemma enrolls_socket netns input :
  is_absolute input = true ->
  enrolls (guard_slot_add netns (str "socket") input) (NameKey (bind_name netns input)) ROLE_SOCKET.
Proof.
  intros Ha. rewrite socket_add by done. apply enrolls_then. intros path. apply enrolls_first; [|grow].
  apply (enrolls_each _ _ input); [by left|apply enrolls_spelling|grow].
Qed.

Lemma default_sockets_absolute p : p ∈ default_sockets -> is_absolute p = true /\ no_nul p /\ (length p < NAME_BYTES)%nat.
Proof.
  assert (Forall (fun p => is_absolute p = true /\ no_nul p /\ (length p < NAME_BYTES)%nat) default_sockets) as F.
  { repeat constructor; try (by vm_compute); apply (bool_decide_unpack (0 ∉ _)); by vm_compute. }
  intros Hp. by eapply (proj1 (list.Forall_forall _ _) F).
Qed.

Lemma enrolls_seed netns p :
  p ∈ default_sockets -> enrolls (seed_guards netns) (NameKey (bind_name netns p)) ROLE_SOCKET.
Proof.
  intros Hp. unfold seed_guards. apply enrolls_first; [|grow].
  apply (enrolls_each _ _ p); [done|apply enrolls_socket; by apply default_sockets_absolute|grow].
Qed.

(** The role of a bind address is the one enrolled for its spelling. *)
Lemma address_role_bound w g k p rest :
  no_nul p -> is_absolute p = true -> (length p < NAME_BYTES)%nat ->
  address_role w g k (Some {| addr_len := 2 + Z.of_nat (S (length p)); sun_path := p ++ 0 :: rest |}) =
    role_of g (NameKey (bind_name (net_inum (socks w k)) p)).
Proof.
  intros Hn Ha Hl. unfold NAME_BYTES in Hl. unfold address_role, role_of, bind_name, NAME_BYTES. cbn [addr_len sun_path read_key].
  replace (2 + Z.of_nat (S (length p)) - 2) with (Z.of_nat (S (length p))) by lia.
  rewrite (proj2 (Z.ltb_ge _ 1)), (proj2 (Z.ltb_ge 108 _)) by lia. cbn [orb].
  destruct p as [|c p]; [done|]. cbn [is_absolute] in Ha. bool_to_prop. subst c.
  rewrite probe_mem_mapped. cbn [mem_copied app take replicate snd rd nth drop].
  rewrite probe_str_mapped. change (47 :: p ++ 0 :: rest) with ((47 :: p) ++ 0 :: rest).
  rewrite (str_copied_pad 108 108) by (done || lia). cbn [Z.eqb negb].
  rewrite (proj2 (Z.ltb_ge _ 1)), (proj2 (Z.ltb_ge 108 _)) by lia. done.
Qed.

(** The resolver endpoint's role decides the connect of an included program. *)
Lemma connect_refused w g e sk other newsk :
  restricted g e -> has_bits (peer_role w g e other).1 ROLE_SOCKET = true ->
  (guard_connect w g e sk other newsk 0).1 <> 0.
Proof.
  intros Hr Hb. unfold guard_connect. rewrite Z.eqb_refl. cbn [negb].
  destruct (role_version g) as [v|]; [|done].
  pose proof (resolving_peer g e w other) as [_ Hpol].
  destruct (peer_role w g e other) as [role s1]. cbn [fst snd] in *. case_match; [done|].
  assert (stream_safe role v = false) as -> by (unfold stream_safe; by rewrite Hb).
  pose proof (set_stream_role_policy s1 e sk false v) as P2. destruct (set_stream_role s1 e sk false v) as [err1 s2].
  case_match; [done|].
  pose proof (set_stream_role_policy s2 e newsk false v) as P3. destruct (set_stream_role s2 e newsk false v) as [err2 s3].
  case_match; [done|]. apply (count_and_select_denied g); [done|]. cbn [snd] in *. congruence.
Qed.

Lemma object_role_names w g e d i : endpoint_names (object_role w g e d i).2 = endpoint_names g.
Proof.
  unfold object_role, label_inode. destruct i as [i|], d as [d|]; try done.
  repeat (case_match; simplify_eq; try done).
Qed.

(** C12: once the initial enrollment returned, whatever the host answered
    meanwhile, an included program cannot connect to a socket bound at one of
    the resolvers' well-known addresses in the guarded network namespace,
    unless the socket's file itself is known by another role only. *)
Theorem seeded_resolvers_refused netns s s' w g e sk newsk k p rest :
  seed_guards netns s = (Some tt, s') -> endpoint_names g = endpoint_names (h_maps s') ->
  p ∈ default_sockets -> is_unix_sock (socks w k) = true -> net_inum (socks w k) = netns ->
  unix_addr (socks w k) = Some {| addr_len := 2 + Z.of_nat (S (length p)); sun_path := p ++ 0 :: rest |} ->
  (forall d, unix_path (socks w k) = Some d ->
     let role := (object_role w g e (Some d) (d_inode (dentries w d))).1 in role = 0 \/ has_bits role ROLE_SOCKET = true) ->
  restricted g e ->
  (guard_connect w g e sk (Some k) newsk 0).1 <> 0.
Proof.
  intros Hs Hg Hp Hu Hn Ha Hd Hr. apply connect_refused; [done|].
  destruct (default_sockets_absolute p Hp) as (Hab & Hnn & Hl).
  apply (enrolls_seed netns p Hp) in Hs. unfold role_of in Hs. cbn [read_key] in Hs.
  cbn [peer_role]. rewrite Hu. unfold unix_role.
  destruct (unix_path (socks w k)) as [d|] eqn:Ed.
  - pose proof (object_role_names w g e (Some d) (d_inode (dentries w d))) as E1. specialize (Hd d eq_refl).
    destruct (object_role w g e (Some d) _) as [role g1]. cbn [fst snd] in *.
    destruct (role =? 0) eqn:Er; cbn [negb fst]; bool_to_prop; [|by destruct Hd].
    rewrite Ha, address_role_bound by done. unfold role_of. cbn [read_key]. by rewrite E1, Hg, Hn.
  - cbn [Z.eqb negb fst]. rewrite Ha, address_role_bound by done. unfold role_of. cbn [read_key]. by rewrite Hg, Hn.
Qed.

End Seeded.

(** ** Names in directories *)

(** A host that answers the same question the same way during one enrollment. *)
Class SteadyHost (H : Host) : Prop := {
  steady_text t path : read_text t path = read_text 0 path;
  steady_stat t path : stat_ t path = stat_ 0 path;
  steady_canonical t path : weakly_canonical t path = weakly_canonical 0 path;
  steady_exists t path : exists_ t path = exists_ 0 path
}.

Lemma enrolls_call {A B} (f : nat -> A) (c : A) (k : A -> act B) key b :
  (forall t, f t = c) -> enrolls (k c) key b -> enrolls (call f ≫= k) key b.
Proof. intros Hf Hk s x s'. unfold mbind, act_bind, call. rewrite Hf. apply Hk. Qed.

Lemma enrolls_ask {A B} (f : nat -> option A) (c : A) (k : A -> act B) key b :
  (forall t, f t = Some c) -> enrolls (k c) key b -> enrolls (ask f ≫= k) key b.
Proof. intros Hf Hk s x s'. unfold ask, mbind, act_bind, call, need. rewrite Hf. apply Hk. Qed.

Section Named.
Context `{H : Host} `{!SteadyHost H} `{R : KernelReads} `{!MappedReads R}.

Lemma enrolls_identity {B} path st dev (k : object_id -> act B) key b :
  device_in c23 (read_text 0 mountinfo) path st = Some dev -> enrolls (k (dev, st_ino st)) key b ->
  enrolls (identity path st ≫= k) key b.
Proof.
  intros Hd Hk s x s'. unfold identity, kernel_device, mbind, act_bind, call, need. rewrite steady_text, Hd. apply Hk.
Qed.

(** The directory a name lives in, as the loader sees it. *)
Definition seen_directory (path : list Z) (id : object_id) : Prop :=
  exists st, exists_ 0 path = Some true /\ stat_ 0 path = Some st /\
    device_in c23 (read_text 0 mountinfo) path st = Some id.1 /\ st_ino st = id.2.

Lemma enrolls_add_slot kind path id role b :
  seen_directory (parent_path path) id -> has_bits role b = true ->
  enrolls (add_slot kind path role) (SlotKey (id, pad 64 (filename path))) b.
Proof.
  intros (st & He & Hs & Hd & Hi) Hb. unfold add_slot.
  apply (enrolls_ask _ true); [intros t; by rewrite steady_exists|].
  apply (enrolls_ask _ st); [intros t; by rewrite steady_stat|].
  apply (enrolls_identity _ _ id.1); [done|]. rewrite Hi, <- surjective_pairing.
  case_match; [apply enrolls_throw|by apply enrolls_merge].
Qed.

Lemma named_role_slot w g parent name m :
  has_bits (role_of g (SlotKey (inode_id (deref_inode w (d_inode (dentries w parent))), name))) m = true ->
  has_bits (named_role w g parent name).1 m = true.
Proof.
  unfold role_of, named_role. cbn [read_key fst]. intros Hm.
  repeat (case_match; rewrite ?has_bits_lor); rewrite Hm; done.
Qed.

(** A name shorter than a slot is compared whole. *)
Lemma dentry_role_named w g d name rest :
  d_name (dentries w d) = name ++ 0 :: rest -> no_nul name -> (length name < 64)%nat ->
  dentry_role w g (Some d) = named_role w g (d_parent (dentries w d)) (pad 64 name).
Proof.
  intros Hd Hn Hl. unfold dentry_role. rewrite Hd, probe_str_mapped, (str_copied_pad 64 64) by (done || lia).
  rewrite (proj2 (Z.ltb_ge _ 1)) by lia. destruct (_ =? 64) eqn:E; [|done]. bool_to_prop.
  rewrite probe_mem_mapped. replace 63%nat with (length name) by lia. rewrite drop_app_length. done.
Qed.

Lemma enrolls_named netns input path id :
  is_absolute input = true -> weakly_canonical 0 input = Some path -> seen_directory (parent_path path) id ->
  enrolls (guard_slot_add netns (str "socket") input) (SlotKey (id, pad 64 (filename path))) ROLE_SOCKET.
Proof.
  intros Ha Hc Hd. rewrite socket_add by done.
  apply (enrolls_ask _ path); [intros t; by rewrite steady_canonical|]. apply enrolls_then. intros _.
  apply enrolls_first; [|grow]. by apply enrolls_add_slot.
Qed.

(** A socket enrolled by its path is recognised by its name: after the
    loader added it, the kernel gives the resolver role to any entry of that
    name in the directory of that device and inode number, whichever file is
    there later. *)
Theorem enrolled_socket_named netns input path id s s' w d rest :
  is_absolute input = true -> weakly_canonical 0 input = Some path -> seen_directory (parent_path path) id ->
  guard_slot_add netns (str "socket") input s = (Some tt, s') ->
  inode_id (deref_inode w (d_inode (dentries w (d_parent (dentries w d))))) = id ->
  d_name (dentries w d) = filename path ++ 0 :: rest -> no_nul (filename path) -> (length (filename path) < 64)%nat ->
  has_bits (dentry_role w (h_maps s') (Some d)).1 ROLE_SOCKET = true.
Proof.
  intros Ha Hc Hd Hs Hi Hn Hnn Hl. rewrite (dentry_role_named w _ d (filename path) rest) by done.
  apply named_role_slot. rewrite Hi. by apply (enrolls_named netns input path id Ha Hc Hd) in Hs.
Qed.

End Named.

(** ** What users can put in their own directories *)

Section UserContent.
Context `{H : Host}.

(** A map operation the kernel accepts. *)
Lemma merge_role_ok k role s :
  map_read_ok (h_calls s) = true -> map_write_ok (S (h_calls s)) = true -> has_room (h_maps s) k = true ->
  merge_role k role s =
    (Some tt, {| h_maps := write_key k (Z.lor role (role_of (h_maps s) k)) (h_maps s); h_calls := S (S (h_calls s)) |}).
Proof.
  intros Hr Hw Hk. unfold merge_role, mbind, act_bind, call, get_guard, with_guard. cbn.
  rewrite Hr. cbn. rewrite Hw. cbn. by rewrite Hk.
Qed.

Lemma identity_ok path st device s :
  device_in c23 (read_text (h_calls s) mountinfo) path st = Some device ->
  identity path st s = (Some (device, st_ino st), {| h_maps := h_maps s; h_calls := S (h_calls s) |}).
Proof. intros Hd. unfold identity, kernel_device, mbind, act_bind, call, need. by rewrite Hd. Qed.

Lemma room_for_name g k : (size (endpoint_names g) < 1024)%nat -> has_room g (NameKey k) = true.
Proof. intros Hs. unfold has_room. by rewrite (proj2 (Nat.ltb_lt _ _) Hs), orb_true_r. Qed.
Lemma room_for_slot g k : (size (guard_slots g) < 1024)%nat -> has_room g (SlotKey k) = true.
Proof. intros Hs. unfold has_room. by rewrite (proj2 (Nat.ltb_lt _ _) Hs), orb_true_r. Qed.

(** Nothing a user places in a runtime directory makes the loader fail:
    whatever file types, links and disappearances it meets there, enrolling
    that user's bus returns, as long as the kernel's maps have room and accept
    the updates and the mount table is well formed. *)
Theorem user_content_never_blocks netns directory s :
  (forall t, map_read_ok t = true) -> (forall t, map_write_ok t = true) ->
  (forall t path st, is_Some (device_in c23 (read_text t mountinfo) path st)) ->
  (size (guard_slots (h_maps s)) < 1024)%nat -> (size (endpoint_names (h_maps s)) < 1024)%nat ->
  (guard_user_bus netns directory s).1 = Some tt.
Proof.
  intros Hr Hw Hd Hs Hn. unfold guard_user_bus. destruct (_ <? _)%nat; [done|].
  set (key := NameKey _). unfold mbind at 1, act_bind at 1.
  rewrite merge_role_ok; [|done|done|by apply room_for_name].
  set (s1 := {| h_maps := _; h_calls := _ |}). assert (guard_slots (h_maps s1) = guard_slots (h_maps s)) as E1 by done.
  clearbody s1. unfold mbind at 1, act_bind at 1, call at 1. destruct (lstat _ _) as [st|]; [|done].
  destruct (negb _); [done|]. set (s1' := {| h_maps := h_maps s1; h_calls := _ |}).
  destruct (Hd (h_calls s1') directory st) as [device Ed]. unfold mbind at 1, act_bind at 1. rewrite (identity_ok _ _ device) by done.
  set (slot := SlotKey _). unfold mbind at 1, act_bind at 1.
  rewrite merge_role_ok; [|done|done|apply room_for_slot; subst s1'; cbn [h_maps]; by rewrite E1].
  set (s2 := {| h_maps := _; h_calls := _ |}). clearbody s2. unfold mbind at 1, act_bind at 1, call at 1.
  destruct (lstat _ _) as [st'|]; [|done]. destruct (negb _); [done|].
  unfold mbind at 1, act_bind at 1, call at 1. destruct (open_nofollow _ _) as [file|]; [|done].
  by rewrite merge_role_ok by (done || (unfold has_room; by rewrite orb_true_r)).
Qed.

End UserContent.

(** Enrollment never takes a role away: whether it returns or throws at
    any point, and whatever the host answers, every object has the roles it had
    before, and nothing but the four maps of roles has changed. *)
Theorem enrollment_only_adds `{Host} netns kind input s :
  grows (h_maps s) (h_maps (guard_slot_add netns kind input s).2) /\
  grows (h_maps s) (h_maps (seed_guards netns s).2).
Proof. split; [apply growing_slot_add|apply growing_seed]. Qed.

(** ** A concrete host *)

Module DemoHost.

Definition is_dir : file_stat := {| st_dev := 30; st_ino := 6; st_mode := S_IFDIR + 493; st_uid := 1000 |}.
Definition is_sock : file_stat := {| st_dev := 30; st_ino := 7; st_mode := S_IFSOCK + 438; st_uid := 1000 |}.
Definition table : list Z :=
  show_mounts [demo_mount 20 (str "/") 30; demo_mount 21 (str "/run") 31; demo_mount 22 (str "/run/user/1000") 32].

#[export] Instance host : Host := {|
  c23 := true;
  read_text _ _ := table;
  stat_ _ path := Some (if is_text (filename path) "system_bus_socket" then is_sock else is_dir);
  lstat _ path := Some (if is_text (filename path) "bus" then is_sock else is_dir);
  weakly_canonical _ path := Some path;
  exists_ _ path := Some (bool_decide (path ∈ map str ["/run/user"; "/run/dbus"; "/run/dbus/system_bus_socket"]%string));
  open_path _ _ := Some 8%positive;
  open_nofollow _ _ := Some 9%positive;
  is_regular_file _ _ := false;
  listing _ _ := (map str ["1000"; "systemd"]%string, false);
  map_read_ok _ := true;
  map_write_ok _ := true
|}.

#[export] Instance steady : SteadyHost host.
Proof. by split. Qed.

Definition blank : host_state := {| h_maps := set_enrolled Machine.guarded ∅ ∅ ∅ ∅; h_calls := 0 |}.
Definition seeded : host_state := (seed_guards 7 blank).2.

Lemma pair_first {A B} (p : A * B) a : p.1 = a -> p = (a, p.2).
Proof. by destruct p; cbn; intros ->. Qed.

Lemma seeds : seed_guards 7 blank = (Some tt, seeded).
Proof. unfold seeded. apply (pair_first (seed_guards 7 blank) (Some tt)). vm_compute. reflexivity. Qed.

(** A resolver's stream socket, bound but without a file the kernel knows. *)
Definition bus_address : list Z := str "/run/dbus/system_bus_socket".
Definition bus_socket : sock :=
  {| skc_family := 1; sk_type := 1; is_unix_sock := true; unix_path := None;
     unix_addr := Some {| addr_len := 2 + Z.of_nat (S (length bus_address)); sun_path := bus_address ++ [0] |};
     unix_peer := None; net_inum := 7 |}.
Definition bus_world : world := {| inodes := fun _ => null_inode; dentries := dentries Machine.machine; socks := fun _ => bus_socket |}.

End DemoHost.
Import DemoHost.

Lemma seeded_resolvers_refused_witness :
  (guard_connect (R:=plain_reads) bus_world (h_maps seeded) start_env (Some 1%positive) (Some 2%positive)
     (Some 3%positive) 0).1 <> 0.
Proof.
  eapply (seeded_resolvers_refused (R:=plain_reads) 7 blank seeded _ _ _ _ _ 2%positive bus_address []).
  - exact seeds.
  - reflexivity.
  - apply (bool_decide_unpack (_ ∈ default_sockets)). vm_compute. exact I.
  - reflexivity.
  - reflexivity.
  - reflexivity.
  - discriminate.
  - split; vm_compute; discriminate.
Defined.

(** An entry of that name in the bus directory. *)
Definition bus_entry : world :=
  {| inodes := fun _ => {| s_dev := 31; s_magic := 0; i_ino := 6; i_generation := 0; i_nlink := 1; i_mode := S_IFDIR; i_uid := 0 |};
     dentries := fun _ => {| d_name := str "system_bus_socket" ++ [0]; d_parent := 2; d_inode := Some 3%positive |};
     socks := fun _ => bus_socket |}.
Definition bus_added : host_state := (guard_slot_add 7 (str "socket") bus_address blank).2.

Lemma enrolled_socket_named_witness :
  has_bits (dentry_role (R:=plain_reads) bus_entry (h_maps bus_added) (Some 1%positive)).1 ROLE_SOCKET = true.
Proof.
  eapply (enrolled_socket_named (R:=plain_reads) 7 bus_address bus_address (31, 6) blank bus_added bus_entry 1 []).
  - reflexivity.
  - reflexivity.
  - exists is_dir. repeat split; vm_compute; reflexivity.
  - unfold bus_added. apply (pair_first (guard_slot_add 7 (str "socket") bus_address blank) (Some tt)). vm_compute. reflexivity.
  - reflexivity.
  - vm_compute. reflexivity.
  - apply (bool_decide_unpack (0 ∉ _)). vm_compute. exact I.
  - vm_compute. lia.
Defined.

(** A mount table of which every line reads. *)
Lemma demo_devices t path st : is_Some (device_in c23 (read_text t mountinfo) path st).
Proof.
  cbn [read_text host c23]. unfold device_in, table, show_mounts. rewrite getlines_lines.
  2: { apply (bool_decide_unpack (Forall _ _)). vm_compute. exact I. }
  assert (Forall plain_mount [demo_mount 20 (str "/") 30; demo_mount 21 (str "/run") 31; demo_mount 22 (str "/run/user/1000") 32]) as Hp.
  { repeat apply list.Forall_cons_2; [..|apply list.Forall_nil_2]; apply demo_mount_plain; try lia; try done; plain_text. }
  rewrite best_mount_show by exact Hp. cbn [mbind option_bind foldl]. unfold better.
  repeat (match goal with |- context [if covers ?p ?m && ?b then _ else _] => destruct (covers p m && b) end); cbn; by eexists.
Qed.

Lemma user_content_never_blocks_witness : (guard_user_bus 7 (str "/run/user/1000") blank).1 = Some tt.
Proof.
  apply user_content_never_blocks.
  - reflexivity.
  - reflexivity.
  - exact demo_devices.
  - vm_compute. lia.
  - vm_compute. lia.
Defined.

(** A numeric name that is no C number aborts the enrollment instead of being
    skipped like other entries. *)
Example numeric_name_aborts : (add_user 7 (str "08") blank).1 = None /\ (add_user 7 (str "8x") blank).1 = Some tt.
Proof. by vm_compute. Qed.
