(* ===== verification/Generations.v ===== *)
(** * Generations: recognising this loader's pin directories

    Models [map_fd], [inspect_generation], [reject_competitors] and
    [settled] of [src/src/linux/native/bpf-loader.cpp] with the map set of
    [pin-set.h].  What the kernel reports of each pinned object is the directory
    the definitions examine; hook type identifiers are a parameter. *)
From S2P Require Import Prelude Pins Loader Guard.

(** ** The map set *)

Record MapSpec := { s_name : String.string; s_key : Z; s_value : Z; s_type : Z; s_entries : Z; s_added : bool }.
Definition map_spec n k v t e a : MapSpec :=
  {| s_name := n; s_key := k; s_value := v; s_type := t; s_entries := e; s_added := a |}.

Definition BPF_MAP_TYPE_HASH : Z := 1.
Definition BPF_MAP_TYPE_ARRAY : Z := 2.
Definition BPF_MAP_TYPE_PERCPU_ARRAY : Z := 6.
Definition BPF_MAP_TYPE_LRU_HASH : Z := 9.
Definition BPF_MAP_TYPE_SK_STORAGE : Z := 24.
Definition BPF_MAP_TYPE_INODE_STORAGE : Z := 28.

Definition map_specs : list MapSpec := [
  map_spec "paths" 4096 4 BPF_MAP_TYPE_HASH 1024 false;
  map_spec "paths_short" 256 4 BPF_MAP_TYPE_HASH 1024 false;
  map_spec "policy_cfg" 4 40 BPF_MAP_TYPE_ARRAY 1 false;
  map_spec "scratch" 4 8192 BPF_MAP_TYPE_PERCPU_ARRAY 1 false;
  map_spec "stats" 4 8 BPF_MAP_TYPE_PERCPU_ARRAY 9 false;
  map_spec "guard_slots" 80 4 BPF_MAP_TYPE_HASH 1024 false;
  map_spec "guard_dirs" 16 4 BPF_MAP_TYPE_HASH 32 false;
  map_spec "endpoint_names" 116 4 BPF_MAP_TYPE_HASH 1024 false;
  map_spec "object_roles" 4 4 BPF_MAP_TYPE_INODE_STORAGE 0 false;
  map_spec "stream_roles" 4 24 BPF_MAP_TYPE_SK_STORAGE 0 false;
  map_spec "role_generation" 4 8 BPF_MAP_TYPE_ARRAY 1 false;
  map_spec "guard_config" 4 8 BPF_MAP_TYPE_ARRAY 1 false;
  map_spec "guard_stats" 4 8 BPF_MAP_TYPE_PERCPU_ARRAY 4 false;
  map_spec "negative_roles" 24 8 BPF_MAP_TYPE_LRU_HASH 65536 false;
  map_spec "held_roles" 24 4 BPF_MAP_TYPE_HASH 4096 true].

(** ** What the kernel reports of a pin *)

Record map_info := { i_id : Z; i_key : Z; i_value : Z; i_type : Z; i_entries : Z; i_name : String.string }.

Inductive attach_type := BPF_LSM_CGROUP | BPF_LSM_MAC | BPF_TRACE_FEXIT | OtherAttach.
Inductive prog_type := BPF_PROG_TYPE_LSM | BPF_PROG_TYPE_TRACING | OtherProg.
#[export] Instance attach_type_eq_dec : EqDecision attach_type.
Proof. solve_decision. Defined.
#[export] Instance prog_type_eq_dec : EqDecision prog_type.
Proof. solve_decision. Defined.

Record prog_info := { p_type : prog_type; p_name : String.string; p_attach : Z; p_maps : list Z }.

(** A link's type with what it is attached to. *)
Inductive link_type := CgroupLink (a : attach_type) (cgroup_id : Z) | TracingLink (a : attach_type) (target : Z) | OtherLink.
Record link_info := { l_type : link_type; l_prog_id : Z; l_prog : option prog_info }.

Inductive pinned := PinnedMap (i : map_info) | PinnedLink (l : link_info) | OtherPin.
Abbreviation pin_directory := (gmap String.string pinned).

Definition legacy_capacity (name : String.string) (entries : Z) : bool :=
  (entries =? 128) && (bool_decide (name = "guard_slots"%string) || bool_decide (name = "endpoint_names"%string)).

Definition map_fd (dir : pin_directory) (spec : MapSpec) : option map_info :=
  match dir !! s_name spec with
  | Some (PinnedMap i) =>
      if (i_key i =? s_key spec) && (i_value i =? s_value spec) && (i_type i =? s_type spec) &&
         ((i_entries i =? s_entries spec) || legacy_capacity (s_name spec) (i_entries i)) &&
         bool_decide (i_name i = s_name spec)
      then Some i else None
  | _ => None
  end.

(** ** [inspect_generation] *)

Record Generation := { gen_classifiers : gset Z; gen_links : nat; gen_maps : bool }.

Record map_scan := { owned : gset Z; pinned_maps : nat; legacy_maps : nat; missing_added : nat }.

(** The loop over the maps. *)
Fixpoint scan_maps (dir : pin_directory) (partial : bool) (specs : list MapSpec) (acc : map_scan) : option map_scan :=
  match specs with
  | [] => Some acc
  | spec :: specs =>
      if (partial || s_added spec) && bool_decide (dir !! s_name spec = None) then
        scan_maps dir partial specs {| owned := owned acc; pinned_maps := pinned_maps acc; legacy_maps := legacy_maps acc;
                                       missing_added := missing_added acc + if s_added spec then 1 else 0 |}
      else
        i ← map_fd dir spec;
        scan_maps dir partial specs {| owned := {[ i_id i ]} ∪ owned acc; pinned_maps := S (pinned_maps acc);
                                       legacy_maps := legacy_maps acc + (if i_entries i =? s_entries spec then 0 else 1);
                                       missing_added := missing_added acc |}
  end.

Section Inspect.
(** The kernel's type identifier of the function a link hooks. *)
Context (hook_type : LinkSpec -> Z).

(** The link is attached where the specification says. *)
Definition link_attached (spec : LinkSpec) (partial : bool) (cgroup_id : Z) (l : link_info) : bool :=
  match kind spec with
  | LINK_CGROUP => match l_type l with
                   | CgroupLink a id => bool_decide (a = BPF_LSM_CGROUP) && negb (partial && negb (id =? cgroup_id))
                   | _ => false
                   end
  | k => match l_type l with
         | TracingLink a target =>
             bool_decide (a = match k with LINK_FEXIT => BPF_TRACE_FEXIT | _ => BPF_LSM_MAC end) && (target =? hook_type spec)
         | _ => false
         end
  end.

(** Its program is the one the specification names, on the same hook. *)
Definition program_matches (spec : LinkSpec) (p : prog_info) : bool :=
  bool_decide (p_type p = match kind spec with LINK_FEXIT => BPF_PROG_TYPE_TRACING | _ => BPF_PROG_TYPE_LSM end) &&
  bool_decide (p_name p = program spec) && (p_attach p =? hook_type spec).

Record link_scan := { classifiers : gset Z; scanned_links : nat; used : gset Z }.

(** One pinned link, verified. *)
Definition scan_link (dir : pin_directory) (partial : bool) (cgroup_id : Z) (ids : gset Z) (spec : LinkSpec) (acc : link_scan)
  : option link_scan :=
  match dir !! pin spec with
  | Some (PinnedLink l) =>
      if negb (link_attached spec partial cgroup_id l) then None else
      p ← l_prog l;
      if negb (program_matches spec p) then None
      else if negb (forallb (fun id => bool_decide (id ∈ ids)) (p_maps p)) then None
      else Some {| classifiers := match kind spec with LINK_CGROUP => {[ l_prog_id l ]} | _ => ∅ end ∪ classifiers acc;
                   scanned_links := S (scanned_links acc); used := list_to_set (p_maps p) ∪ used acc |}
  | _ => None
  end.

(** The loop over the links; [i] is the index of the next one. *)
Fixpoint scan_links (dir : pin_directory) (partial legacy maps_complete : bool) (cgroup_id : Z) (ids : gset Z)
    (specs : list LinkSpec) (i : nat) (acc : link_scan) : option link_scan :=
  match specs with
  | [] => Some acc
  | spec :: specs =>
      if (partial || (legacy && added spec)) && bool_decide (dir !! pin spec = None) then
        scan_links dir partial legacy maps_complete cgroup_id ids specs (S i) acc
      else if partial && (negb (scanned_links acc =? i)%nat || negb maps_complete) then None
      else acc ← scan_link dir partial cgroup_id ids spec acc;
           scan_links dir partial legacy maps_complete cgroup_id ids specs (S i) acc
  end.

(** [inspect_generation(dir, partial, cgroup_id)]; [configured] says that
    [configuration(dir)] does not throw. *)
Definition inspect_generation (dir : pin_directory) (configured partial : bool) (cgroup_id : Z) : option Generation :=
  if negb (forallb (fun name => bool_decide (name ∈ load_order)) (map fst (map_to_list dir))) then None
  else if negb partial && negb configured then None
  else
    m ← scan_maps dir partial map_specs {| owned := ∅; pinned_maps := 0; legacy_maps := 0; missing_added := 0 |};
    let complete := (pinned_maps m =? length map_specs)%nat in
    if negb (legacy_maps m =? 0)%nat && negb (legacy_maps m =? 2)%nat then None
    else
      let legacy := negb partial && (legacy_maps m =? 2)%nat && negb (missing_added m =? 0)%nat &&
                    forallb (fun spec => negb (added spec) || bool_decide (dir !! pin spec = None)) links in
      if negb partial && negb (missing_added m =? 0)%nat && negb legacy then None
      else
        r ← scan_links dir partial legacy complete cgroup_id (owned m) links 0
              {| classifiers := ∅; scanned_links := 0; used := ∅ |};
        if negb partial && negb (bool_decide (owned m = used r)) then None
        else Some {| gen_classifiers := classifiers r; gen_links := scanned_links r; gen_maps := complete |}.

End Inspect.

(** ** What an accepted directory holds *)

Lemma map_spec_names : map s_name map_specs = map_names.
Proof. reflexivity. Qed.

Abbreviation present dir name := (is_Some (dir !! name)).

(** The scan of the maps counts the present ones; an absent one it accepts is
    one it may lack. *)
Lemma scan_maps_count dir partial specs acc m :
  scan_maps dir partial specs acc = Some m ->
  (pinned_maps m <= pinned_maps acc + length specs)%nat /\
  (pinned_maps m = pinned_maps acc + length specs -> forall spec, spec ∈ specs -> present dir (s_name spec))%nat.
Proof.
  revert acc. induction specs as [|spec specs IH]; intros acc E; cbn [scan_maps length] in *.
  - simplify_eq. split; [lia|]. intros _ spec Hs. by apply not_elem_of_nil in Hs.
  - case_match.
    + apply IH in E as [E1 E2]. cbn in *. split; lia.
    + destruct (map_fd dir spec) as [i|] eqn:Ei; [|done]. cbn in E. apply IH in E as [E1 E2]. cbn in *.
      split; [lia|]. intros Hn spec' [->|Hs]%elem_of_cons; [|apply E2; [lia|done]].
      unfold map_fd in Ei. destruct (dir !! s_name spec); [eauto|done].
Qed.

(** The only map a directory may lack when it is not partial. *)
Lemma missing_is_added dir specs acc m :
  scan_maps dir false specs acc = Some m -> missing_added m <> missing_added acc ->
  exists spec, spec ∈ specs /\ s_added spec = true /\ dir !! s_name spec = None.
Proof.
  revert acc. induction specs as [|spec specs IH]; intros acc E Hn; cbn [scan_maps orb] in E; [by simplify_eq|].
  case_match eqn:Ea.
  - bool_to_prop. exists spec. split; [by left|done].
  - destruct (map_fd dir spec) as [i|]; [|done]. cbn in E. apply IH in E as (spec' & ? & ?); [|done].
    exists spec'. split; [by right|done].
Qed.

Lemma missing_is_held dir m acc :
  scan_maps dir false map_specs acc = Some m -> missing_added m <> missing_added acc -> dir !! "held_roles"%string = None.
Proof.
  intros E Hn. destruct (missing_is_added _ _ _ _ E Hn) as (spec & Hs & Ha & Hd). unfold map_specs in Hs.
  repeat (apply elem_of_cons in Hs as [->|Hs]; [first [discriminate Ha|exact Hd]|]). by apply not_elem_of_nil in Hs.
Qed.

(** Names before links, and of the links a prefix. *)
Lemma prefix_names (dir : pin_directory) (names : list String.string) (specs : list LinkSpec) k :
  (forall name, present dir name -> name ∈ names ++ map pin specs) -> (forall name, name ∈ names -> present dir name) ->
  (forall spec, spec ∈ take k specs -> present dir (pin spec)) -> (forall spec, spec ∈ drop k specs -> dir !! pin spec = None) ->
  dom dir = list_to_set (take (length names + k) (names ++ map pin specs)).
Proof.
  intros Hknown Hall Hp Hd. apply set_eq. intros name. rewrite elem_of_list_to_set, take_app_add, firstn_map, elem_of_dom, elem_of_app.
  split.
  - intros Hname. pose proof (Hknown name Hname) as Hin. rewrite elem_of_app in Hin.
    destruct Hin as [?|Hin]; [by left|]. right. rewrite <- (take_drop k specs), map_app, elem_of_app in Hin.
    destruct Hin as [?|Hin]; [done|]. apply list_elem_of_In, in_map_iff in Hin as (spec & <- & Hs).
    apply list_elem_of_In, Hd in Hs. rewrite Hs in Hname. by destruct Hname.
  - intros [Hin|Hin]; [by apply Hall|].
    apply list_elem_of_In, in_map_iff in Hin as (spec & <- & Hs). by apply Hp, list_elem_of_In.
Qed.

Lemma verified_map_names (dir : pin_directory) :
  (forall spec, spec ∈ map_specs -> present dir (s_name spec)) -> forall name, name ∈ map_names -> present dir name.
Proof.
  rewrite <- map_spec_names. intros Hall name Hin. apply list_elem_of_In, in_map_iff in Hin as (spec & <- & Hs).
  by apply Hall, list_elem_of_In.
Qed.

Section Accepted.
#[local] Opaque links map_specs map_names.
Context (hook_type : LinkSpec -> Z).

(** A link that was verified. *)
Definition verified (dir : pin_directory) (partial : bool) (cg : Z) (ids : gset Z) (spec : LinkSpec) : Prop :=
  exists l p, dir !! pin spec = Some (PinnedLink l) /\ l_prog l = Some p /\
    link_attached hook_type spec partial cg l = true /\ program_matches hook_type spec p = true /\
    forall id, id ∈ p_maps p -> id ∈ ids.

Lemma scan_link_inv dir partial cg ids spec acc r :
  scan_link hook_type dir partial cg ids spec acc = Some r ->
  verified dir partial cg ids spec /\ scanned_links r = S (scanned_links acc).
Proof.
  unfold scan_link. destruct (dir !! pin spec) as [[|l|]|] eqn:El; try done. case_match eqn:Ha; [done|].
  destruct (l_prog l) as [p|] eqn:Ep; [|done]. cbn. case_match eqn:Hm; [done|]. case_match eqn:Hf; [done|].
  intros [= <-]. cbn. split; [|done]. exists l, p. bool_to_prop. repeat (split; [done|]).
  rewrite forallb_forall in Hf. intros id Hid. apply list_elem_of_In, Hf in Hid. by bool_to_prop.
Qed.

(** Interrupted directories: the present links are the first ones. *)
Lemma scan_links_prefix dir legacy complete cg ids specs i acc r :
  (scanned_links acc <= i)%nat ->
  scan_links hook_type dir true legacy complete cg ids specs i acc = Some r ->
  exists k, (k <= length specs)%nat /\ scanned_links r = (scanned_links acc + k)%nat /\
    (forall spec, spec ∈ take k specs -> verified dir true cg ids spec) /\
    (forall spec, spec ∈ drop k specs -> dir !! pin spec = None) /\
    (0 < k -> complete = true /\ scanned_links acc = i)%nat.
Proof.
  revert i acc. induction specs as [|spec specs IH]; intros i acc Hi E; cbn [scan_links orb andb] in E.
  { simplify_eq. exists 0%nat. repeat split; try (cbn; lia); intros spec Hs; by apply not_elem_of_nil in Hs. }
  case_bool_decide as Ha.
  - apply IH in E as (k & Hk & Er & Hp & Hd & Hc); [|lia]. assert (k = 0)%nat as -> by lia.
    exists 0%nat. repeat split; try lia.
    + intros spec' Hs. by apply not_elem_of_nil in Hs.
    + cbn [drop] in *. intros spec' [->|Hs]%elem_of_cons; auto.
  - case_match eqn:Hc; [done|]. bool_to_prop. destruct (scan_link _ _ _ _ _ _ _) as [acc'|] eqn:El; [|done]. cbn in E.
    apply scan_link_inv in El as [Hv Hs]. apply IH in E as (k & Hk & Er & Hp & Hd & _); [|lia].
    exists (S k). cbn [length take drop]. repeat split; try lia; try done.
    intros spec' [->|Hin]%elem_of_cons; auto.
Qed.

(** Complete directories: every link is verified, or is one the earlier build
    lacks. *)
Lemma scan_links_complete dir legacy complete cg ids specs i acc r :
  scan_links hook_type dir false legacy complete cg ids specs i acc = Some r ->
  forall spec, spec ∈ specs ->
    verified dir false cg ids spec \/ (legacy = true /\ added spec = true /\ dir !! pin spec = None).
Proof.
  revert i acc. induction specs as [|spec specs IH]; intros i acc E spec' Hin; [by apply not_elem_of_nil in Hin|].
  cbn [scan_links orb andb] in E. case_match eqn:Ha.
  - apply elem_of_cons in Hin as [->|Hin]; [right; by bool_to_prop|by eapply IH].
  - destruct (scan_link _ _ _ _ _ _ _) as [acc'|] eqn:El; [|done]. cbn in E. apply scan_link_inv in El as [Hv _].
    apply elem_of_cons in Hin as [->|Hin]; [by left|by eapply IH].
Qed.

Lemma inspect_known dir configured partial cg g :
  inspect_generation hook_type dir configured partial cg = Some g -> forall name, present dir name -> name ∈ load_order.
Proof.
  unfold inspect_generation. case_match eqn:E; [done|]. intros _ name [x Hx]. bool_to_prop.
  rewrite forallb_forall in E. specialize (E name). rewrite bool_decide_eq_true in E. apply E, in_map_iff.
  exists (name, x). split; [done|]. by apply list_elem_of_In, elem_of_map_to_list.
Qed.

(** C15: what the loader takes for its own interrupted work is one: the links
    of an accepted partial directory are the first of the pin order, each
    attached to its own hook by its own program, and as soon as there is one,
    the directory holds exactly a prefix of the pin order, the state [Loader]
    describes by its length. *)
Theorem interrupted_is_prefix dir configured cg g :
  inspect_generation hook_type dir configured true cg = Some g ->
  (gen_links g <= n_links)%nat /\
  (forall spec, spec ∈ drop (gen_links g) links -> dir !! pin spec = None) /\
  (exists ids, forall spec, spec ∈ take (gen_links g) links -> verified dir true cg ids spec) /\
  ((0 < gen_links g)%nat -> gen_maps g = true /\ dom dir = loaded (n_maps + gen_links g)).
Proof.
  intros E. pose proof (inspect_known _ _ _ _ _ E) as Hknown. unfold inspect_generation in E.
  case_match; [done|]. cbn [negb andb] in E.
  destruct (scan_maps _ _ _ _) as [m|] eqn:Em; [|done]. cbn [mbind option_bind] in E. case_match; [done|].
  destruct (scan_links _ _ _ _ _ _ _ _ _ _) as [r|] eqn:Er; [|done]. cbn [mbind option_bind] in E.
  apply scan_links_prefix in Er as (k & Hk & Hr & Hp & Hd & Hc); [|done]. cbn in Hr. apply (inj Some) in E. subst g.
  cbn [gen_links gen_maps]. rewrite Hr. split; [exact Hk|]. split; [done|]. split; [by exists (owned m)|].
  intros Hpos. destruct (Hc Hpos) as [Hcomp _]. split; [done|]. bool_to_prop.
  apply scan_maps_count in Em as [_ Hall]. specialize (Hall Hcomp).
  apply prefix_names; [done|by apply verified_map_names| |done].
  intros spec (l & p & -> & _)%Hp. eauto.
Qed.

(** A published directory the loader works on is a whole guard: every link
    of the set is pinned, attached to its own hook by its own program over maps
    of the directory, except that the earlier build, recognised by its smaller
    guard maps, may lack all the links added since, never some of them. *)
Theorem published_is_complete dir configured cg g :
  inspect_generation hook_type dir configured false cg = Some g ->
  configured = true /\ exists ids,
    (forall spec, spec ∈ links -> verified dir false cg ids spec) \/
    ((forall spec, spec ∈ links -> added spec = false -> verified dir false cg ids spec) /\
     (forall spec, spec ∈ links -> added spec = true -> dir !! pin spec = None) /\
     dir !! "held_roles"%string = None).
Proof.
  unfold inspect_generation. case_match; [done|]. case_match eqn:Hcfg; [done|]. cbn [negb andb].
  destruct (scan_maps _ _ _ _) as [m|] eqn:Em; [|done]. cbn [mbind option_bind]. case_match; [done|].
  set (legacy := _ && forallb _ links). case_match eqn:Hmiss; [done|].
  destruct (scan_links _ _ _ _ _ _ _ _ _ _) as [r|] eqn:Er; [|done]. intros _. cbn [negb andb] in Hcfg. bool_to_prop.
  split; [done|]. exists (owned m). pose proof (scan_links_complete _ _ _ _ _ _ _ _ _ Er) as Hl.
  destruct legacy eqn:El.
  - right. subst legacy. bool_to_prop. rewrite forallb_forall in *.
    assert (forall spec, spec ∈ links -> added spec = true -> dir !! pin spec = None) as Habs.
    { intros spec Hs Ha. match goal with F : forall x, In x links -> _ |- _ => specialize (F spec); rewrite Ha in F; cbn [negb orb] in F end.
      rewrite bool_decide_eq_true in *. apply list_elem_of_In in Hs. auto. }
    split; [|split; [done|]].
    + intros spec Hs Ha. destruct (Hl spec Hs) as [?|(_ & ? & _)]; [done|congruence].
    + eapply missing_is_held; [exact Em|done].
  - left. intros spec Hs. by destruct (Hl spec Hs) as [?|[? _]].
Qed.

End Accepted.

(** ** Competing attachments *)

(** What is seen of a cgroup during the walk: it may be gone when opened or
    listed; [query] is the number of effective attachments ([None]: an error
    other than a full buffer) and [listed] what the second query fills in
    ([None]: it failed). *)
Inductive cgroup :=
  | Gone
  | Unopened
  | Group (query : option Z) (listed : option (list Z)) (children : option (list cgroup)).

(** The attachments of one cgroup are tolerated. *)
Definition tolerated (interrupted : gset Z) (query : option Z) (listed : option (list Z)) : bool :=
  match query with
  | None => false
  | Some count =>
      if count =? 0 then true
      else if bool_decide (interrupted = ∅) then false
      else match listed with
           | None => false
           | Some ids => (Z.of_nat (length ids) <=? count) && forallb (fun id => bool_decide (id ∈ interrupted)) ids
           end
  end.

(** [reject_competitors(group, interrupted)]: whether it returns.  [children]
    is [None] when listing fails, and [Some []] when the group is gone by then. *)
Fixpoint reject_competitors (interrupted : gset Z) (group : cgroup) : bool :=
  match group with
  | Gone => true
  | Unopened => false
  | Group query listed children =>
      tolerated interrupted query listed &&
      match children with
      | None => false
      | Some groups =>
          (fix each groups := match groups with
                              | [] => true
                              | g :: groups => reject_competitors interrupted g && each groups
                              end) groups
      end
  end.

(** The groups of the tree. *)
Inductive within : cgroup -> cgroup -> Prop :=
  | within_here g : within g g
  | within_child g query listed children child :
      child ∈ children -> within g child -> within g (Group query listed (Some children)).

Lemma reject_children interrupted query listed children :
  reject_competitors interrupted (Group query listed (Some children)) =
    tolerated interrupted query listed && forallb (reject_competitors interrupted) children.
Proof. reflexivity. Qed.

(** A load that goes on has no competitor: in every cgroup below the
    target, gone ones apart, the effective attachments are none at all or are
    all classifiers of an interrupted load of this very directory. *)
Theorem no_competitor_left interrupted root query listed children :
  reject_competitors interrupted root = true -> within (Group query listed children) root ->
  query = Some 0 \/
  exists ids, listed = Some ids /\ (forall id, id ∈ ids -> id ∈ interrupted).
Proof.
  intros Hr Hw. remember (Group query listed children) as g eqn:Eg. induction Hw as [g|g q l cs child Hc _ IH].
  - subst g. cbn [reject_competitors] in Hr. apply andb_true_iff in Hr as [Ht _]. unfold tolerated in Ht.
    destruct query as [count|]; [|done]. destruct (count =? 0) eqn:E0; [left; f_equal; lia|].
    case_match; [done|]. destruct listed as [ids|]; [|done]. bool_to_prop. right. exists ids. split; [done|].
    intros id Hid. rewrite forallb_forall in *. apply list_elem_of_In in Hid.
    match goal with F : forall x, In x ids -> _ |- _ => specialize (F id Hid) end. by bool_to_prop.
  - rewrite reject_children in Hr. apply andb_true_iff in Hr as [_ Hr]. rewrite forallb_forall in Hr.
    apply IH; [|done]. by apply Hr, list_elem_of_In.
Qed.

(** [settled(dir)]: the earlier build never gates on it. *)
Definition settled (slot_entries epoch : Z) : bool := (slot_entries =? 128) || has_bits epoch GUARD_SETTLED.

(** ** Concrete directories *)

Module DemoPins.

Definition hooks : LinkSpec -> Z := fun _ => 42.
Definition map_pin (id : Z) (spec : MapSpec) : String.string * pinned :=
  (s_name spec, PinnedMap {| i_id := id; i_key := s_key spec; i_value := s_value spec; i_type := s_type spec;
                             i_entries := s_entries spec; i_name := s_name spec |}).
Definition link_pin (ids : list Z) (spec : LinkSpec) : String.string * pinned :=
  (pin spec, PinnedLink {| l_type := match kind spec with
                                     | LINK_CGROUP => CgroupLink BPF_LSM_CGROUP 9
                                     | LINK_LSM => TracingLink BPF_LSM_MAC 42
                                     | LINK_FEXIT => TracingLink BPF_TRACE_FEXIT 42
                                     end;
                           l_prog_id := 100;
                           l_prog := Some {| p_type := match kind spec with
                                                       | LINK_FEXIT => BPF_PROG_TYPE_TRACING | _ => BPF_PROG_TYPE_LSM end;
                                             p_name := program spec; p_attach := 42; p_maps := ids |} |}).
Definition all_pins : list (String.string * pinned) :=
  imap (fun i spec => map_pin (Z.of_nat i) spec) map_specs ++ map (link_pin (map Z.of_nat (seq 0 15))) links.
Definition directory (n : nat) : pin_directory := list_to_map (take n all_pins).
Definition interrupted_load : Generation := {| gen_classifiers := {[ 100 ]}; gen_links := 5; gen_maps := true |}.
Definition whole_load : Generation := {| gen_classifiers := {[ 100 ]}; gen_links := 15; gen_maps := true |}.

End DemoPins.
Import DemoPins.

Lemma interrupted_is_prefix_witness : gen_maps interrupted_load = true /\ dom (directory 20) = loaded 20.
Proof.
  apply (interrupted_is_prefix hooks (directory 20) false 9 interrupted_load); [vm_compute; reflexivity|].
  cbn [interrupted_load gen_links]. lia.
Defined.

Lemma published_is_complete_witness : true = true /\ exists ids,
  (forall spec, spec ∈ links -> verified hooks (directory 30) false 9 ids spec) \/
  ((forall spec, spec ∈ links -> added spec = false -> verified hooks (directory 30) false 9 ids spec) /\
   (forall spec, spec ∈ links -> added spec = true -> directory 30 !! pin spec = None) /\
   directory 30 !! "held_roles"%string = None).
Proof. apply (published_is_complete hooks (directory 30) true 9 whole_load). vm_compute. reflexivity. Defined.

Lemma no_competitor_left_witness :
  Some 1 = Some 0 \/ exists ids, Some [100] = Some ids /\ (forall id, id ∈ ids -> id ∈ ({[ 100 ]} : gset Z)).
Proof.
  apply (no_competitor_left {[ 100 ]} (Group (Some 0) None (Some [Gone; Group (Some 1) (Some [100]) (Some [])])) (Some 1) (Some [100]) (Some [])).
  - vm_compute. reflexivity.
  - eapply within_child; [right; left|apply within_here].
Defined.

(** An interrupted directory without links need not be a prefix of the pin
    order: any of the maps alone is accepted. *)
Example scattered_maps_accepted :
  inspect_generation hooks {[ "held_roles"%string := (map_pin 3 (map_spec "held_roles" 24 4 BPF_MAP_TYPE_HASH 4096 true)).2 ]}
    false true 9 = Some {| gen_classifiers := ∅; gen_links := 0; gen_maps := false |}.
Proof. vm_compute. reflexivity. Qed.
