(* ===== verification/Control.v ===== *)
(** * Control: the loader's commands on a published guard

    Models the commands of [src/src/linux/native/bpf-loader.cpp] that change or
    examine a guard already pinned: [configuration], the [guard-slot] and
    [state] commands of [main], [ready_preflight], [verify_context] and the
    command dispatch.  The maps are those of [Guard], the host's answers those
    of [Enroll]. *)
From S2P Require Import Prelude Kernel Policy Guard GuardStreams Numbers Loader Text Mounts Enroll.

(** ** Name service preflight *)

Definition nsswitch : list Z := str "/etc/nsswitch.conf".

(** The words of one line's value: from the colon to a comment.  The length
    [line.find('#') - colon - 1] wraps when the mark is absent or precedes the
    colon, and then reaches the end of the line. *)
Definition line_words (line : list Z) : list (list Z) :=
  match find_char 58 line with
  | None => []
  | Some colon =>
      match words (take colon line) with
      | name :: _ =>
          if is_text name "hosts" then
            let value := drop (S colon) line in
            words (match find_char 35 line with
                   | Some hash => if (hash <? colon)%nat then value else take (hash - colon - 1) value
                   | None => value
                   end)
          else []
      | [] => []
      end
  end.

(** [hosts += ' ' + word]. *)
Definition add_word (hosts word : list Z) : list Z :=
  if bool_decide (hosts = []) then word else hosts ++ 32 :: word.

Definition hosts_line (text : list Z) : list Z :=
  foldl add_word [] (concat (map line_words (getlines newline text))).

Definition ready_preflight (text : list Z) : bool :=
  is_text (hosts_line text) "files dns" || is_text (hosts_line text) "files mdns4_minimal [NOTFOUND=return] dns".

(** ** Commands that change the maps *)

Definition set_policy_cfg (pm : policy_maps) (cfg : policy_config) : policy_maps :=
  {| paths := paths pm; paths_short := paths_short pm; policy_cfg := Some cfg; scratch := scratch pm; stats := stats pm |}.
Definition set_policy s pm := {| guard_slots := guard_slots s; guard_dirs := guard_dirs s;
  endpoint_names := endpoint_names s; object_roles := object_roles s; negative_roles := negative_roles s;
  held_roles := held_roles s; stream_roles := stream_roles s; role_generation := role_generation s;
  guard_config := guard_config s; guard_stats := guard_stats s; Guard.g_policy := pm |}.

Definition set_ready (cfg : policy_config) (value : Z) : policy_config :=
  {| version := version cfg; ready := value; mask := mask cfg; mark := mark cfg; root_dev := root_dev cfg;
     root_ino := root_ino cfg; netns := netns cfg; userns := userns cfg |}.

(** [try { m } catch (...) { f; throw; } f]: [f] runs either way. *)
Definition finally {A} (m : act A) (f : act unit) : act A := fun s =>
  let '(result, s1) := m s in
  match f s1 with (Some _, s2) => (result, s2) | (None, s2) => (None, s2) end.

Section Commands.
Context `{H : Host}.

(** A pinned map opened and one key read. *)
Definition read_map {A} (f : guard -> option A) : act A :=
  readable ← call map_read_ok;
  if negb readable then throw else s ← get_guard; need (f s).

Definition update_map (f : guard -> guard) : act unit :=
  writable ← call map_write_ok;
  if negb writable then throw else with_guard f.

Definition configuration : act policy_config :=
  cfg ← read_map (fun s => policy_cfg (Guard.g_policy s));
  if negb (version cfg =? POLICY_ABI) then throw else mret cfg.

(** [guard-slot DIR KIND INPUT]. *)
Definition guard_slot_command (kind input : list Z) : act unit :=
  cfg ← configuration;
  if negb (ready cfg =? 0) then throw else
  epoch ← read_map guard_config;
  if has_bits epoch 1 || (2 ^ 64 - 1 - 2 <? epoch) then throw else
  _ ← update_map (fun s => set_config s (Some (epoch + 1)));
  finally (guard_slot_add (netns cfg) kind input) (update_map (fun s => set_config s (Some (epoch + 2)))).

(** [state DIR VALUE]. *)
Definition state_command (value : list Z) : act unit :=
  cfg ← configuration;
  if negb (is_text value "ready") && negb (is_text value "blocked") then throw else
  let cfg := set_ready cfg (if is_text value "ready" then 1 else 0) in
  _ ← (if negb (ready cfg =? 0) then
         epoch ← read_map guard_config;
         if has_bits epoch 1 then throw else
         text ← call (fun t => read_text t nsswitch);
         if ready_preflight text then done_ else throw
       else done_);
  update_map (fun s => set_policy s (set_policy_cfg (Guard.g_policy s) cfg)).

End Commands.

(** ** Updating the roles of a running guard *)

Lemma bind_inv {A B} (m : act A) (k : A -> act B) s r s' :
  (m ≫= k) s = (r, s') ->
  (exists a s1, m s = (Some a, s1) /\ k a s1 = (r, s')) \/ (m s = (None, s') /\ r = None).
Proof.
  unfold mbind, act_bind. destruct (m s) as [[a|] s1]; [eauto|]. intros [= <- <-]. by right.
Qed.

Section Updates.
Context `{H : Host}.

Lemma read_map_inv {A} (f : guard -> option A) s r s' :
  read_map f s = (r, s') -> h_maps s' = h_maps s /\ (forall a, r = Some a -> f (h_maps s) = Some a).
Proof.
  unfold read_map, mbind, act_bind, call, get_guard, need, throw. cbn. intros E.
  destruct (map_read_ok (h_calls s)); cbn in E; [|by simplify_eq].
  destruct (f (h_maps s)); unfold throw, mret, act_ret in E; simplify_eq; (split; [done|]); intros; by simplify_eq.
Qed.

Lemma update_map_inv f s r s' :
  update_map f s = (r, s') -> (r = Some tt /\ h_maps s' = f (h_maps s)) \/ (r = None /\ h_maps s' = h_maps s).
Proof.
  unfold update_map, mbind, act_bind, call, with_guard, throw. cbn. intros E.
  destruct (map_write_ok (h_calls s)); cbn in E; simplify_eq; auto.
Qed.

Lemma configuration_inv s r s' :
  configuration s = (r, s') ->
  h_maps s' = h_maps s /\
  (forall cfg, r = Some cfg -> policy_cfg (Guard.g_policy (h_maps s)) = Some cfg /\ version cfg = POLICY_ABI).
Proof.
  intros [(cfg & s1 & E1 & E2)|[E1 ->]]%bind_inv; apply read_map_inv in E1 as [M1 F1]; [|done].
  revert E2. case_match; unfold throw, mret, act_ret; intros [= <- <-]; split; try done.
  intros ? [= <-]. bool_to_prop. eauto.
Qed.

(** How a [guard-slot] command ends: refused before any change, or with the
    word odd during the enrollment and even again after it, whether the
    enrollment returned or threw; only a failing last update leaves it odd. *)
Lemma guard_slot_command_inv kind input s r s' :
  guard_slot_command kind input s = (r, s') ->
  (r = None /\ h_maps s' = h_maps s) \/
  exists cfg e s1 s2, policy_cfg (Guard.g_policy (h_maps s)) = Some cfg /\ ready cfg = 0 /\
    guard_config (h_maps s) = Some e /\ has_bits e 1 = false /\ e <= 2 ^ 64 - 3 /\
    h_maps s1 = set_config (h_maps s) (Some (e + 1)) /\
    (guard_slot_add (netns cfg) kind input s1).2 = s2 /\
    (h_maps s' = set_config (h_maps s2) (Some (e + 2)) \/ (r = None /\ h_maps s' = h_maps s2)).
Proof.
  intros [(cfg & s0 & E0 & E)|[E0 ->]]%bind_inv; apply configuration_inv in E0 as [M0 F0]; [|by left].
  destruct (F0 cfg eq_refl) as [Hc _]. case_match eqn:Hr; [unfold throw in E; simplify_eq; by left|]. bool_to_prop.
  apply bind_inv in E as [(e & s1 & E1 & E)|[E1 ->]]; apply read_map_inv in E1 as [M1 F1]; [|left; split; congruence].
  specialize (F1 e eq_refl). case_match eqn:Hb; [unfold throw in E; simplify_eq; left; split; congruence|]. bool_to_prop.
  apply bind_inv in E as [([] & s2 & E2 & E)|[E2 ->]]; apply update_map_inv in E2 as [[? M2]|[? M2]]; simplify_eq.
  2: { left. split; congruence. }
  right. exists cfg, e, s2, (guard_slot_add (netns cfg) kind input s2).2. rewrite M0 in *. rewrite M1 in *.
  repeat (split; [first [done|lia]|]). unfold finally in E.
  destruct (guard_slot_add (netns cfg) kind input s2) as [r3 s3]. cbn [snd].
  destruct (update_map _ s3) as [r4 s4] eqn:E4. apply update_map_inv in E4 as [[-> M4]|[-> M4]]; simplify_eq; auto.
Qed.

(** The counters have room for two more enrollment steps. *)
Definition counters_ample (g : guard) : Prop :=
  match role_version g with
  | Some v => v.1 + v.2 + 3 < 2 ^ 63 /\ (v.2 + 3 < 2 ^ 62 \/ 2 ^ 62 <= v.2)
  | None => True
  end.

(** C14: changing the guard's roles at run time refines the labelling machine:
    whatever the host answers and wherever the command throws, either the maps
    are untouched or the change is a sequence of that machine's steps, during
    which any endpoint may become protected.  So no SAFE label survives it that
    rests on an endpoint the command protected. *)
Theorem guard_slot_simulated kind input s r s' y p :
  GuardStreams.maps y = h_maps s -> counters_ample (h_maps s) ->
  guard_slot_command kind input s = (r, s') ->
  (r = None /\ h_maps s' = h_maps s) \/
  rtc step y (with_ends (with_maps y (h_maps s')) p (pending y) (unobserved y)).
Proof.
  intros Hy Ha E. apply guard_slot_command_inv in E as [?|(cfg & e & s1 & s2 & _ & _ & He & Hb & Hle & M1 & E2 & Hf)]; [by left|].
  right. pose proof (growing_slot_add (netns cfg) kind input s1) as G. rewrite E2, M1 in G.
  set (g1 := set_config (h_maps s) (Some (e + 1))) in *.
  assert (has_bits (e + 1) 1 = true) as Hodd by (rewrite has_bits_odd in *; by rewrite Z.add_1_r, Z.odd_succ, <- Z.negb_odd, Hb).
  assert (counters_fit (h_maps s) /\ counters_fit (h_maps s2)) as [C1 C2].
  { unfold counters_fit, counters_ample, role_version in *. rewrite (grows_config _ _ G), (grows_generation _ _ G).
    cbn [g1 set_config guard_config role_generation]. rewrite He in *. destruct (role_generation (h_maps s)); [cbn in *; lia|done]. }
  eapply (rtc_l _ _ (with_maps y g1)).
  { apply step_enroll_begin; rewrite Hy; [done|]. unfold enroll_begin. rewrite He. cbn [mbind option_bind].
    rewrite Hb, (proj2 (Z.ltb_ge _ _)) by lia. done. }
  eapply rtc_l; [by apply (step_enroll_change _ p (e + 1))|].
  eapply rtc_l.
  { apply (step_other _ (h_maps s2)). repeat split; cbn [GuardStreams.maps with_maps with_ends]; by destruct G. }
  destruct Hf as [->|[_ ->]]; [|done].
  eapply rtc_l; [|done].
  apply (step_enroll_finish (with_maps (with_ends (with_maps y g1) p (pending y) (unobserved y)) (h_maps s2))
           (set_config (h_maps s2) (Some (e + 2))) (e + 1));
    cbn [GuardStreams.maps with_maps with_ends]; [by rewrite (grows_config _ _ G)|done|done|].
  unfold enroll_finish. rewrite (grows_config _ _ G). cbn. do 3 f_equal. lia.
Qed.

End Updates.

(** ** The preflight reads whole configurations *)

Lemma hosts_words ws : Forall is_word ws -> words (foldl add_word [] ws) = ws.
Proof.
  induction ws as [|w ws IH] using rev_ind; intros Hw; [done|]. apply list.Forall_app in Hw as [Hws Hw].
  apply list.Forall_cons in Hw as [Hw _]. rewrite foldl_app. cbn [foldl]. unfold add_word at 1.
  specialize (IH Hws). case_bool_decide as E.
  - rewrite E in IH. rewrite words_one by done. cbn in IH. by subst ws.
  - unfold words. rewrite words_from_app. fold (words (foldl add_word [] ws)). by rewrite IH, words_one.
Qed.

Lemma line_words_words line : Forall is_word (line_words line).
Proof. unfold line_words. repeat case_match; try apply words_words; constructor. Qed.

(** The value of the [hosts] database, over all lines that set it. *)
Definition hosts_value (text : list Z) : list (list Z) := concat (map line_words (getlines newline text)).

Definition accepted_hosts : list (list (list Z)) :=
  [map str ["files"; "dns"]%string; map str ["files"; "mdns4_minimal"; "[NOTFOUND=return]"; "dns"]%string].

Lemma hosts_line_words text : words (hosts_line text) = hosts_value text.
Proof.
  apply hosts_words. unfold hosts_value. induction (getlines newline text) as [|line lines IH]; [constructor|].
  cbn [map concat]. apply list.Forall_app. split; [apply line_words_words|exact IH].
Qed.

Lemma preflight_exact text : ready_preflight text = true <-> hosts_value text ∈ accepted_hosts.
Proof.
  unfold ready_preflight, is_text, accepted_hosts. rewrite orb_true_iff, !bool_decide_eq_true, !elem_of_cons.
  split.
  - intros [E|E]; rewrite <- hosts_line_words, E; [left|right; left]; by vm_compute.
  - unfold hosts_line. fold (hosts_value text). intros [E|[E|E]]; [left|right|by apply not_elem_of_nil in E]; rewrite E; by vm_compute.
Qed.

Section Ready.
Context `{H : Host}.

(** The guard becomes ready only as a whole and only when it may: the
    [state] command changes nothing but the ready flag, and sets it only while
    no role update is incomplete and on a host whose name service is exactly
    one of the two supported configurations; a command that fails changes
    nothing. *)
Theorem state_command_exact value s r s' :
  state_command value s = (r, s') ->
  (r = None /\ h_maps s' = h_maps s) \/
  exists cfg (b : bool), r = Some tt /\ policy_cfg (Guard.g_policy (h_maps s)) = Some cfg /\
    value = str (if b then "ready" else "blocked") /\
    h_maps s' = set_policy (h_maps s) (set_policy_cfg (Guard.g_policy (h_maps s)) (set_ready cfg (if b then 1 else 0))) /\
    (b = true -> exists e t, guard_config (h_maps s) = Some e /\ has_bits e 1 = false /\
                   hosts_value (read_text t nsswitch) ∈ accepted_hosts).
Proof.
  intros [(cfg & s0 & E0 & E)|[E0 ->]]%bind_inv; apply configuration_inv in E0 as [M0 F0]; [|by left].
  destruct (F0 cfg eq_refl) as [Hc _]. case_match eqn:Hv; [unfold throw in E; simplify_eq; by left|].
  assert (exists b : bool, value = str (if b then "ready" else "blocked") /\ is_text value "ready" = b) as (b & Hb & Eb).
  { destruct (is_text value "ready") eqn:E1; [exists true|exists false]; unfold is_text in *; cbn [negb andb] in Hv; bool_to_prop; done. }
  rewrite Eb in E. apply bind_inv in E as [([] & s1 & E1 & E)|[E1 ->]].
  - assert (h_maps s1 = h_maps s /\ (b = true -> exists e t, guard_config (h_maps s) = Some e /\ has_bits e 1 = false /\
              hosts_value (read_text t nsswitch) ∈ accepted_hosts)) as [M1 Hr].
    { destruct b; cbn in E1; [|unfold done_, mret, act_ret in E1; by simplify_eq].
      apply bind_inv in E1 as [(e & s2 & E2 & E1)|[E2 ?]]; [|done]. apply read_map_inv in E2 as [M2 F2].
      case_match eqn:Hodd; [done|]. unfold mbind, act_bind, call in E1. case_match eqn:Hp; [|done].
      unfold done_, mret, act_ret in E1. simplify_eq. cbn [h_maps]. split; [congruence|]. intros _.
      exists e, (h_calls s2). rewrite <- M0. split; [by apply F2|]. split; [done|by apply preflight_exact]. }
    apply update_map_inv in E as [[-> M2]|[-> M2]]; [right|left; split; congruence].
    exists cfg, b. rewrite M2, M1. auto.
  - left. split; [done|]. destruct b; cbn in E1; [|done].
    apply bind_inv in E1 as [(e & s2 & E2 & E1)|[E2 _]]; apply read_map_inv in E2 as [M2 _]; [|congruence].
    revert E1. case_match; [unfold throw; intros [= <-]; congruence|]. unfold mbind, act_bind, call.
    case_match; unfold done_, mret, act_ret, throw; intros; simplify_eq. cbn. congruence.
Qed.

End Ready.

(** ** Checking the recorded context *)

(** [inside_cgroup(group)], of the texts of [/proc/self/mountinfo] and
    [/proc/self/cgroup]. *)
Fixpoint cgroup_mount (lines : list (list Z)) : list Z :=
  match lines with
  | [] => []
  | line :: lines =>
      match find_text (str " - ") line with
      | None => cgroup_mount lines
      | Some separator =>
          match words (drop (separator + 3) line), words line with
          | type :: _, _ :: _ :: _ :: _ :: point :: _ => if is_text type "cgroup2" then point else cgroup_mount lines
          | _, _ => cgroup_mount lines
          end
      end
  end.

Definition own_cgroup (mount cgroups : list Z) : list Z :=
  foldl (fun self line => if starts_with (str "0::") line then mount ++ drop 3 line else self) [] (getlines newline cgroups).

Definition inside_cgroup (table cgroups group : list Z) : bool :=
  let mount := cgroup_mount (getlines newline table) in
  let self := own_cgroup mount cgroups in
  if bool_decide (mount = []) || bool_decide (self = []) then false
  else bool_decide (self = group) || starts_with (group ++ [47]) self.

(** The two counters before and after the loader's own probe socket. *)
Record sample := { direct : Z; unsupported : Z; direct_after : Z; unsupported_after : Z }.

Inductive context := Skipped | Verified | Mismatch | Unverified.

(** The loop of at most five attempts. *)
Fixpoint try_samples (samples : list sample) : context :=
  match samples with
  | [] => Unverified
  | s :: samples =>
      if (direct s <? direct_after s) && (unsupported_after s =? unsupported s) then Verified
      else if (direct_after s =? direct s) && (unsupported s <? unsupported_after s) then Mismatch
      else try_samples samples
  end.

(** [verify_context]: it returns on [Skipped] and [Verified], and throws
    otherwise; [samples] are what successive attempts would read. *)
Definition verify_context (inside : bool) (samples : list sample) : context :=
  if inside then try_samples (take 5 samples) else Skipped.

(** What one attempt can read when the loader's own socket is classified as
    [own]: other sockets only add to the counters. *)
Definition counts (r : reason) (own : reason) : Z := if decide (own = r) then 1 else 0.
Definition observed (own : reason) (s : sample) : Prop :=
  direct s + counts DIRECT own <= direct_after s /\
  unsupported s + counts UNSUPPORTED_CONTEXT own <= unsupported_after s.
Definition undisturbed (own : reason) (s : sample) : Prop :=
  direct_after s = direct s + counts DIRECT own /\ unsupported_after s = unsupported s + counts UNSUPPORTED_CONTEXT own.

Lemma counts_same r : counts r r = 1.
Proof. unfold counts. by rewrite decide_True. Qed.
Lemma counts_other r own : own <> r -> counts r own = 0.
Proof. intros Hr. unfold counts. by rewrite decide_False. Qed.

Lemma try_samples_sound own samples :
  Forall (observed own) samples ->
  (try_samples samples = Verified -> own <> UNSUPPORTED_CONTEXT) /\ (try_samples samples = Mismatch -> own <> DIRECT).
Proof.
  induction 1 as [|s samples [Hd Hu] _ IH]; [done|]. cbn [try_samples].
  destruct ((direct s <? direct_after s) && _) eqn:E1.
  - bool_to_prop. split; [|done]. intros _ ->. rewrite counts_same in Hu. lia.
  - destruct ((direct_after s =? direct s) && _) eqn:E2; [|done]. bool_to_prop. split; [done|].
    intros _ ->. rewrite counts_same in Hd. lia.
Qed.

Lemma try_samples_quiet own samples s :
  Forall (observed own) samples -> s ∈ samples -> undisturbed own s ->
  (own = DIRECT -> try_samples samples = Verified) /\ (own = UNSUPPORTED_CONTEXT -> try_samples samples = Mismatch).
Proof.
  intros Ho Hin [Qd Qu]. induction Ho as [|s' samples [Hd Hu] Ho IH]; [by apply not_elem_of_nil in Hin|].
  cbn [try_samples]. apply elem_of_cons in Hin as [<-|Hin].
  - split; intros ->; rewrite Qd, Qu, counts_same, counts_other by done; rewrite !Z.add_0_r, Z.eqb_refl.
    + by rewrite (proj2 (Z.ltb_lt _ _)) by lia.
    + rewrite Z.ltb_irrefl. cbn [andb]. by rewrite (proj2 (Z.ltb_lt _ _)) by lia.
  - specialize (IH Hin). split; intros ->; rewrite counts_same in *.
    + destruct (_ && _); [done|]. rewrite (proj2 (Z.eqb_neq _ _)) by lia. by apply IH.
    + rewrite (proj2 (Z.eqb_neq (unsupported_after s') _)) by lia. rewrite andb_false_r. destruct (_ && _); [done|]. by apply IH.
Qed.

(** Inside the target cgroup the context check is right and complete: it
    passes only if the hooks did not see the loader in an unsupported context,
    reports a mismatch only if they did not classify it as direct, and decides
    as soon as one of five windows is undisturbed by other sockets. *)
Theorem context_check_exact own samples :
  Forall (observed own) samples ->
  (verify_context true samples = Verified -> own <> UNSUPPORTED_CONTEXT) /\
  (verify_context true samples = Mismatch -> own <> DIRECT) /\
  (forall s, s ∈ take 5 samples -> undisturbed own s ->
     (own = DIRECT -> verify_context true samples = Verified) /\
     (own = UNSUPPORTED_CONTEXT -> verify_context true samples = Mismatch)).
Proof.
  intros Ho. unfold verify_context. assert (Forall (observed own) (take 5 samples)) as Ht by (by apply list.Forall_take).
  destruct (try_samples_sound own _ Ht) as [H1 H2]. split; [done|]. split; [done|].
  intros s Hs Hq. by apply (try_samples_quiet own _ s).
Qed.

(** ** The host a mutation needs *)

(** What [require_mutation_host] reads of the system. *)
Record system_facts := {
  f_euid : Z; f_release : list Z; f_os_release : list Z;
  f_namespaces : list (option Z);   (* identifiers of the net, user and pid namespaces, where readable *)
  f_same_host : bool;               (* [require_host] returns: the namespaces and root are those of process 1 *)
  f_lsm : list Z
}.

Definition unquoted (value : list Z) : list Z :=
  if (2 <=? length value)%nat && (hd 0 value =? 34) && (List.last value 0 =? 34)
  then take (length value - 2) (drop 1 value) else value.

(** The last [ID] and [VERSION_ID] of [/etc/os-release]. *)
Definition os_field (text : list Z) (field : String.string) : list Z :=
  foldl (fun found line => match find_char 61 line with
                           | Some equal => if is_text (take equal line) field then unquoted (drop (S equal) line) else found
                           | None => found
                           end) [] (getlines newline text).

(** [NET_NS_INIT_ID], [USER_NS_INIT_ID] and [PID_NS_INIT_ID] are constants of
    the kernel's headers. *)
Definition require_mutation_host (initial : list Z) (f : system_facts) : bool :=
  (f_euid f =? 0) &&
  (starts_with (str "7.0.") (f_release f) || starts_with (str "7.0-") (f_release f)) &&
  bool_decide (find_text (str "microsoft") (f_release f) = None) &&
  is_text (os_field (f_os_release f) "ID") "ubuntu" && is_text (os_field (f_os_release f) "VERSION_ID") "26.04" &&
  bool_decide (f_namespaces f = map Some initial) && f_same_host f &&
  existsb (fun name => is_text name "bpf" || bool_decide (name = str "bpf" ++ [10])) (getlines 44 (f_lsm f)).

(** ** The command line *)

(** The steps [main] takes for a command line, in order; the first that throws
    ends it. *)
Inductive main_step :=
  | RequireHost | LockShared | LockExclusive | VerifyOwner
  | Show (command : list Z)        (* reads only *)
  | Change (command : list Z)      (* may change maps, pins or links *)
  | Refuse.

Definition one_of (command : list Z) (names : list String.string) : bool := existsb (is_text command) names.

(** The commands on an owned directory. *)
Definition owned_command (argc : nat) (command : list Z) : main_step :=
  if is_text command "probe-dns" && (argc =? 3)%nat then Change command
  else if one_of command ["path-add"; "path-add-policy"; "path-del"]%string && (argc =? 4)%nat then Change command
  else if is_text command "drain" && (argc =? 4)%nat then Change command
  else if is_text command "guard-slot" && (argc =? 5)%nat then Change command
  else if is_text command "state" && (argc =? 4)%nat then Change command
  else if is_text command "settle" && (argc =? 4)%nat then Change command
  else if is_text command "remove" && (argc =? 3)%nat then Change command
  else Refuse.

Definition main_steps (argc : nat) (command : list Z) : list main_step :=
  if (argc =? 2)%nat && is_text command "capabilities" then [Show command]
  else if (argc =? 3)%nat && is_text command "observe" then [Show command]
  else if (argc =? 3)%nat && is_text command "status" then [Show command]
  else if (argc =? 3)%nat && one_of command ["policy"; "snapshot"]%string then [LockShared; VerifyOwner; Show command]
  else if (argc <? 3)%nat then [Refuse]
  else RequireHost ::
    if one_of command ["load"; "load-policy"; "load-policy-stdin"]%string then [Change command]
    else if is_text command "discard" && (argc =? 3)%nat then [Change command]
    else if is_text command "drain-report" && (argc =? 3)%nat then [Show command]
    else [LockExclusive; VerifyOwner; owned_command argc command].

Lemma owned_command_cases argc command : owned_command argc command = Change command \/ owned_command argc command = Refuse.
Proof. unfold owned_command. repeat case_match; auto. Qed.

Lemma cons_split {A} (y : A) l before x after :
  y :: l = before ++ x :: after -> (before = [] /\ y = x /\ l = after) \/ exists b, before = y :: b /\ l = b ++ x :: after.
Proof. destruct before; cbn; intros [= -> ->]; eauto. Qed.

Lemma nil_split {A} before (x : A) after : [] = before ++ x :: after -> False.
Proof. by destruct before. Qed.

(** Finds where a step lies in a short list. *)
Ltac locate_step E :=
  repeat (apply cons_split in E as [(-> & ? & ?)|(? & -> & E)]; [simplify_eq; try done|]);
  try (by apply nil_split in E).

(** Nothing is changed before the host is checked; and apart from the two
    commands that have no published directory to work on, nothing is changed
    but under its exclusive lock and after its ownership was verified. *)
Theorem changes_are_guarded argc command changed before after :
  main_steps argc command = before ++ Change changed :: after ->
  changed = command /\ after = [] /\
  (before = [RequireHost; LockExclusive; VerifyOwner] \/
   before = [RequireHost] /\ one_of command ["load"; "load-policy"; "load-policy-stdin"; "discard"]%string = true).
Proof.
  unfold main_steps. intros E. do 5 (case_match; [by locate_step E|]).
  destruct (one_of command ["load"; "load-policy"; "load-policy-stdin"]%string) eqn:El.
  { locate_step E. repeat (split; [done|]). right. split; [done|]. unfold one_of in *. cbn [existsb] in *.
    revert El. by repeat destruct (is_text _ _). }
  case_match eqn:Ed.
  { locate_step E. repeat (split; [done|]). right. split; [done|]. bool_to_prop. unfold one_of. cbn [existsb].
    match goal with D : is_text _ "discard" = true |- _ => rewrite D end. by rewrite !orb_true_r. }
  case_match; [by locate_step E|].
  destruct (owned_command_cases argc command) as [Ho|Ho]; rewrite Ho in E; locate_step E. auto.
Qed.

(** ** Concrete runs *)

Module DemoControl.
Import DemoHost.

(** A blocked guard that has been published and settled. *)
Definition blocked_policy : policy_maps := set_policy_cfg demo_maps (set_ready demo_cfg 0).
Definition before : host_state := {| h_maps := set_policy Machine.guarded blocked_policy; h_calls := 0 |}.
Definition after_slot : host_state := (guard_slot_command (str "socket") bus_address before).2.
Definition machine_before : system :=
  {| GuardStreams.maps := h_maps before; protected_end := fun _ => false; pending := 0; unobserved := 0;
     inflight := ∅; label_basis := ∅ |}.

(** The same host with a supported name service. *)
#[export] Instance ready_host : Host := {|
  c23 := true; read_text _ path := if is_text path "/etc/nsswitch.conf" then str "hosts: files dns # default" else table;
  stat_ := @stat_ host; lstat := @lstat host; weakly_canonical := @weakly_canonical host; exists_ := @exists_ host;
  open_path := @open_path host; open_nofollow := @open_nofollow host; is_regular_file := @is_regular_file host;
  listing := @listing host; map_read_ok _ := true; map_write_ok _ := true |}.
Definition after_ready : host_state := (state_command (H:=ready_host) (str "ready") before).2.
Definition quiet_sample : sample := {| direct := 5; unsupported := 2; direct_after := 6; unsupported_after := 2 |}.

End DemoControl.
Import DemoControl.

Lemma guard_slot_simulated_witness :
  (Some tt = None /\ h_maps after_slot = h_maps before) \/
  rtc step machine_before (with_ends (with_maps machine_before (h_maps after_slot)) (fun _ => true) 0 0).
Proof.
  apply (guard_slot_simulated (H:=DemoHost.host) (str "socket") DemoHost.bus_address before (Some tt) after_slot machine_before (fun _ => true)).
  - reflexivity.
  - unfold counters_ample, role_version. cbn. vm_compute. split; [reflexivity|right; discriminate].
  - unfold after_slot. apply (DemoHost.pair_first (guard_slot_command (H:=DemoHost.host) (str "socket") DemoHost.bus_address before) (Some tt)).
    vm_compute. reflexivity.
Defined.

Lemma state_command_exact_witness :
  (Some tt = None /\ h_maps after_ready = h_maps before) \/
  exists cfg (b : bool), Some tt = Some tt /\ policy_cfg (Guard.g_policy (h_maps before)) = Some cfg /\
    str "ready" = str (if b then "ready" else "blocked") /\
    h_maps after_ready =
      set_policy (h_maps before) (set_policy_cfg (Guard.g_policy (h_maps before)) (set_ready cfg (if b then 1 else 0))) /\
    (b = true -> exists e t, guard_config (h_maps before) = Some e /\ has_bits e 1 = false /\
                   hosts_value (read_text (Host:=ready_host) t nsswitch) ∈ accepted_hosts).
Proof.
  apply (state_command_exact (H:=ready_host) (str "ready") before (Some tt) after_ready).
  unfold after_ready. apply (DemoHost.pair_first (state_command (H:=ready_host) (str "ready") before) (Some tt)).
  vm_compute. reflexivity.
Defined.

Lemma context_check_exact_witness : verify_context true [quiet_sample] = Verified.
Proof.
  apply (context_check_exact DIRECT [quiet_sample]) with (s := quiet_sample).
  - repeat constructor; vm_compute; discriminate.
  - left.
  - split; reflexivity.
  - reflexivity.
Defined.

Lemma changes_are_guarded_witness :
  str "state" = str "state" /\ @nil main_step = [] /\
  ([RequireHost; LockExclusive; VerifyOwner] = [RequireHost; LockExclusive; VerifyOwner] \/
   [RequireHost; LockExclusive; VerifyOwner] = [RequireHost] /\
   one_of (str "state") ["load"; "load-policy"; "load-policy-stdin"; "discard"]%string = true).
Proof. apply (changes_are_guarded 4 (str "state")). vm_compute. reflexivity. Defined.
