(* ===== verification/DnsWire.v ===== *)
(** * DnsWire: DNS messages on the wire

    Models [src/src/native/dns-wire.h] and the name and size helpers of
    [dns-dispatcher.cpp].  A packet is a list of bytes; an access outside it is
    undefined behaviour in the source and [None] here, so every function that
    reads a packet returns an [option] whose [None] means "out of bounds or out
    of fuel", and the safety theorems show it never happens. *)
From Stdlib Require Import ZifyBool.
From S2P Require Import Prelude.

Abbreviation packet := (list Z).

(** ** Character classification the source takes from the C library *)

Class WideChars := { towlower : Z -> Z }.

Definition is_blank (c : Z) : bool := (c =? 32) || (c =? 9) || (c =? 13).

(** What [towlower] documents: it changes letters only, and a lower-case letter
    not at all. *)
Class WideCharsSpec (W : WideChars) := {
  towlower_idem c : towlower (towlower c) = towlower c;
  towlower_blank c : is_blank (towlower c) = is_blank c;
  towlower_dot c : (towlower c =? 46) = (c =? 46)
}.

(** The "C" locale. *)
Definition c_locale : WideChars := {| towlower c := if (65 <=? c) && (c <=? 90) then c + 32 else c |}.

#[export] Instance c_locale_spec : WideCharsSpec c_locale.
Proof.
  split; intros c; simpl; unfold is_blank; destruct ((65 <=? c) && (c <=? 90)) eqn:E;
    rewrite ?E; try done; try lia.
  bool_to_prop. destruct (_ && _) eqn:E2; lia.
Qed.

Section Names.
Context {W : WideChars}.

Definition lower (value : list Z) : list Z := map towlower value.

Fixpoint drop_blank (value : list Z) : list Z :=
  match value with
  | [] => []
  | c :: rest => if is_blank c then drop_blank rest else value
  end.

(** From the first to the last character outside [" \t\r"]. *)
Definition trim (value : list Z) : list Z := rev (drop_blank (rev (drop_blank value))).

Fixpoint drop_dots (value : list Z) : list Z :=
  match value with
  | [] => []
  | c :: rest => if c =? 46 then drop_dots rest else value
  end.

(** [while (!value.empty() && value.back() == L'.') value.pop_back();] *)
Definition normalizeName (value : list Z) : list Z := rev (drop_dots (rev (lower (trim value)))).
End Names.

(** ** Questions *)

Record Question := { q_name : list Z; q_type : Z }.

(** The label's characters, one [push_back(packet[offset++])] at a time. *)
Fixpoint push_label (p : packet) (offset n : nat) (name : list Z) : option (list Z * nat) :=
  match n with
  | O => Some (name, offset)
  | S n => c ← p !! offset; push_label p (S offset) n (name ++ [c])
  end.

(** The label loop: [Some None] is the malformed case. *)
Fixpoint question_name (fuel : nat) (p : packet) (offset : nat) (name : list Z) : option (option (list Z * nat)) :=
  match fuel with
  | O => None
  | S fuel =>
      if (offset <? length p)%nat then
        len ← p !! offset;
        let offset := S offset in
        if len =? 0 then Some (Some (name, offset))
        else if has_bits len 192 || (length p <? offset + Z.to_nat len)%nat then Some None
        else
          let name := match name with [] => [] | _ => name ++ [46] end in
          '(name, offset) ← push_label p offset (Z.to_nat len) name;
          question_name fuel p offset name
      else Some (Some (name, offset))
  end.

Definition read16 (p : packet) (offset : nat) : option Z :=
  hi ← p !! offset; lo ← p !! S offset; Some (Z.lor (Z.shiftl hi 8) lo).

Definition parseQuestion `{WideChars} (p : packet) : option (option Question) :=
  if (length p <? 17)%nat then Some None
  else
    b4 ← p !! 4%nat; b5 ← p !! 5%nat;
    if negb (b4 =? 0) || negb (b5 =? 1) then Some None
    else
      parsed ← question_name (S (length p)) p 12 [];
      match parsed with
      | None => Some None
      | Some (name, offset) =>
          if bool_decide (name = []) || (253 <? length name)%nat || (length p <? offset + 4)%nat then Some None
          else t ← read16 p offset; Some (Some {| q_name := normalizeName name; q_type := t |})
      end.

(** ** Failure answers *)

(** [std::fill(begin + at, begin + at + n, 0)]. *)
Definition fill_zero (p : packet) (at_ n : nat) : option packet :=
  if (at_ + n <=? length p)%nat then Some (take at_ p ++ replicate n 0 ++ drop (at_ + n) p) else None.

Definition store (p : packet) (i : nat) (v : Z) : option packet :=
  _ ← p !! i; Some (<[i := v]> p).

Definition makeServfail (query : packet) : option packet :=
  if (length query <? 12)%nat then Some []
  else
    b2 ← query !! 2%nat; r ← store query 2 (Z.lor b2 128);
    b3 ← r !! 3%nat; r ← store r 3 (Z.lor (Z.land b3 240) 2);
    fill_zero r 6 6.

Definition matchingResponse (query response : packet) : option bool :=
  if (2 <=? length query)%nat && (12 <=? length response)%nat then
    q0 ← query !! 0%nat; q1 ← query !! 1%nat;
    r0 ← response !! 0%nat; r1 ← response !! 1%nat; r2 ← response !! 2%nat;
    Some ((r0 =? q0) && (r1 =? q1) && has_bits r2 128)
  else Some false.

(** ** Skipping names *)

(** [skipDnsName(packet, offset)]: its result and the offset it leaves. *)
Fixpoint skip_loop (fuel : nat) (p : packet) (offset : nat) : option (bool * nat) :=
  match fuel with
  | O => None
  | S fuel =>
      if (offset <? length p)%nat then
        len ← p !! offset;
        let offset := S offset in
        if len =? 0 then Some (true, offset)
        else if Z.land len 192 =? 192 then
          if (length p <=? offset)%nat then Some (false, offset) else Some (true, S offset)
        else if has_bits len 192 || (length p <? offset + Z.to_nat len)%nat then Some (false, offset)
        else skip_loop fuel p (offset + Z.to_nat len)
      else Some (false, offset)
  end.

Definition skipDnsName (p : packet) (offset : nat) : option (bool * nat) := skip_loop (S (length p - offset)) p offset.

(** ** Zeroing the TTLs of an answer *)

Fixpoint skip_questions (n : nat) (p : packet) (offset : nat) : option (option nat) :=
  match n with
  | O => Some (Some offset)
  | S n =>
      '(ok, offset) ← skipDnsName p offset;
      if negb ok || (length p <? offset + 4)%nat then Some None
      else skip_questions n p (offset + 4)
  end.

Fixpoint zero_records (n : nat) (p : packet) (offset : nat) : option (bool * packet) :=
  match n with
  | O => Some (true, p)
  | S n =>
      '(ok, offset) ← skipDnsName p offset;
      if negb ok || (length p <? offset + 10)%nat then Some (false, p)
      else
        type ← read16 p offset;
        p ← (if negb (type =? 41) then fill_zero p (offset + 4) 4 else Some p);
        dataLength ← read16 p (offset + 8);
        let offset := (offset + 10)%nat in
        if (length p <? offset + Z.to_nat dataLength)%nat then Some (false, p)
        else zero_records n p (offset + Z.to_nat dataLength)
  end.

(** The result and the packet it leaves; a refused packet may be partly
    rewritten, and every caller drops it. *)
Definition zeroResponseTtls (p : packet) : option (bool * packet) :=
  if (length p <? 12)%nat then Some (false, p)
  else
    questions ← read16 p 4;
    an ← read16 p 6; ns ← read16 p 8; ar ← read16 p 10;
    start ← skip_questions (Z.to_nat questions) p 12;
    match start with
    | None => Some (false, p)
    | Some offset => zero_records (Z.to_nat (an + ns + ar)) p offset
    end.

(** ** The client's UDP size *)

Fixpoint find_opt (n : nat) (p : packet) (offset : nat) : option Z :=
  match n with
  | O => Some 512
  | S n =>
      '(ok, offset) ← skipDnsName p offset;
      if negb ok || (length p <? offset + 10)%nat then Some 512
      else
        type ← read16 p offset;
        if type =? 41 then size ← read16 p (offset + 2); Some (Z.max 512 size)
        else dataLength ← read16 p (offset + 8); find_opt n p (offset + (10 + Z.to_nat dataLength))
  end.

Definition advertisedUdpSize (query : packet) : option Z :=
  if (length query <? 12)%nat then Some 512
  else
    questions ← read16 query 4;
    start ← skip_questions (Z.to_nat questions) query 12;
    match start with
    | None => Some 512
    | Some offset =>
        an ← read16 query 6; ns ← read16 query 8; ar ← read16 query 10;
        find_opt (Z.to_nat (an + ns + ar)) query offset
    end.

(** ** Bounds lemmas *)

Lemma read16_in p i : (i + 2 <= length p)%nat -> is_Some (read16 p i).
Proof.
  intros H. unfold read16. destruct (lookup_lt_is_Some_2 p i) as [a ->]; [lia|].
  destruct (lookup_lt_is_Some_2 p (S i)) as [b ->]; [lia|]. by eexists.
Qed.

Lemma read16_range p i v : Forall is_byte p -> read16 p i = Some v -> 0 <= v < 65536.
Proof.
  unfold read16. intros Hp. destruct (p !! i) as [a|] eqn:Ea; [|done].
  destruct (p !! S i) as [b|] eqn:Eb; [|done]. simpl. intros [= <-].
  rewrite Forall_lookup in Hp. pose proof (Hp _ _ Ea) as Ha. pose proof (Hp _ _ Eb) as Hb. unfold is_byte in *.
  rewrite lor_clear_bits; [rewrite Z.shiftl_mul_pow2; lia|].
  unfold has_bits. rewrite Z.shiftl_mul_pow2 by lia.
  apply negb_false_iff, Z.eqb_eq, Z.bits_inj'. intros n Hn. rewrite Z.land_spec, Z.bits_0.
  destruct (decide (n < 8)).
  - by rewrite Z.mul_pow2_bits_low by lia.
  - destruct (decide (b = 0)) as [->|]; [by rewrite Z.bits_0, andb_false_r|].
    rewrite (Z.bits_above_log2 b), andb_false_r; [done|lia|].
    apply Z.log2_lt_pow2; [lia|]. assert (2 ^ 8 <= 2 ^ n) by (apply Z.pow_le_mono_r; lia). lia.
Qed.

Lemma push_label_spec p offset n name :
  (offset + n <= length p)%nat ->
  push_label p offset n name = Some (name ++ take n (drop offset p), (offset + n)%nat).
Proof.
  revert offset name. induction n as [|n IH]; intros offset name Hle; simpl.
  - by rewrite take_0, app_nil_r, Nat.add_0_r.
  - destruct (lookup_lt_is_Some_2 p offset) as [c Hc]; [lia|]. rewrite Hc. simpl.
    rewrite IH by lia. rewrite (drop_S p c offset Hc). simpl. rewrite <- app_assoc. do 2 f_equal. lia.
Qed.

(** The label loop ends within its fuel, without leaving the packet. *)
Lemma question_name_total fuel p offset name :
  (length p - offset < fuel)%nat -> exists r, question_name fuel p offset name = Some r /\
    forall n o, r = Some (n, o) -> (o <= Nat.max offset (length p))%nat.
Proof.
  revert offset name. induction fuel as [|fuel IH]; intros offset name Hf; [lia|]. simpl.
  destruct (offset <? length p)%nat eqn:E; bool_to_prop.
  2: { eexists. split; [done|]. intros n o [= <- <-]. lia. }
  destruct (lookup_lt_is_Some_2 p offset) as [len Hlen]; [done|]. rewrite Hlen. simpl.
  destruct (len =? 0) eqn:E0; bool_to_prop.
  { eexists. split; [done|]. intros n o [= <- <-]. lia. }
  destruct (has_bits len 192 || _) eqn:Eb; [by eexists|]. bool_to_prop.
  rewrite push_label_spec by lia. simpl.
  destruct (IH (S (offset + Z.to_nat len)) (match name with [] => [] | _ => name ++ [46] end ++ take (Z.to_nat len) (drop (S offset) p)))
    as (r & Hr & Hb); [lia|].
  exists r. split; [exact Hr|]. intros n o ->. specialize (Hb n o eq_refl). lia.
Qed.

Lemma skip_loop_total fuel p offset :
  (length p - offset < fuel)%nat -> exists ok o, skip_loop fuel p offset = Some (ok, o) /\
    (ok = true -> (offset < o <= length p)%nat).
Proof.
  revert offset. induction fuel as [|fuel IH]; intros offset Hf; [lia|]. simpl.
  destruct (offset <? length p)%nat eqn:E; bool_to_prop; [|by eexists _, _].
  destruct (lookup_lt_is_Some_2 p offset) as [len Hlen]; [done|]. rewrite Hlen. simpl.
  destruct (len =? 0); [eexists _, _; split; [done|]; intros; lia|].
  destruct (_ =? 192).
  { destruct (length p <=? S offset)%nat eqn:E1; bool_to_prop; eexists _, _; (split; [done|]); [done|]. intros; lia. }
  destruct (has_bits len 192 || _) eqn:Eb; [by eexists _, _|]. bool_to_prop.
  destruct (IH (S (offset + Z.to_nat len))) as (ok & o & Hs & Hb); [lia|].
  exists ok, o. split; [exact Hs|]. intros Hok. specialize (Hb Hok). lia.
Qed.

Lemma skipDnsName_total p offset :
  exists ok o, skipDnsName p offset = Some (ok, o) /\ (ok = true -> (offset < o <= length p)%nat).
Proof. apply skip_loop_total. lia. Qed.

Lemma skip_questions_total n p offset :
  exists r, skip_questions n p offset = Some r /\ forall o, r = Some o -> (offset <= o)%nat.
Proof.
  revert offset. induction n as [|n IH]; intros offset; simpl.
  { eexists. split; [done|]. by intros ? [= <-]. }
  destruct (skipDnsName_total p offset) as (ok & o & -> & Hok). simpl.
  destruct (negb ok || _) eqn:E; [by eexists|]. bool_to_prop.
  destruct (IH (o + 4)%nat) as (r & Hr & Hb). exists r. split; [exact Hr|].
  intros o' ->. specialize (Hb o' eq_refl). specialize (Hok H). lia.
Qed.

(** ** Names *)

Lemma length_drop_blank v : (length (drop_blank v) <= length v)%nat.
Proof. induction v as [|c v IH]; simpl; [done|]. destruct (is_blank c); simpl; lia. Qed.

Lemma length_drop_dots v : (length (drop_dots v) <= length v)%nat.
Proof. induction v as [|c v IH]; simpl; [done|]. destruct (c =? 46); simpl; lia. Qed.

Lemma length_normalizeName `{WideChars} v : (length (normalizeName v) <= length v)%nat.
Proof.
  unfold normalizeName, trim, lower. rewrite length_rev.
  etransitivity; [apply length_drop_dots|]. rewrite length_rev, length_map, length_rev.
  etransitivity; [apply length_drop_blank|]. rewrite length_rev. apply length_drop_blank.
Qed.

Section Normal.
Context {W : WideChars} `{!WideCharsSpec W}.

Lemma drop_dots_idem v : drop_dots (drop_dots v) = drop_dots v.
Proof. induction v as [|c v IH]; simpl; [done|]. destruct (c =? 46) eqn:E; [done|]. simpl. by rewrite E. Qed.

Lemma drop_dots_lower v : drop_dots (lower v) = lower (drop_dots v).
Proof. induction v as [|c v IH]; simpl; [done|]. rewrite towlower_dot. by destruct (c =? 46). Qed.

Lemma lower_rev v : lower (rev v) = rev (lower v).
Proof. apply map_rev. Qed.

Lemma lower_idem v : lower (lower v) = lower v.
Proof. unfold lower. rewrite map_map. apply map_ext. apply towlower_idem. Qed.

Definition no_blank (v : list Z) : Prop := Forall (fun c => is_blank c = false) v.

Lemma drop_blank_none v : no_blank v -> drop_blank v = v.
Proof. destruct 1 as [|c v Hc]; simpl; [done|]. by rewrite Hc. Qed.

Lemma trim_none v : no_blank v -> trim v = v.
Proof.
  intros H. unfold trim. rewrite (drop_blank_none v) by done.
  rewrite drop_blank_none; [apply rev_involutive|]. by apply Forall_rev.
Qed.

Lemma no_blank_drop_dots v : no_blank v -> no_blank (drop_dots v).
Proof. induction 1 as [|c v Hc Hv IH]; simpl; [constructor|]. destruct (c =? 46); [exact IH|by constructor]. Qed.

Lemma no_blank_normal v : no_blank v -> no_blank (normalizeName v).
Proof.
  intros H. unfold normalizeName. rewrite trim_none by done. apply Forall_rev.
  apply no_blank_drop_dots, Forall_rev. apply Forall_map. revert H. apply Forall_impl.
  intros c Hc. by rewrite towlower_blank.
Qed.

(** Without blanks inside, a normalised name is its own normal form: the key
    made from a parsed question and the key made from an event agree. *)
Lemma normalizeName_idem v : no_blank v -> normalizeName (normalizeName v) = normalizeName v.
Proof.
  intros H. unfold normalizeName at 1. rewrite trim_none by (by apply no_blank_normal).
  unfold normalizeName. rewrite (lower_rev (drop_dots _)), rev_involutive, <- drop_dots_lower.
  by rewrite <- lower_rev, lower_idem, drop_dots_idem.
Qed.
End Normal.

(** With a blank before a trailing dot it is not. *)
Example normalizeName_twice :
  normalizeName (W:=c_locale) (str "foo .") = str "foo " /\
  normalizeName (W:=c_locale) (normalizeName (W:=c_locale) (str "foo .")) = str "foo".
Proof. by vm_compute. Qed.

(** ** Parsing a question back from its encoding *)

Definition wire_label (l : list Z) : list Z := Z.of_nat (length l) :: l.
Definition wire_name (labels : list (list Z)) : list Z := concat (map wire_label labels) ++ [0].

(** The labels joined with dots, after a name already read. *)
Definition join_onto (name : list Z) (labels : list (list Z)) : list Z :=
  foldl (fun name l => match name with [] => l | _ => name ++ [46] ++ l end) name labels.

Definition label_ok (l : list Z) : Prop := (1 <= length l <= 63)%nat.

Lemma has_bits_label n : 0 <= n <= 63 -> has_bits n 192 = false.
Proof.
  intros Hn. assert (forall k, (k <= 63)%nat -> has_bits (Z.of_nat k) 192 = false) as H.
  { intros k Hk. do 64 (destruct k as [|k]; [done|]). lia. }
  rewrite <- (Z2Nat.id n) by lia. apply H. lia.
Qed.

(** Reading at the boundary between what was consumed and what follows. *)
Lemma lookup_boundary (pre : list Z) b rest : (pre ++ b :: rest) !! length pre = Some b.
Proof. by rewrite lookup_app_r, Nat.sub_diag by lia. Qed.

Lemma question_name_labels fuel pre labels name rest :
  Forall label_ok labels -> (length labels < fuel)%nat ->
  question_name fuel (pre ++ wire_name labels ++ rest) (length pre) name =
    Some (Some (join_onto name labels, (length pre + length (wire_name labels))%nat)).
Proof.
  revert fuel pre name. induction labels as [|l labels IH]; intros fuel pre name Hok Hf;
    (destruct fuel as [|fuel]; [simpl in Hf; lia|]).
  - unfold wire_name. cbn [concat map app question_name].
    rewrite (proj2 (Nat.ltb_lt _ _)) by (rewrite length_app; simpl; lia).
    rewrite lookup_boundary. simpl. do 3 f_equal. lia.
  - inversion_clear Hok as [|? ? Hl Hok']. unfold label_ok in Hl. simpl in Hf.
    assert (wire_name (l :: labels) = Z.of_nat (length l) :: l ++ wire_name labels) as Ew.
    { unfold wire_name. simpl. by rewrite app_assoc. }
    set (p := pre ++ wire_name (l :: labels) ++ rest).
    assert (p = (pre ++ wire_label l) ++ wire_name labels ++ rest) as Ep.
    { unfold p. rewrite Ew. unfold wire_label. rewrite <- !app_assoc. simpl. by rewrite <- app_assoc. }
    assert (length p = (length pre + 1 + length l + length (wire_name labels) + length rest)%nat) as Elen.
    { rewrite Ep. rewrite !length_app. simpl. lia. }
    cbn [question_name]. rewrite (proj2 (Nat.ltb_lt _ _)) by lia.
    assert (p !! length pre = Some (Z.of_nat (length l))) as ->.
    { unfold p. rewrite Ew. apply lookup_boundary. }
    cbn [mbind option_bind]. rewrite (proj2 (Z.eqb_neq _ _)) by lia.
    rewrite has_bits_label by lia. rewrite Nat2Z.id, (proj2 (Nat.ltb_ge _ _)) by lia. cbn [orb].
    rewrite push_label_spec by lia. cbn [mbind option_bind].
    replace (S (length pre) + length l)%nat with (length (pre ++ wire_label l)) by (rewrite length_app; simpl; lia).
    replace (take (length l) (drop (S (length pre)) p)) with l.
    2: { rewrite Ep. unfold wire_label. replace (S (length pre)) with (length (pre ++ [Z.of_nat (length l)]))
           by (rewrite length_app; simpl; lia).
         replace ((pre ++ Z.of_nat (length l) :: l) ++ wire_name labels ++ rest)
           with ((pre ++ [Z.of_nat (length l)]) ++ l ++ wire_name labels ++ rest) by (rewrite <- !app_assoc; done).
         by rewrite drop_app_length, take_app_length. }
    rewrite Ep, IH by (done || lia). do 3 f_equal.
    + simpl. destruct name; simpl; [done|]. by rewrite <- app_assoc.
    + rewrite Ew, !length_app. simpl. rewrite length_app. lia.
Qed.

(** ** Questions: theorems *)

Lemma parsed_name_bound (name : list Z) (x y : bool) :
  x || (253 <? length name)%nat || y = false -> (length name <= 253)%nat.
Proof. intros H. bool_to_prop. lia. Qed.

(** Parsing a question never reads outside the packet and always returns;
    an accepted question has a name of at most 253 characters and a 16-bit
    type. *)
Theorem parseQuestion_safe `{WideChars} p :
  exists r, parseQuestion p = Some r /\
    forall q, r = Some q -> (length (q_name q) <= 253)%nat /\ (Forall is_byte p -> 0 <= q_type q < 65536).
Proof.
  unfold parseQuestion. destruct (length p <? 17)%nat eqn:E; [by eexists|]. bool_to_prop.
  destruct (lookup_lt_is_Some_2 p 4) as [b4 ->]; [lia|].
  destruct (lookup_lt_is_Some_2 p 5) as [b5 ->]; [lia|]. simpl.
  destruct (_ || _); [by eexists|].
  destruct (question_name_total (S (length p)) p 12 []) as (r & Hr & _); [lia|].
  simpl in Hr. rewrite Hr. simpl. destruct r as [[name offset]|]; [|by eexists].
  destruct (_ || _ || _) eqn:Eb; [by eexists|]. pose proof (parsed_name_bound _ _ _ Eb). bool_to_prop.
  destruct (read16_in p offset) as [t Ht]; [lia|]. rewrite Ht. simpl. eexists. split; [done|].
  intros q [= <-]. simpl. split; [|by intros Hb; eapply read16_range].
  pose proof (length_normalizeName name). lia.
Qed.

(** The question of a well-formed query is read back. *)
Lemma parse_wire_question `{WideChars} header labels hi lo rest :
  length header = 12%nat -> header !! 4%nat = Some 0 -> header !! 5%nat = Some 1 ->
  labels <> [] -> Forall label_ok labels -> (length (join_onto [] labels) <= 253)%nat -> (2 <= length rest)%nat ->
  parseQuestion (header ++ wire_name labels ++ hi :: lo :: rest) =
    Some (Some {| q_name := normalizeName (join_onto [] labels); q_type := Z.lor (Z.shiftl hi 8) lo |}).
Proof.
  intros Hh H4 H5 Hne Hok Hlen Hrest. unfold parseQuestion.
  assert (2 <= length (wire_name labels))%nat as Hw.
  { destruct labels; [done|]. unfold wire_name. simpl. rewrite !length_app. simpl. lia. }
  assert (join_onto [] labels <> []) as Hj.
  { destruct labels as [|l labels]; [done|]. inversion_clear Hok as [|? ? Hl _]. unfold join_onto. simpl.
    assert (forall ls (x : list Z), x <> [] -> foldl (fun name l => match name with [] => l | _ => name ++ 46 :: l end) x ls <> []) as Hx.
    { induction ls as [|y ls IH]; intros x Hx; simpl; [done|]. apply IH. by destruct x. }
    apply Hx. intros ->. unfold label_ok in Hl. simpl in Hl. lia. }
  rewrite (proj2 (Nat.ltb_ge _ _)) by (rewrite !length_app; simpl; lia).
  rewrite !lookup_app_l by lia. rewrite H4, H5. cbn [mbind option_bind negb orb Z.eqb Pos.eqb].
  rewrite <- Hh. rewrite question_name_labels; [|done|].
  2: { assert (length labels <= length (wire_name labels))%nat; [|rewrite !length_app; lia].
       unfold wire_name. clear. induction labels; simpl in *; [lia|]. rewrite !length_app in *. simpl in *. lia. }
  cbn [mbind option_bind]. rewrite bool_decide_false by done.
  rewrite (proj2 (Nat.ltb_ge _ _)), (proj2 (Nat.ltb_ge _ _)) by (rewrite ?length_app; simpl; lia). cbn [orb].
  unfold read16. rewrite app_assoc, <- length_app, lookup_boundary. cbn [mbind option_bind].
  replace (S (length (header ++ wire_name labels))) with (length ((header ++ wire_name labels) ++ [hi]))
    by (rewrite !length_app; simpl; lia).
  replace ((header ++ wire_name labels) ++ hi :: lo :: rest) with (((header ++ wire_name labels) ++ [hi]) ++ lo :: rest)
    by (by rewrite <- app_assoc). by rewrite lookup_boundary.
Qed.

(** C25: the question of a well-formed query is read back exactly: any header
    with one question, any labels of 1 to 63 bytes whose dotted form fits 253
    characters, any type and class. *)
Theorem parseQuestion_roundtrip `{WideChars} header labels hi lo rest :
  length header = 12%nat -> header !! 4%nat = Some 0 -> header !! 5%nat = Some 1 ->
  labels <> [] -> Forall label_ok labels -> (length (join_onto [] labels) <= 253)%nat -> (2 <= length rest)%nat ->
  parseQuestion (header ++ wire_name labels ++ hi :: lo :: rest) =
    Some (Some {| q_name := normalizeName (join_onto [] labels); q_type := Z.lor (Z.shiftl hi 8) lo |}).
Proof. apply parse_wire_question. Qed.

(** A query for www.Example of type A. *)
Lemma parseQuestion_roundtrip_witness :
  parseQuestion (H:=c_locale) ([1; 2; 1; 0; 0; 1; 0; 0; 0; 0; 0; 0] ++ wire_name [str "www"; str "Example"] ++ [0; 1; 0; 1])
    = Some (Some {| q_name := str "www.example"; q_type := 1 |}).
Proof.
  rewrite (parseQuestion_roundtrip (H:=c_locale)); try done.
  - repeat constructor; simpl; lia.
  - simpl. lia.
Defined.

(** ** Failure answers: theorems *)

Lemma makeServfail_shape query :
  (12 <= length query)%nat ->
  exists r, makeServfail query = Some r /\ length r = length query /\
    (forall i, i ∉ [2; 3; 6; 7; 8; 9; 10; 11]%nat -> r !! i = query !! i) /\
    (forall b, query !! 2%nat = Some b -> r !! 2%nat = Some (Z.lor b 128)) /\
    (forall b, query !! 3%nat = Some b -> r !! 3%nat = Some (Z.lor (Z.land b 240) 2)) /\
    (forall i, (6 <= i < 12)%nat -> r !! i = Some 0) /\
    matchingResponse query r = Some true.
Proof.
  intros Hl. do 12 (destruct query as [|? query]; [simpl in Hl; lia|]). clear Hl.
  unfold makeServfail. cbn -[Z.lor Z.land].
  eexists. split; [reflexivity|].
  split; [done|]. split.
  { intros i Hi. do 12 (destruct i as [|i]; [try done; exfalso; set_solver|]). done. }
  split; [by intros b [= ->]|]. split; [by intros b [= ->]|]. split.
  { intros i Hi. do 12 (destruct i as [|i]; [try done; lia|]). lia. }
  unfold matchingResponse. cbn -[Z.lor Z.land]. rewrite !Z.eqb_refl.
  rewrite has_bits_lor. by rewrite orb_true_r.
Qed.

(** A failure answer keeps the query's length, identifier, question and
    every byte after the header, sets the response bit and SERVFAIL, empties
    the other sections, and is accepted as an answer to the query. *)
Theorem makeServfail_spec query :
  (12 <= length query)%nat ->
  exists r, makeServfail query = Some r /\ length r = length query /\
    (forall i, i ∉ [2; 3; 6; 7; 8; 9; 10; 11]%nat -> r !! i = query !! i) /\
    (forall b, query !! 2%nat = Some b -> r !! 2%nat = Some (Z.lor b 128)) /\
    (forall b, query !! 3%nat = Some b -> r !! 3%nat = Some (Z.lor (Z.land b 240) 2)) /\
    (forall i, (6 <= i < 12)%nat -> r !! i = Some 0) /\
    matchingResponse query r = Some true.
Proof. exact (makeServfail_shape query). Qed.

Lemma makeServfail_spec_witness :
  exists r, makeServfail (replicate 12 1) = Some r /\ length r = 12%nat /\
    (forall i, i ∉ [2; 3; 6; 7; 8; 9; 10; 11]%nat -> r !! i = replicate 12 1 !! i) /\
    (forall b, replicate 12 1 !! 2%nat = Some b -> r !! 2%nat = Some (Z.lor b 128)) /\
    (forall b, replicate 12 1 !! 3%nat = Some b -> r !! 3%nat = Some (Z.lor (Z.land b 240) 2)) /\
    (forall i, (6 <= i < 12)%nat -> r !! i = Some 0) /\
    matchingResponse (replicate 12 1) r = Some true.
Proof. apply makeServfail_spec. simpl. lia. Defined.

(** ** Zeroed TTLs: specification and theorems *)

(** A reference walk that changes nothing: the positions of the fixed part of
    every record that carries a TTL, or [None] for a malformed answer. *)
Fixpoint ttl_records (n : nat) (p : packet) (offset : nat) : option (list nat) :=
  match n with
  | O => Some []
  | S n =>
      match skipDnsName p offset with
      | Some (true, o) =>
          if (length p <? o + 10)%nat then None
          else
            type ← read16 p o; dataLength ← read16 p (o + 8);
            if (length p <? o + 10 + Z.to_nat dataLength)%nat then None
            else rest ← ttl_records n p (o + 10 + Z.to_nat dataLength);
                 Some (if type =? 41 then rest else o :: rest)
      | _ => None
      end
  end.

(** The byte belongs to the TTL of one of the records. *)
Definition in_ttl (offs : list nat) (i : nat) : Prop := exists o, o ∈ offs /\ (o + 4 <= i < o + 8)%nat.

Lemma fill_zero_spec p a n :
  (a + n <= length p)%nat -> exists p', fill_zero p a n = Some p' /\ length p' = length p /\
    (forall i, (a <= i < a + n)%nat -> p' !! i = Some 0) /\
    (forall i, ~ (a <= i < a + n)%nat -> p' !! i = p !! i).
Proof.
  intros H. unfold fill_zero. rewrite (proj2 (Nat.leb_le _ _)) by done. eexists. split; [done|].
  split; [rewrite !length_app, length_take, length_replicate, length_drop; lia|].
  assert (length (take a p) = a) as Ht by (rewrite length_take; lia). split; intros i Hi.
  - rewrite lookup_app_r by lia. rewrite Ht. rewrite lookup_app_l by (rewrite length_replicate; lia).
    apply lookup_replicate_2. lia.
  - destruct (decide (i < a)%nat).
    + rewrite lookup_app_l by lia. by rewrite lookup_take_lt.
    + rewrite lookup_app_r by lia. rewrite Ht, lookup_app_r; rewrite length_replicate; [|lia].
      rewrite lookup_drop. f_equal. lia.
Qed.

Lemma read16_ext p p' i : p !! i = p' !! i -> p !! S i = p' !! S i -> read16 p i = read16 p' i.
Proof. unfold read16. by intros -> ->. Qed.

Lemma skip_loop_advances fuel p offset o : skip_loop fuel p offset = Some (true, o) -> (offset < o)%nat.
Proof.
  revert offset. induction fuel as [|fuel IH]; intros offset; simpl; [done|].
  destruct (offset <? length p)%nat; [|done]. destruct (p !! offset) as [len|]; [|done]. simpl.
  destruct (len =? 0); [intros [= <-]; lia|].
  destruct (_ =? 192); [destruct (length p) as [|n]; [done|destruct (_ <=? _)%nat; intros [= <-]; lia]|].
  destruct (has_bits len 192 || _); [done|]. intros H%IH. lia.
Qed.

(** A successful skip depends only on the bytes it passes over. *)
Lemma skip_loop_ext fuel p p' offset o :
  length p = length p' -> skip_loop fuel p offset = Some (true, o) ->
  (forall i, (offset <= i < o)%nat -> p !! i = p' !! i) -> skip_loop fuel p' offset = Some (true, o).
Proof.
  intros Hlen. revert offset. induction fuel as [|fuel IH]; intros offset; [done|]. intros Hs Hag.
  pose proof (skip_loop_advances _ _ _ _ Hs) as Hlt. simpl in *. rewrite <- Hlen.
  destruct (offset <? length p)%nat eqn:E; [|done].
  rewrite <- (Hag offset) by lia. destruct (p !! offset) as [len|]; [|done]. simpl in *.
  destruct (len =? 0); [done|]. destruct (_ =? 192); [done|].
  destruct (has_bits len 192 || _); [done|]. apply IH; [done|]. intros i Hi. apply Hag. lia.
Qed.

Lemma skipDnsName_ext p p' offset o :
  length p = length p' -> skipDnsName p offset = Some (true, o) ->
  (forall i, (offset <= i < o)%nat -> p !! i = p' !! i) -> skipDnsName p' offset = Some (true, o).
Proof. intros Hlen. unfold skipDnsName. rewrite <- Hlen. by apply skip_loop_ext. Qed.

Lemma ttl_records_after n p offset offs : ttl_records n p offset = Some offs -> Forall (fun o => (offset < o)%nat) offs.
Proof.
  revert offset offs. induction n as [|n IH]; intros offset offs; simpl; [by intros [= <-]|].
  destruct (skipDnsName p offset) as [[[] o]|] eqn:Es; [|done..].
  destruct (_ <? _)%nat; [done|]. destruct (read16 p o) as [type|]; [|done].
  destruct (read16 p (o + 8)) as [dl|]; [|done]. simpl. destruct (_ <? _)%nat; [done|].
  destruct (ttl_records n p _) as [rest|] eqn:Er; [|done]. simpl. intros [= <-].
  apply skip_loop_advances in Es. apply IH in Er.
  assert (Forall (fun o0 => (offset < o0)%nat) rest) by (revert Er; apply Forall_impl; intros; lia).
  destruct (type =? 41); [done|by constructor].
Qed.

(** The walk depends only on bytes from its start that are outside the TTLs. *)
Lemma ttl_records_ext n p p' offset offs :
  length p = length p' -> ttl_records n p offset = Some offs ->
  (forall i, (offset <= i)%nat -> ~ in_ttl offs i -> p !! i = p' !! i) ->
  ttl_records n p' offset = Some offs.
Proof.
  intros Hlen. revert offset offs. induction n as [|n IH]; intros offset offs; simpl; [done|].
  destruct (skipDnsName p offset) as [[[] o]|] eqn:Es; [|done..]. rewrite <- Hlen.
  destruct (length p <? o + 10)%nat eqn:E10; [done|].
  destruct (read16 p o) as [type|] eqn:Et; [|done]. destruct (read16 p (o + 8)) as [dl|] eqn:Ed; [|done]. simpl.
  destruct (length p <? o + 10 + Z.to_nat dl)%nat eqn:E; [done|].
  destruct (ttl_records n p _) as [rest|] eqn:Er; [|by intros]. simpl. intros [= <-] Hag.
  pose proof (ttl_records_after _ _ _ _ Er) as Haft. rewrite list.Forall_forall in Haft.
  pose proof (skip_loop_advances _ _ _ _ Es) as Hadv. bool_to_prop.
  assert (forall i, (offset <= i < o + 4 \/ o + 8 <= i < o + 10)%nat -> p !! i = p' !! i) as Hhead.
  { intros i Hi. apply Hag; [lia|]. intros (o' & Ho' & Hr).
    destruct (type =? 41); [apply Haft in Ho'; lia|].
    apply elem_of_cons in Ho' as [->|Ho']; [lia|apply Haft in Ho'; lia]. }
  rewrite (skipDnsName_ext p p' offset o Hlen Es) by (intros; apply Hhead; lia).
  rewrite (proj2 (Nat.ltb_ge _ _)) by lia.
  rewrite <- (read16_ext p p' o), Et by (apply Hhead; lia). rewrite <- (read16_ext p p' (o + 8)), Ed by (apply Hhead; lia).
  simpl. rewrite (proj2 (Nat.ltb_ge _ _)) by lia. rewrite (IH _ rest); [done|done|].
  intros i Hi Hn. apply Hag; [lia|]. intros (o' & Ho' & Hr). apply Hn. exists o'. split; [|done].
  destruct (type =? 41); [done|]. apply elem_of_cons in Ho' as [->|]; [lia|done].
Qed.

Lemma ttl_records_from n p p' offset :
  length p = length p' -> (forall i, (offset <= i)%nat -> p !! i = p' !! i) ->
  ttl_records n p offset = ttl_records n p' offset.
Proof.
  intros Hlen Hag. destruct (ttl_records n p offset) as [offs|] eqn:E.
  - symmetry. apply (ttl_records_ext n p); auto.
  - destruct (ttl_records n p' offset) as [offs|] eqn:E'; [|done].
    rewrite <- E. apply (ttl_records_ext n p'); [done..|]. intros. symmetry. auto.
Qed.

(** The answer with exactly the TTLs at [offs] zeroed. *)
Definition ttls_zeroed (offs : list nat) (p p' : packet) : Prop :=
  length p' = length p /\ (forall i, in_ttl offs i -> p' !! i = Some 0) /\
  (forall i, ~ in_ttl offs i -> p' !! i = p !! i).

Lemma in_ttl_cons o offs i : in_ttl (o :: offs) i <-> (o + 4 <= i < o + 8)%nat \/ in_ttl offs i.
Proof.
  unfold in_ttl. split.
  - intros (o' & [->|Ho']%elem_of_cons & Hi); [by left|right; eauto].
  - intros [Hi|(o' & Ho' & Hi)]; eexists; (split; [|exact Hi]); set_solver.
Qed.

Lemma zero_records_spec n p offset :
  match ttl_records n p offset with
  | Some offs => exists p', zero_records n p offset = Some (true, p') /\ ttls_zeroed offs p p'
  | None => exists p', zero_records n p offset = Some (false, p') /\ length p' = length p
  end.
Proof.
  revert p offset. induction n as [|n IH]; intros p offset; cbn [ttl_records zero_records].
  { eexists. split; [done|]. split; [done|]. split; [|done]. by intros i (o & Ho%elem_of_nil & _). }
  destruct (skipDnsName_total p offset) as (ok & o & -> & Hok). simpl.
  destruct ok; [|by eexists]. simpl. destruct (length p <? o + 10)%nat eqn:E10; [by eexists|]. bool_to_prop.
  destruct (read16_in p o) as [type ->]; [lia|]. simpl.
  destruct (fill_zero_spec p (o + 4) 4) as (p1 & Hp1 & Hl1 & Hz & Hsame); [lia|].
  set (p2 := if negb (type =? 41) then p1 else p).
  assert ((if negb (type =? 41) then fill_zero p (o + 4) 4 else Some p) = Some p2) as ->.
  { unfold p2. by destruct (negb _). }
  assert (length p2 = length p) as Hl2 by (unfold p2; by destruct (negb _)).
  assert (forall i, ~ (o + 4 <= i < o + 4 + 4)%nat -> p2 !! i = p !! i) as Hsame2.
  { intros i Hi. unfold p2. destruct (negb _); [by apply Hsame|done]. }
  simpl. rewrite (read16_ext p2 p (o + 8)) by (apply Hsame2; lia).
  destruct (read16_in p (o + 8)) as [dl ->]; [lia|]. simpl. rewrite Hl2.
  destruct (length p <? o + 10 + Z.to_nat dl)%nat eqn:Ed; [by eexists|].
  specialize (IH p2 (o + 10 + Z.to_nat dl)%nat).
  rewrite (ttl_records_from n p p2) by (done || (intros; symmetry; apply Hsame2; lia)).
  destruct (ttl_records n p2 _) as [rest|] eqn:Er; simpl.
  2: { destruct IH as (p' & Hr & Hl'). exists p'. split; [exact Hr|lia]. }
  destruct IH as (p' & Hr & Hl' & Hzero & Hkeep). exists p'. split; [exact Hr|].
  apply ttl_records_after in Er. rewrite list.Forall_forall in Er.
  split; [lia|]. unfold p2 in *. destruct (type =? 41); simpl in *; [done|]. split; intros i; rewrite in_ttl_cons.
  - intros [Hi|Hi]; [|by apply Hzero]. rewrite Hkeep; [apply Hz; lia|].
    intros (o' & Ho' & Hi'). apply Er in Ho'. lia.
  - intros Hn. rewrite Hkeep by tauto. apply Hsame. intros ?. apply Hn. left. lia.
Qed.

(** The whole reference walk: header, questions, records. *)
Definition answer_records (p : packet) : option (list nat) :=
  if (length p <? 12)%nat then None
  else
    questions ← read16 p 4; an ← read16 p 6; ns ← read16 p 8; ar ← read16 p 10;
    start ← mjoin (skip_questions (Z.to_nat questions) p 12);
    ttl_records (Z.to_nat (an + ns + ar)) p start.

Lemma skip_questions_ext n p p' offset start :
  length p = length p' -> skip_questions n p offset = Some (Some start) ->
  (forall i, (i < start)%nat -> p !! i = p' !! i) -> skip_questions n p' offset = Some (Some start).
Proof.
  intros Hlen. revert offset. induction n as [|n IH]; intros offset; simpl; [done|].
  destruct (skipDnsName_total p offset) as (ok & o & Hs & Hok). rewrite Hs. simpl.
  destruct ok; [|done]. simpl. destruct (length p <? o + 4)%nat eqn:E; [done|]. intros Hq Hag.
  destruct (skip_questions_total n p (o + 4)) as (r & Hr & Hge). rewrite Hr in Hq. simplify_eq.
  specialize (Hge start eq_refl).
  rewrite (skipDnsName_ext p p' offset o Hlen Hs) by (intros; apply Hag; lia). simpl.
  rewrite <- Hlen, E. by apply IH.
Qed.

Lemma zeroResponseTtls_exact p :
  match answer_records p with
  | Some offs => exists p', zeroResponseTtls p = Some (true, p') /\ ttls_zeroed offs p p' /\
                   answer_records p' = Some offs
  | None => exists p', zeroResponseTtls p = Some (false, p') /\ length p' = length p
  end.
Proof.
  unfold zeroResponseTtls, answer_records. destruct (length p <? 12)%nat eqn:E; [by eexists|]. bool_to_prop.
  destruct (read16_in p 4) as [qd Hqd]; [lia|]. destruct (read16_in p 6) as [an Han]; [lia|].
  destruct (read16_in p 8) as [ns Hns]; [lia|]. destruct (read16_in p 10) as [ar Har]; [lia|].
  rewrite Hqd, Han, Hns, Har. simpl.
  destruct (skip_questions_total (Z.to_nat qd) p 12) as (r & Hr & Hge). rewrite Hr. simpl.
  destruct r as [start|]; simpl; [|by eexists]. specialize (Hge start eq_refl).
  pose proof (zero_records_spec (Z.to_nat (an + ns + ar)) p start) as H.
  destruct (ttl_records _ p start) as [offs|] eqn:Er; [|exact H].
  destruct H as (p' & -> & Hz). exists p'. split; [done|]. split; [done|].
  destruct Hz as (Hl & _ & Hkeep). rewrite Hl, (proj2 (Nat.ltb_ge _ _)) by lia.
  pose proof (ttl_records_after _ _ _ _ Er) as Haft. rewrite list.Forall_forall in Haft.
  assert (forall i, (i < start)%nat -> p !! i = p' !! i) as Hhead.
  { intros i Hi. symmetry. apply Hkeep. intros (o & Ho & Hr'). apply Haft in Ho. lia. }
  rewrite <- (read16_ext p p' 4), <- (read16_ext p p' 6), <- (read16_ext p p' 8), <- (read16_ext p p' 10)
    by (apply Hhead; lia). rewrite Hqd, Han, Hns, Har. simpl.
  rewrite (skip_questions_ext _ p p' 12 start) by done. simpl.
  apply (ttl_records_ext _ p); [done..|]. intros i _ Hn. symmetry. by apply Hkeep.
Qed.

(** Zeroing leaves the header alone. *)
Lemma answer_records_header p offs p' i :
  answer_records p = Some offs -> ttls_zeroed offs p p' -> (i < 12)%nat -> p' !! i = p !! i.
Proof.
  unfold answer_records. intros Ha (_ & _ & Hkeep) Hi. apply Hkeep. intros (o & Ho & Hio).
  destruct (length p <? 12)%nat eqn:E; [done|]. bool_to_prop.
  destruct (read16_in p 4) as [qd Hqd]; [lia|]. destruct (read16_in p 6) as [an Han]; [lia|].
  destruct (read16_in p 8) as [ns Hns]; [lia|]. destruct (read16_in p 10) as [ar Har]; [lia|].
  rewrite Hqd, Han, Hns, Har in Ha. simpl in Ha.
  destruct (skip_questions_total (Z.to_nat qd) p 12) as (r & Hr & Hge). rewrite Hr in Ha. simpl in Ha.
  destruct r as [start|]; simpl in Ha; [|done]. specialize (Hge start eq_refl).
  apply ttl_records_after in Ha. rewrite list.Forall_forall in Ha. apply Ha in Ho. lia.
Qed.

Lemma matchingResponse_header query p p' :
  length p' = length p -> (forall i, (i < 3)%nat -> p' !! i = p !! i) -> matchingResponse query p' = matchingResponse query p.
Proof. intros Hl H. unfold matchingResponse. by rewrite Hl, !H by lia. Qed.

(** Zeroing an answer's TTLs never reads or writes outside the packet and
    always returns; it succeeds exactly on answers whose header, questions and
    records can be walked, and then the TTL of every record but OPT is zero,
    every other byte is unchanged, and the rewritten answer walks the same way.
    The length never changes. *)
Theorem zeroResponseTtls_spec p :
  match answer_records p with
  | Some offs => exists p', zeroResponseTtls p = Some (true, p') /\ ttls_zeroed offs p p' /\
                   answer_records p' = Some offs
  | None => exists p', zeroResponseTtls p = Some (false, p') /\ length p' = length p
  end.
Proof. exact (zeroResponseTtls_exact p). Qed.

Lemma find_opt_total n p offset :
  exists v, find_opt n p offset = Some v /\ 512 <= v /\ (Forall is_byte p -> v < 65536).
Proof.
  revert offset. induction n as [|n IH]; intros offset; simpl; [eexists; split; [done|lia]|].
  destruct (skipDnsName_total p offset) as (ok & o & -> & _). simpl.
  destruct (negb ok || _) eqn:E; [eexists; split; [done|lia]|]. bool_to_prop.
  destruct (read16_in p o) as [type ->]; [lia|]. simpl. destruct (type =? 41); [|].
  - destruct (read16_in p (o + 2)) as [size Hs]; [lia|]. rewrite Hs. simpl. eexists. split; [done|].
    split; [lia|]. intros Hb. apply read16_range in Hs; [|done]. lia.
  - destruct (read16_in p (o + 8)) as [dl ->]; [lia|]. simpl. apply IH.
Qed.

(** The client's UDP size is computed within the query's bounds, and is between
    512 and 65535 for any bytes. *)
Lemma advertisedUdpSize_total query :
  exists v, advertisedUdpSize query = Some v /\ 512 <= v /\ (Forall is_byte query -> v < 65536).
Proof.
  unfold advertisedUdpSize. destruct (length query <? 12)%nat eqn:E; [eexists; split; [done|lia]|].
  bool_to_prop. destruct (read16_in query 4) as [qd ->]; [lia|]. simpl.
  destruct (skip_questions_total (Z.to_nat qd) query 12) as (r & -> & _). simpl.
  destruct r as [start|]; [|eexists; split; [done|lia]].
  destruct (read16_in query 6) as [an ->]; [lia|]. destruct (read16_in query 8) as [ns ->]; [lia|].
  destruct (read16_in query 10) as [ar ->]; [lia|]. simpl. apply find_opt_total.
Qed.
