(* ===== verification/Observe.v ===== *)
(** * Observe: what the loader reports of a guard

    Models the read-only side of [src/src/linux/native/bpf-loader.cpp]: the
    identities of a generation as JSON ([identities_json], the birth record and
    [snapshot_json]), the policy as JSON, the counters, [settle], the DNS probe
    through the system's stub resolver, and the request loop [observe].  The
    theorems: a birth record or snapshot identifies a generation exactly, the
    probe answers true only for a genuine answer, and every observation is made
    under a fresh lock after a fresh check of ownership. *)
From Stdlib Require Import ZifyBool.
From S2P Require Import Prelude Kernel Policy Guard Numbers Json Pins Generations DnsWire.

(** ** Identities *)

(** The kernel's number of a pinned map; of a link, its program and its
    cgroup. *)
Record link_identity := { li_id : Z; li_program : Z; li_cgroup : Z }.

(** The identities found in a directory; [None] where a legacy generation has no
    such pin. *)
Record identities := { id_maps : list (option Z); id_links : list (option link_identity) }.

(** [if (comma) out << ','; comma = true; out << json_string(name) << ':' << value;]
    over the pins that exist. *)
Fixpoint json_members (comma : bool) (items : list (list Z * option (list Z))) : list Z :=
  match items with
  | [] => []
  | (_, None) :: rest => json_members comma rest
  | (name, Some value) :: rest =>
      (if comma then [44] else []) ++ json_string name ++ [58] ++ value ++ json_members true rest
  end.

Definition link_value (k : LinkKind) (l : link_identity) : list Z :=
  str "{" ++ [34] ++ str "id" ++ [34; 58] ++ to_string (li_id l) ++
  [44; 34] ++ str "program_id" ++ [34; 58] ++ to_string (li_program l) ++
  (match k with LINK_CGROUP => [44; 34] ++ str "cgroup_id" ++ [34; 58] ++ to_string (li_cgroup l) | _ => [] end) ++ str "}".

Definition map_items (ids : list (option Z)) : list (list Z * option (list Z)) :=
  zip_with (fun (name : String.string) id => (str name, to_string <$> id)) map_names ids.

Definition link_items (ids : list (option link_identity)) : list (list Z * option (list Z)) :=
  zip_with (fun spec id => (str (pin spec), link_value (kind spec) <$> id)) links ids.

Definition identities_json (i : identities) : list Z :=
  [34] ++ str "maps" ++ [34; 58] ++ str "{" ++ json_members false (map_items (id_maps i)) ++
  str "}," ++ [34] ++ str "links" ++ [34; 58] ++ str "{" ++ json_members false (link_items (id_links i)) ++ str "}".

(** *** The birth record *)

(** The file calls of [write_birth_record]: each must succeed. *)
Record record_answers := { r_created : bool; r_protected : bool; r_written : option nat; r_synced : bool; r_parent : bool; r_parent_synced : bool }.

Definition birth_text (i : identities) : list Z := str "{" ++ identities_json i ++ str "}" ++ [10].

(** The record is on disk, whole, when this is true; otherwise the load fails
    before publication. *)
Definition write_birth_record (i : identities) (a : record_answers) : bool :=
  r_created a && r_protected a &&
  (match r_written a with Some n => (n =? length (birth_text i))%nat | None => false end) && r_synced a &&
  r_parent a && r_parent_synced a.

(** ** The host *)

(** [require_host]: this process has the root and the namespaces of process 1;
    each part as the device and inode of the two, where they can be read. *)
Definition host_parts : list String.string := ["root"; "ns/net"; "ns/user"; "ns/pid"]%string.

Definition require_host (self init : list Z -> option (Z * Z)) : bool :=
  forallb (fun part =>
    match self (str "/proc/self/" ++ str part), init (str "/proc/1/" ++ str part) with
    | Some current, Some init => bool_decide (current = init)
    | _, _ => false
    end) host_parts.

(** ** Policy, configuration, counters *)

Definition json_array (entries : list (list Z)) : list Z :=
  let fix members (comma : bool) (entries : list (list Z)) : list Z :=
    match entries with
    | [] => []
    | e :: rest => (if comma then [44] else []) ++ json_string e ++ members true rest
    end in
  str "[" ++ members false entries ++ str "]".

Definition json_bool (b : bool) : list Z := if b then str "true" else str "false".
Definition json_field (name : String.string) (value : list Z) : list Z := [34] ++ str name ++ [34; 58] ++ value.

Definition snapshot_json (cfg : policy_config) (settled : bool) (i : identities) (paths : list (list Z)) : list Z :=
  str "{" ++ json_field "abi" (to_string (version cfg)) ++ [44] ++
  json_field "ready" (json_bool (negb (ready cfg =? 0))) ++ [44] ++
  json_field "mask" (to_string (mask cfg)) ++ [44] ++ json_field "mark" (to_string (mark cfg)) ++ [44] ++
  json_field "root_dev" (to_string (root_dev cfg)) ++ [44] ++ json_field "root_ino" (to_string (root_ino cfg)) ++ [44] ++
  json_field "netns" (to_string (netns cfg)) ++ [44] ++ json_field "userns" (to_string (userns cfg)) ++ [44] ++
  json_field "settled" (json_bool settled) ++ [44] ++ identities_json i ++ [44] ++
  json_field "paths" (json_array paths) ++ str "}" ++ [10].

(** [counter]: the sum over the CPUs, in 64-bit arithmetic; none when the CPUs
    are unknown or the map cannot be read. *)
Definition counter (cpus : Z) (values : option (list Z)) : option Z :=
  if cpus <? 1 then None else foldl (fun sum v => u64 (sum + v)) 0 <$> values.

Definition stat_names : list String.string :=
  ["direct"; "included"; "blocked"; "unsupported_context"; "exe_error"; "path_error"; "unlinked_image";
   "unsupported_socket"; "sockopt_error"]%string.
Definition guard_stat_names : list String.string :=
  ["guard_path_lookups"; "guard_denies"; "guard_objects"; "guard_unknown_stream"]%string.

Definition stat_line (name : String.string) (value : Z) : list Z := str name ++ [61] ++ to_string value ++ [10].

(** [status]: the configuration, then every counter by name. *)
Definition status (cfg : policy_config) (cpus : Z) (stats guards : list (option (list Z))) : option (list Z) :=
  sums ← mapM (counter cpus) stats;
  guard_sums ← mapM (counter cpus) guards;
  Some (str "abi=" ++ to_string (version cfg) ++ str " state=" ++ (if ready cfg =? 0 then str "blocked" else str "ready") ++
        str " mask=" ++ to_string (mask cfg) ++ str " mark=" ++ to_string (mark cfg) ++ [10] ++
        concat (zip_with stat_line stat_names sums) ++ concat (zip_with stat_line guard_stat_names guard_sums) ++
        str "resolver_guards=active restart_audit=required unknown_pre_guard_streams=labelled_by_peer_on_first_use" ++ [10]).

(** ** Completing a load that was killed after publication *)

(** The staging names, in order; [verified] is [inspect_generation]'s success and
    [discarded] that of [discard_staging].  The number removed, or the failure. *)
Fixpoint settle_names (names : list (bool * bool * bool)) (removed : Z) : option Z :=
  match names with
  | [] => Some removed
  | (exists_, verified, discarded) :: rest =>
      if negb (exists_ : bool) then settle_names rest removed
      else if negb verified then None
      else if negb discarded then None
      else settle_names rest (removed + 1)
  end.

Definition settle (link : option Z) (group : option Z) (names : list (bool * bool * bool)) : option Z :=
  group_id ← group;
  cgroup_id ← link;
  if negb (cgroup_id =? group_id) then None else settle_names names 0.

(** ** The DNS probe *)

Record endpoint := { e_family : bool; e_address : Z; e_port : Z }.   (* [e_family]: AF_INET *)
#[export] Instance endpoint_eq : EqDecision endpoint.
Proof. solve_decision. Defined.

Definition stub_resolver : endpoint := {| e_family := true; e_address := 2130706485; e_port := 53 |}. (* 127.0.0.53:53 *)

Definition probe_query (id0 id1 : Z) : list Z :=
  [id0; id1; 1; 0; 0; 1; 0; 0; 0; 0; 0; 0; 7; 101; 120; 97; 109; 112; 108; 101; 3; 99; 111; 109; 0; 0; 1; 0; 1].

(** What the system calls answer, in order: the mark set and read back, the
    timeout, the transaction, the send, and the receive ([inl] is a failure with
    whether it was the timeout). *)
Record probe_answers := {
  q_socket : bool; q_marked : bool; q_observed : option Z; q_bounded : bool; q_random : option (Z * Z); q_sent : bool;
  q_received : bool + (list Z * endpoint)
}.

(** The answer's acceptance. *)
Definition probe_accepts (query answer : list Z) (peer : endpoint) : bool :=
  let at_ i := nth i answer 0 in
  negb ((length answer <? length query + 12)%nat || negb (e_family peer) ||
        negb (e_address peer =? e_address stub_resolver) || negb (e_port peer =? e_port stub_resolver) ||
        negb (at_ 0%nat =? nth 0 query 0) || negb (at_ 1%nat =? nth 1 query 0) || negb (Z.land (at_ 2%nat) 250 =? 128) ||
        negb (Z.land (at_ 3%nat) 15 =? 0) || negb (at_ 4%nat =? 0) || negb (at_ 5%nat =? 1) ||
        ((at_ 6%nat =? 0) && (at_ 7%nat =? 0)) ||
        negb (bool_decide (take (length query - 12) (drop 12 answer) = drop 12 query))).

(** [None] is an exception; otherwise what is printed. *)
Definition probe_dns (cfg : policy_config) (a : probe_answers) : option bool :=
  if (mask cfg =? 0) || (mark cfg =? 0) || has_bits (mark cfg) (unot 32 (mask cfg)) then None
  else if negb (q_socket a) || negb (q_marked a) || negb (bool_decide (q_observed a = Some (mark cfg))) || negb (q_bounded a) then None
  else
    '(id0, id1) ← q_random a;
    if negb (q_sent a) then None
    else match q_received a with
         | inl timeout => if timeout then Some false else None
         | inr (answer, peer) => Some (probe_accepts (probe_query id0 id1) answer peer)
         end.

(** ** The request loop *)

Inductive observation :=
| CheckHost | OpenDirectory | Lock (exclusive : bool) | Verify | Snapshot | ProbeDns | Flush | Unlock.
#[export] Instance observation_eq : EqDecision observation.
Proof. solve_decision. Defined.

(** Whether each step of one request succeeds. *)
Definition host_answers : Type := observation -> bool.

(** The steps until one fails; the descriptor of the lock is closed on the way
    out either way. *)
Fixpoint steps_until (h : host_answers) (steps : list observation) : list observation * bool :=
  match steps with
  | [] => ([], true)
  | s :: rest => if h s then let '(done_, ok) := steps_until h rest in (s :: done_, ok) else ([s], false)
  end.

Definition request_steps (operation : list Z) : option (list observation * list observation) :=
  if bool_decide (operation = str "snapshot") then Some ([OpenDirectory], [Lock false; Verify; Snapshot; Flush])
  else if bool_decide (operation = str "probe-dns") then Some ([CheckHost; OpenDirectory], [Lock true; Verify; ProbeDns; Flush])
  else None.

(** One request: what is done, and whether the loop goes on. *)
Definition observe_request (h : host_answers) (operation : list Z) : list observation * bool :=
  match request_steps operation with
  | None => ([], false)
  | Some (before, locked) =>
      let '(first, ok) := steps_until h before in
      if ok then let '(second, ok) := steps_until h locked in (first ++ second ++ [Unlock], ok)
      else (first, false)
  end.

(** [observe]: a line longer than the buffer fails the stream, as does any end
    but the end of input. *)
Fixpoint observe (requests : list (list Z * host_answers)) (ended : bool) : list observation * bool :=
  match requests with
  | [] => ([], ended)
  | (operation, h) :: rest =>
      if (31 <? length operation)%nat then ([], false)
      else
        let '(done_, ok) := observe_request h operation in
        if ok then let '(more, ok) := observe rest ended in (done_ ++ more, ok) else (done_, false)
  end.

(** ** Identities: theorems *)

Definition nondigit (c : Z) : Prop := is_digit c = false.

(** Two values that cannot run into what follows them. *)
Definition delimited (v v' : list Z) : Prop := forall c c' x x',
  nondigit c -> nondigit c' -> v ++ c :: x = v' ++ c' :: x' -> v = v' /\ c :: x = c' :: x'.

Lemma delimited_digits v v' : forallb is_digit v = true -> forallb is_digit v' = true -> delimited v v'.
Proof.
  revert v'. induction v as [|d v IH]; intros [|d' v'] Hv Hv' c c' x x' Hc Hc' E; simpl in *; bool_to_prop; unfold nondigit in *.
  - by injection E as -> ->.
  - injection E as -> _. congruence.
  - injection E as -> _. congruence.
  - injection E as -> E. destruct (IH v' ltac:(assumption) ltac:(assumption) c c' x x' Hc Hc' E) as [-> ->]. done.
Qed.

Lemma delimited_to_string a b : 0 <= a < 2 ^ 64 -> 0 <= b < 2 ^ 64 -> delimited (to_string a) (to_string b).
Proof. intros Ha Hb. apply delimited_digits; by apply to_string_spec. Qed.

(** A fixed prefix, a number, and what follows it. *)
Lemma number_after prefix a b c c' x x' :
  0 <= a < 2 ^ 64 -> 0 <= b < 2 ^ 64 -> nondigit c -> nondigit c' ->
  prefix ++ to_string a ++ c :: x = prefix ++ to_string b ++ c' :: x' -> a = b /\ c :: x = c' :: x'.
Proof.
  intros Ha Hb Hc Hc' E. apply app_inv_head in E. apply delimited_to_string in E as [E ?]; [|done..].
  apply to_string_inj in E; [|lia..]. done.
Qed.

(** A name that JSON writes as it is. *)
Definition plain_name (n : list Z) : Prop := json_string n = 34 :: n ++ [34] /\ 34 ∉ n.

Lemma plain_name_split n n' x x' : 34 ∉ n -> 34 ∉ n' -> n ++ 34 :: x = n' ++ 34 :: x' -> n = n' /\ x = x'.
Proof.
  revert n'. induction n as [|a n IH]; intros [|a' n'] Hn Hn' E; simpl in *.
  - by injection E as ->.
  - injection E as <- _. exfalso. apply Hn', elem_of_cons. by left.
  - injection E as -> _. exfalso. apply Hn, elem_of_cons. by left.
  - apply not_elem_of_cons in Hn as [_ Hn], Hn' as [_ Hn'].
    injection E as -> E. by destruct (IH n' Hn Hn' E) as [-> ->].
Qed.

(** How the members start: with the end, or with the name of one of them. *)
Lemma members_start comma items r :
  Forall (fun e => plain_name e.1) items ->
  json_members comma items ++ 125 :: r = 125 :: r \/
  exists n x, n ∈ map fst items /\ json_members comma items ++ 125 :: r = (if comma then [44] else []) ++ 34 :: n ++ 34 :: x.
Proof.
  induction 1 as [|[n [v|]] items [Hn _] _ IH]; [by left| |].
  - right. exists n. eexists. split; [set_solver|]. cbn [json_members fst] in *. rewrite Hn. rewrite <- !app_assoc. simpl.
    by rewrite <- !app_assoc.
  - cbn [json_members]. destruct IH as [IH|(m & x & Hm & IH)]; [by left|]. right. exists m, x. split; [set_solver|done].
Qed.

Lemma members_follow items r : Forall (fun e => plain_name e.1) items ->
  exists c x, json_members true items ++ 125 :: r = c :: x /\ nondigit c.
Proof.
  intros H. destruct (members_start true items r H) as [->|(n & x & _ & ->)]; eexists _, _; (split; [done|done]).
Qed.

Lemma members_inj comma items1 items2 r1 r2 :
  map fst items1 = map fst items2 -> NoDup (map fst items1) ->
  Forall (fun e => plain_name e.1) items1 -> Forall (fun e => plain_name e.1) items2 ->
  Forall2 (fun a b => forall v v', a.2 = Some v -> b.2 = Some v' -> delimited v v') items1 items2 ->
  json_members comma items1 ++ 125 :: r1 = json_members comma items2 ++ 125 :: r2 -> items1 = items2 /\ r1 = r2.
Proof.
  intros Hm Hnd Hp1 Hp2 Hd. revert comma. induction Hd as [|[n a] [n' b] items1 items2 Hab Hd IH]; intros comma E.
  { simpl in E. by injection E as ->. }
  cbn [map fst] in *. injection Hm as <- Hm. apply list.NoDup_cons in Hnd as [Hn Hnd].
  apply list.Forall_cons in Hp1 as [Hp Hp1], Hp2 as [_ Hp2]. cbn [fst] in Hp. specialize (IH Hm Hnd Hp1 Hp2).
  assert (forall v items r, Forall (fun e => plain_name e.1) items -> (n ∉ map fst items) ->
    (if comma then [44] else []) ++ json_string n ++ [58] ++ v = json_members comma items ++ 125 :: r -> False) as Hno.
  { intros v items r Hpl Hni E'. rewrite (proj1 Hp) in E'. destruct (members_start comma items r Hpl) as [E''|(m & x & Hin & E'')];
      rewrite E'' in E'; [by destruct comma|]. destruct comma; simpl in E'; [injection E' as E'|injection E' as E'];
      rewrite <- !app_assoc in E'; apply plain_name_split in E' as [-> _]; try done; try apply Hp;
      apply list_elem_of_fmap in Hin as (e & -> & He); rewrite list.Forall_forall in Hpl; by apply Hpl. }
  destruct a as [v|], b as [v'|]; cbn [json_members] in E.
  - rewrite <- !app_assoc in E. apply app_inv_head, app_inv_head in E. simpl in E. injection E as E.
    destruct (members_follow items1 r1 Hp1) as (c & x & E1 & Hc), (members_follow items2 r2 Hp2) as (c' & x' & E2 & Hc').
    rewrite E1, E2 in E. apply (Hab v v' eq_refl eq_refl) in E as [-> E]; [|done..].
    rewrite <- E1, <- E2 in E. by apply IH in E as [-> ->].
  - exfalso. rewrite <- !app_assoc in E. eapply Hno; [exact Hp2| |exact E]. by rewrite <- Hm.
  - exfalso. symmetry in E. rewrite <- !app_assoc in E. eapply Hno; [exact Hp1| |exact E]. done.
  - by apply IH in E as [-> ->].
Qed.

(** Numbers the kernel gives; only a cgroup link has a cgroup. *)
Definition link_ok (k : LinkKind) (l : link_identity) : Prop :=
  0 <= li_id l < 2 ^ 64 /\ 0 <= li_program l < 2 ^ 64 /\ 0 <= li_cgroup l < 2 ^ 64 /\
  match k with LINK_CGROUP => True | _ => li_cgroup l = 0 end.

Record identities_ok (i : identities) : Prop := {
  ok_maps_length : length (id_maps i) = length map_names;
  ok_links_length : length (id_links i) = length links;
  ok_maps : Forall (fun o => forall n, o = Some n -> 0 <= n < 2 ^ 64) (id_maps i);
  ok_links : Forall2 (fun spec o => forall l, o = Some l -> link_ok (kind spec) l) links (id_links i)
}.

#[local] Instance plain_name_dec n : base.Decision (plain_name n).
Proof. unfold plain_name. apply _. Defined.

Lemma map_names_plain : Forall plain_name (map (fun n => str n) map_names) /\ NoDup (map (fun n => str n) map_names).
Proof. split; apply (bool_decide_unpack _); by vm_compute. Qed.

Lemma link_names_plain : Forall plain_name (map (fun s => str (pin s)) links) /\ NoDup (map (fun s => str (pin s)) links).
Proof. split; apply (bool_decide_unpack _); by vm_compute. Qed.

Lemma zip_names {A B} (name : A -> list Z) (show : A -> B -> option (list Z)) specs ids :
  length ids = length specs -> map fst (zip_with (fun s i => (name s, show s i)) specs ids) = map name specs.
Proof.
  revert ids. induction specs as [|s specs IH]; intros [|i ids] H; simpl in *; try done. rewrite IH by lia. done.
Qed.

(** The value of a link with what follows it, cut at its numbers. *)
Definition after_program (k : LinkKind) (l : link_identity) (z : list Z) : list Z :=
  match k with
  | LINK_CGROUP => 44 :: (([34] ++ str "cgroup_id" ++ [34; 58]) ++ to_string (li_cgroup l) ++ 125 :: z)
  | _ => 125 :: z
  end.

Lemma link_value_cut k l z :
  link_value k l ++ z =
    (str "{" ++ [34] ++ str "id" ++ [34; 58]) ++ to_string (li_id l) ++
    44 :: (([34] ++ str "program_id" ++ [34; 58]) ++ to_string (li_program l) ++ after_program k l z).
Proof. unfold link_value, after_program. destruct k; by rewrite <- !app_assoc. Qed.

Lemma after_program_head k l z : exists c x, after_program k l z = c :: x /\ nondigit c.
Proof. destruct k; eexists _, _; (split; [reflexivity|done]). Qed.

Lemma link_value_inj k l l' z z' :
  link_ok k l -> link_ok k l' -> link_value k l ++ z = link_value k l' ++ z' -> l = l' /\ z = z'.
Proof.
  intros (H1 & H2 & H3 & H4) (H1' & H2' & H3' & H4') E. rewrite !link_value_cut in E.
  apply number_after in E as [Ei E]; [|done..]. apply (inj2 cons) in E as [_ E].
  destruct (after_program_head k l z) as (c & x & E1 & Hc), (after_program_head k l' z') as (c' & x' & E1' & Hc').
  rewrite E1, E1' in E. apply number_after in E as [Ep E]; [|done..]. rewrite <- E1, <- E1' in E.
  destruct l as [li lp lc], l' as [li' lp' lc']. cbn [li_id li_program li_cgroup] in *. subst li' lp'.
  unfold after_program in E. cbn [li_cgroup] in E.
  destruct k; [|apply (inj2 cons) in E as [_ ->]; split; [congruence|done]..].
  apply (inj2 cons) in E as [_ E]. apply number_after in E as [-> E]; [|done..]. by injection E as ->.
Qed.

Lemma link_value_delimited k l l' : link_ok k l -> link_ok k l' -> delimited (link_value k l) (link_value k l').
Proof. intros Hl Hl' c c' x x' _ _ E. apply link_value_inj in E as [-> E]; done. Qed.

(** Rows of specifications and identities that print alike are alike. *)
Lemma rows_inj {A B} (name : A -> list Z) (show : A -> B -> list Z) (ok : A -> B -> Prop) specs ids ids' :
  (forall s b b', ok s b -> ok s b' -> show s b = show s b' -> b = b') ->
  Forall2 (fun s o => forall b, o = Some b -> ok s b) specs ids ->
  Forall2 (fun s o => forall b, o = Some b -> ok s b) specs ids' ->
  zip_with (fun s o => (name s, show s <$> o)) specs ids = zip_with (fun s o => (name s, show s <$> o)) specs ids' -> ids = ids'.
Proof.
  intros Hinj H1. revert ids'. induction H1 as [|s o specs ids Ho _ IH]; intros ids' H2 E;
    (destruct ids' as [|o' ids2]; [try done; inversion H2|]); [inversion H2|]. apply Forall2_cons_1 in H2 as [Ho' H2'].
  cbn [zip_with] in E. apply (inj2 cons) in E as [E1 E2]. f_equal; [|by apply IH].
  apply (f_equal snd) in E1. cbn [snd] in E1. destruct o as [b|], o' as [b'|]; try done. f_equal.
  apply (inj Some) in E1. apply (Hinj s); auto.
Qed.

Lemma rows_delimited {A B} (name : A -> list Z) (show : A -> B -> list Z) (ok : A -> B -> Prop) specs ids ids' :
  (forall s b b', ok s b -> ok s b' -> delimited (show s b) (show s b')) ->
  Forall2 (fun s o => forall b, o = Some b -> ok s b) specs ids ->
  Forall2 (fun s o => forall b, o = Some b -> ok s b) specs ids' ->
  Forall2 (fun a b => forall v v', a.2 = Some v -> b.2 = Some v' -> delimited v v')
    (zip_with (fun s o => (name s, show s <$> o)) specs ids) (zip_with (fun s o => (name s, show s <$> o)) specs ids').
Proof.
  intros Hd H1. revert ids'. induction H1 as [|s o specs ids Ho _ IH]; intros ids' H2;
    (destruct ids' as [|o' ids2]; [try constructor; inversion H2|]); [inversion H2|]. apply Forall2_cons_1 in H2 as [Ho' H2'].
  cbn [zip_with]. constructor; [|by apply IH]. cbn [snd]. intros v v'. destruct o as [b|], o' as [b'|]; try done.
  cbn. intros [= <-] [= <-]. apply Hd; auto.
Qed.

Lemma rows_plain {A B} (name : A -> list Z) (show : A -> B -> option (list Z)) specs (ids : list B) :
  length ids = length specs -> Forall plain_name (map name specs) ->
  Forall (fun e => plain_name e.1) (zip_with (fun s i => (name s, show s i)) specs ids).
Proof. intros Hl H. rewrite <- (zip_names name show specs ids Hl) in H. by rewrite list.Forall_fmap in H. Qed.

(** One object of the record: equal texts, equal identities. *)
Lemma object_inj {A B} (name : A -> list Z) (show : A -> B -> list Z) (ok : A -> B -> Prop) specs ids ids' r r' :
  Forall plain_name (map name specs) -> NoDup (map name specs) ->
  (forall s b b', ok s b -> ok s b' -> delimited (show s b) (show s b')) ->
  (forall s b b', ok s b -> ok s b' -> show s b = show s b' -> b = b') ->
  Forall2 (fun s o => forall b, o = Some b -> ok s b) specs ids ->
  Forall2 (fun s o => forall b, o = Some b -> ok s b) specs ids' ->
  json_members false (zip_with (fun s o => (name s, show s <$> o)) specs ids) ++ 125 :: r =
  json_members false (zip_with (fun s o => (name s, show s <$> o)) specs ids') ++ 125 :: r' ->
  ids = ids' /\ r = r'.
Proof.
  intros Hpl Hnd Hd Hinj H1 H2 E.
  pose proof (eq_sym (list.Forall2_length _ _ _ H1)) as L1. pose proof (eq_sym (list.Forall2_length _ _ _ H2)) as L2.
  apply members_inj in E as [E ->].
  - split; [|done]. by eapply rows_inj.
  - rewrite !(zip_names name (fun s o => show s <$> o)) by done. done.
  - by rewrite (zip_names name (fun s o => show s <$> o)).
  - by apply (rows_plain name (fun s o => show s <$> o)).
  - by apply (rows_plain name (fun s o => show s <$> o)).
  - by apply (rows_delimited name show ok).
Qed.

Lemma maps_rows ids : length ids = length map_names -> Forall (fun o => forall n, o = Some n -> 0 <= n < 2 ^ 64) ids ->
  Forall2 (fun (_ : String.string) o => forall n, o = Some n -> 0 <= n < 2 ^ 64) map_names ids.
Proof.
  intros Hl H. apply Forall2_same_length_lookup_2; [done|]. intros i x y Hx Hy. rewrite Forall_lookup in H. by apply (H i).
Qed.

(** The birth record written before a guard is published identifies that
    generation exactly: two generations with the same record text have the same
    maps and links, by the kernel's numbers, with the same programs and cgroup,
    and lack the same pins.  So a later load that finds the record's text in a
    snapshot knows the published directory is the one that was loaded. *)
Theorem birth_record_identifies i i' :
  identities_ok i -> identities_ok i' -> birth_text i = birth_text i' -> i = i'.
Proof.
  intros [L1 L2 M1 M2] [L1' L2' M1' M2'] E. unfold birth_text, identities_json in E.
  apply app_inv_head in E. rewrite <- !app_assoc in E. do 4 apply app_inv_head in E.
  unfold map_items in E. change (str "}," ++ ?x) with (125 :: [44] ++ x) in E.
  apply (object_inj (fun n : String.string => str n) (fun _ => to_string) (fun _ n => 0 <= n < 2 ^ 64)) in E as [Em E];
    [|apply map_names_plain|apply map_names_plain|intros; by apply delimited_to_string|intros; by apply to_string_inj|by apply maps_rows..].
  do 5 apply app_inv_head in E. unfold link_items in E. change (str "}" ++ ?x) with (125 :: x) in E.
  apply (object_inj (fun s => str (pin s)) (fun s => link_value (kind s)) (fun s => link_ok (kind s))) in E as [El _];
    [|apply link_names_plain|apply link_names_plain|intros; by apply link_value_delimited| |done..].
  - destruct i, i'. simpl in *. by subst.
  - intros s b b' Hb Hb' Eq. eapply (link_value_inj _ _ _ [] []); [exact Hb|exact Hb'|by rewrite Eq].
Qed.

(** A legacy generation without its added maps and links. *)
Definition demo_identities : identities := {|
  id_maps := replicate 14 (Some 7) ++ [None];
  id_links := Some {| li_id := 5; li_program := 6; li_cgroup := 77 |} :: replicate 14 None |}.

Lemma demo_birth_ok : identities_ok demo_identities.
Proof.
  split; [done|done| |].
  - apply Forall_app. split; [apply Forall_replicate; intros n [= <-]; lia|]. constructor; [done|constructor].
  - unfold links, demo_identities. cbn [id_links]. constructor.
    + intros l [= <-]. unfold link_ok. cbn. lia.
    + repeat constructor; done.
Qed.

Lemma birth_record_identifies_witness : demo_identities = {|
  id_maps := map (fun _ => Some 7) (seq 0 14) ++ [None];
  id_links := Some {| li_id := 5; li_program := 6; li_cgroup := 77 |} :: map (fun _ => None) (seq 0 14) |}.
Proof. apply birth_record_identifies; [apply demo_birth_ok|exact demo_birth_ok|by vm_compute]. Defined.

(** ** The DNS probe: theorem *)

(** The question of the probe's query, as the dispatcher's parser reads it. *)
Definition probe_question : Question := {| q_name := str "example.com"; q_type := 1 |}.

(** A packet whose header announces one question and whose next bytes are the
    query's asks that question. *)
Lemma probe_question_echoed id0 id1 answer :
  (29 <= length answer)%nat -> nth 4 answer 0 = 0 -> nth 5 answer 0 = 1 ->
  take 17 (drop 12 answer) = drop 12 (probe_query id0 id1) ->
  parseQuestion (H:=c_locale) answer = Some (Some probe_question).
Proof.
  intros Hl H4 H5 Hq.
  assert (answer = take 12 answer ++ wire_name [str "example"; str "com"] ++ 0 :: 1 :: 0 :: 1 :: drop 17 (drop 12 answer)) as Ea.
  { rewrite <- (take_drop 12 answer) at 1. f_equal. rewrite <- (take_drop 17 (drop 12 answer)) at 1. rewrite Hq. done. }
  assert (forall i v, (i < 12)%nat -> nth i answer 0 = v -> take 12 answer !! i = Some v) as Hh.
  { intros i v Hi Hv. rewrite lookup_take_lt by done. destruct (lookup_lt_is_Some_2 answer i) as [x Hx]; [lia|].
    rewrite nth_lookup, Hx in Hv. simpl in Hv. by subst. }
  rewrite Ea. rewrite (parse_wire_question (H:=c_locale) (take 12 answer) [str "example"; str "com"] 0 1).
  - by vm_compute.
  - rewrite length_take. lia.
  - apply Hh; [lia|done].
  - apply Hh; [lia|done].
  - done.
  - constructor; [|constructor; [|constructor]]; unfold label_ok; vm_compute; split; apply Nat.leb_le; done.
  - apply Nat.leb_le. by vm_compute.
  - cbn [length]. lia.
Qed.

(** The loader's DNS probe prints true only when its socket carried the
    configured mark, within the configured mask, and a datagram came from the
    stub resolver at 127.0.0.53 port 53 that has the transaction of this probe,
    is a complete error-free answer with at least one record, and asks the
    question that was asked. *)
Theorem probe_true_means_answer cfg a :
  probe_dns cfg a = Some true ->
  mark cfg <> 0 /\ has_bits (mark cfg) (unot 32 (mask cfg)) = false /\ q_observed a = Some (mark cfg) /\
  exists id0 id1 answer peer, q_random a = Some (id0, id1) /\ q_received a = inr (answer, peer) /\
    peer = stub_resolver /\ nth 0 answer 0 = id0 /\ nth 1 answer 0 = id1 /\ Z.land (nth 3 answer 0) 15 = 0 /\
    (nth 6 answer 0 <> 0 \/ nth 7 answer 0 <> 0) /\
    parseQuestion (H:=c_locale) answer = Some (Some probe_question).
Proof.
  unfold probe_dns. destruct (_ || _ || _) eqn:E1; [done|]. destruct (_ || _ || _ || _) eqn:E2; [done|].
  destruct (q_random a) as [[id0 id1]|]; [|done]. cbn [mbind option_bind]. destruct (q_sent a); [|done]. cbn [negb].
  destruct (q_received a) as [[]|[answer peer]]; [done..|]. intros [= Hp]. unfold probe_accepts in Hp.
  apply negb_true_iff in Hp. rewrite !orb_false_iff, !negb_false_iff in Hp.
  destruct Hp as (((((((((((Hl & Hf) & Ha) & Hport) & H0) & H1) & _) & H3) & H4) & H5) & H67) & Hq).
  bool_to_prop. split; [done|]. split; [done|]. split; [done|].
  exists id0, id1, answer, peer. cbn [nth probe_query] in H0, H1.
  assert (29 <= length answer)%nat by (change (length (probe_query id0 id1)) with 29%nat in Hl; lia).
  split_and!; try done.
  - destruct peer. cbn in *. by subst.
  - destruct (nth 6 answer 0 =? 0) eqn:E6; bool_to_prop; [right|by left]. by simpl in H67; bool_to_prop.
  - by apply (probe_question_echoed id0 id1).
Qed.

Definition demo_config : policy_config := {| version := 1; ready := 1; mask := 240; mark := 16; root_dev := 1; root_ino := 2; netns := 3; userns := 4 |}.
Definition demo_probe : probe_answers := {|
  q_socket := true; q_marked := true; q_observed := Some 16; q_bounded := true; q_random := Some (9, 8); q_sent := true;
  q_received := inr (<[7%nat := 1]> (<[2%nat := 129]> (probe_query 9 8)) ++ replicate 16 0, stub_resolver) |}.

Lemma probe_true_means_answer_witness : probe_dns demo_config demo_probe = Some true /\ mark demo_config <> 0.
Proof.
  assert (probe_dns demo_config demo_probe = Some true) as E by (by vm_compute).
  split; [exact E|]. exact (proj1 (probe_true_means_answer demo_config demo_probe E)).
Defined.

(** ** The request loop: theorem *)

(** What must come just before a report, the latest first: the check of
    ownership and the lock of its kind; for the probe also the host check. *)
Definition before_report (s : observation) : list observation :=
  match s with
  | Snapshot => [Verify; Lock false]
  | ProbeDns => [Verify; Lock true; OpenDirectory; CheckHost]
  | _ => []
  end.

Fixpoint guarded (seen trace : list observation) : bool :=
  match trace with
  | [] => true
  | s :: rest => bool_decide (before_report s `prefix_of` seen) && guarded (s :: seen) rest
  end.

Lemma guarded_more seen extra trace : guarded seen trace = true -> guarded (seen ++ extra) trace = true.
Proof.
  revert seen. induction trace as [|s trace IH]; intros seen; cbn [guarded]; [done|].
  rewrite !andb_true_iff, !bool_decide_eq_true. intros [Hp Hg]. split; [by apply prefix_app_r|]. by apply (IH (s :: seen)).
Qed.

Lemma guarded_app seen t1 t2 : guarded seen t1 = true -> guarded [] t2 = true -> guarded seen (t1 ++ t2) = true.
Proof.
  revert seen. induction t1 as [|s t1 IH]; intros seen; cbn [guarded app].
  - intros _ H. by apply (guarded_more [] seen).
  - rewrite !andb_true_iff. intros [Hp Hg] H2. split; [done|]. by apply IH.
Qed.

Lemma request_guarded h operation : guarded [] (observe_request h operation).1 = true.
Proof.
  unfold observe_request, request_steps. case_bool_decide; [|case_bool_decide]; [| |done]; cbn [steps_until].
  - destruct (h OpenDirectory); [|done]. destruct (h (Lock false)); [|done]. destruct (h Verify); [|done].
    destruct (h Snapshot); [|done]. by destruct (h Flush).
  - destruct (h CheckHost); [|done]. destruct (h OpenDirectory); [|done]. destruct (h (Lock true)); [|done].
    destruct (h Verify); [|done]. destruct (h ProbeDns); [|done]. by destruct (h Flush).
Qed.

(** Whatever requests arrive over the pipe and whichever steps fail, every
    snapshot is reported under a shared lock and every probe under an exclusive
    one that was taken for this very request, after the ownership of the
    directory was checked again under it (a probe after the host check too);
    nothing is carried from one request to the next. *)
Theorem observations_guarded requests ended : guarded [] (observe requests ended).1 = true.
Proof.
  induction requests as [|[operation h] requests IH]; cbn [observe]; [done|].
  destruct (31 <? length operation)%nat; [done|]. pose proof (request_guarded h operation) as Hr.
  destruct (observe_request h operation) as [d ok]. cbn [fst] in Hr. destruct ok; [|done].
  destruct (observe requests ended) as [more ok2]. cbn [fst] in *. by apply guarded_app.
Qed.
