(* ===== verification/Attribution.v ===== *)
(** * Attribution: from query events to routes

    Models the [Hints] class of [src/src/native/dns-attribution.h]: the table of
    attribution evidence per name and type, its operations, and the decision
    whether a query goes to the tunnel, direct, or nowhere.  Every
    [steady_clock::now()] the source reads is an argument, in nanoseconds; the
    ordering barrier, during which the lock is released, splits [take] and
    [directAnswerUnsafe] into the part before it and the part after it. *)
From S2P Require Import Prelude Numbers DnsWire.

Abbreviation time := Z (only parsing).
Definition seconds (n : Z) : Z := n * 1000000000.
Definition milliseconds (n : Z) : Z := n * 1000000.

Definition kMaxHints : nat := 4096.
Definition kLatestGeneration : Z := 2 ^ 64 - 1.

Inductive Decision := Undecided | Direct | Tunnel.
#[export] Instance decision_eq_dec : EqDecision Decision.
Proof. solve_decision. Defined.

(** [struct Pending]; the field names carry a prefix only where they would
    clash. *)
Record Pending := {
  tunnel : bool; selected : bool; selectedAnswered : bool; generation : Z; direct : bool;
  unknownUntil : Z; answered : bool; decision : Decision; expires : Z; answeredAt : Z; selectedAnsweredAt : Z
}.

Definition fresh : Pending :=
  {| tunnel := false; selected := false; selectedAnswered := false; generation := 0; direct := false;
     unknownUntil := 0; answered := false; decision := Undecided; expires := 0; answeredAt := 0; selectedAnsweredAt := 0 |}.

Record Hints := {
  nextExpiry : Z; overloadedUntil : Z; directBlockedUntil : Z;
  included : gset (list Z); reuseWindow : Z;
  sequence : Z; processed : Z; checked : Z; generations : Z;
  hints : gmap (list Z) Pending
}.

(** A new object: no evidence, nothing blocked. *)
Definition newHints (apps : gset (list Z)) (window : Z) : Hints :=
  {| nextExpiry := 0; overloadedUntil := 0; directBlockedUntil := 0; included := apps; reuseWindow := window;
     sequence := 0; processed := 0; checked := 0; generations := 0; hints := ∅ |}.

Definition set_hints s m := {| nextExpiry := nextExpiry s; overloadedUntil := overloadedUntil s;
  directBlockedUntil := directBlockedUntil s; included := included s; reuseWindow := reuseWindow s;
  sequence := sequence s; processed := processed s; checked := checked s; generations := generations s; hints := m |}.
Definition set_expiry s t m := {| nextExpiry := t; overloadedUntil := overloadedUntil s;
  directBlockedUntil := directBlockedUntil s; included := included s; reuseWindow := reuseWindow s;
  sequence := sequence s; processed := processed s; checked := checked s; generations := generations s; hints := m |}.
Definition set_overloaded s t := {| nextExpiry := nextExpiry s; overloadedUntil := t;
  directBlockedUntil := directBlockedUntil s; included := included s; reuseWindow := reuseWindow s;
  sequence := sequence s; processed := processed s; checked := checked s; generations := generations s; hints := hints s |}.
Definition set_blocked s t m := {| nextExpiry := nextExpiry s; overloadedUntil := overloadedUntil s;
  directBlockedUntil := t; included := included s; reuseWindow := reuseWindow s;
  sequence := sequence s; processed := processed s; checked := checked s; generations := generations s; hints := m |}.
Definition set_generations s g m := {| nextExpiry := nextExpiry s; overloadedUntil := overloadedUntil s;
  directBlockedUntil := directBlockedUntil s; included := included s; reuseWindow := reuseWindow s;
  sequence := sequence s; processed := processed s; checked := checked s; generations := g; hints := m |}.
Definition set_barrier s q p c := {| nextExpiry := nextExpiry s; overloadedUntil := overloadedUntil s;
  directBlockedUntil := directBlockedUntil s; included := included s; reuseWindow := reuseWindow s;
  sequence := q; processed := p; checked := c; generations := generations s; hints := hints s |}.

Definition setIncluded (s : Hints) (apps : gset (list Z)) : Hints :=
  {| nextExpiry := nextExpiry s; overloadedUntil := overloadedUntil s;
     directBlockedUntil := directBlockedUntil s; included := apps; reuseWindow := reuseWindow s;
     sequence := sequence s; processed := processed s; checked := checked s; generations := generations s;
     hints := hints s |}.

Definition isIncluded (s : Hints) (lowerPath : list Z) : bool := bool_decide (lowerPath ∈ included s).

(** At most one scan per second drops the entries whose lifetime ended. *)
Definition expire (s : Hints) (now : time) : Hints :=
  if now <? nextExpiry s then s
  else set_expiry s (now + seconds 1) (filter (fun e => now < expires e.2) (hints s)).

Definition retire (window : Z) (pending : Pending) (now : time) : Pending :=
  let unclaimedTunnel := tunnel pending && negb (bool_decide (decision pending = Tunnel)) in
  let recentSelected := selectedAnswered pending && (now - selectedAnsweredAt pending <? window) in
  {| tunnel := unclaimedTunnel || recentSelected; selected := unclaimedTunnel && selected pending;
     selectedAnswered := recentSelected; generation := generation pending; direct := false;
     unknownUntil := unknownUntil pending; answered := false; decision := Undecided; expires := expires pending;
     answeredAt := 0; selectedAnsweredAt := selectedAnsweredAt pending |}.

Section Operations.
Context {W : WideChars}.

Definition makeKey (name : list Z) (type : Z) : list Z := normalizeName name ++ [35] ++ to_string type.

(** The entry an accepted event leaves: what was there, renewed, with the
    event's evidence added. *)
Definition note_event (window : Z) (old : option Pending) (now gen : Z) (is_selected known : bool) : Pending :=
  let pending := default fresh old in
  let pending := if expires pending <=? now then fresh
                 else if answered pending then retire window pending now else pending in
  {| tunnel := tunnel pending || is_selected; selected := selected pending || is_selected;
     selectedAnswered := selectedAnswered pending; generation := gen;
     direct := direct pending || (known && negb is_selected);
     unknownUntil := if known then unknownUntil pending else now + seconds 10;
     answered := answered pending; decision := decision pending;
     expires := Z.max (expires pending) (now + seconds 10);
     answeredAt := answeredAt pending; selectedAnsweredAt := selectedAnsweredAt pending |}.

Definition addResolved (s : Hints) (now : time) (name : list Z) (type : Z) (path : list Z) : bool * Hints :=
  let known := negb (bool_decide (path = [])) in
  let is_selected := known && isIncluded s (lower path) in
  let key := makeKey name type in
  let s := expire s now in
  if (253 <? length name)%nat || ((kMaxHints <=? size (hints s))%nat && negb (bool_decide (is_Some (hints s !! key))))
  then (false, set_overloaded s (now + seconds 10))
  else
    let gen := u64 (generations s + 1) in
    (true, set_generations s gen
             (<[key := note_event (reuseWindow s) (hints s !! key) now gen is_selected known]> (hints s))).

(** Dropped events: keep tunnel evidence and the quarantine, refuse direct
    routes for an attribution lifetime. *)
Definition lostEvents (s : Hints) (now : time) : Hints :=
  set_blocked s (now + seconds 10) (filter (fun e => tunnel e.2 = true \/ now < unknownUntil e.2) (hints s)).

Definition sentinelProcessed (s : Hints) (n : Z) : Hints := set_barrier s (sequence s) (Z.max (processed s) n) (checked s).
Definition flushChecked (s : Hints) (n : Z) : Hints := set_barrier s (sequence s) (processed s) (Z.max (checked s) n).

(** An entry whose decision was taken: unanswered, with the decision. *)
Definition decided (p : Pending) (d : Decision) : Pending :=
  {| tunnel := tunnel p; selected := selected p; selectedAnswered := selectedAnswered p;
     generation := generation p; direct := direct p; unknownUntil := unknownUntil p;
     answered := false; decision := d; expires := expires p; answeredAt := answeredAt p;
     selectedAnsweredAt := selectedAnsweredAt p |}.

(** [decide(key, reused, allowDirect)] ([decide] is a name of stdpp): the route,
    whether [*reused] was set, and the new state. *)
Definition decideRoute (s : Hints) (now : time) (key : list Z) (allowDirect : bool) : option bool * bool * Hints :=
  let s := expire s now in
  match hints s !! key with
  | None => (None, false, s)
  | Some pending =>
      let put p := set_hints s (<[key := p]> (hints s)) in
      let erase := set_hints s (delete key (hints s)) in
      if expires pending <=? now then (None, false, erase)
      else
        let directAllowed := allowDirect && (directBlockedUntil s <=? now) && (unknownUntil pending <=? now) in
        if answered pending then
          if tunnel pending && negb (bool_decide (decision pending = Tunnel))
          then (Some true, false, put (decided pending Tunnel))
          else if bool_decide (decision pending = Undecided) || (reuseWindow s <=? now - answeredAt pending) then
            let pending := retire (reuseWindow s) pending now in
            if negb (tunnel pending) && (unknownUntil pending <=? now) then (None, false, erase)
            else if tunnel pending then (Some true, false, put (decided pending Tunnel))
            else (None, false, put pending)
          else if bool_decide (decision pending = Tunnel) || directAllowed
          then (Some (bool_decide (decision pending = Tunnel)), true, s)
          else (None, false, s)
        else if tunnel pending || bool_decide (decision pending = Tunnel)
        then (Some true, false, put (decided pending Tunnel))
        else if directAllowed && (direct pending || bool_decide (decision pending = Direct))
        then (Some false, false, put (decided pending Direct))
        else (None, false, s)
  end.

(** ** Taking a decision around the barrier *)

(** Before the barrier: refused, decided, or waiting for the sequence. *)
Inductive taking := Refused | Routed (route : bool) (gen : Z) | Waiting (seq : Z).

Definition generation_of (s : Hints) (key : list Z) : Z :=
  match hints s !! key with Some p => generation p | None => 0 end.

Definition take_begin (s : Hints) (t1 t2 : time) (key : list Z) : taking * Hints :=
  if t1 <? overloadedUntil s then (Refused, s)
  else
    let '(route, _, s) := decideRoute s t2 key false in
    if bool_decide (route = Some true) then (Routed true (generation_of s key), s)
    else let n := u64 (sequence s + 1) in (Waiting n, set_barrier s n (processed s) (checked s)).

(** The barrier's predicate. *)
Definition barrier_done (s : Hints) (n : Z) : bool := (n <=? processed s) && (n <=? checked s).

(** After the barrier ([passed]: it completed in time): the final route and
    the generation it was decided on. *)
Definition take_end (s : Hints) (passed : bool) (t1 t2 : time) (key : list Z) : option (bool * Z) * Hints :=
  if negb passed || (t1 <? overloadedUntil s) then (None, s)
  else
    let '(route, _, s) := decideRoute s t2 key true in
    (match route with Some r => Some (r, generation_of s key) | None => None end, s).

(** [directAnswerUnsafe], after its barrier. *)
Definition direct_unsafe (s : Hints) (passed : bool) (now : time) (key : list Z) : bool :=
  if negb passed then true
  else if (now <? directBlockedUntil s) || (now <? overloadedUntil s) then true
  else match hints s !! key with
       | Some p => tunnel p || (now <? unknownUntil p)
       | None => false
       end.

(** An exchange decided on generation [gen] answers evidence [p]: not newer
    evidence. *)
Definition finalizes (p : Pending) (gen : Z) : bool := (gen =? kLatestGeneration) || (gen =? generation p).

(** The entry after an exchange was answered. *)
Definition completed (window : Z) (p : Pending) (now gen : Z) : Pending :=
  let claimed := bool_decide (decision p = Tunnel) && selected p in
  {| tunnel := tunnel p; selected := selected p; selectedAnswered := selectedAnswered p || claimed;
     generation := generation p; direct := direct p; unknownUntil := unknownUntil p;
     answered := if finalizes p gen then true else answered p;
     decision := decision p;
     expires := if claimed then Z.max (expires p) (now + window) else expires p;
     answeredAt := if finalizes p gen then now else answeredAt p;
     selectedAnsweredAt := if claimed then now else selectedAnsweredAt p |}.

Definition complete (s : Hints) (now : time) (key : list Z) (gen : Z) : Hints :=
  match hints s !! key with
  | None => s
  | Some p => set_hints s (<[key := completed (reuseWindow s) p now gen]> (hints s))
  end.
End Operations.

(** ** Keys *)

Section Keys.
Context {W : WideChars}.

Lemma split_last_hash a b a' b' :
  35 ∉ b -> 35 ∉ b' -> a ++ [35] ++ b = a' ++ [35] ++ b' -> a = a' /\ b = b'.
Proof.
  revert a'. induction a as [|x a IH]; intros [|y a'] Hb Hb'; simpl; intros [=]; subst.
  - done.
  - exfalso. apply Hb. set_solver.
  - exfalso. apply Hb'. set_solver.
  - destruct (IH a') as [-> ->]; auto.
Qed.

Lemma to_string_no_hash n : 0 <= n < 2 ^ 64 -> 35 ∉ to_string n.
Proof.
  intros Hn Hin. destruct (to_string_spec n Hn) as (_ & Hd & _).
  rewrite forallb_forall in Hd. apply list_elem_of_In in Hin. by apply Hd in Hin.
Qed.

(** Two lookups share an entry exactly when name and type agree. *)
Lemma makeKey_inj name name' type type' :
  0 <= type < 65536 -> 0 <= type' < 65536 ->
  makeKey name type = makeKey name' type' -> normalizeName name = normalizeName name' /\ type = type'.
Proof.
  intros Ht Ht' H. apply split_last_hash in H as [-> H]; [|apply to_string_no_hash; lia..].
  split; [done|]. apply to_string_inj in H; lia.
Qed.
End Keys.

(** ** Operations as steps *)

(** One operation on the table, with the times it reads. *)
Inductive op :=
| OpEvent (now : Z) (name : list Z) (type : Z) (path : list Z)
| OpLost (now : Z)
| OpSentinel (now n : Z)
| OpFlush (now n : Z)
| OpBegin (t1 now : Z) (key : list Z)
| OpEnd (passed : bool) (t1 now : Z) (key : list Z)
| OpComplete (now : Z) (key : list Z) (gen : Z)
| OpInclude (now : Z) (apps : gset (list Z)).

Definition op_time (o : op) : Z :=
  match o with
  | OpEvent now _ _ _ | OpLost now | OpSentinel now _ | OpFlush now _
  | OpBegin _ now _ | OpEnd _ _ now _ | OpComplete now _ _ | OpInclude now _ => now
  end.

Section Steps.
Context {W : WideChars}.

Definition apply_op (s : Hints) (o : op) : Hints :=
  match o with
  | OpEvent now name type path => (addResolved s now name type path).2
  | OpLost now => lostEvents s now
  | OpSentinel _ n => sentinelProcessed s n
  | OpFlush _ n => flushChecked s n
  | OpBegin t1 now key => (take_begin s t1 now key).2
  | OpEnd passed t1 now key => (take_end s passed t1 now key).2
  | OpComplete now key gen => complete s now key gen
  | OpInclude _ apps => setIncluded s apps
  end.

(** What one operation may do to one entry.  [claiming]: an answered tunnel
    exchange may end the evidence it was decided on; [evidence]: an event may add
    direct evidence. *)
Inductive entry_step (window now : Z) (claiming evidence : bool) : option Pending -> option Pending -> Prop :=
| es_expired p : expires p <= now -> entry_step window now claiming evidence (Some p) None
| es_dropped p : tunnel p = false -> unknownUntil p <= now -> entry_step window now claiming evidence (Some p) None
| es_event o gen sel known : (known && negb sel = true -> evidence = true) ->
    entry_step window now claiming evidence o (Some (note_event window o now gen sel known))
| es_tunnel p : tunnel p = true \/ (answered p = false /\ decision p = Tunnel) ->
    entry_step window now claiming evidence (Some p) (Some (decided p Tunnel))
| es_direct p : tunnel p = false -> answered p = false -> unknownUntil p <= now ->
    (direct p = true \/ decision p = Direct) -> entry_step window now claiming evidence (Some p) (Some (decided p Direct))
| es_retired p : answered p = true -> tunnel p && negb (bool_decide (decision p = Tunnel)) = false ->
    entry_step window now claiming evidence (Some p) (Some (retire window p now))
| es_completed p gen : (finalizes p gen = true -> decision p = Tunnel -> claiming = true) ->
    entry_step window now claiming evidence (Some p) (Some (completed window p now gen)).

Definition entry_steps window now claiming evidence := rtc (entry_step window now claiming evidence).

Lemma expire_entry s now key claiming evidence :
  entry_steps (reuseWindow s) now claiming evidence (hints s !! key) (hints (expire s now) !! key).
Proof.
  unfold expire. destruct (_ <? _); [reflexivity|]. simpl.
  destruct (hints s !! key) as [p|] eqn:E.
  - destruct (expires p <=? now) eqn:Ex; bool_to_prop.
    + rewrite (map_lookup_filter_None_2 _ (hints s) key).
      * apply rtc_once. by apply es_expired.
      * right. intros p' Hp'. rewrite E in Hp'. simplify_eq. simpl. lia.
    + rewrite (map_lookup_filter_Some_2 _ (hints s) key p); [reflexivity|done|done].
  - rewrite (map_lookup_filter_None_2 _ (hints s) key); [reflexivity|by left].
Qed.

Lemma expire_window s now : reuseWindow (expire s now) = reuseWindow s.
Proof. unfold expire. by destruct (_ <? _). Qed.

(** The decision step itself, on the entry it looks at. *)
Lemma decide_entry s now key allow claiming evidence :
  entry_steps (reuseWindow s) now claiming evidence (hints (expire s now) !! key)
    (hints (decideRoute s now key allow).2 !! key).
Proof.
  unfold decideRoute. rewrite <- (expire_window s now). set (s1 := expire s now).
  destruct (hints s1 !! key) as [p|] eqn:E; [|simpl; by rewrite E].
  destruct (expires p <=? now) eqn:Ex; [simpl; rewrite lookup_delete_eq; bool_to_prop; apply rtc_once; by apply es_expired|].
  destruct (answered p) eqn:Ea.
  - destruct (tunnel p && _) eqn:Et.
    { simpl; rewrite lookup_insert_eq. bool_to_prop. apply rtc_once, es_tunnel. by left. }
    destruct (_ || (_ <=? _)) eqn:Er.
    + eapply rtc_l; [by apply es_retired|]. set (q := retire _ _ _).
      destruct (negb (tunnel q) && _) eqn:Ed; [simpl; rewrite lookup_delete_eq; bool_to_prop; apply rtc_once; by apply es_dropped|].
      destruct (tunnel q) eqn:Eq; simpl; rewrite lookup_insert_eq; [apply rtc_once, es_tunnel; by left|reflexivity].
    + clear Er. destruct (_ || _); simpl; by rewrite E.
  - destruct (tunnel p || _) eqn:Et.
    { simpl; rewrite lookup_insert_eq. apply rtc_once, es_tunnel. apply orb_true_iff in Et as [?|?]; [by left|right].
      by bool_to_prop. }
    bool_to_prop. destruct (_ && (direct p || _)) eqn:Ed; [|simpl; by rewrite E].
    simpl; rewrite lookup_insert_eq. bool_to_prop. apply rtc_once, es_direct; [done..|].
    match goal with H : direct p || _ = true |- _ => apply orb_true_iff in H as [?|?] end;
      [by left|right; by bool_to_prop].
Qed.

Lemma decide_other s now key key' allow :
  key' <> key -> hints (decideRoute s now key allow).2 !! key' = hints (expire s now) !! key'.
Proof.
  intros Hne. unfold decideRoute. set (s1 := expire s now). destruct (hints s1 !! key) as [p|]; [|done].
  repeat (case_match; simpl; try done); by rewrite ?lookup_insert_ne, ?lookup_delete_ne.
Qed.

Lemma decideRoute_entry s now key key' allow claiming evidence :
  entry_steps (reuseWindow s) now claiming evidence (hints s !! key') (hints (decideRoute s now key allow).2 !! key').
Proof.
  etransitivity; [apply expire_entry|]. destruct (base.decide (key' = key)) as [->|Hne]; [apply decide_entry|].
  by rewrite decide_other.
Qed.

(** The operation completes a tunnel exchange on the entry's own evidence. *)
Definition claims (s : Hints) (key : list Z) (o : op) : bool :=
  match o with
  | OpComplete _ key' gen =>
      bool_decide (key' = key) &&
      match hints s !! key with Some p => finalizes p gen && bool_decide (decision p = Tunnel) | None => false end
  | _ => false
  end.

(** The operation is an event of an identified, unselected process. *)
Definition directs (s : Hints) (key : list Z) (o : op) : bool :=
  match o with
  | OpEvent _ name type path =>
      bool_decide (makeKey name type = key) && negb (bool_decide (path = [])) && negb (isIncluded s (lower path))
  | _ => false
  end.

(** Every operation moves every entry by entry steps. *)
Lemma apply_op_entry s o key :
  entry_steps (reuseWindow s) (op_time o) (claims s key o) (directs s key o) (hints s !! key) (hints (apply_op s o) !! key).
Proof.
  destruct o as [now name type path|now|now n|now n|t1 now key'|passed t1 now key'|now key' gen|now apps]; simpl; try reflexivity.
  - unfold addResolved. set (s1 := expire s now). destruct (_ || _); simpl; [apply expire_entry|].
    etransitivity; [apply expire_entry|]. fold s1.
    destruct (base.decide (key = makeKey name type)) as [->|Hne]; [|by rewrite lookup_insert_ne].
    rewrite lookup_insert_eq. apply rtc_once. unfold s1 at 2. rewrite expire_window. apply es_event.
    intros H. rewrite bool_decide_true by done. simpl. destruct (bool_decide (path = [])); [done|exact H].
  - destruct (hints s !! key) as [p|] eqn:E.
    + destruct (base.decide (tunnel p = true \/ now < unknownUntil p)) as [Hk|Hk].
      * rewrite (map_lookup_filter_Some_2 _ (hints s) key p); [reflexivity|done..].
      * rewrite (map_lookup_filter_None_2 _ (hints s) key); [|right; intros; by simplify_eq].
        apply rtc_once, es_dropped; [destruct (tunnel p); tauto|lia].
    + rewrite (map_lookup_filter_None_2 _ (hints s) key); [reflexivity|by left].
  - unfold take_begin. destruct (_ <? _); [reflexivity|].
    pose proof (decideRoute_entry s now key' key false false false) as H.
    destruct (decideRoute s now key' false) as [[route r] s1]. by destruct (bool_decide _).
  - unfold take_end. destruct (_ || _); [reflexivity|].
    pose proof (decideRoute_entry s now key' key true false false) as H. by destruct (decideRoute s now key' true) as [[route r] s1].
  - unfold complete. destruct (hints s !! key') as [p|] eqn:E; [|reflexivity]. simpl.
    destruct (base.decide (key = key')) as [->|Hne]; [|by rewrite lookup_insert_ne].
    rewrite lookup_insert_eq, E. apply rtc_once, es_completed. intros Hf Hd.
    by rewrite Hf, !bool_decide_true.
Qed.

Lemma apply_op_window s o : reuseWindow (apply_op s o) = reuseWindow s.
Proof.
  destruct o; simpl; try done.
  - unfold addResolved. destruct (_ || _); simpl; apply expire_window.
  - unfold take_begin. destruct (_ <? _); [done|]. unfold decideRoute.
    repeat (case_match; simplify_eq/=; try done); apply expire_window.
  - unfold take_end. destruct (_ || _); [done|]. unfold decideRoute.
    repeat (case_match; simplify_eq/=; try done); apply expire_window.
  - unfold complete. by destruct (hints s !! key).
Qed.
End Steps.

(** ** Evidence that outlives other operations *)

(** Tunnel evidence no answered tunnel exchange has used up, valid until [T]. *)
Definition owes (T : Z) (o : option Pending) : Prop :=
  exists p, o = Some p /\ tunnel p = true /\ T <= expires p /\ (answered p = true -> decision p <> Tunnel).

(** An event of unknown origin bars direct routes until [T]. *)
Definition quarantined (T : Z) (o : option Pending) : Prop :=
  exists p, o = Some p /\ T <= unknownUntil p /\ T <= expires p.

Lemma owes_step window now evidence T o o' :
  entry_step window now false evidence o o' -> now < T -> owes T o -> owes T o'.
Proof.
  intros Hs Ht (p & -> & Htun & Hexp & Hans). unfold owes. inversion Hs; subst; try lia; try congruence.
  - eexists. split; [done|]. unfold note_event. simpl. rewrite (proj2 (Z.leb_gt (expires p) now)) by lia.
    destruct (answered p) eqn:Ea; simpl.
    + rewrite Htun, bool_decide_false by auto. simpl. split; [done|]. split; [lia|done].
    + rewrite Htun, Ea. simpl. split; [done|]. split; [lia|done].
  - eexists. by repeat (split; [done|]).
  - match goal with H : tunnel p && _ = false |- _ => rewrite Htun in H; simpl in H end.
    bool_to_prop. exfalso. by apply Hans.
  - eexists. split; [done|]. simpl. split; [done|]. split; [destruct (_ && _); lia|].
    destruct (finalizes p gen) eqn:E; [|done]. intros _ Hd. by specialize (H0 eq_refl Hd).
Qed.

Lemma quarantined_step window now claiming evidence T o o' :
  entry_step window now claiming evidence o o' -> now < T -> T <= now + seconds 10 -> quarantined T o -> quarantined T o'.
Proof.
  intros Hs Ht Hlo (p & -> & Hu & Hexp). unfold quarantined. inversion Hs; subst; try lia.
  - eexists. split; [done|]. unfold note_event. simpl. rewrite (proj2 (Z.leb_gt (expires p) now)) by lia.
    destruct (answered p); simpl; destruct known; simpl; lia.
  - by eexists.
  - by eexists.
  - eexists. split; [done|]. simpl. destruct (_ && _); lia.
Qed.

Lemma owes_steps window now evidence T o o' :
  entry_steps window now false evidence o o' -> now < T -> owes T o -> owes T o'.
Proof. intros Hs Ht. induction Hs as [|o1 o2 o3 H Hs IH]; [done|]. intros Ho. apply IH. by eapply owes_step. Qed.

Lemma quarantined_steps window now claiming evidence T o o' :
  entry_steps window now claiming evidence o o' -> now < T -> T <= now + seconds 10 -> quarantined T o -> quarantined T o'.
Proof.
  intros Hs Ht Hlo. induction Hs as [|o1 o2 o3 H Hs IH]; [done|]. intros Ho. apply IH. by eapply quarantined_step.
Qed.

Section Decisions.
Context {W : WideChars}.

Definition run (s : Hints) (ops : list op) : Hints := foldl apply_op s ops.

(** Every operation happens at or after [lo] and before [hi]. *)
Definition during (lo hi : Z) (ops : list op) : Prop := Forall (fun o => lo <= op_time o < hi) ops.

(** No operation completes a tunnel exchange on the key's own evidence. *)
Fixpoint unclaimed (s : Hints) (key : list Z) (ops : list op) : Prop :=
  match ops with
  | [] => True
  | o :: rest => claims s key o = false /\ unclaimed (apply_op s o) key rest
  end.

Lemma run_owes s key T lo ops :
  during lo T ops -> unclaimed s key ops -> owes T (hints s !! key) -> owes T (hints (run s ops) !! key).
Proof.
  unfold run. revert s. induction ops as [|o ops IH]; intros s Hd Hu Ho; simpl; [done|].
  inversion_clear Hd as [|? ? Ht Hd']. destruct Hu as [Hc Hu].
  apply IH; [done|done|]. eapply owes_steps; [|by apply Ht|done].
  rewrite <- Hc. apply apply_op_entry.
Qed.

Lemma run_quarantined s key T ops :
  during (T - seconds 10) T ops -> quarantined T (hints s !! key) -> quarantined T (hints (run s ops) !! key).
Proof.
  unfold run. revert s. induction ops as [|o ops IH]; intros s Hd Ho; simpl; [done|].
  inversion_clear Hd as [|? ? Ht Hd']. apply IH; [done|].
  eapply quarantined_steps; [apply apply_op_entry|lia|lia|done].
Qed.

(** What the two kinds of evidence make [decide] answer. *)
Lemma owes_decides s key T now allow :
  owes T (hints s !! key) -> now < T -> (decideRoute s now key allow).1.1 = Some true.
Proof.
  intros Ho Ht. pose proof (expire_entry s now key false false) as He.
  apply owes_steps with (T := T) in He as (p & Hp & Htun & Hexp & Hans); [|done..].
  unfold decideRoute. rewrite Hp, (proj2 (Z.leb_gt (expires p) now)) by lia.
  rewrite Htun. destruct (answered p) eqn:Ea; [|done].
  by rewrite (bool_decide_false (decision p = Tunnel)) by auto.
Qed.

Lemma quarantined_decides s key T now allow :
  quarantined T (hints s !! key) -> now < T -> T <= now + seconds 10 -> (decideRoute s now key allow).1.1 <> Some false.
Proof.
  intros Ho Ht Hlo. pose proof (expire_entry s now key false false) as He.
  apply quarantined_steps with (T := T) in He as (p & Hp & Hu & Hexp); [|done..].
  unfold decideRoute. rewrite Hp, (proj2 (Z.leb_gt (expires p) now)) by lia.
  rewrite (proj2 (Z.leb_gt (unknownUntil p) now)) by lia. rewrite !andb_false_r.
  repeat (case_match; simpl; try done); rewrite ?orb_false_r in *; bool_to_prop; try congruence.
  by rewrite bool_decide_true.
Qed.

(** A selected application's event, accepted. *)
Lemma event_owes s now name type path s' :
  addResolved s now name type path = (true, s') -> path <> [] -> lower path ∈ included s ->
  owes (now + seconds 10) (hints s' !! makeKey name type).
Proof.
  unfold addResolved, isIncluded. intros H Hp Hi. rewrite (bool_decide_false (path = [])), (bool_decide_true (lower path ∈ _)) in H by done.
  destruct (_ || _); [done|]. injection H as <-. simpl. rewrite lookup_insert_eq.
  eexists. split; [done|]. unfold note_event. set (old := default fresh _). simpl. rewrite orb_true_r.
  split; [done|]. split; [lia|].
  destruct (expires old <=? now); [done|]. destruct (answered old) eqn:E; [done|]. by rewrite E.
Qed.

(** Once a selected application's query event has been accepted, every
    decision on that name and type within the attribution lifetime of ten
    seconds routes to the tunnel, whatever other events (direct ones of the
    same name included), losses, reloads, decisions and answers happen in
    between, as long as no tunnel exchange decided on that evidence has
    completed. *)
Theorem selected_event_routes_tunnel s now name type path s' ops t allow :
  addResolved s now name type path = (true, s') -> path <> [] -> lower path ∈ included s ->
  during now (now + seconds 10) ops -> unclaimed s' (makeKey name type) ops ->
  now <= t < now + seconds 10 ->
  (decideRoute (run s' ops) t (makeKey name type) allow).1.1 = Some true.
Proof.
  intros Ha Hp Hi Hd Hu Ht. eapply owes_decides; [|apply Ht].
  eapply run_owes; [done..|]. by eapply event_owes.
Qed.

(** An event whose process could not be identified bars direct routes and
    direct answers for that name and type for ten seconds, unconditionally. *)
Theorem unknown_event_never_direct s now name type s' ops t allow :
  addResolved s now name type [] = (true, s') ->
  during now (now + seconds 10) ops -> now <= t < now + seconds 10 ->
  (decideRoute (run s' ops) t (makeKey name type) allow).1.1 <> Some false /\
  direct_unsafe (run s' ops) true t (makeKey name type) = true.
Proof.
  intros Ha Hd Ht.
  assert (quarantined (now + seconds 10) (hints s' !! makeKey name type)) as Hq.
  { unfold addResolved in Ha. destruct (_ || _); [done|]. injection Ha as <-. simpl. rewrite lookup_insert_eq.
    eexists. split; [done|]. unfold note_event. simpl. lia. }
  apply (run_quarantined s' _ _ ops) in Hq; [|by replace (now + seconds 10 - seconds 10) with now by lia].
  split; [by eapply quarantined_decides; [exact Hq|lia..]|].
  destruct Hq as (p & Hp & Hu & _). unfold direct_unsafe. rewrite Hp.
  rewrite (proj2 (Z.ltb_lt t (unknownUntil p))) by lia. rewrite orb_true_r. by destruct (_ || _).
Qed.
End Decisions.

(** ** The reuse window *)

(** Tunnel evidence until [T]: a selected event not yet answered, or one whose
    tunnel answer is recent. *)
Definition covered (window T : Z) (o : option Pending) : Prop :=
  exists p, o = Some p /\ tunnel p = true /\ T <= expires p /\
    ((selected p = true /\ (answered p = true -> decision p <> Tunnel)) \/
     (selectedAnswered p = true /\ T <= selectedAnsweredAt p + window)).

Lemma retire_covered window now T p :
  now < T -> T <= expires p -> tunnel p = true ->
  (selected p = true /\ decision p <> Tunnel) \/ (selectedAnswered p = true /\ T <= selectedAnsweredAt p + window) ->
  covered window T (Some (retire window p now)).
Proof.
  intros Ht He Htun Hp. eexists. split; [done|]. unfold retire. simpl. rewrite Htun. simpl.
  destruct Hp as [[Hsel Hd]|[Hsa Hat]].
  - rewrite bool_decide_false by done. simpl. rewrite Hsel. split; [done|]. split; [done|]. by left.
  - rewrite Hsa, (proj2 (Z.ltb_lt _ _)) by lia. rewrite orb_true_r. split; [done|]. split; [done|]. by right.
Qed.

Lemma covered_note window now T o gen sel known :
  now < T -> covered window T o -> covered window T (Some (note_event window o now gen sel known)).
Proof.
  intros Ht (p & -> & Htun & Hexp & Hp).
  assert (covered window T (Some (if answered p then retire window p now else p))) as (q & [= <-] & Q1 & Q2 & Q3).
  { destruct (answered p) eqn:Ea; [|eexists; repeat (split; [done|]); by rewrite Ea].
    apply retire_covered; [done..|]. destruct Hp as [[??]|?]; [left; auto|by right]. }
  unfold covered, note_event. simpl. rewrite (proj2 (Z.leb_gt (expires p) now)) by lia.
  set (q := if answered p then _ else p) in *. eexists. split; [done|]. simpl. rewrite Q1.
  split; [done|]. split; [lia|]. destruct Q3 as [[-> ?]|?]; [by left|by right].
Qed.

Lemma covered_step window now claiming evidence T o o' :
  entry_step window now claiming evidence o o' -> now < T -> T <= now + window ->
  covered window T o -> covered window T o'.
Proof.
  intros Hs Ht Hlo Hc. destruct Hs as [p Hx|p Hx|o gen sel known Hx|p Hx|p Hx|p Ha Hx|p gen Hx];
    [..|]; try (by apply covered_note); destruct Hc as (q & [= <-] & Htun & Hexp & Hp); try lia; try congruence.
  - eexists. split; [done|]. simpl. split; [done|]. split; [done|]. destruct Hp as [[??]|?]; [by left|by right].
  - apply retire_covered; [done..|]. destruct Hp as [[??]|?]; [left; auto|by right].
  - eexists. split; [done|]. simpl. split; [done|]. split; [destruct (_ && _); lia|].
    destruct Hp as [[Hsel Hd]|[Hsa Hat]].
    + rewrite Hsel. destruct (decide_rel (=) (decision p) Tunnel) as [E|E].
      * right. rewrite bool_decide_true by done. simpl. rewrite orb_true_r. split; [done|lia].
      * left. split; [done|]. by destruct (finalizes p gen).
    + right. rewrite Hsa. split; [done|]. destruct (_ && _); lia.
Qed.

Section Window.
Context {W : WideChars}.

Lemma covered_steps window now claiming evidence T o o' :
  entry_steps window now claiming evidence o o' -> now < T -> T <= now + window ->
  covered window T o -> covered window T o'.
Proof.
  intros Hs Ht Hlo. induction Hs as [|o1 o2 o3 H Hs IH]; [done|]. intros Ho. apply IH. by eapply covered_step.
Qed.

Lemma apply_op_covered s o key T :
  op_time o < T -> T <= op_time o + reuseWindow s ->
  covered (reuseWindow s) T (hints s !! key) -> covered (reuseWindow s) T (hints (apply_op s o) !! key).
Proof. intros Ht Hlo. eapply covered_steps; [apply apply_op_entry|done|done]. Qed.

Lemma run_covered s key T ops :
  during (T - reuseWindow s) T ops -> covered (reuseWindow s) T (hints s !! key) ->
  covered (reuseWindow s) T (hints (run s ops) !! key).
Proof.
  unfold run. revert s. induction ops as [|o ops IH]; intros s Hd Ho; simpl; [done|].
  inversion_clear Hd as [|? ? Ht Hd']. rewrite <- (apply_op_window s o). apply IH.
  - by rewrite apply_op_window.
  - rewrite apply_op_window. apply apply_op_covered; [lia|lia|done].
Qed.

Lemma covered_decides s key T now allow :
  covered (reuseWindow s) T (hints s !! key) -> now < T -> T <= now + reuseWindow s ->
  (decideRoute s now key allow).1.1 = Some true.
Proof.
  intros Ho Ht Hlo. pose proof (expire_entry s now key false false) as He.
  apply covered_steps with (T := T) in He as (p & Hp & Htun & Hexp & Hc); [|done..].
  unfold decideRoute. rewrite Hp, (proj2 (Z.leb_gt (expires p) now)) by lia. rewrite Htun, expire_window.
  destruct (answered p) eqn:Ea; [|done].
  destruct (bool_decide (decision p = Tunnel)) eqn:Ed; [|done]. cbn [negb andb].
  bool_to_prop. destruct Hc as [[_ Hn]|[Hsa Hat]]; [by destruct (Hn eq_refl)|].
  assert (tunnel (retire (reuseWindow s) p now) = true) as Hr.
  { unfold retire. simpl. rewrite Hsa, (proj2 (Z.ltb_lt _ _)) by lia. apply orb_true_r. }
  destruct (_ || (_ <=? _)); [rewrite Hr; done|done].
Qed.

Lemma event_covered s now name type path s' T :
  addResolved s now name type path = (true, s') -> path <> [] -> lower path ∈ included s ->
  T <= now + seconds 10 -> covered (reuseWindow s') T (hints s' !! makeKey name type).
Proof.
  unfold addResolved, isIncluded. intros H Hp Hi HT.
  rewrite (bool_decide_false (path = [])), (bool_decide_true (lower path ∈ _)) in H by done.
  destruct (_ || _); [done|]. injection H as <-. simpl. rewrite lookup_insert_eq.
  eexists. split; [done|]. unfold note_event. set (old := default fresh _). simpl. rewrite !orb_true_r.
  split; [done|]. split; [lia|]. left. split; [done|].
  destruct (expires old <=? now); [done|]. destruct (answered old) eqn:E; [done|]. by rewrite E.
Qed.

(** Within the reuse window after a selected application's event, every
    decision on that name and type goes to the tunnel unconditionally: also
    when tunnel exchanges on that evidence complete and new direct events
    arrive in between. *)
Theorem selected_event_reuse_window s now name type path s' ops t allow :
  addResolved s now name type path = (true, s') -> path <> [] -> lower path ∈ included s ->
  reuseWindow s <= seconds 10 ->
  during now (now + reuseWindow s) ops -> now <= t < now + reuseWindow s ->
  (decideRoute (run s' ops) t (makeKey name type) allow).1.1 = Some true.
Proof.
  intros Ha Hp Hi Hw Hd Ht.
  assert (reuseWindow s' = reuseWindow s) as Ew.
  { pose proof (apply_op_window s (OpEvent now name type path)) as H. simpl in H. by rewrite Ha in H. }
  assert (forall ops s0, reuseWindow (run s0 ops) = reuseWindow s0) as Hrun.
  { unfold run. clear. induction ops as [|o ops IH]; intros s0; simpl; [done|]. by rewrite IH, apply_op_window. }
  apply (covered_decides _ _ (now + reuseWindow s)); rewrite ?Hrun, ?Ew; [|lia|lia].
  rewrite <- Ew. apply run_covered.
  - rewrite Ew. by replace (now + reuseWindow s - reuseWindow s) with now by lia.
  - eapply event_covered; [done..|]. lia.
Qed.
End Window.

(** ** Blocking, evidence and capacity *)

Section Blocking.
Context {W : WideChars}.

Lemma expire_fields s now :
  directBlockedUntil (expire s now) = directBlockedUntil s /\ overloadedUntil (expire s now) = overloadedUntil s /\
  included (expire s now) = included s /\ sequence (expire s now) = sequence s /\
  processed (expire s now) = processed s /\ checked (expire s now) = checked s.
Proof. unfold expire. by destruct (_ <? _). Qed.

(** A decision changes only the table. *)
Lemma decideRoute_fields s now key allow :
  let s' := (decideRoute s now key allow).2 in
  directBlockedUntil s' = directBlockedUntil s /\ overloadedUntil s' = overloadedUntil s /\
  included s' = included s /\ sequence s' = sequence s /\ processed s' = processed s /\ checked s' = checked s.
Proof.
  unfold decideRoute. pose proof (expire_fields s now) as H. set (s1 := expire s now) in *.
  destruct (hints s1 !! key) as [p|]; [|done]. repeat (case_match; simpl; try done).
Qed.

(** The two blocking deadlines never move back while an operation's time is
    at most ten seconds before them. *)
Lemma apply_op_blocked s o T :
  T <= op_time o + seconds 10 ->
  (T <= directBlockedUntil s -> T <= directBlockedUntil (apply_op s o)) /\
  (T <= overloadedUntil s -> T <= overloadedUntil (apply_op s o)).
Proof.
  intros Ht. destruct o as [now name type path|now|now n|now n|t1 now key|passed t1 now key|now key gen|now apps]; simpl in *; try (split; lia).
  - unfold addResolved. destruct (expire_fields s now) as (H1 & H2 & _).
    destruct (_ || _); simpl; lia.
  - unfold take_begin. destruct (_ <? _); [done|]. destruct (decideRoute_fields s now key false) as (H1 & H2 & _).
    destruct (decideRoute s now key false) as [[route r] s1]. simpl in *. destruct (bool_decide _); simpl; lia.
  - unfold take_end. destruct (_ || _); [done|]. destruct (decideRoute_fields s now key true) as (H1 & H2 & _).
    destruct (decideRoute s now key true) as [[route r] s1]. simpl in *. lia.
  - unfold complete. by destruct (hints s !! key).
Qed.

Lemma run_blocked s T ops :
  during (T - seconds 10) T ops ->
  (T <= directBlockedUntil s -> T <= directBlockedUntil (run s ops)) /\
  (T <= overloadedUntil s -> T <= overloadedUntil (run s ops)).
Proof.
  unfold run. revert s. induction ops as [|o ops IH]; intros s Hd; simpl; [done|].
  inversion_clear Hd as [|? ? Ht Hd']. destruct (apply_op_blocked s o T) as [H1 H2]; [lia|].
  destruct (IH (apply_op s o) Hd') as [H3 H4]. auto.
Qed.

(** Without permission, no decision is direct. *)
Lemma blocked_decides s now key allow :
  now < directBlockedUntil s -> (decideRoute s now key allow).1.1 <> Some false.
Proof.
  intros Hb. unfold decideRoute. destruct (expire_fields s now) as (Hf & _). set (s1 := expire s now) in *.
  destruct (hints s1 !! key) as [p|]; [|done]. destruct (expires p <=? now); [done|].
  rewrite Hf, (proj2 (Z.leb_gt (directBlockedUntil s) now)), andb_false_r by lia.
  destruct (answered p).
  - repeat (case_match; simpl; try done). rewrite orb_false_r in *. bool_to_prop. by rewrite bool_decide_true.
  - repeat (case_match; simpl; try done).
Qed.

(** After lost events no name at all is routed or answered direct for ten
    seconds, whatever else happens. *)
Theorem lost_events_block_direct s now ops t key allow :
  during now (now + seconds 10) ops -> now <= t < now + seconds 10 ->
  (decideRoute (run (lostEvents s now) ops) t key allow).1.1 <> Some false /\
  direct_unsafe (run (lostEvents s now) ops) true t key = true.
Proof.
  intros Hd Ht. destruct (run_blocked (lostEvents s now) (now + seconds 10) ops) as [Hb _].
  { by replace (now + seconds 10 - seconds 10) with now by lia. }
  specialize (Hb (Z.le_refl _)). split; [apply blocked_decides; lia|].
  unfold direct_unsafe. by rewrite (proj2 (Z.ltb_lt _ _)) by lia.
Qed.

(** After an event that could not be recorded (table full, name too long)
    every query is refused and every direct answer withheld for ten seconds. *)
Theorem dropped_event_refuses s now name type path s' ops t t' passed key :
  addResolved s now name type path = (false, s') ->
  during now (now + seconds 10) ops -> now <= t < now + seconds 10 ->
  (take_begin (run s' ops) t t' key).1 = Refused /\ (take_end (run s' ops) passed t t' key).1 = None /\
  direct_unsafe (run s' ops) passed t key = true.
Proof.
  intros Ha Hd Ht. destruct (run_blocked s' (now + seconds 10) ops) as [_ Ho].
  { by replace (now + seconds 10 - seconds 10) with now by lia. }
  assert (now + seconds 10 <= overloadedUntil (run s' ops)) as Hover.
  { apply Ho. unfold addResolved in Ha. destruct (_ || _); [|done]. injection Ha as <-. simpl. lia. }
  assert ((t <? overloadedUntil (run s' ops)) = true) as Hlt by (apply Z.ltb_lt; lia).
  unfold take_begin, take_end, direct_unsafe. rewrite Hlt, !orb_true_r. simpl.
  split; [done|]. split; [done|]. by destruct passed.
Qed.

(** ** A direct route needs a direct event *)

Definition direct_justified (G : Prop) (o : option Pending) : Prop :=
  forall p, o = Some p -> direct p = true \/ decision p = Direct -> G.

Lemma direct_justified_step window now claiming evidence (G : Prop) o o' :
  entry_step window now claiming evidence o o' -> (evidence = true -> G) ->
  direct_justified G o -> direct_justified G o'.
Proof.
  intros Hs He Hj q Hq Hd. destruct Hs; simplify_eq; simpl in *.
  - assert (direct_justified G (Some (if expires (default fresh o) <=? now then fresh
        else if answered (default fresh o) then retire window (default fresh o) now else default fresh o))) as Hb.
    { intros p [= <-]. destruct (expires _ <=? now); [simpl; intuition congruence|].
      destruct (answered (default fresh o)); [simpl; intuition congruence|].
      destruct o as [p|]; [by apply Hj|simpl; intuition congruence]. }
    destruct (known && negb sel) eqn:E; [by apply He, H|]. apply (Hb _ eq_refl).
    rewrite orb_false_r in Hd. exact Hd.
  - destruct Hd as [Hd|?]; [|done]. apply (Hj p eq_refl). by left.
  - by apply (Hj p eq_refl).
  - destruct Hd; done.
  - by apply (Hj p eq_refl).
Qed.

(** The keys for which some operation of the run was a direct event. *)
Fixpoint direct_event (s : Hints) (key : list Z) (ops : list op) : Prop :=
  match ops with
  | [] => False
  | o :: rest => directs s key o = true \/ direct_event (apply_op s o) key rest
  end.

Lemma run_justified s ops key (G : Prop) :
  (direct_event s key ops -> G) -> direct_justified G (hints s !! key) ->
  direct_justified G (hints (run s ops) !! key).
Proof.
  unfold run. revert s. induction ops as [|o ops IH]; intros s Hg Hj; simpl; [done|].
  apply IH; [intros H; apply Hg; by right|].
  pose proof (apply_op_entry s o key) as Hs. induction Hs as [|o1 o2 o3 H Hs IHs]; [done|].
  apply IHs. eapply direct_justified_step; [exact H| |done]. intros He. apply Hg. by left.
Qed.

(** A query is routed direct only if some event of an identified process
    that is not selected was recorded for exactly that name and type. *)
Theorem direct_route_needs_event apps window ops now key allow :
  (decideRoute (run (newHints apps window) ops) now key allow).1.1 = Some false ->
  direct_event (newHints apps window) key ops.
Proof.
  set (s := run _ ops). intros H.
  assert (direct_justified (direct_event (newHints apps window) key ops) (hints (expire s now) !! key)) as Hj.
  { pose proof (run_justified (newHints apps window) ops key (direct_event (newHints apps window) key ops)) as Hr.
    specialize (Hr (fun h => h)). assert (direct_justified (direct_event (newHints apps window) key ops) (hints s !! key)) as Hs.
    { apply Hr. intros p. simpl. by rewrite lookup_empty. }
    pose proof (expire_entry s now key false false) as He. induction He as [|o1 o2 o3 Ho Hs' IHs]; [done|].
    apply IHs. eapply direct_justified_step; [exact Ho|done|done]. }
  unfold decideRoute in H. set (s1 := expire s now) in *. destruct (hints s1 !! key) as [p|] eqn:E; [|done].
  apply (Hj p eq_refl). revert H. destruct (expires p <=? now); [done|].
  destruct (answered p); [destruct (tunnel p && _); [done|]|].
  - destruct (bool_decide (decision p = Undecided)) eqn:Eu; simpl; [by repeat (case_match; simpl; try done)|].
    destruct (_ <=? now - answeredAt p); [by repeat (case_match; simpl; try done)|].
    destruct (_ || _); [|done]. simpl. intros [= Hd]. bool_to_prop. right. by destruct (decision p).
  - destruct (tunnel p || _); [done|]. destruct (_ && (direct p || _)) eqn:Ed; [|done]. intros _. bool_to_prop.
    match goal with H : direct p || _ = true |- _ => apply orb_true_iff in H as [?|?] end; [by left|right; by bool_to_prop].
Qed.

(** ** The table never exceeds its capacity *)

Definition bounded (s : Hints) : Prop := (size (hints s) <= kMaxHints)%nat.

Lemma bounded_expire s now : bounded s -> bounded (expire s now).
Proof.
  unfold bounded, expire. destruct (_ <? _); [done|]. simpl. intros H. etransitivity; [apply map_size_filter|done].
Qed.

Lemma bounded_put s key p q : hints s !! key = Some p -> bounded s -> bounded (set_hints s (<[key := q]> (hints s))).
Proof. unfold bounded. simpl. intros E H. by rewrite map_size_insert_Some by (by eexists). Qed.

Lemma bounded_decide s now key allow : bounded s -> bounded (decideRoute s now key allow).2.
Proof.
  intros H. apply (bounded_expire s now) in H. unfold decideRoute. set (s1 := expire s now) in *.
  destruct (hints s1 !! key) as [p|] eqn:E; [|done].
  assert (bounded (set_hints s1 (delete key (hints s1)))) as Hdel.
  { unfold bounded in *. simpl. rewrite map_size_delete_Some by (by eexists). lia. }
  repeat (case_match; simpl; try done); by eapply bounded_put.
Qed.

(** Whatever events, losses, queries and answers occur, the attribution
    table never holds more than its 4096 entries. *)
Theorem hints_bounded apps window ops : bounded (run (newHints apps window) ops).
Proof.
  assert (forall s, bounded s -> bounded (run s ops)) as H; [|apply H; unfold bounded; simpl; rewrite map_size_empty; lia].
  unfold run. induction ops as [|o ops IH]; intros s Hs; simpl; [done|]. apply IH.
  destruct o as [now name type path|now|now n|now n|t1 now key|passed t1 now key|now key gen|now apps']; simpl; try exact Hs.
  - apply (bounded_expire s now) in Hs. unfold addResolved. set (s1 := expire s now) in *.
    destruct (_ || _) eqn:E; [exact Hs|]. unfold bounded in *. simpl. bool_to_prop.
    destruct (hints s1 !! makeKey name type) as [p|] eqn:Ek; [by rewrite map_size_insert_Some by (by eexists)|].
    rewrite map_size_insert_None by done. rewrite bool_decide_false in H0 by (intros [? ?]; done).
    rewrite andb_true_r in H0. bool_to_prop. lia.
  - unfold bounded in *. simpl. etransitivity; [apply map_size_filter|done].
  - unfold take_begin. destruct (_ <? _); [done|]. pose proof (bounded_decide s now key false Hs) as Hb.
    destruct (decideRoute s now key false) as [[route r] s1]. by destruct (bool_decide _).
  - unfold take_end. destruct (_ || _); [done|]. pose proof (bounded_decide s now key true Hs) as Hb.
    by destruct (decideRoute s now key true) as [[route r] s1].
  - unfold complete. destruct (hints s !! key) as [p|] eqn:E; [|done]. by eapply bounded_put.
Qed.
End Blocking.

(** ** A worked example *)

Module Example.
#[export] Existing Instance c_locale.
Definition app : list Z := str "C:\App\browser.exe".
Definition other : list Z := str "C:\Windows\curl.exe".
Definition name : list Z := str "Example.com".
Definition start : Hints := newHints {[ lower app ]} (milliseconds 3000).
Definition t0 : Z := seconds 100.
Definition key : list Z := makeKey name 1.

(** The unselected program asks first and its direct answer completes late;
    the selected program's event arrives in between. *)
Definition first : Hints := (addResolved start t0 name 1 other).2.
Definition routed : Hints := (take_end first true t0 t0 key).2.
Definition asked : Hints := (addResolved routed (t0 + milliseconds 5) name 1 app).2.
Definition late : list op := [OpComplete (t0 + milliseconds 20) key 1; OpLost (t0 + milliseconds 30)].

Example first_direct : (take_end first true t0 t0 key).1 = Some (false, 1).
Proof. by vm_compute. Qed.
End Example.

Lemma selected_event_routes_tunnel_witness :
  (decideRoute (run (W:=c_locale) Example.asked Example.late) (Example.t0 + seconds 9) Example.key true).1.1 = Some true.
Proof.
  eapply (selected_event_routes_tunnel (W:=c_locale) Example.routed (Example.t0 + milliseconds 5) Example.name 1 Example.app Example.asked).
  - by vm_compute.
  - done.
  - apply (bool_decide_unpack _). by vm_compute.
  - repeat constructor; by vm_compute.
  - by vm_compute.
  - by vm_compute.
Defined.

Lemma unknown_event_never_direct_witness :
  (decideRoute (run (W:=c_locale) (addResolved (W:=c_locale) Example.first Example.t0 Example.name 1 []).2 Example.late)
     (Example.t0 + seconds 9) Example.key true).1.1 <> Some false /\
  direct_unsafe (run (W:=c_locale) (addResolved (W:=c_locale) Example.first Example.t0 Example.name 1 []).2 Example.late)
     true (Example.t0 + seconds 9) Example.key = true.
Proof.
  apply (unknown_event_never_direct (W:=c_locale) Example.first Example.t0 Example.name 1).
  - by vm_compute.
  - repeat constructor; by vm_compute.
  - by vm_compute.
Defined.

Lemma lost_events_block_direct_witness :
  (decideRoute (run (W:=c_locale) (lostEvents Example.first Example.t0) Example.late) (Example.t0 + seconds 9) Example.key true).1.1 <> Some false /\
  direct_unsafe (run (W:=c_locale) (lostEvents Example.first Example.t0) Example.late) true (Example.t0 + seconds 9) Example.key = true.
Proof.
  apply (lost_events_block_direct (W:=c_locale)).
  - repeat constructor; by vm_compute.
  - by vm_compute.
Defined.

Lemma dropped_event_refuses_witness :
  let s' := (addResolved (W:=c_locale) Example.first Example.t0 (replicate 254 97) 1 Example.app).2 in
  (take_begin (run (W:=c_locale) s' []) Example.t0 Example.t0 Example.key).1 = Refused /\
  (take_end (run (W:=c_locale) s' []) true Example.t0 Example.t0 Example.key).1 = None /\
  direct_unsafe (run (W:=c_locale) s' []) true Example.t0 Example.key = true.
Proof.
  apply (dropped_event_refuses (W:=c_locale) Example.first Example.t0 (replicate 254 97) 1 Example.app).
  - by vm_compute.
  - constructor.
  - by vm_compute.
Defined.

Lemma direct_route_needs_event_witness :
  direct_event (W:=c_locale) (newHints {[ lower (W:=c_locale) Example.app ]} (milliseconds 3000)) Example.key
    [OpEvent Example.t0 Example.name 1 Example.other].
Proof. apply (direct_route_needs_event (W:=c_locale) _ _ _ Example.t0 _ true). by vm_compute. Defined.

(** The selected answer completes, an unselected program asks again. *)
Lemma selected_event_reuse_window_witness :
  (decideRoute (run (W:=c_locale) Example.asked
     [OpBegin (Example.t0 + milliseconds 6) (Example.t0 + milliseconds 6) Example.key;
      OpComplete (Example.t0 + milliseconds 20) Example.key 2;
      OpEvent (Example.t0 + milliseconds 30) Example.name 1 Example.other])
     (Example.t0 + seconds 2) Example.key true).1.1 = Some true.
Proof.
  eapply (selected_event_reuse_window (W:=c_locale) Example.routed (Example.t0 + milliseconds 5) Example.name 1 Example.app Example.asked).
  - by vm_compute.
  - done.
  - apply (bool_decide_unpack _). by vm_compute.
  - by vm_compute.
  - repeat constructor; by vm_compute.
  - by vm_compute.
Defined.
