(* ===== verification/Taking.v ===== *)
(** * Taking: a decision with its wait

    Models [Hints::take], [Hints::directAnswerUnsafe] and [Hints::barrier] of
    [src/src/native/dns-attribution.h] as whole calls: the sentinel is written,
    the lock is released, and what other threads do to the table meanwhile
    happens during the wait, until the barrier's predicate holds or its time is
    over.  [Attribution] has the halves before and after the wait; here they are
    joined, and every call is shown to be a sequence of its steps. *)
From Stdlib Require Import ZifyBool.
From S2P Require Import Prelude Numbers DnsWire Attribution.

(** What the sentinel writer gives: whether it wrote, and what the other threads
    do to the table afterwards, in time order. *)
Definition sentinel_writer : Type := Z -> Z -> bool * list op.

Section Taking.
Context {W : WideChars}.

(** [changed_.wait_until(lock, deadline, ...)]. *)
Fixpoint wait_until (later : list op) (n deadline now : Z) (h : Hints) : bool * Z * Hints :=
  if barrier_done h n then (true, now, h)
  else match later with
       | o :: rest =>
           if op_time o <? deadline then wait_until rest n deadline (Z.max now (op_time o)) (apply_op h o)
           else (false, deadline, h)
       | [] => (false, deadline, h)
       end.

(** After the sequence [n] was assigned at time [now]. *)
Definition await_barrier (w : sentinel_writer) (timeout n now : Z) (h : Hints) : bool * Z * Hints :=
  let '(written, later) := w n now in
  if written then wait_until later n (now + timeout) now h else (false, now, h).

Definition barrier (w : sentinel_writer) (timeout now : Z) (h : Hints) : bool * Z * Hints :=
  let n := u64 (sequence h + 1) in
  await_barrier w timeout n now (set_barrier h n (processed h) (checked h)).

(** A call's route, [*reused], the generation when a route was given, the time
    it returns at and the table. *)
Record taken := { t_route : option bool; t_reused : bool; t_generation : option Z; t_now : Z; t_hints : Hints }.

Definition decided_as (route : option bool) (reused : bool) (now : Z) (h : Hints) (key : list Z) : taken :=
  {| t_route := route; t_reused := reused;
     t_generation := match route with Some _ => Some (generation_of h key) | None => None end;
     t_now := now; t_hints := h |}.

Definition take (w : sentinel_writer) (timeout now : Z) (h : Hints) (name : list Z) (type : Z) : taken :=
  let key := makeKey name type in
  if now <? overloadedUntil h then decided_as None false now h key
  else
    let '(route, reused, h) := decideRoute h now key false in
    if bool_decide (route = Some true) then decided_as route reused now h key
    else
      let '(passed, now, h) := barrier w timeout now h in
      if negb passed || (now <? overloadedUntil h) then decided_as None reused now h key
      else
        let '(route, reused2, h) := decideRoute h now key true in
        decided_as route (reused || reused2) now h key.

Definition directAnswerUnsafe (w : sentinel_writer) (timeout now : Z) (h : Hints) (name : list Z) (type : Z) : bool * Z * Hints :=
  let key := makeKey name type in
  let '(passed, now, h) := barrier w timeout now h in
  (direct_unsafe h passed now key, now, h).

(** ** The calls as steps *)

(** The wait applies a prefix of what happens, all before the deadline. *)
Lemma wait_until_prefix later n deadline now h passed now' h' :
  wait_until later n deadline now h = (passed, now', h') -> now <= deadline ->
  exists done_, done_ `prefix_of` later /\ Forall (fun o => op_time o < deadline) done_ /\ h' = run h done_ /\
    now <= now' <= deadline /\ (passed = true -> barrier_done h' n = true).
Proof.
  revert now h. induction later as [|o later IH]; intros now h; simpl.
  - destruct (barrier_done h n) eqn:E; intros [= <- <- <-] Hd; exists []; (split; [done|]); (split; [constructor|]); naive_solver lia.
  - destruct (barrier_done h n) eqn:E; [intros [= <- <- <-] Hd|].
    { exists []. split; [apply prefix_nil|]. split; [constructor|]. naive_solver lia. }
    destruct (op_time o <? deadline) eqn:Eo; bool_to_prop.
    + intros H Hd. destruct (IH _ _ H) as (ds & Hp & Hf & Hr & Hn & Hb); [lia|].
      exists (o :: ds). split; [by apply prefix_cons|]. split; [by constructor|]. split; [done|]. split; [lia|done].
    + intros [= <- <- <-] Hd. exists []. split; [apply prefix_nil|]. split; [constructor|]. naive_solver lia.
Qed.

Lemma await_prefix w timeout n now h passed now' h' :
  0 <= timeout -> await_barrier w timeout n now h = (passed, now', h') ->
  exists done_, done_ `prefix_of` (w n now).2 /\ Forall (fun o => op_time o < now + timeout) done_ /\ h' = run h done_ /\
    now <= now' <= now + timeout /\ (passed = true -> barrier_done h' n = true).
Proof.
  intros Ht. unfold await_barrier. destruct (w n now) as [[] later]; cbn [snd].
  - intros H. by destruct (wait_until_prefix _ _ _ _ _ _ _ _ H) as (ds & H'); [lia|exists ds].
  - intros [= <- <- <-]. exists []. split; [apply prefix_nil|]. split; [constructor|]. naive_solver lia.
Qed.

(** A whole [take] is a sequence of the table's atomic steps: it begins, the
    steps other threads made before its deadline follow, and it ends; it returns
    within its timeout, its route is what the last step decided, and it gives a
    direct route only after the barrier's predicate held.  So what is proved of
    every interleaving of the steps holds of the calls. *)
Theorem take_is_steps w timeout now h name type :
  0 <= timeout ->
  let r := take w timeout now h name type in
  let key := makeKey name type in
  exists n passed done_,
    done_ `prefix_of` (w n now).2 /\ Forall (fun o => op_time o < now + timeout) done_ /\
    now <= t_now r <= now + timeout /\
    ((t_hints r = run h [OpBegin now now key] /\ done_ = [] /\ t_route r <> Some false) \/
     (t_hints r = run h ([OpBegin now now key] ++ done_ ++ [OpEnd passed (t_now r) (t_now r) key]) /\
      t_route r = fst <$> (take_end (run h ([OpBegin now now key] ++ done_)) passed (t_now r) (t_now r) key).1 /\
      (t_route r = Some false -> barrier_done (run h ([OpBegin now now key] ++ done_)) n = true))).
Proof.
  intros Ht r key. unfold r, take. fold key.
  assert (forall s, run h (OpBegin now now key :: s) = run (take_begin h now now key).2 s) as Hrun by done.
  unfold take_begin in Hrun. destruct (now <? overloadedUntil h) eqn:Eo.
  { exists 0, false, []. split; [apply prefix_nil|]. split; [constructor|]. split; [cbn; lia|]. left. by rewrite Hrun. }
  destruct (decideRoute h now key false) as [[route reused] h1] eqn:Ed.
  case_bool_decide as Er.
  { exists 0, false, []. split; [apply prefix_nil|]. split; [constructor|]. split; [cbn; lia|]. left. rewrite Hrun. subst route. done. }
  cbn [snd] in Hrun. unfold barrier. set (n := u64 (sequence h1 + 1)) in *. set (h2 := set_barrier h1 n _ _) in *.
  destruct (await_barrier w timeout n now h2) as [[passed now'] h3] eqn:Ea.
  destruct (await_prefix _ _ _ _ _ _ _ _ Ht Ea) as (ds & Hp & Hf & -> & Hn & Hb).
  exists n, passed, ds. split; [done|]. split; [done|].
  assert (run h ([OpBegin now now key] ++ ds) = run h2 ds) as E1 by apply Hrun.
  assert (forall t, run h ([OpBegin now now key] ++ ds ++ [OpEnd passed t t key]) = (take_end (run h2 ds) passed t t key).2) as E2.
  { intros t. rewrite app_assoc. unfold run in *. rewrite foldl_app. by rewrite E1. }
  rewrite E1. unfold take_end in *. destruct (negb passed || (now' <? overloadedUntil (run h2 ds))) eqn:Ep.
  { cbn [decided_as t_now t_hints t_route]. rewrite E2, Ep. split; [lia|]. right. done. }
  destruct (decideRoute (run h2 ds) now' key true) as [[route2 reused2] h4] eqn:Ed2.
  cbn [decided_as t_now t_hints t_route]. rewrite E2, Ep, Ed2. split; [lia|]. right. split; [done|].
  split; [by destruct route2|]. intros _. apply Hb. by destruct passed.
Qed.
End Taking.

(** *** Barriers of the tests *)

(** Every earlier event is processed and checked at once. *)
Definition immediate : sentinel_writer := fun n now => (true, [OpSentinel now n; OpFlush now n]).

Lemma take_is_steps_witness :
  let h := run (W:=c_locale) (newHints ∅ (milliseconds 3000)) [OpEvent 5 (str "a.io") 1 (str "c:\x.exe")] in
  t_now (take (W:=c_locale) immediate (seconds 1) 5 h (str "a.io") 1) <= 5 + seconds 1.
Proof.
  intros h. destruct (take_is_steps (W:=c_locale) immediate (seconds 1) 5 h (str "a.io") 1) as (n & p & d & _ & _ & H & _);
    [unfold seconds; lia|apply H].
Defined.
