(* ===== verification/Barrier.v ===== *)
(** * Barrier: query events, sentinels and loss checks end to end

    Models how the event session of [DnsTrace] in
    [src/src/native/dns-dispatcher.cpp] (consumer and flusher threads) and the
    barrier of [Hints] work together.  The session is one buffer sequence in
    logging order; events may be lost, which a counter shows.  The theorem is
    about one selected application's lookup: its event was logged before its
    packet arrived, as the DNS client does, and then no direct route or direct
    answer can be given to that packet. *)
From S2P Require Import Prelude Numbers DnsWire Attribution.

(** ** The session *)

Inductive event :=
| Query (name : list Z) (type : Z) (path : list Z)
| Sentinel (n : Z).

(** The flusher between its steps: idle, a flush for a covered sequence begun,
    or the loss counter read. *)
Inductive flusher := Idle | Flushing (covered_ : Z) | Read (covered_ lost : Z).

Record session := {
  table : Hints;
  queue : list event;
  lost : Z;
  reported : Z;
  flush : flusher
}.

Definition with_table y t := {| table := t; queue := queue y; lost := lost y; reported := reported y; flush := flush y |}.

Section Session.
Context {W : WideChars}.

(** [processEvent]: a sentinel advances the barrier; a query event is resolved
    to its process path, or to none when the process is gone or its image is
    not resolved in time. *)
Definition process_event (t : Hints) (now : Z) (e : event) (seen : list Z) : Hints :=
  match e with
  | Sentinel n => sentinelProcessed t n
  | Query name type _ => (addResolved t now name type seen).2
  end.

(** The path a query event resolves to. *)
Definition resolves (e : event) (seen : list Z) : Prop :=
  match e with Query _ _ path => seen = path \/ seen = [] | Sentinel _ => True end.

(** The flusher after a successful flush: losses first, then the sequence. *)
Definition flush_done (y : session) (now covered_ lost_ : Z) : session :=
  let t := if lost_ =? reported y then table y else lostEvents (table y) now in
  {| table := flushChecked t covered_; queue := queue y; lost := lost y; reported := lost_; flush := Idle |}.

(** One step at time [now]. *)
Inductive session_step (now : Z) : session -> session -> Prop :=
| ss_log y e : (match e with Sentinel n => n <= sequence (table y) | Query _ _ _ => True end) ->
    session_step now y {| table := table y; queue := queue y ++ [e]; lost := lost y; reported := reported y; flush := flush y |}
| ss_lose y : session_step now y
    {| table := table y; queue := queue y; lost := lost y + 1; reported := reported y; flush := flush y |}
| ss_consume y e rest seen : queue y = e :: rest -> resolves e seen ->
    session_step now y {| table := process_event (table y) now e seen; queue := rest; lost := lost y;
                          reported := reported y; flush := flush y |}
| ss_flush y : session_step now y
    {| table := table y; queue := queue y; lost := lost y; reported := reported y; flush := Flushing (sequence (table y)) |}
| ss_read y c : flush y = Flushing c -> session_step now y
    {| table := table y; queue := queue y; lost := lost y; reported := reported y; flush := Read c (lost y) |}
| ss_flushed y c l : flush y = Read c l -> session_step now y (flush_done y now c l)
| ss_query y o : op_time o = now ->
    (match o with OpBegin _ _ _ | OpEnd _ _ _ _ | OpComplete _ _ _ => True | _ => False end) ->
    sequence (table y) + 1 < 2 ^ 64 ->
    session_step now y (with_table y (apply_op (table y) o)).

(** Steps at times from [lo] and before [hi]. *)
Definition session_run (lo hi : Z) : session -> session -> Prop :=
  rtc (fun y y' => exists now, lo <= now < hi /\ session_step now y y').

(** ** Well-formed sessions *)

(** Every number in circulation was assigned. *)
Definition assigned (y : session) : Prop :=
  0 <= sequence (table y) /\ processed (table y) <= sequence (table y) /\ checked (table y) <= sequence (table y) /\
  reported y <= lost y /\
  (forall n, Sentinel n ∈ queue y -> n <= sequence (table y)) /\
  match flush y with
  | Idle => True
  | Flushing c => c <= sequence (table y)
  | Read c l => c <= sequence (table y) /\ l <= lost y
  end.

Definition initial (apps : gset (list Z)) (window : Z) : session :=
  {| table := newHints apps window; queue := []; lost := 0; reported := 0; flush := Idle |}.

(** What the operations of a query leave alone. *)
Lemma query_op_fields t o :
  (match o with OpBegin _ _ _ | OpEnd _ _ _ _ | OpComplete _ _ _ => True | _ => False end) ->
  0 <= sequence t -> sequence t + 1 < 2 ^ 64 ->
  let t' := apply_op t o in
  included t' = included t /\ processed t' = processed t /\ checked t' = checked t /\ sequence t <= sequence t'.
Proof.
  intros Ho Hs Hw. destruct o as [| | | |t1 now key|passed t1 now key|now key gen|]; try done; simpl.
  - unfold take_begin. destruct (_ <? _); [done|]. destruct (decideRoute_fields t now key false) as (_ & _ & ? & H4 & ? & ?).
    destruct (decideRoute t now key false) as [[route r] t1']. simpl in *. destruct (bool_decide _); simpl; [repeat (split; [done|]); lia|].
    rewrite H4. rewrite uN_id by lia. repeat (split; [done|]). lia.
  - unfold take_end. destruct (_ || _); [done|]. destruct (decideRoute_fields t now key true) as (_ & _ & ? & H4 & ? & ?).
    destruct (decideRoute t now key true) as [[route r] t1']. simpl in *. repeat (split; [done|]). lia.
  - unfold complete. by destruct (hints t !! key).
Qed.

(** Recording an event changes neither the barrier nor the included set. *)
Lemma add_fields t now name type path :
  let t' := (addResolved t now name type path).2 in
  included t' = included t /\ processed t' = processed t /\ checked t' = checked t /\ sequence t' = sequence t /\
  directBlockedUntil t' = directBlockedUntil t.
Proof.
  unfold addResolved. destruct (expire_fields t now) as (H1 & H2 & H3 & H4 & H5 & H6).
  destruct (_ || _); simpl; auto.
Qed.

Lemma assigned_step now y y' : session_step now y y' -> assigned y ->
  assigned y' /\ included (table y') = included (table y) /\ sequence (table y) <= sequence (table y') /\
  reuseWindow (table y') = reuseWindow (table y).
Proof.
  intros Hs (Hq & Hp & Hc & Hr & Hn & Hf). unfold assigned.
  destruct Hs as [y e He|y|y e rest seen Hqu Hres|y|y c Hfl|y c l Hfl|y o Ht Ho Hw]; simpl in *.
  - split; [|done]. repeat (split; [done|]). split; [|done]. intros n. rewrite elem_of_app, list_elem_of_singleton.
    intros [H|<-]; [by apply Hn|done].
  - split; [|done]. repeat (split; [done|]). split; [lia|]. split; [done|]. destruct (flush y); simpl in *; try done. lia.
  - rewrite Hqu in Hn.
    assert (included (process_event (table y) now e seen) = included (table y) /\
      checked (process_event (table y) now e seen) = checked (table y) /\
      sequence (process_event (table y) now e seen) = sequence (table y) /\
      processed (process_event (table y) now e seen) <= sequence (table y) /\
      reuseWindow (process_event (table y) now e seen) = reuseWindow (table y)) as (-> & -> & -> & ? & ->).
    { destruct e as [name type path|n]; simpl.
      - destruct (add_fields (table y) now name type seen) as (-> & -> & -> & -> & _).
        pose proof (apply_op_window (table y) (OpEvent now name type seen)). done.
      - repeat (split; [done|]). split; [|done]. assert (n <= sequence (table y)) by (apply Hn; set_solver). lia. }
    split; [|done]. repeat (split; [done|]). split; [|done]. intros n H'. apply Hn. set_solver.
  - done.
  - rewrite Hfl in Hf. repeat (split; [done|]). done.
  - rewrite Hfl in Hf. destruct Hf as [Hf Hl]. destruct (l =? reported y); simpl; (split; [|done]);
      repeat (split; [done || lia|]); done.
  - destruct (query_op_fields (table y) o Ho Hq Hw) as (Hi & H1 & H2 & H3).
    pose proof (apply_op_window (table y) o) as Hwin. split; [|done].
    rewrite H1, H2. split; [lia|]. split; [lia|]. split; [lia|]. split; [done|]. split.
    + intros n H'. specialize (Hn n H'). lia.
    + destruct (flush y); simpl in *; lia.
Qed.
End Session.

(** ** Following one selected lookup *)

Section Tracked.
Context {W : WideChars}.
Variables (name : list Z) (type : Z) (path : list Z).
Abbreviation key := (makeKey name type).

(** Until [T] no decision on the key is direct. *)
Definition safe_until (T : Z) (t : Hints) : Prop :=
  covered (reuseWindow t) T (hints t !! key) \/ quarantined T (hints t !! key) \/
  T <= overloadedUntil t \/ T <= directBlockedUntil t.

(** The event is still queued behind sentinels older than [m]; or it was lost
    and no flush that covers [m] has missed it; or the table knows. *)
Definition tracked (m T : Z) (y : session) : Prop :=
  (exists q1 q2, queue y = q1 ++ Query name type path :: q2 /\
     (forall n, Sentinel n ∈ q1 -> n < m) /\ processed (table y) < m) \/
  (exists d, reported y < d <= lost y /\ checked (table y) < m /\
     match flush y with Read c l => c < m \/ d <= l | _ => True end) \/
  safe_until T (table y).

Lemma safe_op T t o :
  op_time o < T -> T <= op_time o + reuseWindow t -> reuseWindow t <= seconds 10 ->
  safe_until T t -> safe_until T (apply_op t o).
Proof.
  intros Ht Hlo Hw [H|[H|[H|H]]]; unfold safe_until.
  - left. rewrite apply_op_window. by apply apply_op_covered.
  - right. left. eapply quarantined_steps; [apply apply_op_entry|done|lia|done].
  - right. right. left. destruct (apply_op_blocked t o T) as [_ Hb]; [lia|]. auto.
  - right. right. right. destruct (apply_op_blocked t o T) as [Hb _]; [lia|]. auto.
Qed.

(** Consuming the event itself makes the table safe. *)
Lemma consume_safe T t now seen :
  T <= now + seconds 10 -> path <> [] -> lower path ∈ included t -> seen = path \/ seen = [] ->
  safe_until T (addResolved t now name type seen).2.
Proof.
  intros HT Hp Hi Hseen. unfold safe_until.
  destruct (addResolved t now name type seen) as [ok t'] eqn:E. simpl. destruct ok.
  - destruct Hseen as [->| ->].
    + left. by eapply event_covered.
    + right. left. unfold addResolved in E. destruct (_ || _); [done|]. injection E as <-. simpl.
      rewrite lookup_insert_eq. eexists. split; [done|]. unfold note_event. simpl. lia.
  - right. right. left. unfold addResolved in E. destruct (_ || _); [|done]. injection E as <-. simpl. lia.
Qed.

(** A loss reported now blocks direct routes. *)
Lemma lost_safe T t now : T <= now + seconds 10 -> safe_until T (lostEvents t now).
Proof. intros HT. right. right. right. simpl. lia. Qed.

Lemma tracked_consume m T now y e rest seen :
  now < T -> T <= now + reuseWindow (table y) -> reuseWindow (table y) <= seconds 10 ->
  path <> [] -> lower path ∈ included (table y) -> queue y = e :: rest -> resolves e seen ->
  tracked m T y ->
  tracked m T {| table := process_event (table y) now e seen; queue := rest; lost := lost y;
                 reported := reported y; flush := flush y |}.
Proof.
  intros Ht Hlo Hw Hp Hi Hq Hres [(q1 & q2 & Hq' & Hn & Hpr)|[(d & Hd & Hc & Hf)|Hs]]; unfold tracked; simpl.
  - rewrite Hq in Hq'. destruct q1 as [|e' q1]; simplify_eq/=.
    + right. right. apply consume_safe; [lia|done..].
    + left. exists q1, q2. split; [done|]. split; [intros n H; apply Hn; set_solver|].
      destruct e' as [name' type' path'|n]; simpl.
      * by destruct (add_fields (table y) now name' type' seen) as (_ & -> & _).
      * assert (n < m) by (apply Hn; set_solver). lia.
  - right. left. exists d. split; [done|]. split; [|done]. destruct e as [name' type' path'|n]; simpl; [|done].
    by destruct (add_fields (table y) now name' type' seen) as (_ & _ & -> & _).
  - right. right. destruct e as [name' type' path'|n]; simpl.
    + by apply (safe_op T (table y) (OpEvent now name' type' seen)).
    + by apply (safe_op T (table y) (OpSentinel now n)).
Qed.

Lemma tracked_flushed m T now y c l :
  now < T -> T <= now + reuseWindow (table y) -> reuseWindow (table y) <= seconds 10 ->
  flush y = Read c l -> tracked m T y -> tracked m T (flush_done y now c l).
Proof.
  intros Ht Hlo Hw Hfl H. unfold tracked, flush_done. simpl.
  destruct H as [(q1 & q2 & Hq & Hn & Hp)|[(d & Hd & Hc & Hf)|Hs]].
  - left. exists q1, q2. repeat (split; [done|]). by destruct (l =? reported y).
  - rewrite Hfl in Hf. destruct (decide_rel Z.le d l) as [Hle|Hgt].
    + right. right. rewrite (proj2 (Z.eqb_neq l (reported y))) by lia.
      apply (lost_safe T (table y) now). lia.
    + right. left. exists d. split; [lia|]. split; [|done]. destruct (l =? reported y); simpl; lia.
  - right. right. assert (safe_until T (if l =? reported y then table y else lostEvents (table y) now)) as H.
    { destruct (l =? reported y); [done|]. by apply (safe_op T (table y) (OpLost now)). }
    apply (safe_op T _ (OpFlush now c)); simpl; [done|by destruct (l =? reported y)..|done].
Qed.

Lemma tracked_step m T now y y' :
  session_step now y y' -> now < T -> T <= now + reuseWindow (table y) -> reuseWindow (table y) <= seconds 10 ->
  path <> [] -> lower path ∈ included (table y) -> assigned y -> tracked m T y -> tracked m T y'.
Proof.
  intros Hs Ht Hlo Hw Hp Hi Has H.
  destruct Hs as [y e He|y|y e rest seen Hq Hres|y|y c Hfl|y c l Hfl|y o Ho Hk Hb].
  - destruct H as [(q1 & q2 & Hq & H)|[H|H]]; [|right; by left|right; by right].
    left. exists q1, (q2 ++ [e]). simpl. rewrite Hq. by rewrite <- app_assoc.
  - destruct H as [H|[(d & Hd & H)|H]]; [by left| |right; by right].
    right. left. exists d. simpl. split; [lia|done].
  - by apply tracked_consume.
  - destruct H as [H|[(d & Hd & Hc & _)|H]]; [by left| |right; by right]. right. left. by exists d.
  - destruct H as [H|[(d & Hd & Hc & _)|H]]; [by left| |right; by right]. right. left. exists d.
    split; [done|]. split; [done|]. right. simpl. lia.
  - by apply tracked_flushed.
  - subst now. destruct Has as (Hq0 & _). destruct (query_op_fields (table y) o Hk Hq0 Hb) as (_ & Hpr & Hch & _).
    destruct H as [(q1 & q2 & Hq & Hn & H)|[(d & Hd & Hc & Hf)|H]].
    + left. exists q1, q2. simpl. rewrite Hpr. done.
    + right. left. exists d. simpl. rewrite Hch. done.
    + right. right. by apply safe_op.
Qed.

Lemma tracked_run m T lo y y' :
  session_run lo T y y' -> T <= lo + reuseWindow (table y) -> reuseWindow (table y) <= seconds 10 ->
  path <> [] -> lower path ∈ included (table y) -> assigned y -> tracked m T y ->
  tracked m T y' /\ assigned y' /\ sequence (table y) <= sequence (table y') /\
  lower path ∈ included (table y') /\ reuseWindow (table y') = reuseWindow (table y).
Proof.
  intros Hr Hlo Hw Hp. induction Hr as [y|y1 y2 y3 (now & Hnow & Hs) Hr IH]; intros Hi Has Ht; [done|].
  destruct (assigned_step now y1 y2 Hs Has) as (Has2 & Hi2 & Hseq & Hwin).
  pose proof (tracked_step m T now y1 y2 Hs ltac:(lia) ltac:(lia) Hw Hp Hi Has Ht) as Ht2.
  rewrite <- Hi2 in Hi. rewrite <- Hwin in Hlo, Hw.
  destruct (IH Hlo Hw Hi Has2 Ht2) as (H1 & H2 & H3 & H4 & H5).
  split; [done|]. split; [done|]. split; [lia|]. split; [done|congruence].
Qed.

(** What a safe table means for a decision and for an answer. *)
Lemma safe_decides T t now t1 :
  safe_until T t -> now < T -> t1 < T -> T <= now + reuseWindow t -> reuseWindow t <= seconds 10 ->
  (forall g, (take_end t true t1 now key).1 <> Some (false, g)) /\ direct_unsafe t true now key = true.
Proof.
  intros Hs Ht Ht1 Hlo Hw. unfold take_end, direct_unsafe. cbn [negb orb].
  assert (T <= overloadedUntil t \/ (decideRoute t now key true).1.1 <> Some false) as Hd.
  { destruct Hs as [H|[H|[H|H]]]; [right|right|by left|right].
    - by rewrite (covered_decides t key T).
    - eapply quarantined_decides; [exact H|lia|lia].
    - apply blocked_decides. lia. }
  split.
  - intros g. destruct (t1 <? overloadedUntil t) eqn:E; [done|]. bool_to_prop.
    destruct Hd as [Hd|Hd]; [lia|]. destruct (decideRoute t now key true) as [[route r] t']. simpl in *.
    destruct route as [[]|]; congruence.
  - destruct ((now <? directBlockedUntil t) || (now <? overloadedUntil t)) eqn:E; [done|]. bool_to_prop.
    destruct Hs as [(p & -> & -> & _)|[(p & -> & Hu & _)|[?|?]]]; [done| |lia..].
    rewrite (proj2 (Z.ltb_lt now (unknownUntil p))) by lia. apply orb_true_r.
Qed.

(** The event is logged, or lost while being logged. *)
Inductive logs (y : session) : session -> Prop :=
| logs_queued : logs y {| table := table y; queue := queue y ++ [Query name type path]; lost := lost y;
                          reported := reported y; flush := flush y |}
| logs_lost : logs y {| table := table y; queue := queue y; lost := lost y + 1;
                        reported := reported y; flush := flush y |}.

Lemma logs_tracked y y1 m T :
  assigned y -> logs y y1 -> sequence (table y) < m -> tracked m T y1 /\ assigned y1.
Proof.
  intros Has Hl Hm. pose proof Has as (Hq & Hp & Hc & Hr & Hn & Hf).
  assert (assigned y1) as Has1.
  { destruct Hl; [eapply (assigned_step 0 y); [by apply ss_log|done]|eapply (assigned_step 0 y); [by apply ss_lose|done]]. }
  split; [|done]. destruct Hl.
  - left. exists (queue y), []. simpl. split; [done|]. split; [|lia]. intros n Hin. specialize (Hn n Hin). lia.
  - right. left. exists (lost y + 1). simpl. split; [lia|]. split; [lia|].
    destruct (flush y); simpl in *; try done. left. lia.
Qed.
End Tracked.

(** C1: end to end.  A selected application's query event is logged, or lost
    by the session, at time [t0]; later its packet arrives and waits for the
    barrier; consumer, flusher and other queries interleave in any order, the
    process may be unidentifiable when its event is read.  When the barrier
    has passed, no decision within the reuse window of the event routes the
    packet direct, and a direct answer of the same name asked for meanwhile is
    withheld. *)
Theorem selected_lookup_never_direct {W : WideChars} name type path y0 y1 y2 y3 t0 t1 t2 u m table3 T :
  assigned y0 -> path <> [] -> lower path ∈ included (table y0) -> reuseWindow (table y0) <= seconds 10 ->
  T = t0 + reuseWindow (table y0) ->
  logs name type path y0 y1 -> session_run t0 T y1 y2 ->
  sequence (table y2) + 1 < 2 ^ 64 -> take_begin (table y2) u t1 (makeKey name type) = (Waiting m, table3) -> t0 <= t1 < T ->
  session_run t0 T (with_table y2 table3) y3 -> barrier_done (table y3) m = true ->
  t0 <= t2 < T ->
  (forall g, (take_end (table y3) true t2 t2 (makeKey name type)).1 <> Some (false, g)) /\
  direct_unsafe (table y3) true t2 (makeKey name type) = true.
Proof.
  intros Has Hp Hi Hw -> Hlog Hr1 Hb Hbeg Ht1 Hr2 Hdone Ht2.
  assert (table y1 = table y0) as E1 by (by destruct Hlog).
  assert (m = sequence (table y2) + 1) as Hm.
  { pose proof (query_op_fields (table y2) (OpBegin u t1 (makeKey name type)) I) as Hq.
    unfold take_begin in Hbeg. destruct (_ <? _); [done|].
    destruct (decideRoute_fields (table y2) t1 (makeKey name type) false) as (_ & _ & _ & H4 & _).
    destruct (decideRoute _ _ _ _) as [[route r] s1]. destruct (bool_decide _); [done|]. simpl in H4.
    injection Hbeg as <- _. rewrite H4, uN_id; [done|].
    assert (0 <= sequence (table y2)); [|lia].
    assert (assigned y1) as Ha1 by (eapply (logs_tracked name type path y0 y1 (sequence (table y0) + 1) 0); [done..|lia]).
    clear -Hr1 Ha1. induction Hr1 as [y|ya yb yc (now & _ & Hs) _ IH]; [by destruct Ha1|].
    apply IH. by eapply assigned_step. }
  set (T := t0 + reuseWindow (table y0)) in *.
  assert (forall m0, sequence (table y0) < m0 -> tracked name type path m0 T y2 /\ assigned y2 /\
    sequence (table y0) <= sequence (table y2) /\ lower path ∈ included (table y2) /\
    reuseWindow (table y2) = reuseWindow (table y0)) as Hphase.
  { intros m0 Hm0. destruct (logs_tracked name type path y0 y1 m0 T Has Hlog Hm0) as [Ht1' Ha1].
    rewrite <- E1 in Hi, Hw |- *. eapply tracked_run; [done|rewrite E1; lia|done..]. }
  destruct (Hphase (sequence (table y0) + 1)) as (_ & _ & Hseq & _); [lia|].
  destruct (Hphase m) as (Htr & Has2 & _ & Hi2 & Hw2); [lia|].
  pose proof (ss_query t1 y2 (OpBegin u t1 (makeKey name type)) eq_refl I Hb) as Hst.
  simpl in Hst. rewrite Hbeg in Hst. simpl in Hst.
  assert (session_run t0 T y2 y3) as Hr3.
  { eapply rtc_l; [|exact Hr2]. exists t1. split; [lia|exact Hst]. }
  rewrite <- Hw2 in Hw.
  destruct (tracked_run name type path m T t0 y2 y3 Hr3 ltac:(lia) Hw Hp Hi2 Has2 Htr) as (H & _ & _ & _ & Hw3).
  unfold barrier_done in Hdone. bool_to_prop.
  destruct H as [(q1 & q2 & _ & _ & Hlt)|[(d & _ & Hlt & _)|Hs]]; [lia|lia|].
  apply (safe_decides name type T); [done|lia|lia|lia|lia].
Qed.

(** ** A worked run *)

Module Run.
#[export] Existing Instance c_locale.
Definition t0 : Z := Example.t0.
Definition y0 : session := initial {[ lower Example.app ]} (milliseconds 3000).
Definition y1 : session :=
  {| table := table y0; queue := queue y0 ++ [Query Example.name 1 Example.app]; lost := 0; reported := 0; flush := Idle |}.
Definition waiting : Hints := (take_begin (table y1) t0 t0 Example.key).2.
Definition s1 : session := with_table y1 waiting.
Definition s2 : session :=
  {| table := table s1; queue := queue s1 ++ [Sentinel 1]; lost := 0; reported := 0; flush := Idle |}.
Definition s3 : session :=
  {| table := process_event (table s2) t0 (Query Example.name 1 Example.app) Example.app; queue := [Sentinel 1]; lost := 0; reported := 0; flush := Idle |}.
Definition s4 : session :=
  {| table := process_event (table s3) t0 (Sentinel 1) []; queue := []; lost := 0; reported := 0; flush := Idle |}.
Definition s5 : session := {| table := table s4; queue := []; lost := 0; reported := 0; flush := Flushing 1 |}.
Definition s6 : session := {| table := table s5; queue := []; lost := 0; reported := 0; flush := Read 1 0 |}.
Definition y3 : session := flush_done s6 t0 1 0.

Lemma run_y3 : session_run t0 (t0 + milliseconds 3000) s1 y3.
Proof.
  assert (t0 <= t0 < t0 + milliseconds 3000) as Ht by (unfold milliseconds; lia).
  apply (rtc_l _ s1 s2); [exists t0; split; [done|]; apply (ss_log t0 s1 (Sentinel 1)); by vm_compute|].
  apply (rtc_l _ s2 s3); [exists t0; split; [done|]; apply (ss_consume t0 s2); [done|by left]|].
  apply (rtc_l _ s3 s4); [exists t0; split; [done|]; apply (ss_consume t0 s3); done|].
  apply (rtc_l _ s4 s5); [exists t0; split; [done|]; apply (ss_flush t0 s4)|].
  apply (rtc_l _ s5 s6); [exists t0; split; [done|]; by apply (ss_read t0 s5)|].
  apply rtc_once. exists t0. split; [done|]. by apply ss_flushed.
Qed.
End Run.

Lemma selected_lookup_never_direct_witness :
  (forall g, (take_end (table Run.y3) true (Run.t0 + seconds 2) (Run.t0 + seconds 2) Example.key).1 <> Some (false, g)) /\
  direct_unsafe (table Run.y3) true (Run.t0 + seconds 2) Example.key = true.
Proof.
  apply (selected_lookup_never_direct (W:=c_locale) Example.name 1 Example.app Run.y0 Run.y1 Run.y1 Run.y3
           Run.t0 Run.t0 (Run.t0 + seconds 2) Run.t0 1 Run.waiting (Run.t0 + milliseconds 3000)).
  - unfold assigned. simpl. repeat (split; [lia|]). split; [|done]. intros n H. by apply elem_of_nil in H.
  - done.
  - apply (bool_decide_unpack _). by vm_compute.
  - by vm_compute.
  - done.
  - apply logs_queued.
  - apply rtc_refl.
  - by vm_compute.
  - reflexivity.
  - by vm_compute.
  - apply Run.run_y3.
  - by vm_compute.
  - by vm_compute.
Defined.
