(* ===== verification/Sockets.v ===== *)
(** * Sockets: waiting for a socket under a deadline

    Models [socketReady] and [connectBefore] of [src/src/native/dns-sockets.h]:
    the loop of bounded [select] calls that also watches the running flag, and a
    connection made under the same deadline.  One entry per turn of the loop says
    what the system answers; times are microseconds of the steady clock. *)
From S2P Require Import Prelude.

(** One turn: the running flag, the clock, what [select] returns and whether it
    reports the socket among the errors. *)
Record select_turn := { se_running : bool; se_now : Z; se_result : Z; se_error : bool }.

Definition SOCKET_ERROR : Z := -1.
Definition kSlice : Z := 200000.

(** The wait of a turn. *)
Definition slice (deadline now : Z) : Z := Z.min (deadline - now) kSlice.

(** The answer and the waits asked for; no answer if the turns end first. *)
Fixpoint socketReady (turns : list select_turn) (deadline : Z) : option bool * list Z :=
  match turns with
  | [] => (None, [])
  | t :: turns =>
      if negb (se_running t) then (Some false, [])
      else if deadline - se_now t <=? 0 then (Some false, [])
      else
        let wait := slice deadline (se_now t) in
        if (se_result t =? SOCKET_ERROR) || se_error t then (Some false, [wait])
        else if 0 <? se_result t then (Some true, [wait])
        else let '(r, waits) := socketReady turns deadline in (r, wait :: waits)
  end.

Definition WSAEWOULDBLOCK : Z := 10035.

(** [connectBefore]: what [connect] returns, the error it leaves, and the answer
    of [getsockopt] with the socket's own error. *)
Definition connectBefore (connected : bool) (error : Z) (turns : list select_turn) (deadline : Z) (sockopt : option Z) : option bool :=
  if connected then Some true
  else if negb (error =? WSAEWOULDBLOCK) then Some false
  else
    match fst (socketReady turns deadline) with
    | Some true => Some (match sockopt with Some e => e =? 0 | None => false end)
    | other => other
    end.

(** ** Deadlines *)

(** What time does between two turns: a [select] that finds nothing lasts its
    whole wait. *)
Fixpoint elapses (deadline : Z) (turns : list select_turn) : Prop :=
  match turns with
  | t :: ((t' :: _) as rest) => se_now t + slice deadline (se_now t) <= se_now t' /\ elapses deadline rest
  | _ => True
  end.

Lemma ready_waits turns deadline w : w ∈ (socketReady turns deadline).2 -> 0 < w <= kSlice.
Proof.
  induction turns as [|t turns IH]; cbn [socketReady]; [by intros ?%elem_of_nil|]. destruct (negb _); [by intros ?%elem_of_nil|].
  destruct (Z.leb_spec (deadline - se_now t) 0); [by intros ?%elem_of_nil|].
  assert (0 < slice deadline (se_now t) <= kSlice) as Hs by (unfold slice, kSlice; lia).
  cbv zeta. destruct (_ || _); [by intros ->%list_elem_of_singleton|]. destruct (0 <? _); [by intros ->%list_elem_of_singleton|].
  destruct (socketReady turns deadline) as [r waits]. cbn [snd] in *. rewrite elem_of_cons. intros [->|Hw]; [done|by apply IH].
Qed.

(** After [n] turns that find nothing, [n] slices have passed or the deadline
    has. *)
Lemma ready_progress turns deadline n :
  elapses deadline turns -> (forall t, head turns = Some t -> deadline - se_now t <= kSlice * Z.of_nat n) ->
  (n < length turns)%nat -> fst (socketReady turns deadline) <> None.
Proof.
  revert turns. induction n as [|n IH]; intros [|t turns] He Hh Hn; simpl in Hn; try lia; cbn [socketReady].
  - destruct (negb _); [done|]. specialize (Hh t eq_refl). rewrite (proj2 (Z.leb_le _ _)) by lia. done.
  - destruct (negb _); [done|]. destruct (Z.leb_spec (deadline - se_now t) 0); [done|]. cbv zeta.
    destruct (_ || _); [done|]. destruct (0 <? _); [done|]. assert (fst (socketReady turns deadline) <> None) as Hr.
    { destruct turns as [|t' turns]; [simpl in Hn; lia|]. destruct He as [Ht He]. apply IH; [done| |simpl in *; lia].
      intros t1 [= <-]. specialize (Hh t eq_refl). unfold slice, kSlice in *. lia. }
    by destruct (socketReady turns deadline).
Qed.

(** A wait for a socket ends by its deadline, and notices a stop.  Every
    [select] is given more than nothing and at most 200 milliseconds, a wait that
    answers "ready" had the running flag set and time left at its last turn, and
    whatever the socket does, the loop ends after at most one turn more than the
    slices that fit before the deadline. *)
Theorem wait_bounded turns deadline n :
  elapses deadline turns -> (forall t, head turns = Some t -> deadline - se_now t <= kSlice * Z.of_nat n) ->
  (n < length turns)%nat ->
  (exists answer, fst (socketReady turns deadline) = Some answer /\
     (answer = true -> exists t, t ∈ turns /\ se_running t = true /\ se_now t < deadline /\ 0 < se_result t /\ se_error t = false)) /\
  (forall w, w ∈ (socketReady turns deadline).2 -> 0 < w <= kSlice).
Proof.
  intros He Hh Hn. split; [|intros w; apply ready_waits].
  pose proof (ready_progress turns deadline n He Hh Hn) as Hp. destruct (fst (socketReady turns deadline)) as [answer|] eqn:E; [|done].
  exists answer. split; [done|]. intros ->. clear -E. induction turns as [|t turns IH]; cbn [socketReady] in E; [done|].
  destruct (se_running t) eqn:Er; cbn [negb] in E; [|done]. destruct (Z.leb_spec (deadline - se_now t) 0); [done|]. cbv zeta in E.
  destruct (se_result t =? SOCKET_ERROR); cbn [orb] in E; [done|]. destruct (se_error t) eqn:Ee; [done|].
  destruct (Z.ltb_spec 0 (se_result t)); [exists t; split; [by left|]; split; [done|]; split; [lia|done]|].
  destruct (socketReady turns deadline) as [r waits]. destruct (IH E) as (t' & Ht' & H'). exists t'. split; [by right|done].
Qed.

(** Half a second without an answer. *)
Definition quiet_turns : list select_turn :=
  map (fun now => {| se_running := true; se_now := now; se_result := 0; se_error := false |}) [0; 200000; 400000; 500000].

Lemma wait_bounded_witness :
  (3 < length quiet_turns)%nat /\ fst (socketReady quiet_turns 500000) = Some false /\ (socketReady quiet_turns 500000).2 = [200000; 200000; 100000] /\
  (forall w, w ∈ (socketReady quiet_turns 500000).2 -> 0 < w <= kSlice).
Proof.
  split; [simpl; lia|]. split; [reflexivity|]. split; [reflexivity|].
  apply (wait_bounded quiet_turns 500000 3); [vm_compute; intuition discriminate| |simpl; lia]. intros t [= <-]. vm_compute. discriminate.
Defined.
