(* ===== verification/Capacity.v ===== *)
(** * Capacity: admission of workers and tunnel exchanges

    Models [ExchangeLimit] ([src/src/native/dns-capacity.h]) and
    [acquireWorker]/[WorkerLease] of [dns-dispatcher.cpp] as the atomic steps
    their threads take on one shared counter. *)
From S2P Require Import Prelude.

(** ** Tunnel exchanges: a compare-and-swap loop *)

Module ExchangeLimit.

(** A lease in construction has loaded [active]; a lease holds a place or was
    refused. *)
Inductive lease := Absent | Loaded (active : Z) | Allowed | Denied.

Record limit := { maximum : Z; active_ : Z; leases : gmap positive lease }.

Definition lease_of (l : limit) (id : positive) : lease := default Absent (leases l !! id).
Definition put (l : limit) (a : Z) (id : positive) (x : lease) : limit :=
  {| maximum := maximum l; active_ := a; leases := <[id := x]> (leases l) |}.

(** One atomic step of the constructor for lease [id]: the load, or one turn of
    the loop.  [weak] is a spurious failure of [compare_exchange_weak]; a failed
    exchange reloads the counter. *)
Definition acquire_step (l : limit) (id : positive) (weak : bool) : limit :=
  match lease_of l id with
  | Absent => put l (active_ l) id (Loaded (active_ l))
  | Loaded a =>
      if a <? maximum l then
        if negb weak && (active_ l =? a) then put l (u32 (a + 1)) id Allowed
        else put l (active_ l) id (Loaded (active_ l))
      else put l (active_ l) id Denied
  | Allowed | Denied => l
  end.

(** The destructor. *)
Definition release_step (l : limit) (id : positive) : limit :=
  match lease_of l id with
  | Allowed => put l (u32 (active_ l - 1)) id Absent
  | Denied => put l (active_ l) id Absent
  | _ => l
  end.

Inductive limit_step : limit -> limit -> Prop :=
| step_acquire l id weak : limit_step l (acquire_step l id weak)
| step_release l id : limit_step l (release_step l id).

Definition holds_place (x : lease) : bool := match x with Allowed => true | _ => false end.

(** The number of leases that hold a place. *)
Definition holders (m : gmap positive lease) : nat := size (filter (fun e => holds_place e.2 = true) m).

Definition place (x : lease) : nat := match x with Allowed => 1 | _ => 0 end.

Lemma holders_insert m id x : holders (<[id := x]> m) = (place x + holders (delete id m))%nat.
Proof.
  unfold holders. destruct (holds_place x) eqn:E.
  - rewrite map_filter_insert_True by done.
    rewrite <- insert_delete_eq, map_size_insert_None by apply lookup_delete_eq.
    rewrite map_filter_delete. by destruct x.
  - rewrite map_filter_insert_False by (simpl; congruence). by destruct x.
Qed.

Lemma holders_lookup m id : holders m = (place (default Absent (m !! id)) + holders (delete id m))%nat.
Proof.
  destruct (m !! id) as [x|] eqn:E; simpl.
  - rewrite <- (holders_insert m id x). by rewrite insert_id.
  - by rewrite delete_id.
Qed.

(** The counter is exactly the number of leases that hold a place, within the
    maximum. *)
Definition counted (l : limit) : Prop :=
  active_ l = Z.of_nat (holders (leases l)) /\ active_ l <= maximum l /\ maximum l < 2 ^ 32.

Lemma counted_put l id x a :
  counted l -> a = active_ l + Z.of_nat (place x) - Z.of_nat (place (lease_of l id)) -> a <= maximum l ->
  counted (put l a id x).
Proof.
  intros (Ha & Hm & Hw) Hx Hle. unfold counted. simpl. rewrite holders_insert.
  rewrite (holders_lookup _ id) in Ha. unfold lease_of in Hx. split; [lia|done].
Qed.

Lemma counted_acquire l id weak : counted l -> counted (acquire_step l id weak).
Proof.
  intros Hc. pose proof Hc as (Ha & Hm & Hw). unfold acquire_step.
  destruct (lease_of l id) as [|a| |] eqn:E; [| |done..].
  - apply counted_put; [done|rewrite E; cbn [place holds_place]; lia|done].
  - destruct (a <? maximum l) eqn:Elt; [|apply counted_put; [done|rewrite E; cbn [place holds_place]; lia|done]].
    destruct (negb weak && (active_ l =? a)) eqn:Ecas; bool_to_prop.
    + subst a. rewrite uN_id by lia. apply counted_put; [done|rewrite E; cbn [place holds_place]; lia|lia].
    + apply counted_put; [done|rewrite E; cbn [place holds_place]; lia|done].
Qed.

Lemma counted_release l id : counted l -> counted (release_step l id).
Proof.
  intros Hc. pose proof Hc as (Ha & Hm & Hw). unfold release_step.
  destruct (lease_of l id) as [|a| |] eqn:E; [done|done| |].
  - assert (1 <= active_ l) as H1.
    { rewrite Ha, (holders_lookup _ id). unfold lease_of in E. rewrite E. cbn [default from_option place holds_place]. lia. }
    rewrite uN_id by lia. apply counted_put; [done|rewrite E; cbn [place holds_place]; lia|lia].
  - apply counted_put; [done|rewrite E; cbn [place holds_place]; lia|done].
Qed.

Definition created (n : Z) : limit := {| maximum := n; active_ := 0; leases := ∅ |}.

(** Under any interleaving of lease constructions (with spurious exchange
    failures) and destructions, the number of leases holding a place is exactly
    the counter and never exceeds the maximum; the counter never wraps. *)
Theorem exchange_limit_respected n l :
  0 <= n < 2 ^ 32 -> rtc limit_step (created n) l ->
  active_ l = Z.of_nat (holders (leases l)) /\ active_ l <= n.
Proof.
  intros Hn Hr. assert (counted l /\ maximum l = n) as [(H1 & H2 & _) <-]; [|done].
  revert Hr. apply (rtc_ind_r (fun l => counted l /\ maximum l = n)).
  - split; [|done]. split; [done|]. simpl. lia.
  - intros y z _ Hs [Hc Hm]. destruct Hs as [y id weak|y id].
    + split; [by apply counted_acquire|]. rewrite <- Hm. unfold acquire_step. by repeat (case_match; try done).
    + split; [by apply counted_release|]. rewrite <- Hm. unfold release_step. by repeat (case_match; try done).
Qed.

(** Two constructions race for the only place. *)
Definition race : limit :=
  acquire_step (acquire_step (acquire_step (acquire_step (created 1) 1 false) 2 false) 1 false) 2 false.

Lemma race_reached : rtc limit_step (created 1) race.
Proof.
  eapply rtc_r; [|apply step_acquire]. eapply rtc_r; [|apply step_acquire].
  eapply rtc_r; [|apply step_acquire]. apply rtc_once. apply step_acquire.
Qed.
End ExchangeLimit.

Lemma exchange_limit_respected_witness :
  ExchangeLimit.active_ ExchangeLimit.race = Z.of_nat (ExchangeLimit.holders (ExchangeLimit.leases ExchangeLimit.race)) /\
  ExchangeLimit.active_ ExchangeLimit.race <= 1.
Proof. apply (ExchangeLimit.exchange_limit_respected 1); [lia|apply ExchangeLimit.race_reached]. Defined.

(** ** Workers: add first, then check *)

Module Workers.
Definition kMaxWorkers : Z := 256.

(** A thread inside [acquireWorker] has added itself and seen [old]. *)
Inductive worker := Outside | Added (old : Z) | Working.

Record pool := { gActiveWorkers : Z; gAdmissionRefusals : Z; workers : gmap positive worker }.

Definition worker_of (p : pool) (id : positive) : worker := default Outside (workers p !! id).

(** [fetch_add], then the decision: keep the place, or give it back. *)
Definition worker_step (p : pool) (id : positive) : pool :=
  match worker_of p id with
  | Outside => {| gActiveWorkers := u32 (gActiveWorkers p + 1); gAdmissionRefusals := gAdmissionRefusals p;
                  workers := <[id := Added (gActiveWorkers p)]> (workers p) |}
  | Added old =>
      if old <? kMaxWorkers
      then {| gActiveWorkers := gActiveWorkers p; gAdmissionRefusals := gAdmissionRefusals p;
              workers := <[id := Working]> (workers p) |}
      else {| gActiveWorkers := u32 (gActiveWorkers p - 1); gAdmissionRefusals := u64 (gAdmissionRefusals p + 1);
              workers := <[id := Outside]> (workers p) |}
  | Working => {| gActiveWorkers := u32 (gActiveWorkers p - 1); gAdmissionRefusals := gAdmissionRefusals p;
                  workers := <[id := Outside]> (workers p) |}
  end.

(** Admitted: working, or added with a place. *)
Definition admitted (w : worker) : bool :=
  match w with Working => true | Added old => old <? kMaxWorkers | Outside => false end.
Definition present (w : worker) : bool := match w with Outside => false | _ => true end.

Definition count (f : worker -> bool) (m : gmap positive worker) : Z :=
  Z.of_nat (size (filter (fun e => f e.2 = true) m)).
Definition weight (f : worker -> bool) (w : worker) : Z := if f w then 1 else 0.

Lemma count_insert f m id x : count f (<[id := x]> m) = weight f x + count f (delete id m).
Proof.
  unfold count, weight. destruct (f x) eqn:E.
  - rewrite map_filter_insert_True by done.
    rewrite <- insert_delete_eq, map_size_insert_None; [rewrite map_filter_delete; lia|]. apply lookup_delete_eq.
  - rewrite map_filter_insert_False by (simpl; congruence). lia.
Qed.

Lemma count_lookup f m id : f Outside = false -> count f m = weight f (default Outside (m !! id)) + count f (delete id m).
Proof.
  intros Hf. destruct (m !! id) as [x|] eqn:E; simpl.
  - rewrite <- (count_insert f m id x). by rewrite insert_id.
  - rewrite delete_id by done. unfold weight. rewrite Hf. lia.
Qed.

(** Every admitted thread is present. *)
Lemma admitted_present m : count admitted m <= count present m.
Proof.
  induction m as [|id x m E IH] using map_ind; [done|].
  rewrite !count_insert, delete_id by done. unfold weight. destruct x as [|old|]; simpl; try lia.
  destruct (old <? kMaxWorkers); lia.
Qed.

(** The counter is the number of threads present; few enough are admitted. *)
Definition pool_ok (p : pool) : Prop :=
  gActiveWorkers p = count present (workers p) /\ count admitted (workers p) <= kMaxWorkers.

Lemma pool_ok_step p id :
  gActiveWorkers p + 1 < 2 ^ 32 -> pool_ok p -> pool_ok (worker_step p id).
Proof.
  intros Hb (Ha & Hm). unfold pool_ok, worker_step, worker_of.
  rewrite (count_lookup present _ id) in Ha by done. rewrite (count_lookup admitted _ id) in Hm by done.
  pose proof (admitted_present (delete id (workers p))) as Hle.
  assert (0 <= count present (delete id (workers p)) /\ 0 <= count admitted (delete id (workers p))) as [??] by (unfold count; lia).
  destruct (default Outside (workers p !! id)) as [|old|]; unfold weight in *; simpl in *.
  - rewrite !count_insert. unfold weight. simpl. rewrite uN_id by lia. destruct (gActiveWorkers p <? kMaxWorkers) eqn:E; bool_to_prop; lia.
  - destruct (old <? kMaxWorkers) eqn:E; simpl; rewrite !count_insert; unfold weight; simpl; rewrite ?uN_id by lia; lia.
  - rewrite !count_insert. unfold weight. simpl. rewrite uN_id by lia. lia.
Qed.

Fixpoint schedule (p : pool) (ids : list positive) : pool :=
  match ids with [] => p | id :: ids => schedule (worker_step p id) ids end.

Definition idle : pool := {| gActiveWorkers := 0; gAdmissionRefusals := 0; workers := ∅ |}.

(** With at most 2^31 thread steps, the threads admitted at any moment
    never exceed 256, although the counter itself may overshoot while refused
    threads take their place back; it always equals the threads present. *)
Theorem workers_bounded ids :
  Z.of_nat (length ids) < 2 ^ 31 ->
  count admitted (workers (schedule idle ids)) <= kMaxWorkers /\
  gActiveWorkers (schedule idle ids) = count present (workers (schedule idle ids)).
Proof.
  intros Hl. assert (forall p, pool_ok p -> 0 <= gActiveWorkers p -> gActiveWorkers p + Z.of_nat (length ids) < 2 ^ 32 -> pool_ok (schedule p ids)) as H.
  { clear Hl. induction ids as [|id ids IH]; intros p Hp H0 Hb; simpl in *; [done|].
    assert (pool_ok (worker_step p id)) as Hp' by (apply pool_ok_step; [lia|done]).
    assert (0 <= gActiveWorkers (worker_step p id) <= gActiveWorkers p + 1).
    { split; [destruct Hp' as (-> & _); unfold count; lia|].
      destruct Hp as (Ha & _). rewrite (count_lookup present _ id) in Ha by done.
      assert (0 <= count present (delete id (workers p))) by (unfold count; lia).
      unfold worker_step, worker_of, weight in *. destruct (default Outside (workers p !! id)) as [|old|]; simpl in *.
      - rewrite uN_id; lia.
      - destruct (old <? kMaxWorkers); simpl; rewrite ?uN_id; lia.
      - rewrite uN_id; lia. }
    apply IH; [done|lia|lia]. }
  destruct (H idle) as [H1 H2]; [by vm_compute|done|simpl; lia|done].
Qed.
End Workers.

Lemma workers_bounded_witness :
  Workers.count Workers.admitted (Workers.workers (Workers.schedule Workers.idle [1; 2; 1; 3; 2]%positive)) <= Workers.kMaxWorkers /\
  Workers.gActiveWorkers (Workers.schedule Workers.idle [1; 2; 1; 3; 2]%positive) =
    Workers.count Workers.present (Workers.workers (Workers.schedule Workers.idle [1; 2; 1; 3; 2]%positive)).
Proof. apply Workers.workers_bounded. simpl. lia. Defined.
