(* ===== verification/Contention.v ===== *)
(** * Contention: callers that compete for exchanges

    The last part of [tunnelCapacityTest] of
    [src/src/native/dns-dispatcher-self-test.h]: eight threads take and release
    leases of one [ExchangeLimit] of two places, 256 times each, and count those
    inside.  The threads are programs of atomic steps over [Capacity]; the test's
    verdict is shown for every interleaving of them, with any spurious failures of
    the exchanges. *)
From S2P Require Import Prelude Capacity.
Import ExchangeLimit.

(** Where a caller is in its loop's body. *)
Inductive point :=
| AtLease | AtAccepted | AtInside | AtPeak (active : Z) | AtRaise (active old : Z) | AtLeave | AtRelease (allowed : bool).

Record caller := { attempt : nat; at_ : point }.

(** The limit [small], the three counters, and the threads. *)
Record contest := { small : limit; inside : Z; peak : Z; accepted : Z; callers : list caller }.

Definition kCallers : nat := 8.
Definition kTries : nat := 256.
Definition kPlaces : Z := 2.

Definition contest_start : contest :=
  {| small := created kPlaces; inside := 0; peak := 0; accepted := 0; callers := replicate kCallers {| attempt := 0; at_ := AtLease |} |}.

(** The lease on the stack of thread [i]. *)
Definition lease_id (i : nat) : positive := Pos.of_succ_nat i.

Definition goto (c : contest) (i : nat) (k : caller) : contest :=
  {| small := small c; inside := inside c; peak := peak c; accepted := accepted c; callers := <[i := k]> (callers c) |}.

Definition set_counters (c : contest) (l : limit) (ins pk acc : Z) : contest :=
  {| small := l; inside := ins; peak := pk; accepted := acc; callers := callers c |}.

(** One atomic step of thread [i]; [weak] is a spurious failure. *)
Definition caller_step (c : contest) (i : nat) (weak : bool) : contest :=
  match callers c !! i with
  | None => c
  | Some k =>
      let jump p := {| attempt := attempt k; at_ := p |} in
      if (kTries <=? attempt k)%nat then c
      else match at_ k with
           | AtLease =>
               let l := acquire_step (small c) (lease_id i) weak in
               let c := set_counters c l (inside c) (peak c) (accepted c) in
               match lease_of l (lease_id i) with
               | Allowed => goto c i (jump AtAccepted)
               | Denied => goto c i (jump (AtRelease false))
               | _ => c
               end
           | AtAccepted => goto (set_counters c (small c) (inside c) (peak c) (u32 (accepted c + 1))) i (jump AtInside)
           | AtInside =>
               let active := u32 (inside c + 1) in
               goto (set_counters c (small c) active (peak c) (accepted c)) i (jump (AtPeak active))
           | AtPeak active => goto c i (jump (AtRaise active (peak c)))
           | AtRaise active old =>
               if old <? active then
                 if negb weak && (peak c =? old)
                 then goto (set_counters c (small c) (inside c) active (accepted c)) i (jump AtLeave)
                 else goto c i (jump (AtRaise active (peak c)))
               else goto c i (jump AtLeave)
           | AtLeave => goto (set_counters c (small c) (u32 (inside c - 1)) (peak c) (accepted c)) i (jump (AtRelease true))
           | AtRelease _ =>
               goto (set_counters c (release_step (small c) (lease_id i)) (inside c) (peak c) (accepted c)) i
                 {| attempt := S (attempt k); at_ := AtLease |}
           end
  end.

(** The threads run in any order. *)
Definition contend (steps : list (nat * bool)) (c : contest) : contest := foldl (fun c s => caller_step c s.1 s.2) c steps.

Definition joined (c : contest) : bool := forallb (fun k => (kTries <=? attempt k)%nat) (callers c).

(** [return accepted && peak <= 2 && !inside && !small.active() ? 0 : 99;] *)
Definition contest_verdict (c : contest) : Z :=
  if negb (accepted c =? 0) && (peak c <=? kPlaces) && (inside c =? 0) && (active_ (small c) =? 0) then 0 else 99.

(** ** Counting callers *)

Definition holding (k : caller) : nat := match at_ k with AtLease | AtRelease false => 0 | _ => 1 end.
Definition within (k : caller) : nat := match at_ k with AtPeak _ | AtRaise _ _ | AtLeave => 1 | _ => 0 end.
Definition accepted_now (k : caller) : nat :=
  match at_ k with AtInside | AtPeak _ | AtRaise _ _ | AtLeave | AtRelease true => 1 | _ => 0 end.
Definition count (f : caller -> nat) (l : list caller) : Z := Z.of_nat (sum_list_with f l).

Lemma tally_insert f l i x y : l !! i = Some x -> count f (<[i := y]> l) = count f l - Z.of_nat (f x) + Z.of_nat (f y).
Proof.
  unfold count. revert i. induction l as [|a l IH]; intros [|i] H; simpl in *; simplify_eq; [lia|].
  specialize (IH i H). lia.
Qed.

Lemma count_le f g l : (forall k, (f k <= g k)%nat) -> count f l <= count g l.
Proof. intros H. unfold count. induction l as [|a l IH]; simpl; [lia|]. specialize (H a). lia. Qed.

Lemma count_elem f l i k : l !! i = Some k -> Z.of_nat (f k) <= count f l.
Proof. unfold count. revert i. induction l as [|a l IH]; intros [|i] H; simpl in *; simplify_eq; [lia|]. specialize (IH i H). lia. Qed.

Lemma count_bound f l n : (forall i k, l !! i = Some k -> (f k <= n)%nat) -> count f l <= Z.of_nat (n * length l).
Proof.
  unfold count. induction l as [|a l IH]; intros H; simpl; [lia|].
  pose proof (H 0%nat a eq_refl). assert (Z.of_nat (sum_list_with f l) <= Z.of_nat (n * length l)); [|lia].
  apply IH. intros i k Hk. by apply (H (S i)).
Qed.

(** ** The invariant *)

Definition lease_fits (l : limit) (i : nat) (k : caller) : Prop :=
  match at_ k with
  | AtLease => lease_of l (lease_id i) = Absent \/ exists a, lease_of l (lease_id i) = Loaded a
  | AtRelease false => lease_of l (lease_id i) = Denied
  | _ => lease_of l (lease_id i) = Allowed
  end.

Definition values_fit (k : caller) : Prop := match at_ k with AtPeak a | AtRaise a _ => a <= kPlaces | _ => True end.

(** A caller that has not got anywhere yet. *)
Definition fresh (l : limit) (i : nat) (k : caller) : Prop :=
  attempt k = 0%nat /\ at_ k = AtLease /\ forall a, lease_of l (lease_id i) = Loaded a -> a = 0.

Definition caller_ok (c : contest) (i : nat) (k : caller) : Prop :=
  lease_fits (small c) i k /\ values_fit k /\ (attempt k <= kTries)%nat /\ (attempt k = kTries -> at_ k = AtLease) /\
  (accepted_now k = 1%nat -> 1 <= accepted c).

(** While nobody was counted, somebody holds a place or nobody was refused. *)
Definition contest_ok (c : contest) : Prop :=
  maximum (small c) = kPlaces /\ active_ (small c) = count holding (callers c) /\ active_ (small c) <= kPlaces /\
  inside c = count within (callers c) /\ peak c <= kPlaces /\ length (callers c) = kCallers /\
  0 <= accepted c <= count (fun k => attempt k + accepted_now k)%nat (callers c) /\
  (forall i k, callers c !! i = Some k -> caller_ok c i k) /\
  (accepted c = 0 -> 0 < active_ (small c) \/ forall i k, callers c !! i = Some k -> fresh (small c) i k).

Lemma lease_of_put l a id x : lease_of (put l a id x) id = x.
Proof. unfold lease_of. simpl. by rewrite lookup_insert_eq. Qed.

Lemma lease_of_put_ne l a i j x : i <> j -> lease_of (put l a (lease_id i) x) (lease_id j) = lease_of l (lease_id j).
Proof. intros Hij. unfold lease_of. simpl. rewrite lookup_insert_ne; [done|]. unfold lease_id. lia. Qed.

(** One caller moves: what the step has to show. *)
Lemma ok_update c i k k' l ins pk acc :
  contest_ok c -> callers c !! i = Some k ->
  (forall j, i <> j -> lease_of l (lease_id j) = lease_of (small c) (lease_id j)) -> maximum l = kPlaces ->
  active_ l = active_ (small c) - Z.of_nat (holding k) + Z.of_nat (holding k') -> active_ l <= kPlaces ->
  ins = inside c - Z.of_nat (within k) + Z.of_nat (within k') -> pk <= kPlaces ->
  accepted c <= acc <= accepted c + Z.of_nat (attempt k' + accepted_now k') - Z.of_nat (attempt k + accepted_now k) ->
  caller_ok (set_counters c l ins pk acc) i k' ->
  (acc = 0 -> 0 < active_ l \/ active_ (small c) = 0 /\ fresh l i k') ->
  contest_ok (goto (set_counters c l ins pk acc) i k').
Proof.
  intros (Hm & Ha & Hle & Hin & Hp & Hlen & Hacc & Hk & H0) Hi Hl Hm' Ha' Hle' Hin' Hp' Hacc' Hk' H0'.
  unfold contest_ok. cbn [goto set_counters small inside peak accepted callers].
  rewrite length_insert, !(tally_insert _ _ _ _ _ Hi). split; [done|]. split; [lia|]. split; [done|]. split; [lia|].
  split; [done|]. split; [done|]. split; [lia|]. split.
  - intros j kj Hj. destruct (decide (i = j)) as [<-|Hne].
    + rewrite list_lookup_insert_eq in Hj by (by eapply lookup_lt_Some). simplify_eq. exact Hk'.
    + rewrite list_lookup_insert_ne in Hj by done. destruct (Hk j kj Hj) as (A & B & C & D & E).
      split; [unfold lease_fits in *; cbn; by rewrite Hl|]. split; [done|]. split; [done|]. split; [done|].
      intros Hn. specialize (E Hn). cbn. lia.
  - intros Hz. destruct (H0' Hz) as [?|[Hza Hf]]; [by left|]. right. intros j kj Hj. destruct (decide (i = j)) as [<-|Hne].
    + rewrite list_lookup_insert_eq in Hj by (by eapply lookup_lt_Some). by simplify_eq.
    + rewrite list_lookup_insert_ne in Hj by done. destruct H0 as [?|Hall]; [lia|lia|]. destruct (Hall j kj Hj) as (A & B & C).
      split; [done|]. split; [done|]. by rewrite Hl.
Qed.

Lemma accepted_bound c : contest_ok c -> 0 <= accepted c <= 2056.
Proof.
  intros (_ & _ & _ & _ & _ & Hlen & Hacc & Hk & _). split; [lia|]. etransitivity; [apply Hacc|].
  etransitivity; [apply (count_bound _ _ 257)|rewrite Hlen; unfold kCallers; lia]. intros i k Hi. destruct (Hk i k Hi) as (_ & _ & Ht & _).
  unfold kTries, accepted_now in *. destruct (at_ k) as [| | | | | |[]]; lia.
Qed.

Lemma inside_bound c : contest_ok c -> 0 <= inside c <= active_ (small c).
Proof.
  intros (_ & Ha & _ & Hin & _). rewrite Ha, Hin. split; [unfold count; lia|]. apply count_le.
  intros k. unfold within, holding. by destruct (at_ k) as [| | | | | |[]]; lia.
Qed.

Lemma goto_same c l ins pk acc i k :
  callers c !! i = Some k -> goto (set_counters c l ins pk acc) i k = set_counters c l ins pk acc.
Proof. intros H. unfold goto, set_counters. cbn. by rewrite list_insert_id. Qed.

Lemma set_same c : set_counters c (small c) (inside c) (peak c) (accepted c) = c.
Proof. by destruct c. Qed.

(** The counts of a caller whose place is known. *)
Ltac tally :=
  unfold holding, within, accepted_now, kPlaces in *;
  repeat match goal with H : at_ ?k = _ |- context [at_ ?k] => rewrite H end; cbn.

(** A lease under construction: a load, a place taken, or a refusal. *)
Lemma lease_step_ok c i k weak :
  contest_ok c -> callers c !! i = Some k -> at_ k = AtLease -> (attempt k < kTries)%nat -> contest_ok (caller_step c i weak).
Proof.
  intros Hok Hi Hp Ht. pose proof Hok as (Hm & Ha & Hle & Hin & Hpk & Hlen & Hacc & Hk & H0).
  destruct (Hk i k Hi) as (Hl & Hv & _ & _ & Hn). unfold lease_fits in Hl. rewrite Hp in Hl.
  assert (accepted_now k = 0%nat) as Hnow by (unfold accepted_now; by rewrite Hp).
  unfold caller_step. rewrite Hi, (proj2 (Nat.leb_gt _ _) Ht), Hp. remember (acquire_step (small c) (lease_id i) weak) as l eqn:El. cbv zeta. unfold acquire_step in El.
  assert (forall a, 0 <= active_ (small c) -> lease_of l (lease_id i) = Loaded a -> l = put (small c) (active_ (small c)) (lease_id i) (Loaded a) ->
    a = active_ (small c) -> contest_ok (set_counters c l (inside c) (peak c) (accepted c))) as Hload.
  { intros a Hpos Hla -> ->. rewrite <- (goto_same _ _ _ _ _ i k Hi). apply (ok_update _ _ k); try done; try lia.
    - intros j Hj. by rewrite lease_of_put_ne.
    - simpl. lia.
    - split; [unfold lease_fits; rewrite Hp; cbn [small set_counters]; rewrite lease_of_put; right; by eexists|].
      split; [done|]. split; [lia|]. split; [done|]. intros H. by rewrite Hnow in H.
    - intros Hz. destruct (H0 Hz) as [?|Hf]; [by left|]. destruct (Z.le_gt_cases (active_ (small c)) 0); [|by left; simpl; lia].
      right. split; [lia|]. destruct (Hf i k Hi) as (A & B & _). split; [done|]. split; [done|]. intros a. rewrite lease_of_put. intros [= <-]. lia. }
  assert (0 <= active_ (small c)) as Hpos by (rewrite Ha; unfold count; lia).
  destruct Hl as [Hl|[a Hl]].
  { rewrite Hl in El. rewrite El at 1. rewrite lease_of_put. apply (Hload (active_ (small c))); [done|rewrite El; apply lease_of_put|done|done]. }
  rewrite Hl, Hm in El. destruct (Z.ltb_spec a kPlaces).
  - destruct (negb weak && (active_ (small c) =? a)) eqn:Ec.
    + bool_to_prop. subst a l. rewrite uN_id by (unfold kPlaces in *; lia). rewrite lease_of_put. apply (ok_update _ _ k); try done; try (tally; lia).
      * intros j Hj. by rewrite lease_of_put_ne.
      * split; [unfold lease_fits; cbn; apply lease_of_put|]. split; [done|]. split; [cbn; lia|]. split; [cbn; lia|done].
    + subst l. rewrite lease_of_put. apply (Hload (active_ (small c))); [done|apply lease_of_put|done|done].
  - subst l. rewrite lease_of_put. apply (ok_update _ _ k); try done; try (tally; lia).
    + intros j Hj. by rewrite lease_of_put_ne.
    + split; [unfold lease_fits; cbn; apply lease_of_put|]. split; [done|]. split; [cbn; lia|]. split; [cbn; lia|done].
    + intros Hz. destruct (H0 Hz) as [?|Hf]; [by left|]. destruct (Hf i k Hi) as (_ & _ & Hf'). specialize (Hf' a Hl). unfold kPlaces in *. lia.
Qed.

(** A caller with a place moves on and keeps it. *)
Lemma ok_move c i k p ins pk acc :
  contest_ok c -> callers c !! i = Some k -> (attempt k < kTries)%nat -> holding k = 1%nat ->
  let k' := {| attempt := attempt k; at_ := p |} in
  holding k' = 1%nat -> lease_of (small c) (lease_id i) = Allowed -> values_fit k' ->
  ins = inside c - Z.of_nat (within k) + Z.of_nat (within k') -> pk <= kPlaces ->
  acc = accepted c + Z.of_nat (accepted_now k') - Z.of_nat (accepted_now k) -> (accepted_now k <= accepted_now k')%nat -> 
  (accepted_now k' = 1%nat -> 1 <= acc) -> contest_ok (goto (set_counters c (small c) ins pk acc) i k').
Proof.
  intros Hok Hi Ht Hh k' Hh' Hl Hv Hin Hpk Hacc Hle Hn. pose proof Hok as (Hm & Ha & Hb & _ & _ & _ & _ & _ & _).
  apply (ok_update _ _ k); try done; try (subst k'; cbn in *; lia).
  - split; [|split; [done|split; [subst k'; cbn; lia|split; [subst k'; cbn; lia|done]]]].
    unfold lease_fits, holding in *. subst k'. cbn in *. by destruct p as [| | | | | |[]].
  - intros _. left. pose proof (count_elem holding _ _ _ Hi). lia.
Qed.

(** The steps between the two ends of a lease. *)
Lemma body_step_ok c i k weak :
  contest_ok c -> callers c !! i = Some k -> at_ k <> AtLease -> (forall b, at_ k <> AtRelease b) -> (attempt k < kTries)%nat ->
  contest_ok (caller_step c i weak).
Proof.
  intros Hok Hi Hp Hr Ht. pose proof (accepted_bound c Hok) as Hab. pose proof (inside_bound c Hok) as Hib.
  pose proof Hok as (_ & Ha & Hle & Hin & Hpk & _ & _ & Hk & _). destruct (Hk i k Hi) as (Hl & Hv & _ & _ & Hn).
  pose proof (count_elem within _ _ _ Hi) as Hw. pose proof (count_elem holding _ _ _ Hi) as Hh.
  assert (within k = 0%nat -> holding k = 1%nat -> inside c + 1 <= active_ (small c)) as Hroom.
  { intros H0 H1. rewrite Hin, Ha. pose proof (tally_insert within _ _ _ {| attempt := 0; at_ := AtLeave |} Hi) as E1.
    pose proof (tally_insert holding _ _ _ {| attempt := 0; at_ := AtLeave |} Hi) as E2. rewrite H0 in E1. rewrite H1 in E2.
    pose proof (count_le within holding (<[i := {| attempt := 0; at_ := AtLeave |}]> (callers c))) as Hc. cbn in E1, E2.
    assert (forall k, (within k <= holding k)%nat) as Hwh by (intros k0; unfold within, holding; destruct (at_ k0) as [| | | | | |[]]; lia).
    specialize (Hc Hwh). lia. }
  assert (holding k = 1%nat /\ lease_of (small c) (lease_id i) = Allowed /\ (at_ k <> AtAccepted -> 1 <= accepted c)) as (Hk1 & Hal & Hac).
  { unfold holding, lease_fits, accepted_now in *. destruct (at_ k) as [| | | | | |b]; try (split_and!; [done..|]; intros; by apply Hn). by destruct (Hr b). }
  unfold caller_step. rewrite Hi, (proj2 (Nat.leb_gt _ _) Ht). cbv zeta. unfold values_fit in Hv.
  destruct (at_ k) as [| | |active|active old| |b] eqn:Ek; [done|..|by destruct (Hr b)].
  - rewrite uN_id by lia. apply (ok_move _ _ k); try done; tally; lia.
  - assert (inside c + 1 <= kPlaces) as Hi2 by (assert (within k = 0%nat) by (unfold within; by rewrite Ek); lia).
    rewrite uN_id by (unfold kPlaces in *; lia). specialize (Hac ltac:(done)). apply (ok_move _ _ k); try done; tally; lia.
  - specialize (Hac ltac:(done)).
    rewrite <- (set_same c) at 1. apply (ok_move _ _ k); try done; tally; lia.
  - specialize (Hac ltac:(done)).
    destruct (old <? active); [destruct (_ && _)|].
    + apply (ok_move _ _ k); try done; tally; lia.
    + rewrite <- (set_same c) at 1. apply (ok_move _ _ k); try done; tally; lia.
    + rewrite <- (set_same c) at 1. apply (ok_move _ _ k); try done; tally; lia.
  - specialize (Hac ltac:(done)).
    assert (1 <= inside c) as H1 by (unfold within in Hw at 1; rewrite Ek in Hw; lia).
    rewrite uN_id by (unfold kPlaces in *; lia). apply (ok_move _ _ k); try done; tally; lia.
Qed.

(** The lease ends with the attempt. *)
Lemma release_ok c i k b weak :
  contest_ok c -> callers c !! i = Some k -> at_ k = AtRelease b -> (attempt k < kTries)%nat -> contest_ok (caller_step c i weak).
Proof.
  intros Hok Hi Hp Ht. pose proof Hok as (Hm & Ha & Hle & Hin & Hpk & _ & Hac & Hk & H0).
  destruct (Hk i k Hi) as (Hl & Hv & _ & _ & Hn). pose proof (count_elem holding _ _ _ Hi) as Hh.
  unfold caller_step. rewrite Hi, (proj2 (Nat.leb_gt _ _) Ht), Hp. unfold release_step, lease_fits in *. rewrite Hp in Hl.
  assert (forall a, caller_ok (set_counters c (put (small c) a (lease_id i) Absent) (inside c) (peak c) (accepted c)) i {| attempt := S (attempt k); at_ := AtLease |}) as Hnew.
  { intros a. split; [left; apply lease_of_put|]. split; [done|]. split; [cbn; lia|done]. }
  destruct b; rewrite Hl.
  - assert (1 <= accepted c) by (apply Hn; unfold accepted_now; by rewrite Hp).
    assert (holding k = 1%nat) as Hk1 by (unfold holding; by rewrite Hp). rewrite uN_id by (unfold kPlaces in *; lia).
    apply (ok_update _ _ k); try done; try (intros j Hj; by rewrite lease_of_put_ne); tally; lia.
  - apply (ok_update _ _ k); try done; try (intros j Hj; by rewrite lease_of_put_ne); try (tally; lia).
    intros Hz. destruct (H0 Hz) as [?|Hf]; [by left|]. destruct (Hf i k Hi) as (_ & Hf' & _). congruence.
Qed.

Lemma caller_step_ok c i weak : contest_ok c -> contest_ok (caller_step c i weak).
Proof.
  intros Hok. destruct (callers c !! i) as [k|] eqn:Hi; [|unfold caller_step; by rewrite Hi].
  destruct (Nat.le_gt_cases kTries (attempt k)) as [Hge|Hlt].
  { unfold caller_step. by rewrite Hi, (proj2 (Nat.leb_le _ _) Hge). }
  destruct (at_ k) as [| | | | | |b] eqn:Ek; [by eapply lease_step_ok| | | | | |by eapply release_ok];
    (eapply body_step_ok; [done..| | |]; [congruence|congruence|done]).
Qed.

Lemma start_ok : contest_ok contest_start.
Proof.
  unfold contest_start. split_and!; try (by vm_compute).
  - intros i k Hi. apply lookup_replicate in Hi as [-> _]. split; [left; done|]. split; [done|]. split; [cbn; unfold kTries; lia|done].
  - intros _. right. intros i k Hi. apply lookup_replicate in Hi as [-> _]. split; [done|]. split; [done|]. by intros a.
Qed.

Lemma contend_ok steps c : contest_ok c -> contest_ok (contend steps c).
Proof. unfold contend. revert c. induction steps as [|[i weak] steps IH]; intros c Hc; [done|]. apply IH. by apply caller_step_ok. Qed.

(** Whatever the scheduler does and whichever exchanges fail spuriously, no more
    callers than places are ever counted inside, and when all have made their
    attempts the test passes: some were accepted, nobody is inside and every
    place was given back. *)
Theorem contention_test_passes steps :
  let c := contend steps contest_start in
  inside c <= kPlaces /\ peak c <= kPlaces /\ (joined c = true -> contest_verdict c = 0).
Proof.
  intros c. assert (contest_ok c) as Hok by apply contend_ok, start_ok. pose proof (inside_bound c Hok) as Hib.
  destruct Hok as (_ & Ha & Hle & Hin & Hpk & Hlen & Hac & Hk & H0). split; [lia|]. split; [done|].
  intros Hj. unfold joined in Hj. rewrite forallb_forall in Hj.
  assert (forall i k, callers c !! i = Some k -> attempt k = kTries /\ at_ k = AtLease) as Hend.
  { intros i k Hi. destruct (Hk i k Hi) as (_ & _ & Ht & Hl & _).
    assert (kTries <= attempt k)%nat by (apply Nat.leb_le, Hj; by eapply list_elem_of_In, list_elem_of_lookup_2). split; [lia|apply Hl; lia]. }
  assert (active_ (small c) = 0) as Hz.
  { enough (active_ (small c) <= Z.of_nat (0 * length (callers c))) by lia. rewrite Ha. apply count_bound.
    intros i k Hi. destruct (Hend i k Hi) as [_ E]. unfold holding. rewrite E. lia. }
  assert (accepted c <> 0) as Hne.
  { intros E. destruct (H0 E) as [?|Hf]; [lia|]. destruct (lookup_lt_is_Some_2 (callers c) 0) as [k Hi]; [rewrite Hlen; unfold kCallers; lia|].
    destruct (Hf _ _ Hi) as [E1 _]. destruct (Hend _ _ Hi) as [E2 _]. unfold kTries in E2. lia. }
  unfold contest_verdict. rewrite (proj2 (Z.eqb_neq _ _) Hne), (proj2 (Z.leb_le _ _) Hpk), Hz. cbn [negb andb].
  by rewrite (proj2 (Z.eqb_eq (inside c) 0)) by lia.
Qed.

(** One thread after the other, and all in turns, with every third exchange
    failing. *)
Definition one_by_one : list (nat * bool) := concat (map (fun i => replicate (256 * 9) (i, false)) (seq 0 kCallers)).
Definition in_turns : list (nat * bool) :=
  concat (map (fun n => map (fun i => (i, (n mod 3 =? 0)%nat)) (seq 0 kCallers)) (seq 0 (256 * 9))).

Example both_join :
  joined (contend one_by_one contest_start) = true /\ joined (contend in_turns contest_start) = true /\
  accepted (contend one_by_one contest_start) = 2048 /\ (accepted (contend in_turns contest_start) <? 2048) = true.
Proof. split_and!; by vm_compute. Qed.
