(* ===== verification/Upstream.v ===== *)
(** * Upstream: framed socket I/O and exchanges with resolvers

    Models [src/src/native/dns-sockets.h] (partial sends and receives against
    one deadline), the exchanges of [dns-wire.h], and the resolver preference and
    the time budget of direct exchanges of [dns-dispatcher.cpp].  The operating
    system's answers to each socket call are a list of outcomes; the list ends
    when the deadline passes. *)
From S2P Require Import Prelude DnsWire.

(** ** Sending one frame *)

(** What one [WSASend] reported. *)
Inductive send_result := SendBlocked | SendFailed | Sent (n : nat).

(** The two buffers after [sent] bytes were taken: [first] advances over the
    buffers that are done, and the next one is shortened. *)
Fixpoint advance (buffers : list (list Z)) (sent : nat) : list (list Z) :=
  match buffers with
  | [] => []
  | b :: rest => if (length b <=? sent)%nat then advance rest (sent - length b) else drop sent b :: rest
  end.

(** The loop: its result and the bytes put on the wire. *)
Fixpoint send_loop (buffers : list (list Z)) (outcomes : list send_result) (wire : list Z) : bool * list Z :=
  match buffers with
  | [] => (true, wire)
  | _ =>
      match outcomes with
      | [] => (false, wire)
      | SendBlocked :: outcomes => send_loop buffers outcomes wire
      | SendFailed :: _ => (false, wire)
      | Sent O :: _ => (false, wire)
      | Sent n :: outcomes => send_loop (advance buffers n) outcomes (wire ++ take n (concat buffers))
      end
  end.

Definition htons (n : Z) : list Z := [Z.land (Z.shiftr n 8) 255; Z.land n 255].

Definition sendDnsFrame (p : packet) (outcomes : list send_result) : bool * list Z :=
  if (length p =? 0)%nat || (65535 <? Z.of_nat (length p)) then (false, [])
  else send_loop [htons (Z.of_nat (length p)); p] outcomes [].

(** ** Receiving exactly so many bytes *)

Inductive recv_result := RecvBlocked | RecvFailed | Received (bytes : list Z).

(** [recv] never returns more than it was asked for. *)
Fixpoint receive_loop (outcomes : list recv_result) (size : nat) (data : list Z) : option (list Z * list recv_result) :=
  if (size <=? length data)%nat then Some (data, outcomes)
  else match outcomes with
       | [] => None
       | RecvBlocked :: rest => receive_loop rest size data
       | RecvFailed :: _ | Received [] :: _ => None
       | Received bytes :: rest => receive_loop rest size (data ++ take (size - length data) bytes)
       end.

Definition receiveAll (outcomes : list recv_result) (size : nat) : option (list Z * list recv_result) :=
  receive_loop outcomes size [].

(** ** Exchanges *)

(** [if (zeroResponseTtls(response)) result = std::move(response);] *)
Definition zeroed (response : packet) : option (option packet) :=
  match zeroResponseTtls response with
  | Some (ok, response) => Some (if ok then Some response else None)
  | None => None
  end.

(** The receive loop of [udpExchange]: mismatched datagrams are skipped, the
    first matching one decides. *)
Fixpoint udp_receive (query : packet) (outcomes : list recv_result) : option (option packet) :=
  match outcomes with
  | [] => Some None
  | RecvBlocked :: rest => udp_receive query rest
  | RecvFailed :: _ | Received [] :: _ => Some None
  | Received response :: rest =>
      matches ← matchingResponse query response;
      if negb matches then udp_receive query rest else zeroed response
  end.

(** [ready]: the socket could be created, bound, connected and the query sent
    whole. *)
Definition udpExchange (query : packet) (ready : bool) (outcomes : list recv_result) : option (option packet) :=
  if negb ready then Some None else udp_receive query outcomes.

Definition tcpExchange (query : packet) (ready : bool) (sends : list send_result) (outcomes : list recv_result)
  : option (option packet) :=
  if negb ready || negb (sendDnsFrame query sends).1 then Some None
  else match receiveAll outcomes 2 with
       | None => Some None
       | Some (header, outcomes) =>
           n ← read16 header 0;
           let size := Z.to_nat n in
           if (size =? 0)%nat then Some None
           else match receiveAll outcomes size with
                | None => Some None
                | Some (response, _) =>
                    matches ← matchingResponse query response;
                    if negb matches then Some None else zeroed response
                end
       end.

(** ** Frames: lemmas and theorem *)

Lemma concat_advance buffers sent :
  (sent <= length (concat buffers))%nat -> concat (advance buffers sent) = drop sent (concat buffers).
Proof.
  revert sent. induction buffers as [|b rest IH]; intros sent Hs; simpl in *; [by rewrite drop_nil|].
  rewrite length_app in Hs. destruct (length b <=? sent)%nat eqn:E; bool_to_prop.
  - rewrite IH by lia. by rewrite drop_app_ge by lia.
  - simpl. by rewrite drop_app_le by lia.
Qed.

(** No buffer left of the list is empty, so an empty list means all was sent. *)
Lemma advance_nil buffers sent :
  (sent <= length (concat buffers))%nat -> advance buffers sent = [] -> drop sent (concat buffers) = [].
Proof. intros Hs H. rewrite <- concat_advance by done. by rewrite H. Qed.

(** Reported counts are at most what was offered. *)
Fixpoint sends_ok (buffers : list (list Z)) (outcomes : list send_result) : Prop :=
  match outcomes with
  | [] => True
  | Sent n :: rest => (n <= length (concat buffers))%nat /\ sends_ok (advance buffers n) rest
  | _ :: rest => sends_ok buffers rest
  end.

Lemma send_loop_spec buffers outcomes wire :
  sends_ok buffers outcomes ->
  exists k, (k <= length (concat buffers))%nat /\ (send_loop buffers outcomes wire).2 = wire ++ take k (concat buffers) /\
    ((send_loop buffers outcomes wire).1 = true -> (send_loop buffers outcomes wire).2 = wire ++ concat buffers).
Proof.
  revert buffers wire. induction outcomes as [|o outcomes IH]; intros buffers wire Hok.
  - destruct buffers as [|b rest]; simpl; exists 0%nat; rewrite ?app_nil_r; (split; [lia|]); done.
  - destruct buffers as [|b rest]; [exists 0%nat; simpl; rewrite !app_nil_r; split; [lia|done]|].
    set (buffers := b :: rest) in *.
    destruct o as [| |[|n]].
    + by apply IH.
    + exists 0%nat. rewrite take_0, app_nil_r. split; [lia|done].
    + exists 0%nat. rewrite take_0, app_nil_r. split; [lia|done].
    + change (send_loop buffers (Sent (S n) :: outcomes) wire)
        with (send_loop (advance buffers (S n)) outcomes (wire ++ take (S n) (concat buffers))).
      destruct Hok as [Hn Hok]. destruct (IH (advance buffers (S n)) (wire ++ take (S n) (concat buffers)) Hok) as (k & Hk & Hw & Ht).
      rewrite concat_advance in Hk, Hw, Ht by done. rewrite length_drop in Hk. exists (S n + k)%nat. split; [lia|].
      rewrite <- !app_assoc in Hw, Ht. rewrite take_drop in Ht. split; [|done]. rewrite Hw. f_equal.
      by rewrite take_take_drop.
Qed.

(** Whatever partial writes the socket makes, what is on the wire is a
    prefix of the length-prefixed packet, and a successful send put exactly the
    two-byte length and the packet on it. *)
Theorem sendDnsFrame_exact p outcomes :
  sends_ok [htons (Z.of_nat (length p)); p] outcomes ->
  (exists k, (sendDnsFrame p outcomes).2 = take k (htons (Z.of_nat (length p)) ++ p)) /\
  ((sendDnsFrame p outcomes).1 = true -> (sendDnsFrame p outcomes).2 = htons (Z.of_nat (length p)) ++ p).
Proof.
  intros Hok. unfold sendDnsFrame. destruct (_ || _); [split; [by exists 0%nat|done]|].
  destruct (send_loop_spec _ _ [] Hok) as (k & _ & Hw & Ht). simpl in Hw, Ht. rewrite app_nil_r in *.
  split; [by exists k|done].
Qed.

Lemma sendDnsFrame_exact_witness :
  (exists k, (sendDnsFrame [1; 2; 3] [Sent 1; SendBlocked; Sent 3; Sent 1]).2 = take k ([0; 3] ++ [1; 2; 3])) /\
  ((sendDnsFrame [1; 2; 3] [Sent 1; SendBlocked; Sent 3; Sent 1]).1 = true ->
   (sendDnsFrame [1; 2; 3] [Sent 1; SendBlocked; Sent 3; Sent 1]).2 = [0; 3] ++ [1; 2; 3]).
Proof. apply (sendDnsFrame_exact [1; 2; 3]). simpl. lia. Defined.

(** A complete receive has exactly the size asked for. *)
Lemma receive_loop_length outcomes size data r rest :
  (length data <= size)%nat -> receive_loop outcomes size data = Some (r, rest) -> length r = size.
Proof.
  revert data. induction outcomes as [|o outcomes IH]; intros data Hd; simpl;
    destruct (size <=? length data)%nat eqn:E; bool_to_prop; try (intros [= <- <-]; lia).
  destruct o as [| |[|b bytes]]; try done; [by apply IH|]. apply IH.
  rewrite length_app, length_take. lia.
Qed.

(** An accepted answer: matching the query's identifier and marked a response,
    with every TTL zero. *)
Definition acceptable (query response : packet) : Prop :=
  exists raw offs, matchingResponse query raw = Some true /\ answer_records raw = Some offs /\
    ttls_zeroed offs raw response.

Lemma zeroed_acceptable query raw :
  matchingResponse query raw = Some true ->
  exists r, zeroed raw = Some r /\ forall p, r = Some p -> acceptable query p.
Proof.
  intros Hm. unfold zeroed. pose proof (zeroResponseTtls_exact raw) as H.
  destruct (answer_records raw) as [offs|] eqn:E; destruct H as (p' & -> & H); [|by eexists].
  destruct H as [H _]. eexists. split; [done|]. intros p [= <-]. by exists raw, offs.
Qed.

Lemma matchingResponse_total query raw : exists b, matchingResponse query raw = Some b.
Proof.
  unfold matchingResponse. destruct (_ && _) eqn:E; [|by eexists]. bool_to_prop.
  destruct (lookup_lt_is_Some_2 query 0) as [q0 ->]; [lia|]. destruct (lookup_lt_is_Some_2 query 1) as [q1 ->]; [lia|].
  destruct (lookup_lt_is_Some_2 raw 0) as [r0 ->]; [lia|]. destruct (lookup_lt_is_Some_2 raw 1) as [r1 ->]; [lia|].
  destruct (lookup_lt_is_Some_2 raw 2) as [r2 ->]; [lia|]. by eexists.
Qed.

Lemma udp_receive_acceptable query outcomes :
  exists r, udp_receive query outcomes = Some r /\ forall p, r = Some p -> acceptable query p.
Proof.
  induction outcomes as [|[| |[|b bytes]] outcomes IH]; simpl; try (by eexists); [done|].
  destruct (matchingResponse_total query (b :: bytes)) as [m Hm]. rewrite Hm. simpl.
  destruct m; simpl; [by apply zeroed_acceptable|done].
Qed.

Lemma udpExchange_acceptable query ready outcomes :
  exists r, udpExchange query ready outcomes = Some r /\ forall p, r = Some p -> acceptable query p.
Proof. unfold udpExchange. destruct (negb ready); [by eexists|]. apply udp_receive_acceptable. Qed.

Lemma tcpExchange_acceptable query ready sends outcomes :
  exists r, tcpExchange query ready sends outcomes = Some r /\ forall p, r = Some p -> acceptable query p.
Proof.
  unfold tcpExchange. destruct (_ || _); [by eexists|].
  destruct (receiveAll outcomes 2) as [[header rest]|] eqn:E; [|by eexists].
  apply receive_loop_length in E; [|simpl; lia].
  destruct (read16_in header 0) as [n ->]; [lia|]. simpl. destruct (_ =? 0)%nat; [by eexists|].
  destruct (receiveAll rest (Z.to_nat n)) as [[response rest']|]; [|by eexists].
  destruct (matchingResponse_total query response) as [m Hm]. rewrite Hm. simpl.
  destruct m; simpl; [by apply zeroed_acceptable|by eexists].
Qed.

(** An upstream exchange, over UDP or TCP, never reads out of bounds and
    yields only answers that match the query's identifier, are marked as
    responses and have every TTL zeroed; stale and mismatched datagrams,
    truncated streams and malformed answers yield nothing. *)
Theorem exchange_answers_acceptable query ready sends outcomes :
  (exists r, udpExchange query ready outcomes = Some r /\ forall p, r = Some p -> acceptable query p) /\
  (exists r, tcpExchange query ready sends outcomes = Some r /\ forall p, r = Some p -> acceptable query p).
Proof. split; [apply udpExchange_acceptable|apply tcpExchange_acceptable]. Qed.

(** ** Which resolver is asked first *)

Module DirectResolvers.
Definition ms (n : Z) : Z := n * 1000000.

Record state := { preferFor : Z; preferred : nat; probePrimaryAt : Z }.

Definition new : state := {| preferFor := ms 60000; preferred := 0; probePrimaryAt := 0 |}.

Definition order (s : state) (now : Z) (count : nat) : list nat :=
  let first := if (now <? probePrimaryAt s) && (preferred s <? count)%nat then preferred s else 0%nat in
  first :: filter (fun i => i <> first) (seq 0 count).

Definition answered (s : state) (now : Z) (index : nat) (primaryFailed : bool) : state :=
  {| preferFor := preferFor s; preferred := index;
     probePrimaryAt := if (index =? 0)%nat then 0
                       else if primaryFailed then now + preferFor s else probePrimaryAt s |}.

Definition reset (s : state) : state := {| preferFor := preferFor s; preferred := 0; probePrimaryAt := 0 |}.

(** ** One query over every resolver *)

Definition kDirectBudgetMilliseconds : Z := 4000.
Definition kPerResolverMilliseconds : Z := 1200.

(** [duration_cast] truncates towards zero. *)
Definition remainingMilliseconds (deadline now : Z) : Z := Z.max 0 (Z.quot (deadline - now) (ms 1)).

Definition attempt_timeout (share : bool) (remaining : Z) (left : nat) : Z :=
  if (left =? 1)%nat then remaining
  else if share then Z.max 1 (remaining / Z.of_nat left)
  else Z.min remaining kPerResolverMilliseconds.

Section Exchange.
(** [exchange index timeout now]: the answer and how long it took. *)
Variable exchange : nat -> Z -> Z -> option packet * Z.

(** The loop over the order: the answer with who gave it and whether the primary
    failed, the time it ends, and the attempts made. *)
Fixpoint ask (order : list nat) (deadline now : Z) (share primaryFailed : bool)
  : option (packet * nat * bool) * Z * list (nat * Z) :=
  match order with
  | [] => (None, now, [])
  | index :: rest =>
      let remaining := remainingMilliseconds deadline now in
      if remaining =? 0 then (None, now, [])
      else
        let timeout := attempt_timeout share remaining (length order) in
        let '(response, elapsed) := exchange index timeout now in
        match response with
        | Some p => (Some (p, index, primaryFailed), now + elapsed, [(index, timeout)])
        | None =>
            let '(r, t, log) := ask rest deadline (now + elapsed) share (primaryFailed || (index =? 0)%nat) in
            (r, t, (index, timeout) :: log)
        end
  end.

Definition directExchange (s : state) (count : nat) (deadline now : Z) (share : bool)
  : option (packet * nat) * state * Z * list (nat * Z) :=
  let '(r, t, log) := ask (order s now count) deadline now share false in
  match r with
  | Some (p, index, primaryFailed) => (Some (p, index), answered s t index primaryFailed, t, log)
  | None => (None, s, t, log)
  end.

(** An exchange ends within its timeout. *)
Hypothesis exchange_in_time : forall index timeout now,
  0 <= timeout -> 0 <= (exchange index timeout now).2 <= ms timeout.

Lemma remaining_bound deadline now :
  0 <= remainingMilliseconds deadline now /\
  (0 < remainingMilliseconds deadline now -> now + ms (remainingMilliseconds deadline now) <= deadline).
Proof.
  unfold remainingMilliseconds, ms. change (1 * 1000000) with 1000000. split; [lia|]. intros H.
  assert (0 <= deadline - now).
  { destruct (Z.le_gt_cases 0 (deadline - now)); [done|]. exfalso.
    assert (Z.quot (deadline - now) 1000000 <= 0); [|lia].
    replace (deadline - now) with (- (now - deadline)) by lia. rewrite Z.quot_opp_l by lia.
    pose proof (Z.quot_pos (now - deadline) 1000000). lia. }
  rewrite Z.quot_div_nonneg in * by lia. pose proof (Z.mul_div_le (deadline - now) 1000000). lia.
Qed.

Lemma attempt_timeout_bound share remaining left :
  (0 < left)%nat -> 0 < remaining -> 0 < attempt_timeout share remaining left <= remaining.
Proof.
  intros Hl Hr. unfold attempt_timeout, kPerResolverMilliseconds. destruct (left =? 1)%nat; [lia|].
  destruct share; [|lia]. assert (remaining / Z.of_nat left <= remaining); [|lia].
  apply Z.div_le_upper_bound; [lia|]. nia.
Qed.

(** Whatever the resolvers do, the search ends by its deadline and asks each
    resolver of the order at most once, in order. *)
Lemma ask_bounds order deadline now share pf :
  let '(r, t, log) := ask order deadline now share pf in
  (now <= deadline -> t <= deadline) /\ now <= t /\ (exists k, map fst log = take k order) /\
  Forall (fun a => 0 < a.2) log /\
  (forall p index f, r = Some (p, index, f) -> index ∈ order).
Proof.
  revert now pf. induction order as [|index rest IH]; intros now pf; cbn [ask].
  { split; [done|]. split; [lia|]. split; [by exists 0%nat|]. split; [constructor|]. done. }
  destruct (remaining_bound deadline now) as [H0 Hrem].
  destruct (_ =? 0) eqn:E; bool_to_prop.
  { split; [done|]. split; [lia|]. split; [by exists 0%nat|]. split; [constructor|]. done. }
  set (timeout := attempt_timeout _ _ _).
  assert (0 < timeout <= remainingMilliseconds deadline now) as Htm
    by (apply attempt_timeout_bound; [simpl; lia|lia]).
  pose proof (exchange_in_time index timeout now ltac:(lia)) as Hx.
  destruct (exchange index timeout now) as [response elapsed]. simpl in Hx. unfold ms in *.
  assert (now + elapsed <= deadline) by (specialize (Hrem ltac:(lia)); lia).
  destruct response as [p|].
  - split; [lia|]. split; [lia|]. split; [by exists 1%nat|]. split; [constructor; [simpl; lia|constructor]|].
    intros ? ? ? [= _ <- _]. apply elem_of_cons. by left.
  - specialize (IH (now + elapsed) (pf || (index =? 0)%nat)). destruct (ask rest _ _ _ _) as [[r t] log].
    destruct IH as (H1 & H2 & (k & Hk) & Hf & Hin). split; [auto|]. split; [lia|].
    split; [exists (S k); simpl; by rewrite Hk|]. split; [constructor; [simpl; lia|done]|].
    intros p i f Hr. apply elem_of_cons. right. eauto.
Qed.

(** An answer is the answer of one exchange. *)
Lemma ask_answer order deadline now share pf p index f :
  (ask order deadline now share pf).1.1 = Some (p, index, f) -> exists timeout t, (exchange index timeout t).1 = Some p.
Proof.
  revert now pf. induction order as [|i rest IH]; intros now pf; cbn [ask]; [done|].
  destruct (_ =? 0); [done|]. set (timeout := attempt_timeout _ _ _).
  destruct (exchange i timeout now) as [[r|] elapsed] eqn:Ex; simpl.
  - intros [= <- <- <-]. exists timeout, now. by rewrite Ex.
  - specialize (IH (now + elapsed) (pf || (i =? 0)%nat)). destruct (ask rest _ _ _ _) as [[r t] log]. apply IH.
Qed.

Lemma order_perm s now count : (0 < count)%nat -> order s now count ≡ₚ seq 0 count.
Proof.
  intros Hc. unfold order. set (first := if _ && _ then _ else _).
  assert (first < count)%nat as Hf by (unfold first; destruct (_ && _) eqn:E; bool_to_prop; lia).
  symmetry. apply NoDup_Permutation; [apply NoDup_seq| |].
  - constructor; [|apply list.NoDup_filter, NoDup_seq]. intros Hin. by apply list_elem_of_filter in Hin as [? _].
  - intros x. rewrite elem_of_cons, list_elem_of_filter, elem_of_seq. destruct (decide (x = first)); naive_solver lia.
Qed.

(** Enough budget for a turn of every resolver: an unanswered search asked them
    all. *)
Lemma ask_all order deadline now pf :
  now + ms (kPerResolverMilliseconds * (Z.of_nat (length order) - 1) + 1) <= deadline ->
  let '(r, _, log) := ask order deadline now false pf in r = None -> map fst log = order.
Proof.
  revert now pf. induction order as [|index rest IH]; intros now pf Hb; cbn [ask]; [done|].
  unfold kPerResolverMilliseconds, ms in *. cbn [length] in Hb.
  assert (1 <= remainingMilliseconds deadline now) as Hrem.
  { unfold remainingMilliseconds, ms. rewrite Z.quot_div_nonneg by lia.
    assert (1 <= (deadline - now) / (1 * 1000000)); [|lia]. apply Z.div_le_lower_bound; lia. }
  destruct (_ =? 0) eqn:E; bool_to_prop; [lia|].
  set (timeout := attempt_timeout _ _ _).
  pose proof (attempt_timeout_bound false (remainingMilliseconds deadline now) (length (index :: rest)) ltac:(simpl; lia) ltac:(lia)) as Htm.
  fold timeout in Htm. pose proof (exchange_in_time index timeout now ltac:(lia)) as Hx.
  destruct (exchange index timeout now) as [response elapsed]. simpl in Hx. destruct response as [p|]; [done|].
  specialize (IH (now + elapsed) (pf || (index =? 0)%nat)).
  destruct (ask rest _ _ _ _) as [[r t] log] eqn:Ea. intros ->. simpl. f_equal.
  destruct rest as [|i2 rest]; [simpl in Ea; by injection Ea as <- <-|]. apply IH; [|done].
  assert (timeout <= 1200) by (unfold timeout, attempt_timeout, kPerResolverMilliseconds; simpl; lia).
  cbn [length] in *. lia.
Qed.

(** The search as its callers see it. *)
Lemma directExchange_spec s count deadline now share :
  (0 < count)%nat ->
  let '(r, _, t, log) := directExchange s count deadline now share in
  now <= t /\ (now <= deadline -> t <= deadline) /\ Forall (fun a => (a.1 < count)%nat) log /\
  (forall p index, r = Some (p, index) -> (index < count)%nat /\ exists timeout t, (exchange index timeout t).1 = Some p).
Proof.
  intros Hc. unfold directExchange. pose proof (order_perm s now count Hc) as Hperm.
  pose proof (ask_bounds (order s now count) deadline now share false) as Hb.
  pose proof (ask_answer (order s now count) deadline now share false) as Ha.
  assert (forall i, i ∈ order s now count -> (i < count)%nat) as Hlt.
  { intros i Hi. rewrite Hperm in Hi. apply elem_of_seq in Hi. lia. }
  destruct (ask _ _ _ _ _) as [[r t] log]. destruct Hb as (H1 & H2 & (k & Hk) & _ & Hin).
  assert (Forall (fun a => (a.1 < count)%nat) log) as Hf.
  { apply list.Forall_forall. intros a Hlog. apply Hlt. apply (list_elem_of_fmap_2 fst) in Hlog.
    change (fst <$> log) with (map fst log) in Hlog. rewrite Hk in Hlog. by eapply elem_of_take in Hlog as (? & ? & _); apply list_elem_of_lookup_2 in H. }
  destruct r as [[[p index] pf]|]; (split; [done|]); (split; [done|]); (split; [done|]); [|done].
  intros p' i [= -> ->]. split; [apply Hlt; by eapply Hin|by eapply Ha].
Qed.

(** A direct query over one to three resolvers within the usual budget
    ends by its deadline, asks no resolver twice and, when none answers, has
    asked every one of them. *)
Theorem directExchange_complete s count now :
  (1 <= count <= 3)%nat ->
  let '(r, _, t, log) := directExchange s count (now + ms kDirectBudgetMilliseconds) now false in
  t <= now + ms kDirectBudgetMilliseconds /\ NoDup (map fst log) /\
  (r = None -> map fst log ≡ₚ seq 0 count) /\
  (forall p index, r = Some (p, index) -> (index < count)%nat).
Proof.
  intros Hc. unfold directExchange. pose proof (order_perm s now count ltac:(lia)) as Hperm.
  pose proof (ask_bounds (order s now count) (now + ms kDirectBudgetMilliseconds) now false false) as Hb.
  pose proof (ask_all (order s now count) (now + ms kDirectBudgetMilliseconds) now false) as Ha.
  assert (length (order s now count) = count) as Hlen by (rewrite Hperm; apply length_seq).
  destruct (ask _ _ _ _ _) as [[r t] log]. destruct Hb as (H1 & _ & (k & Hk) & _ & Hin).
  assert (t <= now + ms kDirectBudgetMilliseconds) by (apply H1; unfold ms, kDirectBudgetMilliseconds; lia).
  assert (NoDup (map fst log)) as Hnd.
  { rewrite Hk. assert (NoDup (order s now count)) as Ho by (rewrite Hperm; apply NoDup_seq).
    rewrite <- (take_drop k (order s now count)) in Ho. by apply list.NoDup_app in Ho as (? & _). }
  specialize (Ha ltac:(rewrite Hlen; unfold ms, kPerResolverMilliseconds, kDirectBudgetMilliseconds; lia)).
  destruct r as [[[p index] pf]|]; simpl.
  - split; [done|]. split; [done|]. split; [done|]. intros p' i [= -> ->].
    assert (i ∈ seq 0 count) as Hi by (rewrite <- Hperm; eauto). apply elem_of_seq in Hi. lia.
  - split; [done|]. split; [done|]. split; [by intros _; rewrite Ha|done].
Qed.
End Exchange.

(** ** The primary is tried again *)

(** A call of [answered]: when, who, and whether the primary had failed. *)
Definition report (s : state) (c : Z * nat * bool) : state := answered s c.1.1 c.1.2 c.2.

(** Answers from a stand-in never postpone the primary: after any number
    of reports without a failed probe of the primary, from its re-probe time on
    the first-listed resolver is asked first again. *)
Theorem primary_reprobed s reports now count :
  Forall (fun c => c.2 = false) reports -> probePrimaryAt s <= now -> 0 <= now ->
  head (order (foldl report s reports) now count) = Some 0%nat.
Proof.
  intros Hf Hp Hn. assert (probePrimaryAt (foldl report s reports) <= now) as H.
  { revert s Hp. induction Hf as [|[[t i] b] reports Hb Hf IH]; intros s Hp; simpl; [done|]. apply IH.
    simpl in Hb. subst b. simpl. destruct (i =? 0)%nat; lia. }
  unfold order. by rewrite (proj2 (Z.ltb_ge now _)) by done.
Qed.
End DirectResolvers.

Lemma directExchange_complete_witness :
  let '(r, _, t, log) := DirectResolvers.directExchange (fun _ timeout _ => (None, DirectResolvers.ms timeout)) DirectResolvers.new 3
                           (5 + DirectResolvers.ms DirectResolvers.kDirectBudgetMilliseconds) 5 false in
  t <= 5 + DirectResolvers.ms DirectResolvers.kDirectBudgetMilliseconds /\ NoDup (map fst log) /\
  (r = None -> map fst log ≡ₚ seq 0 3) /\ (forall p index, r = Some (p, index) -> (index < 3)%nat).
Proof.
  apply (DirectResolvers.directExchange_complete (fun _ timeout _ => (None, DirectResolvers.ms timeout))).
  - intros index timeout now H. simpl. unfold DirectResolvers.ms. lia.
  - lia.
Defined.

Lemma primary_reprobed_witness :
  head (DirectResolvers.order (foldl DirectResolvers.report {| DirectResolvers.preferFor := 60; DirectResolvers.preferred := 1; DirectResolvers.probePrimaryAt := 100 |}
    [(70, 1%nat, false); (99, 2%nat, false)]) 100 3) = Some 0%nat.
Proof.
  apply DirectResolvers.primary_reprobed.
  - by repeat constructor.
  - simpl. lia.
  - lia.
Defined.
