(* ===== verification/DnsProbe.v ===== *)
(** * DnsProbe: asking one resolver whether it answers

    Models [src/src/native/dns-probe.cpp]: the query it encodes, what it accepts
    as the reply, one exchange over the socket, the retries, and the two modes
    of [main].  The network, the clock and the system resolver are the class
    [Network]; a computation threads the world they act on, may throw, and is
    [Pending] when the receive loop has used the fuel given to it. *)
From Stdlib Require Import ZifyBool.
From S2P Require Import Prelude Numbers DnsWire.

(** ** Computations *)

Inductive res (A : Type) := Returned (a : A) | Thrown (what : list Z) | Pending.
Arguments Returned {A} a.
Arguments Thrown {A} what.
Arguments Pending {A}.

Definition prog (W A : Type) : Type := W -> res A * W.
#[export] Instance prog_ret W : MRet (prog W) := fun A a w => (Returned a, w).
#[export] Instance prog_bind W : MBind (prog W) := fun A B k m w =>
  match m w with
  | (Returned a, w') => k a w'
  | (Thrown e, w') => (Thrown e, w')
  | (Pending, w') => (Pending, w')
  end.

(** [throw std::runtime_error(what)]. *)
Definition raise {W A} (what : list Z) : prog W A := fun w => (Thrown what, w).
Definition out_of_fuel {W A} : prog W A := fun w => (Pending, w).
Definition lift {W A} (r : res A) : prog W A := fun w => (r, w).

(** ** The query *)

(** [name.find('.', start)] of the text from [start] on: its distance. *)
Fixpoint find_dot (rest : list Z) : option nat :=
  match rest with
  | [] => None
  | c :: rest => if c =? 46 then Some 0%nat else S <$> find_dot rest
  end.

(** The label loop, on the text that [start] leaves; each round drops at least
    one character. *)
Fixpoint push_labels (fuel : nat) (rest query : list Z) : res (list Z) :=
  match fuel with
  | O => Pending
  | S fuel =>
      match rest with
      | [] => Returned query
      | _ =>
          let end_ := find_dot rest in
          let len := default (length rest) end_ in
          if (len =? 0)%nat || (63 <? len)%nat then Thrown (str "Invalid DNS name")
          else
            let query := query ++ [u8 (Z.of_nat len)] ++ take len rest in
            match end_ with
            | None => Returned query
            | Some e => push_labels fuel (drop (S e) rest) query
            end
      end
  end.

Definition query_header (id : Z) : list Z := [u8 (Z.shiftr id 8); u8 id; 1; 0; 0; 1; 0; 0; 0; 0; 0; 0].
Definition query_tail : list Z := [0; 0; 1; 0; 1].

Definition makeQuery (name : list Z) (id : Z) : res (list Z) :=
  match push_labels (S (length name)) name (query_header id) with
  | Returned query => Returned (query ++ query_tail)
  | Thrown what => Thrown what
  | Pending => Pending
  end.

(** ** Attempts *)

Inductive Outcome := Valid | NoResponse | Rejected | Failed.
#[export] Instance Outcome_eq : EqDecision Outcome.
Proof. solve_decision. Defined.

Record Attempt := { outcome : Outcome; detail : list Z }.

Record ProbeResult := { passed : bool; attemptsMade : Z; error : list Z }.

Definition attempt_count (made : Z) : list Z :=
  to_string made ++ (if made =? 1 then str " attempt" else str " attempts").

Definition probe_failed (made : Z) (last : Attempt) : ProbeResult :=
  {| passed := false; attemptsMade := made;
     error := match outcome last with
              | NoResponse => str "No DNS response after " ++ attempt_count made
              | Failed => str "DNS probe failed after " ++ attempt_count made ++ str ": " ++ detail last
              | _ => str "DNS response rejected after " ++ attempt_count made ++ str ": " ++ detail last
              end |}.

Section Probe.
Context {W : Type} (attempts : Z) (exchange : prog W Attempt) (keepGoing : Attempt -> prog W bool).

(** [while (made < attempts)]: [left_] counts the attempts still allowed. *)
Fixpoint probe_loop (left_ : nat) (made : Z) (last : Attempt) : prog W ProbeResult :=
  match left_ with
  | O => mret (probe_failed made last)
  | S left_ =>
      last ← exchange;
      let made := made + 1 in
      if bool_decide (outcome last = Valid) then mret {| passed := true; attemptsMade := made; error := [] |}
      else if made <? attempts then
        more ← keepGoing last;
        if (more : bool) then probe_loop left_ made last else mret (probe_failed made last)
      else probe_loop left_ made last
  end.

Definition probe : prog W ProbeResult :=
  probe_loop (Z.to_nat attempts) 0 {| outcome := NoResponse; detail := [] |}.
End Probe.

(** ** Arguments *)

Definition parseAttempts (text : list Z) : res Z :=
  match parseDecimal text 10 with
  | Some value => if value <? 1 then Thrown (str "Invalid attempt count") else Returned value
  | None => Thrown (str "Invalid attempt count")
  end.

Definition parseTimeout (text : list Z) : res Z :=
  match parseDecimal text 30000 with
  | Some value => if value <? 100 then Thrown (str "Invalid timeout") else Returned value
  | None => Thrown (str "Invalid timeout")
  end.

(** ** Replies *)

Record sockaddr_in := { s_addr : Z; sin_port : Z }.
#[export] Instance sockaddr_in_eq : EqDecision sockaddr_in.
Proof. solve_decision. Defined.

(** [response[index]] of the receive buffer, which is zero past the datagram. *)
Definition at_ (p : list Z) (index : nat) : Z := nth index p 0.

Definition fold_case (c : Z) : Z := if (65 <=? c) && (c <=? 90) then u8 (c + 32) else c.

(** [for (index = from; index < query.size(); ++index)]. *)
Fixpoint same_from (asked : list Z) (response : list Z) (index : nat) : bool :=
  match asked with
  | [] => true
  | a :: asked => (fold_case a =? fold_case (at_ response index)) && same_from asked response (S index)
  end.

Definition echoesQuestion (query response : list Z) (received : nat) : bool :=
  if (received <? length query)%nat || negb (at_ response 4 =? 0) || negb (at_ response 5 =? 1) then false
  else same_from (drop 12 query) response 12.

Definition matchesQuery (query response : list Z) (received : nat) (target peer : sockaddr_in) : bool :=
  (12 <=? length query)%nat && (12 <=? received)%nat && (s_addr peer =? s_addr target) &&
  (sin_port peer =? sin_port target) && (at_ response 0 =? at_ query 0) && (at_ response 1 =? at_ query 1) &&
  has_bits (at_ response 2) 128 && echoesQuestion query response received.

Definition validDnsResponse (query response : list Z) (received : nat) (target peer : sockaddr_in) : bool :=
  matchesQuery query response received target peer && (Z.land (at_ response 3) 15 =? 0) &&
  (negb (at_ response 6 =? 0) || negb (at_ response 7 =? 0)).

(** ** The outside world *)

(** What [recvfrom] gives: the datagram and its sender, or an error. *)
Inductive receipt := Datagram (bytes : list Z) (peer : sockaddr_in) | SocketError (code : Z).

Definition WSAEMSGSIZE : Z := 10040.
Definition WSAECONNRESET : Z := 10054.
Definition WSAETIMEDOUT : Z := 10060.

Class Network (W : Type) := {
  WSAStartup : W -> bool * W;                     (* whether it succeeds *)
  open_socket : W -> bool * W;
  closesocket : W -> W;
  WSACleanup : W -> W;
  InetPtonA : list Z -> option Z;
  entropy : W -> Z * W;
  sendto : list Z -> sockaddr_in -> W -> option Z * W;  (* [Some error] when it fails *)
  recvfrom : Z -> W -> receipt * W;               (* with the receive timeout in force *)
  GetTickCount64 : W -> Z * W;
  Sleep : Z -> W -> W;
  DnsQuery_A : list Z -> W -> Z * W               (* its status *)
}.

Definition io {W A} (f : W -> A * W) : prog W A := fun w => let '(a, w) := f w in (Returned a, w).
Definition act_on {W} (f : W -> W) : prog W unit := fun w => (Returned tt, f w).

Section Exchange.
Context `{Network W}.

Definition querySystemDns (name : list Z) : prog W Attempt :=
  status ← io (DnsQuery_A name);
  mret (if negb (status =? 0)
        then {| outcome := Rejected; detail := str "System DNS query failed: " ++ to_string status |}
        else {| outcome := Valid; detail := [] |}).

Definition no_response : Attempt := {| outcome := NoResponse; detail := [] |}.

(** What a round of the receive loop makes of a receipt: [None] is [continue].
    The second component is [receivedBytes], when it is set. *)
Definition judge (query : list Z) (target : sockaddr_in) (r : receipt) : option (Attempt * option Z) :=
  match r with
  | SocketError error =>
      if error =? WSAETIMEDOUT then Some (no_response, None)
      else if (error =? WSAECONNRESET) || (error =? WSAEMSGSIZE) then None
      else Some ({| outcome := Failed; detail := str "recvfrom failed: " ++ to_string error |}, None)
  | Datagram response peer =>
      if negb (matchesQuery query response (length response) target peer) then None
      else if negb (validDnsResponse query response (length response) target peer) then
        Some ({| outcome := Rejected;
                 detail := str "rcode " ++ to_string (Z.land (at_ response 3) 15) ++ str ", answers " ++
                           to_string (Z.lor (Z.shiftl (at_ response 6) 8) (at_ response 7)) |}, None)
      else Some ({| outcome := Valid; detail := [] |}, Some (Z.of_nat (length response)))
  end.

Fixpoint receive_loop (fuel : nat) (query : list Z) (target : sockaddr_in) (deadline : Z) : prog W (Attempt * option Z) :=
  match fuel with
  | O => out_of_fuel
  | S fuel =>
      now ← io GetTickCount64;
      if deadline <=? now then mret (no_response, None)
      else
        r ← io (recvfrom (u32 (deadline - now)));
        match judge query target r with
        | Some verdict => mret verdict
        | None => receive_loop fuel query target deadline
        end
  end.

Definition exchangeOnce (fuel : nat) (query : list Z) (target : sockaddr_in) (timeout : Z) : prog W (Attempt * option Z) :=
  sent ← io (sendto query target);
  match sent with
  | Some error => mret ({| outcome := Failed; detail := str "sendto failed: " ++ to_string error |}, None)
  | None =>
      start ← io GetTickCount64;
      receive_loop fuel query target (u64 (start + timeout))
  end.
End Exchange.

(** ** The program *)

(** The exit code and what is printed on the two streams. *)
Record finished := { code : Z; out : list Z; err : list Z }.

Section Main.
Context `{Network W} (fuel : nat).

(** [received] of [main], which the exchange sets through its reference. *)
Definition with_received {A} (m : prog W A) : prog (W * Z) A := fun '(w, n) =>
  let '(r, w) := m w in (r, (w, n)).

Definition exchange_into (query : list Z) (target : sockaddr_in) (timeout : Z) : prog (W * Z) Attempt := fun '(w, n) =>
  match exchangeOnce fuel query target timeout w with
  | (Returned (attempt, received), w) => (Returned attempt, (w, default n received))
  | (Thrown e, w) => (Thrown e, (w, n))
  | (Pending, w) => (Pending, (w, n))
  end.

Definition arg (args : list (list Z)) (n : nat) : list Z := nth n args [].

(** The name asked for, [example.com] by default. *)
Definition asked_name (args : list (list Z)) : list Z :=
  if (3 <=? length args)%nat then arg args 2 else str "example.com".

(** [argc >= 4 ? parseTimeout(argv[3]) : 5000]. *)
Definition timeout_arg (args : list (list Z)) : res Z :=
  if (4 <=? length args)%nat then parseTimeout (arg args 3) else Returned 5000.

(** [argc == at + 1 ? parseAttempts(argv[at]) : 1]. *)
Definition attempts_arg (args : list (list Z)) (n : nat) : res Z :=
  if (length args =? S n)%nat then parseAttempts (arg args n) else Returned 1.

(** A system attempt may be followed by another one only in the first three
    seconds. *)
Definition system_again (started : Z) (last : Attempt) : prog W bool :=
  now ← io GetTickCount64;
  if 3000 <=? u64 (now - started) then mret false
  else act_on (Sleep 300) ≫= fun _ => mret true.

Definition attempt_of (made attempts : Z) : list Z :=
  str " (attempt " ++ to_string made ++ str " of " ++ to_string attempts ++ str ")." ++ [10].

Definition system_mode (args : list (list Z)) : prog W finished :=
  attempts ← lift (attempts_arg args 3);
  started ← io GetTickCount64;
  result ← probe attempts (querySystemDns (arg args 2)) (system_again started);
  if negb (passed result) then raise (error result)
  else mret {| code := 0; err := [];
               out := str "PASS: " ++ arg args 2 ++ str " resolved through the Windows DNS Client" ++
                      attempt_of (attemptsMade result) attempts |}.

(** A timed-out attempt has already waited. *)
Definition direct_again (last : Attempt) : prog (W * Z) bool :=
  (if bool_decide (outcome last = NoResponse) then mret tt else with_received (act_on (Sleep 300))) ≫= fun _ => mret true.

Definition htons (port : Z) : Z := Z.lor (Z.shiftl (Z.land port 255) 8) (Z.shiftr port 8).

Definition direct_mode (args : list (list Z)) : prog W finished :=
  let name := asked_name args in
  timeout ← lift (timeout_arg args);
  attempts ← lift (attempts_arg args 4);
  started ← io WSAStartup;
  if negb started then raise (str "WSAStartup failed")
  else
    opened ← io open_socket;
    if negb opened then raise (str "socket failed")
    else
      match InetPtonA (arg args 1) with
      | None => raise (str "Invalid DNS IPv4 address")
      | Some address =>
          let target := {| s_addr := address; sin_port := htons 53 |} in
          drawn ← io entropy;
          let id := u16 drawn in
          query ← lift (makeQuery name id);
          '(result, received) ← (fun w =>
            match probe attempts (exchange_into query target timeout) direct_again (w, 0) with
            | (Returned r, (w, n)) => (Returned (r, n), w)
            | (Thrown e, (w, _)) => (Thrown e, w)
            | (Pending, (w, _)) => (Pending, w)
            end);
          act_on closesocket ≫= fun _ =>
          act_on WSACleanup ≫= fun _ =>
          if negb (passed result) then
            raise (error result ++ str " (" ++ to_string timeout ++ str " ms each) from " ++ arg args 1)
          else mret {| code := 0; err := [];
                       out := str "PASS: " ++ name ++ str " answered with " ++ to_string received ++
                              str " bytes from " ++ arg args 1 ++ attempt_of (attemptsMade result) attempts |}
      end.

Definition usage : list Z :=
  str "Usage: dns-probe.exe <dns-ip> [name] [timeout-ms] [attempts] | --system <name> [attempts]" ++ [10].

Definition dispatch_mode (selfTest : finished) (args : list (list Z)) : prog W finished :=
  let argc := length args in
  if (argc =? 2)%nat && bool_decide (arg args 1 = str "--self-test") then mret selfTest
  else if ((argc =? 3)%nat || (argc =? 4)%nat) && bool_decide (arg args 1 = str "--system") then system_mode args
  else if (argc <? 2)%nat || (5 <? argc)%nat then mret {| code := 2; out := []; err := usage |}
  else direct_mode args.

(** [main], with the [catch] around it; [args] starts with the program's name. *)
Definition main (selfTest : finished) (args : list (list Z)) : W -> res finished * W := fun w =>
  match dispatch_mode selfTest args w with
  | (Thrown what, w) => (Returned {| code := 1; out := []; err := str "ERROR: " ++ what ++ [10] |}, w)
  | r => r
  end.
End Main.

(** ** The program's self-test *)

(** [text.find(part) != std::string::npos]. *)
Fixpoint includes (text part : list Z) : bool :=
  bool_decide (part `prefix_of` text) || match text with [] => false | _ :: rest => includes rest part end.

(** Scripted exchanges: the world is the number of calls and what [keepGoing]
    was shown. *)
Definition script_world : Type := nat * list Outcome.

Definition scripted (script : list Attempt) : prog script_world Attempt := fun '(calls, seen) =>
  match script !! calls with
  | Some next => (Returned next, (S calls, seen))
  | None => (Thrown (str "vector::_M_range_check"), (calls, seen))
  end.

Definition always (last : Attempt) : prog script_world bool := mret true.
Definition never (last : Attempt) : prog script_world bool := mret false.
Definition noting (last : Attempt) : prog script_world bool := fun '(calls, seen) => (Returned true, (calls, seen ++ [outcome last])).

Definition attempt (o : Outcome) (d : list Z) : Attempt := {| outcome := o; detail := d |}.
Definition silent : Attempt := attempt NoResponse [].
Definition refused : Attempt := attempt Rejected (str "rcode 2").
Definition answered : Attempt := attempt Valid [].
Definition unsent : Attempt := attempt Failed (str "sendto failed: 10051").

Definition tried (attempts : Z) (script : list Attempt) (keep : Attempt -> prog script_world bool)
  (ok : ProbeResult -> nat -> list Outcome -> bool) : bool :=
  match probe attempts (scripted script) keep (0%nat, []) with
  | (Returned result, (calls, seen)) => ok result calls seen
  | _ => false
  end.

Definition rejected {A} (r : res A) : bool := match r with Thrown _ => true | _ => false end.

(** The checks in order, each with the exit code of its failure. *)
Definition self_checks : list (bool * Z) :=
  match makeQuery (str "example.com") 4660 with
  | Returned query =>
      let target := {| s_addr := 1; sin_port := 53 |} in
      let response := <[7%nat := 1]> (<[2%nat := 128]> query) in
      let valid r peer := validDnsResponse query r (length r) target peer in
      [((length query =? 29)%nat && (at_ query 0 =? 18) && (at_ query 1 =? 52) && (at_ query 12 =? 7), 2);
       (match parseTimeout (str "750") with Returned t => t =? 750 | _ => false end, 3);
       (valid response target, 4);
       (negb (valid (<[3%nat := 2]> response) target), 5);
       (negb (valid response {| s_addr := 2; sin_port := 53 |}), 6);
       (negb (valid (<[7%nat := 0]> response) target), 7);
       (tried 3 [silent; silent; answered] always (fun r n _ => passed r && (n =? 3)%nat && (attemptsMade r =? 3)), 8);
       (tried 3 [silent; silent; silent] always (fun r n _ =>
          negb (passed r) && (n =? 3)%nat && includes (error r) (str "No DNS response after 3 attempts")), 9);
       (tried 1 [silent] always (fun r n _ =>
          negb (passed r) && (n =? 1)%nat && includes (error r) (str "No DNS response after 1 attempt")), 10);
       (tried 3 [refused; answered] always (fun r n _ => passed r && (n =? 2)%nat), 11);
       (tried 3 [refused; refused; refused] always (fun r _ _ =>
          negb (passed r) && includes (error r) (str "rejected after 3 attempts: rcode 2")), 12);
       (tried 3 [answered] always (fun r n _ => passed r && (n =? 1)%nat), 13);
       (tried 3 [silent; answered] never (fun r n _ => negb (passed r) && (n =? 1)%nat), 14);
       (tried 3 [refused; unsent; answered] noting (fun r _ seen =>
          passed r && bool_decide (seen = [Rejected; Failed])), 17);
       (tried 2 [unsent; unsent] always (fun r _ _ =>
          negb (passed r) && includes (error r) (str "DNS probe failed after 2 attempts: sendto failed: 10051")), 18);
       (valid response target, 19);
       (valid (<[13%nat := 69]> response) target, 20);
       (negb (valid (<[13%nat := 120]> response) target), 21);
       (match parseAttempts (str "3") with Returned n => n =? 3 | _ => false end, 15);
       (forallb (fun t => rejected (parseAttempts t))
          [str "0"; str "11"; str "2x"; []; str "+3"; str "99999999999999999999999"], 16)]
  | _ => [(false, 1)]
  end.

Definition probe_self_test : finished :=
  let code := first_failure self_checks in
  {| code := code; err := [];
     out := if code =? 0 then str "PASS: DNS query encoding, timeout, response validation, and probe retries." ++ [10] else [] |}.

(** The program's self-test passes on the model. *)
Lemma probe_self_test_passes : code probe_self_test = 0.
Proof. by vm_compute. Qed.

(** ** The encoded question *)

(** Specification: the labels of a name, a final empty one left out. *)
Fixpoint split_dots (name : list Z) : list (list Z) :=
  match name with
  | [] => [[]]
  | c :: rest =>
      if c =? 46 then [] :: split_dots rest
      else match split_dots rest with label :: more => (c :: label) :: more | [] => [[c]] end
  end.

Fixpoint drop_final_empty (labels : list (list Z)) : list (list Z) :=
  match labels with
  | [] => []
  | [[]] => []
  | label :: more => label :: drop_final_empty more
  end.

Definition labels_of (name : list Z) : list (list Z) := drop_final_empty (split_dots name).
Definition fits (label : list Z) : bool := (1 <=? length label)%nat && (length label <=? 63)%nat.
Definition wire_labels (labels : list (list Z)) : list Z := concat (map wire_label labels).

Lemma split_dots_nonempty name : split_dots name <> [].
Proof. destruct name as [|c name]; simpl; [done|]. destruct (c =? 46); [done|]. by destruct (split_dots name). Qed.

Lemma find_dot_None name : find_dot name = None -> split_dots name = [name].
Proof.
  induction name as [|c name IH]; simpl; [done|]. destruct (c =? 46); [done|].
  destruct (find_dot name); [done|]. intros _. by rewrite IH.
Qed.

Lemma find_dot_Some name e :
  find_dot name = Some e -> (e < length name)%nat /\ split_dots name = take e name :: split_dots (drop (S e) name).
Proof.
  revert e. induction name as [|c name IH]; intros e; simpl; [done|]. destruct (c =? 46); [intros [= <-]; split; [lia|done]|].
  destruct (find_dot name) as [e'|]; [|done]. intros [= <-]. destruct (IH e' eq_refl) as [Hl ->]. simpl. split; [lia|done].
Qed.

Lemma labels_of_None name : name <> [] -> find_dot name = None -> labels_of name = [name].
Proof. intros Hn E. unfold labels_of. rewrite find_dot_None by done. by destruct name. Qed.

Lemma labels_of_Some name e : find_dot name = Some e -> labels_of name = take e name :: labels_of (drop (S e) name).
Proof.
  intros E. apply find_dot_Some in E as [_ E]. unfold labels_of. rewrite E.
  pose proof (split_dots_nonempty (drop (S e) name)) as Hn. clear E.
  revert Hn. generalize (split_dots (drop (S e) name)), (take e name). by intros [|l ls] [|c label].
Qed.

Lemma push_labels_spec fuel rest query :
  (length rest < fuel)%nat ->
  push_labels fuel rest query =
    if forallb fits (labels_of rest) then Returned (query ++ wire_labels (labels_of rest))
    else Thrown (str "Invalid DNS name").
Proof.
  revert rest query. induction fuel as [|fuel IH]; intros rest query Hf; [lia|].
  destruct rest as [|c rest']; [simpl; by rewrite app_nil_r|].
  set (rest := c :: rest') in *. change (push_labels (S fuel) rest query) with
    (let end_ := find_dot rest in let len := default (length rest) end_ in
     if (len =? 0)%nat || (63 <? len)%nat then Thrown (str "Invalid DNS name")
     else let query := query ++ [u8 (Z.of_nat len)] ++ take len rest in
          match end_ with None => Returned query | Some e => push_labels fuel (drop (S e) rest) query end).
  destruct (find_dot rest) as [e|] eqn:E; cbn [default id].
  - rewrite (labels_of_Some _ _ E). apply find_dot_Some in E as [Hl _]. cbn [forallb].
    unfold fits at 1. rewrite length_take, Nat.min_l by lia.
    destruct ((e =? 0)%nat || (63 <? e)%nat) eqn:Eb; bool_to_prop.
    + by replace ((1 <=? e)%nat && (e <=? 63)%nat) with false by lia.
    + replace ((1 <=? e)%nat && (e <=? 63)%nat) with true by lia. cbn [andb].
      rewrite IH by (rewrite length_drop; lia). destruct (forallb _ _); [|done].
      f_equal. rewrite (uN_id 8) by lia. rewrite <- app_assoc. f_equal. unfold wire_labels. cbn [map concat].
      unfold wire_label. by rewrite length_take, Nat.min_l by lia.
  - rewrite labels_of_None by done. cbn [forallb]. unfold fits. rewrite andb_true_r.
    destruct ((length rest =? 0)%nat || _) eqn:Eb; bool_to_prop.
    + by replace ((1 <=? length rest)%nat && (length rest <=? 63)%nat) with false by lia.
    + replace ((1 <=? length rest)%nat && (length rest <=? 63)%nat) with true by lia.
      f_equal. rewrite (uN_id 8) by lia. f_equal. rewrite firstn_all. unfold wire_labels, wire_label. cbn [map concat].
      by rewrite app_nil_r.
Qed.

(** The probe encodes exactly the names whose labels have 1 to 63 characters,
    a final dot allowed, as one type-A question; it refuses the others. *)
Theorem makeQuery_exact name id :
  makeQuery name id =
    if forallb fits (labels_of name)
    then Returned (query_header id ++ wire_labels (labels_of name) ++ query_tail)
    else Thrown (str "Invalid DNS name").
Proof.
  unfold makeQuery. rewrite push_labels_spec by lia. destruct (forallb _ _); [|done]. by rewrite <- app_assoc.
Qed.

(** A name without the dot that may end it. *)
Fixpoint strip_dot (name : list Z) : list Z :=
  match name with
  | [] => []
  | [c] => if c =? 46 then [] else [c]
  | c :: rest => c :: strip_dot rest
  end.

Lemma strip_dot_app t c rest : rest <> [] -> strip_dot (t ++ c :: rest) = t ++ c :: strip_dot rest.
Proof.
  intros Hr. induction t as [|x t IH]; simpl; [by destruct rest|]. rewrite IH. by destruct t.
Qed.

Lemma strip_dot_last t : strip_dot (t ++ [46]) = t.
Proof. induction t as [|x t IH]; simpl; [done|]. rewrite IH. by destruct t. Qed.

Lemma strip_dot_none name : find_dot name = None -> strip_dot name = name.
Proof.
  induction name as [|c name IH]; simpl; [done|]. destruct (c =? 46) eqn:E; [done|].
  destruct (find_dot name); [done|]. intros _. rewrite IH by done. by destruct name.
Qed.

Lemma find_dot_split name e : find_dot name = Some e -> name = take e name ++ 46 :: drop (S e) name.
Proof.
  revert e. induction name as [|c name IH]; intros e; simpl; [done|].
  destruct (c =? 46) eqn:E; bool_to_prop; [intros [= <-]; by subst|].
  destruct (find_dot name) as [e'|]; [|done]. intros [= <-]. simpl. f_equal. by apply IH.
Qed.

Lemma join_onto_nonempty acc ls : acc <> [] -> join_onto acc ls = acc ++ concat (map (cons 46) ls).
Proof.
  revert acc. induction ls as [|l ls IH]; intros acc Ha; simpl; [by rewrite app_nil_r|].
  change (join_onto (match acc with [] => l | _ => acc ++ [46] ++ l end) ls = acc ++ 46 :: l ++ concat (map (cons 46) ls)).
  destruct acc as [|a acc]; [done|]. rewrite IH by done. by rewrite <- !app_assoc.
Qed.

Lemma join_onto_first l ls : l <> [] -> join_onto [] (l :: ls) = l ++ concat (map (cons 46) ls).
Proof. intros Hl. change (join_onto [] (l :: ls)) with (join_onto l ls). by apply join_onto_nonempty. Qed.

Lemma fits_nonempty l : fits l = true -> l <> [].
Proof. by intros Hf ->. Qed.

(** The labels joined with dots are the name, but for its final dot. *)
Lemma join_labels name : forallb fits (labels_of name) = true -> join_onto [] (labels_of name) = strip_dot name.
Proof.
  remember (length name) as n eqn:En. revert name En. induction n as [n IH] using lt_wf_ind. intros name En Hf.
  destruct (decide (name = [])) as [->|Hne]; [done|].
  destruct (find_dot name) as [e|] eqn:E.
  2: { rewrite labels_of_None in * by done. rewrite strip_dot_none by done. done. }
  rewrite (labels_of_Some _ _ E) in *. cbn [forallb] in Hf. apply andb_true_iff in Hf as [Ht Hf].
  pose proof (find_dot_split _ _ E) as Es. apply find_dot_Some in E as [Hl _].
  rewrite join_onto_first by (by apply fits_nonempty). rewrite Es at 3.
  destruct (decide (drop (S e) name = [])) as [Ed|Hd].
  - rewrite Ed. by rewrite strip_dot_last, app_nil_r.
  - rewrite strip_dot_app by done. f_equal. rewrite <- (IH (length (drop (S e) name))) by (rewrite ?length_drop; done || lia).
    revert Hf Hd. generalize (drop (S e) name). intros rest Hf Hd.
    destruct (labels_of rest) as [|l ls] eqn:El.
    + destruct (find_dot rest) as [e'|] eqn:E'; [by rewrite (labels_of_Some _ _ E') in El|].
      by rewrite labels_of_None in El.
    + simpl in Hf. bool_to_prop. by rewrite join_onto_first by (by apply fits_nonempty).
Qed.

Lemma fits_label_ok labels : forallb fits labels = true <-> Forall label_ok labels.
Proof.
  induction labels as [|l ls IH]; simpl; [split; [constructor|done]|].
  rewrite list.Forall_cons, <- IH, andb_true_iff. unfold fits, label_ok. by rewrite andb_true_iff, !Nat.leb_le.
Qed.

Lemma makeQuery_wire name id query :
  makeQuery name id = Returned query ->
  Forall label_ok (labels_of name) /\ query = query_header id ++ wire_name (labels_of name) ++ [0; 1; 0; 1].
Proof.
  rewrite makeQuery_exact. destruct (forallb _ _) eqn:E; [|done]. intros [= <-]. split; [by apply fits_label_ok|].
  unfold wire_name, wire_labels. by rewrite <- !app_assoc.
Qed.

Lemma labels_of_nonempty name : name <> [] -> labels_of name <> [].
Proof.
  intros Hn. destruct (find_dot name) eqn:E; [by rewrite (labels_of_Some _ _ E)|]. by rewrite labels_of_None.
Qed.

(** The question of a query the probe made. *)
Lemma parsed_query `{WideChars} name id query :
  makeQuery name id = Returned query -> name <> [] -> (length (strip_dot name) <= 253)%nat ->
  parseQuestion query = Some (Some {| q_name := normalizeName (strip_dot name); q_type := 1 |}).
Proof.
  intros [Hok ->]%makeQuery_wire Hn Hlen. rewrite <- join_labels in * by (by apply fits_label_ok).
  rewrite (parse_wire_question (query_header id) (labels_of name) 0 1 [0; 1]); try done.
  by apply labels_of_nonempty.
Qed.

(** The query the probe sends is one the dispatcher reads back as the
    question that was asked: the same name, normalised and without its final
    dot, and type A.  Every name the probe accepts, up to the 253 characters
    DNS allows, makes the round trip. *)
Theorem query_read_back `{WideChars} name id query :
  makeQuery name id = Returned query -> name <> [] -> (length (strip_dot name) <= 253)%nat ->
  parseQuestion query = Some (Some {| q_name := normalizeName (strip_dot name); q_type := 1 |}).
Proof. apply parsed_query. Qed.

Lemma query_read_back_witness :
  match makeQuery (str "WWW.example.com.") 4660 with
  | Returned query => parseQuestion (H:=c_locale) query = Some (Some {| q_name := str "www.example.com"; q_type := 1 |})
  | _ => False
  end.
Proof. exact (query_read_back (H:=c_locale) (str "WWW.example.com.") 4660 _ eq_refl ltac:(done) ltac:(vm_compute; lia)). Defined.

(** ** What an accepted reply says *)

Lemma fold_case_lower c : fold_case c = towlower (WideChars:=c_locale) c.
Proof. unfold fold_case. simpl. destruct (_ && _) eqn:E; [|done]. bool_to_prop. apply uN_id. lia. Qed.

Abbreviation folded := (lower (W:=c_locale)).

Lemma same_from_spec asked response index :
  (index + length asked <= length response)%nat ->
  (same_from asked response index = true) <-> (folded asked = folded (take (length asked) (drop index response))).
Proof.
  revert index. induction asked as [|a asked IH]; intros index Hl; [done|]. cbn [same_from length] in *.
  destruct (lookup_lt_is_Some_2 response index) as [r Hr]; [lia|].
  rewrite (drop_S _ _ _ Hr). cbn [take lower map]. unfold at_. rewrite (nth_lookup_Some _ _ _ _ Hr).
  rewrite andb_true_iff, Z.eqb_eq, IH, !fold_case_lower by lia. unfold lower. split; [by intros [-> ->]|]. by intros [= ? ?].
Qed.

Lemma echoes_spec query response :
  (12 <= length query)%nat -> echoesQuestion query response (length response) = true ->
  exists header asked rest, response = header ++ asked ++ rest /\ length header = 12%nat /\
    header !! 4%nat = Some 0 /\ header !! 5%nat = Some 1 /\ folded asked = folded (drop 12 query).
Proof.
  intros Hq. unfold echoesQuestion. destruct (_ || _ || _) eqn:E; [done|]. bool_to_prop. intros Hs.
  apply same_from_spec in Hs; [|rewrite length_drop; lia]. rewrite length_drop in Hs.
  exists (take 12 response), (take (length query - 12) (drop 12 response)), (drop (length query - 12) (drop 12 response)).
  rewrite !take_drop, length_take. split; [done|]. split; [lia|].
  unfold at_ in *. rewrite !lookup_take_lt by lia.
  rewrite !nth_lookup in *. destruct (lookup_lt_is_Some_2 response 4) as [b4 E4]; [lia|].
  destruct (lookup_lt_is_Some_2 response 5) as [b5 E5]; [lia|]. rewrite E4, E5 in *. simpl in *. by subst.
Qed.

(** Label lengths are below the letters. *)
Lemma folded_small a b : 0 <= a <= 63 -> towlower (WideChars:=c_locale) b = towlower (WideChars:=c_locale) a -> b = a.
Proof.
  intros Ha. simpl. destruct ((65 <=? a) && (a <=? 90)) eqn:E1; bool_to_prop; [lia|].
  destruct ((65 <=? b) && (b <=? 90)) eqn:E2; bool_to_prop; lia.
Qed.

Lemma folded_wire labels tail asked :
  Forall label_ok labels -> Forall (fun c => 0 <= c <= 63) tail ->
  folded asked = folded (concat (map wire_label labels) ++ tail) ->
  exists labels', asked = concat (map wire_label labels') ++ tail /\ Forall label_ok labels' /\
    map folded labels' = map folded labels.
Proof.
  intros Hok Ht. revert asked. induction Hok as [|l labels Hl Hok IH]; intros asked E.
  - exists []. simpl in *. split; [|by split].
    revert asked E. induction Ht as [|c tail Hc Ht IH]; intros [|a asked] E; try done.
    injection E as Ea E. f_equal; [by apply folded_small|by apply IH].
  - cbn [map concat] in E. rewrite <- app_assoc in E. cbn [wire_label app] in E.
    destruct asked as [|a asked]; [done|]. injection E as Ea E.
    apply folded_small in Ea; [|unfold label_ok in Hl; lia]. subst a.
    assert (length l <= length asked)%nat as Hle.
    { apply (f_equal length) in E. unfold lower in E. rewrite !length_map, !length_app in E. lia. }
    rewrite <- (take_drop (length l) asked) in E. unfold lower in E. rewrite !map_app in E.
    apply app_inj_1 in E as [E1 E2]; [|rewrite !length_map, length_take; lia].
    rewrite <- map_app in E2. destruct (IH _ E2) as (ls & Els & Hls & Em).
    exists (take (length l) asked :: ls). cbn [map concat]. rewrite <- app_assoc, <- Els.
    assert (length (take (length l) asked) = length l) as El by (rewrite length_take; lia).
    split; [|split].
    + unfold wire_label. rewrite El. cbn [app]. by rewrite take_drop.
    + constructor; [|done]. unfold label_ok in *. by rewrite El.
    + f_equal; [exact E1|exact Em].
Qed.

Lemma drop_blank_lower v : drop_blank (folded v) = folded (drop_blank v).
Proof. induction v as [|c v IH]; [done|]. cbn [lower map drop_blank]. rewrite towlower_blank. by destruct (is_blank c). Qed.

Lemma trim_lower v : folded (trim v) = trim (folded v).
Proof. unfold trim. by rewrite drop_blank_lower, <- !(lower_rev (W:=c_locale)), drop_blank_lower, <- (lower_rev (W:=c_locale)). Qed.

Lemma normalizeName_folded a b : folded a = folded b -> normalizeName (W:=c_locale) a = normalizeName (W:=c_locale) b.
Proof. intros E. unfold normalizeName. by rewrite !trim_lower, E. Qed.

Lemma join_onto_folded acc labels : folded (join_onto acc labels) = join_onto (folded acc) (map folded labels).
Proof.
  revert acc. induction labels as [|l labels IH]; intros acc; [done|].
  change (folded (join_onto (match acc with [] => l | _ => acc ++ [46] ++ l end) labels) =
          join_onto (match folded acc with [] => folded l | _ => folded acc ++ [46] ++ folded l end) (map folded labels)).
  rewrite IH. destruct acc as [|a acc]; [done|]. f_equal. unfold lower. by rewrite !map_app.
Qed.

(** What the receive loop checked of the reply it takes. *)
Record answers (query response : list Z) (target peer : sockaddr_in) : Prop := {
  from_target : peer = target;
  same_id : at_ response 0 = at_ query 0 /\ at_ response 1 = at_ query 1;
  is_reply : has_bits (at_ response 2) 128 = true;
  no_error : Z.land (at_ response 3) 15 = 0;
  has_answer : at_ response 6 <> 0 \/ at_ response 7 <> 0
}.

Lemma valid_answers query response target peer :
  validDnsResponse query response (length response) target peer = true ->
  answers query response target peer /\ (12 <= length query)%nat /\ echoesQuestion query response (length response) = true.
Proof.
  unfold validDnsResponse, matchesQuery. rewrite !andb_true_iff, orb_true_iff, !negb_true_iff.
  rewrite !Z.eqb_eq, !Z.eqb_neq, !Nat.leb_le. intros [[[[[[[[[Hq Hr] Ha] Hp] H0] H1] H2] He] H3] H6].
  split; [|done]. split; try done. destruct target, peer; simpl in *; by subst.
Qed.

(** A reply that passes carries the question that was asked: read by the
    dispatcher's parser it is the same question. *)
Lemma valid_same_question name id query response target peer :
  makeQuery name id = Returned query -> name <> [] -> (length (strip_dot name) <= 253)%nat ->
  validDnsResponse query response (length response) target peer = true ->
  parseQuestion (H:=c_locale) response =
    Some (Some {| q_name := normalizeName (W:=c_locale) (strip_dot name); q_type := 1 |}).
Proof.
  intros [Hok Eq]%makeQuery_wire Hn Hlen (_ & Hq & He)%valid_answers.
  apply echoes_spec in He as (header & asked & rest & -> & Hh & H4 & H5 & Ea); [|done].
  rewrite Eq in Ea. change (drop 12 (query_header id ++ ?x)) with x in Ea. unfold wire_name in Ea. rewrite <- app_assoc in Ea.
  apply folded_wire in Ea as (labels & -> & Hok' & Em); [|done|repeat constructor; lia].
  assert (folded (join_onto [] labels) = folded (strip_dot name)) as Ej.
  { rewrite <- join_labels by (by apply fits_label_ok). by rewrite !join_onto_folded, Em. }
  rewrite <- (normalizeName_folded _ _ Ej).
  replace (concat (map wire_label labels) ++ [0] ++ [0; 1; 0; 1]) with (wire_name labels ++ [0; 1; 0; 1])
    by (unfold wire_name; by rewrite <- app_assoc).
  rewrite <- app_assoc. apply (parse_wire_question header labels 0 1 ([0; 1] ++ rest)); try done.
  - intros ->. symmetry in Em. apply map_eq_nil in Em. by apply labels_of_nonempty in Hn.
  - apply (f_equal length) in Ej. unfold lower in Ej. rewrite !length_map in Ej. lia.
  - simpl. lia.
Qed.

(** ** Retries *)

Section ProbeFacts.
Context {W : Type} (attempts : Z) (exchange : prog W Attempt) (keepGoing : Attempt -> prog W bool).

(** A probe passes only on an exchange that was valid, and that exchange is
    the last thing it did. *)
Lemma probe_loop_passed left_ made last w r w' :
  probe_loop attempts exchange keepGoing left_ made last w = (Returned r, w') -> passed r = true ->
  exists w1 a, exchange w1 = (Returned a, w') /\ outcome a = Valid.
Proof.
  revert made last w. induction left_ as [|left_ IH]; intros made last w; cbn [probe_loop].
  { unfold mret, prog_ret. by intros [= <- <-]. }
  unfold mbind, prog_bind. destruct (exchange w) as [[a|e|] w1] eqn:Ex; try done.
  case_bool_decide as Ev; [intros [= <- <-]; eauto|].
  destruct (made + 1 <? attempts); [|apply IH].
  destruct (keepGoing a w1) as [[[]|e|] w2]; try done; [apply IH|]. by intros [= <- <-].
Qed.

Lemma probe_passed w r w' :
  probe attempts exchange keepGoing w = (Returned r, w') -> passed r = true ->
  exists w1 a, exchange w1 = (Returned a, w') /\ outcome a = Valid.
Proof. apply probe_loop_passed. Qed.
End ProbeFacts.

(** A world in which the [n]th exchange gives [trial n], after which the caller
    would go on or not; the state counts the exchanges made. *)
Section Trials.
Context (trial : nat -> Attempt) (go : nat -> bool).

Definition nth_trial : prog nat Attempt := fun n => (Returned (trial n), S n).
Definition nth_go (last : Attempt) : prog nat bool := fun n => (Returned (go n), n).

(** Specification: the exchange that decides, counted from [n] and before
    [stop]: a valid one, the last one allowed, or one not to be retried. *)
Fixpoint decider (left_ n : nat) : nat :=
  match left_ with
  | O => n
  | S left_ =>
      if bool_decide (outcome (trial n) = Valid) || (left_ =? 0)%nat || negb (go (S n)) then n
      else decider left_ (S n)
  end.

Lemma probe_loop_exact attempts left_ n last :
  Z.of_nat n + Z.of_nat left_ = attempts -> (0 < left_)%nat ->
  let i := decider left_ n in
  probe_loop attempts nth_trial nth_go left_ (Z.of_nat n) last n =
    (Returned (if bool_decide (outcome (trial i) = Valid)
               then {| passed := true; attemptsMade := Z.of_nat i + 1; error := [] |}
               else probe_failed (Z.of_nat i + 1) (trial i)), S i).
Proof.
  revert n last. induction left_ as [|left_ IH]; intros n last Ha Hp; [lia|]. cbn [probe_loop decider].
  unfold mbind, prog_bind, nth_trial, nth_go. case_bool_decide as Ev; cbn [orb].
  { cbv zeta. rewrite bool_decide_true by done. done. }
  destruct left_ as [|left_].
  - cbn [orb Nat.eqb]. cbv zeta. rewrite bool_decide_false by done.
    replace (Z.of_nat n + 1 <? attempts) with false by lia. done.
  - cbn [orb Nat.eqb]. replace (Z.of_nat n + 1 <? attempts) with true by lia.
    destruct (go (S n)); cbn [negb]; [|cbv zeta; by rewrite bool_decide_false].
    replace (Z.of_nat n + 1) with (Z.of_nat (S n)) by lia. apply IH; lia.
Qed.

Lemma decider_before left_ n : (0 < left_)%nat -> (n <= decider left_ n < n + left_)%nat.
Proof.
  revert n. induction left_ as [|left_ IH]; intros n Hp; [lia|]. cbn [decider].
  destruct (_ || _ || _) eqn:E; [lia|]. bool_to_prop. specialize (IH (S n)). lia.
Qed.

Lemma decider_skips left_ n j :
  (n <= j < decider left_ n)%nat -> outcome (trial j) <> Valid /\ go (S j) = true.
Proof.
  revert n. induction left_ as [|left_ IH]; intros n; cbn [decider]; [lia|].
  destruct (_ || _ || _) eqn:E; [lia|]. bool_to_prop. intros Hj.
  destruct (decide (j = n)) as [->|]; [done|]. apply (IH (S n)). lia.
Qed.

Lemma decider_stops left_ n :
  (0 < left_)%nat -> let i := decider left_ n in
  outcome (trial i) = Valid \/ (i + 1 = n + left_)%nat \/ go (S i) = false.
Proof.
  revert n. induction left_ as [|left_ IH]; intros n Hp; [lia|]. cbn [decider].
  destruct (_ || _ || _) eqn:E.
  - cbv zeta. rewrite !orb_true_iff, bool_decide_eq_true, Nat.eqb_eq, negb_true_iff in E.
    destruct E as [[E|E]|E]; [by left|right; left; lia|by right; right].
  - bool_to_prop. destruct (IH (S n)) as [?|[?|?]]; [lia| | |]; auto. right. left. lia.
Qed.
End Trials.

(** The probe makes at least one and at most the allowed number of
    exchanges; it stops at the first valid one, at the last one allowed, or when
    the caller does not go on, and not before; it passes exactly when the
    exchange it stopped at was valid, and reports how many it made. *)
Theorem probe_exact trial go attempts :
  1 <= attempts ->
  exists i result,
    probe attempts (nth_trial trial) (nth_go go) 0%nat = (Returned result, S i) /\
    Z.of_nat i < attempts /\
    attemptsMade result = Z.of_nat i + 1 /\
    (passed result = true <-> outcome (trial i) = Valid) /\
    (forall j, (j < i)%nat -> outcome (trial j) <> Valid /\ go (S j) = true) /\
    (outcome (trial i) = Valid \/ Z.of_nat i + 1 = attempts \/ go (S i) = false).
Proof.
  intros Ha. pose proof (probe_loop_exact trial go attempts (Z.to_nat attempts) 0 {| outcome := NoResponse; detail := [] |}) as Hp.
  set (i := decider trial go (Z.to_nat attempts) 0) in *.
  pose proof (decider_before trial go (Z.to_nat attempts) 0 ltac:(lia)) as Hb.
  pose proof (decider_stops trial go (Z.to_nat attempts) 0 ltac:(lia)) as Hs. cbv zeta in Hp, Hs. fold i in Hb, Hs.
  eexists i, _. split; [apply Hp; lia|]. split; [lia|]. split; [by case_bool_decide|].
  split; [by case_bool_decide|]. split; [intros j Hj; apply (decider_skips trial go (Z.to_nat attempts) 0); lia|].
  destruct Hs as [?|[?|?]]; auto. right. left. lia.
Qed.

Lemma probe_exact_witness : exists i result,
  probe 3 (nth_trial (fun n => if (n =? 1)%nat then answered else silent)) (nth_go (fun _ => true)) 0%nat = (Returned result, S i) /\
  passed result = true /\ attemptsMade result = 2.
Proof.
  destruct (probe_exact (fun n => if (n =? 1)%nat then answered else silent) (fun _ => true) 3 ltac:(lia))
    as (i & result & E & _). exists i, result. split; [exact E|]. vm_compute in E.
  apply (f_equal fst) in E. simpl in E. by injection E as <-.
Defined.

(** ** One exchange *)

Section ExchangeFacts.
Context `{Network W}.

Lemma receive_loop_valid fuel query target deadline w a n w' :
  receive_loop fuel query target deadline w = (Returned (a, n), w') -> outcome a = Valid ->
  exists remaining w1 response peer, recvfrom remaining w1 = (Datagram response peer, w') /\
    n = Some (Z.of_nat (length response)) /\
    validDnsResponse query response (length response) target peer = true.
Proof.
  revert w. induction fuel as [|fuel IH]; intros w; [done|]. cbn [receive_loop].
  unfold mbind, prog_bind, io. destruct (GetTickCount64 w) as [now w0].
  destruct (deadline <=? now); [by intros [= <- <- <-]|].
  destruct (recvfrom _ w0) as [r w1] eqn:Er. destruct (judge query target r) as [[a' n']|] eqn:Ej; [|apply IH].
  intros [= -> -> ->] Hv. unfold judge in Ej. destruct r as [response peer|err].
  - destruct (negb (matchesQuery _ _ _ _ _)); [done|].
    destruct (validDnsResponse query response (length response) target peer) eqn:Ev; simpl in Ej.
    + injection Ej as <- <-. eauto 10.
    + by injection Ej as <- <-.
  - repeat (destruct (_ =? _); simpl in Ej; try done); by injection Ej as <- <-.
Qed.

Lemma exchangeOnce_valid fuel query target timeout w a n w' :
  exchangeOnce fuel query target timeout w = (Returned (a, n), w') -> outcome a = Valid ->
  exists remaining w1 response peer, recvfrom remaining w1 = (Datagram response peer, w') /\
    n = Some (Z.of_nat (length response)) /\
    validDnsResponse query response (length response) target peer = true.
Proof.
  unfold exchangeOnce, mbind, prog_bind, io. destruct (sendto query target w) as [[e|] w0]; [by intros [= <- <- <-]|].
  destruct (GetTickCount64 w0) as [start w1]. apply receive_loop_valid.
Qed.
End ExchangeFacts.

(** *** A socket with arrivals in time *)

(** What the socket will be given, and when; [cleaned] counts the calls that
    release it. *)
Record line := { clock : Z; arrivals : list (Z * receipt); cleaned : nat }.

Definition wait_on (remaining : Z) (l : line) : receipt * line :=
  let limit := clock l + remaining in
  match arrivals l with
  | (t, r) :: rest =>
      if t <? limit then (r, {| clock := Z.max (clock l) t; arrivals := rest; cleaned := cleaned l |})
      else (SocketError WSAETIMEDOUT, {| clock := limit; arrivals := arrivals l; cleaned := cleaned l |})
  | [] => (SocketError WSAETIMEDOUT, {| clock := limit; arrivals := []; cleaned := cleaned l |})
  end.

Definition release (l : line) : line := {| clock := clock l; arrivals := arrivals l; cleaned := S (cleaned l) |}.

#[export] Instance line_network : Network line := {|
  WSAStartup l := (true, l);
  open_socket l := (true, l);
  closesocket := release;
  WSACleanup := release;
  InetPtonA text := Some (foldl (fun a c => a * 256 + c) 0 text);
  entropy l := (4660, l);
  sendto _ _ l := (None, l);
  recvfrom := wait_on;
  GetTickCount64 l := (clock l, l);
  Sleep ms l := {| clock := clock l + ms; arrivals := arrivals l; cleaned := cleaned l |};
  DnsQuery_A _ l := (0, l)
|}.

(** The arrivals before the deadline. *)
Fixpoint before (deadline : Z) (arrivals : list (Z * receipt)) : list receipt :=
  match arrivals with
  | (t, r) :: rest => if t <? deadline then r :: before deadline rest else []
  | [] => []
  end.

(** Specification: the first arrival that is a reply decides. *)
Definition first_verdict (query : list Z) (target : sockaddr_in) (deadline : Z) (l : line) : Attempt * option Z :=
  match omap (judge query target) (before deadline (arrivals l)) with
  | verdict :: _ => verdict
  | [] => (no_response, None)
  end.

Lemma receive_loop_line query target deadline fuel l :
  0 <= clock l < deadline -> deadline - clock l < 2 ^ 32 -> (length (arrivals l) < fuel)%nat ->
  exists l', receive_loop fuel query target deadline l = (Returned (first_verdict query target deadline l), l').
Proof.
  revert l. induction fuel as [|fuel IH]; intros l Hc Hw Hf; [lia|]. cbn [receive_loop].
  unfold mbind, prog_bind, io. cbn [GetTickCount64 line_network]. rewrite (proj2 (Z.leb_gt _ _)) by lia.
  cbn [recvfrom line_network]. unfold wait_on, first_verdict. rewrite (uN_id 32) by lia.
  replace (clock l + (deadline - clock l)) with deadline by lia.
  destruct (arrivals l) as [|[t r] rest]; [by eexists|]. cbn [before].
  destruct (t <? deadline) eqn:Et; [|by eexists]. bool_to_prop. cbn [omap list_omap].
  destruct (judge query target r) as [v|] eqn:Ej; [by eexists|].
  apply (IH {| clock := Z.max (clock l) t; arrivals := rest; cleaned := cleaned l |}); simpl in *; lia.
Qed.

(** One exchange always ends, and it gives the verdict on the first
    datagram before the deadline that is a reply to this query from the queried
    server: a stray datagram, a reset or an oversized datagram that arrives
    before it changes nothing, and without a reply the attempt reports that
    there was none. *)
Theorem exchange_first_reply query target timeout l :
  0 <= clock l -> 0 < timeout < 2 ^ 32 -> clock l + timeout < 2 ^ 64 ->
  exists l', exchangeOnce (S (length (arrivals l))) query target timeout l =
    (Returned (first_verdict query target (clock l + timeout) l), l').
Proof.
  intros Hc Ht Hw. unfold exchangeOnce, mbind, prog_bind. cbn [io sendto line_network GetTickCount64].
  rewrite (uN_id 64) by lia. apply receive_loop_line; lia.
Qed.

Definition demo_query : list Z := match makeQuery (str "a.io") 4660 with Returned q => q | _ => [] end.
Definition demo_reply : list Z := <[7%nat := 1]> (<[2%nat := 128]> demo_query).
Definition demo_target : sockaddr_in := {| s_addr := 16843009; sin_port := htons 53 |}.
Definition demo_line : line := {| clock := 1000; cleaned := 0;
  arrivals := [(1010, SocketError WSAECONNRESET);
               (1020, Datagram demo_reply {| s_addr := 7; sin_port := htons 53 |});
               (1030, Datagram demo_reply demo_target)] |}.

Lemma exchange_first_reply_witness :
  exists l', exchangeOnce 4 demo_query demo_target 5000 demo_line =
    (Returned (answered, Some (Z.of_nat (length demo_reply))), l').
Proof.
  destruct (exchange_first_reply demo_query demo_target 5000 demo_line) as [l' E]; [simpl; lia..|].
  exists l'. etransitivity; [exact E|]. by vm_compute.
Defined.

(** ** The whole program *)

Section MainFacts.
Context `{Network W}.

Lemma lift_returned {A} (r : res A) (w w' : W) a : lift r w = (Returned a, w') -> r = Returned a /\ w = w'.
Proof. by intros [= -> ->]. Qed.

Lemma exchange_into_valid fuel query target timeout (w1 w' : W) n1 n a :
  exchange_into fuel query target timeout (w1, n1) = (Returned a, (w', n)) -> outcome a = Valid ->
  exists remaining w2 response peer, recvfrom remaining w2 = (Datagram response peer, w') /\
    n = Z.of_nat (length response) /\ validDnsResponse query response (length response) target peer = true.
Proof.
  unfold exchange_into. destruct (exchangeOnce _ _ _ _ w1) as [[[a' m]|e|] w2] eqn:Ex; try done.
  intros [= -> -> <-] Hv. destruct (exchangeOnce_valid _ _ _ _ _ _ _ _ Ex Hv) as (rem & w3 & resp & peer & Hr & -> & Hval).
  eauto 10.
Qed.

(** Where [main] asks a resolver itself. *)
Definition direct_args (args : list (list Z)) : bool :=
  let argc := length args in
  negb ((argc =? 2)%nat && bool_decide (arg args 1 = str "--self-test")) &&
  negb (((argc =? 3)%nat || (argc =? 4)%nat) && bool_decide (arg args 1 = str "--system")) &&
  (2 <=? argc)%nat && (argc <=? 5)%nat.

Lemma direct_args_mode fuel selfTest args : direct_args args = true -> dispatch_mode fuel selfTest args = direct_mode fuel args.
Proof.
  unfold direct_args, dispatch_mode. rewrite !andb_true_iff, !negb_true_iff, !Nat.leb_le.
  intros [[[-> ->] H2] H5]. replace ((length args <? 2)%nat || (5 <? length args)%nat) with false by lia. done.
Qed.

Lemma direct_mode_passed fuel args w r w' :
  direct_mode fuel args w = (Returned r, w') ->
  code r = 0 /\ exists address id query remaining w1 response peer w2,
    InetPtonA (arg args 1) = Some address /\ makeQuery (asked_name args) id = Returned query /\
    recvfrom remaining w1 = (Datagram response peer, w2) /\ w' = WSACleanup (closesocket w2) /\
    validDnsResponse query response (length response) {| s_addr := address; sin_port := htons 53 |} peer = true.
Proof.
  unfold direct_mode, mbind, prog_bind, io, act_on, raise. cbv zeta.
  destruct (lift (timeout_arg args) w) as [[timeout|e|] w1]; try done.
  destruct (lift (attempts_arg args 4) w1) as [[attempts|e|] w2]; try done.
  destruct (WSAStartup w2) as [[] w3]; [|done]. cbn [negb].
  destruct (open_socket w3) as [[] w4]; [|done]. cbn [negb].
  destruct (InetPtonA (arg args 1)) as [address|]; [|done].
  destruct (entropy w4) as [drawn w5].
  destruct (lift (makeQuery (asked_name args) (u16 drawn)) w5) as [[query|e|] w6] eqn:Eq; try done.
  apply lift_returned in Eq as [Eq <-].
  destruct (probe attempts _ _ (w5, 0)) as [[result|e|] [w7 n]] eqn:Ep; try done.
  destruct (passed result) eqn:Epass; [|done]. cbn [negb]. intros [= <- <-]. split; [done|].
  destruct (probe_passed _ _ _ _ _ _ Ep Epass) as ([w8 n8] & a & Ex & Ev).
  destruct (exchange_into_valid _ _ _ _ _ _ _ _ _ Ex Ev) as (rem & w9 & resp & peer & Hr & _ & Hval).
  eexists address, (u16 drawn), query, rem, w9, resp, peer, w7. done.
Qed.
End MainFacts.

(** When the probe of a resolver exits with 0, the last datagram it
    received came from that resolver's address and port 53, carried the query's
    identifier, and was an error-free reply with at least one answer to the very
    question asked (as the dispatcher's parser reads it); the socket was closed
    and the library released after it.
    *)
Theorem probe_pass_means_answer `{Network W} fuel selfTest args w r w' :
  direct_args args = true -> main fuel selfTest args w = (Returned r, w') -> code r = 0 ->
  asked_name args <> [] -> (length (strip_dot (asked_name args)) <= 253)%nat ->
  exists address query response peer remaining w1 w2,
    InetPtonA (arg args 1) = Some address /\
    recvfrom remaining w1 = (Datagram response peer, w2) /\ w' = WSACleanup (closesocket w2) /\
    answers query response {| s_addr := address; sin_port := htons 53 |} peer /\
    parseQuestion (H:=c_locale) response = parseQuestion (H:=c_locale) query /\
    parseQuestion (H:=c_locale) query =
      Some (Some {| q_name := normalizeName (W:=c_locale) (strip_dot (asked_name args)); q_type := 1 |}).
Proof.
  intros Hd Hm Hc Hn Hlen. unfold main in Hm. rewrite direct_args_mode in Hm by done.
  destruct (direct_mode fuel args w) as [[r1|e|] w1] eqn:Em; [|by injection Hm as <- _|done].
  injection Hm as <- <-. destruct (direct_mode_passed _ _ _ _ _ Em)
    as (_ & address & id & query & rem & w2 & resp & peer & w3 & Ha & Hq & Hr & Hw & Hv).
  exists address, query, resp, peer, rem, w2, w3.
  rewrite (valid_same_question _ _ _ _ _ _ Hq Hn Hlen Hv).
  rewrite (parsed_query _ _ _ Hq Hn Hlen).
  split_and!; try done. by apply valid_answers.
Qed.

Definition demo_args : list (list Z) := [str "dns-probe.exe"; [1; 1; 1; 1]; str "a.io"; str "750"; str "2"].

Definition demo_end : finished * line :=
  match main 9 probe_self_test demo_args demo_line with
  | (Returned r, l) => (r, l)
  | (_, l) => (probe_self_test, l)
  end.

Lemma demo_run : main 9 probe_self_test demo_args demo_line = (Returned demo_end.1, demo_end.2).
Proof. by vm_compute. Qed.

Lemma probe_pass_means_answer_witness :
  exists response, parseQuestion (H:=c_locale) response = Some (Some {| q_name := str "a.io"; q_type := 1 |}).
Proof.
  destruct (probe_pass_means_answer 9 probe_self_test demo_args demo_line demo_end.1 demo_end.2)
    as (address & query & response & peer & remaining & w1 & w2 & _ & _ & _ & _ & E1 & E2).
  - by vm_compute.
  - exact demo_run.
  - by vm_compute.
  - by vm_compute.
  - apply Nat.leb_le. by vm_compute.
  - exists response. etransitivity; [exact E1|]. etransitivity; [exact E2|]. by vm_compute.
Defined.
