(* ===== verification/Dispatch.v ===== *)
(** * Dispatch: answering one query

    Models the query handlers of [src/src/native/dns-dispatcher.cpp]
    ([handleUdpQuery], one request of [handleTcpClient], [answerLiveness], the
    route exchanges and [resolverList]) as the composition of parsing, routing,
    the upstream exchange and the failure answer. *)
From S2P Require Import Prelude Numbers DnsWire Attribution Upstream.

(** ** The configured resolvers *)

Definition kMaxDirectResolvers : nat := 3.

(** [text] cut at every comma; never empty. *)
Fixpoint split_commas (text : list Z) : list (list Z) :=
  match text with
  | [] => [[]]
  | c :: rest =>
      if c =? 44 then [] :: split_commas rest
      else match split_commas rest with
           | item :: items => (c :: item) :: items
           | [] => [[c]]
           end
  end.

(** [InetPtonW] on the text's C string: an address, or nothing for text that is
    not one. *)
Class Inet := { inet_pton : list Z -> option Z }.

Section Resolvers.
Context {I : Inet}.

Fixpoint add_resolvers (items : list (list Z)) (result : list Z) : option (list Z) :=
  match items with
  | [] => Some result
  | item :: items =>
      if (length item =? 0)%nat || (15 <? length item)%nat || (length result =? kMaxDirectResolvers)%nat then None
      else resolver ← inet_pton item;
           if bool_decide (resolver ∈ result) then None else add_resolvers items (result ++ [resolver])
  end.

Definition resolverList (text : list Z) : option (list Z) := add_resolvers (split_commas text) [].

Lemma split_commas_length text : (0 < length (split_commas text))%nat.
Proof. destruct text as [|c text]; simpl; [lia|]. destruct (c =? 44); simpl; [lia|]. destruct (split_commas text); simpl; lia. Qed.

Lemma add_resolvers_spec items result r :
  (length result <= kMaxDirectResolvers)%nat -> NoDup result -> add_resolvers items result = Some r ->
  (length r <= kMaxDirectResolvers)%nat /\ NoDup r /\ mapM inet_pton items = Some (drop (length result) r) /\
  take (length result) r = result.
Proof.
  revert result. induction items as [|item items IH]; intros result Hl Hn; simpl.
  { intros [= <-]. by rewrite drop_all, take_ge. }
  destruct (_ || _) eqn:E; [done|]. bool_to_prop. destruct (inet_pton item) as [a|] eqn:Ea; [|done]. simpl.
  case_bool_decide as Hin; [done|]. intros Hadd. apply IH in Hadd as (R1 & R2 & R3 & R4).
  - rewrite length_app in R3, R4. simpl in R3, R4.
    assert (r = (result ++ [a]) ++ drop (length result + 1) r) as Er by (rewrite <- R4 at 1; by rewrite take_drop).
    split; [done|]. split; [done|]. split.
    + rewrite R3. simpl. rewrite Er at 2. rewrite <- app_assoc, drop_app_length. done.
    + rewrite Er, <- app_assoc. by rewrite take_app_length.
  - rewrite length_app. unfold kMaxDirectResolvers in *. simpl. lia.
  - apply list.NoDup_app. split; [done|]. split; [set_solver|]. apply NoDup_singleton.
Qed.

(** An accepted resolver list is exactly the addresses of its items, one
    to three of them and all distinct; anything else is rejected whole. *)
Theorem resolverList_spec text r :
  resolverList text = Some r ->
  (1 <= length r <= kMaxDirectResolvers)%nat /\ NoDup r /\ mapM inet_pton (split_commas text) = Some r.
Proof.
  intros H. apply add_resolvers_spec in H as (H1 & H2 & H3 & _); [|simpl; lia|constructor].
  rewrite drop_0 in H3. split; [|done]. split; [|done].
  apply length_mapM in H3. pose proof (split_commas_length text). lia.
Qed.
End Resolvers.

Definition demo_inet : Inet := {| inet_pton text := Some (foldl (fun a c => a * 256 + c) 0 text) |}.

(** ** Exchanges with resolvers *)

Record Routes := { directSource : Z; directDns : list Z; tunnelSource : Z; tunnelDns : Z }.

Inductive transport := UDP | TCP.

(** [udpExchange] and [tcpExchange] as the route exchanges call them: an answer
    to [query] sent from [source] to [resolver] within [timeout] milliseconds
    from [now], and the nanoseconds it took. *)
Class Exchanges := { exchange : transport -> packet -> Z -> Z -> Z -> Z -> option packet * Z }.

(** What the callers rely on. *)
Class ExchangesSpec (E : Exchanges) := {
  exchange_in_time t query source resolver timeout now :
    0 <= timeout -> 0 <= (exchange t query source resolver timeout now).2 <= DirectResolvers.ms timeout;
  exchange_acceptable t query source resolver timeout now response :
    (exchange t query source resolver timeout now).1 = Some response -> acceptable query response
}.

(** How the sockets behave during one exchange; [took] is cut at the deadline,
    where every wait of [dns-sockets.h] ends. *)
Record behaviour := { ready : bool; sends : list send_result; receives : list recv_result; took : Z }.

Definition socket_exchanges (os : transport -> Z -> Z -> Z -> Z -> behaviour) : Exchanges := {|
  exchange t query source resolver timeout now :=
    let b := os t source resolver timeout now in
    (match t with
     | UDP => mjoin (udpExchange query (ready b) (receives b))
     | TCP => mjoin (tcpExchange query (ready b) (sends b) (receives b))
     end, Z.max 0 (Z.min (took b) (DirectResolvers.ms timeout)))
|}.

#[export] Instance socket_exchanges_spec os : ExchangesSpec (socket_exchanges os).
Proof.
  split.
  - intros. simpl. unfold DirectResolvers.ms. lia.
  - intros t query source resolver timeout now response. simpl. destruct t.
    + destruct (udpExchange_acceptable query (ready (os UDP source resolver timeout now))
        (receives (os UDP source resolver timeout now))) as (r & -> & H). apply H.
    + destruct (tcpExchange_acceptable query (ready (os TCP source resolver timeout now))
        (sends (os TCP source resolver timeout now)) (receives (os TCP source resolver timeout now))) as (r & -> & H). apply H.
Qed.

(** Which resolver was asked, from which address. *)
Record contact := { by_ : transport; from : Z; to_ : Z }.

(** An exchange on a route: the answer, whether it was completed over TCP, the
    resolver that gave it, the resolver preference it leaves, whom it asked,
    and when it ended. *)
Record outcome := {
  response : option packet; completed : bool; resolverIndex : nat; resolvers : DirectResolvers.state;
  contacts : list contact; finished : Z
}.

(** The truncation bit. *)
Definition truncated (response : packet) : bool := has_bits (rd response 2) 2.

Section Exchange.
Context {E : Exchanges}.

(** [directExchange] over the configured resolvers with one of the transports. *)
Definition direct_search (t : transport) (query : packet) (routes : Routes) (state : DirectResolvers.state)
  (deadline now : Z) (share : bool) : option (packet * nat) * DirectResolvers.state * Z * list contact :=
  let at_index index := nth index (directDns routes) 0 in
  let '(r, state, ended, log) := DirectResolvers.directExchange
    (fun index timeout now => exchange t query (directSource routes) (at_index index) timeout now)
    state (length (directDns routes)) deadline now share in
  (r, state, ended, map (fun a => {| by_ := t; from := directSource routes; to_ := at_index a.1 |}) log).

(** A truncated answer is completed over TCP from the same resolver within the
    remaining time, and kept when it fits the client's size. *)
Definition complete_truncated (query : packet) (source resolver deadline : Z) (out : outcome) : option outcome :=
  match response out with
  | Some r =>
      let remaining := DirectResolvers.remainingMilliseconds deadline (finished out) in
      if (12 <=? length r)%nat && truncated r && negb (remaining =? 0) then
        let '(whole, elapsed) := exchange TCP query source resolver remaining (finished out) in
        let asked := contacts out ++ [{| by_ := TCP; from := source; to_ := resolver |}] in
        let kept := {| response := Some r; completed := false; resolverIndex := resolverIndex out;
                       resolvers := resolvers out; contacts := asked; finished := finished out + elapsed |} in
        match whole with
        | Some w =>
            size ← advertisedUdpSize query;
            Some (if Z.of_nat (length w) <=? size
                  then {| response := Some w; completed := true; resolverIndex := resolverIndex out;
                          resolvers := resolvers out; contacts := asked; finished := finished out + elapsed |}
                  else kept)
        | None => Some kept
        end
      else Some out
  | None => Some out
  end.

(** No lease: the tunnel lane is full. *)
Definition refused (state : DirectResolvers.state) (now : Z) : outcome :=
  {| response := None; completed := false; resolverIndex := 0; resolvers := state; contacts := []; finished := now |}.

Definition exchangeUdpRoute (query : packet) (tunnel : bool) (routes : Routes) (lease : bool)
  (state : DirectResolvers.state) (now : Z) : option outcome :=
  if negb lease then Some (refused state now)
  else
    let deadline := now + DirectResolvers.ms DirectResolvers.kDirectBudgetMilliseconds in
    if tunnel then
      let '(r, elapsed) := exchange UDP query (tunnelSource routes) (tunnelDns routes)
                             (DirectResolvers.remainingMilliseconds deadline now) now in
      complete_truncated query (tunnelSource routes) (tunnelDns routes) deadline
        {| response := r; completed := false; resolverIndex := 0; resolvers := state;
           contacts := [{| by_ := UDP; from := tunnelSource routes; to_ := tunnelDns routes |}]; finished := now + elapsed |}
    else
      let '(r, state, ended, asked) := direct_search UDP query routes state deadline now false in
      let answeredBy := match r with Some (_, index) => index | None => 0%nat end in
      resolver ← directDns routes !! answeredBy;
      complete_truncated query (directSource routes) resolver deadline
        {| response := fst <$> r; completed := false; resolverIndex := answeredBy; resolvers := state;
           contacts := asked; finished := ended |}.

(** Over TCP; a direct one over UDP when TCP failed or was refused, in the time
    kept for it. *)
Definition exchangeTcpRoute (query : packet) (tunnel : bool) (routes : Routes) (lease : bool)
  (state : DirectResolvers.state) (now : Z) : outcome :=
  if negb lease then refused state now
  else
    let deadline := now + DirectResolvers.ms DirectResolvers.kDirectBudgetMilliseconds in
    if tunnel then
      let '(r, elapsed) := exchange TCP query (tunnelSource routes) (tunnelDns routes)
                             (DirectResolvers.remainingMilliseconds deadline now) now in
      {| response := r; completed := false; resolverIndex := 0; resolvers := state;
         contacts := [{| by_ := TCP; from := tunnelSource routes; to_ := tunnelDns routes |}]; finished := now + elapsed |}
    else
      let '(r, state, ended, asked) := direct_search TCP query routes state
        (deadline - DirectResolvers.ms DirectResolvers.kPerResolverMilliseconds) now false in
      let refused_ := match r with
                      | None => true
                      | Some (p, _) => (4 <=? length p)%nat && (Z.land (rd p 3) 15 =? 5)
                      end in
      if refused_ then
        let '(r, state, ended, asked') := direct_search UDP query routes state deadline ended true in
        {| response := fst <$> r; completed := false; resolverIndex := 0; resolvers := state;
           contacts := asked ++ asked'; finished := ended |}
      else
        {| response := fst <$> r; completed := false; resolverIndex := 0; resolvers := state;
           contacts := asked; finished := ended |}.

(** ** One query *)

(** The circumstances of one query: the decision of [take] with its generation,
    the routes, the lease and the time it starts with, and the verdict of
    [directAnswerUnsafe] after the exchange. *)
Record circumstances := {
  route : option (bool * Z); routes : Routes; lease : bool; start : Z; unsafe : bool
}.

(** What the handler sends (nothing when empty), the generation it completes,
    whom it asked, and the resolver preference it leaves. *)
Record handled := { reply : packet; completion : option Z; asked : list contact; left : DirectResolvers.state }.

(** After the exchange: an unsafe direct answer is withheld, and an answer that
    is missing becomes the failure. *)
Definition settle (failure : packet) (tunnel : bool) (gen : Z) (unsafe : bool) (out : outcome) : handled :=
  let withheld := bool_decide (is_Some (response out)) && negb tunnel && unsafe in
  {| reply := default failure (if withheld then None else response out);
     completion := if withheld then None else Some gen; asked := contacts out; left := resolvers out |}.

Definition unrouted (failure : packet) (state : DirectResolvers.state) : handled :=
  {| reply := failure; completion := None; asked := []; left := state |}.

Definition handleUdpQuery `{WideChars} (query : packet) (c : circumstances) (state : DirectResolvers.state) : option handled :=
  question ← parseQuestion query;
  failure ← makeServfail query;
  match question, route c with
  | Some _, Some (tunnel, gen) =>
      out ← exchangeUdpRoute query tunnel (routes c) (lease c) state (start c);
      Some (settle failure tunnel gen (unsafe c) out)
  | _, _ => Some (unrouted failure state)
  end.

(** One request of a TCP client, up to the answer. *)
Definition handleTcpRequest `{WideChars} (query : packet) (c : circumstances) (state : DirectResolvers.state) : option handled :=
  question ← parseQuestion query;
  failure ← makeServfail query;
  match question, route c with
  | Some _, Some (tunnel, gen) =>
      Some (settle failure tunnel gen (unsafe c) (exchangeTcpRoute query tunnel (routes c) (lease c) state (start c)))
  | _, _ => Some (unrouted failure state)
  end.

(** A TCP client's requests, each with its frame as read ([None] when reading
    it failed), its circumstances and whether the answer could be sent.  An
    unsent answer is not completed and ends the connection. *)
Fixpoint tcp_requests `{WideChars} (fuel : nat) (requests : list (option packet * circumstances * bool))
  (state : DirectResolvers.state) : option (list handled) :=
  match fuel, requests with
  | S fuel, (Some query, c, sent) :: requests =>
      if (length query <? 12)%nat then Some []
      else
        h ← handleTcpRequest query c state;
        if negb sent then Some [{| reply := []; completion := None; asked := asked h; left := left h |}]
        else rest ← tcp_requests fuel requests (left h); Some (h :: rest)
  | _, _ => Some []
  end.

Definition handleTcpClient `{WideChars} (requests : list (option packet * circumstances * bool))
  (state : DirectResolvers.state) : option (list handled) := tcp_requests 64 requests state.
End Exchange.

Definition kLivenessName : list Z := str "liveness.wireguard-program-split.invalid".

(** [answerLiveness]: the reply to the supervisor's own probe, if it is one. *)
Definition answerLiveness `{WideChars} (query : packet) : option (option packet) :=
  if (length query <? 17)%nat then Some None
  else
    question ← parseQuestion query;
    match question with
    | None => Some None
    | Some q =>
        if negb (bool_decide (normalizeName (q_name q) = kLivenessName)) then Some None
        else r ← makeServfail query; b ← r !! 3%nat; r ← store r 3 (Z.land b 240); Some (Some r)
    end.

(** One datagram of the receive loop: a probe is answered at once, a query
    without a free worker or thread fails at once, any other is handled. *)
Definition receive_query `{Exchanges} `{WideChars} (query : packet) (worker thread : bool) (c : circumstances)
  (state : DirectResolvers.state) : option handled :=
  probe ← answerLiveness query;
  match probe with
  | Some r => Some (unrouted r state)
  | None =>
      if worker && thread then handleUdpQuery query c state
      else failure ← makeServfail query; Some (unrouted failure state)
  end.

(** ** What an exchange and a reply can be *)

(** Whom a query on a route may ask. *)
Definition on_route (routes : Routes) (tunnel : bool) (c : contact) : Prop :=
  if tunnel then from c = tunnelSource routes /\ to_ c = tunnelDns routes
  else from c = directSource routes /\ to_ c ∈ directDns routes.

(** An exchange stays on its route and within its budget, and its answer is
    acceptable. *)
Definition confined (query : packet) (routes : Routes) (tunnel : bool) (deadline : Z) (out : outcome) : Prop :=
  Forall (on_route routes tunnel) (contacts out) /\ finished out <= deadline /\
  (forall p, response out = Some p -> acceptable query p).

Lemma parseQuestion_total `{WideChars} p : exists r, parseQuestion p = Some r.
Proof.
  unfold parseQuestion. destruct (length p <? 17)%nat eqn:E; [by eexists|]. bool_to_prop.
  destruct (lookup_lt_is_Some_2 p 4) as [b4 ->]; [lia|]. destruct (lookup_lt_is_Some_2 p 5) as [b5 ->]; [lia|]. simpl.
  destruct (_ || _); [by eexists|].
  destruct (question_name_total (S (length p)) p 12 []) as (r & Hr & _); [lia|].
  simpl in Hr. rewrite Hr. simpl. destruct r as [[name offset]|]; [|by eexists].
  destruct (_ || _ || _) eqn:Eb; [by eexists|]. bool_to_prop.
  destruct (read16_in p offset) as [t ->]; [lia|]. by eexists.
Qed.

Lemma makeServfail_total query : exists r, makeServfail query = Some r.
Proof.
  unfold makeServfail. destruct (length query <? 12)%nat eqn:E; [by eexists|]. bool_to_prop.
  do 12 (destruct query as [|? query]; [simpl in E; lia|]). eexists. reflexivity.
Qed.

Section Confinement.
Context {E : Exchanges} {S : ExchangesSpec E}.

Lemma direct_search_spec t query routes state deadline now share :
  directDns routes <> [] ->
  let '(r, _, ended, asked) := direct_search t query routes state deadline now share in
  now <= ended /\ (now <= deadline -> ended <= deadline) /\ Forall (on_route routes false) asked /\
  (forall p index, r = Some (p, index) -> (index < length (directDns routes))%nat /\ acceptable query p).
Proof.
  intros Hne. unfold direct_search.
  pose proof (DirectResolvers.directExchange_spec
    (fun index timeout now => exchange t query (directSource routes) (nth index (directDns routes) 0) timeout now)
    (fun index timeout now => exchange_in_time t query _ _ timeout now) state (length (directDns routes)) deadline now share) as H.
  destruct (DirectResolvers.directExchange _ _ _ _ _) as [[[r s'] ended] log].
  destruct H as (H1 & H2 & H3 & H4); [destruct (directDns routes); simpl; [done|lia]|].
  split; [done|]. split; [done|]. split.
  - apply Forall_map. eapply list.Forall_impl; [exact H3|]. intros a Ha. split; [done|]. simpl. apply list_elem_of_In. by apply nth_In.
  - intros p index Hr. destruct (H4 p index Hr) as (Hi & timeout & t' & He). split; [done|]. by eapply exchange_acceptable.
Qed.

Lemma complete_truncated_confined query source resolver deadline out routes tunnel :
  on_route routes tunnel {| by_ := TCP; from := source; to_ := resolver |} ->
  confined query routes tunnel deadline out ->
  exists out', complete_truncated query source resolver deadline out = Some out' /\ confined query routes tunnel deadline out'.
Proof.
  intros Hr (Hc & Hf & Ha). unfold complete_truncated. destruct (response out) as [r|] eqn:Er; [|exists out; split; [done|]; split; [done|]; split; [done|]; by rewrite Er].
  destruct (_ && _ && _) eqn:Ec; [|exists out; split; [done|]; split; [done|]; split; [done|]; by rewrite Er]. bool_to_prop.
  destruct (DirectResolvers.remaining_bound deadline (finished out)) as [B1 B2].
  pose proof (exchange_in_time TCP query source resolver _ (finished out) B1) as Ht.
  pose proof (fun p => exchange_acceptable TCP query source resolver
    (DirectResolvers.remainingMilliseconds deadline (finished out)) (finished out) p) as Hx.
  destruct (exchange _ _ _ _ _ _) as [whole elapsed]. simpl in Ht, Hx.
  assert (Forall (on_route routes tunnel) (contacts out ++ [{| by_ := TCP; from := source; to_ := resolver |}])) as Hc'.
  { apply Forall_app. split; [done|]. by apply list.Forall_singleton. }
  assert (finished out + elapsed <= deadline) by lia.
  destruct whole as [w|]; [|eexists; split; [done|]; done].
  destruct (advertisedUdpSize_total query) as (size & -> & _). simpl. eexists. split; [done|].
  by destruct (_ <=? _).
Qed.

Lemma refused_confined query routes tunnel state now deadline :
  now <= deadline -> confined query routes tunnel deadline (refused state now).
Proof. intros H. split; [constructor|]. split; [done|]. done. Qed.

Lemma exchangeUdpRoute_confined query tunnel routes lease state now :
  directDns routes <> [] ->
  exists out, exchangeUdpRoute query tunnel routes lease state now = Some out /\
    confined query routes tunnel (now + DirectResolvers.ms DirectResolvers.kDirectBudgetMilliseconds) out.
Proof.
  intros Hne. unfold exchangeUdpRoute. set (deadline := now + _).
  assert (now <= deadline) as Hd by (unfold deadline, DirectResolvers.ms, DirectResolvers.kDirectBudgetMilliseconds; lia).
  destruct lease; [|eexists; split; [done|]; by apply refused_confined]. simpl. destruct tunnel.
  - destruct (DirectResolvers.remaining_bound deadline now) as [B1 B2].
    pose proof (exchange_in_time UDP query (tunnelSource routes) (tunnelDns routes) _ now B1) as Ht.
    pose proof (fun p => exchange_acceptable UDP query (tunnelSource routes) (tunnelDns routes)
      (DirectResolvers.remainingMilliseconds deadline now) now p) as Hx.
    destruct (exchange _ _ _ _ _ _) as [r elapsed]. simpl in Ht, Hx. apply complete_truncated_confined; [done|].
    split; [by apply list.Forall_singleton|]. split; [|done]. simpl.
    destruct (decide (DirectResolvers.remainingMilliseconds deadline now = 0)) as [E0|]; [|lia].
    rewrite E0 in Ht. unfold DirectResolvers.ms in Ht. lia.
  - pose proof (direct_search_spec UDP query routes state deadline now false Hne) as H.
    destruct (direct_search _ _ _ _ _ _ _) as [[[r s'] ended] asked]. destruct H as (H1 & H2 & H3 & H4).
    set (i := match r with Some (_, index) => index | None => 0%nat end).
    assert (i < length (directDns routes))%nat as Hi.
    { unfold i. destruct r as [[p index]|]; [by eapply H4|]. destruct (directDns routes); [done|simpl; lia]. }
    destruct (lookup_lt_is_Some_2 (directDns routes) i Hi) as [resolver Hres]. rewrite Hres. simpl.
    apply complete_truncated_confined.
    + split; [done|]. simpl. by eapply list_elem_of_lookup_2.
    + split; [done|]. split; [by apply H2|]. simpl. intros p Hp. destruct r as [[q index]|]; [|done]. simplify_eq/=. by eapply H4.
Qed.

Lemma exchangeTcpRoute_confined query tunnel routes lease state now :
  directDns routes <> [] ->
  confined query routes tunnel (now + DirectResolvers.ms DirectResolvers.kDirectBudgetMilliseconds)
    (exchangeTcpRoute query tunnel routes lease state now).
Proof.
  intros Hne. unfold exchangeTcpRoute. set (deadline := now + _).
  assert (now <= deadline) as Hd by (unfold deadline, DirectResolvers.ms, DirectResolvers.kDirectBudgetMilliseconds; lia).
  destruct lease; [|by apply refused_confined]. simpl. destruct tunnel.
  - destruct (DirectResolvers.remaining_bound deadline now) as [B1 B2].
    pose proof (exchange_in_time TCP query (tunnelSource routes) (tunnelDns routes) _ now B1) as Ht.
    pose proof (fun p => exchange_acceptable TCP query (tunnelSource routes) (tunnelDns routes)
      (DirectResolvers.remainingMilliseconds deadline now) now p) as Hx.
    destruct (exchange _ _ _ _ _ _) as [r elapsed]. simpl in Ht, Hx.
    split; [by apply list.Forall_singleton|]. split; [|done]. simpl.
    destruct (decide (DirectResolvers.remainingMilliseconds deadline now = 0)) as [E0|]; [|lia].
    rewrite E0 in Ht. unfold DirectResolvers.ms in Ht. lia.
  - set (reserve := deadline - _).
    assert (now <= reserve <= deadline) as Hr by (unfold reserve, deadline, DirectResolvers.ms,
      DirectResolvers.kDirectBudgetMilliseconds, DirectResolvers.kPerResolverMilliseconds; lia).
    pose proof (direct_search_spec TCP query routes state reserve now false Hne) as H.
    destruct (direct_search _ _ _ _ _ _ _) as [[[r s'] ended] asked]. destruct H as (H1 & H2 & H3 & H4).
    specialize (H2 ltac:(lia)). destruct (match r with Some _ => _ | None => _ end).
    + pose proof (direct_search_spec UDP query routes s' deadline ended true Hne) as H.
      destruct (direct_search _ _ _ _ _ _ _) as [[[r2 s2] ended2] asked2]. destruct H as (K1 & K2 & K3 & K4).
      split; [by apply Forall_app|]. split; [simpl; apply K2; lia|]. simpl. intros p Hp. destruct r2 as [[q index]|]; [|done].
      simplify_eq/=. by eapply K4.
    + split; [done|]. split; [simpl; lia|]. simpl. intros p Hp. destruct r as [[q index]|]; [|done]. simplify_eq/=. by eapply H4.
Qed.
End Confinement.

(** What a handled query may be: nobody is asked without a route, and only the
    route's resolvers with one; the reply is the failure or an acceptable
    answer; a direct answer found unsafe is not sent; only the decided
    generation is completed. *)
Definition handled_well (query : packet) (c : circumstances) (h : handled) : Prop :=
  (forall k, k ∈ asked h -> exists tunnel gen, route c = Some (tunnel, gen) /\ on_route (routes c) tunnel k) /\
  (makeServfail query = Some (reply h) \/
   acceptable query (reply h) /\ exists tunnel gen, route c = Some (tunnel, gen) /\ (tunnel = true \/ unsafe c = false)) /\
  (forall g, completion h = Some g -> exists tunnel, route c = Some (tunnel, g)).

Lemma unrouted_well query c failure state :
  makeServfail query = Some failure -> handled_well query c (unrouted failure state).
Proof. intros H. split; [by intros k ?%elem_of_nil|]. split; [by left|done]. Qed.

Lemma settle_well query c failure tunnel gen deadline out :
  makeServfail query = Some failure -> route c = Some (tunnel, gen) -> confined query (routes c) tunnel deadline out ->
  handled_well query c (settle failure tunnel gen (unsafe c) out).
Proof.
  intros Hf Hr (Hc & _ & Ha). split; [|split].
  - intros k Hk. exists tunnel, gen. split; [done|]. rewrite list.Forall_forall in Hc. by apply Hc.
  - unfold settle. simpl. destruct (response out) as [p|] eqn:Ep; [|by left]. rewrite bool_decide_true by done.
    destruct tunnel, (unsafe c) eqn:Eu; simpl; try (by left); right; (split; [by apply Ha|]); rewrite Hr; eexists _, _; auto.
  - unfold settle. simpl. destruct (_ && _ && _); [done|]. intros g [= <-]. eauto.
Qed.

(** An acceptable answer carries the query's identifier and the response bit. *)
Lemma acceptable_matches query p : acceptable query p -> matchingResponse query p = Some true.
Proof.
  intros (raw & offs & Hm & Ha & Hz). rewrite (matchingResponse_header query raw p); [done|by destruct Hz|].
  intros i Hi. eapply answer_records_header; [done|done|lia].
Qed.

Lemma answerLiveness_matches `{WideChars} query :
  exists r, answerLiveness query = Some r /\ forall p, r = Some p -> matchingResponse query p = Some true.
Proof.
  unfold answerLiveness. destruct (length query <? 17)%nat eqn:E; [by eexists|]. bool_to_prop.
  destruct (parseQuestion_total query) as [q ->]. simpl. destruct q as [q|]; [|by eexists].
  destruct (negb _); [by eexists|]. destruct (makeServfail_shape query) as (r & -> & Hl & _ & _ & _ & _ & Hm); [lia|]. simpl.
  destruct (lookup_lt_is_Some_2 r 3) as [b Hb]; [lia|]. unfold store. rewrite Hb. simpl. eexists. split; [done|].
  intros p [= <-]. rewrite (matchingResponse_header query r); [done|by rewrite length_insert|].
  intros i Hi. rewrite list_lookup_insert_ne by lia. done.
Qed.

Section Handlers.
Context {E : Exchanges} {S : ExchangesSpec E} `{WideChars}.

Lemma handleUdpQuery_well query c state :
  directDns (routes c) <> [] -> exists h, handleUdpQuery query c state = Some h /\ handled_well query c h.
Proof.
  intros Hne. unfold handleUdpQuery. destruct (parseQuestion_total query) as [q ->]. destruct (makeServfail_total query) as [f Hf].
  rewrite Hf. simpl. destruct q as [q|]; [|eexists; split; [done|]; by apply unrouted_well].
  destruct (route c) as [[tunnel gen]|] eqn:Er; [|eexists; split; [done|]; by apply unrouted_well].
  destruct (exchangeUdpRoute_confined query tunnel (routes c) (lease c) state (start c) Hne) as (out & -> & Hc).
  simpl. eexists. split; [done|]. by eapply settle_well.
Qed.

Lemma handleTcpRequest_well query c state :
  directDns (routes c) <> [] -> exists h, handleTcpRequest query c state = Some h /\ handled_well query c h.
Proof.
  intros Hne. unfold handleTcpRequest. destruct (parseQuestion_total query) as [q ->]. destruct (makeServfail_total query) as [f Hf].
  rewrite Hf. simpl. destruct q as [q|]; [|eexists; split; [done|]; by apply unrouted_well].
  destruct (route c) as [[tunnel gen]|] eqn:Er; [|eexists; split; [done|]; by apply unrouted_well].
  eexists. split; [done|]. eapply settle_well; [done|done|]. by apply exchangeTcpRoute_confined.
Qed.

(** C20: over UDP and TCP alike a query is answered within its bounds; it asks
    nobody without a route and only the resolvers of the decided route with
    one, tunnel or direct; its reply is the failure answer or an answer that
    matches it with zeroed TTLs; a direct answer found unsafe after the
    exchange is never sent; and only the generation it was decided on is
    completed. *)
Theorem handlers_confined query c state :
  directDns (routes c) <> [] ->
  (exists h, handleUdpQuery query c state = Some h /\ handled_well query c h) /\
  (exists h, handleTcpRequest query c state = Some h /\ handled_well query c h).
Proof. intros Hne. split; [by apply handleUdpQuery_well|by apply handleTcpRequest_well]. Qed.

(** An upstream exchange ends within four seconds of its start, whatever
    the resolvers do: the TCP completion of a truncated answer and the UDP
    fallback of a refused TCP query included. *)
Theorem exchange_in_budget query tunnel routes lease state now :
  directDns routes <> [] ->
  (exists out, exchangeUdpRoute query tunnel routes lease state now = Some out /\ finished out <= now + 4000 * 1000000) /\
  finished (exchangeTcpRoute query tunnel routes lease state now) <= now + 4000 * 1000000.
Proof.
  intros Hne. destruct (exchangeUdpRoute_confined query tunnel routes lease state now Hne) as (out & Ho & _ & Hf & _).
  destruct (exchangeTcpRoute_confined query tunnel routes lease state now Hne) as (_ & Hf' & _).
  split; [by exists out|done].
Qed.

(** A connection serves at most 64 requests. *)
Lemma tcp_requests_length fuel requests state hs :
  tcp_requests fuel requests state = Some hs -> (length hs <= fuel)%nat /\ (length hs <= length requests)%nat.
Proof.
  revert requests state hs. induction fuel as [|fuel IH]; intros requests state hs; simpl; [intros [= <-]; simpl; lia|].
  destruct requests as [|[[[query|] c] sent] requests]; try (intros [= <-]; simpl; lia).
  destruct (length query <? 12)%nat; [intros [= <-]; simpl; lia|].
  destruct (handleTcpRequest query c state) as [h|]; [|done]. simpl. destruct sent; simpl; [|intros [= <-]; simpl; lia].
  destruct (tcp_requests fuel requests (left h)) as [rest|] eqn:Er; [|done]. simpl. intros [= <-].
  apply IH in Er. simpl. lia.
Qed.

(** Every request of a connection is handled well, one after the other. *)
Lemma tcp_requests_well fuel requests state :
  Forall (fun r => directDns (routes r.1.2) <> []) requests ->
  exists hs, tcp_requests fuel requests state = Some hs /\
    forall i h, hs !! i = Some h -> exists query c sent, requests !! i = Some (Some query, c, sent) /\
      (sent = true -> handled_well query c h) /\ (sent = false -> reply h = [] /\ completion h = None).
Proof.
  revert requests state. induction fuel as [|fuel IH]; intros requests state Hr; simpl; [by eexists|].
  destruct requests as [|[[[query|] c] sent] requests]; try (by eexists). inversion_clear Hr as [|? ? Hne Hr']. simpl in Hne.
  destruct (length query <? 12)%nat; [by eexists|].
  destruct (handleTcpRequest_well query c state Hne) as (h & -> & Hw). simpl. destruct sent; simpl.
  - destruct (IH requests (left h) Hr') as (hs & -> & Hall). simpl. eexists. split; [done|].
    intros [|i] h' Hi; simpl in Hi; [simplify_eq; by exists query, c, true|]. by apply Hall.
  - eexists. split; [done|]. intros [|i] h' Hi; simpl in Hi; [|done]. simplify_eq. by exists query, c, false.
Qed.

(** A TCP client's requests are served one after the other, at most 64 of
    them; each that is answered is handled as a single query is, and one whose
    answer cannot be sent completes nothing. *)
Theorem tcp_client_served requests state :
  Forall (fun r => directDns (routes r.1.2) <> []) requests ->
  exists hs, handleTcpClient requests state = Some hs /\ (length hs <= 64)%nat /\
    forall i h, hs !! i = Some h -> exists query c sent, requests !! i = Some (Some query, c, sent) /\
      (sent = true -> handled_well query c h) /\ (sent = false -> reply h = [] /\ completion h = None).
Proof.
  intros Hr. destruct (tcp_requests_well 64 requests state Hr) as (hs & Hs & Hall). exists hs. split; [done|].
  split; [by eapply tcp_requests_length|done].
Qed.

End Handlers.

(** ** Concrete queries *)

(** A client asks for www.example; the first direct resolver is silent, the
    second answers. *)
Definition demo_query : packet := [1; 2; 1; 0; 0; 1; 0; 0; 0; 0; 0; 0] ++ wire_name [str "www"; str "example"] ++ [0; 1; 0; 1].
Definition demo_answer : packet := [1; 2; 129; 128; 0; 1; 0; 0; 0; 0; 0; 0] ++ wire_name [str "www"; str "example"] ++ [0; 1; 0; 1].

Definition demo_os (_ : transport) (source resolver timeout now : Z) : behaviour :=
  {| ready := true; sends := []; receives := if resolver =? 8 then [Received demo_answer] else []; took := 5 |}.

Definition demo_routes : Routes := {| directSource := 1; directDns := [7; 8]; tunnelSource := 2; tunnelDns := 9 |}.
Definition demo_circumstances : circumstances :=
  {| route := Some (false, 4); routes := demo_routes; lease := true; start := 100; unsafe := false |}.

Example demo_handled :
  reply <$> handleUdpQuery (E:=socket_exchanges demo_os) (H:=c_locale) demo_query demo_circumstances DirectResolvers.new = Some demo_answer.
Proof. by vm_compute. Qed.

Lemma handlers_confined_witness :
  (exists h, handleUdpQuery (E:=socket_exchanges demo_os) (H:=c_locale) demo_query demo_circumstances DirectResolvers.new = Some h /\
     handled_well demo_query demo_circumstances h) /\
  (exists h, handleTcpRequest (E:=socket_exchanges demo_os) (H:=c_locale) demo_query demo_circumstances DirectResolvers.new = Some h /\
     handled_well demo_query demo_circumstances h).
Proof. apply (handlers_confined (E:=socket_exchanges demo_os) (H:=c_locale)). done. Defined.

Lemma exchange_in_budget_witness :
  (exists out, exchangeUdpRoute (E:=socket_exchanges demo_os) demo_query false demo_routes true DirectResolvers.new 100 = Some out /\
     finished out <= 100 + 4000 * 1000000) /\
  finished (exchangeTcpRoute (E:=socket_exchanges demo_os) demo_query false demo_routes true DirectResolvers.new 100) <= 100 + 4000 * 1000000.
Proof. apply (exchange_in_budget (E:=socket_exchanges demo_os)). done. Defined.

Lemma tcp_client_served_witness :
  exists hs, handleTcpClient (E:=socket_exchanges demo_os) (H:=c_locale) [(Some demo_query, demo_circumstances, true)] DirectResolvers.new = Some hs /\
    (length hs <= 64)%nat /\
    forall i h, hs !! i = Some h -> exists query c sent, [(Some demo_query, demo_circumstances, true)] !! i = Some (Some query, c, sent) /\
      (sent = true -> handled_well query c h) /\ (sent = false -> reply h = [] /\ completion h = None).
Proof. apply (tcp_client_served (E:=socket_exchanges demo_os) (H:=c_locale)). by repeat constructor. Defined.

