(* ===== verification/Transfers.v ===== *)
(** * Transfers: socket operations against the clock

    Composes [Sockets] and [Upstream]: the transfers of
    [src/src/native/dns-sockets.h] and the exchanges of [dns-wire.h] with the
    deadline they are made under.  What a socket does is a schedule, which says
    when each operation becomes possible and what it then reports; the clock
    advances only in [select], which returns as soon as the socket is ready and
    no later than it was asked to.  [Upstream] takes lists of reports that end
    when the deadline passes: here those lists are shown to be what the waits let
    through, and the bound on the time of an exchange, which [Dispatch] relies
    on, is proved.  Times are microseconds. *)
From Stdlib Require Import ZifyBool.
From S2P Require Import Prelude DnsWire Sockets Upstream Dispatch.

(** ** One wait *)

(** When [select] has something to report for the socket. *)
Inductive condition := Quiet | Ready (since : Z) | Broken (since : Z).

(** The running flag is cleared at [stop]. *)
Definition running (stop : option Z) (now : Z) : bool := match stop with Some t => now <? t | None => true end.

(** Reported within [wait] from [now]. *)
Definition found (c : condition) (now wait : Z) : bool :=
  match c with Quiet => false | Ready t | Broken t => t <=? now + wait end.
Definition since (c : condition) (now : Z) : Z := match c with Quiet => now | Ready t | Broken t => Z.max now t end.
Definition broken (c : condition) : bool := match c with Broken _ => true | _ => false end.

(** The turns of [socketReady] from [now] on. *)
Fixpoint turns (fuel : nat) (stop : option Z) (c : condition) (deadline now : Z) : list select_turn :=
  match fuel with
  | O => []
  | S fuel =>
      let wait := slice deadline now in
      let hit := found c now wait in
      {| se_running := running stop now; se_now := now; se_result := if hit then 1 else 0; se_error := hit && broken c |} ::
      (if hit then [] else turns fuel stop c deadline (now + wait))
  end.

(** The clock when it returns. *)
Fixpoint clock_after (fuel : nat) (stop : option Z) (c : condition) (deadline now : Z) : Z :=
  match fuel with
  | O => now
  | S fuel =>
      let wait := slice deadline now in
      if negb (running stop now) || (deadline - now <=? 0) then now
      else if found c now wait then since c now
      else clock_after fuel stop c deadline (now + wait)
  end.

(** One turn more than the slices that fit. *)
Definition fuel_for (deadline now : Z) : nat := S (S (Z.to_nat ((deadline - now) / kSlice))).

Definition wait_answer (stop : option Z) (c : condition) (deadline now : Z) : option bool :=
  fst (socketReady (turns (fuel_for deadline now) stop c deadline now) deadline).

Definition wait_ready (stop : option Z) (c : condition) (deadline now : Z) : bool * Z :=
  (default false (wait_answer stop c deadline now), clock_after (fuel_for deadline now) stop c deadline now).

(** When a wait is over: at the deadline, or a slice after the stop. *)
Definition cutoff (stop : option Z) (deadline : Z) : Z :=
  match stop with Some t => Z.min deadline (t + kSlice) | None => deadline end.

Lemma turns_running fuel stop c deadline now t : head (turns fuel stop c deadline now) = Some t -> se_now t = now.
Proof. destruct fuel; [done|]. by intros [= <-]. Qed.

Lemma turns_elapse fuel stop c deadline now : elapses deadline (turns fuel stop c deadline now).
Proof.
  revert now. induction fuel as [|fuel IH]; intros now; [done|]. cbn [turns]. destruct (found c now _); [done|].
  specialize (IH (now + slice deadline now)). destruct fuel; [done|]. cbn [turns elapses] in *. split; [|exact IH]. cbn [se_now]. lia.
Qed.

(** The loop of [turns] ends with a report or has the length of its fuel. *)
Lemma turns_end fuel stop c deadline now :
  length (turns fuel stop c deadline now) = fuel \/ fst (socketReady (turns fuel stop c deadline now) deadline) <> None.
Proof.
  revert now. induction fuel as [|fuel IH]; intros now; [by left|]. cbn [turns]. destruct (found c now _) eqn:E.
  - right. cbn [socketReady se_running se_now se_result se_error]. destruct (negb _); [done|]. destruct (_ <=? 0); [done|].
    cbv zeta. by destruct (_ || _).
  - destruct (IH (now + slice deadline now)) as [H|H]; [left; cbn [length]; by rewrite H|right].
    cbn [socketReady se_running se_now se_result se_error]. destruct (negb _); [done|]. destruct (_ <=? 0); [done|].
    cbv zeta. destruct (_ || _); [done|]. cbn. by destruct (socketReady (turns fuel stop c deadline _) deadline).
Qed.

(** Every wait answers. *)
Lemma wait_answers stop c deadline now : wait_answer stop c deadline now <> None.
Proof.
  unfold wait_answer. destruct (turns_end (fuel_for deadline now) stop c deadline now) as [Hl|H]; [|done].
  apply (ready_progress _ _ (S (Z.to_nat ((deadline - now) / kSlice)))); [apply turns_elapse| |rewrite Hl; unfold fuel_for; lia].
  intros t Ht. apply turns_running in Ht. unfold kSlice in *. pose proof (Z.mul_succ_div_gt (deadline - now) 200000). lia.
Qed.

(** A wait ends between now and its cutoff. *)
Lemma clock_bounds fuel stop c deadline now :
  now <= clock_after fuel stop c deadline now <= Z.max now (cutoff stop deadline).
Proof.
  revert now. induction fuel as [|fuel IH]; intros now; cbn [clock_after]; [lia|].
  destruct (running stop now) eqn:Er; cbn [negb orb]; [|lia]. destruct (Z.leb_spec (deadline - now) 0); [lia|].
  assert (now + slice deadline now <= cutoff stop deadline) as Hc.
  { unfold cutoff, slice, running, kSlice in *. destruct stop; lia. }
  assert (0 < slice deadline now) by (unfold slice, kSlice; lia).
  destruct (found c now _) eqn:Ef; [unfold found, since in *; destruct c; lia|].
  specialize (IH (now + slice deadline now)). lia.
Qed.

Lemma wait_ready_bounds stop c deadline now ok t :
  wait_ready stop c deadline now = (ok, t) -> now <= t <= Z.max now (cutoff stop deadline).
Proof.
  unfold wait_ready. intros E. assert (t = clock_after (fuel_for deadline now) stop c deadline now) as -> by congruence.
  apply clock_bounds.
Qed.

#[local] Opaque wait_ready.

(** ** Transfers *)

(** The schedule of an operation: when each attempt becomes possible and what it
    then reports. *)
Abbreviation schedule A := (list (condition * A)).

(** [receiveAll] under its deadline: the bytes and the rest of the schedule, and
    the clock. *)
Fixpoint receive_before (stop : option Z) (s : schedule recv_result) (deadline now : Z) (size : nat) (data : list Z) :
  option (list Z * schedule recv_result) * Z :=
  if (size <=? length data)%nat then (Some (data, s), now)
  else match s with
       | [] => (None, (wait_ready stop Quiet deadline now).2)
       | (c, r) :: s =>
           let '(ok, now) := wait_ready stop c deadline now in
           if negb ok then (None, now)
           else match r with
                | RecvBlocked => receive_before stop s deadline now size data
                | RecvFailed | Received [] => (None, now)
                | Received bytes => receive_before stop s deadline now size (data ++ take (size - length data) bytes)
                end
       end.

(** The loop of [sendDnsFrame]: its result, what is on the wire, and the clock. *)
Fixpoint send_before (stop : option Z) (s : schedule send_result) (deadline now : Z) (buffers : list (list Z)) (wire : list Z) :
  bool * list Z * Z :=
  match buffers with
  | [] => (true, wire, now)
  | _ =>
      match s with
      | [] => (false, wire, (wait_ready stop Quiet deadline now).2)
      | (c, r) :: s =>
          let '(ok, now) := wait_ready stop c deadline now in
          if negb ok then (false, wire, now)
          else match r with
               | SendBlocked => send_before stop s deadline now buffers wire
               | SendFailed | Sent O => (false, wire, now)
               | Sent n => send_before stop s deadline now (advance buffers n) (wire ++ take n (concat buffers))
               end
      end
  end.

Definition send_frame_before (stop : option Z) (s : schedule send_result) (deadline now : Z) (p : packet) : bool * list Z * Z :=
  if (length p =? 0)%nat || (65535 <? Z.of_nat (length p)) then (false, [], now)
  else send_before stop s deadline now [htons (Z.of_nat (length p)); p] [].

(** The receive loop of [udpExchange]. *)
Fixpoint udp_before (stop : option Z) (query : packet) (s : schedule recv_result) (deadline now : Z) : option (option packet) * Z :=
  match s with
  | [] => (Some None, (wait_ready stop Quiet deadline now).2)
  | (c, r) :: s =>
      let '(ok, now) := wait_ready stop c deadline now in
      if negb ok then (Some None, now)
      else match r with
           | RecvBlocked => udp_before stop query s deadline now
           | RecvFailed | Received [] => (Some None, now)
           | Received response =>
               match matchingResponse query response with
               | None => (None, now)
               | Some false => udp_before stop query s deadline now
               | Some true => (zeroed response, now)
               end
           end
  end.

(** What was received is what [Upstream] receives from the reports up to the
    last one used; the clock stops in time. *)
Lemma receive_before_refines stop s deadline now size data :
  let '(r, t) := receive_before stop s deadline now size data in
  now <= t <= Z.max now (cutoff stop deadline) /\
  match r with
  | Some (d, rest) => exists used, s = used ++ rest /\ forall more, receive_loop (map snd used ++ more) size data = Some (d, more)
  | None => exists k, receive_loop (map snd (firstn k s)) size data = None
  end.
Proof.
  revert now data. induction s as [|[c r] s IH]; intros now data; cbn [receive_before].
  - destruct (size <=? length data)%nat eqn:E.
    + split; [lia|]. exists []. split; [done|]. intros more. destruct more; cbn [map app receive_loop]; by rewrite E.
    + destruct (wait_ready stop Quiet deadline now) as [ok t] eqn:Ew. apply wait_ready_bounds in Ew. split; [exact Ew|].
      exists 0%nat. cbn [map firstn receive_loop]. by rewrite E.
  - destruct (size <=? length data)%nat eqn:E.
    { split; [lia|]. exists []. split; [done|]. intros more. destruct more; cbn [map app receive_loop]; by rewrite E. }
    destruct (wait_ready stop c deadline now) as [ok t] eqn:Ew. apply wait_ready_bounds in Ew.
    assert (exists k, receive_loop (map snd (firstn k ((c, r) :: s))) size data = None) as Hnone.
    { exists 0%nat. cbn [map firstn receive_loop]. by rewrite E. }
    destruct ok; cbn [negb]; [|done].
    assert (forall data', (forall more, receive_loop (r :: more) size data = receive_loop more size data') ->
      let '(r', t') := receive_before stop s deadline t size data' in
      now <= t' <= Z.max now (cutoff stop deadline) /\
      match r' with
      | Some (d, rest) => exists used, (c, r) :: s = used ++ rest /\ forall more, receive_loop (map snd used ++ more) size data = Some (d, more)
      | None => exists k, receive_loop (map snd (firstn k ((c, r) :: s))) size data = None
      end) as Hstep.
    { intros data' Hd. specialize (IH t data'). destruct (receive_before stop s deadline t size data') as [[[d rest]|] t'].
      - destruct IH as [Ht (used & -> & Hu)]. split; [lia|]. exists ((c, r) :: used). split; [done|]. intros more. cbn [map snd app]. by rewrite Hd.
      - destruct IH as [Ht [k Hk]]. split; [lia|]. exists (S k). cbn [firstn map snd]. by rewrite Hd. }
    destruct r as [| |[|b bytes]]; [|done|done|]; apply Hstep; intros more; cbn [receive_loop]; by rewrite E.
Qed.

Lemma send_before_refines stop s deadline now buffers wire :
  let '(ok, w, t) := send_before stop s deadline now buffers wire in
  now <= t <= Z.max now (cutoff stop deadline) /\ exists k, send_loop buffers (map snd (firstn k s)) wire = (ok, w).
Proof.
  revert now buffers wire. induction s as [|[c r] s IH]; intros now [|b buffers] wire; cbn [send_before];
    try (split; [lia|]; by exists 0%nat).
  - destruct (wait_ready stop Quiet deadline now) as [ok t] eqn:Ew. apply wait_ready_bounds in Ew. split; [exact Ew|]. by exists 0%nat.
  - destruct (wait_ready stop c deadline now) as [ok t] eqn:Ew. apply wait_ready_bounds in Ew.
    destruct ok; cbn [negb]; [|split; [done|]; by exists 0%nat].
    assert (forall buffers' wire', (forall more, send_loop (b :: buffers) (r :: more) wire = send_loop buffers' more wire') ->
      let '(ok, w, t') := send_before stop s deadline t buffers' wire' in
      now <= t' <= Z.max now (cutoff stop deadline) /\ exists k, send_loop (b :: buffers) (map snd (firstn k ((c, r) :: s))) wire = (ok, w)) as Hstep.
    { intros buffers' wire' Hs. specialize (IH t buffers' wire'). destruct (send_before stop s deadline t buffers' wire') as [[ok w] t'].
      destruct IH as [Ht [k Hk]]. split; [lia|]. exists (S k). cbn [firstn map snd]. by rewrite Hs. }
    destruct r as [| |[|n]]; [by apply Hstep|..]; try (split; [done|]; by exists 0%nat). by apply Hstep.
Qed.

Lemma udp_before_refines stop query s deadline now :
  let '(r, t) := udp_before stop query s deadline now in
  now <= t <= Z.max now (cutoff stop deadline) /\ exists k, udp_receive query (map snd (firstn k s)) = r.
Proof.
  revert now. induction s as [|[c r] s IH]; intros now; cbn [udp_before].
  - destruct (wait_ready stop Quiet deadline now) as [ok t] eqn:Ew. apply wait_ready_bounds in Ew. split; [exact Ew|]. by exists 0%nat.
  - destruct (wait_ready stop c deadline now) as [ok t] eqn:Ew. apply wait_ready_bounds in Ew.
    destruct ok; cbn [negb]; [|split; [done|]; by exists 0%nat].
    assert ((forall more, udp_receive query (r :: more) = udp_receive query more) ->
      let '(r', t') := udp_before stop query s deadline t in
      now <= t' <= Z.max now (cutoff stop deadline) /\ exists k, udp_receive query (map snd (firstn k ((c, r) :: s))) = r') as Hstep.
    { intros Hs. specialize (IH t). destruct (udp_before stop query s deadline t) as [r' t'].
      destruct IH as [Ht [k Hk]]. split; [lia|]. exists (S k). cbn [firstn map snd]. by rewrite Hs. }
    destruct r as [| |[|b bytes]]; [by apply Hstep|split; [done|]; by exists 0%nat|split; [done|]; by exists 0%nat|].
    destruct (matchingResponse query (b :: bytes)) as [[]|] eqn:Em.
    + split; [done|]. exists 1%nat. cbn [firstn map snd udp_receive]. by rewrite Em.
    + apply Hstep. intros more. cbn [udp_receive]. by rewrite Em.
    + split; [done|]. exists 1%nat. cbn [firstn map snd udp_receive]. by rewrite Em.
Qed.

(** ** Exchanges *)

(** What [connect] does: it succeeds, fails, or would block, and then the socket
    becomes writable and [getsockopt] reports its error. *)
Inductive connecting := Connected | Refused (error : Z) | InProgress (c : condition) (sockopt : option Z).

Definition connect_before (stop : option Z) (k : connecting) (deadline now : Z) : bool * Z :=
  match k with
  | Connected => (default false (connectBefore true 0 [] deadline None), now)
  | Refused error => (default false (connectBefore false error [] deadline None), now)
  | InProgress c sockopt =>
      let t := turns (fuel_for deadline now) stop c deadline now in
      (default false (connectBefore false WSAEWOULDBLOCK t deadline sockopt), (wait_ready stop c deadline now).2)
  end.

(** The socket of one exchange: which of its preparations succeed, when the
    component stops, and its schedules. *)
Record link := {
  l_socket : bool; l_nonblocking : bool; l_bind : bool; l_connect : connecting; l_stop : option Z;
  l_writable : condition; l_sent : Z; l_sends : schedule send_result; l_arrivals : schedule recv_result
}.

Definition afterMilliseconds (now milliseconds : Z) : Z := now + milliseconds * 1000.

Definition udp_exchange (query : packet) (l : link) (timeout now : Z) : option (option packet) * Z :=
  if negb (l_socket l) || negb (l_nonblocking l) then (Some None, now)
  else
    let deadline := afterMilliseconds now timeout in
    if negb (l_bind l) then (Some None, now)
    else
      let '(ok, now) := connect_before (l_stop l) (l_connect l) deadline now in
      if negb ok then (Some None, now)
      else
        let '(ok, now) := wait_ready (l_stop l) (l_writable l) deadline now in
        if negb ok || negb (l_sent l =? Z.of_nat (length query)) then (Some None, now)
        else udp_before (l_stop l) query (l_arrivals l) deadline now.

(** The answer after the frame: its length, then as many bytes. *)
Definition tcp_answer (query : packet) (l : link) (deadline now : Z) : option (option packet) * Z :=
  match receive_before (l_stop l) (l_arrivals l) deadline now 2 [] with
  | (None, now) => (Some None, now)
  | (Some (header, arrivals), now) =>
      match read16 header 0 with
      | None => (None, now)
      | Some n =>
          if (Z.to_nat n =? 0)%nat then (Some None, now)
          else match receive_before (l_stop l) arrivals deadline now (Z.to_nat n) [] with
               | (None, now) => (Some None, now)
               | (Some (response, _), now) =>
                   (matches ← matchingResponse query response; if negb matches then Some None else zeroed response, now)
               end
      end
  end.

Definition tcp_exchange (query : packet) (l : link) (timeout now : Z) : option (option packet) * Z :=
  if negb (l_socket l) || negb (l_nonblocking l) then (Some None, now)
  else
    let deadline := afterMilliseconds now timeout in
    if negb (l_bind l) then (Some None, now)
    else
      let '(ok, now) := connect_before (l_stop l) (l_connect l) deadline now in
      if negb ok then (Some None, now)
      else
        let '(ok, _, now) := send_frame_before (l_stop l) (l_sends l) deadline now query in
        if negb ok then (Some None, now)
        else tcp_answer query l deadline now.

Lemma connect_before_bounds stop k deadline now ok t :
  connect_before stop k deadline now = (ok, t) -> now <= t <= Z.max now (cutoff stop deadline).
Proof.
  destruct k as [|e|c o]; cbn [connect_before]; [intros [= _ <-]; lia..|].
  destruct (wait_ready stop c deadline now) as [a t'] eqn:E. apply wait_ready_bounds in E. intros [= _ <-]. exact E.
Qed.

Lemma udp_exchange_refines query l timeout now :
  let '(r, t) := udp_exchange query l timeout now in
  now <= t <= Z.max now (cutoff (l_stop l) (afterMilliseconds now timeout)) /\
  exists ready k, udpExchange query ready (map snd (firstn k (l_arrivals l))) = r.
Proof.
  unfold udp_exchange. set (deadline := afterMilliseconds now timeout).
  assert (exists ready k, udpExchange query ready (map snd (firstn k (l_arrivals l))) = Some None) as Hno by (by exists false, 0%nat).
  destruct (_ || _); [split; [lia|done]|]. destruct (negb (l_bind l)); [split; [lia|done]|].
  destruct (connect_before _ _ _ _) as [ok1 t1] eqn:E1. apply connect_before_bounds in E1. destruct (negb ok1); [split; [lia|done]|].
  destruct (wait_ready _ _ _ _) as [ok2 t2] eqn:E2. apply wait_ready_bounds in E2. destruct (_ || _); [split; [lia|done]|].
  pose proof (udp_before_refines (l_stop l) query (l_arrivals l) deadline t2) as H.
  destruct (udp_before _ _ _ _ _) as [r t]. destruct H as [Ht [k Hk]]. split; [lia|]. by exists true, k.
Qed.

Lemma send_frame_refines stop s deadline now p :
  let '(ok, w, t) := send_frame_before stop s deadline now p in
  now <= t <= Z.max now (cutoff stop deadline) /\ exists k, sendDnsFrame p (map snd (firstn k s)) = (ok, w).
Proof.
  unfold send_frame_before, sendDnsFrame. destruct (_ || _); [split; [lia|]; by exists 0%nat|].
  apply (send_before_refines stop s deadline now [htons (Z.of_nat (length p)); p] []).
Qed.

Lemma firstn_used {A} (used rest : list A) k : firstn (length used + k) (used ++ rest) = used ++ firstn k rest.
Proof. rewrite firstn_app_2. done. Qed.

Lemma tcp_answer_refines query ks l deadline now w :
  sendDnsFrame query (map snd (firstn ks (l_sends l))) = (true, w) ->
  let '(r, t) := tcp_answer query l deadline now in
  now <= t <= Z.max now (cutoff (l_stop l) deadline) /\
  exists ka, tcpExchange query true (map snd (firstn ks (l_sends l))) (map snd (firstn ka (l_arrivals l))) = r.
Proof.
  intros Hsend. unfold tcp_answer, tcpExchange. rewrite Hsend. cbn [fst negb orb]. unfold receiveAll.
  pose proof (receive_before_refines (l_stop l) (l_arrivals l) deadline now 2 []) as H1.
  destruct (receive_before _ _ _ now _ _) as [[[header rest]|] t1]; destruct H1 as [Ht1 H1];
    [|destruct H1 as [k Hk]; split; [done|]; exists k; by rewrite Hk].
  destruct H1 as (used & Hl & Hu). rewrite Hl. destruct (read16 header 0) as [n|] eqn:En;
    [|split; [done|]; exists (length used + 0)%nat; rewrite firstn_used, map_app, Hu; cbn [mbind option_bind]; by rewrite En].
  destruct (Z.to_nat n =? 0)%nat eqn:Ez;
    [split; [done|]; exists (length used + 0)%nat; rewrite firstn_used, map_app, Hu; cbn; by rewrite En; cbn; rewrite Ez|].
  pose proof (receive_before_refines (l_stop l) rest deadline t1 (Z.to_nat n) []) as H2.
  destruct (receive_before _ rest _ t1 _ _) as [[[response rest2]|] t2]; destruct H2 as [Ht2 H2].
  - split; [lia|]. destruct H2 as (used2 & -> & Hu2). exists (length used + (length used2 + 0))%nat.
    rewrite firstn_used, firstn_used, !map_app, Hu. cbn [mbind option_bind]. rewrite En. cbn [mbind option_bind]. rewrite Ez, Hu2. done.
  - split; [lia|]. destruct H2 as [k Hk]. exists (length used + k)%nat.
    rewrite firstn_used, map_app, Hu. cbn [mbind option_bind]. rewrite En. cbn [mbind option_bind]. by rewrite Ez, Hk.
Qed.

Lemma tcp_exchange_refines query l timeout now :
  let '(r, t) := tcp_exchange query l timeout now in
  now <= t <= Z.max now (cutoff (l_stop l) (afterMilliseconds now timeout)) /\
  exists ready ks ka, tcpExchange query ready (map snd (firstn ks (l_sends l))) (map snd (firstn ka (l_arrivals l))) = r.
Proof.
  unfold tcp_exchange. set (deadline := afterMilliseconds now timeout).
  assert (exists ready ks ka, tcpExchange query ready (map snd (firstn ks (l_sends l))) (map snd (firstn ka (l_arrivals l))) = Some None) as Hno
    by (by exists false, 0%nat, 0%nat).
  destruct (_ || _); [split; [lia|done]|]. destruct (negb (l_bind l)); [split; [lia|done]|].
  destruct (connect_before _ _ _ _) as [ok1 t1] eqn:E1. apply connect_before_bounds in E1. destruct (negb ok1); [split; [lia|done]|].
  pose proof (send_frame_refines (l_stop l) (l_sends l) deadline t1 query) as Hs.
  destruct (send_frame_before _ _ _ _ _) as [[ok2 w] t2]. destruct Hs as [Ht2 [ks Hks]].
  destruct ok2; cbn [negb]; [|split; [lia|done]].
  pose proof (tcp_answer_refines query ks l deadline t2 w Hks) as Ha.
  destruct (tcp_answer _ _ _ _) as [r t]. destruct Ha as [Ht [ka Hka]].
  split; [lia|]. by exists true, ks, ka.
Qed.

(** An exchange that began at [now] ended within its timeout and a slice of a
    stop, and its answer, if any, may be passed on. *)
Definition ends_well (query : packet) (l : link) (timeout now : Z) (x : option (option packet) * Z) : Prop :=
  now <= x.2 <= afterMilliseconds now timeout /\
  (forall s, l_stop l = Some s -> x.2 <= Z.max now (s + kSlice)) /\
  exists answer, x.1 = Some answer /\ forall p, answer = Some p -> acceptable query p.

Lemma cutoff_bounds stop timeout now t :
  0 <= timeout -> now <= t <= Z.max now (cutoff stop (afterMilliseconds now timeout)) ->
  now <= t <= afterMilliseconds now timeout /\ forall s, stop = Some s -> t <= Z.max now (s + kSlice).
Proof. unfold cutoff, afterMilliseconds. intros Hn Ht. split; [destruct stop; lia|]. intros s ->. lia. Qed.

(** C40: an exchange with a resolver ends by its deadline whatever the resolver
    does.  Every wait answers; over UDP and over TCP the exchange, from connecting
    to the last byte, takes no longer than its timeout however slowly the peer
    makes progress, and no longer than 200 milliseconds after the component is
    stopped; it never reads outside what it received, and what it returns is what
    the untimed exchange makes of the reports that came in time: an answer that
    matches the query, with every TTL zero, or none. *)
Theorem exchange_ends_in_time query l timeout now :
  0 <= timeout ->
  (forall c deadline t, wait_answer (l_stop l) c deadline t <> None) /\
  ends_well query l timeout now (udp_exchange query l timeout now) /\
  (exists ready k, udpExchange query ready (map snd (firstn k (l_arrivals l))) = (udp_exchange query l timeout now).1) /\
  ends_well query l timeout now (tcp_exchange query l timeout now) /\
  (exists ready ks ka, tcpExchange query ready (map snd (firstn ks (l_sends l))) (map snd (firstn ka (l_arrivals l))) =
                       (tcp_exchange query l timeout now).1).
Proof.
  intros Hn. split; [intros c d t; apply wait_answers|]. pose proof (udp_exchange_refines query l timeout now) as Hu.
  pose proof (tcp_exchange_refines query l timeout now) as Ht. unfold ends_well.
  destruct (udp_exchange query l timeout now) as [ru tu], (tcp_exchange query l timeout now) as [rt tt]. cbn [fst snd].
  destruct Hu as [Hu (ready & k & <-)], Ht as [Ht (ready' & ks & ka & <-)].
  apply cutoff_bounds in Hu as [Hu1 Hu2]; [|done]. apply cutoff_bounds in Ht as [Ht1 Ht2]; [|done].
  split; [split; [exact Hu1|]; split; [exact Hu2|]; apply udpExchange_acceptable|]. split; [by eauto|].
  split; [split; [exact Ht1|]; split; [exact Ht2|]; apply tcpExchange_acceptable|]. by eauto.
Qed.

(** The exchanges the query handlers make, over a network of such sockets: what
    [Dispatch] shows of them holds of these. *)
Definition timed_exchanges (network : transport -> Z -> Z -> Z -> Z -> link) : Exchanges := {|
  exchange t query source resolver timeout now :=
    let l := network t source resolver timeout now in
    let '(r, ended) := match t with UDP => udp_exchange query l timeout 0 | TCP => tcp_exchange query l timeout 0 end in
    (mjoin r, ended * 1000)
|}.

#[export] Instance timed_exchanges_spec network : ExchangesSpec (timed_exchanges network).
Proof.
  split.
  - intros t query source resolver timeout now Hn. unfold exchange, timed_exchanges. set (l := network _ _ _ _ _). destruct t.
    + pose proof (udp_exchange_refines query l timeout 0) as H. destruct (udp_exchange query l timeout 0) as [r e]. destruct H as [H _].
      apply cutoff_bounds in H as [H _]; [|done]. cbn [snd]. unfold afterMilliseconds, DirectResolvers.ms in *. lia.
    + pose proof (tcp_exchange_refines query l timeout 0) as H. destruct (tcp_exchange query l timeout 0) as [r e]. destruct H as [H _].
      apply cutoff_bounds in H as [H _]; [|done]. cbn [snd]. unfold afterMilliseconds, DirectResolvers.ms in *. lia.
  - intros t query source resolver timeout now response. unfold exchange, timed_exchanges. set (l := network _ _ _ _ _). destruct t.
    + pose proof (udp_exchange_refines query l timeout 0) as H. destruct (udp_exchange query l timeout 0) as [r e].
      destruct H as [_ (ready & k & <-)]. destruct (udpExchange_acceptable query ready (map snd (firstn k (l_arrivals l)))) as (r & -> & H). apply H.
    + pose proof (tcp_exchange_refines query l timeout 0) as H. destruct (tcp_exchange query l timeout 0) as [r e].
      destruct H as [_ (ready & ks & ka & <-)].
      destruct (tcpExchange_acceptable query ready (map snd (firstn ks (l_sends l))) (map snd (firstn ka (l_arrivals l)))) as (r & -> & H). apply H.
Qed.

(** ** The dispatcher's test of deadlines *)

(** The peer of [socketDeadlineTest]: a byte every twenty milliseconds. *)
Definition trickle (n : nat) : schedule recv_result :=
  map (fun i => (Ready (20000 * Z.of_nat i), Received [120])) (seq 0 n).

(** [socketDeadlineTest]: a hundred bytes within 120 milliseconds are not
    received, and it is known within a second; nor is anything once the component
    stopped, whatever time is left. *)
Definition socketDeadlineTest : bool :=
  let '(received, ended) := receive_before None (trickle 50) (afterMilliseconds 0 120) 0 100 [] in
  let '(received2, _) := receive_before (Some ended) (trickle 50) (afterMilliseconds ended 5000) ended 100 [] in
  negb (bool_decide (is_Some received)) && (ended <=? 1000000) && negb (bool_decide (is_Some received2)).

Example deadline_test_passes : socketDeadlineTest = true.
Proof. by vm_compute. Qed.

(** A resolver over TCP that sends its answer one byte at a time, one every
    [gap] microseconds. *)
Definition slow_link (answer : packet) (gap : Z) : link := {|
  l_socket := true; l_nonblocking := true; l_bind := true; l_connect := InProgress (Ready 1000) (Some 0); l_stop := None;
  l_writable := Ready 1000; l_sent := Z.of_nat (length demo_query); l_sends := [(Ready 1000, Sent (length demo_query + 2))];
  l_arrivals := imap (fun i b => (Ready (2000 + gap * Z.of_nat i), Received [b])) (htons (Z.of_nat (length answer)) ++ answer)
|}.

Lemma exchange_ends_in_time_witness :
  tcp_exchange demo_query (slow_link demo_answer 1000) 4000 0 = (Some (Some demo_answer), 2000 + 1000 * (Z.of_nat (length demo_answer) + 1)) /\
  tcp_exchange demo_query (slow_link demo_answer 500000) 4000 0 = (Some None, 4000000) /\
  ends_well demo_query (slow_link demo_answer 500000) 4000 0 (tcp_exchange demo_query (slow_link demo_answer 500000) 4000 0).
Proof.
  split; [by vm_compute|]. split; [by vm_compute|]. apply (exchange_ends_in_time demo_query (slow_link demo_answer 500000) 4000 0). lia.
Defined.
