(* ===== verification/PacketTypes.v ===== *)
(** * PacketTypes: what is sent is bytes

    The types the source gets from its compiler: packets are sequences of bytes,
    a record type and a length are 16-bit values.  The model keeps them as
    integers, so that they stay in range is proved: for the operations of
    [dns-wire.h], for both exchanges over sockets that deliver bytes, and for
    every reply of the dispatcher's handlers. *)
From S2P Require Import Prelude Numbers DnsWire Upstream Dispatch.

(** A packet as the network carries it. *)
Definition wire (p : packet) : Prop := Forall is_byte p.

Lemma wire_lookup p i b : wire p -> p !! i = Some b -> is_byte b.
Proof. intros Hp Hb. unfold wire in Hp. rewrite list.Forall_forall in Hp. apply Hp. by eapply list_elem_of_lookup_2. Qed.

Lemma wire_take n p : wire p -> wire (take n p).
Proof. apply Forall_take. Qed.
Lemma wire_app p q : wire p -> wire q -> wire (p ++ q).
Proof. intros. by apply list.Forall_app. Qed.

Lemma wire_store p i v r : wire p -> is_byte v -> store p i v = Some r -> wire r.
Proof. intros Hp Hv. unfold store. destruct (p !! i); [|done]. intros [= <-]. by apply Forall_insert. Qed.

Lemma wire_fill_zero p at_ n r : wire p -> fill_zero p at_ n = Some r -> wire r.
Proof.
  intros Hp. unfold fill_zero. case_match; [|done]. intros [= <-]. apply wire_app; [by apply wire_take|].
  apply wire_app; [|by apply Forall_drop]. apply list.Forall_forall. intros b Hb. apply elem_of_replicate in Hb as [-> _]. by vm_compute.
Qed.

(** A check of every byte. *)
Lemma all_bytes (P : Z -> bool) b : forallb P (seqZ 0 256) = true -> is_byte b -> P b = true.
Proof. intros H Hb. rewrite forallb_forall in H. apply H, list_elem_of_In, elem_of_seqZ. unfold is_byte in Hb. lia. Qed.

Definition byteb (b : Z) : bool := (0 <=? b) && (b <? 256).
Lemma byteb_true b : byteb b = true -> is_byte b.
Proof. unfold byteb, is_byte. intros H. bool_to_prop. lia. Qed.

Lemma byte_lor_high b : is_byte b -> is_byte (Z.lor b 128).
Proof. intros Hb. apply byteb_true, (all_bytes (fun b => byteb (Z.lor b 128))); [by vm_compute|done]. Qed.
Lemma byte_failure b : is_byte b -> is_byte (Z.lor (Z.land b 240) 2).
Proof. intros Hb. apply byteb_true, (all_bytes (fun b => byteb (Z.lor (Z.land b 240) 2))); [by vm_compute|done]. Qed.
Lemma byte_high_nibble b : is_byte b -> is_byte (Z.land b 240).
Proof. intros Hb. apply byteb_true, (all_bytes (fun b => byteb (Z.land b 240))); [by vm_compute|done]. Qed.

Lemma makeServfail_wire query r : wire query -> makeServfail query = Some r -> wire r.
Proof.
  intros Hq. unfold makeServfail. case_match; [intros [= <-]; constructor|]. destruct (query !! 2%nat) as [b2|] eqn:E2; [|done]. cbn [mbind option_bind].
  destruct (store query 2 _) as [r1|] eqn:E1; [|done]. cbn [mbind option_bind].
  assert (wire r1) as H1 by (eapply wire_store; [exact Hq| |exact E1]; by eapply byte_lor_high, wire_lookup).
  destruct (r1 !! 3%nat) as [b3|] eqn:E3; [|done]. cbn [mbind option_bind]. destruct (store r1 3 _) as [r2|] eqn:E4; [|done].
  cbn [mbind option_bind]. apply wire_fill_zero. eapply wire_store; [exact H1| |exact E4]. by eapply byte_failure, wire_lookup.
Qed.

Lemma zero_records_wire n p offset ok r : wire p -> zero_records n p offset = Some (ok, r) -> wire r.
Proof.
  revert p offset. induction n as [|n IH]; intros p offset Hp; cbn [zero_records]; [by intros [= _ <-]|].
  destruct (skipDnsName p offset) as [[good o]|]; [|done]. cbn [mbind option_bind]. destruct (_ || _); [by intros [= _ <-]|].
  destruct (read16 p o) as [type|]; [|done]. cbn [mbind option_bind].
  destruct (if negb (type =? 41) then _ else _) as [p'|] eqn:E; [|done]. cbn [mbind option_bind].
  assert (wire p') as Hp' by (destruct (negb _); [by eapply wire_fill_zero|by injection E as <-]).
  destruct (read16 p' _) as [n'|]; [|done]. cbn [mbind option_bind]. cbv zeta. destruct (length p' <? _)%nat; [by intros [= _ <-]|]. by apply IH.
Qed.

Lemma zeroed_wire p r : wire p -> zeroed p = Some (Some r) -> wire r.
Proof.
  intros Hp. unfold zeroed. destruct (zeroResponseTtls p) as [[[] q]|] eqn:E; [|done|done]. intros [= <-]. unfold zeroResponseTtls in E.
  case_match; [done|].
  repeat match type of E with context [read16 ?p ?i] => destruct (read16 p i); [|done]; cbn [mbind option_bind] in E end.
  match type of E with context [skip_questions ?n ?p ?i] => destruct (skip_questions n p i) as [[offset|]|] end; [|done|done].
  cbn [mbind option_bind] in E. by eapply zero_records_wire.
Qed.

(** ** Exchanges *)

(** A socket delivers bytes. *)
Definition delivers (outcomes : list recv_result) : Prop :=
  Forall (fun r => match r with Received bytes => wire bytes | _ => True end) outcomes.

Lemma receive_loop_wire outcomes size data r rest :
  delivers outcomes -> wire data -> receive_loop outcomes size data = Some (r, rest) -> wire r /\ delivers rest.
Proof.
  intros Ho. revert data. induction Ho as [|o outcomes Ho Hs IH]; intros data Hd; cbn [receive_loop];
    (destruct (size <=? length data)%nat; [intros [= <- <-]; split; [done|first [apply Forall_nil_2 | by apply Forall_cons_2]]|]); [done|].
  destruct o as [| |[|b bytes]]; try done; [by apply IH|]. apply IH, wire_app; [done|by apply wire_take].
Qed.

Lemma udp_receive_wire query outcomes r : delivers outcomes -> udp_receive query outcomes = Some (Some r) -> wire r.
Proof.
  induction 1 as [|o outcomes Ho _ IH]; cbn [udp_receive]; [done|]. destruct o as [| |[|b bytes]]; try done.
  destruct (matchingResponse query (b :: bytes)) as [[]|]; cbn [mbind option_bind negb]; [by apply zeroed_wire|done|done].
Qed.

Lemma tcpExchange_wire query ready sends outcomes r : delivers outcomes -> tcpExchange query ready sends outcomes = Some (Some r) -> wire r.
Proof.
  intros Ho. unfold tcpExchange. destruct (_ || _); [done|]. unfold receiveAll.
  destruct (receive_loop outcomes 2 []) as [[header rest]|] eqn:E; [|done].
  apply receive_loop_wire in E as [_ Hrest]; [|done|constructor]. destruct (read16 header 0) as [n|]; [|done]. cbn [mbind option_bind]. cbv zeta.
  case_match; [done|]. destruct (receive_loop rest _ []) as [[response rest']|] eqn:E2; [|done].
  apply receive_loop_wire in E2 as [Hr _]; [|done|constructor].
  destruct (matchingResponse query response) as [[]|]; cbn [mbind option_bind negb]; [by apply zeroed_wire|done|done].
Qed.

(** What the handlers rely on: an exchange gives bytes. *)
Class ExchangesTyped (E : Exchanges) := {
  exchange_typed t query source resolver timeout now response : (exchange t query source resolver timeout now).1 = Some response -> wire response
}.

#[export] Instance socket_exchanges_typed os :
  (forall t source resolver timeout now, delivers (receives (os t source resolver timeout now))) -> ExchangesTyped (socket_exchanges os).
Proof.
  intros Ho. split. intros t query source resolver timeout now response. specialize (Ho t source resolver timeout now). cbn [exchange socket_exchanges fst].
  destruct t; [destruct (udpExchange _ _ _) as [r|] eqn:E|destruct (tcpExchange _ _ _ _) as [r|] eqn:E]; cbn [mjoin option_join]; try done; intros ->.
  - unfold udpExchange in E. destruct (negb _); [done|]. by eapply udp_receive_wire.
  - by eapply tcpExchange_wire.
Qed.

Section Handlers.
Context {E : Exchanges} {S : ExchangesSpec E} {T : ExchangesTyped E} `{WideChars}.

Definition wire_response (o : option packet) : Prop := forall p, o = Some p -> wire p.

Lemma direct_search_wire t query routes state deadline now share p index :
  (direct_search t query routes state deadline now share).1.1.1 = Some (p, index) -> directDns routes <> [] -> wire p.
Proof.
  intros Hr Hne. unfold direct_search in Hr.
  pose proof (DirectResolvers.directExchange_spec
    (fun index timeout now => exchange t query (directSource routes) (nth index (directDns routes) 0) timeout now)
    (fun index timeout now => exchange_in_time t query _ _ timeout now) state (length (directDns routes)) deadline now share) as H1.
  destruct (DirectResolvers.directExchange _ _ _ _ _) as [[[r s'] ended] log]. cbn [fst] in Hr.
  destruct H1 as (_ & _ & _ & H4); [destruct (directDns routes); simpl; [done|lia]|].
  destruct (H4 p index Hr) as (_ & timeout & t' & He). by eapply exchange_typed.
Qed.

Lemma complete_truncated_wire query source resolver deadline out out' :
  wire_response (response out) -> complete_truncated query source resolver deadline out = Some out' -> wire_response (response out').
Proof.
  intros Ho. unfold complete_truncated. destruct (response out) as [r|] eqn:Er; [|intros [= <-]; by rewrite Er].
  cbv zeta. destruct (_ && _); [|intros [= <-]; by rewrite Er].
  pose proof (fun w => exchange_typed TCP query source resolver (DirectResolvers.remainingMilliseconds deadline (finished out)) (finished out) w) as Hw.
  destruct (exchange TCP query source resolver _ (finished out)) as [[w|] elapsed]; [|intros [= <-] p [= <-]; by apply Ho].
  destruct (advertisedUdpSize query) as [size|]; [|done]. cbn [mbind option_bind]. intros [= <-]. destruct (_ <=? size); intros p [= <-]; [by apply Hw|by apply Ho].
Qed.

Lemma exchangeUdpRoute_wire query tunnel routes lease state now out :
  exchangeUdpRoute query tunnel routes lease state now = Some out -> wire_response (response out).
Proof.
  unfold exchangeUdpRoute. destruct (negb lease); [by intros [= <-] p|]. cbv zeta. destruct tunnel.
  - destruct (exchange UDP query _ _ _ now) as [r elapsed] eqn:Ex. apply complete_truncated_wire. cbn [response]. intros p ->.
    eapply (exchange_typed UDP query). by rewrite Ex.
  - destruct (direct_search _ _ _ _ _ _ _) as [[[r s'] ended] asked] eqn:Ed. destruct (directDns routes !! _) as [resolver|] eqn:El; [|done].
    cbn [mbind option_bind]. apply complete_truncated_wire. cbn [response]. destruct r as [[p0 index]|]; [|done]. intros p [= <-].
    eapply direct_search_wire; [by rewrite Ed|]. intros Hz. by rewrite Hz in El.
Qed.

Lemma exchangeTcpRoute_wire query tunnel routes lease state now :
  directDns routes <> [] -> wire_response (response (exchangeTcpRoute query tunnel routes lease state now)).
Proof.
  intros Hne. unfold exchangeTcpRoute. destruct (negb lease); [done|]. cbv zeta. destruct tunnel.
  - destruct (exchange TCP query _ _ _ now) as [r elapsed] eqn:Ex. cbn [response]. intros p ->. eapply (exchange_typed TCP query). by rewrite Ex.
  - destruct (direct_search TCP _ _ _ _ _ _) as [[[r s'] ended] asked] eqn:Ed. destruct (match r with None => true | _ => _ end).
    + destruct (direct_search UDP _ _ _ _ _ _) as [[[r2 s2] e2] a2] eqn:Ed2. cbn [response]. destruct r2 as [[p0 i]|]; [|done]. intros p [= <-].
      eapply direct_search_wire; [by rewrite Ed2|done].
    + cbn [response]. destruct r as [[p0 i]|]; [|done]. intros p [= <-]. eapply direct_search_wire; [by rewrite Ed|done].
Qed.

Lemma settle_wire failure tunnel gen unsafe out : wire failure -> wire_response (response out) -> wire (reply (settle failure tunnel gen unsafe out)).
Proof. intros Hf Ho. unfold settle. cbn [reply]. destruct (_ && _); [done|]. destruct (response out) as [p|]; [by apply Ho|done]. Qed.

Lemma handleUdpQuery_wire query c state h : wire query -> handleUdpQuery query c state = Some h -> wire (reply h).
Proof.
  intros Hq. unfold handleUdpQuery. destruct (parseQuestion query) as [q|]; [|done]. cbn [mbind option_bind].
  destruct (makeServfail query) as [failure|] eqn:Ef; [|done]. cbn [mbind option_bind]. pose proof (makeServfail_wire _ _ Hq Ef) as Hf.
  destruct q, (route c) as [[tunnel gen]|]; try (by intros [= <-]).
  destruct (exchangeUdpRoute _ _ _ _ _ _) as [out|] eqn:Eo; [|done]. cbn [mbind option_bind]. intros [= <-].
  by eapply settle_wire, exchangeUdpRoute_wire.
Qed.

Lemma answerLiveness_wire query r : wire query -> answerLiveness query = Some (Some r) -> wire r.
Proof.
  intros Hq. unfold answerLiveness. case_match; [done|]. destruct (parseQuestion query) as [[q|]|]; [|done|done]. cbn [mbind option_bind].
  destruct (negb _); [done|]. destruct (makeServfail query) as [f|] eqn:Ef; [|done]. cbn [mbind option_bind].
  pose proof (makeServfail_wire _ _ Hq Ef) as Hf. destruct (f !! 3%nat) as [b|] eqn:Eb; [|done]. cbn [mbind option_bind].
  destruct (store f 3 _) as [r'|] eqn:Es; [|done]. cbn [mbind option_bind]. intros [= <-]. eapply wire_store; [exact Hf| |exact Es].
  by eapply byte_high_nibble, wire_lookup.
Qed.

Lemma tcp_requests_wire fuel requests state l :
  Forall (fun r => (forall q, r.1.1 = Some q -> wire q) /\ directDns (routes r.1.2) <> []) requests ->
  tcp_requests fuel requests state = Some l -> Forall (fun h => wire (reply h)) l.
Proof.
  revert requests state l. induction fuel as [|fuel IH]; intros requests state l Hr; [intros [= <-]; constructor|].
  destruct Hr as [|[[query c] sent] requests [Hq Hd] Hr]; [intros [= <-]; constructor|]. cbn [tcp_requests]. cbn [fst snd] in *.
  destruct query as [query|]; [|intros [= <-]; constructor]. specialize (Hq query eq_refl). destruct (_ <? 12)%nat; [intros [= <-]; constructor|].
  destruct (handleTcpRequest query c state) as [h|] eqn:Eh; [|done]. cbn [mbind option_bind].
  assert (wire (reply h)) as Hh.
  { unfold handleTcpRequest in Eh. destruct (parseQuestion query) as [q|]; [|done]. cbn [mbind option_bind] in Eh.
    destruct (makeServfail query) as [failure|] eqn:Ef; [|done]. cbn [mbind option_bind] in Eh. pose proof (makeServfail_wire _ _ Hq Ef).
    destruct q, (route c) as [[tunnel gen]|]; injection Eh as <-; try done. by apply settle_wire, exchangeTcpRoute_wire. }
  destruct (negb sent); [intros [= <-]; by repeat constructor|].
  destruct (tcp_requests fuel requests _) as [rest|] eqn:Er; [|done]. cbn [mbind option_bind]. intros [= <-]. constructor; [done|]. by eapply IH.
Qed.

End Handlers.

Lemma wire_checked p : forallb byteb p = true -> wire p.
Proof. intros Hp. apply list.Forall_forall. intros b Hb. rewrite forallb_forall in Hp. by apply byteb_true, Hp, list_elem_of_In. Qed.

Lemma demo_delivers t source resolver timeout now : delivers (receives (demo_os t source resolver timeout now)).
Proof. unfold delivers, demo_os. cbn [receives]. destruct (resolver =? 8); [|constructor]. constructor; [|constructor].
  apply wire_checked. vm_compute. reflexivity.
Qed.

