(* ===== verification/Supervisor.v ===== *)
(** * Supervisor: keeping a ready dispatcher behind the DNS rule

    Models [src/src/native/dispatcher-supervisor.h]: one pass of [superviseLoop]
    is a function of its state and of what it observes of the system (files,
    processes, the liveness probe), and yields the actions it takes.  Times are
    [GetTickCount64] milliseconds. *)
From stdpp Require Import sorting.
From S2P Require Import Prelude Numbers DnsWire Dispatch.

Definition kSuspendAfterMilliseconds : Z := 15000.
Definition kRestartSpacingMilliseconds : Z := 1000.
Definition kHelperRetryMilliseconds : Z := 2000.
Definition kHelperTimeoutMilliseconds : Z := 60000.
Definition kLivenessIntervalMilliseconds : Z := 1000.
Definition kLivenessFailures : Z := 3.
Definition kLivenessFailureGraceMilliseconds : Z := 10000.
Definition kStartupDeadlineMilliseconds : Z := 10000.

Definition dispatcherFailurePersistent (failures firstFailure now : Z) : bool :=
  (kLivenessFailures <=? failures) && (firstFailure <=? now) &&
  (kLivenessFailureGraceMilliseconds <=? u64 (now - firstFailure)).

(** ** The published process identifier *)

(** [find_first_of("\r\n")], or the whole text. *)
Fixpoint first_line (text : list Z) : list Z :=
  match text with
  | [] => []
  | c :: rest => if (c =? 13) || (c =? 10) then [] else c :: first_line rest
  end.

Definition statusProcessId (status : list Z) : Z :=
  if bool_decide (take 4 status = str "pid=")
  then default 0 (parseDecimal (first_line (drop 4 status)) (2 ^ 32 - 1)) else 0.

(** [publishLoaded]'s status record of a dispatcher. *)
Definition status_text (processId generation : Z) : list Z :=
  str "pid=" ++ to_string processId ++ [13; 10] ++ str "generation=" ++ to_string generation ++ [13; 10].

(** [adoptDispatcher]: the process named by the pid file's [text], if it opens
    and still runs with the dispatcher's image. *)
Definition adoptDispatcher (text : list Z) (opens running image_matches : Z -> bool) : option Z :=
  let candidate := statusProcessId (str "pid=" ++ text) in
  if candidate =? 0 then None
  else if negb (opens candidate) then None
  else if negb (running candidate) || negb (image_matches candidate) then None
  else Some candidate.

(** [republishProcessId]: whether the pid record is rewritten, and its text. *)
Definition republished (pid_file : list Z) (processId : Z) : option (list Z) :=
  if bool_decide (pid_file = to_string processId) then None else Some (to_string processId).

(** ** The owned rule *)

(** One policy key, its values as read with their terminators; [None] when it
    cannot be opened. *)
Record policy_rule := { DisplayName : list Z; Comment : list Z; RuleName : list Z; GenericDNSServers : list Z }.

Definition owned_rule_of (rule : policy_rule) : bool :=
  bool_decide (DisplayName rule = str "WireGuard Program Split local dispatcher" ++ [0]) &&
  bool_decide (Comment rule = str "Owned by WireGuardProgramSplit; safe to remove on recovery." ++ [0]) &&
  bool_decide (RuleName rule = [46; 0; 0]) &&
  bool_decide (GenericDNSServers rule = str "127.0.0.1" ++ [0]).

Definition ownedRulePresent (policies : option (list (option policy_rule))) : bool :=
  match policies with
  | None => false
  | Some keys => existsb (fun key => match key with Some rule => owned_rule_of rule | None => false end) keys
  end.

(** ** The liveness probe *)

Definition liveness_query (id : Z) : packet :=
  [Z.shiftr id 8; Z.land id 255; 1; 0; 0; 1; 0; 0; 0; 0; 0; 0] ++
  concat (map (fun label => Z.of_nat (length label) :: label)
    [str "liveness"; str "wireguard-program-split"; str "invalid"]) ++ [0; 0; 1; 0; 1].

Definition liveness_reply (id : Z) (reply : packet) : bool :=
  (12 <=? length reply)%nat && (rd reply 0 =? Z.shiftr id 8) && (rd reply 1 =? Z.land id 255) &&
  has_bits (rd reply 2) 128.

(** [dispatcherAnswers] once the query is sent: the datagrams that arrive
    before the deadline, [None] for a wait or a receive that fails. *)
Fixpoint dispatcherAnswers (id : Z) (received : list (option packet)) : bool :=
  match received with
  | [] | None :: _ => false
  | Some reply :: received => liveness_reply id reply || dispatcherAnswers id received
  end.

(** ** State and observations *)

Inductive helper_action := Resume | Suspend.

Record supervisor := {
  child : bool; childId : Z; lastStart : Z; unreadySince : Z;
  helper : option helper_action; helperStarted : Z; helperEnded : Z;
  lastProbe : Z; childSince : Z; failures : Z; firstFailure : Z; answered : bool
}.

Definition begin : supervisor :=
  {| child := false; childId := 0; lastStart := 0; unreadySince := 0; helper := None; helperStarted := 0;
     helperEnded := 0; lastProbe := 0; childSince := 0; failures := 0; firstFailure := 0; answered := false |}.

(** What one pass sees of the system, in the order it looks. *)
Record observation := {
  now : Z;
  helper_running : bool;             (* the helper, at the first wait *)
  helper_still_running : bool;       (* the helper, after a timeout ended it *)
  supervised : bool;                 (* the supervised file exists *)
  child_running : bool;              (* the held process, before the lock *)
  lock_acquired : bool;
  supervised_locked : bool;          (* the supervised file, under the lock *)
  child_running_locked : bool;       (* the held process, under the lock *)
  adopted : option Z;                (* [adoptDispatcher] *)
  started : option Z;                (* [startDispatcher] *)
  alive_check : bool;                (* the process held by then *)
  status : list Z;                   (* the status file *)
  probe : bool;                      (* [dispatcherAnswers] *)
  pid_file : list Z; suspended_file : bool; owned_rule : bool; helper_starts : bool
}.

Inductive action :=
  | EndHelper | Release | Adopt (id : Z) | Start (id : option Z) | Ended (id : Z) | Probe (ok : bool) | Replace
  | Republish (text : list Z) | Helper (a : helper_action).

#[export] Instance helper_action_eq_dec : EqDecision helper_action.
Proof. solve_decision. Defined.
#[export] Instance action_eq_dec : EqDecision action.
Proof. solve_decision. Defined.

Definition set_liveness s lp f ff a := {| child := child s; childId := childId s; lastStart := lastStart s;
  unreadySince := unreadySince s; helper := helper s; helperStarted := helperStarted s; helperEnded := helperEnded s;
  lastProbe := lp; childSince := childSince s; failures := f; firstFailure := ff; answered := a |}.
Definition resetLiveness s := set_liveness s 0 0 0 false.
Definition set_child s c id since := {| child := c; childId := id; lastStart := lastStart s;
  unreadySince := unreadySince s; helper := helper s; helperStarted := helperStarted s; helperEnded := helperEnded s;
  lastProbe := lastProbe s; childSince := since; failures := failures s; firstFailure := firstFailure s; answered := answered s |}.
Definition set_start s t := {| child := child s; childId := childId s; lastStart := t;
  unreadySince := unreadySince s; helper := helper s; helperStarted := helperStarted s; helperEnded := helperEnded s;
  lastProbe := lastProbe s; childSince := childSince s; failures := failures s; firstFailure := firstFailure s; answered := answered s |}.
Definition set_unready s t := {| child := child s; childId := childId s; lastStart := lastStart s;
  unreadySince := t; helper := helper s; helperStarted := helperStarted s; helperEnded := helperEnded s;
  lastProbe := lastProbe s; childSince := childSince s; failures := failures s; firstFailure := firstFailure s; answered := answered s |}.
Definition set_helper s h st en := {| child := child s; childId := childId s; lastStart := lastStart s;
  unreadySince := unreadySince s; helper := h; helperStarted := st; helperEnded := en;
  lastProbe := lastProbe s; childSince := childSince s; failures := failures s; firstFailure := firstFailure s; answered := answered s |}.

(** ** The parts of one pass *)

(** A helper past its time limit is ended; an ended one is collected. *)
Definition collect_helper (s : supervisor) (o : observation) : supervisor * list action :=
  match helper s with
  | Some _ =>
      let a := if helper_running o && (kHelperTimeoutMilliseconds <=? u64 (now o - helperStarted s)) then [EndHelper] else [] in
      (if negb (helper_still_running o) then set_helper s None (helperStarted s) (now o) else s, a)
  | None => (s, [])
  end.

(** Under the component lock: an ended process is dropped, a running one
    adopted, or a new one started. *)
Definition hold_dispatcher (s : supervisor) (o : observation) : supervisor * list action :=
  if child s && child_running o then (s, [])
  else if negb (lock_acquired o) || negb (supervised_locked o) then (s, [])
  else
    let '(s, a1) := if child s && negb (child_running_locked o)
                    then (resetLiveness (set_child s false (childId s) (childSince s)), [Ended (childId s)]) else (s, []) in
    let '(s, a2) := if negb (child s) then
                      match adopted o with
                      | Some id => (resetLiveness (set_child s true id (now o)), [Adopt id])
                      | None => (s, [])
                      end else (s, []) in
    let '(s, a3) := if negb (child s) && (kRestartSpacingMilliseconds <=? u64 (now o - lastStart s)) then
                      (resetLiveness (set_child (set_start s (now o)) (bool_decide (is_Some (started o)))
                         (default (childId s) (started o)) (now o)), [Start (started o)])
                    else (s, []) in
    (s, a1 ++ a2 ++ a3).

(** The liveness probe, once a second, and the replacement of a process whose
    failure persists. *)
Definition probe_dispatcher (s : supervisor) (o : observation) (alive published : bool) : supervisor * list action :=
  if alive && (published || (kStartupDeadlineMilliseconds <=? u64 (now o - childSince s))) &&
     (kLivenessIntervalMilliseconds <=? u64 (now o - lastProbe s))
  then
    if probe o then (set_liveness s (now o) 0 0 true, [Probe true])
    else
      let first := if failures s =? 0 then now o else firstFailure s in
      let n := u32 (failures s + 1) in
      if dispatcherFailurePersistent n first (now o)
      then (set_liveness s (now o) n first false, [Probe false; Replace])
      else (set_liveness s (now o) n first (answered s), [Probe false])
  else (s, []).

(** The rule must name a ready dispatcher: suspend after fifteen seconds
    without one, resume once one is ready. *)
Definition reconcile_rule (s : supervisor) (o : observation) (ready : bool) : supervisor * list action :=
  let s := if ready then set_unready s 0 else if unreadySince s =? 0 then set_unready s (now o) else s in
  let wanted := if ready && suspended_file o then Some Resume
                else if negb ready && (kSuspendAfterMilliseconds <=? u64 (now o - unreadySince s)) && owned_rule o
                then Some Suspend else None in
  match wanted, helper s with
  | Some a, None =>
      if kHelperRetryMilliseconds <=? u64 (now o - helperEnded s) then
        (if helper_starts o then set_helper s (Some a) (now o) (helperEnded s)
         else set_helper s None (now o) (now o), [Helper a])
      else (s, [])
  | _, _ => (s, [])
  end.

(** One pass of [superviseLoop]: the state, the actions, and whether a ready
    dispatcher was seen ([None] when the stack is not supervised). *)
Definition pass (s : supervisor) (o : observation) : supervisor * list action * option bool :=
  let '(s, a0) := collect_helper s o in
  if negb (supervised o) then
    (resetLiveness (set_unready (set_child s false (childId s) (childSince s)) 0), a0 ++ [Release], None)
  else
    let '(s, a1) := hold_dispatcher s o in
    let alive := child s && alive_check o in
    let published := alive && (statusProcessId (status o) =? childId s) in
    let '(s, a2) := probe_dispatcher s o alive published in
    let ready := published && answered s && (failures s =? 0) in
    let a3 := if ready then match republished (pid_file o) (childId s) with Some text => [Republish text] | None => [] end
              else [] in
    let '(s, a4) := reconcile_rule s o ready in
    (s, a0 ++ a1 ++ a2 ++ a3 ++ a4, Some ready).

(** ** Runs *)

(** One pass as it is remembered, the newest first. *)
Record passed := { at_ : Z; acts : list action; verdict : option bool }.

(** The passes of [superviseLoop] over the observations [obs], newest first. *)
Fixpoint run (obs : list observation) : supervisor * list passed :=
  match obs with
  | [] => (begin, [])
  | o :: obs =>
      let '(s, h) := run obs in
      let '(s, a, v) := pass s o in
      (s, {| at_ := now o; acts := a; verdict := v |} :: h)
  end.

(** [GetTickCount64] is a positive 64-bit count that never goes back. *)
Definition clock (obs : list observation) : Prop :=
  Forall (fun o => 0 < now o < 2 ^ 64) obs /\ StronglySorted (fun o o' => now o' <= now o) obs.

(** Every action with its time, newest first. *)
Definition events (h : list passed) : list (Z * action) :=
  concat (map (fun p => map (pair (at_ p)) (rev (acts p))) h).

(** The times of the unanswered probes of the process held now, since it was
    taken or last answered. *)
Fixpoint streak (evs : list (Z * action)) : list Z :=
  match evs with
  | [] => []
  | (t, a) :: evs =>
      match a with
      | Probe false => t :: streak evs
      | Probe true | Release | Adopt _ | Start _ | Ended _ => []
      | EndHelper | Replace | Republish _ | Helper _ => streak evs
      end
  end.

(** The time of the last probe of the process held now, if it answered. *)
Fixpoint last_answer (evs : list (Z * action)) : option Z :=
  match evs with
  | [] => None
  | (t, a) :: evs =>
      match a with
      | Probe true => Some t
      | Probe false | Release | Adopt _ | Start _ | Ended _ => None
      | EndHelper | Replace | Republish _ | Helper _ => last_answer evs
      end
  end.

(** The start of the unready passes the history ends with. *)
Fixpoint unready_start (h : list passed) : option Z :=
  match h with
  | [] => None
  | p :: h => match verdict p with Some false => Some (default (at_ p) (unready_start h)) | _ => None end
  end.

(** ** Time stamps *)

(** Every remembered time lies between zero and [t]. *)
Definition stamps (s : supervisor) (t : Z) : Prop :=
  Forall (fun x => 0 <= x <= t)
    [lastStart s; unreadySince s; helperStarted s; helperEnded s; lastProbe s; childSince s; firstFailure s].

Lemma stamps_unfold s t :
  stamps s t <-> 0 <= lastStart s <= t /\ 0 <= unreadySince s <= t /\ 0 <= helperStarted s <= t /\
    0 <= helperEnded s <= t /\ 0 <= lastProbe s <= t /\ 0 <= childSince s <= t /\ 0 <= firstFailure s <= t.
Proof. unfold stamps. rewrite !list.Forall_cons, list.Forall_nil. tauto. Qed.

Ltac stamps := rewrite !stamps_unfold; repeat (case_match; simplify_eq); simpl; lia.

Lemma stamps_weaken s t t' : stamps s t -> t <= t' -> stamps s t'.
Proof. stamps. Qed.

Lemma collect_stamps s o : stamps s (now o) -> 0 <= now o -> stamps (collect_helper s o).1 (now o).
Proof. unfold collect_helper. stamps. Qed.

Lemma hold_stamps s o : stamps s (now o) -> 0 <= now o -> stamps (hold_dispatcher s o).1 (now o).
Proof. unfold hold_dispatcher. stamps. Qed.

Lemma probe_stamps s o alive published :
  stamps s (now o) -> 0 <= now o -> stamps (probe_dispatcher s o alive published).1 (now o).
Proof. unfold probe_dispatcher. stamps. Qed.

Lemma reconcile_stamps s o ready : stamps s (now o) -> 0 <= now o -> stamps (reconcile_rule s o ready).1 (now o).
Proof. unfold reconcile_rule. stamps. Qed.

(** ** The events of a pass *)

(** The events [a] at [t] on top of [evs]. *)
Definition push (t : Z) (a : list action) (evs : list (Z * action)) : list (Z * action) := map (pair t) (rev a) ++ evs.

Lemma push_app t a b evs : push t (a ++ b) evs = push t b (push t a evs).
Proof. unfold push. by rewrite rev_app_distr, map_app, app_assoc. Qed.

(** Every event satisfies [P] of what preceded it. *)
Definition justified (P : Z -> action -> list (Z * action) -> Prop) (evs : list (Z * action)) : Prop :=
  forall post t a pre, evs = post ++ (t, a) :: pre -> P t a pre.

Lemma justified_nil P : justified P [].
Proof. by intros [|]. Qed.

Lemma justified_cons P t a evs : P t a evs -> justified P evs -> justified P ((t, a) :: evs).
Proof. intros H J [|e post] t' a' pre E; simplify_eq/=; [done|by eapply J]. Qed.

(** What the liveness state means: the failures are unanswered probes of the
    process held, the first at [firstFailure]; an answer stands since
    [lastProbe]. *)
Definition liveness_ok (s : supervisor) (evs : list (Z * action)) : Prop :=
  0 <= failures s <= Z.of_nat (length (streak evs)) /\
  (0 < failures s -> firstFailure s ∈ streak evs) /\
  (answered s = true -> failures s = 0 -> last_answer evs = Some (lastProbe s)).

(** A process is replaced after three unanswered probes over ten seconds; a
    process is started a second after the previous start at the earliest. *)
Definition event_ok (t : Z) (a : action) (pre : list (Z * action)) : Prop :=
  match a with
  | Replace => (3 <= length (streak pre))%nat /\ exists t0, t0 ∈ streak pre /\ t0 + kLivenessFailureGraceMilliseconds <= t
  | Start _ => forall t' id, (t', Start id) ∈ pre -> t' + kRestartSpacingMilliseconds <= t
  | _ => True
  end.

Definition starts_ok (s : supervisor) (evs : list (Z * action)) : Prop :=
  forall t id, (t, Start id) ∈ evs -> t <= lastStart s.

Definition events_ok (s : supervisor) (evs : list (Z * action)) : Prop :=
  liveness_ok s evs /\ starts_ok s evs /\ justified event_ok evs.

Ltac liveness_reset := split; [|split]; simpl; [lia|lia|done].

(** Actions that say nothing about the dispatcher. *)
Lemma push_quiet s t a evs :
  events_ok s evs -> Forall (fun x => match x with EndHelper | Republish _ | Helper _ => True | _ => False end) a ->
  events_ok s (push t a evs).
Proof.
  intros H. induction a as [|x a IH] using rev_ind; [done|]. intros [Ha Hx]%Forall_app.
  rewrite list.Forall_singleton in Hx. specialize (IH Ha). destruct IH as (L & S & J).
  rewrite push_app. unfold push at 1. simpl.
  split; [destruct x; solve [contradiction | exact L]|]. split; [|apply justified_cons; [by destruct x|done]].
  intros t' id [E|E]%elem_of_cons; [simplify_eq; done|by eapply S].
Qed.

Lemma events_ok_frame s s' evs :
  events_ok s evs -> failures s' = failures s -> firstFailure s' = firstFailure s -> answered s' = answered s ->
  lastProbe s' = lastProbe s -> lastStart s' = lastStart s -> events_ok s' evs.
Proof. intros (L & S & J) E1 E2 E3 E4 E5. unfold events_ok, liveness_ok, starts_ok. by rewrite E1, E2, E3, E4, E5. Qed.

Lemma collect_events s o evs :
  events_ok s evs -> events_ok (collect_helper s o).1 (push (now o) (collect_helper s o).2 evs).
Proof.
  intros H. apply push_quiet.
  - eapply events_ok_frame; [done|..]; unfold collect_helper; by repeat case_match.
  - unfold collect_helper. repeat case_match; simpl; auto.
Qed.

Lemma reconcile_events s o ready evs :
  events_ok s evs -> events_ok (reconcile_rule s o ready).1 (push (now o) (reconcile_rule s o ready).2 evs).
Proof.
  intros H. apply push_quiet.
  - eapply events_ok_frame; [done|..]; unfold reconcile_rule; by repeat case_match.
  - unfold reconcile_rule. repeat case_match; simpl; auto.
Qed.

(** Taking or dropping a process forgets what is known of the previous one. *)
Lemma events_ok_reset s t a evs :
  (match a with Release | Adopt _ | Ended _ => True | _ => False end) -> events_ok s evs ->
  forall s', lastStart s' = lastStart s -> events_ok (resetLiveness s') ((t, a) :: evs).
Proof.
  intros Ha (L & S & J) s' Hs. split; [by destruct a; liveness_reset|]. split.
  - intros t' id [E|E]%elem_of_cons; [by simplify_eq|]. simpl. rewrite Hs. by eapply S.
  - apply justified_cons; [by destruct a|done].
Qed.

Lemma events_ok_start s t id evs :
  lastStart s <= t -> 0 <= lastStart s -> t < 2 ^ 64 -> kRestartSpacingMilliseconds <= u64 (t - lastStart s) ->
  events_ok s evs -> forall s', lastStart s' = t -> events_ok (resetLiveness s') ((t, Start id) :: evs).
Proof.
  intros H1 H2 H3 H4 (L & S & J) s' Hs. rewrite uN_id in H4 by lia. unfold kRestartSpacingMilliseconds in H4.
  split; [liveness_reset|]. split.
  - intros t' id' [E|E]%elem_of_cons; simpl; rewrite Hs; [by simplify_eq|]. specialize (S t' id' E). lia.
  - apply justified_cons; [|done]. simpl. intros t' id' E. specialize (S t' id' E). unfold kRestartSpacingMilliseconds. lia.
Qed.

Lemma hold_events s o evs :
  stamps s (now o) -> now o < 2 ^ 64 -> events_ok s evs ->
  events_ok (hold_dispatcher s o).1 (push (now o) (hold_dispatcher s o).2 evs).
Proof.
  rewrite stamps_unfold. intros Ht Hn H. unfold hold_dispatcher.
  destruct (child s && child_running o); [done|]. destruct (negb _ || _); [done|].
  set (r1 := if child s && _ then _ else _).
  assert (events_ok r1.1 (push (now o) r1.2 evs) /\ lastStart r1.1 = lastStart s) as [H1 L1].
  { unfold r1. destruct (child s && _); [|done]. split; [by eapply events_ok_reset|done]. }
  destruct r1 as [s1 a1]. simpl in H1, L1.
  set (r2 := if negb (child s1) then _ else _).
  assert (events_ok r2.1 (push (now o) (a1 ++ r2.2) evs) /\ lastStart r2.1 = lastStart s) as [H2 L2].
  { rewrite push_app. unfold r2. destruct (negb (child s1)); [|done]. destruct (adopted o); [|done].
    split; [by eapply events_ok_reset|done]. }
  destruct r2 as [s2 a2]. simpl in H2, L2.
  destruct (negb (child s2) && _) eqn:E; simpl; rewrite app_assoc, push_app; [|done]. bool_to_prop.
  eapply events_ok_start; [| | | |done|done]; rewrite ?L2; try lia. by rewrite <- L2.
Qed.

Lemma persistent_spec n first t :
  0 <= first -> t < 2 ^ 64 -> dispatcherFailurePersistent n first t = true ->
  3 <= n /\ first + kLivenessFailureGraceMilliseconds <= t.
Proof.
  unfold dispatcherFailurePersistent, kLivenessFailures. intros Hf Ht H. bool_to_prop. rewrite uN_id in * by lia. lia.
Qed.

Lemma probe_events s o alive published evs :
  stamps s (now o) -> 0 < now o < 2 ^ 64 -> failures s + 1 < 2 ^ 32 -> events_ok s evs ->
  events_ok (probe_dispatcher s o alive published).1 (push (now o) (probe_dispatcher s o alive published).2 evs).
Proof.
  rewrite stamps_unfold. intros Ht Hn Hf ((F & FF & A) & S & J). unfold probe_dispatcher.
  destruct (alive && _ && _); [|done]. destruct (probe o).
  { split; [split; [simpl; lia|]; split; [simpl; lia|done]|]. split.
    - intros t id [E|E]%elem_of_cons; [by simplify_eq|by eapply S].
    - by apply justified_cons. }
  rewrite (uN_id 32) by lia. set (first := if failures s =? 0 then now o else firstFailure s).
  assert (first ∈ now o :: streak evs /\ 0 <= first) as [Hin Hpos].
  { unfold first. destruct (failures s =? 0) eqn:E; bool_to_prop; split; try lia; [by left|]. right. apply FF. lia. }
  assert (forall e, (e = Probe false \/ e = Replace) -> forall evs', starts_ok s evs' ->
          forall s', lastStart s' = lastStart s -> starts_ok s' ((now o, e) :: evs')) as Hs.
  { intros e He evs' S' s' Es t id [E|E]%elem_of_cons; [destruct He; simplify_eq|]. rewrite Es. by eapply S'. }
  destruct (dispatcherFailurePersistent _ _ _) eqn:E; (split; [split; [simpl; lia|]; split; [done|simpl; lia]|]); split.
  - do 2 (eapply Hs; [by auto|..|done]). done.
  - apply persistent_spec in E as [E1 E2]; [|lia..]. apply justified_cons; [|by apply justified_cons].
    simpl. split; [lia|]. by exists first.
  - eapply Hs; [by auto| |done]. done.
  - by apply justified_cons.
Qed.

(** ** One pass, part by part *)

(** What the parts leave of the failures and of the unready time. *)
Lemma collect_frame s o : failures (collect_helper s o).1 = failures s /\ unreadySince (collect_helper s o).1 = unreadySince s.
Proof. unfold collect_helper. by repeat case_match. Qed.

Lemma hold_frame s o :
  0 <= failures s -> 0 <= failures (hold_dispatcher s o).1 <= failures s /\ unreadySince (hold_dispatcher s o).1 = unreadySince s.
Proof. intros H. unfold hold_dispatcher. repeat (case_match; simplify_eq); simpl; split; done || lia. Qed.

Lemma probe_frame s o alive published :
  0 <= failures s -> failures s + 1 < 2 ^ 32 ->
  0 <= failures (probe_dispatcher s o alive published).1 <= failures s + 1 /\
  unreadySince (probe_dispatcher s o alive published).1 = unreadySince s /\
  helper (probe_dispatcher s o alive published).1 = helper s /\
  helperEnded (probe_dispatcher s o alive published).1 = helperEnded s.
Proof. intros H H'. unfold probe_dispatcher. rewrite (uN_id 32) by lia. repeat case_match; simpl; split; done || lia. Qed.

Lemma reconcile_frame s o ready : failures (reconcile_rule s o ready).1 = failures s.
Proof. unfold reconcile_rule. by repeat case_match. Qed.

Lemma reconcile_unready s o ready :
  unreadySince (reconcile_rule s o ready).1 =
    if ready then 0 else if unreadySince s =? 0 then now o else unreadySince s.
Proof. unfold reconcile_rule. repeat (case_match; simplify_eq/=); done. Qed.

(** The state a supervised pass reconciles the rule from, and its verdict. *)
Definition before_rule (s : supervisor) (o : observation) : supervisor * list action * bool :=
  let '(s, a0) := collect_helper s o in
  let '(s, a1) := hold_dispatcher s o in
  let alive := child s && alive_check o in
  let published := alive && (statusProcessId (status o) =? childId s) in
  let '(s, a2) := probe_dispatcher s o alive published in
  let ready := published && answered s && (failures s =? 0) in
  (s, a0 ++ a1 ++ a2 ++
   (if ready then match republished (pid_file o) (childId s) with Some text => [Republish text] | None => [] end else []), ready).

Lemma pass_supervised s o :
  supervised o = true ->
  pass s o = let '(s1, a, ready) := before_rule s o in
             let '(s2, a4) := reconcile_rule s1 o ready in (s2, a ++ a4, Some ready).
Proof.
  intros H. unfold pass, before_rule. rewrite H. simpl.
  repeat (destruct (_ s o) as [? ?] || case_match); simplify_eq; by rewrite <- ?app_assoc.
Qed.

(** ** The invariant of a run *)

Definition run_ok (obs : list observation) (s : supervisor) (h : list passed) : Prop :=
  stamps s (default 0 (now <$> head obs)) /\ events_ok s (events h) /\
  0 <= failures s <= Z.of_nat (length obs) /\ unreadySince s = default 0 (unready_start h) /\
  length h = length obs.

(** The parts before the rule keep the invariants; a ready verdict rests on a
    probe of the process answered less than a second ago. *)
Lemma before_ok s o evs :
  stamps s (now o) -> 0 < now o < 2 ^ 64 -> 0 <= failures s -> failures s + 1 < 2 ^ 32 -> events_ok s evs ->
  let '(s1, a, ready) := before_rule s o in
  stamps s1 (now o) /\ events_ok s1 (push (now o) a evs) /\ 0 <= failures s1 <= failures s + 1 /\
  unreadySince s1 = unreadySince s /\
  (ready = true -> exists t, last_answer (push (now o) a evs) = Some t /\ t <= now o < t + kLivenessIntervalMilliseconds).
Proof.
  intros Ht Hn F0 F1 E. unfold before_rule.
  pose proof (collect_stamps s o Ht ltac:(lia)) as T1. pose proof (collect_events s o _ E) as E1.
  destruct (collect_frame s o) as [C1 C2]. destruct (collect_helper s o) as [s1 a1]. simpl in T1, E1, C1, C2.
  pose proof (hold_stamps s1 o T1 ltac:(lia)) as T2. pose proof (hold_events s1 o _ T1 ltac:(lia) E1) as E2.
  destruct (hold_frame s1 o ltac:(lia)) as [C3 C4]. destruct (hold_dispatcher s1 o) as [s2 a2]. simpl in T2, E2, C3, C4.
  set (alive := child s2 && alive_check o). set (published := alive && _).
  pose proof (probe_stamps s2 o alive published T2 ltac:(lia)) as T3.
  pose proof (probe_events s2 o alive published _ T2 Hn ltac:(lia) E2) as E3.
  destruct (probe_frame s2 o alive published ltac:(lia) ltac:(lia)) as (C5 & C6 & _).
  assert (published = true -> now o < lastProbe (probe_dispatcher s2 o alive published).1 + kLivenessIntervalMilliseconds) as Hp.
  { intros Hp. unfold probe_dispatcher. rewrite Hp. unfold published in Hp. apply andb_true_iff in Hp as [-> _]. simpl.
    rewrite stamps_unfold in T2.
    destruct (kLivenessIntervalMilliseconds <=? u64 (now o - lastProbe s2)) eqn:Ei; [by repeat case_match; simpl; unfold kLivenessIntervalMilliseconds; lia|].
    bool_to_prop. rewrite uN_id in Ei by lia. simpl. lia. }
  destruct (probe_dispatcher s2 o alive published) as [s3 a3]. simpl in T3, E3, C5, C6, Hp. rewrite <- !push_app in E3.
  set (ready := published && answered s3 && (failures s3 =? 0)). set (a4 := if ready then _ else _).
  assert (events_ok s3 (push (now o) (a1 ++ a2 ++ a3 ++ a4) evs)) as E4.
  { rewrite !app_assoc, push_app. apply push_quiet; [by rewrite <- app_assoc|]. unfold a4. repeat case_match; auto. }
  split; [done|]. split; [done|]. split; [lia|]. split; [congruence|].
  intros Hr. unfold ready in Hr. bool_to_prop. destruct E4 as ((_ & _ & A) & _). exists (lastProbe s3).
  split; [by apply A|]. rewrite stamps_unfold in T3. split; [lia|auto].
Qed.

(** The unready time after the rule is reconciled. *)
Lemma unready_step s1 o ready h :
  0 < now o -> unreadySince s1 = default 0 (unready_start h) -> Forall (fun p => 0 < at_ p) h ->
  unreadySince (reconcile_rule s1 o ready).1 =
    default 0 (match Some ready with Some false => Some (default (now o) (unready_start h)) | _ => None end).
Proof.
  intros Hn Hu Hh. rewrite reconcile_unready, Hu. destruct ready; [done|]. simpl.
  assert (forall t, unready_start h = Some t -> 0 < t) as Hpos.
  { clear -Hh. induction h as [|p h IH]; [done|]. inversion_clear Hh. simpl. intros t. destruct (verdict p) as [[]|]; [done| |done].
    intros [= <-]. destruct (unready_start h) eqn:E; simpl; auto. }
  destruct (unready_start h) as [t|] eqn:E; simpl; [|done]. specialize (Hpos t eq_refl).
  destruct (t =? 0) eqn:E0; bool_to_prop; [lia|done].
Qed.

Lemma clock_tail o obs : clock (o :: obs) -> clock obs /\ 0 < now o < 2 ^ 64 /\ default 0 (now <$> head obs) <= now o.
Proof.
  intros [F S]. apply list.Forall_cons in F as [Hn F]. apply StronglySorted_inv in S as [S Hs].
  split; [done|]. split; [done|]. destruct obs as [|o' obs]; simpl; [lia|]. by apply list.Forall_cons in Hs as [Hs _].
Qed.

Lemma run_times obs : clock obs -> Forall (fun p => 0 < at_ p) (run obs).2.
Proof.
  induction obs as [|o obs IH]; intros Hc; simpl; [constructor|].
  apply clock_tail in Hc as (Hc & Hn & _). specialize (IH Hc). destruct (run obs) as [s h].
  destruct (pass s o) as [[s' a] v]. simpl in *. constructor; [simpl; lia|done].
Qed.

Lemma events_cons p h : events (p :: h) = push (at_ p) (acts p) (events h).
Proof. done. Qed.

Lemma run_inv obs :
  clock obs -> Z.of_nat (length obs) < 2 ^ 32 - 1 -> run_ok obs (run obs).1 (run obs).2.
Proof.
  induction obs as [|o obs IH]; intros Hc Hl.
  { split; [by apply stamps_unfold|]. split; [|done]. split; [liveness_reset|]. split; [|apply justified_nil].
    intros t id H. by apply elem_of_nil in H. }
  pose proof (run_times obs) as Hts. apply clock_tail in Hc as (Hc & Hn & Hle). specialize (Hts Hc).
  simpl length in Hl. specialize (IH Hc ltac:(lia)). simpl. destruct (run obs) as [s h]. simpl in IH, Hts.
  destruct IH as (T & E & F & U & L). apply (stamps_weaken _ _ (now o)) in T; [|done].
  destruct (supervised o) eqn:Es.
  - rewrite (pass_supervised _ _ Es). pose proof (before_ok s o _ T Hn ltac:(lia) ltac:(lia) E) as B.
    destruct (before_rule s o) as [[s1 a] ready]. destruct B as (T1 & E1 & F1 & U1 & _).
    pose proof (reconcile_stamps s1 o ready T1 ltac:(lia)) as T2. pose proof (reconcile_events s1 o ready _ E1) as E2.
    pose proof (reconcile_frame s1 o ready) as F2. pose proof (unready_step s1 o ready h ltac:(lia) ltac:(congruence) Hts) as U2.
    destruct (reconcile_rule s1 o ready) as [s2 a4]. simpl in *. rewrite <- push_app in E2.
    split; [done|]. split; [done|]. split; [simpl; lia|]. split; [done|simpl; lia].
  - unfold pass. rewrite Es. pose proof (collect_stamps s o T ltac:(lia)) as T1. pose proof (collect_events s o _ E) as E1.
    destruct (collect_helper s o) as [s1 a]. simpl in *.
    split; [rewrite stamps_unfold in *; simpl; lia|]. split.
    + rewrite events_cons. simpl. rewrite push_app. by eapply events_ok_reset.
    + simpl. split; [lia|]. split; [done|lia].
Qed.

(** ** Theorems *)

(** C27: in every run of the supervisor a process is replaced only when at least
    three probes of that same process went unanswered over at least ten
    seconds, with no answered one since; and two starts are at least a second
    apart. *)
Theorem supervisor_patience obs post t a pre :
  clock obs -> Z.of_nat (length obs) < 2 ^ 32 - 1 -> events (run obs).2 = post ++ (t, a) :: pre ->
  (a = Replace -> (3 <= length (streak pre))%nat /\ exists t0, t0 ∈ streak pre /\ t0 + 10000 <= t) /\
  (forall id, a = Start id -> forall t' id', (t', Start id') ∈ pre -> t' + 1000 <= t).
Proof.
  intros Hc Hl H. destruct (run_inv obs Hc Hl) as (_ & (_ & _ & J) & _). specialize (J post t a pre H).
  split; [by intros ->|by intros id ->].
Qed.

(** A pass that reports a ready dispatcher has an answered probe of the
    process it holds, less than a second old, and no unanswered one since. *)
Theorem ready_is_fresh obs p h :
  clock obs -> Z.of_nat (length obs) < 2 ^ 32 - 1 -> (run obs).2 = p :: h -> verdict p = Some true ->
  exists t, last_answer (events (p :: h)) = Some t /\ t <= at_ p < t + 1000.
Proof.
  destruct obs as [|o obs]; [done|]. intros Hc Hl. pose proof (clock_tail _ _ Hc) as (Hc' & Hn & Hle). simpl length in Hl.
  destruct (run_inv obs Hc' ltac:(lia)) as (T & E & F & _). simpl. destruct (run obs) as [s h']. simpl in T, E, F.
  apply (stamps_weaken _ _ (now o)) in T; [|done].
  destruct (supervised o) eqn:Es.
  - rewrite (pass_supervised _ _ Es). pose proof (before_ok s o _ T Hn ltac:(lia) ltac:(lia) E) as B.
    destruct (before_rule s o) as [[s1 a] ready]. destruct B as (_ & _ & _ & _ & R).
    destruct (reconcile_rule s1 o ready) as [s2 a4] eqn:Er. intros [= <- <-]. simpl. intros [= ->].
    destruct (R eq_refl) as (t & Ht & Hb). exists t. split; [|done]. rewrite events_cons. simpl. rewrite push_app.
    assert (a4 = [] \/ exists x, a4 = [Helper x]) as [->|[x ->]]; [|done|done].
    revert Er. unfold reconcile_rule. repeat case_match; intros; simplify_eq; eauto.
  - unfold pass. rewrite Es. destruct (collect_helper s o). by intros [= <- <-].
Qed.

(** No helper runs once ended ones are collected, and the last one ended two
    seconds ago at the latest. *)
Definition helper_free (s : supervisor) (o : observation) : Prop :=
  let s1 := (collect_helper s o).1 in helper s1 = None /\ helperEnded s1 + kHelperRetryMilliseconds <= now o.

(** The parts before the rule start no helper and leave its state as collected. *)
Lemma before_helper s o x :
  0 <= failures s -> failures s + 1 < 2 ^ 32 ->
  let '(s1, a, _) := before_rule s o in
  (Helper x ∉ a) /\ helper s1 = helper (collect_helper s o).1 /\ helperEnded s1 = helperEnded (collect_helper s o).1.
Proof.
  intros H0 H1. unfold before_rule.
  assert (Helper x ∉ (collect_helper s o).2) as N0 by (unfold collect_helper; repeat case_match; set_solver).
  pose proof (proj1 (collect_frame s o)) as F. destruct (collect_helper s o) as [s1 a1]. simpl in *.
  assert ((Helper x ∉ (hold_dispatcher s1 o).2) /\ helper (hold_dispatcher s1 o).1 = helper s1 /\
          helperEnded (hold_dispatcher s1 o).1 = helperEnded s1) as (N1 & P1 & Q1).
  { unfold hold_dispatcher. repeat (case_match; simplify_eq); simpl; split; done || set_solver. }
  destruct (hold_frame s1 o ltac:(lia)) as [F1 _]. destruct (hold_dispatcher s1 o) as [s2 a2]. simpl in *.
  set (alive := child s2 && _). set (published := alive && _).
  assert (Helper x ∉ (probe_dispatcher s2 o alive published).2) as N2 by (unfold probe_dispatcher; repeat case_match; set_solver).
  destruct (probe_frame s2 o alive published ltac:(lia) ltac:(lia)) as (_ & _ & P2 & Q2).
  destruct (probe_dispatcher s2 o alive published) as [s3 a3]. simpl in *.
  split; [|split; congruence]. rewrite !not_elem_of_app. repeat split; try done. repeat case_match; set_solver.
Qed.

Lemma reconcile_helper s o ready x :
  stamps s (now o) -> 0 < now o < 2 ^ 64 ->
  Helper x ∈ (reconcile_rule s o ready).2 <->
  (x = Resume /\ ready = true /\ suspended_file o = true \/
   x = Suspend /\ ready = false /\ unreadySince (reconcile_rule s o ready).1 + kSuspendAfterMilliseconds <= now o /\
     owned_rule o = true) /\
  helper s = None /\ helperEnded s + kHelperRetryMilliseconds <= now o.
Proof.
  rewrite stamps_unfold, reconcile_unready. intros Ht Hn. unfold reconcile_rule.
  set (s1 := if ready then set_unready s 0 else _).
  assert (helper s1 = helper s /\ helperEnded s1 = helperEnded s /\
          unreadySince s1 = if ready then 0 else if unreadySince s =? 0 then now o else unreadySince s) as (-> & E1 & E2).
  { unfold s1. by repeat case_match. }
  rewrite E1. rewrite (uN_id 64 (now o - helperEnded s)) by lia.
  assert (0 <= unreadySince s1 <= now o) as Hu by (rewrite E2; repeat case_match; lia).
  rewrite (uN_id 64 (now o - unreadySince s1)) by lia. rewrite <- E2. clearbody s1. clear E2.
  unfold kSuspendAfterMilliseconds, kHelperRetryMilliseconds.
  destruct ready; simpl.
  - destruct (suspended_file o); [|split; [by intros ?%elem_of_nil|naive_solver]].
    destruct (helper s); [split; [by intros ?%elem_of_nil|naive_solver]|].
    destruct (2000 <=? now o - helperEnded s) eqn:E; bool_to_prop; simpl.
    + rewrite list_elem_of_singleton. split; [intros [= ->]; split; [auto|split; [done|lia]]|naive_solver].
    + split; [by intros ?%elem_of_nil|]. intros (_ & _ & ?). lia.
  - destruct (15000 <=? now o - unreadySince s1) eqn:E15; bool_to_prop; simpl;
      [|split; [by intros ?%elem_of_nil|]; intros ([(? & ? & ?)|(? & ? & ? & ?)] & ? & ?); [done|lia]].
    destruct (owned_rule o); [|split; [by intros ?%elem_of_nil|naive_solver]].
    destruct (helper s); [split; [by intros ?%elem_of_nil|naive_solver]|].
    destruct (2000 <=? now o - helperEnded s) eqn:E; bool_to_prop; simpl.
    + rewrite list_elem_of_singleton. split; [intros [= ->]; split; [right; split; [done|split; [done|split; [lia|done]]]|split; [done|lia]]|].
      by intros ([(? & ? & ?)|(-> & ?)] & ?).
    + split; [by intros ?%elem_of_nil|]. intros (_ & _ & ?). lia.
Qed.

(** The rule is suspended exactly when it is there, no ready dispatcher was
    seen on any pass of the last fifteen seconds, and a helper may start; it
    is restored exactly when a ready dispatcher is seen while it is suspended
    and a helper may start. *)
Theorem rule_reconciled o obs s h p s' :
  clock (o :: obs) -> Z.of_nat (length (o :: obs)) < 2 ^ 32 - 1 ->
  run obs = (s, h) -> run (o :: obs) = (s', p :: h) ->
  (Helper Suspend ∈ acts p <->
     (exists t0, unready_start (p :: h) = Some t0 /\ t0 + 15000 <= now o) /\ owned_rule o = true /\ helper_free s o) /\
  (Helper Resume ∈ acts p <-> verdict p = Some true /\ suspended_file o = true /\ helper_free s o).
Proof.
  intros Hc Hl Hr. pose proof (run_inv _ Hc Hl) as Hinv. apply clock_tail in Hc as (Hc & Hn & Hle).
  simpl length in Hl. pose proof (run_inv obs Hc ltac:(lia)) as I. rewrite Hr in I. simpl in I.
  intros Hrun. rewrite Hrun in Hinv. destruct Hinv as (_ & _ & _ & U' & _). simpl in U'.
  destruct I as (T & E & F & U & _). apply (stamps_weaken _ _ (now o)) in T; [|done].
  simpl in Hrun. rewrite Hr in Hrun. destruct (supervised o) eqn:Es.
  - rewrite (pass_supervised _ _ Es) in Hrun. pose proof (before_ok s o _ T Hn ltac:(lia) ltac:(lia) E) as B.
    assert (forall x, let '(s1, a, _) := before_rule s o in _) as HB by (intros x; apply (before_helper s o x); lia).
    destruct (before_rule s o) as [[s1 a] ready]. destruct B as (T1 & _).
    pose proof (fun x => reconcile_helper s1 o ready x T1 Hn) as R.
    destruct (reconcile_rule s1 o ready) as [s2 a4]. simplify_eq. simpl in *. unfold helper_free.
    destruct (HB Suspend) as (N1 & P & Q). destruct (HB Resume) as (N2 & _). rewrite !elem_of_app, !R, P, Q, U'.
    unfold kSuspendAfterMilliseconds. destruct ready; simpl; split; naive_solver.
  - unfold pass in Hrun. rewrite Es in Hrun.
    assert (forall x, Helper x ∉ (collect_helper s o).2) as N by (intros x; unfold collect_helper; repeat case_match; set_solver).
    unfold helper_free. destruct (collect_helper s o) as [s1 a]. simpl in *. simplify_eq/=.
    rewrite !elem_of_app, !list_elem_of_singleton. naive_solver.
Qed.

Lemma hold_start s o id :
  Start id ∈ (hold_dispatcher s o).2 ->
  lock_acquired o = true /\ supervised_locked o = true /\ adopted o = None /\
  (child s = true -> child_running o = false /\ child_running_locked o = false /\ Ended (childId s) ∈ (hold_dispatcher s o).2).
Proof.
  unfold hold_dispatcher. destruct (child s && child_running o) eqn:E1; [by intros ?%elem_of_nil|].
  destruct (negb (lock_acquired o) || _) eqn:E2; [by intros ?%elem_of_nil|]. bool_to_prop.
  destruct s as [c ? ? ? ? ? ? ? ? ? ? ?]. destruct c, (child_running_locked o), (adopted o); simpl in *;
    try (destruct (kRestartSpacingMilliseconds <=? _)); simpl; intros Hi;
    repeat (apply elem_of_cons in Hi as [Hi|Hi]; simplify_eq/=); try (by apply elem_of_nil in Hi);
    split_and!; try done; intros _; split_and!; try done; by left.
Qed.

(** A second dispatcher is never started beside one: a start means that under
    the lock the stack was still supervised, the process held had ended and
    none could be adopted. *)
Theorem start_is_alone s o s' a v id :
  pass s o = (s', a, v) -> Start id ∈ a ->
  lock_acquired o = true /\ supervised_locked o = true /\ adopted o = None /\
  (child s = true -> child_running o = false /\ child_running_locked o = false /\ Ended (childId s) ∈ a).
Proof.
  unfold pass. assert (forall x, Start x ∉ (collect_helper s o).2) as N0 by (intros x; unfold collect_helper; repeat case_match; set_solver).
  assert (child (collect_helper s o).1 = child s /\ childId (collect_helper s o).1 = childId s) as [C1 C2]
    by (unfold collect_helper; by repeat case_match).
  destruct (collect_helper s o) as [s1 a1]. simpl in *.
  destruct (supervised o); simpl; [|intros [= <- <- <-]; rewrite elem_of_app, list_elem_of_singleton; naive_solver].
  assert (forall x, Start x ∈ (hold_dispatcher s1 o).2 -> lock_acquired o = true /\ supervised_locked o = true /\
    adopted o = None /\ (child s1 = true -> child_running o = false /\ child_running_locked o = false /\
                         Ended (childId s1) ∈ (hold_dispatcher s1 o).2)) as H.
  { intros x. apply hold_start. }
  destruct (hold_dispatcher s1 o) as [s2 a2]. simpl in H.
  assert (forall x al p, Start x ∉ (probe_dispatcher s2 o al p).2) as N2
    by (intros x al p; unfold probe_dispatcher; repeat case_match; set_solver).
  specialize (N2 id (child s2 && alive_check o) (child s2 && alive_check o && (statusProcessId (status o) =? childId s2))).
  destruct (probe_dispatcher _ _ _ _) as [s3 a3]. simpl in N2.
  set (ready := _ && (failures s3 =? 0)).
  assert (forall x, Start x ∉ (reconcile_rule s3 o ready).2) as N4 by (intros x; unfold reconcile_rule; repeat case_match; set_solver).
  destruct (reconcile_rule _ _ _) as [s4 a4]. simpl in N4. intros [= <- <- <-]. rewrite !elem_of_app.
  intros [Hx|[Hs|[Hx|[Hs|Hx]]]]; [by apply N0 in Hx| |by apply N2 in Hx| |by apply N4 in Hx].
  - destruct (H id Hs) as (? & ? & ? & Hc). rewrite C1, C2 in Hc. repeat split; try done; intros; naive_solver.
  - exfalso. revert Hs. repeat case_match; set_solver.
Qed.

(** ** Records and probes shared with the dispatcher *)

Lemma first_line_digits ds rest :
  forallb is_digit ds = true -> (rest = [] \/ exists r, rest = 13 :: r) -> first_line (ds ++ rest) = ds.
Proof.
  intros Hd Hr. induction ds as [|c ds IH]; simpl in *.
  - destruct Hr as [->|[r ->]]; done.
  - unfold is_digit in Hd at 1. bool_to_prop. rewrite IH by done.
    by rewrite (proj2 (Z.eqb_neq c 13)), (proj2 (Z.eqb_neq c 10)) by lia.
Qed.

Lemma statusProcessId_digits n rest :
  0 <= n < 2 ^ 32 -> (rest = [] \/ exists r, rest = 13 :: r) -> statusProcessId (str "pid=" ++ to_string n ++ rest) = n.
Proof.
  intros Hn Hr. destruct (to_string_spec n) as (_ & Hd & _); [lia|]. unfold statusProcessId.
  rewrite bool_decide_true by done. change (drop 4 (str "pid=" ++ to_string n ++ rest)) with (to_string n ++ rest).
  by rewrite first_line_digits, parseDecimal_to_string by (done || lia).
Qed.

(** What a dispatcher publishes is what the supervisor reads: its status
    record and its pid file both yield its process id, the pid record is not
    rewritten, and a running dispatcher with the right image is adopted. *)
Theorem published_id_read_back n generation opens running image :
  0 < n < 2 ^ 32 -> opens n = true -> running n = true -> image n = true ->
  statusProcessId (status_text n generation) = n /\ adoptDispatcher (to_string n) opens running image = Some n /\
  republished (to_string n) n = None.
Proof.
  intros Hn Ho Hr Hi. split; [|split].
  - apply statusProcessId_digits; [lia|]. right. by eexists.
  - unfold adoptDispatcher. replace (str "pid=" ++ to_string n) with (str "pid=" ++ to_string n ++ []) by (by rewrite app_nil_r).
    rewrite statusProcessId_digits by (lia || auto). rewrite (proj2 (Z.eqb_neq n 0)) by lia. by rewrite Ho, Hr, Hi.
  - unfold republished. by rewrite bool_decide_true.
Qed.

Lemma published_id_read_back_witness :
  statusProcessId (status_text 4711 2) = 4711 /\
  adoptDispatcher (to_string 4711) (Z.eqb 4711) (Z.eqb 4711) (Z.eqb 4711) = Some 4711 /\
  republished (to_string 4711) 4711 = None.
Proof. apply published_id_read_back; done. Defined.

(** The dispatcher answers the supervisor's probe itself, and the supervisor
    takes that answer, whatever datagrams came before it. *)
Theorem liveness_served `{WideChars} id strays :
  (forall c, c ∈ kLivenessName -> towlower c = c) -> 0 <= id < 65536 ->
  exists r, answerLiveness (liveness_query id) = Some (Some r) /\
            dispatcherAnswers id (map Some strays ++ [Some r]) = true.
Proof.
  intros Hlow Hid.
  assert (lower kLivenessName = kLivenessName) as Hl.
  { unfold lower. transitivity (map (fun c => c) kLivenessName); [|apply map_id]. apply map_ext_in.
    intros c Hc. apply Hlow. by apply list_elem_of_In. }
  assert (normalizeName kLivenessName = kLivenessName) as Hnn.
  { unfold normalizeName. change (trim kLivenessName) with kLivenessName. rewrite Hl. by vm_compute. }
  unfold liveness_query. set (b0 := Z.shiftr id 8). set (b1 := Z.land id 255).
  set (query := _ ++ _ ++ _).
  assert (parseQuestion query = Some (Some {| q_name := normalizeName kLivenessName; q_type := 1 |})) as Hq by by vm_compute.
  assert (exists r, answerLiveness query = Some (Some r) /\ liveness_reply id r = true) as (r & Hr & Ha).
  { unfold answerLiveness. rewrite Hq. rewrite Hnn. cbn [length query app map concat Nat.ltb Nat.leb mbind option_bind q_name].
    rewrite Hnn, bool_decide_true by done.
    eexists. split; [vm_compute; reflexivity|]. unfold liveness_reply. simpl. by rewrite !Z.eqb_refl. }
  exists r. split; [done|]. induction strays as [|p strays IH]; simpl; [by rewrite Ha|]. rewrite IH. apply orb_true_r.
Qed.

Lemma liveness_served_witness :
  exists r, answerLiveness (H:=c_locale) (liveness_query 4660) = Some (Some r) /\
            dispatcherAnswers 4660 (map Some [[1; 2; 3]] ++ [Some r]) = true.
Proof. apply (liveness_served (H:=c_locale)); [|lia]. apply list.Forall_forall. vm_compute. repeat constructor. Defined.

(** ** A concrete run *)

(** A supervised stack whose dispatcher publishes itself; it answers its probes
    or not. *)
Definition demo (answers : bool) (t : Z) : observation :=
  {| now := t; helper_running := false; helper_still_running := false; supervised := true; child_running := true;
     lock_acquired := true; supervised_locked := true; child_running_locked := true; adopted := None; started := Some 7;
     alive_check := true; status := status_text 7 1; probe := answers; pid_file := to_string 7; suspended_file := true;
     owned_rule := true; helper_starts := true |}.

(** It hangs from its start: it is replaced after ten seconds, and the rule
    suspended after fifteen. *)
Definition hung : list observation := map (demo false) [17000; 12000; 3000; 2000].

(** It answers: the rule is restored. *)
Definition healthy : list observation := map (demo true) [3200; 2000].

Lemma clock_hung : clock hung.
Proof. split; repeat constructor; simpl; lia. Qed.

Lemma clock_healthy : clock healthy.
Proof. split; repeat constructor; simpl; lia. Qed.

Lemma supervisor_patience_witness :
  let evs := events (run hung).2 in
  evs !! 3%nat = Some (12000, Replace) /\ (3 <= length (streak (drop 4 evs)))%nat /\
  exists t0, t0 ∈ streak (drop 4 evs) /\ t0 + 10000 <= 12000.
Proof.
  split; [by vm_compute|].
  refine (proj1 (supervisor_patience hung (take 3 (events (run hung).2)) 12000 Replace (drop 4 (events (run hung).2))
    clock_hung _ _) eq_refl); by vm_compute.
Defined.

Lemma ready_is_fresh_witness :
  exists t, last_answer (events (run healthy).2) = Some t /\ t <= 3200 < t + 1000.
Proof.
  destruct (run healthy) as [s [|p h]] eqn:E; [by vm_compute in E|].
  assert (verdict p = Some true /\ at_ p = 3200) as [Hv Ha] by (vm_compute in E; by simplify_eq).
  rewrite <- Ha. apply (ready_is_fresh healthy p h clock_healthy); [done|by rewrite E|done].
Defined.

Lemma rule_reconciled_witness :
  let p := {| at_ := 17000; acts := [Probe false; Replace; Helper Suspend]; verdict := Some false |} in
  let s := (run (tail hung)).1 in let h := (run (tail hung)).2 in
  (Helper Suspend ∈ acts p <->
     (exists t0, unready_start (p :: h) = Some t0 /\ t0 + 15000 <= 17000) /\ true = true /\ helper_free s (demo false 17000)) /\
  (Helper Resume ∈ acts p <-> verdict p = Some true /\ true = true /\ helper_free s (demo false 17000)).
Proof.
  intros p s h.
  apply (rule_reconciled (demo false 17000) (tail hung) s h p (run hung).1 clock_hung); [done|by destruct (run (tail hung))|by vm_compute].
Defined.

Lemma start_is_alone_witness :
  lock_acquired (demo true 2000) = true /\ supervised_locked (demo true 2000) = true /\ adopted (demo true 2000) = None /\
  (child begin = true -> child_running (demo true 2000) = false /\ child_running_locked (demo true 2000) = false /\
   Ended (childId begin) ∈ (pass begin (demo true 2000)).1.2).
Proof.
  apply (start_is_alone begin (demo true 2000) (pass begin (demo true 2000)).1.1 (pass begin (demo true 2000)).1.2
    (pass begin (demo true 2000)).2 (Some 7)); [by destruct (pass _ _) as [[??]?]|vm_compute; by left].
Defined.
