(* ===== verification/Identity.v ===== *)
(** * Identity: which programs are selected, and how both halves agree on it

    Models [src/src/native/wfp-probe-identity.h] (how each listed program is
    identified, and the record of those identities), the record's reader in
    [dns-dispatcher.cpp] ([parseIncludedText]) and the dispatcher's inputs
    ([readStateInputs] of [dns-dispatcher-state.h]).  Text is a list of
    characters; UTF-8 conversion, path resolution and the filter engine's own
    identifiers are parameters. *)
From stdpp Require Import sorting.
From S2P Require Import Prelude Numbers DnsWire Dispatch.

(** ** Text *)

(** [find] of a separator: what precedes its first occurrence, and what
    follows. *)
Fixpoint cut (c : Z) (text : list Z) : option (list Z * list Z) :=
  match text with
  | [] => None
  | x :: rest => if x =? c then Some ([], rest) else '(a, b) ← cut c rest; Some (x :: a, b)
  end.

Lemma cut_app c a b : c ∉ a -> cut c (a ++ c :: b) = Some (a, b).
Proof.
  induction a as [|x a IH]; simpl; intros Hc; [by rewrite Z.eqb_refl|].
  apply not_elem_of_cons in Hc as [Hx Ha]. rewrite (proj2 (Z.eqb_neq _ _)) by done. by rewrite IH.
Qed.

Lemma cut_none c a : c ∉ a -> cut c a = None.
Proof.
  induction a as [|x a IH]; simpl; intros Hc; [done|].
  apply not_elem_of_cons in Hc as [Hx Ha]. rewrite (proj2 (Z.eqb_neq _ _)) by done. by rewrite IH.
Qed.

(** Lexicographic order, as [std::map] and [std::sort] use it. *)
Fixpoint lex_leb (a b : list Z) : bool :=
  match a, b with
  | [], _ => true
  | _, [] => false
  | x :: a, y :: b => (x <? y) || ((x =? y) && lex_leb a b)
  end.

Definition lex_le (a b : list Z) : Prop := lex_leb a b = true.
#[export] Instance lex_le_dec : RelDecision lex_le.
Proof. intros a b. unfold lex_le. apply _. Defined.

Definition sort_texts (l : list (list Z)) : list (list Z) := merge_sort lex_le l.

(** Entries of a map, by key. *)
Definition key_le {A} (a b : list Z * A) : Prop := lex_le a.1 b.1.
#[export] Instance key_le_dec {A} : RelDecision (@key_le A).
Proof. intros a b. unfold key_le. apply _. Defined.

(** [lower] of [wfp-probe.cpp]: ASCII only. *)
Definition ascii_lower (value : list Z) : list Z := map (fun c => if (65 <=? c) && (c <=? 90) then c + 32 else c) value.

(** UTF-8 conversion, as the operating system documents it: exact on valid
    text, and ASCII stands for itself. *)
Class Utf8 := { utf8 : list Z -> list Z; wide : list Z -> list Z; valid : list Z -> Prop; wellformed : list Z -> bool }.
Class Utf8Spec (U : Utf8) := {
  wellformed_utf8 a : valid a -> wellformed (utf8 a) = true;
  wellformed_ascii c : 0 <= c < 128 -> wellformed [c] = true;
  wellformed_app a b : wellformed a = true -> wellformed b = true -> wellformed (a ++ b) = true;
  wide_utf8 a : valid a -> wide (utf8 a) = a;
  wide_app a c b : valid a -> 0 <= c < 128 -> wide (utf8 a ++ c :: b) = a ++ c :: wide b;
  utf8_ascii a c : valid a -> 0 <= c < 128 -> c ∈ utf8 a -> c ∈ a;
  utf8_empty a : valid a -> utf8 a = [] -> a = [];
  valid_nil : valid [] /\ utf8 [] = []
}.

(** [wideText]: refuses bytes that are not UTF-8. *)
Definition wideText `{Utf8} (bytes : list Z) : option (list Z) :=
  if bool_decide (bytes = []) then Some [] else if wellformed bytes then Some (wide bytes) else None.

(** ** Hexadecimal *)

Definition hexDigitChar (n : Z) : Z := if n <? 10 then 48 + n else 87 + n.

Definition hexBytes (data : list Z) : list Z :=
  concat (map (fun b => [hexDigitChar (Z.shiftr b 4); hexDigitChar (Z.land b 15)]) data).

Fixpoint parse_hex (text : list Z) : option (list Z) :=
  match text with
  | [] => Some []
  | [_] => None
  | h :: l :: rest =>
      if (hexDigit h <? 0) || (hexDigit l <? 0) then None
      else bytes ← parse_hex rest; Some (u8 (hexDigit h * 16 + hexDigit l) :: bytes)
  end.

Lemma hexDigit_char n : 0 <= n < 16 -> hexDigit (hexDigitChar n) = n.
Proof. intros Hn. assert (n ∈ seqZ 0 16) as H by (apply elem_of_seqZ; lia). revert H. vm_compute (seqZ 0 16). set_unfold. naive_solver. Qed.

Lemma hexDigitChar_class n : 0 <= n < 16 -> hexDigitChar n ∈ str "0123456789abcdef".
Proof. intros Hn. assert (n ∈ seqZ 0 16) as H by (apply elem_of_seqZ; lia). revert H. vm_compute (seqZ 0 16). vm_compute (str _). set_unfold. naive_solver. Qed.

Lemma nibbles b : is_byte b -> 0 <= Z.shiftr b 4 < 16 /\ 0 <= Z.land b 15 < 16 /\ Z.shiftr b 4 * 16 + Z.land b 15 = b.
Proof.
  unfold is_byte. intros Hb. rewrite Z.shiftr_div_pow2 by lia. change 15 with (Z.ones 4). rewrite Z.land_ones by lia.
  pose proof (Z.div_mod b (2 ^ 4)). pose proof (Z.mod_pos_bound b (2 ^ 4)). lia.
Qed.

Lemma parse_hexBytes data : Forall is_byte data -> parse_hex (hexBytes data) = Some data.
Proof.
  induction 1 as [|b data Hb _ IH]; [done|]. destruct (nibbles b Hb) as (H1 & H2 & H3).
  unfold hexBytes in *. cbn [map concat app parse_hex].
  rewrite !hexDigit_char, (proj2 (Z.ltb_ge _ _)), (proj2 (Z.ltb_ge _ _)) by lia. simpl. rewrite IH. simpl.
  rewrite H3, uN_id by (unfold is_byte in Hb; lia). done.
Qed.

(** ** The record *)

Inductive IdentitySource := Present | Derived | Retained | NoIdentity.
Record AttributionGroup := { g_path : list Z; g_ids : list (list Z) }.
Record ResolvedIdentity := { source : IdentitySource; r_path : list Z; ids : list (list Z); others : list AttributionGroup }.

Abbreviation Identities := (gmap (list Z) ResolvedIdentity).

Definition kIdentityHeader : list Z := str "# wgps-identities 1" ++ [10].

Section Record.
Context {U : Utf8}.

Fixpoint join_commas (items : list (list Z)) : list Z :=
  match items with
  | [] => []
  | [x] => x
  | x :: rest => x ++ 44 :: join_commas rest
  end.

(** One line of the record. *)
Definition record_line (entry : list Z) (g : AttributionGroup) : list Z :=
  utf8 entry ++ 9 :: utf8 (g_path g) ++ 9 :: join_commas (map hexBytes (g_ids g)) ++ [10].

Definition groups_of (i : ResolvedIdentity) : list AttributionGroup := {| g_path := r_path i; g_ids := ids i |} :: others i.

Definition record_lines (e : list Z * ResolvedIdentity) : list Z :=
  match ids e.2 with [] => [] | _ => concat (map (record_line e.1) (groups_of e.2)) end.

(** The entries in the order of the map. *)
Definition ordered {A} (m : gmap (list Z) A) : list (list Z * A) := merge_sort key_le (map_to_list m).

Definition serializeIdentities (m : Identities) : list Z := kIdentityHeader ++ concat (map record_lines (ordered m)).

(** One row: the entry, its path and its identifiers. *)
Definition parse_ids (text : list Z) : option (list (list Z)) :=
  mapM (fun piece => if (length piece =? 0)%nat || negb (Nat.even (length piece)) then None else parse_hex piece) (split_commas text).

Definition parse_row (line : list Z) : option (list Z * AttributionGroup) :=
  '(entry, rest) ← cut 9 line;
  '(path, idText) ← cut 9 rest;
  if bool_decide (entry = []) || bool_decide (path = []) || bool_decide (9 ∈ idText) then None
  else ids ← parse_ids idText; Some (wide entry, {| g_path := wide path; g_ids := ids |}).

Definition add_row (result : Identities) (row : list Z * AttributionGroup) : Identities :=
  match result !! row.1 with
  | None => <[row.1 := {| source := Retained; r_path := g_path row.2; ids := g_ids row.2; others := [] |}]> result
  | Some i => <[row.1 := {| source := source i; r_path := r_path i; ids := ids i; others := others i ++ [row.2] |}]> result
  end.

(** The rows; the text ends with a newline, so every row has one. *)
Fixpoint parse_rows (fuel : nat) (text : list Z) (result : Identities) : option Identities :=
  match fuel with
  | O => None
  | S fuel =>
      match text with
      | [] => Some result
      | _ => '(line, rest) ← cut 10 text; row ← parse_row line; parse_rows fuel rest (add_row result row)
      end
  end.

(** A malformed record is read as empty. *)
Definition parseIdentities (text : list Z) : Identities :=
  if negb (bool_decide (take (length kIdentityHeader) text = kIdentityHeader)) || negb (List.last text 0 =? 10) then ∅
  else default ∅ (parse_rows (S (length text)) (drop (length kIdentityHeader) text) ∅).
End Record.

(** ** The record is read back *)

Lemma split_commas_join items :
  items <> [] -> Forall (fun i => 44 ∉ i) items -> split_commas (join_commas items) = items.
Proof.
  assert (forall x rest, 44 ∉ x -> split_commas (x ++ 44 :: rest) = x :: split_commas rest) as Hsep.
  { induction x as [|c x IH]; intros rest Hx; [done|]. apply not_elem_of_cons in Hx as [Hc Hx]. simpl.
    rewrite (proj2 (Z.eqb_neq _ _)) by done. by rewrite IH. }
  assert (forall x, 44 ∉ x -> split_commas x = [x]) as Hone.
  { induction x as [|c x IH]; intros Hx; [done|]. apply not_elem_of_cons in Hx as [Hc Hx]. simpl.
    rewrite (proj2 (Z.eqb_neq _ _)) by done. by rewrite IH. }
  intros Hne Hall. induction Hall as [|x items Hx Hall IH]; [done|]. destruct items as [|y items]; simpl; [by apply Hone|].
  rewrite Hsep by done. f_equal. by apply IH.
Qed.

Lemma hexBytes_chars data c : Forall is_byte data -> c ∈ hexBytes data -> c ∈ str "0123456789abcdef".
Proof.
  unfold hexBytes. induction 1 as [|b data Hb _ IH]; simpl; [by intros ?%elem_of_nil|].
  destruct (nibbles b Hb) as (H1 & H2 & _). rewrite !elem_of_cons. intros [->|[->|H]]; [by apply hexDigitChar_class..|by apply IH].
Qed.

Lemma hexBytes_length data : length (hexBytes data) = (2 * length data)%nat.
Proof. unfold hexBytes. induction data as [|b data IH]; simpl in *; lia. Qed.

Lemma join_commas_chars items c : c ∈ join_commas items -> c = 44 \/ exists i, i ∈ items /\ c ∈ i.
Proof.
  induction items as [|x items IH]; simpl; [by intros ?%elem_of_nil|]. destruct items as [|y items].
  - intros H. right. exists x. split; [by left|done].
  - rewrite elem_of_app, elem_of_cons. intros [H|[->|H]]; [right; exists x; split; [by left|done]|by left|].
    destruct (IH H) as [?|(i & Hi & Hc)]; [by left|right]. exists i. split; [by right|done].
Qed.

(** Text a row can hold. *)
Definition plain `{Utf8} (t : list Z) : Prop := valid t /\ t <> [] /\ (9 ∉ t) /\ (10 ∉ t).
Definition id_ok (i : list Z) : Prop := i <> [] /\ Forall is_byte i.
Definition group_ok `{Utf8} (g : AttributionGroup) : Prop := plain (g_path g) /\ g_ids g <> [] /\ Forall id_ok (g_ids g).
Definition entry_ok `{Utf8} (e : list Z * ResolvedIdentity) : Prop :=
  ids e.2 <> [] -> plain e.1 /\ Forall group_ok (groups_of e.2).

Section Roundtrip.
Context {U : Utf8} {S : Utf8Spec U}.

Lemma plain_utf8 t : plain t -> utf8 t <> [] /\ (9 ∉ utf8 t) /\ (10 ∉ utf8 t).
Proof.
  intros (Hv & Hne & H9 & H10). split; [intros H; by apply utf8_empty in H|].
  split; intros H; apply utf8_ascii in H; done.
Qed.

Lemma ids_text_chars l c : Forall id_ok l -> c ∈ join_commas (map hexBytes l) -> c ∈ str "0123456789abcdef,".
Proof.
  intros Hl Hc. apply join_commas_chars in Hc as [->|(i & Hi & Hc)]; [by vm_compute; set_solver|].
  apply list_elem_of_fmap in Hi as (d & -> & Hd). rewrite list.Forall_forall in Hl. destruct (Hl d Hd) as [_ Hb].
  apply hexBytes_chars in Hc; [|done]. revert Hc. vm_compute (str _). set_unfold. naive_solver.
Qed.

Lemma parse_ids_join l : l <> [] -> Forall id_ok l -> parse_ids (join_commas (map hexBytes l)) = Some l.
Proof.
  intros Hne Hl. unfold parse_ids. rewrite split_commas_join.
  - apply mapM_Some. clear Hne. induction Hl as [|i l [Hi Hb] _ IH]; simpl; constructor; [|done].
    rewrite hexBytes_length. destruct i as [|b i]; [done|]. rewrite (proj2 (Nat.eqb_neq _ 0)) by (simpl; lia).
    rewrite Nat.even_mul. cbn [Nat.even orb negb]. by apply parse_hexBytes.
  - by destruct l.
  - apply Forall_map. eapply list.Forall_impl; [exact Hl|]. intros i [_ Hb] Hin. apply hexBytes_chars in Hin; [|done].
    revert Hin. vm_compute. set_solver.
Qed.

(** A line, without its newline. *)
Definition line_body (e : list Z) (g : AttributionGroup) : list Z :=
  utf8 e ++ 9 :: utf8 (g_path g) ++ 9 :: join_commas (map hexBytes (g_ids g)).

Lemma parse_row_line e g : plain e -> group_ok g -> parse_row (line_body e g) = Some (e, g).
Proof.
  intros He (Hp & Hne & Hids). destruct (plain_utf8 e He) as (He1 & He2 & _). destruct (plain_utf8 _ Hp) as (Hp1 & Hp2 & _).
  unfold parse_row, line_body. rewrite cut_app by done. simpl. rewrite cut_app by done. simpl.
  rewrite (bool_decide_false (utf8 e = [])), (bool_decide_false (utf8 (g_path g) = [])) by done.
  rewrite bool_decide_false; simpl.
  - rewrite parse_ids_join by done. simpl. destruct g as [gp gi]. simpl in *.
    rewrite !wide_utf8 by (by apply He || by apply Hp). done.
  - intros H. apply ids_text_chars in H; [|done]. revert H. vm_compute. set_solver.
Qed.

Lemma line_body_no_newline e g : plain e -> group_ok g -> 10 ∉ line_body e g.
Proof.
  intros He (Hp & Hne & Hids). destruct (plain_utf8 e He) as (_ & _ & He3). destruct (plain_utf8 _ Hp) as (_ & _ & Hp3).
  unfold line_body. rewrite elem_of_app, elem_of_cons, elem_of_app, elem_of_cons.
  intros [H|[H|[H|[H|H]]]]; try done. apply ids_text_chars in H; [|done]. revert H. vm_compute. set_solver.
Qed.

Lemma record_line_body e g : record_line e g = line_body e g ++ [10].
Proof. unfold record_line, line_body. by rewrite <- !app_assoc; simpl; rewrite <- !app_assoc. Qed.

Lemma parse_rows_lines rows fuel m :
  Forall (fun r => plain r.1 /\ group_ok r.2) rows -> (length rows < fuel)%nat ->
  parse_rows fuel (concat (map (fun r => record_line r.1 r.2) rows)) m = Some (foldl add_row m rows).
Proof.
  intros Hrows. revert fuel m. induction Hrows as [|[e g] rows [He Hg] _ IH]; intros fuel m Hf; (destruct fuel as [|fuel]; [simpl in Hf; lia|]); [done|].
  cbn [map concat fst snd]. rewrite record_line_body, <- app_assoc. simpl in He, Hg. cbn [app].
  assert (forall rest, exists c t, line_body e g ++ 10 :: rest = c :: t) as Hc.
  { intros rest. destruct (line_body e g); simpl; eauto. }
  destruct (Hc (concat (map (fun r => record_line r.1 r.2) rows))) as (c & t & Et).
  cbn [parse_rows]. rewrite Et at 1. rewrite cut_app by (by apply line_body_no_newline). cbn [mbind option_bind].
  rewrite parse_row_line by done. cbn [mbind option_bind]. rewrite IH by (simpl in Hf; lia). done.
Qed.

(** ** From rows to the map *)

Definition retained (i : ResolvedIdentity) : ResolvedIdentity :=
  {| source := Retained; r_path := r_path i; ids := ids i; others := others i |}.

(** What the record keeps of an entry. *)
Definition recorded (i : ResolvedIdentity) : option ResolvedIdentity :=
  match ids i with [] => None | _ => Some (retained i) end.

Definition rows_of (e : list Z * ResolvedIdentity) : list (list Z * AttributionGroup) :=
  match ids e.2 with [] => [] | _ => map (pair e.1) (groups_of e.2) end.

Lemma record_lines_rows e : record_lines e = concat (map (fun r => record_line r.1 r.2) (rows_of e)).
Proof. unfold record_lines, rows_of. destruct (ids e.2); [done|]. by rewrite map_map. Qed.

Lemma add_others m e i gs :
  m !! e = Some i ->
  foldl add_row m (map (pair e) gs) =
    <[e := {| source := source i; r_path := r_path i; ids := ids i; others := others i ++ gs |}]> m.
Proof.
  revert m i. induction gs as [|g gs IH]; intros m i Hm; simpl.
  - rewrite app_nil_r. destruct i. simpl. by rewrite insert_id.
  - unfold add_row at 2. simpl. rewrite Hm. erewrite IH by (by rewrite lookup_insert_eq). simpl.
    rewrite insert_insert_eq. by rewrite <- app_assoc.
Qed.

Lemma add_entry m e :
  m !! e.1 = None -> foldl add_row m (rows_of e) = match recorded e.2 with Some i => <[e.1 := i]> m | None => m end.
Proof.
  intros Hm. unfold rows_of, recorded. destruct e as [e i]. simpl in *. destruct (ids i) as [|x l] eqn:Ei; [done|].
  simpl. unfold add_row at 2. simpl. rewrite Hm. erewrite add_others by (by rewrite lookup_insert_eq). simpl.
  rewrite insert_insert_eq. unfold retained. by rewrite Ei.
Qed.

Lemma add_entries l m k :
  NoDup l.*1 -> (forall e, e ∈ l.*1 -> m !! e = None) ->
  foldl add_row m (concat (map rows_of l)) !! k =
    match (list_to_map l : Identities) !! k with Some i => recorded i | None => m !! k end.
Proof.
  revert m. induction l as [|[e i] l IH]; intros m Hnd Hm; [done|]. simpl in *. apply list.NoDup_cons in Hnd as [Hni Hnd].
  rewrite foldl_app, add_entry by (apply Hm; by left). rewrite IH; [|done|].
  - destruct (decide (k = e)) as [->|Hk].
    + rewrite lookup_insert_eq. rewrite not_elem_of_list_to_map_1 by done. simpl.
      destruct (recorded i); [by rewrite lookup_insert_eq|]. apply Hm. by left.
    + rewrite lookup_insert_ne by done. destruct (list_to_map l !! k); [done|]. simpl.
      destruct (recorded i); [by rewrite lookup_insert_ne|done].
  - intros e' He'. assert (e' <> e) by (by intros ->). simpl.
    destruct (recorded i); [rewrite lookup_insert_ne by done|]; apply Hm; by right.
Qed.

Lemma ordered_map {A} (m : gmap (list Z) A) : list_to_map (ordered m) = m.
Proof.
  rewrite <- (list_to_map_to_list m) at 2. apply list_to_map_proper; [|apply merge_sort_Permutation].
  unfold ordered. rewrite merge_sort_Permutation. apply NoDup_fst_map_to_list.
Qed.

Lemma concat_rows l :
  concat (map record_lines l) = concat (map (fun r => record_line r.1 r.2) (concat (map rows_of l))).
Proof.
  induction l as [|e l IH]; [done|]. simpl. by rewrite IH, record_lines_rows, map_app, concat_app.
Qed.

Lemma last_concat_newline rows :
  List.last (kIdentityHeader ++ concat (map (fun r => record_line r.1 r.2) rows)) 0 = 10.
Proof.
  destruct (decide (rows = [])) as [->|Hne]; [by rewrite app_nil_r|]. destruct (exists_last Hne) as (rows' & r & ->).
  rewrite map_app, concat_app. cbn [map concat]. rewrite app_nil_r, record_line_body, !app_assoc. apply last_last.
Qed.

Lemma rows_length_text rows :
  (length rows <= length (concat (map (fun r => record_line r.1 r.2) rows)))%nat.
Proof.
  induction rows as [|r rows IH]; simpl; [lia|]. rewrite record_line_body, !length_app. simpl. lia.
Qed.

(** The rows of a record are the groups of its identified entries. *)
Lemma rows_elem m e g :
  (e, g) ∈ concat (map rows_of (ordered m)) <-> exists i, m !! e = Some i /\ ids i <> [] /\ g ∈ groups_of i.
Proof.
  assert (forall e i, In (e, i) (ordered m) <-> m !! e = Some i) as Ho.
  { intros e' i. rewrite <- elem_of_map_to_list. unfold ordered. rewrite <- list_elem_of_In. by rewrite merge_sort_Permutation. }
  rewrite list_elem_of_In, in_concat. setoid_rewrite in_map_iff. split.
  - intros (l & ([e' i] & <- & He) & Hr). apply Ho in He. unfold rows_of in Hr. cbn [fst snd] in Hr.
    destruct (ids i) as [|x l] eqn:Ei; [done|]. apply in_map_iff in Hr as (g' & [= -> ->] & Hg). apply list_elem_of_In in Hg.
    exists i. by rewrite Ei.
  - intros (i & He & Hi & Hg). exists (rows_of (e, i)). split; [exists (e, i); split; [done|by apply Ho]|].
    unfold rows_of. cbn [fst snd]. destruct (ids i); [done|]. apply in_map, list_elem_of_In, Hg.
Qed.

Lemma rows_ok m :
  (forall e i, m !! e = Some i -> entry_ok (e, i)) ->
  Forall (fun r => plain r.1 /\ group_ok r.2) (concat (map rows_of (ordered m))).
Proof.
  intros Hok. apply list.Forall_forall. intros [e g] Hr. apply rows_elem in Hr as (i & He & Hi & Hg).
  destruct (Hok e i He Hi) as [H1 H2]. rewrite list.Forall_forall in H2. auto.
Qed.

(** Reading a written record gives the rows' fold. *)
Lemma parse_serialize m :
  (forall e i, m !! e = Some i -> entry_ok (e, i)) ->
  parseIdentities (serializeIdentities m) = foldl add_row ∅ (concat (map rows_of (ordered m))).
Proof.
  intros Hok. unfold parseIdentities, serializeIdentities. rewrite concat_rows. set (rows := concat (map rows_of (ordered m))).
  rewrite take_app_length, bool_decide_true by done. rewrite last_concat_newline.
  change (negb true || negb (10 =? 10)) with false. cbn iota. rewrite drop_app_length, parse_rows_lines; [done| |].
  - by apply rows_ok.
  - rewrite length_app. pose proof (rows_length_text rows). lia.
Qed.

(** A written identity record is read back exactly: every entry with an
    identifier, with its path, its identifiers and its further attribution
    groups, and no other entry. *)
Theorem identities_roundtrip m :
  (forall e i, m !! e = Some i -> entry_ok (e, i)) ->
  parseIdentities (serializeIdentities m) = omap recorded m.
Proof.
  intros Hok. rewrite parse_serialize by done. apply map_eq. intros k. rewrite add_entries, ordered_map, lookup_omap.
  - destruct (m !! k); done.
  - unfold ordered. rewrite merge_sort_Permutation. apply NoDup_fst_map_to_list.
  - intros. apply lookup_empty.
Qed.
End Roundtrip.

(** ** The dispatcher's reading of the record *)

(** [iswxdigit], and the final path of a listed program (empty when it does not
    resolve). *)
Class XDigits := { iswxdigit : Z -> bool }.
Class XDigitsSpec (X : XDigits) := { iswxdigit_hex c : c ∈ str "0123456789abcdef" -> iswxdigit c = true }.
Class Paths := { resolvePath : list Z -> list Z }.

(** [text] cut at every newline; never empty. *)
Fixpoint split_lines (text : list Z) : list (list Z) :=
  match text with
  | [] => [[]]
  | c :: rest =>
      if c =? 10 then [] :: split_lines rest
      else match split_lines rest with
           | item :: items => (c :: item) :: items
           | [] => [[c]]
           end
  end.

Definition control (c : Z) : bool := (c <? 32) && negb (c =? 9).

Section Included.
Context {W : WideChars} {X : XDigits} {P : Paths}.

Definition id_text_ok (text : list Z) : bool :=
  forallb (fun piece => negb (length piece =? 0)%nat && Nat.even (length piece) && forallb iswxdigit piece) (split_commas text).

(** The lowered path of one row. *)
Definition included_row (row : list Z) : option (list Z) :=
  '(entry, rest) ← cut 9 row;
  '(path, idText) ← cut 9 rest;
  if bool_decide (entry = []) || bool_decide (path = []) || bool_decide (9 ∈ idText) || existsb control row then None
  else if id_text_ok idText then Some (lower path) else None.

Fixpoint included_rows (fuel : nat) (text : list Z) (result : gset (list Z)) : option (gset (list Z)) :=
  match fuel with
  | O => None
  | S fuel =>
      match text with
      | [] => Some result
      | _ => '(row, rest) ← cut 10 text; p ← included_row row; included_rows fuel rest ({[p]} ∪ result)
      end
  end.

Definition canonicalPath (path : list Z) : list Z :=
  if bool_decide (resolvePath path = []) then path else resolvePath path.

(** A line of a plain list, if it names a program. *)
Definition listed_line (line : list Z) : option (list Z) :=
  match trim line with
  | [] => None
  | c :: t => if c =? 35 then None else Some (lower (canonicalPath (c :: t)))
  end.

(** [None]: the record is truncated or has a malformed row, and is rejected
    whole. *)
Definition parseIncludedText (text : list Z) : option (gset (list Z)) :=
  if bool_decide (take (length kIdentityHeader) text = kIdentityHeader) then
    if negb (List.last text 0 =? 10) then None
    else included_rows (S (length text)) (drop (length kIdentityHeader) text) ∅
  else Some (list_to_set (omap listed_line (split_lines text))).
End Included.

Section Agreement.
Context {U : Utf8} {S : Utf8Spec U} {W : WideChars} {X : XDigits} {XS : XDigitsSpec X} {P : Paths}.

Lemma wide_ascii t b : Forall (fun c => 0 <= c < 128) t -> wide (t ++ b) = t ++ wide b.
Proof.
  induction 1 as [|c t Hc _ IH]; [done|]. pose proof (wide_app [] c (t ++ b) (proj1 valid_nil) Hc) as H.
  rewrite (proj2 valid_nil) in H. simpl in *. by rewrite H, IH.
Qed.

(** A line as the dispatcher sees it. *)
Definition wide_line (r : list Z * AttributionGroup) : list Z :=
  r.1 ++ 9 :: g_path r.2 ++ 9 :: join_commas (map hexBytes (g_ids r.2)).

Lemma hex_chars_small c : c ∈ str "0123456789abcdef," -> 32 <= c < 128.
Proof. vm_compute (str _). set_unfold. lia. Qed.

Lemma wide_rows rows :
  Forall (fun r => plain r.1 /\ group_ok r.2) rows ->
  wide (concat (map (fun r => record_line r.1 r.2) rows)) = concat (map (fun r => wide_line r ++ [10]) rows).
Proof.
  induction 1 as [|[e g] rows [(Hve & _) ((Hvp & _) & _ & Hids)] _ IH]; simpl.
  - pose proof (wide_utf8 [] (proj1 valid_nil)) as H. by rewrite (proj2 valid_nil) in H.
  - set (rest := concat (map (fun r => record_line r.1 r.2) rows)) in *. set (rest' := concat (map (fun r => wide_line r ++ [10]) rows)) in *.
    unfold record_line, wide_line. simpl in *. rewrite <- !app_assoc. simpl. rewrite <- !app_assoc. simpl.
    rewrite (wide_app e 9) by (done || lia). do 2 f_equal. rewrite (wide_app (g_path g) 9) by (done || lia). do 2 f_equal.
    rewrite wide_ascii, IH; [by rewrite <- app_assoc|].
    apply Forall_app. split; [|by repeat constructor].
    apply list.Forall_forall. intros c Hc. apply ids_text_chars in Hc; [|done]. apply hex_chars_small in Hc. lia.
Qed.

(** Text without control characters. *)
Definition printable (t : list Z) : Prop := Forall (fun c => control c = false) t.

Lemma id_text_join l : l <> [] -> Forall id_ok l -> id_text_ok (join_commas (map hexBytes l)) = true.
Proof.
  intros Hne Hl. unfold id_text_ok. rewrite split_commas_join.
  - apply forallb_forall. intros i Hi. apply in_map_iff in Hi as (d & <- & Hd). apply list_elem_of_In in Hd.
    rewrite list.Forall_forall in Hl. destruct (Hl d Hd) as [Hn Hb]. rewrite hexBytes_length.
    destruct d as [|b d]; [done|]. rewrite (proj2 (Nat.eqb_neq _ 0)) by (simpl; lia). rewrite Nat.even_mul. cbn [Nat.even orb andb negb].
    apply forallb_forall. intros c Hc. apply list_elem_of_In in Hc. apply iswxdigit_hex. by eapply hexBytes_chars.
  - by destruct l.
  - apply Forall_map. eapply list.Forall_impl; [exact Hl|]. intros i [_ Hb] Hin. apply hexBytes_chars in Hin; [|done].
    revert Hin. vm_compute. set_solver.
Qed.

Lemma existsb_control a b : existsb control (a ++ b) = existsb control a || existsb control b.
Proof. apply existsb_app. Qed.

Lemma printable_control t : printable t -> existsb control t = false.
Proof. induction 1 as [|c t Hc _ IH]; simpl; [done|]. by rewrite Hc, IH. Qed.

Lemma included_row_line r :
  plain r.1 -> printable r.1 -> group_ok r.2 -> printable (g_path r.2) -> included_row (wide_line r) = Some (lower (g_path r.2)).
Proof.
  intros (_ & He & He9 & _) Hpe ((_ & Hp & Hp9 & _) & Hne & Hids) Hpp. unfold included_row, wide_line.
  rewrite cut_app by done. simpl. rewrite cut_app by done. simpl.
  rewrite (bool_decide_false (r.1 = [])), (bool_decide_false (g_path r.2 = [])) by done. rewrite bool_decide_false.
  - rewrite existsb_control. simpl. rewrite existsb_control. simpl. rewrite !printable_control by done. simpl.
    rewrite (printable_control (join_commas _)); [by rewrite id_text_join|].
    apply list.Forall_forall. intros c Hc. apply ids_text_chars in Hc; [|done]. apply hex_chars_small in Hc. unfold control.
    by rewrite (proj2 (Z.ltb_ge c 32)) by lia.
  - intros H. apply ids_text_chars in H; [|done]. revert H. vm_compute. set_solver.
Qed.

Lemma wide_line_no_newline r : plain r.1 -> group_ok r.2 -> 10 ∉ wide_line r.
Proof.
  intros (_ & _ & _ & He) ((_ & _ & _ & Hp) & _ & Hids). unfold wide_line. rewrite elem_of_app, elem_of_cons, elem_of_app, elem_of_cons.
  intros [H|[H|[H|[H|H]]]]; try done. apply ids_text_chars in H; [|done]. apply hex_chars_small in H. lia.
Qed.

Lemma included_rows_step fuel text result :
  text <> [] ->
  included_rows (Datatypes.S fuel) text result =
    ('(row, rest) ← cut 10 text; p ← included_row row; included_rows fuel rest ({[p]} ∪ result)).
Proof. by destruct text. Qed.

Lemma included_rows_lines rows fuel result :
  Forall (fun r => (plain r.1 /\ printable r.1) /\ group_ok r.2 /\ printable (g_path r.2)) rows -> (length rows < fuel)%nat ->
  exists s, included_rows fuel (concat (map (fun r => wide_line r ++ [10]) rows)) result = Some s /\
    forall p, p ∈ s <-> p ∈ result \/ exists r, r ∈ rows /\ p = lower (g_path r.2).
Proof.
  intros Hrows. revert fuel result. induction Hrows as [|r rows ((He & Hpe) & Hg & Hpp) _ IH]; intros fuel result Hf;
    (destruct fuel as [|fuel]; [simpl in Hf; lia|]).
  { exists result. split; [done|]. intros p. split; [by left|]. intros [H|(r & H & _)]; [done|by apply elem_of_nil in H]. }
  cbn [map concat]. rewrite <- app_assoc. cbn [app].
  rewrite included_rows_step by (by destruct (wide_line r)). rewrite cut_app by (by apply wide_line_no_newline). cbn [mbind option_bind].
  rewrite included_row_line by done. cbn [mbind option_bind]. simpl in Hf.
  destruct (IH fuel ({[lower (g_path r.2)]} ∪ result) ltac:(lia)) as (s & Hs & Hin). exists s. split; [done|].
  intros p. rewrite Hin, elem_of_union, elem_of_singleton. split.
  - intros [[->|H]|(r' & H & ->)]; [right; exists r; split; [by left|done]|by left|right; exists r'; split; [by right|done]].
  - intros [H|(r' & [->|H]%elem_of_cons & ->)]; [by left; right|by left; left|right; by exists r'].
Qed.

Lemma last_wide_newline rows :
  List.last (kIdentityHeader ++ concat (map (fun r => wide_line r ++ [10]) rows)) 0 = 10.
Proof.
  destruct (decide (rows = [])) as [->|Hne]; [by rewrite app_nil_r|]. destruct (exists_last Hne) as (rows' & r & ->).
  rewrite map_app, concat_app. cbn [map concat]. rewrite app_nil_r, !app_assoc. apply last_last.
Qed.

Lemma wide_rows_length rows :
  (length rows <= length (concat (map (fun r => wide_line r ++ [10%Z]) rows)))%nat.
Proof. induction rows as [|r rows IH]; simpl; [lia|]. rewrite !length_app. simpl. lia. Qed.

Lemma wellformed_chars t : t <> [] -> Forall (fun c => 0 <= c < 128) t -> wellformed t = true.
Proof.
  intros Hne Ht. destruct Ht as [|c t Hc Ht]; [done|]. clear Hne. revert c Hc.
  induction Ht as [|d t Hd Ht IH]; intros c Hc; [by apply wellformed_ascii|].
  apply (wellformed_app [c] (d :: t)); [by apply wellformed_ascii|by apply IH].
Qed.

Lemma ids_text_ascii l : Forall id_ok l -> Forall (fun c => 0 <= c < 128) (join_commas (map hexBytes l)).
Proof.
  intros Hl. apply list.Forall_forall. intros c Hc. apply ids_text_chars in Hc; [|done]. apply hex_chars_small in Hc. lia.
Qed.

Lemma wellformed_line r : plain r.1 -> group_ok r.2 -> wellformed (record_line r.1 r.2) = true.
Proof.
  intros (Hv & _) ((Hvp & _) & _ & Hids). unfold record_line.
  apply wellformed_app; [by apply wellformed_utf8|]. apply (wellformed_app [9] (utf8 _ ++ _)); [by apply wellformed_ascii|].
  apply wellformed_app; [by apply wellformed_utf8|]. apply (wellformed_app [9] (_ ++ _)); [by apply wellformed_ascii|].
  apply wellformed_chars; [by destruct (join_commas _)|]. apply Forall_app. split; [by apply ids_text_ascii|by repeat constructor].
Qed.

Lemma wellformed_rows rows h :
  wellformed h = true -> Forall (fun r => plain r.1 /\ group_ok r.2) rows ->
  wellformed (h ++ concat (map (fun r => record_line r.1 r.2) rows)) = true.
Proof.
  intros Hh Hrows. revert h Hh. induction Hrows as [|r rows [He Hg] _ IH]; intros h Hh; simpl; [by rewrite app_nil_r|].
  rewrite app_assoc. apply IH. apply wellformed_app; [done|by apply wellformed_line].
Qed.

(** Text the dispatcher accepts in a row: no control characters. *)
Definition entry_printable (e : list Z * ResolvedIdentity) : Prop :=
  ids e.2 <> [] -> printable e.1 /\ Forall (fun g => printable (g_path g)) (groups_of e.2).

(** The dispatcher and the filters agree on who is selected: reading the
    record the filter installer wrote, the dispatcher accepts it and selects
    exactly the lowered attribution paths of every group of every identified
    entry: none is missed, and none is added. *)
Theorem included_agrees m :
  (forall e i, m !! e = Some i -> entry_ok (e, i)) -> (forall e i, m !! e = Some i -> entry_printable (e, i)) ->
  exists text s, wideText (serializeIdentities m) = Some text /\ parseIncludedText text = Some s /\
    forall p, p ∈ s <-> exists e i g, m !! e = Some i /\ ids i <> [] /\ g ∈ groups_of i /\ p = lower (g_path g).
Proof.
  intros Hok Hpr. unfold serializeIdentities. rewrite concat_rows. set (rows := concat (map rows_of (ordered m))).
  assert (Forall (fun r => plain r.1 /\ group_ok r.2) rows) as Hrows by (by apply rows_ok).
  assert (Forall (fun c => 0 <= c < 128) kIdentityHeader) as Hh by (by repeat constructor).
  unfold wideText. rewrite bool_decide_false by done. rewrite wellformed_rows by (done || by apply wellformed_chars).
  rewrite wide_ascii, wide_rows by done. exists (kIdentityHeader ++ concat (map (fun r => wide_line r ++ [10]) rows)). unfold parseIncludedText.
  rewrite take_app_length, bool_decide_true by done. rewrite last_wide_newline. change (negb (10 =? 10)) with false. cbn iota.
  rewrite drop_app_length.
  match goal with |- context [included_rows ?f _ ?r] => destruct (included_rows_lines rows f r) as (s & Hs & Hin) end.
  - apply list.Forall_forall. intros [e g] Hr. rewrite list.Forall_forall in Hrows. destruct (Hrows _ Hr) as [H1 H2].
    apply rows_elem in Hr as (i & He & Hi & Hg). destruct (Hpr e i He Hi) as [P1 P2]. rewrite list.Forall_forall in P2. auto.
  - apply Nat.lt_succ_r. rewrite length_app. etrans; [apply wide_rows_length|]. apply Nat.le_add_l.
  - exists s. split; [done|]. split; [exact Hs|]. intros p. rewrite Hin. split.
    + intros [?%elem_of_empty|([e g] & Hr & ->)]; [done|]. apply rows_elem in Hr as (i & He & Hi & Hg). by exists e, i, g.
    + intros (e & i & g & He & Hi & Hg & ->). right. exists (e, g). split; [|done]. apply rows_elem. by exists i.
Qed.
End Agreement.

(** ** Examples *)

(** ASCII text only. *)
#[local] Instance demo_utf8 : Utf8 := {|
  utf8 a := a; wide b := b; valid a := Forall (fun c => 0 <= c < 128) a; wellformed b := forallb (fun c => (0 <=? c) && (c <? 128)) b |}.

#[local] Instance demo_utf8_spec : Utf8Spec demo_utf8.
Proof.
  split; simpl; try done.
  - intros a Ha. apply forallb_forall. intros c Hc. rewrite list.Forall_forall in Ha. apply list_elem_of_In, Ha in Hc. lia.
  - intros c Hc. rewrite (proj2 (Z.leb_le 0 c)), (proj2 (Z.ltb_lt c 128)) by lia. done.
  - intros a b Ha Hb. by rewrite forallb_app, Ha, Hb.
Qed.

#[local] Instance demo_xdigits : XDigits := {| iswxdigit c := bool_decide (c ∈ str "0123456789abcdefABCDEF") |}.

#[local] Instance demo_xdigits_spec : XDigitsSpec demo_xdigits.
Proof. split. simpl. intros c Hc. apply bool_decide_true. revert Hc. vm_compute (str _). set_unfold. naive_solver. Qed.

#[local] Instance demo_paths : Paths := {| resolvePath p := p |}.

Definition demo_identity : ResolvedIdentity :=
  {| source := Retained; r_path := str "c:/old/app.exe"; ids := [[1; 171]; [2]];
     others := [{| g_path := str "c:/new/app.exe"; g_ids := [[255; 0]] |}] |}.

Definition demo_identities : Identities :=
  {[str "C:/App/app.exe" := demo_identity;
    str "missing.exe" := {| source := NoIdentity; r_path := []; ids := []; others := [] |}]}.

Lemma demo_identities_ok e i : demo_identities !! e = Some i -> entry_ok (e, i) /\ entry_printable (e, i).
Proof.
  unfold demo_identities. intros [[<- <-]|[_ H]]%lookup_insert_Some; [|apply lookup_singleton_Some in H as [<- <-]; by split; intros []].
  split; intros _; repeat constructor; try done; vm_compute; try set_solver; repeat constructor; done.
Qed.

Lemma identities_roundtrip_witness :
  parseIdentities (serializeIdentities demo_identities) = omap recorded demo_identities.
Proof. apply identities_roundtrip. intros e i H. by apply demo_identities_ok. Defined.

Lemma included_agrees_witness :
  exists text s, wideText (serializeIdentities demo_identities) = Some text /\ parseIncludedText (W:=c_locale) text = Some s /\
    forall p, p ∈ s <-> exists e i g, demo_identities !! e = Some i /\ ids i <> [] /\ g ∈ groups_of i /\ p = lower (W:=c_locale) (g_path g).
Proof. apply included_agrees; intros e i H; by apply demo_identities_ok. Defined.
