(* ===== verification/Identify.v ===== *)
(** * Identify: who each listed program is

    Models [identifyApps] of [src/src/native/wfp-probe-identity.h] with the
    identifiers it builds ([appIdFromNtPath], [fullyLowered]), and the tags
    [wfp-probe.cpp] stores with its filters ([AppIds], [ownedFilter]).  Path
    resolution, the filter engine's own identifier of a file and the system's
    case mapping are parameters. *)
From stdpp Require Import sorting.
From S2P Require Import Prelude Identity.

(** [lower] of [wfp-probe.cpp] is [ascii_lower]. *)

(** The environment: the final DOS and NT paths of an entry, both empty when it
    does not resolve; the engine's identifier of a present file, empty when it
    is absent; [RtlDowncaseUnicodeString], if the system has it. *)
Class Platform := {
  resolve : list Z -> list Z * list Z;
  presentId : list Z -> list Z;
  downcase : option (list Z -> option (list Z))
}.

(** ** Identifiers *)

(** UTF-16 text as its bytes. *)
Definition wide_bytes (text : list Z) : list Z := concat (map (fun c => [Z.land c 255; Z.shiftr c 8]) text).

Definition appIdFromNtPath (ntPath : list Z) : list Z := wide_bytes (ascii_lower ntPath) ++ [0; 0].

Definition fullyLowered `{Platform} (appId : list Z) : list Z :=
  match downcase with
  | None => appId
  | Some f =>
      if (length appId <? 2)%nat || (65534 <? Z.of_nat (length appId)) then appId
      else
        let size := (length appId - 2)%nat in
        match f (take size appId) with
        | Some target => if (length target =? size)%nat then target ++ drop size appId else appId
        | None => appId
        end
  end.

(** ** The tags of the filters *)

Record OwnedFilter := { f_id : Z; f_signature : list Z; f_tag : list Z; f_path : list Z; f_appId : list Z }.

(** [ownedFilter] on a filter's provider data and identifier condition. *)
Definition ownedFilter (id : Z) (signature : list Z) (data : option (list Z)) (appId : list Z) : OwnedFilter :=
  match data with
  | None => {| f_id := id; f_signature := signature; f_tag := []; f_path := []; f_appId := appId |}
  | Some data =>
      match cut 9 data with
      | Some (tag, path) => {| f_id := id; f_signature := signature; f_tag := tag; f_path := path; f_appId := appId |}
      | None => {| f_id := id; f_signature := signature; f_tag := data; f_path := []; f_appId := appId |}
      end
  end.

(** The identifiers of an entry, each with the provider data its filters carry. *)
Definition tagged_ids (e : list Z * ResolvedIdentity) : list (list Z * list Z) :=
  concat (map (fun g => map (fun id => (e.1 ++ 9 :: g_path g, id)) (g_ids g)) (groups_of e.2)).

Definition AppIds (identified : Identities) : list (list Z * list Z) := concat (map tagged_ids (ordered identified)).

(** ** An entry that does not resolve *)

Record gathered := { groups : gmap (list Z) (list (list Z)); pathless : list (list Z); seen : gset (list Z) }.

Definition nothing : gathered := {| groups := ∅; pathless := []; seen := ∅ |}.

Definition add (st : gathered) (c : list Z * list Z) : gathered :=
  let '(path, id) := c in
  if bool_decide (id = []) || bool_decide (id ∈ seen st) then st
  else if bool_decide (path = []) then
    {| groups := groups st; pathless := pathless st ++ [id]; seen := {[id]} ∪ seen st |}
  else
    {| groups := <[path := default [] (groups st !! path) ++ [id]]> (groups st); pathless := pathless st; seen := {[id]} ∪ seen st |}.

(** What is known of an entry, in the order it is added: the filters tagged
    with it, then its record. *)
Definition filter_candidates (filters : list OwnedFilter) (entry : list Z) : list (list Z * list Z) :=
  omap (fun f => if bool_decide (f_tag f = entry) then Some (f_path f, f_appId f) else None) filters.

Definition record_candidates (previous : Identities) (entry : list Z) : list (list Z * list Z) :=
  match previous !! entry with
  | Some i => map (pair (r_path i)) (ids i) ++ concat (map (fun g => map (pair (g_path g)) (g_ids g)) (others i))
  | None => []
  end.

Definition candidates (filters : list OwnedFilter) (previous : Identities) (entry : list Z) : list (list Z * list Z) :=
  filter_candidates filters entry ++ record_candidates previous entry.

(** One group, in path order: the first becomes the entry's own. *)
Definition place (i : ResolvedIdentity) (g : list Z * list (list Z)) : ResolvedIdentity :=
  if bool_decide (r_path i = []) then {| source := source i; r_path := g.1; ids := g.2; others := others i |}
  else {| source := source i; r_path := r_path i; ids := ids i; others := others i ++ [{| g_path := g.1; g_ids := g.2 |}] |}.

Definition unidentified : ResolvedIdentity := {| source := NoIdentity; r_path := []; ids := []; others := [] |}.

Definition settle_groups (st : gathered) : ResolvedIdentity :=
  if bool_decide (groups st = ∅) && bool_decide (pathless st = []) then unidentified
  else
    let i := foldl place {| source := Retained; r_path := []; ids := []; others := [] |}
               (ordered (sort_texts <$> groups st)) in
    {| source := source i; r_path := r_path i; ids := sort_texts (ids i ++ pathless st); others := others i |}.

(** ** Every entry *)

Section Identify.
Context {P : Platform}.

Definition resolved_identity (dosPath ntPath : list Z) : ResolvedIdentity :=
  let engine := presentId dosPath in
  let id := if bool_decide (engine = []) then appIdFromNtPath ntPath else engine in
  let lowered := fullyLowered id in
  {| source := if bool_decide (engine = []) then Derived else Present;
     r_path := ascii_lower dosPath;
     ids := (if bool_decide (lowered = id) then [] else [lowered]) ++ [id];
     others := [] |}.

Definition identify (filters : list OwnedFilter) (previous : Identities) (entry : list Z) : ResolvedIdentity :=
  let '(dosPath, ntPath) := resolve entry in
  if negb (bool_decide (dosPath = [])) && negb (bool_decide (ntPath = [])) then resolved_identity dosPath ntPath
  else settle_groups (foldl add nothing (candidates filters previous entry)).

Definition identifyApps (listed : gset (list Z)) (previous : Identities) (filters : list OwnedFilter) : Identities :=
  list_to_map (map (fun entry => (entry, identify filters previous entry)) (elements listed)).

Lemma identifyApps_lookup listed previous filters entry :
  identifyApps listed previous filters !! entry =
    if bool_decide (entry ∈ listed) then Some (identify filters previous entry) else None.
Proof.
  unfold identifyApps. case_bool_decide as Hin.
  - apply elem_of_list_to_map_1.
    + rewrite <- list_fmap_compose. simpl. rewrite list_fmap_id. apply NoDup_elements.
    + apply list_elem_of_fmap. exists entry. by rewrite elem_of_elements.
  - apply not_elem_of_list_to_map_1. rewrite <- list_fmap_compose. simpl. rewrite list_fmap_id. by rewrite elem_of_elements.
Qed.
End Identify.

(** ** Orders *)

Lemma lex_leb_total a b : lex_leb a b = false -> lex_leb b a = true.
Proof.
  revert b. induction a as [|x a IH]; intros [|y b]; simpl; try done. intros H. apply orb_false_iff in H as [H1 H2]. bool_to_prop.
  destruct (Z.ltb_spec y x); [done|]. assert (x = y) as -> by lia. rewrite Z.eqb_refl in *. simpl in *. by apply IH.
Qed.

#[export] Instance lex_le_total : Total lex_le.
Proof. intros a b. unfold lex_le. destruct (lex_leb a b) eqn:E; [by left|right; by apply lex_leb_total]. Qed.

Lemma lex_leb_cons x a y b : lex_leb (x :: a) (y :: b) = true <-> x < y \/ (x = y /\ lex_leb a b = true).
Proof. simpl. rewrite orb_true_iff, andb_true_iff, Z.ltb_lt, Z.eqb_eq. done. Qed.

#[export] Instance lex_le_trans : Transitive lex_le.
Proof.
  intros a. unfold lex_le. induction a as [|x a IH]; intros [|y b] [|z c]; try done.
  rewrite !lex_leb_cons. intros [H|[-> H]] [K|[-> K]]; [lia..|right]. split; [done|by eapply IH].
Qed.

#[export] Instance lex_le_antisymm : AntiSymm (=) lex_le.
Proof.
  intros a. unfold lex_le. induction a as [|x a IH]; intros [|y b]; try done.
  rewrite !lex_leb_cons. intros [H|[-> H]] [K|[K1 K]]; try lia. f_equal. by apply IH.
Qed.

(** The same identifiers, sorted, are the same list. *)
Lemma sort_texts_perm a b : a ≡ₚ b -> sort_texts a = sort_texts b.
Proof.
  intros H. unfold sort_texts. apply (StronglySorted_unique lex_le); [apply StronglySorted_merge_sort; apply _..|].
  by rewrite !merge_sort_Permutation.
Qed.

(** ** What is gathered *)

(** The path an identifier is first known by. *)
Fixpoint first_path (x : list Z) (c : list (list Z * list Z)) : option (list Z) :=
  match c with
  | [] => None
  | (path, id) :: c => if bool_decide (id = x) then Some path else first_path x c
  end.

Lemma first_path_snoc x c path id :
  first_path x (c ++ [(path, id)]) =
    match first_path x c with Some p => Some p | None => if bool_decide (id = x) then Some path else None end.
Proof. induction c as [|[p i] c IH]; simpl; [done|]. by destruct (bool_decide (i = x)). Qed.

Lemma first_path_none x c : first_path x c = None <-> forall p, (p, x) ∉ c.
Proof.
  induction c as [|[p i] c IH]; simpl; [by split; [intros _ p Hp; apply elem_of_nil in Hp|]|].
  case_bool_decide as E; [subst; split; [done|intros H; by destruct (H p); left]|].
  rewrite IH. split; intros H q; [rewrite elem_of_cons; intros [[= -> ->]|Hq]; [done|by apply (H q)]|].
  intros Hq. apply (H q). by right.
Qed.

Lemma first_path_elem x c p : first_path x c = Some p -> (p, x) ∈ c.
Proof. induction c as [|[q i] c IH]; simpl; [done|]. case_bool_decide as E; [intros [= ->]; subst; by left|]. intros H. right. by apply IH. Qed.

Record gathers (c : list (list Z * list Z)) (st : gathered) : Prop := {
  ga_seen x : x ∈ seen st <-> x <> [] /\ first_path x c <> None;
  ga_groups p x : p <> [] -> x ∈ default [] (groups st !! p) <-> x <> [] /\ first_path x c = Some p;
  ga_pathless x : x ∈ pathless st <-> x <> [] /\ first_path x c = Some [];
  ga_nil : groups st !! [] = None;
  ga_nonempty p l : groups st !! p = Some l -> l <> [] /\ NoDup l;
  ga_nodup : NoDup (pathless st)
}.

Lemma gathers_nothing : gathers [] nothing.
Proof.
  split; simpl; intros; rewrite ?lookup_empty; simpl; try set_solver. constructor.
Qed.

Lemma gathers_skip c st path id : gathers c st -> id = [] \/ id ∈ seen st -> gathers (c ++ [(path, id)]) st.
Proof.
  intros [G1 G2 G3 G4 G5 G6] Hskip.
  assert (forall x, x <> [] -> first_path x (c ++ [(path, id)]) = first_path x c) as Hsame.
  { intros x Hx. rewrite first_path_snoc. destruct (first_path x c) eqn:E; [done|]. case_bool_decide; [subst id|done].
    destruct Hskip as [?|Hs]; [done|]. apply G1 in Hs as [_ Hs]. done. }
  split; try done; intros.
  - rewrite G1. split; intros [H H']; (split; [done|]); by rewrite Hsame in *.
  - rewrite G2 by done. split; intros [H' H'']; (split; [done|]); by rewrite Hsame in *.
  - rewrite G3. split; intros [H H']; (split; [done|]); by rewrite Hsame in *.
Qed.

Lemma gathers_add c st cand : gathers c st -> gathers (c ++ [cand]) (add st cand).
Proof.
  destruct cand as [path id]. intros G. unfold add. destruct (bool_decide (id = []) || bool_decide (id ∈ seen st)) eqn:E.
  { apply gathers_skip; [done|]. apply orb_true_iff in E as [E|E]; apply bool_decide_eq_true in E; auto. }
  apply orb_false_iff in E as [E1%bool_decide_eq_false E2%bool_decide_eq_false]. destruct G as [G1 G2 G3 G4 G5 G6].
  assert (first_path id c = None) as Hnone.
  { destruct (first_path id c) eqn:E; [|done]. destruct E2. apply G1. by rewrite E. }
  assert (forall x, first_path x (c ++ [(path, id)]) = if bool_decide (x = id) then Some path else first_path x c) as Hf.
  { intros x. rewrite first_path_snoc. destruct (decide (x = id)) as [->|Hx].
    - by rewrite Hnone, !bool_decide_true.
    - rewrite (bool_decide_false (x = id)), (bool_decide_false (id = x)) by congruence. by destruct (first_path x c). }
  case_bool_decide as Hp; split; simpl; intros; rewrite ?Hf.
  - rewrite elem_of_union, elem_of_singleton, G1. case_bool_decide; naive_solver.
  - rewrite G2 by done. case_bool_decide; [subst|done]. rewrite Hnone. naive_solver.
  - rewrite elem_of_app, list_elem_of_singleton, G3. case_bool_decide; naive_solver.
  - done.
  - eauto.
  - apply list.NoDup_app. split; [done|]. split; [|apply NoDup_singleton]. intros x Hx ->%list_elem_of_singleton.
    apply G3 in Hx as [_ Hx]. by rewrite Hnone in Hx.
  - rewrite elem_of_union, elem_of_singleton, G1. case_bool_decide; naive_solver.
  - destruct (decide (p = path)) as [->|Hne].
    + rewrite lookup_insert_eq. simpl. rewrite elem_of_app, list_elem_of_singleton, G2 by done. case_bool_decide; naive_solver.
    + rewrite lookup_insert_ne by done. rewrite G2 by done. case_bool_decide; [subst; rewrite Hnone|]; naive_solver.
  - rewrite G3. case_bool_decide; [subst; rewrite Hnone|]; naive_solver.
  - by rewrite lookup_insert_ne.
  - apply lookup_insert_Some in H as [[<- <-]|[_ H]]; [|by apply (G5 p)]. split; [by destruct (default _ _)|].
    apply list.NoDup_app. split; [|split; [|apply NoDup_singleton]].
    + destruct (groups st !! path) eqn:Eg; simpl; [exact (proj2 (G5 _ _ Eg))|constructor].
    + intros x Hx ->%list_elem_of_singleton. apply G2 in Hx as [_ Hx]; [|done]. by rewrite Hnone in Hx.
  - done.
Qed.

Lemma gathers_all c : gathers c (foldl add nothing c).
Proof.
  induction c as [|cand c IH] using rev_ind; [apply gathers_nothing|]. rewrite foldl_app. simpl. by apply gathers_add.
Qed.

(** ** The identity built from it *)

Definition as_group (g : list Z * list (list Z)) : AttributionGroup := {| g_path := g.1; g_ids := g.2 |}.

Lemma place_rest i l :
  r_path i <> [] -> foldl place i l = {| source := source i; r_path := r_path i; ids := ids i; others := others i ++ map as_group l |}.
Proof.
  revert i. induction l as [|g l IH]; intros i Hi; simpl; [rewrite app_nil_r; by destruct i|].
  unfold place at 2. rewrite bool_decide_false by done. rewrite IH by done. simpl. by rewrite <- app_assoc.
Qed.

(** The groups in the identity: the first of them takes the pathless
    identifiers. *)
Lemma settled_groups st :
  groups st !! [] = None -> groups st <> ∅ \/ pathless st <> [] ->
  exists l, l = ordered (sort_texts <$> groups st) /\
    groups_of (settle_groups st) =
      match l with
      | [] => [{| g_path := []; g_ids := sort_texts (pathless st) |}]
      | g :: l => {| g_path := g.1; g_ids := sort_texts (g.2 ++ pathless st) |} :: map as_group l
      end.
Proof.
  intros Hnil Hsome. eexists. split; [done|]. unfold settle_groups.
  replace (bool_decide (groups st = ∅) && bool_decide (pathless st = [])) with false.
  2:{ symmetry. apply andb_false_iff. rewrite !bool_decide_eq_false. done. }
  destruct (ordered _) as [|g l] eqn:E; [done|]. cbn [foldl].
  change (place {| source := Retained; r_path := []; ids := []; others := [] |} g)
    with {| source := Retained; r_path := g.1; ids := g.2; others := [] |}.
  rewrite place_rest; [done|]. simpl. intros Hg. assert (g ∈ ordered (sort_texts <$> groups st)) as Hin by (rewrite E; by left).
  destruct g as [p x]. simpl in Hg. subst p. unfold ordered in Hin. rewrite merge_sort_Permutation in Hin.
  apply elem_of_map_to_list in Hin. by rewrite lookup_fmap, Hnil in Hin.
Qed.

(** Everything an identity protects. *)
Definition all_ids (i : ResolvedIdentity) : list (list Z) := concat (map g_ids (groups_of i)).

Lemma sort_texts_elem l x : x ∈ sort_texts l <-> x ∈ l.
Proof. unfold sort_texts. by rewrite merge_sort_Permutation. Qed.

Lemma concat_as_group l : concat (map g_ids (map as_group l)) = concat (map snd l).
Proof. by rewrite map_map. Qed.

Lemma settled_ids st :
  groups st !! [] = None ->
  all_ids (settle_groups st) ≡ₚ concat (map snd (map_to_list (sort_texts <$> groups st))) ++ pathless st.
Proof.
  intros Hnil. destruct (decide (groups st = ∅ /\ pathless st = [])) as [[E1 E2]|Hn].
  { unfold settle_groups. rewrite E1, E2, !bool_decide_true by done. rewrite fmap_empty, map_to_list_empty. done. }
  destruct (settled_groups st) as (l & -> & Hg); [done|destruct (decide (groups st = ∅)); naive_solver|].
  unfold all_ids. rewrite Hg. rewrite <- (merge_sort_Permutation key_le (map_to_list _)). fold (ordered (sort_texts <$> groups st)).
  destruct (ordered _) as [|g l]; simpl; unfold sort_texts; rewrite merge_sort_Permutation; [by rewrite app_nil_r|].
  rewrite concat_as_group, <- !app_assoc. apply Permutation_app_head. apply Permutation_app_comm.
Qed.

Lemma grouped_elem (m : gmap (list Z) (list (list Z))) x :
  x ∈ concat (map snd (map_to_list (sort_texts <$> m))) <-> exists p l, m !! p = Some l /\ x ∈ l.
Proof.
  rewrite list_elem_of_In, in_concat. setoid_rewrite in_map_iff. split.
  - intros (l & ([p l'] & <- & Hin) & Hx). apply list_elem_of_In, elem_of_map_to_list in Hin.
    rewrite lookup_fmap in Hin. destruct (m !! p) as [l0|] eqn:E; [|done]. injection Hin as <-. exists p, l0.
    split; [done|]. apply list_elem_of_In in Hx. by apply (sort_texts_elem l0 x).
  - intros (p & l & Hp & Hx). exists (sort_texts l). split; [|by apply list_elem_of_In, sort_texts_elem].
    exists (p, sort_texts l). split; [done|]. apply list_elem_of_In, elem_of_map_to_list. by rewrite lookup_fmap, Hp.
Qed.

Lemma grouped_nodup (l : list (list Z * list (list Z))) :
  NoDup l.*1 -> (forall p x, (p, x) ∈ l -> NoDup x) ->
  (forall p q a b x, (p, a) ∈ l -> (q, b) ∈ l -> x ∈ a -> x ∈ b -> p = q) -> NoDup (concat (map snd l)).
Proof.
  induction l as [|[p a] l IH]; intros Hn Hd Hx; simpl; [constructor|]. apply list.NoDup_cons in Hn as [Hp Hn].
  apply list.NoDup_app. split; [eapply Hd; by left|]. split.
  - intros x Ha Hin. apply list_elem_of_In, in_concat in Hin as (b & Hb & Hxb). apply in_map_iff in Hb as ([q b'] & <- & Hq).
    apply list_elem_of_In in Hq, Hxb. assert (p = q) as <- by (eapply (Hx p q a b' x); [by left|by right|done..]).
    destruct Hp. apply list_elem_of_fmap. by exists (p, b').
  - apply IH; [done|intros q b Hq; apply (Hd q); by right|].
    intros q r b d x H1 H2. apply (Hx q r b d x); by right.
Qed.

Section Unresolved.
Context (c : list (list Z * list Z)).
Let st := foldl add nothing c.

Lemma settled_elem x : x ∈ all_ids (settle_groups st) <-> x <> [] /\ exists p, (p, x) ∈ c.
Proof.
  destruct (gathers_all c) as [G1 G2 G3 G4 G5 G6]. fold st in G1, G2, G3, G4, G5, G6. rewrite settled_ids by done. rewrite elem_of_app, grouped_elem, G3.
  split.
  - intros [(p & l & Hp & Hx)|[Hne Hx]]; [|split; [done|]; eexists; by apply first_path_elem].
    assert (p <> []) as Hne by (intros ->; by rewrite G4 in Hp). pose proof (proj1 (G2 p x Hne)) as H. rewrite Hp in H.
    destruct (H Hx) as [Hx1 Hx2]. split; [done|]. eexists. by apply first_path_elem.
  - intros [Hne [p Hin]]. destruct (first_path x c) as [q|] eqn:E; [|by destruct (proj1 (first_path_none x c) E p)].
    destruct (decide (q = [])) as [->|Hq]; [by right|left].
    pose proof (proj2 (G2 q x Hq)) as H. destruct (groups st !! q) as [l|] eqn:El; simpl in H; [exists q, l; auto|].
    by apply elem_of_nil in H.
Qed.

Lemma settled_nodup : NoDup (all_ids (settle_groups st)).
Proof.
  destruct (gathers_all c) as [G1 G2 G3 G4 G5 G6]. fold st in G1, G2, G3, G4, G5, G6. rewrite settled_ids by done.
  assert (forall p l x, groups st !! p = Some l -> x ∈ l -> first_path x c = Some p) as Hfirst.
  { intros p l x Hp Hx. assert (p <> []) as Hne by (intros ->; by rewrite G4 in Hp). apply (G2 p x Hne). by rewrite Hp. }
  assert (forall p l, (p, l) ∈ map_to_list (sort_texts <$> groups st) -> exists l0, groups st !! p = Some l0 /\ l = sort_texts l0) as Hl.
  { intros p l Hin. apply elem_of_map_to_list in Hin. rewrite lookup_fmap in Hin. destruct (groups st !! p); naive_solver. }
  apply list.NoDup_app. split; [|split; [|done]].
  - apply grouped_nodup; [apply NoDup_fst_map_to_list|..].
    + intros p l (l0 & Hp & ->)%Hl. unfold sort_texts. rewrite merge_sort_Permutation. by apply (G5 p).
    + intros p q a b x (l1 & Hp & ->)%Hl (l2 & Hq & ->)%Hl Ha Hb. rewrite sort_texts_elem in Ha, Hb.
      pose proof (Hfirst p l1 x Hp Ha). pose proof (Hfirst q l2 x Hq Hb). congruence.
  - intros x (p & l & Hp & Hx)%grouped_elem Hx2. apply G3 in Hx2 as [_ Hx2]. rewrite (Hfirst p l x Hp Hx) in Hx2.
    injection Hx2 as ->. by rewrite G4 in Hp.
Qed.

Lemma settled_attributed x p :
  x <> [] -> p <> [] -> first_path x c = Some p -> exists g, g ∈ groups_of (settle_groups st) /\ g_path g = p /\ x ∈ g_ids g.
Proof.
  intros Hx Hp Hf. destruct (gathers_all c) as [G1 G2 G3 G4 G5 G6]. fold st in G1, G2, G3, G4, G5, G6.
  pose proof (proj2 (G2 p x Hp) (conj Hx Hf)) as Hin. destruct (groups st !! p) as [l|] eqn:El; simpl in Hin; [|by apply elem_of_nil in Hin].
  destruct (settled_groups st) as (o & Ho & Hg); [done|left; intros E; by rewrite E, lookup_empty in El|].
  assert ((p, sort_texts l) ∈ o) as Hpo.
  { subst o. unfold ordered. rewrite merge_sort_Permutation. apply elem_of_map_to_list. by rewrite lookup_fmap, El. }
  rewrite Hg. destruct o as [|g o]; [by apply elem_of_nil in Hpo|]. apply elem_of_cons in Hpo as [<-|Hpo].
  - eexists. split; [by left|]. split; [done|]. simpl. apply sort_texts_elem, elem_of_app. left. by apply sort_texts_elem.
  - exists (as_group (p, sort_texts l)). split; [right; by apply list_elem_of_fmap_2|]. split; [done|]. by apply sort_texts_elem.
Qed.
End Unresolved.

Section Retention.
Context {P : Platform}.

(** The entry's path does not resolve. *)
Definition unresolved (entry : list Z) : Prop := (resolve entry).1 = [] \/ (resolve entry).2 = [].

Lemma identify_unresolved filters previous entry :
  unresolved entry -> identify filters previous entry = settle_groups (foldl add nothing (candidates filters previous entry)).
Proof.
  unfold unresolved, identify. destruct (resolve entry) as [d n]. simpl.
  intros [-> | ->]; rewrite (bool_decide_true ([] = [])) by done; simpl; [done|by rewrite andb_false_r].
Qed.


(** ** The order of enumeration *)

Lemma settled_same c1 c2 :
  (forall x, x <> [] -> first_path x c1 = first_path x c2) ->
  settle_groups (foldl add nothing c1) = settle_groups (foldl add nothing c2).
Proof.
  intros Heq. destruct (gathers_all c1) as [A1 A2 A3 A4 A5 A6]. destruct (gathers_all c2) as [B1 B2 B3 B4 B5 B6].
  set (s1 := foldl add nothing c1) in *. set (s2 := foldl add nothing c2) in *.
  assert (pathless s1 ≡ₚ pathless s2) as Hpl.
  { apply NoDup_Permutation; [done..|]. intros x. rewrite A3, B3. split; intros [H1 H2]; (split; [done|]); by rewrite Heq in *. }
  assert (sort_texts <$> groups s1 = sort_texts <$> groups s2) as Hgr.
  { apply map_eq. intros p. rewrite !lookup_fmap. destruct (decide (p = [])) as [->|Hp]; [by rewrite A4, B4|].
    assert (forall x, x ∈ default [] (groups s1 !! p) <-> x ∈ default [] (groups s2 !! p)) as Hx.
    { intros x. rewrite A2, B2 by done. split; intros [H1 H2]; (split; [done|]); by rewrite Heq in *. }
    destruct (groups s1 !! p) as [l1|] eqn:E1, (groups s2 !! p) as [l2|] eqn:E2; simpl in *; [|exfalso..|done].
    - f_equal. apply sort_texts_perm, NoDup_Permutation; [by apply (A5 p)|by apply (B5 p)|done].
    - destruct (A5 p l1 E1) as [Hne _]. destruct l1 as [|x l1]; [done|]. specialize (Hx x). set_solver.
    - destruct (B5 p l2 E2) as [Hne _]. destruct l2 as [|x l2]; [done|]. specialize (Hx x). set_solver. }
  unfold settle_groups. rewrite Hgr.
  replace (bool_decide (groups s1 = ∅)) with (bool_decide (groups s2 = ∅)).
  2:{ apply bool_decide_ext. rewrite <- (fmap_empty_iff sort_texts (groups s1)), <- (fmap_empty_iff sort_texts (groups s2)). by rewrite Hgr. }
  replace (bool_decide (pathless s1 = [])) with (bool_decide (pathless s2 = [])).
  2:{ apply bool_decide_ext. split; intros E; rewrite E in Hpl; [by apply Permutation_nil_r in Hpl|by apply Permutation_nil_l in Hpl]. }
  destruct (_ && _); [done|]. f_equal. apply sort_texts_perm. by rewrite Hpl.
Qed.

Lemma first_path_app x a b :
  first_path x (a ++ b) = match first_path x a with Some p => Some p | None => first_path x b end.
Proof. induction a as [|[p i] a IH]; simpl; [done|]. by destruct (bool_decide (i = x)). Qed.

Lemma first_path_only x c p : (p, x) ∈ c -> (forall q, (q, x) ∈ c -> q = p) -> first_path x c = Some p.
Proof.
  intros Hin Honly. destruct (first_path x c) as [q|] eqn:E; [|by destruct (proj1 (first_path_none x c) E p)].
  f_equal. by apply Honly, first_path_elem.
Qed.

Lemma first_path_perm x c1 c2 :
  c1 ≡ₚ c2 -> (forall p q, (p, x) ∈ c1 -> (q, x) ∈ c1 -> p = q) -> first_path x c1 = first_path x c2.
Proof.
  intros Hp Hone. destruct (first_path x c1) as [p|] eqn:E.
  - apply first_path_elem in E. symmetry. apply first_path_only; [by rewrite <- Hp|]. intros q Hq. rewrite <- Hp in Hq. by apply Hone.
  - symmetry. apply first_path_none. intros p. rewrite <- Hp. by apply first_path_none.
Qed.

Lemma filter_candidates_elem filters entry p x :
  (p, x) ∈ filter_candidates filters entry <-> exists f, f ∈ filters /\ f_tag f = entry /\ f_path f = p /\ f_appId f = x.
Proof.
  unfold filter_candidates. rewrite list_elem_of_omap. split.
  - intros (f & Hf & H). case_bool_decide; [|done]. injection H as <- <-. by exists f.
  - intros (f & Hf & <- & <- & <-). exists f. by rewrite bool_decide_true.
Qed.

(** Filters with the same tag and identifier carry the same path, as every set
    one install commits does. *)
Definition tagged_once (filters : list OwnedFilter) : Prop :=
  forall a b, a ∈ filters -> b ∈ filters -> f_tag a = f_tag b -> f_appId a = f_appId b -> f_path a = f_path b.

(** The identities do not depend on the order in which the filter engine
    enumerates the filters. *)
Theorem enumeration_order_irrelevant listed previous filters filters' :
  filters ≡ₚ filters' -> tagged_once filters ->
  identifyApps listed previous filters = identifyApps listed previous filters'.
Proof.
  intros Hp Hone. apply map_eq. intros entry. rewrite !identifyApps_lookup. case_bool_decide; [|done]. f_equal.
  unfold identify. destruct (resolve entry) as [d n]. destruct (_ && _); [done|]. apply settled_same. intros x _.
  unfold candidates. rewrite !first_path_app. erewrite first_path_perm; [done|unfold filter_candidates; by rewrite Hp|].
  intros p q (a & Ha & Hta & <- & <-)%filter_candidates_elem (b & Hb & Htb & <- & Hx)%filter_candidates_elem.
  apply Hone; congruence.
Qed.

(** ** An install that stopped before its record was published *)

(** [filters] are what an install of [m] committed. *)
Definition committed (m : Identities) (filters : list OwnedFilter) : Prop :=
  (forall f, f ∈ filters -> exists data id, (data, id) ∈ AppIds m /\ f = ownedFilter (f_id f) (f_signature f) (Some data) id) /\
  (forall data id, (data, id) ∈ AppIds m -> exists n sig, ownedFilter n sig (Some data) id ∈ filters).

Lemma AppIds_elem m data id :
  (data, id) ∈ AppIds m <-> exists e i g, m !! e = Some i /\ g ∈ groups_of i /\ id ∈ g_ids g /\ data = e ++ 9 :: g_path g.
Proof.
  assert (forall e i, In (e, i) (ordered m) <-> m !! e = Some i) as Ho.
  { intros e i. rewrite <- elem_of_map_to_list. unfold ordered. rewrite <- list_elem_of_In. by rewrite merge_sort_Permutation. }
  unfold AppIds, tagged_ids. rewrite list_elem_of_In, in_concat. setoid_rewrite in_map_iff. split.
  - intros (l & ([e i] & <- & He) & Hin). apply Ho in He. apply in_concat in Hin as (l & Hl & Hin).
    apply in_map_iff in Hl as (g & <- & Hg). apply in_map_iff in Hin as (x & [= <- <-] & Hx).
    apply list_elem_of_In in Hg, Hx. by exists e, i, g.
  - intros (e & i & g & He & Hg & Hid & ->). eexists. split; [exists (e, i); split; [done|by apply Ho]|].
    apply in_concat. eexists. split; [apply in_map_iff; exists g; split; [done|by apply list_elem_of_In]|].
    apply in_map_iff. exists id. split; [done|by apply list_elem_of_In].
Qed.

Lemma ownedFilter_tag n sig e p id :
  9 ∉ e -> ownedFilter n sig (Some (e ++ 9 :: p)) id =
    {| f_id := n; f_signature := sig; f_tag := e; f_path := p; f_appId := id |}.
Proof. intros He. unfold ownedFilter. by rewrite cut_app. Qed.

Lemma committed_candidates m filters entry i p x :
  committed m filters -> (forall e j, m !! e = Some j -> 9 ∉ e) -> m !! entry = Some i ->
  (p, x) ∈ filter_candidates filters entry <-> exists g, g ∈ groups_of i /\ x ∈ g_ids g /\ p = g_path g.
Proof.
  intros [Hf Ha] Htab Hm. rewrite filter_candidates_elem. split.
  - intros (f & Hin & Ht & Hp & Hx). destruct (Hf f Hin) as (data & id & Hd & Ef).
    apply AppIds_elem in Hd as (e & j & g & He & Hg & Hid & ->). rewrite ownedFilter_tag in Ef by (by eapply Htab).
    rewrite Ef in Ht, Hp, Hx. simpl in Ht, Hp, Hx. subst e p x. rewrite Hm in He. injection He as <-. by exists g.
  - intros (g & Hg & Hx & ->). destruct (Ha (entry ++ 9 :: g_path g) x) as (n & sig & Hin); [apply AppIds_elem; eauto 10|].
    rewrite ownedFilter_tag in Hin by (by eapply Htab). eexists. split; [exact Hin|done].
Qed.

Lemma groups_disjoint i g h x :
  NoDup (all_ids i) -> g ∈ groups_of i -> h ∈ groups_of i -> x ∈ g_ids g -> x ∈ g_ids h -> g = h.
Proof.
  unfold all_ids. generalize (groups_of i) as l. induction l as [|a l IH]; intros Hn Hg Hh Hxg Hxh; [by apply elem_of_nil in Hg|].
  simpl in Hn. apply list.NoDup_app in Hn as (_ & Hd & Hn).
  assert (forall b, b ∈ l -> x ∈ g_ids b -> x ∈ concat (map g_ids l)) as Hc.
  { intros b Hb Hx. apply list_elem_of_In, in_concat. exists (g_ids b). split; [by apply in_map, list_elem_of_In|by apply list_elem_of_In]. }
  apply elem_of_cons in Hg as [->|Hg], Hh as [->|Hh]; [done|..].
  - by destruct (Hd x Hxg (Hc h Hh Hxh)).
  - by destruct (Hd x Hxh (Hc g Hg Hxg)).
  - by apply IH.
Qed.

(** An install that stopped after committing its filters, before its
    record was published, loses nothing: whatever the record still says, an
    entry that no longer resolves keeps every identifier the install gave it,
    attributed by the same path. *)
Theorem interrupted_install_recovers m filters listed previous entry i :
  committed m filters -> (forall e j, m !! e = Some j -> 9 ∉ e) -> m !! entry = Some i -> NoDup (all_ids i) ->
  entry ∈ listed -> unresolved entry ->
  exists i', identifyApps listed previous filters !! entry = Some i' /\
    (forall x, x <> [] -> x ∈ all_ids i -> x ∈ all_ids i') /\
    (forall g x, g ∈ groups_of i -> g_path g <> [] -> x <> [] -> x ∈ g_ids g ->
       exists g', g' ∈ groups_of i' /\ g_path g' = g_path g /\ x ∈ g_ids g').
Proof.
  intros Hc Htab Hm Hn Hin Hun. eexists. rewrite identifyApps_lookup, bool_decide_true by done. split; [done|].
  rewrite identify_unresolved by done. split.
  - intros x Hx Hall. apply settled_elem. split; [done|]. unfold all_ids in Hall.
    apply list_elem_of_In, in_concat in Hall as (l & Hl & Hxl). apply in_map_iff in Hl as (g & <- & Hg).
    apply list_elem_of_In in Hg, Hxl. exists (g_path g). unfold candidates. apply elem_of_app. left.
    apply (committed_candidates m _ _ i); [done..|]. by exists g.
  - intros g x Hg Hp Hx Hxg. apply settled_attributed; [done..|]. unfold candidates. rewrite first_path_app.
    rewrite (first_path_only x _ (g_path g)); [done|apply (committed_candidates m _ _ i); [done..|by exists g]|].
    intros q Hq. apply (committed_candidates m _ _ i) in Hq as (h & Hh & Hxh & ->); [|done..].
    by rewrite (groups_disjoint i g h x).
Qed.
End Retention.

(** ** Examples *)

(** A platform on which nothing resolves. *)
#[local] Instance demo_platform : Platform := {| resolve _ := ([], []); presentId _ := []; downcase := None |}.

Definition demo_entry : list Z := str "app.exe".

Definition demo_installed : ResolvedIdentity :=
  {| source := Present; r_path := str "c:/app.exe"; ids := [[5]; [4]]; others := [{| g_path := str "d:/app.exe"; g_ids := [[9]] |}] |}.

Definition demo_map : Identities := {[demo_entry := demo_installed]}.

Definition demo_filters : list OwnedFilter := map (fun d => ownedFilter 1 [] (Some d.1) d.2) (AppIds demo_map).

(** A record an earlier install published. *)
Definition demo_previous : Identities :=
  {[demo_entry := {| source := Retained; r_path := str "c:/old.exe"; ids := [[4]; [7]]; others := [] |}]}.

Lemma demo_committed m : committed m (map (fun d => ownedFilter 1 [] (Some d.1) d.2) (AppIds m)).
Proof.
  split.
  - intros f Hf. apply list_elem_of_In, in_map_iff in Hf as ([data id] & <- & Hin).
    exists data, id. split; [by apply list_elem_of_In|]. unfold ownedFilter. simpl. by destruct (cut 9 data) as [[]|].
  - intros data id Hin. exists 1, []. apply list_elem_of_In, in_map_iff. exists (data, id).
    split; [done|by apply list_elem_of_In].
Qed.

Example demo_recovered :
  identify demo_filters demo_previous demo_entry =
    {| source := Retained; r_path := str "c:/app.exe"; ids := [[4]; [5]];
       others := [{| g_path := str "c:/old.exe"; g_ids := [[7]] |}; {| g_path := str "d:/app.exe"; g_ids := [[9]] |}] |}.
Proof. by vm_compute. Qed.


Lemma interrupted_install_recovers_witness :
  exists i', identifyApps {[demo_entry]} demo_previous demo_filters !! demo_entry = Some i' /\
    (forall x, x <> [] -> x ∈ all_ids demo_installed -> x ∈ all_ids i') /\
    (forall g x, g ∈ groups_of demo_installed -> g_path g <> [] -> x <> [] -> x ∈ g_ids g ->
       exists g', g' ∈ groups_of i' /\ g_path g' = g_path g /\ x ∈ g_ids g').
Proof.
  apply (interrupted_install_recovers demo_map).
  - apply demo_committed.
  - unfold demo_map. intros e j [<- _]%lookup_singleton_Some. vm_compute. set_solver.
  - apply lookup_singleton_eq.
  - apply (bool_decide_unpack _). by vm_compute.
  - set_solver.
  - by left.
Defined.

Lemma enumeration_order_irrelevant_witness :
  identifyApps {[demo_entry]} demo_previous demo_filters = identifyApps {[demo_entry]} demo_previous (rev demo_filters).
Proof.
  apply enumeration_order_irrelevant; [apply Permutation_rev|].
  assert (Forall (fun a => Forall (fun b => f_tag a = f_tag b -> f_appId a = f_appId b -> f_path a = f_path b) demo_filters) demo_filters) as H
    by (apply (bool_decide_unpack _); by vm_compute).
  intros a b Ha Hb. rewrite list.Forall_forall in H. specialize (H a Ha). rewrite list.Forall_forall in H. by apply H.
Defined.

(** Without that condition the order does matter: an identifier two filters of
    one entry carry with different paths is attributed by whichever comes
    first. *)
Definition filter_by (path : String.string) : OwnedFilter :=
  {| f_id := 1; f_signature := []; f_tag := demo_entry; f_path := str path; f_appId := [5] |}.

Example order_matters_when_paths_differ :
  identify [filter_by "c:/a.exe"; filter_by "c:/b.exe"] ∅ demo_entry <>
  identify [filter_by "c:/b.exe"; filter_by "c:/a.exe"] ∅ demo_entry.
Proof. by vm_compute. Qed.
