(* ===== verification/Inputs.v ===== *)
(** * Inputs: what the dispatcher routes by, and reloading it in place

    Models [readStateInputs], [publishLoaded] and [setRoutes] of
    [src/src/native/dns-dispatcher-state.h] and the reload thread of
    [dns-dispatcher.cpp]: inputs are validated before any of them is used, a
    rejected reload keeps the loaded ones, and the published files say what is
    loaded.  File contents and the outcome of each write come from outside. *)
From S2P Require Import Prelude Numbers DnsWire Attribution Upstream Dispatch Supervisor Identity.

(** ** Reading *)

Record StateInputs := {
  inputsBytes : list Z; identitiesBytes : list Z; i_routes : Routes; i_included : gset (list Z)
}.

(** [rfind(prefix, 0) == 0]. *)
Definition starts_with (prefix text : list Z) : bool := bool_decide (take (length prefix) text = prefix).

(** A trimmed line's key and value, if it has them. *)
Definition field_line (line : list Z) : option (list Z * list Z) :=
  match line with
  | [] => None
  | c :: _ => if c =? 35 then None else cut 61 line
  end.

Definition set_field (values : gmap (list Z) (list Z)) (line : list Z) : gmap (list Z) (list Z) :=
  match field_line (trim line) with Some (key, value) => <[key := value]> values | None => values end.

Definition input_fields (text : list Z) : gmap (list Z) (list Z) := foldl set_field ∅ (split_lines text).

Section Inputs.
Context {U : Utf8} {W : WideChars} {X : XDigits} {P : Paths} {I : Inet}.

Definition read_routes (values : gmap (list Z) (list Z)) : option Routes :=
  source ← values !! str "direct-source" ≫= inet_pton;
  resolvers ← values !! str "direct-dns" ≫= resolverList;
  tunnel ← values !! str "tunnel-source" ≫= inet_pton;
  dns ← values !! str "tunnel-dns" ≫= inet_pton;
  Some {| directSource := source; directDns := resolvers; tunnelSource := tunnel; tunnelDns := dns |}.

(** From the contents of the two files. *)
Definition readStateInputs (inputs identities : list Z) : option StateInputs :=
  text ← wideText inputs;
  if negb (starts_with (str "# wgps-dispatcher-inputs 1") text) then None
  else
    routes ← read_routes (input_fields text);
    record ← wideText identities;
    if negb (starts_with kIdentityHeader record) then None
    else
      included ← parseIncludedText record;
      Some {| inputsBytes := inputs; identitiesBytes := identities; i_routes := routes; i_included := included |}.

Lemma readStateInputs_bytes a b inputs :
  readStateInputs a b = Some inputs -> inputsBytes inputs = a /\ identitiesBytes inputs = b.
Proof.
  unfold readStateInputs. destruct (wideText a); [simpl|done]. destruct (negb _); [done|].
  destruct (read_routes _); [simpl|done]. destruct (wideText b); [simpl|done]. destruct (negb _); [done|].
  destruct (parseIncludedText _); [simpl|done]. by intros [= <-].
Qed.

Lemma readStateInputs_resolvers a b inputs :
  readStateInputs a b = Some inputs ->
  (1 <= length (directDns (i_routes inputs)) <= kMaxDirectResolvers)%nat /\ NoDup (directDns (i_routes inputs)).
Proof.
  unfold readStateInputs. destruct (wideText a) as [text|]; [simpl|done]. destruct (negb _); [done|].
  destruct (read_routes _) as [r|] eqn:Er; [simpl|done]. destruct (wideText b); [simpl|done]. destruct (negb _); [done|].
  destruct (parseIncludedText _); [simpl|done]. intros [= <-]. simpl. unfold read_routes in Er.
  apply bind_Some in Er as (source & _ & Er). apply bind_Some in Er as (resolvers & El & Er).
  apply bind_Some in Er as (tunnel & _ & Er). apply bind_Some in Er as (dns & _ & [= <-]). simpl.
  apply bind_Some in El as (t & _ & El).
  apply resolverList_spec in El. tauto.
Qed.

(** ** The dispatcher's loaded state *)

(** [f_inputs], [f_identities] and [f_status]: the published files. *)
Record loaded := {
  d_inputs : StateInputs; d_hints : Hints; d_resolvers : DirectResolvers.state; d_generation : Z;
  f_inputs : option (list Z); f_identities : option (list Z); f_status : option (list Z)
}.

(** Which of [publishLoaded]'s writes succeed. *)
Record writes := { w_inputs : bool; w_identities : bool; w_status : bool }.

(** The first write that fails ends the publication. *)
Definition publishLoaded (pid : Z) (inputs : StateInputs) (generation : Z) (w : writes) (d : loaded) : loaded :=
  let step1 := w_inputs w in
  let step2 := step1 && w_identities w in
  let step3 := step2 && w_status w in
  {| d_inputs := d_inputs d; d_hints := d_hints d; d_resolvers := d_resolvers d; d_generation := d_generation d;
     f_inputs := if step1 then Some (inputsBytes inputs) else f_inputs d;
     f_identities := if step2 then Some (identitiesBytes inputs) else f_identities d;
     f_status := if step3 then Some (status_text pid generation) else f_status d |}.

(** A start loads and publishes its inputs, or fails. *)
Definition start (pid : Z) (contents : option (list Z * list Z)) (w : writes) (stale : list (option (list Z))) : option loaded :=
  '(a, b) ← contents;
  inputs ← readStateInputs a b;
  if w_inputs w && w_identities w && w_status w then
    Some (publishLoaded pid inputs 1 w
            {| d_inputs := inputs; d_hints := newHints (i_included inputs) (milliseconds 3000); d_resolvers := DirectResolvers.new;
               d_generation := 1; f_inputs := nth 0 stale None; f_identities := nth 1 stale None; f_status := nth 2 stale None |})
  else None.

(** One reload request. *)
Definition reload (pid : Z) (contents : option (list Z * list Z)) (w : writes) (d : loaded) : loaded :=
  match '(a, b) ← contents; readStateInputs a b with
  | None => d
  | Some next =>
      publishLoaded pid next (u32 (d_generation d + 1)) w
        {| d_inputs := next; d_hints := setIncluded (d_hints d) (i_included next);
           d_resolvers := DirectResolvers.reset (d_resolvers d); d_generation := u32 (d_generation d + 1);
           f_inputs := f_inputs d; f_identities := f_identities d; f_status := f_status d |}
  end.

(** A dispatcher after [n] steps: reloads, and queries and events in between,
    which change the evidence and the resolver preference. *)
Inductive reaches (pid : Z) : nat -> loaded -> Prop :=
| Started contents w stale d : start pid contents w stale = Some d -> reaches pid 0 d
| Reloaded n d contents w : reaches pid n d -> reaches pid (S n) (reload pid contents w d)
| Worked n d h r :
    reaches pid n d -> included h = included (d_hints d) ->
    reaches pid (S n)
      {| d_inputs := d_inputs d; d_hints := h; d_resolvers := r; d_generation := d_generation d;
         f_inputs := f_inputs d; f_identities := f_identities d; f_status := f_status d |}.

(** ** What is loaded, and what is published *)

Record coherent (pid : Z) (n : nat) (d : loaded) : Prop := {
  co_valid : readStateInputs (inputsBytes (d_inputs d)) (identitiesBytes (d_inputs d)) = Some (d_inputs d);
  co_included : included (d_hints d) = i_included (d_inputs d);
  co_generation : 1 <= d_generation d <= Z.of_nat n + 1;
  co_status : exists g, 1 <= g <= d_generation d /\ f_status d = Some (status_text pid g) /\
    (g = d_generation d -> f_inputs d = Some (inputsBytes (d_inputs d)) /\ f_identities d = Some (identitiesBytes (d_inputs d)))
}.

Lemma status_text_inj pid g g' : 0 <= g < 2 ^ 64 -> 0 <= g' < 2 ^ 64 -> status_text pid g = status_text pid g' -> g = g'.
Proof.
  intros Hg Hg' H. unfold status_text in H. do 4 apply app_inv_head in H. apply app_inv_tail in H. by apply to_string_inj in H.
Qed.

Lemma reload_coherent pid n d contents w :
  coherent pid n d -> Z.of_nat n + 2 < 2 ^ 32 -> coherent pid (S n) (reload pid contents w d).
Proof.
  intros [C1 C2 C3 (g & Hg & Hs & Hf)] Hn. unfold reload.
  destruct (_ ≫= _) as [next|] eqn:E; [|split; eauto; lia].
  destruct contents as [[a b]|]; [simpl in E|done]. destruct (readStateInputs_bytes a b next E) as [Ea Eb].
  rewrite (uN_id 32) by lia. destruct w as [w1 w2 w3]. split; unfold publishLoaded; simpl; [by rewrite Ea, Eb|done|lia|].
  destruct (w1 && w2 && w3) eqn:Ew.
  - apply andb_true_iff in Ew as [[-> ->]%andb_true_iff ->]. exists (d_generation d + 1). split; [lia|done].
  - exists g. split; [lia|]. split; [done|lia].
Qed.

Lemma reaches_coherent pid n d : reaches pid n d -> Z.of_nat n + 1 < 2 ^ 32 -> coherent pid n d.
Proof.
  induction 1 as [contents w stale d Hd|n d contents w _ IH|n d h r _ IH Hh]; intros Hn.
  - unfold start in Hd. destruct contents as [[a b]|]; [simpl in Hd|done].
    destruct (readStateInputs a b) as [inputs|] eqn:E; [simpl in Hd|done]. destruct (readStateInputs_bytes _ _ _ E) as [Ea Eb].
    destruct w as [[] [] []]; simpl in Hd; try done. injection Hd as <-. split; simpl; [by rewrite Ea, Eb|done|lia|].
    exists 1. split; [lia|done].
  - apply reload_coherent; [apply IH; lia|lia].
  - destruct IH as [C1 C2 C3 C4]; [lia|]. split; simpl; [done|congruence|lia|done].
Qed.

(** C21: through every sequence of reloads, with whatever contents the files
    have and whichever writes fail, the dispatcher routes by inputs that passed
    validation: one to three distinct physical resolvers, and exactly the
    selected programs of a well-formed record; and when the status names its
    generation, the published files are the ones it routes by. *)
Theorem loaded_inputs_validated pid n d :
  reaches pid n d -> Z.of_nat n + 1 < 2 ^ 32 ->
  readStateInputs (inputsBytes (d_inputs d)) (identitiesBytes (d_inputs d)) = Some (d_inputs d) /\
  (1 <= length (directDns (i_routes (d_inputs d))) <= kMaxDirectResolvers)%nat /\ NoDup (directDns (i_routes (d_inputs d))) /\
  included (d_hints d) = i_included (d_inputs d) /\
  (f_status d = Some (status_text pid (d_generation d)) ->
   f_inputs d = Some (inputsBytes (d_inputs d)) /\ f_identities d = Some (identitiesBytes (d_inputs d))).
Proof.
  intros Hr Hn. destruct (reaches_coherent _ _ _ Hr Hn) as [C1 C2 C3 (g & Hg & Hs & Hf)].
  destruct (readStateInputs_resolvers _ _ _ C1) as [R1 R2]. do 4 (split; [done|]).
  intros Hst. apply Hf. rewrite Hs in Hst. apply (inj Some) in Hst. apply status_text_inj in Hst; lia.
Qed.
End Inputs.

(** ** Examples *)

#[local] Instance ascii_utf8 : Utf8 := demo_utf8.
#[local] Instance demo_lower : WideChars := c_locale.
#[local] Instance demo_digits : XDigits := demo_xdigits.
#[local] Instance demo_resolve : Paths := demo_paths.
#[local] Instance dotted : Inet := {| inet_pton t := if bool_decide (t = []) then None else Some (foldl (fun a c => a * 256 + c) 0 t) |}.

Definition line (s : String.string) : list Z := str s ++ [13; 10].

Definition demo_inputs : list Z :=
  line "# wgps-dispatcher-inputs 1" ++ line "direct-source=a" ++ line "direct-dns=b,c" ++ line "tunnel-source=d" ++ line "tunnel-dns=e".

Definition demo_record : list Z := serializeIdentities demo_identities.

(** A reload whose status cannot be written, then one with a damaged record,
    then one that succeeds. *)
Definition all_written : writes := {| w_inputs := true; w_identities := true; w_status := true |}.
Definition status_unwritten : writes := {| w_inputs := true; w_identities := true; w_status := false |}.

Definition demo_started : option loaded := start 7 (Some (demo_inputs, demo_record)) all_written [].

Definition demo_reloaded (d : loaded) : loaded :=
  reload 7 (Some (demo_inputs, kIdentityHeader)) all_written
    (reload 7 (Some (demo_inputs, kIdentityHeader ++ str "damaged")) all_written
      (reload 7 (Some (demo_inputs, demo_record)) status_unwritten d)).

Example reloads :
  fmap (fun d => (d_generation (demo_reloaded d), elements (i_included (d_inputs (demo_reloaded d))))) demo_started = Some (3, []).
Proof. by vm_compute. Qed.

Definition demo_loaded (d : loaded) : Prop :=
  readStateInputs (inputsBytes (d_inputs d)) (identitiesBytes (d_inputs d)) = Some (d_inputs d) /\
  (1 <= length (directDns (i_routes (d_inputs d))) <= kMaxDirectResolvers)%nat /\ NoDup (directDns (i_routes (d_inputs d))) /\
  included (d_hints d) = i_included (d_inputs d) /\
  (f_status d = Some (status_text 7 (d_generation d)) ->
   f_inputs d = Some (inputsBytes (d_inputs d)) /\ f_identities d = Some (identitiesBytes (d_inputs d))).

Lemma loaded_inputs_validated_witness : exists d, demo_started = Some d /\ demo_loaded (demo_reloaded d).
Proof.
  destruct demo_started as [d|] eqn:E; [|by vm_compute in E]. exists d. split; [done|].
  apply (loaded_inputs_validated 7 3); [|lia]. unfold demo_reloaded. do 3 apply Reloaded. unfold demo_started in E. eapply Started. exact E.
Defined.
