(* ===== verification/Snapshots.v ===== *)
(** * Snapshots: what a query routes by while a reload replaces it

    Models [currentRoutes] and [setRoutes] of
    [src/src/native/dns-dispatcher-state.h], and the included set of [Hints]
    ([dns-attribution.h]), which is kept in the same way: a shared pointer to an
    immutable object.  A query copies the pointer under the lock and keeps the
    object until it ends; a reload makes a new object and exchanges the pointer.
    The objects with their reference counts are a store, so that sharing and
    freeing are explicit. *)
From S2P Require Import Prelude.

Section Snapshots.
Context {A : Type}.

(** The objects, with the number of pointers to each; the published pointer; and
    the pointers held, by their holder. *)
Record snapshot_store := { heap : gmap positive (A * nat); published : option positive; held : gmap positive positive }.

Definition empty_store : snapshot_store := {| heap := ∅; published := None; held := ∅ |}.

(** A pointer is copied. *)
Definition retain (l : positive) (h : gmap positive (A * nat)) : gmap positive (A * nat) :=
  match h !! l with Some (v, n) => <[l := (v, S n)]> h | None => h end.

(** A pointer is destroyed; with the last one goes the object. *)
Definition drop_pointer (l : positive) (h : gmap positive (A * nat)) : gmap positive (A * nat) :=
  match h !! l with
  | Some (v, S (S n)) => <[l := (v, S n)]> h
  | Some _ => delete l h
  | None => h
  end.

(** [setRoutes]: the new object, then the exchange, which destroys the old
    pointer. *)
Definition publish_snapshot (v : A) (s : snapshot_store) : snapshot_store :=
  let l := fresh (dom (heap s)) in
  let h := <[l := (v, 1%nat)]> (heap s) in
  {| heap := match published s with Some old => drop_pointer old h | None => h end; published := Some l; held := held s |}.

(** [const auto routes = currentRoutes();] of holder [q]. *)
Definition acquire_snapshot (q : positive) (s : snapshot_store) : snapshot_store :=
  match held s !! q, published s with
  | None, Some l => {| heap := retain l (heap s); published := published s; held := <[q := l]> (held s) |}
  | _, _ => s
  end.

(** The end of [q]'s scope. *)
Definition release_snapshot (q : positive) (s : snapshot_store) : snapshot_store :=
  match held s !! q with
  | Some l => {| heap := drop_pointer l (heap s); published := published s; held := delete q (held s) |}
  | None => s
  end.

(** [*routes]; nothing if the object is gone. *)
Definition seen_snapshot (q : positive) (s : snapshot_store) : option A := l ← held s !! q; fst <$> heap s !! l.
Definition current (s : snapshot_store) : option A := l ← published s; fst <$> heap s !! l.

Inductive store_step := Publish (v : A) | Acquire (q : positive) | Release (q : positive).

Definition store_apply (s : snapshot_store) (o : store_step) : snapshot_store :=
  match o with Publish v => publish_snapshot v s | Acquire q => acquire_snapshot q s | Release q => release_snapshot q s end.

Definition store_run (steps : list store_step) (s : snapshot_store) : snapshot_store := foldl store_apply s steps.

(** ** Counting pointers *)

Definition one (b : bool) : nat := if b then 1 else 0.
Definition pointers (l : positive) (m : gmap positive positive) : nat := size (filter (fun e : positive * positive => e.2 = l) m).
Definition references (l : positive) (s : snapshot_store) : nat := one (bool_decide (published s = Some l)) + pointers l (held s).
Definition count_of (l : positive) (h : gmap positive (A * nat)) : nat := match h !! l with Some (_, n) => n | None => 0 end.

Lemma pointers_insert l l' q m : m !! q = None -> pointers l (<[q := l']> m) = (one (bool_decide (l' = l)) + pointers l m)%nat.
Proof.
  intros Hq. unfold pointers. case_bool_decide as E.
  - rewrite map_filter_insert_True by done. rewrite map_size_insert_None; [done|]. apply map_lookup_filter_None. by left.
  - rewrite map_filter_insert_False by done. by rewrite delete_id.
Qed.

Lemma pointers_delete l l' q m : m !! q = Some l' -> pointers l m = (one (bool_decide (l' = l)) + pointers l (delete q m))%nat.
Proof. intros Hq. rewrite <- (pointers_insert l l' q (delete q m)) by apply lookup_delete_eq. by rewrite insert_delete_id. Qed.

(** Every count is the number of pointers, and an object without one is gone. *)
Definition counted (s : snapshot_store) : Prop :=
  forall l, count_of l (heap s) = references l s /\ (forall v, heap s !! l <> Some (v, 0%nat)).

Lemma count_drop l l' h : (forall v, h !! l <> Some (v, 0%nat)) ->
  count_of l' (drop_pointer l h) = (count_of l' h - one (bool_decide (l = l') && bool_decide (is_Some (h !! l))))%nat /\
  ((forall v, h !! l' <> Some (v, 0%nat)) -> forall v, drop_pointer l h !! l' <> Some (v, 0%nat)).
Proof.
  intros Hz. unfold drop_pointer, count_of. destruct (h !! l) as [[v [|[|n]]]|] eqn:E; [by destruct (Hz v)|..].
  - destruct (decide (l = l')) as [<-|Hne].
    + rewrite lookup_delete_eq, E, !bool_decide_true by done. split; [done|]. by intros _ v'.
    + rewrite lookup_delete_ne by done. rewrite (bool_decide_false (l = l')) by done. split; [simpl; lia|]. done.
  - destruct (decide (l = l')) as [<-|Hne].
    + rewrite lookup_insert_eq, E, !bool_decide_true by done. split; [simpl; lia|]. by intros _ v' [= ].
    + rewrite lookup_insert_ne by done. rewrite (bool_decide_false (l = l')) by done. split; [simpl; lia|]. done.
  - rewrite (bool_decide_false (is_Some None)) by (by intros [? ?]). rewrite andb_false_r. split; [simpl; lia|done].
Qed.

(** Whatever is pointed to is there. *)
Lemma snapshot_counted_there s l : counted s -> (0 < references l s)%nat -> exists v n, heap s !! l = Some (v, n).
Proof.
  intros Hc Hr. destruct (Hc l) as [H _]. unfold count_of in H. destruct (heap s !! l) as [[v n]|]; [by exists v, n|lia].
Qed.

Lemma published_referenced s l : published s = Some l -> (0 < references l s)%nat.
Proof. intros H. unfold references. rewrite bool_decide_true by done. simpl. lia. Qed.

Lemma held_referenced s q l : held s !! q = Some l -> (0 < pointers l (held s))%nat.
Proof. intros H. rewrite (pointers_delete l l q _ H), bool_decide_true by done. simpl. lia. Qed.

Lemma snapshot_counted_release q s : counted s -> counted (release_snapshot q s).
Proof.
  intros Hc. unfold release_snapshot. destruct (held s !! q) as [l|] eqn:E; [|done]. intros l'.
  destruct (Hc l') as [Hl' Hz']. destruct (Hc l) as [_ Hz]. destruct (count_drop l l' (heap s) Hz) as [Hd Hd0]. cbn [heap].
  split; [|by apply Hd0]. rewrite Hd, Hl'. unfold references. cbn [published held]. rewrite (pointers_delete l' l q _ E).
  destruct (snapshot_counted_there s l Hc) as (v & n & Hh); [pose proof (held_referenced s q l E); unfold references; lia|].
  rewrite Hh, (bool_decide_true (is_Some _)) by done. rewrite andb_true_r. lia.
Qed.

Lemma snapshot_counted_acquire q s : counted s -> counted (acquire_snapshot q s).
Proof.
  intros Hc. unfold acquire_snapshot. destruct (held s !! q) eqn:E; [done|]. destruct (published s) as [l|] eqn:Ep; [|done].
  destruct (snapshot_counted_there s l Hc (published_referenced s l Ep)) as (v & n & Hh). intros l'. destruct (Hc l') as [Hl' Hz'].
  unfold references in *. cbn [heap published held]. rewrite (pointers_insert _ _ _ _ E). rewrite Ep in Hl'. unfold retain. rewrite Hh. unfold count_of in *.
  destruct (decide (l = l')) as [<-|Hne].
  - rewrite lookup_insert_eq. rewrite Hh in Hl'. rewrite !bool_decide_true in * by done. split; [simpl in *; lia|]. by intros v' [= ].
  - rewrite lookup_insert_ne by done. rewrite (bool_decide_false (l = l')) by done. simpl. split; [lia|done].
Qed.

Lemma snapshot_counted_publish v s : counted s -> counted (publish_snapshot v s).
Proof.
  intros Hc. unfold publish_snapshot. set (l := fresh (dom (heap s))). set (h := <[l := _]> (heap s)).
  assert (heap s !! l = None) as Hnew by (apply not_elem_of_dom; apply is_fresh).
  destruct (Hc l) as [Hl _]. unfold count_of in Hl. rewrite Hnew in Hl. unfold references in Hl.
  assert (published s <> Some l /\ pointers l (held s) = 0%nat) as [Hp Hpt] by (case_bool_decide; simpl in Hl; [lia|split; [done|lia]]).
  assert (forall l', (forall v, h !! l' <> Some (v, 0%nat)) /\ count_of l' h = (one (bool_decide (l = l')) + references l' s)%nat) as Hh.
  { intros l'. destruct (Hc l') as [Hl' Hz']. unfold h, count_of in *. destruct (decide (l = l')) as [<-|Hne].
    - rewrite lookup_insert_eq, bool_decide_true by done. split; [by intros v' [= ]|]. unfold references. rewrite Hpt, bool_decide_false by done. done.
    - rewrite lookup_insert_ne by done. rewrite bool_decide_false by done. by split. }
  intros l'. cbn [heap]. unfold references at 1. cbn [published held].
  assert (bool_decide (Some l = Some l') = bool_decide (l = l')) as -> by (apply bool_decide_ext; naive_solver).
  destruct (Hh l') as [Hz' Hl']. unfold references in Hl'. destruct (published s) as [old|] eqn:Ep.
  - destruct (count_drop old l' h) as [Hd Hd0]; [apply Hh|]. split; [|by apply Hd0]. rewrite Hd, Hl'.
    assert (bool_decide (Some old = Some l') = bool_decide (old = l')) as -> by (apply bool_decide_ext; naive_solver).
    case_bool_decide as Eo; [subst l'|simpl; lia]. destruct (Hh old) as [_ Ho]. unfold references, count_of in Ho. rewrite Ep in Ho.
    rewrite (bool_decide_true (Some old = Some old)) in Ho by done. destruct (h !! old) eqn:Eh; [|simpl in Ho; lia].
    rewrite (bool_decide_true (is_Some _)) by done. simpl. lia.
  - split; [|done]. rewrite Hl'. simpl. lia.
Qed.

Lemma snapshot_counted_step s o : counted s -> counted (store_apply s o).
Proof. destruct o; [apply snapshot_counted_publish|apply snapshot_counted_acquire|apply snapshot_counted_release]. Qed.

Lemma snapshot_counted_run steps s : counted s -> counted (store_run steps s).
Proof. unfold store_run. revert s. induction steps as [|o steps IH]; intros s Hs; [done|]. apply IH. by apply snapshot_counted_step. Qed.

Lemma snapshot_counted_empty : counted empty_store.
Proof. intros l. split; [done|]. intros v. by cbn. Qed.

(** ** What a holder sees *)

Definition releases (q : positive) (o : store_step) : Prop := match o with Release q' => q' = q | _ => False end.

(** An object another pointer refers to survives, as it was. *)
Lemma drop_keeps l l' h v n :
  h !! l' = Some (v, n) -> (l = l' -> 1 < n)%nat -> exists n', drop_pointer l h !! l' = Some (v, n').
Proof.
  intros Hh Hn. unfold drop_pointer. destruct (h !! l) as [[v' [|[|m]]]|] eqn:E; try (by exists n); destruct (decide (l = l')) as [->|Hne];
    try (rewrite Hh in E; simplify_eq; specialize (Hn eq_refl); lia); rewrite ?lookup_delete_ne, ?lookup_insert_ne by done; eauto.
  rewrite Hh in E. simplify_eq. exists (S m). apply lookup_insert_eq.
Qed.

Lemma step_keeps_seen s o q v :
  counted s -> ~ releases q o -> seen_snapshot q s = Some v -> seen_snapshot q (store_apply s o) = Some v.
Proof.
  intros Hc Hr. unfold seen_snapshot. destruct (held s !! q) as [l|] eqn:Eq; [|done]. cbn [mbind option_bind].
  destruct (heap s !! l) as [[v' n]|] eqn:Eh; [|done]. cbn [fmap option_fmap option_map fst]. intros [= ->].
  pose proof (held_referenced s q l Eq) as Hp. destruct (Hc l) as [Hn _]. unfold count_of, references in Hn. rewrite Eh in Hn.
  destruct o as [w|q'|q']; cbn [store_apply].
  - unfold publish_snapshot. cbn [held heap]. rewrite Eq. cbn [mbind option_bind]. set (l0 := fresh (dom (heap s))).
    assert (l0 <> l) as Hne by (intros E; apply (is_fresh (dom (heap s))); fold l0; rewrite E; apply elem_of_dom; by eexists).
    destruct (published s) as [old|]; [|rewrite lookup_insert_ne, Eh by done; done].
    destruct (drop_keeps old l (<[l0 := (w, 1%nat)]> (heap s)) v n) as [n' ->]; [by rewrite lookup_insert_ne| |done].
    intros ->. rewrite bool_decide_true in Hn by done. simpl in Hn. lia.
  - unfold acquire_snapshot. destruct (held s !! q') eqn:E'; [rewrite Eq; cbn; by rewrite Eh|]. destruct (published s) as [l'|]; [|rewrite Eq; cbn; by rewrite Eh].
    cbn [held heap]. rewrite lookup_insert_ne, Eq by congruence. cbn [mbind option_bind]. unfold retain.
    destruct (decide (l' = l)) as [->|Hne]; [rewrite Eh, lookup_insert_eq; done|]. destruct (heap s !! l') as [[v' n']|]; [|by rewrite Eh].
    by rewrite lookup_insert_ne, Eh by done.
  - unfold release_snapshot. destruct (held s !! q') as [l'|] eqn:E'; [|rewrite Eq; cbn; by rewrite Eh]. assert (q' <> q) as Hne by (intros ->; by apply Hr).
    cbn [held heap]. rewrite lookup_delete_ne, Eq by done. cbn [mbind option_bind].
    destruct (drop_keeps l' l (heap s) v n) as [n' ->]; [done| |done]. intros ->.
    rewrite (pointers_delete l l q' (held s) E'), (bool_decide_true (l = l)) in Hn by done.
    pose proof (held_referenced {| heap := heap s; published := published s; held := delete q' (held s) |} q l) as H1.
    cbn [held] in H1. rewrite lookup_delete_ne in H1 by done. specialize (H1 Eq). simpl in Hn. lia.
Qed.

Lemma run_keeps_seen steps s q v :
  counted s -> Forall (fun o => ~ releases q o) steps -> seen_snapshot q s = Some v -> seen_snapshot q (store_run steps s) = Some v.
Proof.
  unfold store_run. revert s. induction steps as [|o steps IH]; intros s Hc Hr Hs; [done|]. apply list.Forall_cons in Hr as [Ho Hr].
  apply IH; [by apply snapshot_counted_step|done|by apply step_keeps_seen].
Qed.

(** A query keeps the object it started with: from the moment it copied the
    pointer to its end it sees what was published then, unchanged and not freed,
    however many reloads and other queries come and go; and what is published is
    what the last reload made.  No object outlives its last pointer: those in
    memory are exactly the published one and those some query holds. *)
Theorem snapshot_stable before after q v :
  let s := store_run before empty_store in
  held s !! q = None -> current s = Some v -> Forall (fun o => ~ releases q o) after ->
  seen_snapshot q (store_run after (acquire_snapshot q s)) = Some v /\
  (forall w, current (publish_snapshot w s) = Some w) /\
  forall l, is_Some (heap s !! l) <-> published s = Some l \/ exists q', held s !! q' = Some l.
Proof.
  intros s Hq Hv Hr. assert (counted s) as Hc by apply snapshot_counted_run, snapshot_counted_empty. split; [|split].
  - apply run_keeps_seen; [by apply snapshot_counted_acquire|done|]. unfold current in Hv. destruct (published s) as [l|] eqn:Ep; [|done]. cbn [mbind option_bind] in Hv.
    destruct (heap s !! l) as [[v' n]|] eqn:Eh; [|done]. unfold seen_snapshot, acquire_snapshot. rewrite Hq, Ep. cbn [held heap]. rewrite lookup_insert_eq. cbn [mbind option_bind].
    unfold retain. rewrite Eh, lookup_insert_eq. exact Hv.
  - intros w. unfold current, publish_snapshot. cbn [published heap mbind option_bind]. set (l0 := fresh _). destruct (published s) as [old|] eqn:Ep; [|by rewrite lookup_insert_eq].
    destruct (drop_keeps old l0 (<[l0 := (w, 1%nat)]> (heap s)) w 1) as [n' ->]; [apply lookup_insert_eq| |done]. intros ->.
    destruct (snapshot_counted_there s l0 Hc (published_referenced s l0 Ep)) as (v' & n & E). exfalso. apply (is_fresh (dom (heap s))). apply elem_of_dom. by eexists.
  - intros l. split.
    + intros [[v' n] E]. destruct (Hc l) as [Hn Hz]. unfold count_of, references in Hn. rewrite E in Hn. case_bool_decide as Ep; [by left|right].
      simpl in Hn. assert (0 < pointers l (held s))%nat as Hp by (destruct n; [by destruct (Hz v')|lia]). unfold pointers in Hp.
      destruct (map_choose (filter (fun e : positive * positive => e.2 = l) (held s))) as (q' & l' & Hl'); [intros Ee; rewrite Ee, map_size_empty in Hp; lia|].
      apply map_lookup_filter_Some in Hl' as [Hl' <-]. by exists q'.
    + intros Hp. destruct (snapshot_counted_there s l Hc) as (v' & n & E); [|by eexists]. destruct Hp as [Hp|[q' Hp]]; [by apply published_referenced|].
      pose proof (held_referenced s q' l Hp). unfold references. lia.
Qed.
End Snapshots.

Lemma snapshot_stable_witness :
  seen_snapshot 1 (store_run [Publish 8; Acquire 2; Publish 9; Release 2] (acquire_snapshot 1 (store_run [Publish 7] empty_store))) = Some 7 /\
  heap (store_run [Publish 8; Acquire 2; Publish 9; Release 2; Release 1] (acquire_snapshot 1 (store_run [Publish 7] empty_store))) !! 1%positive = None.
Proof.
  split; [|by vm_compute]. destruct (snapshot_stable [Publish 7] [Publish 8; Acquire 2; Publish 9; Release 2] 1%positive 7) as [H _]; [done|done| |exact H].
  repeat (apply List.Forall_cons; [by cbn; intros ?|]). apply List.Forall_nil.
Defined.
