(* ===== verification/Logs.v ===== *)
(** * Logs: the diagnostic queue and the rotating file

    Models [src/src/native/async-log.h] (a ring buffer of messages between query
    threads and one writer thread) and [bounded-log.h] (the rotating file behind
    it).  The ring is refined to a queue: what the sink receives is what was
    accepted, in order, and its memory is bounded; the file never grows beyond
    its cap whatever the file system does. *)
From S2P Require Import Prelude Numbers.

(** ** The ring *)

Module AsyncLog.
Definition kMaxMessages : nat := 256.
Definition kMaxBytes : Z := 256 * 1024.
Definition kMaxMessageBytes : Z := 65536.

(** [struct State]; [slots] has [kMaxMessages] strings. *)
Record ring := {
  slots : list (list Z); head : nat; tail : nat; count : nat; bytes : Z;
  accepting : bool; dropped : Z
}.

Definition empty_ring : ring :=
  {| slots := replicate kMaxMessages []; head := 0; tail := 0; count := 0; bytes := 0; accepting := true; dropped := 0 |}.

Definition drop (s : ring) : ring :=
  {| slots := slots s; head := head s; tail := tail s; count := count s; bytes := bytes s; accepting := accepting s;
     dropped := u64 (dropped s + 1) |}.

Definition size_of (message : list Z) : Z := Z.of_nat (length message).

(** [write]: whether the message was queued.  [allocates]: the copy of the
    message could be made. *)
Definition write (s : ring) (message : list Z) (allocates : bool) : bool * ring :=
  if negb (accepting s) || (kMaxMessageBytes <? size_of message) then (false, drop s)
  else if negb allocates then (false, drop s)
  else if (count s =? kMaxMessages)%nat || (kMaxBytes - bytes s <? size_of message) then (false, drop s)
  else (true, {| slots := <[tail s := message]> (slots s); head := head s; tail := (tail s + 1) mod kMaxMessages;
                 count := S (count s); bytes := bytes s + size_of message; accepting := accepting s; dropped := dropped s |}).

(** One turn of the writer under the lock: the message it takes, if any; its
    slot is left with the writer's empty string. *)
Definition take_message (s : ring) : option (list Z) * ring :=
  if (count s =? 0)%nat then (None, s)
  else let message := nth (head s) (slots s) [] in
    (Some message, {| slots := <[head s := []]> (slots s); head := (head s + 1) mod kMaxMessages; tail := tail s;
                      count := count s - 1; bytes := bytes s - size_of message; accepting := accepting s; dropped := dropped s |}).

(** What the sink receives for one turn: the count of losses since the last
    report, then the message; and the losses reported so far. *)
Definition report (lost reported : Z) : list (list Z) :=
  if lost =? reported then [] else [str "LOG QUEUE DROPPED " ++ to_string (u64 (lost - reported)) ++ [13; 10]].

Definition writer_turn (s : ring) (reported : Z) : list (list Z) * ring * Z :=
  let '(message, s) := take_message s in
  (report (dropped s) reported ++ match message with Some m => [m] | None => [] end, s, dropped s).

(** ** The queue it implements *)

(** The queued messages, oldest first. *)
Definition queued (s : ring) : list (list Z) :=
  map (fun i => nth ((head s + i) mod kMaxMessages) (slots s) []) (seq 0 (count s)).

Definition total (q : list (list Z)) : Z := foldr (fun m n => size_of m + n) 0 q.

Definition ring_ok (s : ring) : Prop :=
  length (slots s) = kMaxMessages /\ (head s < kMaxMessages)%nat /\ (count s <= kMaxMessages)%nat /\
  tail s = ((head s + count s) mod kMaxMessages)%nat /\ bytes s = total (queued s) /\ bytes s <= kMaxBytes.

Lemma total_app a b : total (a ++ b) = total a + total b.
Proof. induction a as [|m a IH]; simpl; lia. Qed.

Lemma total_nonneg q : 0 <= total q.
Proof. induction q as [|m q IH]; simpl; unfold size_of; lia. Qed.

(** Slots of the ring within one turn are distinct. *)
Lemma ring_index_inj h i j :
  (i < kMaxMessages)%nat -> (j < kMaxMessages)%nat ->
  ((h + i) mod kMaxMessages = (h + j) mod kMaxMessages)%nat -> i = j.
Proof.
  intros Hi Hj H. pose proof (Nat.div_mod_eq (h + i) kMaxMessages). pose proof (Nat.div_mod_eq (h + j) kMaxMessages).
  unfold kMaxMessages in *. lia.
Qed.

Lemma ring_index_lt n : (n mod kMaxMessages < kMaxMessages)%nat.
Proof. apply Nat.mod_upper_bound. done. Qed.

Lemma nth_insert (l : list (list Z)) i j m :
  (i < length l)%nat -> nth j (<[i := m]> l) [] = if decide (i = j) then m else nth j l [].
Proof.
  intros Hi. rewrite !nth_lookup. destruct (decide (i = j)) as [->|Hne].
  - by rewrite list_lookup_insert_eq.
  - by rewrite list_lookup_insert_ne.
Qed.

Lemma empty_ring_ok : ring_ok empty_ring.
Proof. repeat split; simpl; unfold kMaxMessages, kMaxBytes; lia. Qed.

Lemma drop_ok s : ring_ok s -> ring_ok (drop s).
Proof. done. Qed.

(** Queueing appends at the tail; a refusal changes nothing but the count of
    losses. *)
Lemma write_spec s message allocates :
  ring_ok s ->
  ring_ok (write s message allocates).2 /\
  queued (write s message allocates).2 = queued s ++ (if (write s message allocates).1 then [message] else []) /\
  (dropped (write s message allocates).2 = if (write s message allocates).1 then dropped s else u64 (dropped s + 1)).
Proof.
  intros Hok. unfold write. destruct (_ || _) eqn:E1; [simpl; rewrite app_nil_r; done|].
  destruct (negb allocates); [simpl; rewrite app_nil_r; done|].
  destruct ((count s =? _)%nat || _) eqn:E; [simpl; rewrite app_nil_r; done|]. bool_to_prop.
  destruct Hok as (Hl & Hh & Hc & Ht & Hb & Hm). set (s' := {| slots := _ |}).
  assert (queued s' = queued s ++ [message]) as Hq.
  { unfold queued, s'. cbn [count head slots]. rewrite seq_S, map_app. simpl. f_equal.
    - apply map_ext_in. intros i Hi%in_seq. rewrite nth_insert by (rewrite Hl, Ht; apply ring_index_lt).
      destruct (decide _) as [Heq|]; [|done]. rewrite Ht in Heq. apply ring_index_inj in Heq; lia.
    - rewrite nth_insert by (rewrite Hl, Ht; apply ring_index_lt). by rewrite decide_True. }
  cbn [fst snd]. split; [|done]. unfold ring_ok. rewrite Hq. unfold s' at 1 2 3 4 5 6 7.
  cbn [slots head tail count bytes]. rewrite length_insert, total_app. cbn [total foldr].
  split; [done|]. split; [done|]. split; [lia|]. split; [|split; [lia|]; unfold s'; simpl; lia].
  rewrite Ht. rewrite Nat.Div0.add_mod_idemp_l. f_equal. lia.
Qed.

(** The writer takes the oldest message. *)
Lemma take_spec s :
  ring_ok s ->
  ring_ok (take_message s).2 /\ dropped (take_message s).2 = dropped s /\
  queued s = match (take_message s).1 with Some m => m :: queued (take_message s).2 | None => [] end /\
  ((take_message s).1 = None -> queued (take_message s).2 = []).
Proof.
  intros Hok. unfold take_message. destruct (count s =? 0)%nat eqn:E; bool_to_prop.
  { simpl. split; [done|]. split; [done|]. unfold queued. rewrite E. done. }
  destruct Hok as (Hl & Hh & Hc & Ht & Hb & Hm). set (m := nth (head s) (slots s) []). set (s' := {| slots := _ |}).
  assert (queued s = m :: queued s') as Hq.
  { unfold queued, s'. cbn [count head slots]. destruct (count s) as [|n] eqn:Ec; [done|]. cbn [seq map].
    rewrite Nat.add_0_r, (Nat.mod_small (head s)) by done. replace (S n - 1)%nat with n by lia. f_equal.
    rewrite <- seq_shift, map_map. apply map_ext_in. intros i Hi%in_seq.
    rewrite nth_insert by lia. destruct (decide _) as [Heq|].
    - exfalso. rewrite Nat.Div0.add_mod_idemp_l in Heq.
      assert (0%nat = S i); [|lia]. apply (ring_index_inj (head s)); [lia..|]. rewrite Nat.add_0_r, Nat.mod_small by done.
      rewrite Heq at 1. f_equal. lia.
    - rewrite Nat.Div0.add_mod_idemp_l. f_equal. f_equal. lia. }
  cbn [fst snd]. split; [|by rewrite Hq]. rewrite Hq in Hb. simpl in Hb. pose proof (total_nonneg (queued s')).
  unfold ring_ok. unfold s' at 1 2 3 4 5 6 7 9.
  cbn [slots head tail count bytes]. rewrite length_insert. split; [done|]. split; [apply ring_index_lt|].
  split; [lia|]. split; [|unfold size_of in *; lia].
  rewrite Ht, Nat.Div0.add_mod_idemp_l. f_equal. lia.
Qed.

(** ** Any interleaving of writers and the writer thread *)

Inductive op := Write (message : list Z) (allocates : bool) | Turn | Stop.

(** The ring with what happened: the messages accepted, the messages the sink
    received, the number of refusals, and the losses reported. *)
Record history := { state : ring; reported : Z; accepted : list (list Z); delivered : list (list Z); refused : Z }.

Definition begin : history := {| state := empty_ring; reported := 0; accepted := []; delivered := []; refused := 0 |}.

Definition stopped (s : ring) : ring :=
  {| slots := slots s; head := head s; tail := tail s; count := count s; bytes := bytes s; accepting := false; dropped := dropped s |}.

Definition apply_op (h : history) (o : op) : history :=
  match o with
  | Write m allocates =>
      let '(ok, s) := write (state h) m allocates in
      {| state := s; reported := reported h; accepted := accepted h ++ (if ok then [m] else []); delivered := delivered h;
         refused := refused h + (if ok then 0 else 1) |}
  | Turn =>
      let '(message, s) := take_message (state h) in
      {| state := s; reported := dropped s; accepted := accepted h;
         delivered := delivered h ++ match message with Some m => [m] | None => [] end; refused := refused h |}
  | Stop => {| state := stopped (state h); reported := reported h; accepted := accepted h; delivered := delivered h; refused := refused h |}
  end.

Definition log_ok (h : history) : Prop :=
  ring_ok (state h) /\ accepted h = delivered h ++ queued (state h) /\ dropped (state h) = u64 (refused h).

Lemma apply_op_ok h o : log_ok h -> log_ok (apply_op h o).
Proof.
  intros (Hr & Ha & Hd). destruct o as [m allocates| |]; simpl; [| |done].
  - destruct (write_spec (state h) m allocates Hr) as (W1 & W2 & W3).
    destruct (write (state h) m allocates) as [ok s]. simpl in *. split; [done|]. simpl. split.
    + by rewrite W2, Ha, <- app_assoc.
    + rewrite W3, Hd. destruct ok; [by rewrite Z.add_0_r|]. unfold uN. by rewrite Zplus_mod_idemp_l.
  - destruct (take_spec (state h) Hr) as (T1 & T2 & T3 & T4).
    destruct (take_message (state h)) as [message s]. simpl in *. split; [done|]. simpl. split; [|congruence].
    rewrite Ha, T3. destruct message as [m|]; [by rewrite <- app_assoc|]. rewrite T4 by done. by rewrite !app_nil_r.
Qed.

(** Whatever the interleaving of query threads and the writer thread, the
    sink receives exactly the accepted messages, each once and in order, and
    the rest are queued; at most 256 messages and 256 KiB are queued, and every
    refusal is counted. *)
Theorem log_is_bounded_fifo ops :
  let h := foldl apply_op begin ops in
  accepted h = delivered h ++ queued (state h) /\ (length (queued (state h)) <= 256)%nat /\
  total (queued (state h)) <= 262144 /\ dropped (state h) = refused h mod 2 ^ 64.
Proof.
  assert (log_ok (foldl apply_op begin ops)) as ((_ & _ & Hc & _ & Hb & Hm) & Ha & Hd).
  { assert (log_ok begin) as H by (split; [apply empty_ring_ok|done]).
    revert H. generalize begin. induction ops as [|o ops IH]; intros h H; [done|]. simpl. by apply IH, apply_op_ok. }
  split; [done|]. split; [unfold queued; by rewrite length_map, length_seq|]. split; [by rewrite <- Hb|done].
Qed.
End AsyncLog.

(** ** The rotating file *)

Module BoundedLog.
(** The files by index: 0 is the log, 1 to 3 its archives.  [file_] is the open
    handle of the log. *)
Record log := { disk : gmap nat (list Z); limit_ : Z; size_ : Z; file_ : bool }.

(** What the file system answers during one write. *)
Record answers := { creates : bool; sizes : bool; moves : nat -> bool; creates2 : bool; sizes2 : bool; writes : bool; written : Z }.

Definition len (s : log) (i : nat) : Z := Z.of_nat (length (default [] (disk s !! i))).
Definition set_file s d n f := {| disk := d; limit_ := limit_ s; size_ := n; file_ := f |}.

Definition open (s : log) (can_create can_size : bool) : bool * log :=
  if file_ s then (true, s)
  else if negb can_create then (false, s)
  else
    let d := match disk s !! 0%nat with Some _ => disk s | None => <[0%nat := []]> (disk s) end in
    if negb can_size then (false, set_file s d (size_ s) false)
    else (true, set_file s d (Z.of_nat (length (default [] (d !! 0%nat)))) true).

(** One [MoveFileExW] of the rotation; a missing source is no failure. *)
Definition move (s : log) (index : nat) (ok : bool) : option log :=
  match disk s !! (index - 1)%nat with
  | None => Some s
  | Some content =>
      if ok then Some (set_file s (<[index := content]> (delete (index - 1)%nat (disk s))) (size_ s) (file_ s)) else None
  end.

Definition rotate (s : log) (ok : nat -> bool) : option log * log :=
  let s := set_file s (disk s) (size_ s) false in
  match move s 3 (ok 3%nat) with
  | None => (None, s)
  | Some s =>
      match move s 2 (ok 2%nat) with
      | None => (None, s)
      | Some s => match move s 1 (ok 1%nat) with None => (None, s) | Some s => (Some s, s) end
      end
  end.

(** [WriteFile]: up to [n] bytes are appended. *)
Definition append (s : log) (bytes : list Z) (n : nat) : log :=
  set_file s (<[0%nat := default [] (disk s !! 0%nat) ++ take n bytes]> (disk s)) (size_ s + Z.of_nat n) (file_ s).

Definition write (s : log) (bytes : list Z) (a : answers) : bool * log :=
  match open s (creates a) (sizes a) with
  | (false, s) => (false, s)
  | (true, s) =>
      let count := Z.min (Z.of_nat (length bytes)) (Z.min (limit_ s) 65536) in
      let finish s :=
        let n := Z.to_nat (Z.max 0 (Z.min (written a) count)) in
        (writes a && (Z.of_nat n =? count), append s bytes n) in
      if limit_ s - count <? size_ s then
        match rotate s (moves a) with
        | (None, s) => (false, s)
        | (Some s, _) =>
            match open s (creates2 a) (sizes2 a) with
            | (false, s) => (false, s)
            | (true, s) => finish s
            end
        end
      else finish s
  end.

(** Every file is within the cap, and the size kept is the log's. *)
Definition within (s : log) : Prop :=
  0 <= limit_ s /\ (forall i, len s i <= limit_ s) /\ (file_ s = true -> size_ s = len s 0).

Lemma open_within s c z : within s -> within (open s c z).2 /\ limit_ (open s c z).2 = limit_ s /\
  ((open s c z).1 = true -> file_ (open s c z).2 = true).
Proof.
  intros Hw. pose proof Hw as (H0 & Hl & _). unfold open. destruct (file_ s) eqn:Ef; [by simpl|].
  destruct c; simpl; [|done].
  assert (forall i, Z.of_nat (length (default [] ((match disk s !! 0%nat with Some _ => disk s | None => <[0%nat := []]> (disk s) end) !! i))) <= limit_ s) as Hd.
  { intros i. destruct (disk s !! 0%nat) eqn:E; [apply Hl|]. destruct (decide (i = 0%nat)) as [->|].
    - rewrite lookup_insert_eq. simpl. lia.
    - rewrite lookup_insert_ne by done. apply Hl. }
  destruct z; simpl; by repeat split.
Qed.

Lemma move_within s i ok s' : within s -> file_ s = false -> move s i ok = Some s' ->
  within s' /\ file_ s' = false /\ limit_ s' = limit_ s /\ (i = 1%nat -> disk s' !! 0%nat = None).
Proof.
  intros (H0 & Hl & Hs) Hf. unfold move. destruct (disk s !! (i - 1)%nat) as [content|] eqn:E.
  - destruct ok; [|done]. intros [= <-]. split; [|split; [done|split; [done|]]].
    + split; [done|]. split; [|by simpl; rewrite Hf]. intros j. unfold len. simpl.
      destruct (decide (j = i)) as [->|]; [rewrite lookup_insert_eq; specialize (Hl (i - 1)%nat); unfold len in Hl; by rewrite E in Hl|].
      rewrite lookup_insert_ne by done. destruct (decide (j = i - 1)%nat) as [->|]; [rewrite lookup_delete_eq; simpl; lia|].
      rewrite lookup_delete_ne by done. apply Hl.
    + intros ->. simpl. rewrite lookup_insert_ne by done. apply lookup_delete_eq.
  - intros [= <-]. split; [done|]. split; [done|]. split; [done|]. by intros ->.
Qed.

Lemma rotate_within s ok : within s ->
  within (rotate s ok).2 /\ limit_ (rotate s ok).2 = limit_ s /\
  (forall s', (rotate s ok).1 = Some s' -> s' = (rotate s ok).2 /\ file_ s' = false /\ disk s' !! 0%nat = None).
Proof.
  intros Hw. unfold rotate. set (s0 := set_file s _ _ _).
  assert (within s0 /\ file_ s0 = false /\ limit_ s0 = limit_ s) as (W0 & F0 & L0) by (destruct Hw as (? & ? & ?); by repeat split).
  destruct (move s0 3 (ok 3%nat)) as [s3|] eqn:E3; [|done]. destruct (move_within _ _ _ _ W0 F0 E3) as (W3 & F3 & L3 & _).
  destruct (move s3 2 (ok 2%nat)) as [s2|] eqn:E2; [|simpl; split; [done|split; [congruence|done]]].
  destruct (move_within _ _ _ _ W3 F3 E2) as (W2 & F2 & L2 & _).
  destruct (move s2 1 (ok 1%nat)) as [s1|] eqn:E1; [|simpl; split; [done|split; [congruence|done]]].
  destruct (move_within _ _ _ _ W2 F2 E1) as (W1 & F1 & L1 & D1). simpl. split; [done|]. split; [congruence|].
  intros s' [= <-]. auto.
Qed.

Lemma append_within s bytes n : within s -> file_ s = true -> size_ s + Z.of_nat n <= limit_ s -> (n <= length bytes)%nat ->
  within (append s bytes n).
Proof.
  intros (H0 & Hl & Hs) Hf Hn Hb. specialize (Hs Hf). unfold append. split; [done|]. split.
  - intros i. unfold len. simpl. destruct (decide (i = 0%nat)) as [->|].
    + rewrite lookup_insert_eq. simpl. rewrite length_app, length_take. unfold len in Hs. lia.
    + rewrite lookup_insert_ne by done. apply Hl.
  - intros _. unfold len. simpl. rewrite lookup_insert_eq. simpl. rewrite length_app, length_take. unfold len in Hs. lia.
Qed.

Lemma write_within s bytes a : within s -> within (write s bytes a).2 /\ limit_ (write s bytes a).2 = limit_ s.
Proof.
  intros Hw. unfold write. destruct (open_within s (creates a) (sizes a) Hw) as (W1 & L1 & F1).
  destruct (open s (creates a) (sizes a)) as [[] s1]; [|done]. simpl in *. specialize (F1 eq_refl).
  set (count := Z.min _ _). assert (0 <= count <= limit_ s1 /\ count <= Z.of_nat (length bytes)) as [Hc Hb].
  { destruct W1 as (? & _). unfold count. lia. }
  destruct (_ <? _) eqn:E; bool_to_prop.
  - destruct (rotate_within s1 (moves a) W1) as (W2 & L2 & D2). destruct (rotate s1 (moves a)) as [[s2|] s2']; simpl in *; [|split; [done|congruence]].
    destruct (D2 s2 eq_refl) as (-> & F2 & N2). destruct (open_within s2' (creates2 a) (sizes2 a) W2) as (W3 & L3 & F3).
    destruct (open s2' (creates2 a) (sizes2 a)) as [[] s3] eqn:E3; simpl in *; [|split; [done|congruence]]. split; [|congruence].
    apply append_within; [done|by apply F3| |lia].
    assert (size_ s3 = 0) as ->; [|rewrite L3, L2; lia]. revert E3. unfold open. rewrite F2, N2.
    destruct (creates2 a), (sizes2 a); simpl; intros E3; simplify_eq/=. by rewrite lookup_insert_eq.
  - simpl. split; [|done]. apply append_within; [done|done|lia|lia].
Qed.

(** However many messages are written, of any size, and whatever the file
    system refuses or writes only in part, the log and its three archives stay
    within the cap. *)
Theorem log_files_bounded s messages i :
  within s -> let s' := foldl (fun s m => (write s m.1 m.2).2) s messages in len s' i <= limit_ s.
Proof.
  intros Hw. simpl. assert (within (foldl (fun s m => (write s m.1 m.2).2) s messages) /\
    limit_ (foldl (fun s m => (write s m.1 m.2).2) s messages) = limit_ s) as [(_ & H & _) <-]; [|done].
  revert s Hw. induction messages as [|[m a] messages IH]; intros s Hw; [done|]. simpl.
  destruct (write_within s m a Hw) as [W L]. destruct (IH _ W) as [W' L']. split; [done|congruence].
Qed.
End BoundedLog.

(** A cap of four bytes, a rotation and a partial write. *)
Definition demo_log : BoundedLog.log :=
  {| BoundedLog.disk := {[ 0%nat := [1; 2; 3] ]}; BoundedLog.limit_ := 4; BoundedLog.size_ := 0; BoundedLog.file_ := false |}.
Definition demo_answers : BoundedLog.answers :=
  {| BoundedLog.creates := true; BoundedLog.sizes := true; BoundedLog.moves _ := true; BoundedLog.creates2 := true;
     BoundedLog.sizes2 := true; BoundedLog.writes := true; BoundedLog.written := 2 |}.

Example demo_rotated :
  BoundedLog.disk (BoundedLog.write demo_log [7; 8; 9] demo_answers).2 = {[ 0%nat := [7; 8]; 1%nat := [1; 2; 3] ]}.
Proof. by vm_compute. Qed.

Lemma log_files_bounded_witness :
  BoundedLog.len (foldl (fun s m => (BoundedLog.write s m.1 m.2).2) demo_log [([7; 8; 9], demo_answers)]) 1 <= 4.
Proof.
  apply (BoundedLog.log_files_bounded demo_log). split; [done|]. split; [|done].
  intros [|i]; unfold BoundedLog.len, demo_log; cbn [BoundedLog.disk BoundedLog.limit_];
    [by rewrite lookup_singleton_eq|by rewrite lookup_singleton_ne].
Defined.
