(* ===== verification/DispatcherLog.v ===== *)
(** * DispatcherLog: the dispatcher's log, from its writers to its files

    Models [setLogFile] of [src/src/native/dns-dispatcher.cpp]: an asynchronous
    queue ([Logs], [AsyncLog]) whose writer thread hands each line to a rotating
    file ([Logs], [BoundedLog]).  Query threads write, the writer takes its turns and
    the log is stopped, in any order; the disk answers as it likes. *)
From S2P Require Import Prelude Numbers Logs.

(** [size_t limit = 8 * 1024 * 1024]. *)
Definition kLogLimit : Z := 8 * 1024 * 1024.

(** What the queue did so far, what its sink was given (a message of a writer, or
    a report of losses), and the file. *)
Record log_state := { queue : AsyncLog.history; handed : list (bool * list Z); file : BoundedLog.log }.

(** [setLogFile], over the files that are there. *)
Definition setLogFile (disk : gmap nat (list Z)) : log_state :=
  {| queue := AsyncLog.begin; handed := []; file := {| BoundedLog.disk := disk; BoundedLog.limit_ := kLogLimit; BoundedLog.size_ := 0; BoundedLog.file_ := false |} |}.

(** [disk1] and [disk2] are what the disk answers to the writes of a turn. *)
Inductive log_step := LogWrite (message : list Z) (allocates : bool) | WriterTurn (disk1 disk2 : BoundedLog.answers) | LogStop.

(** What the sink receives in the writer's turn: first a report of losses, if there
    are new ones, then the oldest message. *)
Definition turn_lines (h : AsyncLog.history) : list (bool * list Z) :=
  let '(message, s) := AsyncLog.take_message (AsyncLog.state h) in
  map (fun line => (false, line)) (AsyncLog.report (AsyncLog.dropped s) (AsyncLog.reported h)) ++
  match message with Some m => [(true, m)] | None => [] end.

(** [\[file\](std::string_view bytes) { file->write(bytes); }]: its result is not
    used. *)
Fixpoint sink (lines : list (bool * list Z)) (answers : list BoundedLog.answers) (f : BoundedLog.log) : BoundedLog.log :=
  match lines, answers with
  | (_, line) :: lines, a :: answers => sink lines answers (BoundedLog.write f line a).2
  | _, _ => f
  end.

Definition log_apply (s : log_state) (o : log_step) : log_state :=
  match o with
  | LogWrite m allocates => {| queue := AsyncLog.apply_op (queue s) (AsyncLog.Write m allocates); handed := handed s; file := file s |}
  | LogStop => {| queue := AsyncLog.apply_op (queue s) AsyncLog.Stop; handed := handed s; file := file s |}
  | WriterTurn a1 a2 =>
      let lines := turn_lines (queue s) in
      {| queue := AsyncLog.apply_op (queue s) AsyncLog.Turn; handed := handed s ++ lines; file := sink lines [a1; a2] (file s) |}
  end.

Definition log_run (disk : gmap nat (list Z)) (steps : list log_step) : log_state := foldl log_apply (setLogFile disk) steps.

(** The turn is the writer's of [AsyncLog], and at most two lines long. *)
Lemma turn_lines_sink h : map snd (turn_lines h) = (AsyncLog.writer_turn (AsyncLog.state h) (AsyncLog.reported h)).1.1.
Proof.
  unfold turn_lines, AsyncLog.writer_turn. destruct (AsyncLog.take_message _) as [[m|] s]; cbn [fst]; rewrite map_app, map_map, map_id; done.
Qed.

Lemma turn_lines_length h : (length (turn_lines h) <= 2)%nat.
Proof.
  unfold turn_lines, AsyncLog.report. destruct (AsyncLog.take_message _) as [[m|] s]; destruct (_ =? _); simpl; lia.
Qed.

(** ** The files *)

(** The text of the files, oldest first. *)
Definition text_of (f : BoundedLog.log) : list Z :=
  default [] (BoundedLog.disk f !! 3%nat) ++ default [] (BoundedLog.disk f !! 2%nat) ++
  default [] (BoundedLog.disk f !! 1%nat) ++ default [] (BoundedLog.disk f !! 0%nat).

(** The disk does what it is asked. *)
Definition working (a : BoundedLog.answers) : Prop :=
  BoundedLog.creates a = true /\ BoundedLog.sizes a = true /\ (forall i, BoundedLog.moves a i = true) /\
  BoundedLog.creates2 a = true /\ BoundedLog.sizes2 a = true /\ BoundedLog.writes a = true /\ 65536 <= BoundedLog.written a.

Import BoundedLog.

Lemma open_working f : exists f', open f true true = (true, f') /\ text_of f' = text_of f /\ file_ f' = true /\
  (disk f !! 0%nat = None -> file_ f = false -> size_ f' = 0 /\ default [] (disk f' !! 0%nat) = []).
Proof.
  unfold open. destruct (file_ f) eqn:Ef; [exists f; by split_and!|]. cbn [negb]. eexists. split; [done|]. split; [|split; [done|]].
  - destruct (disk f !! 0%nat) eqn:E; unfold text_of; cbn [set_file disk]; [done|]. rewrite lookup_insert_eq, E.
    by rewrite !lookup_insert_ne by done.
  - intros -> _. cbn [set_file size_ disk]. rewrite lookup_insert_eq. by split.
Qed.

(** A rotation moves every file on and drops the oldest. *)
Lemma rotate_working f : exists f', rotate f (fun _ => true) = (Some f', f') /\ file_ f' = false /\ limit_ f' = limit_ f /\
  disk f' !! 0%nat = None /\ exists lost, text_of f = lost ++ text_of f'.
Proof.
  unfold rotate. set (s0 := set_file f (disk f) (size_ f) false).
  assert (forall s i, exists s', move s i true = Some s' /\ file_ s' = file_ s /\ limit_ s' = limit_ s /\
    disk s' = match disk s !! (i - 1)%nat with Some c => <[i := c]> (delete (i - 1)%nat (disk s)) | None => disk s end) as Hm.
  { intros s i. unfold move. destruct (disk s !! (i - 1)%nat); eexists; by split_and!. }
  destruct (Hm s0 3%nat) as (s3 & -> & F3 & L3 & D3), (Hm s3 2%nat) as (s2 & -> & F2 & L2 & D2), (Hm s2 1%nat) as (s1 & -> & F1 & L1 & D1).
  exists s1. split; [done|]. split; [by rewrite F1, F2, F3|]. split; [by rewrite L1, L2, L3|]. cbn [Nat.sub] in *.
  change (disk s0) with (disk f) in D3. unfold text_of. clear -D1 D2 D3.
  destruct (disk f !! 2%nat) as [c2|] eqn:E2; destruct (disk f !! 1%nat) as [c1|] eqn:E1; destruct (disk f !! 0%nat) as [c0|] eqn:E0;
    rewrite D3 in D2; simplify_map_eq; rewrite D2 in D1; simplify_map_eq; rewrite D1; simplify_map_eq; (split; [done|]);
    rewrite ?app_nil_r; solve [by exists [] | by exists (default [] (disk f !! 3%nat))].
Qed.

(** A line is added at the end; only the oldest text is given up for it. *)
Lemma write_working f bytes a :
  within f -> working a -> 65536 <= limit_ f -> Z.of_nat (length bytes) <= 65536 ->
  exists lost, text_of f ++ bytes = lost ++ text_of (write f bytes a).2.
Proof.
  intros Hw (A1 & A2 & A3 & A4 & A5 & A6 & A7) Hl Hb. unfold write. rewrite A1, A2.
  destruct (open_working f) as (f1 & Ho & T1 & F1 & _). pose proof (open_within f true true Hw) as (W1 & L1 & _). rewrite Ho in *. cbn [snd] in *.
  rewrite L1. replace (Z.min (Z.of_nat (length bytes)) (Z.min (limit_ f) 65536)) with (Z.of_nat (length bytes)) by lia.
  replace (Z.to_nat (Z.max 0 (Z.min (written a) (Z.of_nat (length bytes))))) with (length bytes) by lia. cbv zeta.
  assert (forall s, text_of (append s bytes (length bytes)) = text_of s ++ bytes) as Happ.
  { intros s. unfold text_of, append. cbn [set_file disk]. rewrite lookup_insert_eq, !lookup_insert_ne by done. rewrite take_ge by done.
    cbn [default]. by rewrite <- !app_assoc. }
  destruct (_ <? _).
  - destruct (rotate_working f1) as (f2 & Hr & F2 & L2 & D2 & lost & Hlost).
    assert (rotate f1 (moves a) = (Some f2, f2)) as ->.
    { rewrite <- Hr. unfold rotate. by rewrite !A3. }
    rewrite A4, A5. destruct (open_working f2) as (f3 & -> & T3 & _ & _). cbn [snd]. exists lost.
    rewrite Happ, T3, <- T1, Hlost. by rewrite <- app_assoc.
  - exists []. cbn [snd]. by rewrite Happ, T1.
Qed.

Lemma sink_kept lines answers f :
  within f -> Forall working answers -> 65536 <= limit_ f -> Forall (fun l => Z.of_nat (length l.2) <= 65536) lines -> (length lines <= length answers)%nat ->
  exists lost, text_of f ++ concat (map snd lines) = lost ++ text_of (sink lines answers f).
Proof.
  revert answers f. induction lines as [|[b line] lines IH]; intros [|a answers] f Hw Ha Hl Hb Hn; simpl in Hn; try lia;
    cbn [sink map concat]; try (exists []; by rewrite app_nil_r).
  apply list.Forall_cons in Ha as [Ha Has]. apply list.Forall_cons in Hb as [Hb Hbs]. cbn [snd] in *.
  destruct (write_working f line a Hw Ha Hl Hb) as [lost Hlost]. destruct (write_within f line a Hw) as [Hw' Hl'].
  destruct (IH answers (write f line a).2) as [lost' Hlost']; [done|done|congruence|done|lia|].
  exists (lost ++ lost'). rewrite app_assoc, Hlost, <- !app_assoc. by rewrite Hlost'.
Qed.

Lemma sink_within lines answers f : within f -> within (sink lines answers f) /\ limit_ (sink lines answers f) = limit_ f.
Proof.
  revert answers f. induction lines as [|[b line] lines IH]; intros [|a answers] f Hw; cbn [sink]; try done.
  destruct (write_within f line a Hw) as [Hw' Hl']. destruct (IH answers _ Hw') as [H1 H2]. split; [done|congruence].
Qed.

(** ** The log as a whole *)

Definition disk_works (o : log_step) : Prop := match o with WriterTurn a1 a2 => working a1 /\ working a2 | _ => True end.

Definition short (line : list Z) : Prop := Z.of_nat (length line) <= 65536.

Record log_sound (s : log_state) : Prop := {
  sound_queue : AsyncLog.log_ok (queue s);
  sound_short : Forall short (AsyncLog.accepted (queue s));
  sound_handed : AsyncLog.delivered (queue s) = map snd (List.filter fst (handed s));
  sound_lines : Forall (fun l => short l.2) (handed s);
  sound_file : within (file s) /\ limit_ (file s) = kLogLimit
}.

Lemma report_short lost reported : Forall short (AsyncLog.report lost reported).
Proof.
  unfold AsyncLog.report. destruct (_ =? _); [constructor|]. constructor; [|constructor]. unfold short. rewrite !length_app.
  pose proof (to_string_length (u64 (lost - reported))). change (length (str "LOG QUEUE DROPPED ")) with 18%nat. simpl. lia.
Qed.

Lemma accepted_short s m allocates : (AsyncLog.write s m allocates).1 = true -> short m.
Proof.
  unfold AsyncLog.write, short, AsyncLog.size_of, AsyncLog.kMaxMessageBytes. destruct (negb _ || (65536 <? _)) eqn:E; [done|]. intros _. bool_to_prop. lia.
Qed.

Lemma turn_sound s a1 a2 : log_sound s -> log_sound (log_apply s (WriterTurn a1 a2)).
Proof.
  intros [Hq Hs Hh Hl [Hw Hlim]]. pose proof (AsyncLog.apply_op_ok _ AsyncLog.Turn Hq) as Hq'. cbn [log_apply].
  assert (AsyncLog.delivered (AsyncLog.apply_op (queue s) AsyncLog.Turn) = AsyncLog.delivered (queue s) ++ map snd (List.filter fst (turn_lines (queue s))) /\
          AsyncLog.accepted (AsyncLog.apply_op (queue s) AsyncLog.Turn) = AsyncLog.accepted (queue s) /\
          Forall (fun l => short l.2) (turn_lines (queue s))) as (Hd & Ha & Hf).
  { destruct Hq as (Hr & Hacc & _). destruct (AsyncLog.take_spec _ Hr) as (_ & _ & T & _). unfold turn_lines. cbn [AsyncLog.apply_op].
    destruct (AsyncLog.take_message (AsyncLog.state (queue s))) as [message s'] eqn:E. cbn [AsyncLog.delivered AsyncLog.accepted fst] in *.
    rewrite List.filter_app. assert (forall l : list (list Z), List.filter fst (map (fun line => (false, line)) l) = []) as -> by (intros l; by induction l).
    split; [by destruct message|]. split; [done|]. apply list.Forall_app. split.
    - apply Forall_map. eapply list.Forall_impl; [apply report_short|]. intros x Hx. exact Hx.
    - destruct message as [m|]; [|constructor]. constructor; [|constructor]. cbn [snd]. rewrite Hacc, T in Hs.
      apply list.Forall_app in Hs as [_ Hs]. by apply list.Forall_cons in Hs as [Hs _]. }
  split; cbn [queue handed file]; [done|by rewrite Ha| | |].
  - by rewrite Hd, Hh, List.filter_app, map_app.
  - by apply list.Forall_app.
  - destruct (sink_within (turn_lines (queue s)) [a1; a2] (file s) Hw) as [H1 H2]. split; [done|congruence].
Qed.

Lemma log_apply_sound s o : log_sound s -> log_sound (log_apply s o).
Proof.
  intros Hok. destruct o as [m allocates|a1 a2|]; [|by apply turn_sound|].
  - destruct Hok as [Hq Hs Hh Hl Hf]. split; cbn [log_apply queue handed file]; [by apply AsyncLog.apply_op_ok| | |done|done].
    + cbn [AsyncLog.apply_op]. destruct (AsyncLog.write _ m allocates) as [ok r] eqn:E. cbn [AsyncLog.accepted]. apply list.Forall_app. split; [done|].
      destruct ok; [|constructor]. constructor; [|constructor]. apply (accepted_short (AsyncLog.state (queue s)) m allocates). by rewrite E.
    + cbn [AsyncLog.apply_op]. destruct (AsyncLog.write _ m allocates). exact Hh.
  - destruct Hok as [Hq Hs Hh Hl Hf]. split; cbn [log_apply queue handed file]; try done; by apply AsyncLog.apply_op_ok.
Qed.

Lemma log_run_sound disk steps :
  (forall i, Z.of_nat (length (default [] (disk !! i))) <= kLogLimit) -> log_sound (log_run disk steps).
Proof.
  intros Hd. assert (log_sound (setLogFile disk)) as H.
  { split; [split; [apply AsyncLog.empty_ring_ok|done]|constructor|done|constructor|]. split; [|done]. split; [done|]. split; [exact Hd|done]. }
  revert H. unfold log_run. generalize (setLogFile disk). induction steps as [|o steps IH]; intros s Hs; [done|]. apply IH. by apply log_apply_sound.
Qed.

Lemma log_run_kept s steps :
  log_sound s -> Forall disk_works steps ->
  exists lost new, handed (foldl log_apply s steps) = handed s ++ new /\
    text_of (file s) ++ concat (map snd new) = lost ++ text_of (file (foldl log_apply s steps)).
Proof.
  revert s. induction steps as [|o steps IH]; intros s Hs Hw.
  { exists [], []. by rewrite !app_nil_r. }
  apply list.Forall_cons in Hw as [Ho Hw]. cbn [foldl]. destruct (IH (log_apply s o) (log_apply_sound _ o Hs) Hw) as (lost & new & Hh & Ht).
  destruct o as [m allocates|a1 a2|]; try (exists lost, new; by split). destruct Ho as [W1 W2].
  destruct (turn_sound s a1 a2 Hs) as [_ _ _ Hl _]. cbn [log_apply handed] in Hl. apply list.Forall_app in Hl as [_ Hl].
  destruct Hs as [_ _ _ _ [Hwi Hlim]]. destruct (sink_kept (turn_lines (queue s)) [a1; a2] (file s)) as [lost1 H1];
    [done|constructor; [done|constructor; [done|constructor]]|rewrite Hlim; unfold kLogLimit; lia|exact Hl|apply turn_lines_length|].
  exists (lost1 ++ lost), (turn_lines (queue s) ++ new). cbn [log_apply handed file] in *. rewrite Hh. split; [by rewrite <- app_assoc|].
  rewrite map_app, concat_app, app_assoc, H1, <- !app_assoc. by rewrite Ht.
Qed.

(** C31: nothing that was accepted for the log is reordered, repeated or altered
    on its way to the disk, and neither memory nor disk fills up.  However query
    threads, the writer thread and the stop interleave, the accepted messages are
    those the file was given, in their order, with only loss reports between them,
    followed by the at most 256 (and 256 KiB) still queued, and every refusal is
    counted; whatever the disk refuses or writes only in part, the log and its
    archives stay within 8 MiB each; and while the disk works, what the files
    hold, oldest first, is the end of what they held and were given. *)
Theorem log_kept_in_order disk steps :
  (forall i, Z.of_nat (length (default [] (disk !! i))) <= kLogLimit) ->
  let s := log_run disk steps in
  AsyncLog.accepted (queue s) = map snd (List.filter fst (handed s)) ++ AsyncLog.queued (AsyncLog.state (queue s)) /\
  (length (AsyncLog.queued (AsyncLog.state (queue s))) <= 256)%nat /\ AsyncLog.total (AsyncLog.queued (AsyncLog.state (queue s))) <= 262144 /\
  AsyncLog.dropped (AsyncLog.state (queue s)) = AsyncLog.refused (queue s) mod 2 ^ 64 /\
  (forall i, len (file s) i <= kLogLimit) /\
  (Forall disk_works steps -> exists lost, text_of (file (setLogFile disk)) ++ concat (map snd (handed s)) = lost ++ text_of (file s)).
Proof.
  intros Hd s. destruct (log_run_sound disk steps Hd) as [Hq Hs Hh Hl [Hw Hlim]]. fold s in Hq, Hs, Hh, Hl, Hw, Hlim.
  destruct Hq as ((_ & _ & Hc & _ & Hb & Hm) & Ha & Hdr). split; [by rewrite <- Hh|]. split; [unfold AsyncLog.queued; by rewrite length_map, length_seq|].
  split; [by rewrite <- Hb|]. split; [done|]. split; [intros i; rewrite <- Hlim; apply Hw|]. intros Hworks.
  destruct (log_run_kept (setLogFile disk) steps (log_run_sound disk [] Hd) Hworks) as (lost & new & Hn & Ht).
  exists lost. change (foldl log_apply (setLogFile disk) steps) with s in *. rewrite Hn. exact Ht.
Qed.

(** Two messages, the second while the first is handed on, over a log that is
    nearly full. *)
Definition fine : answers := {| creates := true; sizes := true; moves _ := true; creates2 := true; sizes2 := true; writes := true; written := 65536 |}.
Definition demo_steps : list log_step := [LogWrite (str "one" ++ [10]) true; WriterTurn fine fine; LogWrite (str "two" ++ [10]) true; LogStop; LogWrite (str "three") true; WriterTurn fine fine].

Lemma log_kept_in_order_witness :
  let s := log_run ∅ demo_steps in
  text_of (file s) = str "one" ++ [10] ++ str "LOG QUEUE DROPPED 1" ++ [13; 10] ++ str "two" ++ [10] /\
  AsyncLog.accepted (queue s) = map snd (List.filter fst (handed s)) ++ AsyncLog.queued (AsyncLog.state (queue s)) /\
  (forall i, len (file s) i <= kLogLimit) /\
  exists lost, text_of (file (setLogFile ∅)) ++ concat (map snd (handed s)) = lost ++ text_of (file s).
Proof.
  intros s. split; [by vm_compute|].
  destruct (log_kept_in_order ∅ demo_steps) as (H1 & _ & _ & _ & H5 & H6); [intros i; rewrite lookup_empty; by vm_compute|].
  split; [exact H1|]. split; [exact H5|]. apply H6. repeat constructor; try done; by intros.
Defined.
