(* ===== verification/LogWriter.v ===== *)
(** * LogWriter: the writer thread of the diagnostic queue and its wake-ups

    Models the threads of [src/src/native/async-log.h] at the grain of their atomic
    operations: writers between the copy of their message, the queue's lock and
    [SetEvent]; the destructor; and the writer thread [run], which waits for the
    event, takes messages and hands them to the sink without the lock.  [Logs] has
    the queue itself.  What is shown is that no wake-up is lost, and that left alone
    the writer drains the queue. *)
From S2P Require Import Prelude Numbers Logs.
Import AsyncLog.

(** ** The threads *)

(** A client of the log: outside of it; in [write], before and after the copy;
    before the [SetEvent] of [write], of [drop] or of the destructor. *)
Inductive client_point :=
| Outside | Entering (message : list Z) | Copied (message : list Z) | Halting | Signalling (result : option bool).

(** The writer thread in [run]: at the wait; at the head of the inner loop; with
    what it took, before it loads the losses; before the report; before the
    message; returned. *)
Inductive writer_point :=
| Waiting | Turning | Taken (message : option (list Z)) | Reporting (message : option (list Z)) (lost : Z)
| Handing (message : option (list Z)) | Returned.

(** [accepted] and [delivered] are the messages [write] accepted and the sink got. *)
Record threads := {
  shared : ring; ready : bool; stopping : bool; reported : Z; at_ : writer_point; clients : list client_point;
  accepted : list (list Z); delivered : list (list Z)
}.

Definition log_threads (n : nat) : threads :=
  {| shared := empty_ring; ready := false; stopping := false; reported := 0; at_ := Waiting; clients := replicate n Outside;
     accepted := []; delivered := [] |}.

Definition set_client (t : threads) (i : nat) (p : client_point) (s : ring) : threads :=
  {| shared := s; ready := ready t; stopping := stopping t; reported := reported t; at_ := at_ t; clients := <[i := p]> (clients t);
     accepted := accepted t; delivered := delivered t |}.
Definition set_writer (t : threads) (p : writer_point) (s : ring) : threads :=
  {| shared := s; ready := ready t; stopping := stopping t; reported := reported t; at_ := p; clients := clients t;
     accepted := accepted t; delivered := delivered t |}.

(** Under the lock: the checks, and the message in its slot. *)
Definition enqueue (t : threads) (i : nat) (message : list Z) : threads :=
  let '(ok, s) := write (shared t) message true in
  {| shared := s; ready := ready t; stopping := stopping t; reported := reported t; at_ := at_ t;
     clients := <[i := Signalling (Some ok)]> (clients t);
     accepted := accepted t ++ (if ok then [message] else []); delivered := delivered t |}.

(** What the outside decides: who calls what, whether an allocation succeeds, whether
    [stopAt] is past, whether the sink throws. *)
Inductive thread_step :=
| CallWrite (i : nat) (message : list Z) | CallStop (i : nat) | Client (i : nat) (allocates : bool) | Writer (late throws : bool).

(** The client's next atomic operation.  The destructor's stores are one: only
    clients read [accepting], only the writer [stopping] and [stopAt]. *)
Definition client_step (t : threads) (i : nat) (allocates : bool) : threads :=
  match clients t !! i with
  | Some (Entering m) =>
      if negb (accepting (shared t)) || (kMaxMessageBytes <? size_of m) || negb allocates
      then set_client t i (Signalling (Some false)) (drop (shared t))
      else set_client t i (Copied m) (shared t)
  | Some (Copied m) => enqueue t i m
  | Some Halting =>
      {| shared := stopped (shared t); ready := ready t; stopping := true; reported := reported t; at_ := at_ t;
         clients := <[i := Signalling None]> (clients t); accepted := accepted t; delivered := delivered t |}
  | Some (Signalling _) =>
      {| shared := shared t; ready := true; stopping := stopping t; reported := reported t; at_ := at_ t;
         clients := <[i := Outside]> (clients t); accepted := accepted t; delivered := delivered t |}
  | _ => t
  end.

(** [catch (...) { state->accepting = false; }] *)
Definition thrown (t : threads) : threads := set_writer t Returned (stopped (shared t)).

(** The writer's next operation; at the wait it is blocked until the event is set.
    The event resets itself. *)
Definition writer_step (t : threads) (late throws : bool) : threads :=
  match at_ t with
  | Waiting =>
      if ready t
      then {| shared := shared t; ready := false; stopping := stopping t; reported := reported t; at_ := Turning; clients := clients t;
              accepted := accepted t; delivered := delivered t |}
      else t
  | Turning =>
      if stopping t && late then set_writer t Returned (shared t)
      else let '(m, s) := take_message (shared t) in set_writer t (Taken m) s
  | Taken m =>
      let lost := dropped (shared t) in
      set_writer t (if lost =? reported t then Handing m else Reporting m lost) (shared t)
  | Reporting m lost =>
      if throws then thrown t
      else {| shared := shared t; ready := ready t; stopping := stopping t; reported := lost; at_ := Handing m; clients := clients t;
              accepted := accepted t; delivered := delivered t |}
  | Handing None => set_writer t (if stopping t then Returned else Waiting) (shared t)
  | Handing (Some m) =>
      if throws then thrown t
      else {| shared := shared t; ready := ready t; stopping := stopping t; reported := reported t; at_ := Turning; clients := clients t;
              accepted := accepted t; delivered := delivered t ++ [m] |}
  | Returned => t
  end.

Definition thread_apply (t : threads) (o : thread_step) : threads :=
  match o with
  | CallWrite i m => match clients t !! i with Some Outside => set_client t i (Entering m) (shared t) | _ => t end
  | CallStop i => match clients t !! i with Some Outside => set_client t i Halting (shared t) | _ => t end
  | Client i allocates => client_step t i allocates
  | Writer late throws => writer_step t late throws
  end.

Definition threads_run (steps : list thread_step) (t : threads) : threads := foldl thread_apply t steps.

(** ** No wake-up is lost *)

(** The event is set, or somebody is about to set it. *)
Definition woken (t : threads) : Prop := ready t = true \/ exists i r, clients t !! i = Some (Signalling r).

(** Whenever the writer is on its way to the wait, there is nothing left that it has
    not seen, or it will be woken. *)
Definition wake_ok (t : threads) : Prop :=
  match at_ t with
  | Waiting => woken t \/ count (shared t) = 0%nat /\ dropped (shared t) = reported t /\ stopping t = false
  | Taken None => woken t \/ count (shared t) = 0%nat
  | Reporting None lost => woken t \/ count (shared t) = 0%nat /\ dropped (shared t) = lost
  | Handing None => woken t \/ count (shared t) = 0%nat /\ dropped (shared t) = reported t
  | _ => True
  end.

(** What the writer took and the sink does not have yet. *)
Definition in_hand (t : threads) : list (list Z) :=
  match at_ t with Taken (Some m) | Reporting (Some m) _ | Handing (Some m) => [m] | _ => [] end.

(** The sink has the accepted messages in order; a sink that throws has swallowed
    at most one. *)
Definition fifo_ok (t : threads) : Prop :=
  exists lost, (at_ t <> Returned -> lost = in_hand t) /\ (length lost <= 1)%nat /\ accepted t = delivered t ++ lost ++ queued (shared t).

Definition threads_ok (t : threads) : Prop := ring_ok (shared t) /\ wake_ok t /\ fifo_ok t.

Lemma woken_client t i p s : woken t -> (forall r, clients t !! i <> Some (Signalling r)) -> woken (set_client t i p s).
Proof.
  intros [Hr|(j & r & Hj)] Hi; [by left|]. right. exists j, r. cbn [set_client clients]. rewrite list_lookup_insert_ne; [done|].
  intros ->. by apply (Hi r).
Qed.

Lemma wake_set_client t i p s :
  wake_ok t -> (forall r, clients t !! i <> Some (Signalling r)) -> count s = count (shared t) -> dropped s = dropped (shared t) ->
  wake_ok (set_client t i p s).
Proof.
  intros Hw Hi Hc Hd. pose proof (fun H => woken_client t i p s H Hi) as Hk. unfold wake_ok in *. cbn [set_client at_ shared stopping reported] in *.
  rewrite Hc, Hd. destruct (at_ t) as [| |[]|[] ?|[]|]; try done; intuition.
Qed.

Lemma wake_woken t : woken t -> wake_ok t.
Proof. intros H. unfold wake_ok. destruct (at_ t) as [| |[]|[] ?|[]|]; auto. Qed.

Lemma signals t i r : (i < length (clients t))%nat -> clients t = <[i := Signalling r]> (clients t) -> woken t.
Proof. intros Hi E. right. exists i, r. rewrite E. by apply list_lookup_insert_eq. Qed.

Lemma fifo_same t t' : at_ t' = at_ t -> accepted t' = accepted t -> delivered t' = delivered t -> queued (shared t') = queued (shared t) ->
  fifo_ok t -> fifo_ok t'.
Proof. unfold fifo_ok, in_hand. intros -> -> -> ->. done. Qed.

Lemma enqueue_ok t i m : (i < length (clients t))%nat -> threads_ok t -> threads_ok (enqueue t i m).
Proof.
  intros Hi (Hr & _ & lost & Hl & Hn & Ha). unfold enqueue. destruct (write_spec (shared t) m true Hr) as (W1 & W2 & _).
  destruct (write (shared t) m true) as [ok s]. cbn [fst snd] in *. split; [done|]. split.
  - apply wake_woken. right. exists i, (Some ok). by apply list_lookup_insert_eq.
  - exists lost. split; [exact Hl|]. split; [done|]. cbn [accepted delivered shared]. rewrite W2, Ha. by rewrite !app_assoc.
Qed.

Lemma client_ok t i allocates : threads_ok t -> threads_ok (client_step t i allocates).
Proof.
  intros Ht. pose proof Ht as (Hr & Hw & Hf). unfold client_step. destruct (clients t !! i) as [p|] eqn:E; [|done].
  pose proof (lookup_lt_Some _ _ _ E) as Hi. destruct p as [|m|m| |r]; [done|..].
  - destruct (_ || _).
    + split; [done|]. split; [|by apply (fifo_same t)]. apply wake_woken. right. exists i, (Some false). by apply list_lookup_insert_eq.
    + split; [done|]. split; [|by apply (fifo_same t)]. apply wake_set_client; [done|rewrite E; done|done|done].
  - by apply enqueue_ok.
  - split; [done|]. split; [|by apply (fifo_same t)]. apply wake_woken. right. exists i, None. by apply list_lookup_insert_eq.
  - split; [done|]. split; [|by apply (fifo_same t)]. apply wake_woken. by left.
Qed.

Lemma thrown_ok t : threads_ok t -> threads_ok (thrown t).
Proof.
  intros (Hr & _ & lost & _ & Hn & Ha). split; [done|]. split; [done|]. exists lost. split; [|by split]. by intros H; destruct H.
Qed.

(** The writer takes what there is, or finds the queue empty. *)
Lemma take_ok t : at_ t = Turning -> threads_ok t ->
  let '(m, s) := take_message (shared t) in threads_ok (set_writer t (Taken m) s).
Proof.
  intros E (Hr & _ & lost & Hl & Hn & Ha). specialize (Hl ltac:(by rewrite E)). unfold in_hand in Hl. rewrite E in Hl. subst lost.
  destruct (take_spec (shared t) Hr) as (T1 & T2 & T3 & T4). unfold take_message in *. destruct (count (shared t) =? 0)%nat eqn:Ec; cbn [fst snd] in *.
  - split; [done|]. split; [right; by apply Nat.eqb_eq|]. exists []. by split_and!.
  - split; [done|]. split; [done|]. eexists. split; [by intros _|]. split; [simpl; lia|]. cbn [accepted delivered set_writer shared].
    rewrite Ha, T3. done.
Qed.

(** Steps of the writer that only change what it holds in its hands. *)
Lemma writer_moves t t' :
  shared t' = shared t -> accepted t' = accepted t -> delivered t' = delivered t -> at_ t <> Returned ->
  (at_ t' <> Returned -> in_hand t' = in_hand t) -> wake_ok t' -> threads_ok t -> threads_ok t'.
Proof.
  intros Hs Ha Hd Hn Hh Hw (Hr & _ & lost & Hl & Hc & Hf). specialize (Hl Hn). split; [by rewrite Hs|]. split; [done|].
  exists lost. rewrite Ha, Hd, Hs. split; [|done]. intros H. by rewrite (Hh H).
Qed.

Lemma writer_ok t late throws : threads_ok t -> threads_ok (writer_step t late throws).
Proof.
  intros Ht. pose proof Ht as (Hr & Hw & Hf). unfold writer_step. destruct (at_ t) as [| |m|m lost|[m|]|] eqn:E; [..|done].
  - destruct (ready t); [|done]. apply (writer_moves t); try done; [by rewrite E|]. intros _. unfold in_hand. by rewrite E.
  - destruct (stopping t && late); [apply (writer_moves t); try done; by rewrite E|].
    pose proof (take_ok t E Ht) as H. by destruct (take_message (shared t)) as [m s].
  - unfold wake_ok in Hw. rewrite E in Hw. apply (writer_moves t); try done; [by rewrite E| |].
    + intros _. unfold in_hand. rewrite E. cbn [set_writer at_]. by destruct (_ =? _), m.
    + unfold wake_ok, woken. cbn [set_writer at_ shared reported ready clients].
      destruct (dropped (shared t) =? reported t) eqn:Ed; destruct m as [m|]; try done; fold (woken t); bool_to_prop; intuition.
  - destruct throws; [by apply thrown_ok|]. unfold wake_ok in Hw. rewrite E in Hw. apply (writer_moves t); try done; [by rewrite E|].
    intros _. unfold in_hand. rewrite E. cbn [at_]. by destruct m.
  - destruct throws; [by apply thrown_ok|]. destruct Hf as (lost & Hl & _ & Ha). specialize (Hl ltac:(by rewrite E)).
    unfold in_hand in Hl. rewrite E in Hl. subst lost. split; [done|]. split; [done|]. exists []. split; [done|]. split; [simpl; lia|].
    cbn [accepted delivered shared]. rewrite Ha. by rewrite <- app_assoc.
  - unfold wake_ok in Hw. rewrite E in Hw. apply (writer_moves t); try done; [by rewrite E| |].
    + intros _. unfold in_hand. rewrite E. cbn [set_writer at_]. by destruct (stopping t).
    + unfold wake_ok, woken. cbn [set_writer at_ shared reported ready clients stopping]. destruct (stopping t) eqn:Es; [done|]. fold (woken t). intuition.
Qed.

Lemma apply_ok t o : threads_ok t -> threads_ok (thread_apply t o).
Proof.
  intros Ht. pose proof Ht as (Hr & Hw & Hf). destruct o as [i m|i|i a|late throws]; [| |by apply client_ok|by apply writer_ok];
    cbn [thread_apply]; destruct (clients t !! i) as [[]|] eqn:E; try done;
    (split; [done|]; split; [apply wake_set_client; [done|by rewrite E|done|done]|by apply (fifo_same t)]).
Qed.

Lemma run_ok steps t : threads_ok t -> threads_ok (threads_run steps t).
Proof. unfold threads_run. revert t. induction steps as [|o steps IH]; intros t Ht; [done|]. apply IH. by apply apply_ok. Qed.

Lemma log_threads_ok n : threads_ok (log_threads n).
Proof. split; [apply empty_ring_ok|]. split; [by right|]. exists []. split; [done|]. split; [simpl; lia|done]. Qed.

(** The accepted messages the sink does not have yet, oldest first. *)
Definition contents (t : threads) : list (list Z) := in_hand t ++ queued (shared t).

Lemma contents_of t : threads_ok t -> at_ t <> Returned -> accepted t = delivered t ++ contents t.
Proof. intros (_ & _ & lost & Hl & _ & Ha) Hn. by rewrite Ha, (Hl Hn). Qed.

(** The writer sleeps only when there is nothing to do: whatever the interleaving of
    writing threads, the destructor and the writer, when it waits for an event that
    is not set and nobody is about to set it, every accepted message was handed to
    the sink, in order, every loss was reported, and the log is not being
    destroyed. *)
Theorem no_wakeup_lost n steps :
  let t := threads_run steps (log_threads n) in
  at_ t = Waiting -> ready t = false -> (forall i r, clients t !! i <> Some (Signalling r)) ->
  delivered t = accepted t /\ dropped (shared t) = reported t /\ stopping t = false.
Proof.
  intros t Ht Hr Hc. destruct (run_ok steps _ (log_threads_ok n)) as (Hk & Hw & lost & Hl & _ & Ha). fold t in Hk, Hw, Hl, Ha.
  specialize (Hl ltac:(by rewrite Ht)). unfold in_hand in Hl. rewrite Ht in Hl. subst lost. unfold wake_ok in Hw. rewrite Ht in Hw.
  destruct Hw as [[Hw|(i & r & Hw)]|(Hn & Hd & Hs)]; [congruence|by destruct (Hc i r)|]. split; [|done].
  rewrite Ha. unfold queued. rewrite Hn. simpl. by rewrite app_nil_r.
Qed.

(** ** The writer drains the queue *)

(** How many of its own operations are left until it waits. *)
Definition writer_work (t : threads) : nat :=
  let c := (4 * count (shared t))%nat in
  let again := if ready t then 5%nat else 0%nat in
  match at_ t with
  | Waiting => if ready t then (5 + c)%nat else 0%nat
  | Turning => (4 + c + again)%nat
  | Taken (Some _) => (7 + c + again)%nat
  | Reporting (Some _) _ => (6 + c + again)%nat
  | Handing (Some _) => (5 + c + again)%nat
  | Taken None => (3 + c + again)%nat
  | Reporting None _ => (2 + c + again)%nat
  | Handing None => (1 + c + again)%nat
  | Returned => 0%nat
  end.

Definition kDrainSteps : nat := 1037.

(** Nobody is about to set the event, and the log is in use. *)
Definition calm (t : threads) : Prop :=
  (forall i r, clients t !! i <> Some (Signalling r)) /\ stopping t = false /\ at_ t <> Returned.

Lemma calm_step t : calm t -> threads_ok t -> calm (writer_step t false false).
Proof.
  intros (Hc & Hs & Hr) Ht. unfold writer_step, calm. destruct (at_ t) as [| |m|m lost|[m|]|] eqn:E; try done.
  - destruct (ready t); [done|]. by rewrite E.
  - rewrite Hs. by destruct (take_message (shared t)).
  - cbn [set_writer at_ clients stopping]. by destruct (_ =? _).
  - cbn [set_writer at_ clients stopping]. by rewrite Hs.
Qed.

(** The handing of nothing with something queued means the event is set. *)
Lemma work_decreases t : calm t -> threads_ok t ->
  (writer_work (writer_step t false false) <= writer_work t - 1)%nat.
Proof.
  intros (Hc & Hs & Hr) (Hk & Hw & _). unfold writer_step, writer_work.
  destruct (at_ t) as [| |m|m lost|[m|]|] eqn:E; try done.
  - destruct (ready t) eqn:Er; [|by rewrite E, Er]. cbn [at_ shared ready]. lia.
  - rewrite Hs. unfold take_message. destruct (count (shared t) =? 0)%nat eqn:Ec; cbn [andb set_writer at_ shared ready count]; bool_to_prop; lia.
  - cbn [set_writer at_ shared ready]. destruct (_ =? _), m; lia.
  - cbn [at_ shared ready]. destruct m; lia.
  - rewrite Hs. cbn [set_writer at_ shared ready]. destruct (ready t); lia.
Qed.

Lemma work_bound t : threads_ok t -> (writer_work t < kDrainSteps)%nat.
Proof.
  intros ((_ & _ & Hc & _) & _). unfold writer_work, kDrainSteps, kMaxMessages in *.
  destruct (at_ t) as [| |[]|[] ?|[]|]; destruct (ready t); lia.
Qed.

Lemma work_done t : calm t -> writer_work t = 0%nat -> at_ t = Waiting /\ ready t = false.
Proof.
  intros (_ & _ & Hr). unfold writer_work. destruct (at_ t) as [| |[]|[] ?|[]|]; destruct (ready t) eqn:E; try done; lia.
Qed.

Lemma drain_run k t : calm t -> threads_ok t ->
  let t' := threads_run (replicate k (Writer false false)) t in
  calm t' /\ threads_ok t' /\ accepted t' = accepted t /\ (writer_work t' <= writer_work t - k)%nat.
Proof.
  revert t. induction k as [|k IH]; intros t Hc Ht; [split_and!; try done; simpl; lia|].
  cbn [replicate]. unfold threads_run. cbn [foldl thread_apply]. fold (threads_run (replicate k (Writer false false)) (writer_step t false false)).
  pose proof (work_decreases t Hc Ht) as Hd. pose proof (calm_step t Hc Ht) as Hc'.
  destruct (IH (writer_step t false false) Hc') as (H1 & H2 & H3 & H4); [by apply writer_ok|]. split_and!; [done|done| |lia].
  rewrite H3. unfold writer_step. destruct (at_ t) as [| |m|m lost|[m|]|]; try done; [by destruct (ready t)|].
  destruct (_ && _); [done|]. by destruct (take_message (shared t)).
Qed.

Lemma drained k t : calm t -> threads_ok t -> (writer_work t <= k)%nat ->
  let t' := threads_run (replicate k (Writer false false)) t in
  at_ t' = Waiting /\ delivered t' = accepted t /\ reported t' = dropped (shared t').
Proof.
  intros Hc Ht Hk t'. destruct (drain_run k t Hc Ht) as (Hc' & Ht' & Ha & Hw). fold t' in Hc', Ht', Ha, Hw.
  destruct (work_done t' Hc') as [H1 H2]; [lia|]. split; [done|].
  destruct Ht' as (_ & Hwk & lost & Hl & _ & Hf). specialize (Hl ltac:(by rewrite H1)). unfold in_hand in Hl. rewrite H1 in Hl. subst lost.
  unfold wake_ok in Hwk. rewrite H1 in Hwk.
  destruct Hwk as [[Hwk|(i & r & Hwk)]|(Hn & Hd & _)]; [congruence|by destruct Hc' as [Hc' _]; destruct (Hc' i r)|].
  split; [|done]. rewrite <- Ha, Hf. unfold queued. rewrite Hn. simpl. by rewrite app_nil_r.
Qed.

(** Left alone with a sink that returns, the writer hands over everything accepted
    and reports every loss, in at most [kDrainSteps] operations, from wherever the
    threads left it. *)
Theorem writer_drains n steps :
  let t := threads_run steps (log_threads n) in
  calm t ->
  let t' := threads_run (replicate kDrainSteps (Writer false false)) t in
  at_ t' = Waiting /\ delivered t' = accepted t /\ reported t' = dropped (shared t').
Proof.
  intros t Hc. pose proof (run_ok steps _ (log_threads_ok n)) as Ht. fold t in Ht.
  apply (drained kDrainSteps t Hc Ht). pose proof (work_bound t Ht). lia.
Qed.
