(* ===== verification/LogContention.v ===== *)
(** * LogContention: eight producers of the diagnostic queue

    [asyncLogContentionSelfTest] of [src/src/native/async-log-self-test.h]: eight
    threads write 128 messages each through one [AsyncLog], every one waiting until
    the sink has its message.  The threads run over [LogWriter] in any order; the
    test's verdict, that it cannot stop half way, and that it ends, are shown for
    every interleaving. *)
From S2P Require Import Prelude Numbers Logs LogWriter.
Import AsyncLog LogWriter.

Definition kProducers : nat := 8.
Definition kMessages : nat := 128.

(** [std::to_string(i) + ":" + std::to_string(n) + "\r\n"] *)
Definition line (i n : nat) : list Z := to_string (Z.of_nat i) ++ str ":" ++ to_string (Z.of_nat n) ++ [13; 10].

(** A producer between messages, inside [log.write], at its wait for the sink, or
    after its [return]. *)
Inductive producer_point := AtHead | InWrite | AtWait | Failed.

Record producer := { sent : nat; point : producer_point }.

(** The log's threads, the producers, and what the sink's callback keeps: the
    events, the counts and the failure. *)
Record trial := { log : threads; producers : list producer; acks : list bool; received : list nat; failed : bool }.

Definition trial_start : trial :=
  {| log := log_threads kProducers; producers := replicate kProducers {| sent := 0; point := AtHead |};
     acks := replicate kProducers false; received := replicate kProducers 0%nat; failed := false |}.

Definition with_producer (c : trial) (t : threads) (i : nat) (p : producer) : trial :=
  {| log := t; producers := <[i := p]> (producers c); acks := acks c; received := received c; failed := failed c |}.

(** The sink's callback: the line's first character is its producer. *)
Definition callback (c : trial) (text : list Z) : trial :=
  let i := match text with [] => 8 | d :: _ => d - 48 end in
  if (0 <=? i) && (i <? 8)
  then {| log := log c; producers := producers c; acks := <[Z.to_nat i := true]> (acks c);
          received := alter S (Z.to_nat i) (received c); failed := failed c |}
  else {| log := log c; producers := producers c; acks := acks c; received := received c; failed := true |}.

(** The next operation of producer [i]; its wait is within the five seconds. *)
Definition producer_step (c : trial) (i : nat) : trial :=
  match producers c !! i with
  | None => c
  | Some p =>
      match point p with
      | AtHead =>
          if (sent p <? kMessages)%nat
          then with_producer c (thread_apply (log c) (CallWrite i (line i (sent p)))) i {| sent := sent p; point := InWrite |}
          else c
      | InWrite =>
          let t := thread_apply (log c) (Client i true) in
          match clients (log c) !! i with
          | Some (Signalling (Some true)) => with_producer c t i {| sent := sent p; point := AtWait |}
          | Some (Signalling _) =>
              {| log := t; producers := <[i := {| sent := sent p; point := Failed |}]> (producers c); acks := acks c;
                 received := received c; failed := true |}
          | _ => with_producer c t i p
          end
      | AtWait =>
          if default false (acks c !! i)
          then {| log := log c; producers := <[i := {| sent := S (sent p); point := AtHead |}]> (producers c);
                  acks := <[i := false]> (acks c); received := received c; failed := failed c |}
          else c
      | Failed => c
      end
  end.

(** What the writer's next operation hands to the sink. *)
Definition sink_call (t : threads) : option (list Z) :=
  match at_ t with
  | Reporting _ lost => Some (str "LOG QUEUE DROPPED " ++ to_string (u64 (lost - reported t)) ++ [13; 10])
  | Handing m => m
  | _ => None
  end.

Definition log_thread_step (c : trial) : trial :=
  let c' := {| log := thread_apply (log c) (Writer false false); producers := producers c; acks := acks c; received := received c; failed := failed c |} in
  match sink_call (log c) with Some text => callback c' text | None => c' end.

(** Who moves: a producer, or the log's writer. *)
Definition trial_step (c : trial) (who : option nat) : trial :=
  match who with Some i => producer_step c i | None => log_thread_step c end.

Definition trial_run (schedule : list (option nat)) : trial := foldl trial_step trial_start schedule.

(** Every producer has returned. *)
Definition all_joined (c : trial) : bool :=
  forallb (fun p => match point p with AtHead => (kMessages <=? sent p)%nat | Failed => true | _ => false end) (producers c).

(** [acks->failed || log.dropped()], and the counts. *)
Definition trial_verdict (c : trial) : bool :=
  negb (failed c) && (dropped (shared (log c)) =? 0) && forallb (fun n => (n =? kMessages)%nat) (received c).

(** ** The invariant *)

Definition sent_of (c : trial) (i : nat) : nat := match producers c !! i with Some p => sent p | None => 0%nat end.

(** Producer [i], its thread in the log, and whether its event is set: [ids] are the
    producers whose message is on its way to the sink. *)
Definition stage (p : producer) (k : client_point) (i : nat) (a : bool) (ids : list nat) : Prop :=
  match point p, k with
  | AtHead, Outside => a = false /\ ~ i ∈ ids
  | InWrite, Entering m | InWrite, Copied m => (sent p < kMessages)%nat /\ m = line i (sent p) /\ a = false /\ ~ i ∈ ids
  | InWrite, Signalling (Some true) | AtWait, Outside => (sent p < kMessages)%nat /\ (i ∈ ids <-> a = false)
  | _, _ => False
  end.

Definition producer_ok (c : trial) (ids : list nat) (i : nat) (p : producer) : Prop :=
  (sent p <= kMessages)%nat /\
  exists k a, clients (log c) !! i = Some k /\ acks c !! i = Some a /\
    received c !! i = Some (if a : bool then S (sent p) else sent p) /\ stage p k i a ids.

(** No loss, no report, nobody stops the log. *)
Definition untroubled (t : threads) : Prop :=
  dropped (shared t) = 0 /\ reported t = 0 /\ stopping t = false /\ accepting (shared t) = true /\
  at_ t <> Returned /\ (forall m lost, at_ t <> Reporting m lost).

Definition trial_ok (ids : list nat) (c : trial) : Prop :=
  threads_ok (log c) /\ untroubled (log c) /\ NoDup ids /\ (forall i, i ∈ ids -> (i < kProducers)%nat) /\
  contents (log c) = map (fun i => line i (sent_of c i)) ids /\ length (producers c) = kProducers /\ failed c = false /\
  forall i p, producers c !! i = Some p -> producer_ok c ids i p.

Lemma trial_start_ok : trial_ok [] trial_start.
Proof.
  split; [apply log_threads_ok|]. split; [by split_and!|]. split; [constructor|]. split; [by intros i Hi%not_elem_of_nil|].
  split; [done|]. split; [done|]. split; [done|]. intros i p Hp.
  cbn [trial_start producers] in Hp. apply lookup_replicate in Hp as [-> Hi]. split; [simpl; unfold kMessages; lia|].
  exists Outside, false. cbn [trial_start log log_threads clients acks received]. rewrite !lookup_replicate_2 by done. split_and!; try done.
  split; [done|]. apply not_elem_of_nil.
Qed.

(** *** Lines *)

Lemma digit_text i : (i < kProducers)%nat -> to_string (Z.of_nat i) = [48 + Z.of_nat i].
Proof. unfold kProducers. intros Hi. do 8 (destruct i as [|i]; [reflexivity|]). lia. Qed.

Lemma number_text n : (n < kMessages)%nat -> (length (to_string (Z.of_nat n)) <= 3)%nat.
Proof.
  intros Hn. assert (forallb (fun n => length (to_string (Z.of_nat n)) <=? 3)%nat (seq 0 kMessages) = true) as H by (by vm_compute).
  rewrite forallb_forall in H. apply Nat.leb_le, H, in_seq. lia.
Qed.

Lemma line_size i n : (i < kProducers)%nat -> (n < kMessages)%nat -> size_of (line i n) <= 7.
Proof.
  intros Hi Hn. pose proof (number_text n Hn). unfold size_of, line. rewrite digit_text by done. rewrite !length_app. simpl. lia.
Qed.

Lemma line_head i n : (i < kProducers)%nat -> exists rest, line i n = 48 + Z.of_nat i :: rest.
Proof. intros Hi. unfold line. rewrite digit_text by done. eexists. reflexivity. Qed.

Lemma total_bound b l : Forall (fun m => size_of m <= b) l -> total l <= b * Z.of_nat (length l).
Proof. induction 1 as [|m l Hm Hl IH]; simpl; lia. Qed.

(** *** Room in the queue *)

Lemma few_ids ids : NoDup ids -> (forall i, i ∈ ids -> (i < kProducers)%nat) -> (length ids <= kProducers)%nat.
Proof.
  intros Hn Hi. rewrite <- (length_seq kProducers 0). apply NoDup_incl_length; [by apply NoDup_ListNoDup|].
  intros i H%list_elem_of_In. apply in_seq. specialize (Hi i H). lia.
Qed.

Lemma id_producer c ids i : trial_ok ids c -> i ∈ ids ->
  exists p, producers c !! i = Some p /\ producer_ok c ids i p /\ (i < kProducers)%nat /\ sent_of c i = sent p /\ (sent p < kMessages)%nat.
Proof.
  intros (_ & _ & _ & Hb & _ & Hl & _ & Hp) Hi. pose proof (Hb i Hi) as Hlt.
  destruct (lookup_lt_is_Some_2 (producers c) i) as [p E]; [by rewrite Hl|]. exists p. split; [done|]. split; [by apply Hp|]. split; [done|].
  split; [unfold sent_of; by rewrite E|]. destruct (Hp i p E) as (_ & k & a & _ & _ & _ & Hs). unfold stage in Hs.
  destruct (point p), k as [| | | |[[]|]]; try done; destruct Hs as (?&?); try done; destruct_and?; done.
Qed.

Lemma contents_small c ids : trial_ok ids c ->
  (count (shared (log c)) <= kProducers)%nat /\ bytes (shared (log c)) <= 7 * 8.
Proof.
  intros Hc. pose proof Hc as (((_ & _ & _ & _ & Hb & _) & _) & _ & Hn & Hi & Hq & _). pose proof (few_ids ids Hn Hi) as Hf.
  assert (length (queued (shared (log c))) <= kProducers)%nat as Hl.
  { apply (f_equal length) in Hq. unfold contents in Hq. rewrite length_app, length_map in Hq. lia. }
  split; [unfold queued in Hl; by rewrite length_map, length_seq in Hl|]. rewrite Hb.
  assert (Forall (fun m => size_of m <= 7) (queued (shared (log c)))) as Hs.
  { assert (Forall (fun m => size_of m <= 7) (contents (log c))) as H; [|by apply Forall_app in H as [_ H]].
    rewrite Hq. apply List.Forall_map, list.Forall_forall. intros i Hi'. destruct (id_producer c ids i Hc Hi') as (p & _ & _ & H1 & -> & H2).
    by apply line_size. }
  pose proof (total_bound 7 _ Hs). unfold kProducers in Hl. lia.
Qed.

(** *** Steps *)

Lemma stage_ids p k i a ids ids' : (i ∈ ids' <-> i ∈ ids) -> stage p k i a ids -> stage p k i a ids'.
Proof. intros H. unfold stage. destruct (point p), k as [| | | |[[]|]]; rewrite ?H; done. Qed.

(** Producer [i] moves: the others are where they were. *)
Lemma others_ok c c' ids ids' i p' :
  producers c' = <[i := p']> (producers c) ->
  (forall j, j <> i -> clients (log c') !! j = clients (log c) !! j /\ acks c' !! j = acks c !! j /\
    received c' !! j = received c !! j /\ (j ∈ ids' <-> j ∈ ids)) ->
  producer_ok c' ids' i p' ->
  (forall j p, producers c !! j = Some p -> producer_ok c ids j p) -> forall j p, producers c' !! j = Some p -> producer_ok c' ids' j p.
Proof.
  intros Hp Ho Hi Hc j p E. rewrite Hp in E. destruct (decide (j = i)) as [->|Hne].
  - apply list_lookup_insert_Some in E as [(_ & -> & _)|[? _]]; done.
  - rewrite list_lookup_insert_ne in E by done. destruct (Ho j Hne) as (H1 & H2 & H3 & H4).
    destruct (Hc j p E) as (Hs & k & a & E1 & E2 & E3 & E4). split; [done|]. exists k, a. rewrite H1, H2, H3. split_and!; try done.
    by apply (stage_ids _ _ _ _ ids).
Qed.

Lemma sent_of_insert c t i p p' acks' received' failed' j :
  producers c !! i = Some p -> sent p' = sent p ->
  sent_of {| log := t; producers := <[i := p']> (producers c); acks := acks'; received := received'; failed := failed' |} j = sent_of c j.
Proof.
  intros E Hs. unfold sent_of. cbn [producers]. destruct (decide (i = j)) as [<-|Hne]; [|by rewrite list_lookup_insert_ne].
  rewrite list_lookup_insert_eq by (by eapply lookup_lt_Some). by rewrite E.
Qed.

(** A producer inside [log.write] or between messages: the log moves, the queue
    grows by [more]. *)
Lemma with_producer_ok c ids i p p' t' more :
  trial_ok ids c -> producers c !! i = Some p -> threads_ok t' -> untroubled t' -> (more = [] \/ more = [i] /\ ~ i ∈ ids) ->
  contents t' = contents (log c) ++ map (fun i => line i (sent_of c i)) more -> sent p' = sent p ->
  (forall j, j <> i -> clients t' !! j = clients (log c) !! j) ->
  producer_ok (with_producer c t' i p') (ids ++ more) i p' -> trial_ok (ids ++ more) (with_producer c t' i p').
Proof.
  intros Hc E Ht Hu Hm Hq Hs Hcl Hi. pose proof Hc as (_ & _ & Hn & Hb & Hq0 & Hl & Hf & Hp).
  pose proof (lookup_lt_Some _ _ _ E) as Hlt. rewrite Hl in Hlt.
  split; [done|]. split; [done|]. split; [|split; [|split; [|split; [|split]]]].
  - destruct Hm as [->|[-> Hm]]; [by rewrite app_nil_r|]. apply list.NoDup_app. split_and!; [done| |apply list.NoDup_singleton].
    intros j Hj ->%list_elem_of_singleton. done.
  - intros j [Hj|Hj]%elem_of_app; [by apply Hb|]. destruct Hm as [->|[-> _]]; [by apply not_elem_of_nil in Hj|].
    by apply list_elem_of_singleton in Hj as ->.
  - cbn [with_producer log]. rewrite Hq, Hq0, <- map_app. apply map_ext. intros j. f_equal. symmetry. unfold with_producer. by apply (sent_of_insert _ _ _ p).
  - cbn [with_producer producers]. by rewrite length_insert.
  - done.
  - apply (others_ok c _ ids _ i p'); [done| |done|done]. intros j Hj. cbn [with_producer log acks received]. split; [by apply Hcl|].
    split_and!; [done|done|]. rewrite elem_of_app. destruct Hm as [->|[-> _]]; [rewrite elem_of_nil|rewrite list_elem_of_singleton]; intuition.
Qed.

Lemma client_of c ids i p : trial_ok ids c -> producers c !! i = Some p -> exists k, clients (log c) !! i = Some k.
Proof. intros (_ & _ & _ & _ & _ & _ & _ & Hp) E. destruct (Hp i p E) as (_ & k & a & H & _). by exists k. Qed.

(** A message that was copied finds room. *)
Lemma room c ids i n : trial_ok ids c -> (i < kProducers)%nat -> (n < kMessages)%nat ->
  exists s, write (shared (log c)) (line i n) true = (true, s) /\ dropped s = 0 /\ accepting s = true /\ ring_ok s /\
    queued s = queued (shared (log c)) ++ [line i n].
Proof.
  intros Hc Hi Hn. destruct (contents_small c ids Hc) as [Hcnt Hbytes]. pose proof (line_size i n Hi Hn) as Hs.
  destruct Hc as ((Hr & _) & (Hd & _ & _ & Ha & _) & _). destruct (write_spec (shared (log c)) (line i n) true Hr) as (W1 & W2 & W3).
  assert (write (shared (log c)) (line i n) true = (true, (write (shared (log c)) (line i n) true).2)) as W.
  { unfold write. rewrite Ha. destruct (Z.ltb_spec kMaxMessageBytes (size_of (line i n))) as [H|_]; [unfold kMaxMessageBytes in H; lia|].
    destruct (Nat.eqb_spec (count (shared (log c))) kMaxMessages) as [H|_]; [unfold kMaxMessages, kProducers in *; lia|].
    destruct (Z.ltb_spec (kMaxBytes - bytes (shared (log c))) (size_of (line i n))) as [H|_]; [unfold kMaxBytes in H; lia|]. done. }
  exists (write (shared (log c)) (line i n) true).2. rewrite W in W2, W3. cbn [fst snd] in W2, W3. split; [done|].
  split; [by rewrite W3|]. split; [|by split]. clear W2 W3. revert W. unfold write. destruct (_ || _); [done|]. destruct (_ || _); [done|]. by intros _.
Qed.

Lemma at_head_ok c ids i p : trial_ok ids c -> producers c !! i = Some p -> point p = AtHead -> trial_ok ids (producer_step c i).
Proof.
  intros Hc E Ep. pose proof Hc as (Ht & Hu & _ & _ & _ & _ & _ & Hp). destruct (Hp i p E) as (Hs & k & a & Hk & Ha & Hr & Hst).
  unfold stage in Hst. rewrite Ep in Hst. destruct k; try done. destruct Hst as [-> Hni]. unfold producer_step. rewrite E, Ep.
  destruct (Nat.ltb_spec (sent p) kMessages) as [Hlt|]; [|done]. pose proof (lookup_lt_Some _ _ _ Hk) as Hkl.
  replace ids with (ids ++ []) by apply app_nil_r. cbn [thread_apply]. rewrite Hk.
  apply (with_producer_ok c ids i p); try done; [|by left|cbn; by rewrite app_nil_r| |].
  - pose proof (apply_ok (log c) (CallWrite i (line i (sent p))) Ht) as H. cbn [thread_apply] in H. by rewrite Hk in H.
  - intros j Hj. cbn [set_client clients]. by rewrite list_lookup_insert_ne.
  - rewrite app_nil_r. split; [done|]. exists (Entering (line i (sent p))), false.
    cbn [with_producer log set_client clients acks received]. rewrite list_lookup_insert_eq by done. split_and!; try done.
Qed.

Lemma in_write_ok c ids i p : trial_ok ids c -> producers c !! i = Some p -> point p = InWrite ->
  exists ids', trial_ok ids' (producer_step c i).
Proof.
  intros Hc E Ep. pose proof Hc as (Ht & Hu & _ & _ & _ & Hl & _ & Hp). destruct (Hp i p E) as (Hs & k & a & Hk & Ha & Hr & Hst).
  pose proof (lookup_lt_Some _ _ _ E) as Hlt. rewrite Hl in Hlt. pose proof (lookup_lt_Some _ _ _ Hk) as Hkl.
  pose proof (apply_ok (log c) (Client i true) Ht) as Ht'. unfold stage in Hst. rewrite Ep in Hst. unfold producer_step. rewrite E, Ep, Hk.
  cbn [thread_apply] in Ht' |- *. unfold client_step in Ht' |- *. rewrite Hk in Ht' |- *. destruct k as [|m|m| |[[]|]]; try done.
  - destruct Hst as (Hn & -> & -> & Hni). pose proof (line_size i (sent p) Hlt Hn) as Hz. destruct Hu as (U1 & U2 & U3 & U4 & U5).
    rewrite U4 in Ht' |- *. destruct (Z.ltb_spec kMaxMessageBytes (size_of (line i (sent p)))) as [H|_]; [unfold kMaxMessageBytes in H; lia|].
    cbn [negb orb] in Ht' |- *. exists (ids ++ []). apply (with_producer_ok c ids i p); try done; [by left|cbn; by rewrite app_nil_r| |].
    + intros j Hj. cbn [set_client clients]. by rewrite list_lookup_insert_ne.
    + rewrite app_nil_r. split; [done|]. exists (Copied (line i (sent p))), false.
      cbn [with_producer log set_client clients acks received]. rewrite list_lookup_insert_eq by done. split_and!; try done.
      unfold stage. rewrite Ep. done.
  - destruct Hst as (Hn & -> & -> & Hni). destruct (room c ids i (sent p) Hc Hlt Hn) as (s & W & Ws & Wa & _ & Wq).
    unfold enqueue in Ht' |- *. rewrite W in Ht' |- *. exists (ids ++ [i]). destruct Hu as (U1 & U2 & U3 & U4 & U5).
    apply (with_producer_ok c ids i p); try done; [by right| | |].
    + unfold contents. cbn [shared]. rewrite Wq, app_assoc. cbn [map]. unfold sent_of. by rewrite E.
    + intros j Hj. cbn [clients]. by rewrite list_lookup_insert_ne.
    + split; [done|]. exists (Signalling (Some true)), false. cbn [with_producer log clients acks received].
      rewrite list_lookup_insert_eq by done. split_and!; try done. unfold stage. rewrite Ep. split; [done|]. rewrite elem_of_app, list_elem_of_singleton. naive_solver.
  - destruct Hst as [Hn Ho]. exists (ids ++ []). apply (with_producer_ok c ids i p); try done; [by left|cbn; by rewrite app_nil_r| |].
    + intros j Hj. cbn [clients]. by rewrite list_lookup_insert_ne.
    + rewrite app_nil_r. split; [done|]. exists Outside, a. cbn [with_producer log clients acks received].
      rewrite list_lookup_insert_eq by done. split_and!; try done.
Qed.

Lemma at_wait_ok c ids i p : trial_ok ids c -> producers c !! i = Some p -> point p = AtWait -> trial_ok ids (producer_step c i).
Proof.
  intros Hc E Ep. pose proof Hc as (Ht & Hu & Hn & Hb & Hq & Hl & Hf & Hp). destruct (Hp i p E) as (Hs & k & a & Hk & Ha & Hr & Hst).
  unfold stage in Hst. rewrite Ep in Hst. destruct k; try done. destruct Hst as [Hlt Ho]. unfold producer_step. rewrite E, Ep, Ha. cbn [default].
  destruct a; cbn [from_option id]; [|done]. assert (~ i ∈ ids) as Hni by (intros H%Ho; done). pose proof (lookup_lt_Some _ _ _ Ha) as Hal.
  split; [done|]. split; [done|]. split; [done|]. split; [done|]. split; [|split; [cbn [producers]; by rewrite length_insert|split; [done|]]].
  - cbn [log]. rewrite Hq. apply map_ext_in. intros j Hj%list_elem_of_In. f_equal. unfold sent_of. cbn [producers].
    rewrite list_lookup_insert_ne; [done|]. by intros ->.
  - apply (others_ok c _ ids ids i {| sent := S (sent p); point := AtHead |}); [done| | |done].
    + intros j Hj. cbn [log acks received]. rewrite list_lookup_insert_ne by done. done.
    + split; [simpl; lia|]. exists Outside, false. cbn [log acks received sent]. rewrite list_lookup_insert_eq by done. split_and!; try done.
Qed.

Lemma producer_step_ok c ids i : trial_ok ids c -> exists ids', trial_ok ids' (producer_step c i).
Proof.
  intros Hc. destruct (producers c !! i) as [p|] eqn:E; [|exists ids; unfold producer_step; by rewrite E].
  destruct (point p) eqn:Ep; [exists ids; by apply (at_head_ok c ids i p)|by apply (in_write_ok c ids i p)|exists ids; by apply (at_wait_ok c ids i p)|].
  exists ids. unfold producer_step. by rewrite E, Ep.
Qed.

(** The writer's own operations that do not call the sink. *)
Lemma writer_quiet_ok c ids t' :
  trial_ok ids c -> threads_ok t' -> untroubled t' -> contents t' = contents (log c) -> clients t' = clients (log c) ->
  trial_ok ids {| log := t'; producers := producers c; acks := acks c; received := received c; failed := failed c |}.
Proof.
  intros (Ht & Hu & Hn & Hb & Hq & Hl & Hf & Hp) Ht' Hu' Hq' Hc'. split_and!; try done; [cbn [log]; by rewrite Hq'|].
  intros i p E. destruct (Hp i p E) as (Hs & k & a & H1 & H2 & H3 & H4). split; [done|]. exists k, a. cbn [log acks received]. by rewrite Hc'.
Qed.

(** The sink gets the oldest message: its producer's event is set. *)
Lemma callback_ok c ids m t' :
  trial_ok ids c -> threads_ok t' -> untroubled t' -> clients t' = clients (log c) -> contents (log c) = m :: contents t' ->
  exists ids', trial_ok ids' (callback {| log := t'; producers := producers c; acks := acks c; received := received c; failed := failed c |} m).
Proof.
  intros Hc Ht' Hu' Hc' Hm. pose proof Hc as (Ht & Hu & Hn & Hb & Hq & Hl & Hf & Hp). rewrite Hm in Hq.
  destruct ids as [|i ids]; [done|]. cbn [map] in Hq. injection Hq as Em Hq. exists ids.
  destruct (id_producer c (i :: ids) i Hc) as (p & E & (Hs & k & a & Hk & Ha & Hr & Hst) & Hi & _ & Hlt); [apply list_elem_of_here|].
  apply list.NoDup_cons in Hn as [Hni Hn]. destruct (line_head i (sent_of c i) Hi) as [rest El]. unfold callback. rewrite Em, El.
  replace (48 + Z.of_nat i - 48) with (Z.of_nat i) by lia. unfold kProducers in Hi.
  destruct (Z.leb_spec 0 (Z.of_nat i)) as [_|H]; [|lia]. destruct (Z.ltb_spec (Z.of_nat i) 8) as [_|H]; [|lia]. cbn [andb]. rewrite Nat2Z.id.
  assert (a = false /\ stage p k i true ids) as [-> Hst'].
  { pose proof (list_elem_of_here i ids) as Hin. unfold stage in *. destruct (point p), k as [| | | |[[]|]]; try done.
    - by destruct Hst as [_ []].
    - by destruct Hst as (_ & _ & _ & []).
    - by destruct Hst as (_ & _ & _ & []).
    - destruct Hst as [_ Ho]. split; [by apply Ho|]. by split.
    - destruct Hst as [_ Ho]. split; [by apply Ho|]. by split. }
  split; [done|]. split; [done|]. split; [done|]. split; [intros j Hj; apply Hb; by apply list_elem_of_further|]. split; [exact Hq|].
  split; [done|]. split; [done|].
  apply (others_ok c _ (i :: ids) ids i p); [by rewrite (list_insert_id _ _ _ E)| | |done].
  - intros j Hj. cbn [log acks received]. rewrite Hc', list_lookup_insert_ne, list_lookup_alter_ne by done. split_and!; try done.
    rewrite elem_of_cons. intuition.
  - split; [done|]. exists k, true. cbn [log acks received]. rewrite Hc', list_lookup_insert_eq by (by eapply lookup_lt_Some).
    rewrite list_lookup_alter, decide_True, Hr by done. split_and!; done.
Qed.

Lemma log_thread_step_ok c ids : trial_ok ids c -> exists ids', trial_ok ids' (log_thread_step c).
Proof.
  intros Hc. pose proof Hc as (Ht & (U1 & U2 & U3 & U4 & U5 & U6) & _). unfold log_thread_step. cbn [thread_apply].
  pose proof (writer_ok (log c) false false Ht) as Ht'. set (t' := writer_step (log c) false false) in *.
  pose proof (contents_of (log c) Ht U5) as Hc0. pose proof (contents_of t' Ht') as Hc1.
  assert (accepted t' = accepted (log c) /\ clients t' = clients (log c) /\ untroubled t' /\
    delivered t' = delivered (log c) ++ match sink_call (log c) with Some m => [m] | None => [] end) as (Ea & Ec & Hu & Ed).
  { unfold t', writer_step, sink_call, untroubled. destruct (at_ (log c)) as [| |m|m lost|[m|]|] eqn:E; try done; rewrite ?app_nil_r.
    - destruct (ready (log c)); split_and!; try done; rewrite ?E; done.
    - rewrite U3. unfold take_message. destruct (_ =? _)%nat; split_and!; done.
    - rewrite U1, U2. split_and!; try done.
    - by destruct (U6 m lost).
    - rewrite U3. split_and!; done. }
  specialize (Hc1 ltac:(by destruct Hu as (_&_&_&_&?&_))). rewrite Ea, Hc0, Ed, <- app_assoc in Hc1. apply app_inv_head in Hc1.
  destruct (sink_call (log c)) as [m|].
  - by apply (callback_ok c ids m t').
  - exists ids. by apply writer_quiet_ok.
Qed.

Lemma trial_run_ok schedule : exists ids, trial_ok ids (trial_run schedule).
Proof.
  unfold trial_run. assert (exists ids, trial_ok ids trial_start) as H by (exists []; apply trial_start_ok). revert H. generalize trial_start.
  induction schedule as [|[i|] schedule IH]; intros c [ids Hc]; [by exists ids|apply IH; by apply (producer_step_ok c ids)|apply IH; by apply (log_thread_step_ok c ids)].
Qed.

(** ** Progress and an end *)

(** Who cannot move: a producer that returned or waits for the sink; the writer at
    its wait. *)
Definition blocked (c : trial) (who : option nat) : bool :=
  match who with
  | Some i =>
      match producers c !! i with
      | None => true
      | Some p => match point p with
                  | AtHead => (kMessages <=? sent p)%nat
                  | InWrite => false
                  | AtWait => negb (default false (acks c !! i))
                  | Failed => true
                  end
      end
  | None => match at_ (log c) with Waiting => negb (ready (log c)) | Returned => true | _ => false end
  end.

(** The writer's operations that are left for what is queued and signalled. *)
Definition pending_work (t : threads) : nat :=
  match at_ t with Waiting => (4 * count (shared t) + if ready t then 5 else 0)%nat | _ => writer_work t end.

(** How far a producer is with its message. *)
Definition headway (p : producer_point) (k : client_point) : nat :=
  match p, k with
  | InWrite, Entering _ => 1 | InWrite, Copied _ => 2 | InWrite, Signalling _ => 7 | AtWait, _ => 13 | _, _ => 0
  end.

Definition weight (c : trial) (i : nat) : nat :=
  match producers c !! i, clients (log c) !! i with
  | Some p, Some k => (15 * (kMessages - sent p) - headway (point p) k)%nat
  | _, _ => 0%nat
  end.

Definition trial_work (c : trial) : nat := (pending_work (log c) + sum_list_with (weight c) (seq 0 kProducers))%nat.

Lemma sum_same (f g : nat -> nat) l : (forall j, j ∈ l -> f j = g j) -> sum_list_with f l = sum_list_with g l.
Proof.
  induction l as [|x l IH]; intros H; [done|]. simpl. rewrite (H x), IH; [done| |apply list_elem_of_here].
  intros j Hj. apply H. by apply list_elem_of_further.
Qed.

Lemma sum_change (f g : nat -> nat) i l : NoDup l -> i ∈ l -> (forall j, j <> i -> f j = g j) ->
  (sum_list_with f l + g i = sum_list_with g l + f i)%nat.
Proof.
  intros Hn Hi H. induction l as [|x l IH]; [by apply not_elem_of_nil in Hi|]. apply list.NoDup_cons in Hn as [Hx Hn]. simpl.
  apply elem_of_cons in Hi as [<-|Hi].
  - rewrite (sum_same f g l); [lia|]. intros j Hj. apply H. by intros ->.
  - rewrite (H x); [specialize (IH Hn Hi); lia|]. by intros ->.
Qed.

(** Producer [i] moves: its weight falls by more than the log's work grows. *)
Lemma work_falls c c' i :
  (i < kProducers)%nat -> (forall j, j <> i -> weight c' j = weight c j) ->
  (pending_work (log c') + weight c' i < pending_work (log c) + weight c i)%nat -> (trial_work c' < trial_work c)%nat.
Proof.
  intros Hi Ho Hw. unfold trial_work. pose proof (sum_change (weight c') (weight c) i (seq 0 kProducers)) as H.
  rewrite elem_of_seq in H. specialize (H (NoDup_seq _ _) ltac:(lia) Ho). lia.
Qed.

Lemma weight_ne c i j t' p a r f : j <> i -> clients t' !! j = clients (log c) !! j ->
  weight {| log := t'; producers := <[i := p]> (producers c); acks := a; received := r; failed := f |} j = weight c j.
Proof. intros Hj Hc. unfold weight. cbn [producers log]. by rewrite list_lookup_insert_ne, Hc. Qed.

Lemma weight_eq c i t' p k a r f : (i < length (producers c))%nat -> clients t' !! i = Some k ->
  weight {| log := t'; producers := <[i := p]> (producers c); acks := a; received := r; failed := f |} i = (15 * (kMessages - sent p) - headway (point p) k)%nat.
Proof. intros Hi Hc. unfold weight. cbn [producers log]. by rewrite list_lookup_insert_eq, Hc. Qed.

(** The log's work only depends on the queue, the event and the writer. *)
Lemma pending_same t t' : at_ t' = at_ t -> count (shared t') = count (shared t) -> ready t' = ready t -> pending_work t' = pending_work t.
Proof. unfold pending_work, writer_work. intros -> -> ->. done. Qed.

Lemma pending_more t t' n b : at_ t' = at_ t -> at_ t <> Returned -> count (shared t') = (n + count (shared t))%nat -> ready t' = (b || ready t) ->
  (pending_work t' <= pending_work t + 4 * n + if b then 5 else 0)%nat.
Proof.
  unfold pending_work, writer_work. intros -> Hn -> ->. destruct (at_ t) as [| |[]|[] ?|[]|]; try done; destruct b, (ready t); simpl; lia.
Qed.

Lemma producer_moves ids c i p k k' p' t' acks' received' failed' n b :
  trial_ok ids c -> producers c !! i = Some p -> clients (log c) !! i = Some k -> clients t' = <[i := k']> (clients (log c)) ->
  at_ t' = at_ (log c) -> count (shared t') = (n + count (shared (log c)))%nat -> ready t' = (b || ready (log c)) ->
  (15 * (kMessages - sent p') - headway (point p') k' + 4 * n + (if b then 5 else 0) < 15 * (kMessages - sent p) - headway (point p) k)%nat ->
  (trial_work {| log := t'; producers := <[i := p']> (producers c); acks := acks'; received := received'; failed := failed' |} < trial_work c)%nat.
Proof.
  intros Hc E Hk Ht' H1 H2 H3 H. pose proof Hc as (_ & Hu & _ & _ & _ & Hl & _). pose proof (lookup_lt_Some _ _ _ E) as Hlt.
  pose proof (lookup_lt_Some _ _ _ Hk) as Hkl. apply (work_falls c _ i); [by rewrite <- Hl| |].
  - intros j Hj. apply weight_ne; [done|]. by rewrite Ht', list_lookup_insert_ne.
  - rewrite (weight_eq c i t' p' k') by (rewrite ?Ht', ?list_lookup_insert_eq; done). unfold weight. rewrite E, Hk. cbn [log].
    pose proof (pending_more (log c) t' n b H1 ltac:(by destruct Hu as (_&_&_&_&?&_)) H2 H3). lia.
Qed.

Lemma producer_progress c ids i : trial_ok ids c ->
  if blocked c (Some i) then producer_step c i = c else (trial_work (producer_step c i) < trial_work c)%nat.
Proof.
  intros Hc. pose proof Hc as (Ht & Hu & _ & _ & _ & Hl & _ & Hp). unfold blocked, producer_step. destruct (producers c !! i) as [p|] eqn:E; [|done].
  destruct (Hp i p E) as (_ & k & a & Hk & Ha & _ & Hst). pose proof (lookup_lt_Some _ _ _ E) as Hlt. rewrite Hl in Hlt.
  unfold stage in Hst. destruct (point p) eqn:Ep; [| | |done].
  - destruct k; try done. rewrite (Nat.ltb_antisym kMessages). destruct (Nat.leb_spec kMessages (sent p)) as [_|Hs]; [done|]. cbn [negb thread_apply].
    rewrite Hk. apply (producer_moves ids c i p Outside (Entering (line i (sent p))) _ _ _ _ _ 0 false); try done. rewrite Ep. cbn [sent point headway]. lia.
  - cbn [thread_apply]. unfold client_step. rewrite Hk. destruct k as [|m|m| |[[]|]]; try done.
    + destruct Hst as (Hn & -> & _). pose proof (line_size i (sent p) Hlt Hn) as Hz. destruct Hu as (_ & _ & _ & U4 & _). rewrite U4.
      destruct (Z.ltb_spec kMaxMessageBytes (size_of (line i (sent p)))) as [H|_]; [unfold kMaxMessageBytes in H; lia|]. cbn [negb orb].
      apply (producer_moves ids c i p (Entering (line i (sent p))) (Copied (line i (sent p))) _ _ _ _ _ 0 false); try done. rewrite Ep. cbn [headway]. lia.
    + destruct Hst as (Hn & -> & _). destruct (room c ids i (sent p) Hc Hlt Hn) as (s & W & _ & _ & _ & Wq). unfold enqueue. rewrite W.
      apply (producer_moves ids c i p (Copied (line i (sent p))) (Signalling (Some true)) _ _ _ _ _ 1 false); try done.
      * cbn [shared]. apply (f_equal length) in Wq. unfold queued in Wq. rewrite length_app, !length_map, !length_seq in Wq. simpl in *. lia.
      * rewrite Ep. cbn [headway]. lia.
    + destruct Hst as (Hn & _). apply (producer_moves ids c i p (Signalling (Some true)) Outside _ _ _ _ _ 0 true); try done.
      rewrite Ep. cbn [sent point headway]. lia.
  - rewrite Ha. cbn [default]. destruct k; try done. destruct Hst as [Hn _]. destruct a; cbn [from_option id negb]; [|done].
    apply (producer_moves ids c i p Outside Outside _ _ _ _ _ 0 false); try done; [by rewrite list_insert_id|]. rewrite Ep. cbn [sent point headway]. lia.
Qed.

Lemma callback_work c m : trial_work (callback c m) = trial_work c.
Proof. unfold callback. by destruct (_ && _). Qed.

Lemma writer_progress c ids : trial_ok ids c ->
  if blocked c None then log_thread_step c = c else (trial_work (log_thread_step c) < trial_work c)%nat.
Proof.
  intros Hc. pose proof Hc as (Ht & (U1 & U2 & U3 & U4 & U5 & U6) & _).
  assert (if blocked c None then writer_step (log c) false false = log c /\ sink_call (log c) = None
          else (pending_work (writer_step (log c) false false) < pending_work (log c))%nat /\ clients (writer_step (log c) false false) = clients (log c)) as H.
  { unfold blocked, writer_step, sink_call, pending_work, writer_work. destruct (at_ (log c)) as [| |m|m lost|[m|]|] eqn:E.
    - destruct (ready (log c)); cbn [negb at_ shared ready clients]; [split; [lia|done]|done].
    - rewrite U3. unfold take_message. destruct (Nat.eqb_spec (count (shared (log c))) 0) as [Ec|Ec]; cbn [andb set_writer at_ shared ready clients AsyncLog.count]; (split; [lia|done]).
    - rewrite U1, U2. cbn [Z.eqb set_writer at_ shared ready clients]. split; [destruct m; lia|done].
    - by destruct (U6 m lost).
    - cbn [at_ shared ready clients]. split; [lia|done].
    - rewrite U3. cbn [set_writer at_ shared ready clients]. split; [lia|done].
    - done. }
  unfold log_thread_step. cbn [thread_apply]. destruct (blocked c None).
  - destruct H as [-> ->]. by destruct c.
  - destruct H as [Hw Hcl]. assert (trial_work {| log := writer_step (log c) false false; producers := producers c; acks := acks c; received := received c; failed := failed c |} < trial_work c)%nat as H.
    { unfold trial_work, weight. cbn [log producers]. rewrite Hcl. lia. }
    destruct (sink_call (log c)); [by rewrite callback_work|done].
Qed.

Lemma forallb_false {A} (f : A -> bool) l : forallb f l = false -> exists i x, l !! i = Some x /\ f x = false.
Proof.
  induction l as [|x l IH]; [done|]. simpl. destruct (f x) eqn:E; [|by exists 0%nat, x].
  intros H. destruct (IH H) as (i & y & Hy & Hf). by exists (S i), y.
Qed.

Lemma apply_clients t o : length (clients (thread_apply t o)) = length (clients t).
Proof.
  destruct o as [i m|i|i a|late throws]; cbn [thread_apply].
  - destruct (clients t !! i) as [[]|]; try done. cbn [set_client clients]. apply length_insert.
  - destruct (clients t !! i) as [[]|]; try done. cbn [set_client clients]. apply length_insert.
  - unfold client_step, enqueue. destruct (clients t !! i) as [[]|]; try done; [destruct (_ || _)|destruct (write _ _ _)|..]; cbn [set_client clients]; apply length_insert.
  - unfold writer_step. destruct (at_ t) as [| |m|m lost|[m|]|]; try done; [by destruct (ready t)| |by destruct throws..].
    destruct (_ && _); [done|]. by destruct (take_message _).
Qed.

Lemma step_clients c who : length (clients (log (trial_step c who))) = length (clients (log c)).
Proof.
  destruct who as [i|]; cbn [trial_step].
  - unfold producer_step. destruct (producers c !! i) as [p|]; [|done]. destruct (point p).
    + destruct (_ <? _)%nat; [|done]. unfold with_producer. cbn [log]. apply apply_clients.
    + destruct (clients (log c) !! i) as [[| | | |[[]|]]|]; unfold with_producer; cbn [log]; apply apply_clients.
    + by destruct (default _ _).
    + done.
  - unfold log_thread_step, callback. destruct (sink_call _); [destruct (_ && _)|]; cbn [log]; apply apply_clients.
Qed.

Lemma run_clients schedule : length (clients (log (trial_run schedule))) = kProducers.
Proof.
  unfold trial_run. change kProducers with (length (clients (log trial_start))). generalize trial_start.
  induction schedule as [|who schedule IH]; intros c; [done|]. simpl. by rewrite IH, step_clients.
Qed.

(** A producer about to set the event is not blocked, and with nobody in
    [log.write] the sleeping writer has seen everything. *)
Lemma all_blocked c ids : trial_ok ids c -> length (clients (log c)) = kProducers ->
  (forall i, blocked c (Some i) = true) -> blocked c None = true -> ids = [].
Proof.
  intros ((_ & Hw & _) & (_ & _ & _ & _ & Hr & _) & _ & _ & Hq & Hl & _ & Hp) Hlc Hb Hn.
  unfold blocked in Hn. unfold wake_ok in Hw. destruct (at_ (log c)) eqn:E; try done. apply negb_true_iff in Hn.
  assert (contents (log c) = []) as Hc; [|rewrite Hq in Hc; by destruct ids].
  unfold contents, in_hand. rewrite E. cbn [app]. destruct Hw as [[Hw|(i & r & Hw)]|[Hw _]]; [congruence| |unfold queued; by rewrite Hw].
  exfalso. specialize (Hb i). unfold blocked in Hb. pose proof (lookup_lt_Some _ _ _ Hw) as Hi.
  destruct (lookup_lt_is_Some_2 (producers c) i) as [p Ep]; [by rewrite Hl, <- Hlc|]. rewrite Ep in Hb.
  destruct (Hp i p Ep) as (_ & k & a & Hk & _ & _ & Hst). rewrite Hw in Hk. injection Hk as <-. unfold stage in Hst.
  destruct (point p); try done; destruct r as [[]|]; done.
Qed.

(** While somebody has not returned, somebody can move. *)
Lemma not_stuck c ids : trial_ok ids c -> length (clients (log c)) = kProducers -> all_joined c = false -> exists who, blocked c who = false.
Proof.
  intros Hc Hlc Hj. pose proof Hc as (_ & _ & _ & _ & _ & Hl & _ & Hp). unfold all_joined in Hj.
  destruct (forallb_false _ _ Hj) as (i & p & E & Hpt). destruct (blocked c (Some i)) eqn:Eb; [|by exists (Some i)].
  destruct (blocked c None) eqn:En; [|by exists None].
  destruct (decide (Exists (fun i => blocked c (Some i) = false) (seq 0 kProducers))) as [Hx|Hx]; [apply list.Exists_exists in Hx as (j & _ & Hx); by exists (Some j)|].
  apply not_Exists_Forall in Hx; [|solve_decision]. rewrite list.Forall_forall in Hx. exfalso.
  assert (ids = []) as ->.
  { apply (all_blocked c ids Hc Hlc); [|done]. intros j. destruct (blocked c (Some j)) eqn:Ej; [done|]. destruct (Hx j); [|done].
    apply elem_of_seq. unfold blocked in Ej. destruct (producers c !! j) eqn:Ep; [|done]. apply lookup_lt_Some in Ep. lia. }
  destruct (Hp i p E) as (_ & k & a & Hk & Ha & _ & Hst). unfold blocked in Eb. rewrite E, Ha in Eb. unfold stage in Hst.
  destruct (point p); try done; [by rewrite Eb in Hpt|]. destruct k; try done. destruct Hst as [_ Ho]. destruct a; [done|].
  by apply (not_elem_of_nil i), Ho.
Qed.

Lemma joined_verdict c ids : trial_ok ids c -> length (received c) = kProducers -> all_joined c = true -> trial_verdict c = true.
Proof.
  intros (_ & (U1 & _) & _ & _ & _ & Hl & Hf & Hp) Hlr Hj. unfold trial_verdict. rewrite Hf, U1. cbn [negb andb Z.eqb].
  apply forallb_forall. intros n Hn%list_elem_of_In. apply list_elem_of_lookup in Hn as [i Hn]. pose proof (lookup_lt_Some _ _ _ Hn) as Hi.
  destruct (lookup_lt_is_Some_2 (producers c) i) as [p E]; [by rewrite Hl, <- Hlr|]. destruct (Hp i p E) as (Hs & k & a & _ & _ & Hr & Hst).
  rewrite Hn in Hr. injection Hr as ->. unfold all_joined in Hj. rewrite forallb_forall in Hj.
  specialize (Hj p (proj1 (list_elem_of_In _ _) (list_elem_of_lookup_2 _ _ _ E))). cbn beta in Hj. unfold stage in Hst. destruct (point p); try done.
  destruct k; try done. destruct Hst as [-> _]. apply Nat.leb_le in Hj. apply Nat.eqb_eq. lia.
Qed.

Lemma run_received schedule : length (received (trial_run schedule)) = kProducers.
Proof.
  unfold trial_run. change kProducers with (length (received trial_start)). generalize trial_start.
  induction schedule as [|who schedule IH]; intros c; [done|]. simpl. rewrite IH. destruct who as [i|]; cbn [trial_step].
  - unfold producer_step. destruct (producers c !! i) as [p|]; [|done]. destruct (point p); [by destruct (_ <? _)%nat| |by destruct (default _ _)|done].
    by destruct (clients (log c) !! i) as [[| | | |[[]|]]|].
  - unfold log_thread_step, callback. destruct (sink_call _); [destruct (_ && _)|]; cbn [received]; rewrite ?length_alter; done.
Qed.

(** The log under contention: in every interleaving of the eight producers and the
    writer thread nobody loses a message or a wake-up.  When all have returned the
    test passes; before that somebody can always move; and a schedule has at most
    15360 moves, a blocked thread's turn changing nothing. *)
Theorem log_contention_ends schedule :
  let c := trial_run schedule in
  (all_joined c = true -> trial_verdict c = true) /\
  (all_joined c = false -> exists who, blocked c who = false) /\
  (forall who, if blocked c who then trial_step c who = c else (trial_work (trial_step c who) < trial_work c)%nat) /\
  Z.of_nat (trial_work c) <= 15360.
Proof.
  intros c. destruct (trial_run_ok schedule) as [ids Hc]. fold c in Hc.
  assert (forall c ids who, trial_ok ids c -> if blocked c who then trial_step c who = c else (trial_work (trial_step c who) < trial_work c)%nat) as Hstep.
  { intros c0 ids0 [i|] H; [by apply (producer_progress c0 ids0)|by apply (writer_progress c0 ids0)]. }
  split; [|split; [|split]].
  - by apply (joined_verdict c ids), run_received.
  - by apply (not_stuck c ids), run_clients.
  - intros who. by apply (Hstep c ids).
  - clear Hc ids. subst c. induction schedule as [|who schedule IH] using rev_ind; [by vm_compute|].
    destruct (trial_run_ok schedule) as [ids Hc]. unfold trial_run in *. rewrite foldl_snoc. specialize (Hstep _ ids who Hc).
    destruct (blocked _ who); [by rewrite Hstep|]. lia.
Qed.
