(* ===== verification/Images.v ===== *)
(** * Images: from process identifiers to image paths

    Models [src/src/native/dns-image-resolver.h]: the consumer of query events
    asks for the image path of a process, a small pool of workers resolves it,
    and a bounded least-recently-used cache keeps what was learned.  Resolution
    may be slow, so the consumer waits a bounded time; a process is identified
    by its identifier and creation time, so a reused identifier cannot answer
    for an earlier process. *)
From S2P Require Import Prelude.

Definition kWorkers : nat := 4.
Definition kSlots : nat := 16.
Definition kCacheEntries : nat := 2048.
Definition kWaitMilliseconds : Z := 150.

(** [struct Key]: process identifier and creation time. *)
Abbreviation Key := (Z * Z)%type.

Inductive Status := Known | Pending | Unavailable.
Record Result := { path : list Z; status : Status }.

Inductive Phase := Empty | Queued | Running | Done.
#[export] Instance phase_eq_dec : EqDecision Phase.
Proof. solve_decision. Defined.

Record Job := { job_key : Key; phase : Phase; submitted : Z; started : Z; job_path : list Z }.
Record Cached := { result : Result; expires : Z }.

(** The slots, the consumer's cache with its recency list, which slot each
    worker resolves, and the resolutions made so far. *)
Record pool := {
  jobs : list Job; cache : gmap Key Cached; recent : list Key; busy : list (option nat); resolved : list (Key * list Z)
}.

Definition empty_job : Job := {| job_key := (0, 0); phase := Empty; submitted := 0; started := 0; job_path := [] |}.

Definition new_pool : pool :=
  {| jobs := replicate kSlots empty_job; cache := ∅; recent := []; busy := replicate kWorkers None; resolved := [] |}.

Definition set_jobs s j := {| jobs := j; cache := cache s; recent := recent s; busy := busy s; resolved := resolved s |}.
Definition set_cache s c r := {| jobs := jobs s; cache := c; recent := r; busy := busy s; resolved := resolved s |}.

(** ** The cache *)

Definition cached (s : pool) (key : Key) (now : Z) : option Result * pool :=
  match cache s !! key with
  | None => (None, s)
  | Some found =>
      if negb (expires found =? 0) && (expires found <=? now)
      then (None, set_cache s (delete key (cache s)) (filter (fun k => k <> key) (recent s)))
      else (Some (result found), set_cache s (cache s) (key :: filter (fun k => k <> key) (recent s)))
  end.

(** One slot of [harvest]; [tick] is the time its expiry is counted from. *)
Definition harvest_job (tick : Z) (cr : gmap Key Cached * list Key) (job : Job) : gmap Key Cached * list Key :=
  if negb (bool_decide (phase job = Done)) then cr
  else
    let '(c, r) := cr in
    let '(c, r) := if (kCacheEntries <=? size c)%nat
                   then (match List.last (map Some r) None with Some k => delete k c | None => c end, removelast r) else (c, r) in
    let '(c, r) := match c !! job_key job with
                   | Some _ => (delete (job_key job) c, filter (fun k => k <> job_key job) r)
                   | None => (c, r)
                   end in
    let known := negb (bool_decide (job_path job = [])) in
    (<[job_key job := {| result := {| path := job_path job; status := if known then Known else Unavailable |};
                         expires := if known then 0 else u64 (tick + 1000) |}]> c,
     job_key job :: r).

Definition emptied (job : Job) : Job :=
  if bool_decide (phase job = Done)
  then {| job_key := job_key job; phase := Empty; submitted := submitted job; started := started job; job_path := [] |}
  else job.

Definition harvest (s : pool) (tick : Z) : pool :=
  let '(c, r) := foldl (harvest_job tick) (cache s, recent s) (jobs s) in
  {| jobs := map emptied (jobs s); cache := c; recent := r; busy := busy s; resolved := resolved s |}.

(** ** Asking *)

(** The first slot that satisfies [f]. *)
Definition first_job (f : Job -> bool) (l : list Job) : option nat := fst <$> list_find (fun j => f j = true) l.

Definition running (j : Job) : bool := bool_decide (phase j = Running).
Definition overdue (now wait : Z) (j : Job) : bool :=
  running j && (started j <=? now) && (wait <=? u64 (now - started j)).
Definition count_jobs (f : Job -> bool) (l : list Job) : nat := length (filter (fun j => f j = true) l).

(** [identifyPinned] up to its wait: an answer, or the slot it waits for. *)
Definition identify_begin (s : pool) (key : Key) (stopping : bool) (now tick wait : Z) : option Result * option nat * pool :=
  if stopping then (Some {| path := []; status := Unavailable |}, None, s)
  else
    let s := harvest s tick in
    let '(hit, s) := cached s key now in
    match hit with
    | Some r => (Some r, None, s)
    | None =>
        match first_job (fun j => negb (bool_decide (phase j = Empty)) && bool_decide (job_key j = key)) (jobs s) with
        | Some i => (None, Some i, s)
        | None =>
            let pending := {| path := []; status := Pending |} in
            if (count_jobs running (jobs s) =? kWorkers)%nat && (count_jobs (overdue now wait) (jobs s) =? kWorkers)%nat
            then (Some pending, None, s)
            else match first_job (fun j => bool_decide (phase j = Empty)) (jobs s) with
                 | None => (Some pending, None, s)
                 | Some i => (None, Some i, set_jobs s (<[i := {| job_key := key; phase := Queued; submitted := now;
                                 started := started (nth i (jobs s) empty_job); job_path := job_path (nth i (jobs s) empty_job) |}]> (jobs s)))
                 end
        end
    end.

(** After the wait. *)
Definition identify_end (s : pool) (key : Key) (stopping : bool) (now tick : Z) : Result * pool :=
  if stopping then ({| path := []; status := Unavailable |}, s)
  else
    let '(hit, s) := cached (harvest s tick) key now in
    (default {| path := []; status := Pending |} hit, s).

(** ** The wait allowance *)

(** The window of a second and what was waited in it, in nanoseconds. *)
Record budget := { windowStarted : Z; waited : Z }.
Definition ms (n : Z) : Z := n * 1000000.

(** The allowance in milliseconds at [before], [elapsed] milliseconds after the
    job was submitted. *)
Definition window (b : budget) (before : Z) : budget :=
  if ms 1000 <=? before - windowStarted b then {| windowStarted := before; waited := 0 |} else b.
Definition allowance (b : budget) (wait elapsed : Z) : Z :=
  let available := ms wait - waited b in
  if (elapsed <? wait) && (0 <? available) then Z.min (wait - elapsed) (available / ms 1) else 0.

(** One wait that took [took] nanoseconds. *)
Definition wait_step (b : budget) (wait before elapsed took : Z) : budget :=
  let b := window b before in
  if allowance b wait elapsed =? 0 then b else {| windowStarted := windowStarted b; waited := waited b + took |}.

(** ** Workers *)

(** The queued job submitted first; the earlier slot on a tie. *)
Fixpoint oldest_queued (l : list Job) (i : nat) (best : option (nat * Z)) : option nat :=
  match l with
  | [] => fst <$> best
  | j :: l =>
      let better := bool_decide (phase j = Queued) &&
                    match best with None => true | Some (_, t) => submitted j <? t end in
      oldest_queued l (S i) (if better then Some (i, submitted j) else best)
  end.

Definition worker_take (s : pool) (w : nat) (now : Z) : pool :=
  match busy s !! w, oldest_queued (jobs s) 0 None with
  | Some None, Some i =>
      let j := nth i (jobs s) empty_job in
      {| jobs := <[i := {| job_key := job_key j; phase := Running; submitted := submitted j; started := now; job_path := job_path j |}]> (jobs s);
         cache := cache s; recent := recent s; busy := <[w := Some i]> (busy s); resolved := resolved s |}
  | _, _ => s
  end.

(** The worker's resolution of the process it holds returned [p]. *)
Definition worker_finish (s : pool) (w : nat) (p : list Z) : pool :=
  match busy s !! w with
  | Some (Some i) =>
      let j := nth i (jobs s) empty_job in
      {| jobs := <[i := {| job_key := job_key j; phase := Done; submitted := submitted j; started := started j; job_path := p |}]> (jobs s);
         cache := cache s; recent := recent s; busy := <[w := None]> (busy s); resolved := (job_key j, p) :: resolved s |}
  | _ => s
  end.

Inductive step : pool -> pool -> Prop :=
| step_begin s key stopping now tick wait : step s (identify_begin s key stopping now tick wait).2
| step_end s key stopping now tick : step s (identify_end s key stopping now tick).2
| step_take s w now : step s (worker_take s w now)
| step_finish s w p : step s (worker_finish s w p).

(** ** The cache invariant *)

(** The recency list names exactly the cached keys, once each. *)
Definition cache_ok (cr : gmap Key Cached * list Key) : Prop :=
  NoDup cr.2 /\ (forall k, k ∈ cr.2 <-> is_Some (cr.1 !! k)) /\ (size cr.1 <= kCacheEntries)%nat.

(** A known path was resolved from the process with that key; an unavailable
    one is empty, and nothing pending is cached. *)
Definition genuine (log : list (Key * list Z)) (k : Key) (r : Result) : Prop :=
  match status r with
  | Known => path r <> [] /\ (k, path r) ∈ log
  | Unavailable => path r = []
  | Pending => False
  end.

Definition sound (log : list (Key * list Z)) (c : gmap Key Cached) : Prop :=
  forall k e, c !! k = Some e -> genuine log k (result e).

Lemma sound_delete log c k : sound log c -> sound log (delete k c).
Proof. intros H k' e [_ E]%lookup_delete_Some. by eapply H. Qed.

Lemma sound_insert log c k e : sound log c -> genuine log k (result e) -> sound log (<[k := e]> c).
Proof. intros H Hg k' e' [[<- <-]|[_ E]]%lookup_insert_Some; [done|by eapply H]. Qed.

Lemma cache_remove c r k :
  cache_ok (c, r) -> cache_ok (delete k c, filter (fun k' => k' <> k) r).
Proof.
  intros (Hn & Hm & Hs). simpl in *. split; [by apply list.NoDup_filter|]. split.
  - intros k'. simpl. rewrite list_elem_of_filter, Hm, lookup_delete_is_Some. naive_solver.
  - simpl. rewrite map_size_delete. destruct (c !! k); simpl; lia.
Qed.

Lemma cache_add c r k e :
  cache_ok (c, r) -> c !! k = None -> (size c < kCacheEntries)%nat -> cache_ok (<[k := e]> c, k :: r).
Proof.
  intros (Hn & Hm & Hs) Hk Hlt. simpl in *. split; [|split]; simpl.
  - constructor; [|done]. rewrite Hm, Hk. by intros [? ?].
  - intros k'. rewrite elem_of_cons, Hm, lookup_insert_is_Some. destruct (decide (k = k')); naive_solver.
  - rewrite map_size_insert_None by done. lia.
Qed.

(** Dropping the least recently used entry makes room. *)
Lemma cache_evict c r :
  cache_ok (c, r) -> (kCacheEntries <= size c)%nat ->
  exists k, List.last (map Some r) None = Some k /\ cache_ok (delete k c, removelast r) /\ (size (delete k c) < kCacheEntries)%nat.
Proof.
  intros (Hn & Hm & Hs) Hf. simpl in *. destruct (decide (r = [])) as [->|Hr].
  { exfalso. assert (size c = 0%nat) as H0; [|unfold kCacheEntries in *; lia].
    apply map_size_empty_iff. apply map_empty. intros i. destruct (c !! i) eqn:E; [|done].
    assert (i ∈ []) as Hi by (apply Hm; by eexists). by apply elem_of_nil in Hi. }
  destruct (exists_last Hr) as (r' & k & ->). exists k. rewrite map_app. cbn [map]. rewrite last_last. split; [done|]. rewrite removelast_last.
  apply list.NoDup_app in Hn as (Hn' & Hd & _).
  assert (is_Some (c !! k)) as [e He] by (apply Hm; apply elem_of_app; right; by left).
  assert (size (delete k c) = (size c - 1)%nat) as Hsz by (rewrite map_size_delete, He; simpl; lia).
  split; [|unfold kCacheEntries in *; lia]. split; [done|]. simpl. split; [|lia].
  intros k'. rewrite lookup_delete_is_Some, <- Hm, elem_of_app, list_elem_of_singleton.
  split; [|naive_solver]. intros Hk'. split; [|by left]. intros ->. apply (Hd k' Hk'). by left.
Qed.

Lemma harvest_job_ok log tick cr job :
  cache_ok cr -> sound log cr.1 -> (phase job = Done -> (job_key job, job_path job) ∈ log) ->
  cache_ok (harvest_job tick cr job) /\ sound log (harvest_job tick cr job).1.
Proof.
  destruct cr as [c r]. intros Hc Hs Hj. unfold harvest_job. case_bool_decide as Hp; cbn [negb]; [|done]. specialize (Hj Hp).
  set (cr1 := if (kCacheEntries <=? size c)%nat then _ else _).
  assert (cache_ok cr1 /\ sound log cr1.1 /\ (size cr1.1 < kCacheEntries)%nat) as (Hc1 & Hs1 & Hz1).
  { unfold cr1. destruct (kCacheEntries <=? size c)%nat eqn:E; bool_to_prop; [|done].
    destruct (cache_evict c r Hc E) as (k & -> & H1 & H2). split; [done|]. split; [by apply sound_delete|done]. }
  destruct cr1 as [c1 r1]. simpl in Hs1, Hz1.
  set (cr2 := match c1 !! job_key job with Some _ => _ | None => _ end).
  assert (cache_ok cr2 /\ sound log cr2.1 /\ (size cr2.1 < kCacheEntries)%nat /\ cr2.1 !! job_key job = None) as (Hc2 & Hs2 & Hz2 & Hn2).
  { unfold cr2. destruct (c1 !! job_key job) eqn:E; simpl; [|done]. split; [by apply cache_remove|].
    split; [by apply sound_delete|]. split; [rewrite map_size_delete, E; simpl; lia|apply lookup_delete_eq]. }
  destruct cr2 as [c2 r2]. simpl in *. split; [by apply cache_add|]. apply sound_insert; [done|].
  unfold genuine. simpl. case_bool_decide; simpl; done.
Qed.

Lemma harvest_ok log tick l cr :
  cache_ok cr -> sound log cr.1 -> (forall j, j ∈ l -> phase j = Done -> (job_key j, job_path j) ∈ log) ->
  cache_ok (foldl (harvest_job tick) cr l) /\ sound log (foldl (harvest_job tick) cr l).1.
Proof.
  revert cr. induction l as [|j l IH]; intros cr Hc Hs Hj; [done|]. simpl.
  destruct (harvest_job_ok log tick cr j Hc Hs) as [Hc' Hs']; [apply Hj; by left|].
  apply IH; [done|done|]. intros j' Hj'. apply Hj. by right.
Qed.

(** ** The pool invariant *)

Definition live (j : Job) : Prop := phase j <> Empty.

Definition jobs_ok (s : pool) : Prop :=
  length (jobs s) = kSlots /\
  (forall i j, jobs s !! i = Some j -> phase j = Done -> (job_key j, job_path j) ∈ resolved s) /\
  (forall i i' j j', jobs s !! i = Some j -> jobs s !! i' = Some j' -> live j -> live j' -> job_key j = job_key j' -> i = i').

Definition busy_ok (s : pool) : Prop :=
  length (busy s) = kWorkers /\
  (forall w i, busy s !! w = Some (Some i) -> exists j, jobs s !! i = Some j /\ phase j = Running) /\
  (forall w w' i, busy s !! w = Some (Some i) -> busy s !! w' = Some (Some i) -> w = w') /\
  (forall i j, jobs s !! i = Some j -> phase j = Running -> exists w, busy s !! w = Some (Some i)).

Definition pool_ok (s : pool) : Prop :=
  cache_ok (cache s, recent s) /\ sound (resolved s) (cache s) /\ jobs_ok s /\ busy_ok s.

Lemma new_pool_ok : pool_ok new_pool.
Proof.
  split; [|split; [|split]].
  - split; [constructor|]. split; [|simpl; unfold kCacheEntries; rewrite map_size_empty; lia].
    intros k. simpl. rewrite lookup_empty. split; [by intros ?%elem_of_nil|by intros [? ?]].
  - intros k e. unfold new_pool. cbn [cache]. by rewrite lookup_empty.
  - split; [done|]. split; intros i; intros; repeat match goal with H : _ !! _ = Some _ |- _ => apply lookup_replicate in H as [-> _] end; done.
  - split; [done|]. split; [|split]; intros; repeat match goal with H : _ !! _ = Some _ |- _ => apply lookup_replicate in H as [? ?] end; try done.
    subst. done.
Qed.

Lemma cached_ok s key now : pool_ok s ->
  pool_ok (cached s key now).2 /\ jobs (cached s key now).2 = jobs s /\ resolved (cached s key now).2 = resolved s /\
  (forall r, (cached s key now).1 = Some r -> genuine (resolved s) key r).
Proof.
  intros (Hc & Hs & Hj & Hb). unfold cached. destruct (cache s !! key) as [e|] eqn:E; [|done].
  destruct (_ && _); simpl.
  - split; [|done]. split; [by apply cache_remove|]. split; [by apply sound_delete|done].
  - split; [|split; [done|split; [done|intros r [= <-]; by apply (Hs key)]]].
    split; [|done]. destruct Hc as (Hn & Hm & Hz). simpl in *. split; [|split; [|done]]; simpl.
    + constructor; [|by apply list.NoDup_filter]. rewrite list_elem_of_filter. tauto.
    + intros k. rewrite elem_of_cons, list_elem_of_filter, Hm. destruct (decide (k = key)) as [->|]; [|naive_solver].
      split; [by intros _; rewrite E|by left].
Qed.

Lemma emptied_lookup l i j :
  map emptied l !! i = Some j -> exists j0, l !! i = Some j0 /\ j = emptied j0.
Proof. intros H. apply list_lookup_fmap_Some in H as (j0 & -> & H0). by exists j0. Qed.

Lemma harvest_pool_ok s tick : pool_ok s -> pool_ok (harvest s tick) /\ resolved (harvest s tick) = resolved s.
Proof.
  intros (Hc & Hs & (Hl & Hd & Hu) & (Hbl & Hb1 & Hb2 & Hb3)). unfold harvest.
  destruct (harvest_ok (resolved s) tick (jobs s) (cache s, recent s) Hc Hs) as [Hc' Hs'].
  { intros j Hj. apply list_elem_of_lookup in Hj as [i Hi]. by eapply Hd. }
  destruct (foldl (harvest_job tick) _ _) as [c r]. simpl in *. split; [|done].
  assert (forall i j, map emptied (jobs s) !! i = Some j -> phase j <> Empty -> phase j <> Done /\ jobs s !! i = Some j) as He.
  { intros i j H Hp. apply emptied_lookup in H as (j0 & H0 & ->). revert Hp. unfold emptied. case_bool_decide; simpl; done. }
  split; [done|]. split; [done|]. split.
  - split; [simpl; by rewrite length_map|]. split.
    + intros i j H Hp. destruct (He i j H) as [? ?]; [by rewrite Hp|done].
    + intros i i' j j' H H' Hv Hv'. destruct (He i j H Hv) as [_ ?]. destruct (He i' j' H' Hv') as [_ ?]. by eapply Hu.
  - split; [done|]. split; [|split; [done|]].
    + intros w i H. destruct (Hb1 w i H) as (j & Hj & Hp). exists j. split; [|done]. simpl.
      apply list_lookup_fmap_Some. exists j. split; [|done]. unfold emptied. by rewrite bool_decide_false by (by rewrite Hp).
    + intros i j H Hp. destruct (He i j H) as [_ ?]; [by rewrite Hp|]. by eapply Hb3.
Qed.

Lemma first_job_spec f l i : first_job f l = Some i -> exists j, l !! i = Some j /\ f j = true.
Proof.
  unfold first_job. destruct (list_find _ l) as [[i' j]|] eqn:E; [|done]. intros [= <-].
  apply list_find_Some in E as (? & ? & _). by exists j.
Qed.

Lemma first_job_none f l : first_job f l = None -> forall j, j ∈ l -> f j = false.
Proof.
  unfold first_job. destruct (list_find _ l) as [[i' j]|] eqn:E; [done|]. intros _ j Hj.
  apply list_find_None in E. rewrite list.Forall_forall in E. specialize (E j Hj). by destruct (f j).
Qed.

(** A slot that is free takes a job for a key no other slot has. *)
Lemma submit_ok s key now i j0 :
  pool_ok s -> jobs s !! i = Some j0 -> phase j0 = Empty ->
  (forall j, j ∈ jobs s -> live j -> job_key j <> key) ->
  pool_ok (set_jobs s (<[i := {| job_key := key; phase := Queued; submitted := now; started := started j0; job_path := job_path j0 |}]> (jobs s))).
Proof.
  intros (Hc & Hs & (Hl & Hd & Hu) & (Hbl & Hb1 & Hb2 & Hb3)) Hi Hp Hfree. split; [done|]. split; [done|].
  assert (i < length (jobs s))%nat as Hlt by (by eapply lookup_lt_Some). set (nj := {| job_key := key |}).
  assert (forall i', i' <> i -> <[i := nj]> (jobs s) !! i' = jobs s !! i') as Hne by (intros; by rewrite list_lookup_insert_ne).
  assert (<[i := nj]> (jobs s) !! i = Some nj) as Heq by (by apply list_lookup_insert_eq).
  split; [split; [simpl; by rewrite length_insert|split]|split; [done|split; [|split; [done|]]]]; simpl.
  - intros i' j H Hd'. destruct (decide (i' = i)) as [->|Hn]; [rewrite Heq in H; simplify_eq; done|]. rewrite Hne in H by done. by eapply Hd.
  - intros i1 i2 j1 j2 H1 H2 V1 V2 Hk. destruct (decide (i1 = i)) as [->|N1], (decide (i2 = i)) as [->|N2]; [done| | |].
    + rewrite Heq in H1. rewrite Hne in H2 by done. simplify_eq. exfalso. by eapply (Hfree j2); [eapply list_elem_of_lookup_2|..].
    + rewrite Heq in H2. rewrite Hne in H1 by done. simplify_eq. exfalso. by eapply (Hfree j1); [eapply list_elem_of_lookup_2|..].
    + rewrite Hne in H1, H2 by done. by eapply Hu.
  - intros w i' H. destruct (Hb1 w i' H) as (j & Hj & Hr). destruct (decide (i' = i)) as [->|Hn].
    + rewrite Hi in Hj. simplify_eq. by rewrite Hp in Hr.
    + exists j. by rewrite Hne.
  - intros i' j H Hr. destruct (decide (i' = i)) as [->|Hn]; [rewrite Heq in H; simplify_eq; done|]. rewrite Hne in H by done. by eapply Hb3.
Qed.

Lemma identify_begin_ok s key stopping now tick wait : pool_ok s ->
  pool_ok (identify_begin s key stopping now tick wait).2 /\
  resolved (identify_begin s key stopping now tick wait).2 = resolved s /\
  (forall r, (identify_begin s key stopping now tick wait).1.1 = Some r -> status r = Known ->
     path r <> [] /\ (key, path r) ∈ resolved s).
Proof.
  intros Hok. unfold identify_begin. destruct stopping; [simpl; split; [done|]; split; [done|]; by intros r [= <-]|].
  destruct (harvest_pool_ok s tick Hok) as [H1 R1]. destruct (cached_ok (harvest s tick) key now H1) as (H2 & J2 & R2 & G2).
  destruct (cached (harvest s tick) key now) as [hit s2]. simpl in *. rewrite R1 in *.
  destruct hit as [r|].
  { simpl. split; [done|]. split; [done|]. intros r' [= <-] Hk. specialize (G2 r eq_refl). unfold genuine in G2. by rewrite Hk in G2. }
  destruct (first_job (fun j => _ && _) (jobs s2)) as [i|] eqn:Ef; [done|].
  destruct (_ && _); [simpl; split; [done|]; split; [done|]; by intros r [= <-]|].
  destruct (first_job (fun j => bool_decide (phase j = Empty)) (jobs s2)) as [i|] eqn:Ee; simpl;
    [|split; [done|]; split; [done|]; by intros r [= <-]].
  split; [|done]. apply first_job_spec in Ee as (j0 & Hj0 & Hp). apply bool_decide_eq_true in Hp.
  rewrite (nth_lookup_Some _ _ _ _ Hj0). apply submit_ok; [done|done|done|].
  intros j Hj Hlive Hk. pose proof (first_job_none _ _ Ef j Hj) as Hn. simpl in Hn.
  rewrite bool_decide_false, bool_decide_true in Hn; done.
Qed.

Lemma identify_end_ok s key stopping now tick : pool_ok s ->
  pool_ok (identify_end s key stopping now tick).2 /\
  (status (identify_end s key stopping now tick).1 = Known ->
     path (identify_end s key stopping now tick).1 <> [] /\ (key, path (identify_end s key stopping now tick).1) ∈ resolved s).
Proof.
  intros Hok. unfold identify_end. destruct stopping; [done|].
  destruct (harvest_pool_ok s tick Hok) as [H1 R1]. destruct (cached_ok (harvest s tick) key now H1) as (H2 & J2 & R2 & G2).
  destruct (cached (harvest s tick) key now) as [hit s2]. simpl in *. rewrite R1 in *. split; [done|].
  destruct hit as [r|]; simpl; [|done]. intros Hk. specialize (G2 r eq_refl). unfold genuine in G2. by rewrite Hk in G2.
Qed.

Lemma oldest_queued_spec l k best i :
  oldest_queued l k best = Some i ->
  (exists t, best = Some (i, t)) \/ (exists j, (k <= i)%nat /\ l !! (i - k)%nat = Some j /\ phase j = Queued).
Proof.
  revert k best. induction l as [|j l IH]; intros k best; simpl.
  { destruct best as [[i' t]|]; [|done]. intros [= ->]. left. by exists t. }
  intros H. apply IH in H as [(t & Hb)|(j' & Hle & Hj & Hp)].
  - destruct (bool_decide (phase j = Queued) && _) eqn:E; [|by left; exists t]. bool_to_prop. injection Hb as <- <-. right. exists j.
    by rewrite Nat.sub_diag.
  - right. exists j'. split; [lia|]. replace (i - k)%nat with (S (i - S k)) by lia. done.
Qed.

(** A worker's slot changes phase without changing its key. *)
Lemma worker_take_ok s w now : pool_ok s -> pool_ok (worker_take s w now) /\ resolved (worker_take s w now) = resolved s.
Proof.
  intros Hok. unfold worker_take. destruct (busy s !! w) as [[?|]|] eqn:Ew; try done.
  destruct (oldest_queued (jobs s) 0 None) as [i|] eqn:Eo; [|done]. simpl. split; [|done].
  destruct Hok as (Hc & Hs & (Hl & Hd & Hu) & (Hbl & Hb1 & Hb2 & Hb3)).
  apply oldest_queued_spec in Eo as [(? & ?)|(j0 & _ & Hj0 & Hp)]; [done|]. rewrite Nat.sub_0_r in Hj0.
  rewrite (nth_lookup_Some _ _ _ _ Hj0). set (nj := {| job_key := _ |}).
  assert (i < length (jobs s))%nat as Hlt by (by eapply lookup_lt_Some).
  assert (w < length (busy s))%nat as Hwl by (by eapply lookup_lt_Some).
  assert (forall i', i' <> i -> <[i := nj]> (jobs s) !! i' = jobs s !! i') as Hne by (intros; by rewrite list_lookup_insert_ne).
  assert (<[i := nj]> (jobs s) !! i = Some nj) as Heq by (by apply list_lookup_insert_eq).
  assert (forall w', busy s !! w' <> Some (Some i)) as Hnb.
  { intros w' H. destruct (Hb1 w' i H) as (j & Hj & Hr). rewrite Hj0 in Hj. simplify_eq. by rewrite Hp in Hr. }
  split; [done|]. split; [done|]. split.
  - split; [simpl; by rewrite length_insert|]. simpl. split.
    + intros i' j H Hdn. destruct (decide (i' = i)) as [->|]; [rewrite Heq in H; simplify_eq; done|]. rewrite Hne in H by done. by eapply Hd.
    + intros i1 i2 j1 j2 H1 H2 V1 V2 Hk.
      assert (forall i' j, <[i := nj]> (jobs s) !! i' = Some j -> live j -> exists j', jobs s !! i' = Some j' /\ live j' /\ job_key j' = job_key j) as Hold.
      { intros i' j H V. destruct (decide (i' = i)) as [->|]; [|rewrite Hne in H by done; by exists j].
        rewrite Heq in H. simplify_eq. exists j0. split; [done|]. split; [unfold live; by rewrite Hp|done]. }
      destruct (Hold i1 j1 H1 V1) as (j1' & ? & ? & ?). destruct (Hold i2 j2 H2 V2) as (j2' & ? & ? & ?).
      eapply (Hu i1 i2 j1' j2'); congruence.
  - split; [simpl; by rewrite length_insert|]. simpl. split; [|split].
    + intros w' i' H. destruct (decide (w' = w)) as [->|].
      * rewrite list_lookup_insert_eq in H by done. simplify_eq. by exists nj.
      * rewrite list_lookup_insert_ne in H by done. destruct (Hb1 w' i' H) as (j & Hj & Hr). exists j. split; [|done].
        rewrite Hne; [done|]. intros ->. by apply (Hnb w').
    + intros w1 w2 i' H1 H2. destruct (decide (w1 = w)) as [->|], (decide (w2 = w)) as [->|]; [done| | |].
      * rewrite list_lookup_insert_eq in H1 by done. rewrite list_lookup_insert_ne in H2 by done. simplify_eq. by apply Hnb in H2.
      * rewrite list_lookup_insert_eq in H2 by done. rewrite list_lookup_insert_ne in H1 by done. simplify_eq. by apply Hnb in H1.
      * rewrite list_lookup_insert_ne in H1, H2 by done. by eapply Hb2.
    + intros i' j H Hr. destruct (decide (i' = i)) as [->|]; [exists w; by rewrite list_lookup_insert_eq|].
      rewrite Hne in H by done. destruct (Hb3 i' j H Hr) as [w' Hw']. exists w'. rewrite list_lookup_insert_ne; [done|].
      intros ->. rewrite Ew in Hw'. done.
Qed.

Lemma worker_finish_ok s w p : pool_ok s ->
  pool_ok (worker_finish s w p) /\ (forall x, x ∈ resolved s -> x ∈ resolved (worker_finish s w p)).
Proof.
  intros Hok. unfold worker_finish. destruct (busy s !! w) as [[i|]|] eqn:Ew; try done.
  destruct Hok as (Hc & Hs & (Hl & Hd & Hu) & (Hbl & Hb1 & Hb2 & Hb3)).
  destruct (Hb1 w i Ew) as (j0 & Hj0 & Hp). rewrite (nth_lookup_Some _ _ _ _ Hj0). set (nj := {| job_key := _ |}).
  assert (i < length (jobs s))%nat as Hlt by (by eapply lookup_lt_Some).
  assert (w < length (busy s))%nat as Hwl by (by eapply lookup_lt_Some).
  assert (forall i', i' <> i -> <[i := nj]> (jobs s) !! i' = jobs s !! i') as Hne by (intros; by rewrite list_lookup_insert_ne).
  assert (<[i := nj]> (jobs s) !! i = Some nj) as Heq by (by apply list_lookup_insert_eq).
  split; [|intros x Hx; by right]. split; [done|]. split.
  { intros k e He. specialize (Hs k e He). unfold genuine in *. simpl. destruct (status (result e)); try done.
    destruct Hs as [? ?]. split; [done|by right]. }
  split.
  - split; [simpl; by rewrite length_insert|]. simpl. split.
    + intros i' j H Hdn. destruct (decide (i' = i)) as [->|]; [rewrite Heq in H; simplify_eq; by left|].
      rewrite Hne in H by done. right. by eapply Hd.
    + intros i1 i2 j1 j2 H1 H2 V1 V2 Hk.
      assert (forall i' j, <[i := nj]> (jobs s) !! i' = Some j -> live j -> exists j', jobs s !! i' = Some j' /\ live j' /\ job_key j' = job_key j) as Hold.
      { intros i' j H V. destruct (decide (i' = i)) as [->|]; [|rewrite Hne in H by done; by exists j].
        rewrite Heq in H. simplify_eq. exists j0. split; [done|]. split; [unfold live; by rewrite Hp|done]. }
      destruct (Hold i1 j1 H1 V1) as (j1' & ? & ? & ?). destruct (Hold i2 j2 H2 V2) as (j2' & ? & ? & ?).
      eapply (Hu i1 i2 j1' j2'); congruence.
  - split; [simpl; by rewrite length_insert|]. simpl.
    assert (forall w' i', <[w := None]> (busy s) !! w' = Some (Some i') -> w' <> w /\ busy s !! w' = Some (Some i')) as Hbw.
    { intros w' i' H. destruct (decide (w' = w)) as [->|]; [by rewrite list_lookup_insert_eq in H|].
      by rewrite list_lookup_insert_ne in H. }
    split; [|split].
    + intros w' i' [Hn H]%Hbw. destruct (Hb1 w' i' H) as (j & Hj & Hr). exists j. split; [|done]. rewrite Hne; [done|].
      intros ->. apply Hn. by eapply Hb2.
    + intros w1 w2 i' [_ H1]%Hbw [_ H2]%Hbw. by eapply Hb2.
    + intros i' j H Hr. destruct (decide (i' = i)) as [->|]; [rewrite Heq in H; simplify_eq; done|].
      rewrite Hne in H by done. destruct (Hb3 i' j H Hr) as [w' Hw']. exists w'. rewrite list_lookup_insert_ne; [done|].
      intros ->. congruence.
Qed.

Lemma reachable_ok s : rtc step new_pool s -> pool_ok s.
Proof.
  apply (rtc_ind_r pool_ok); [apply new_pool_ok|]. intros y z _ Hs Hy. destruct Hs.
  - by apply identify_begin_ok.
  - by apply identify_end_ok.
  - by apply worker_take_ok.
  - by apply worker_finish_ok.
Qed.

(** ** Theorems *)


(** Under any interleaving of the consumer and the workers the cache holds at
    most 2048 entries, each listed once in the recency list; no two slots hold
    the same process; and at most four slots are being resolved. *)
Theorem pool_is_bounded s rs :
  rtc step new_pool s -> NoDup rs -> (forall i, i ∈ rs -> exists j, jobs s !! i = Some j /\ phase j = Running) ->
  (size (cache s) <= 2048)%nat /\ NoDup (recent s) /\ (forall k, k ∈ recent s <-> is_Some (cache s !! k)) /\
  length (jobs s) = 16%nat /\
  (forall i i' j j', jobs s !! i = Some j -> jobs s !! i' = Some j' -> live j -> live j' -> job_key j = job_key j' -> i = i') /\
  (length rs <= 4)%nat.
Proof.
  intros ((Hn & Hm & Hz) & _ & (Hl & _ & Hu) & (Hbl & _ & _ & Hb3))%reachable_ok Hnd Hrs.
  split; [done|]. split; [done|]. split; [done|]. split; [done|]. split; [done|].
  change 4%nat with kWorkers. rewrite <- (length_fmap Some rs), <- Hbl. apply submseteq_length, NoDup_submseteq; [by apply (NoDup_fmap_2 Some)|].
  intros x Hx. apply list_elem_of_fmap in Hx as (i & -> & Hi). destruct (Hrs i Hi) as (j & Hj & Hr).
  destruct (Hb3 i j Hj Hr) as [w Hw]. by eapply list_elem_of_lookup_2.
Qed.

(** The waits of a run, each given by when it begins, how long its job has been
    submitted, and how long it took: never longer than its allowance. *)
Fixpoint waits (b : budget) (wait : Z) (steps : list (Z * Z * Z)) : budget :=
  match steps with
  | [] => b
  | (before, elapsed, took) :: steps => waits (wait_step b wait before elapsed took) wait steps
  end.

Fixpoint timely (b : budget) (wait : Z) (steps : list (Z * Z * Z)) : Prop :=
  match steps with
  | [] => True
  | (before, elapsed, took) :: steps =>
      0 <= took <= ms (allowance (window b before) wait elapsed) /\ timely (wait_step b wait before elapsed took) wait steps
  end.

Lemma wait_step_bound b wait before elapsed took :
  0 <= wait -> 0 <= waited b <= ms wait -> 0 <= took <= ms (allowance (window b before) wait elapsed) ->
  0 <= waited (wait_step b wait before elapsed took) <= ms wait.
Proof.
  intros Hw Hb Ht. unfold wait_step. set (b' := window b before) in *.
  assert (0 <= waited b' <= ms wait) as Hb' by (unfold b', window; destruct (_ <=? _); [simpl; unfold ms; lia|done]).
  destruct (allowance b' wait elapsed =? 0) eqn:E; [done|]. simpl. unfold allowance, ms in *. bool_to_prop.
  destruct (_ && _); [|lia]. pose proof (Z.mul_div_le (wait * 1000000 - waited b') (1 * 1000000)). lia.
Qed.

(** However many processes the consumer asks for, it waits at most [wait]
    milliseconds in all within one window of a second, the allowance being
    shared by all of them. *)
Theorem waits_within_allowance b wait steps :
  0 <= wait -> 0 <= waited b <= ms wait -> timely b wait steps -> waited (waits b wait steps) <= ms wait.
Proof.
  intros Hw Hb Ht. revert b Hb Ht. induction steps as [|[[before elapsed] took] steps IH]; intros b Hb; simpl; [lia|].
  intros [Ht Hts]. apply IH; [by apply wait_step_bound|done].
Qed.

Lemma waits_within_allowance_witness :
  waited (waits {| windowStarted := 0; waited := 0 |} 150 [(5, 0, ms 100); (ms 200, 0, ms 50); (ms 300, 0, 0)]) <= ms 150.
Proof. apply waits_within_allowance; [lia|simpl; unfold ms; lia|]. vm_compute. repeat split; congruence. Defined.

(** A process is asked for, resolved by a worker, and found. *)
Definition asked : pool := (identify_begin new_pool (42, 7) false 1000 1000 150).2.
Definition working : pool := worker_take asked 0 1001.
Definition answered : pool := worker_finish working 0 (str "C:\app.exe").

Lemma answered_reached : rtc step new_pool answered.
Proof.
  eapply rtc_l; [apply (step_begin new_pool (42, 7) false 1000 1000 150)|].
  eapply rtc_l; [apply (step_take asked 0 1001)|]. apply rtc_once. apply (step_finish working).
Qed.


Lemma working_reached : rtc step new_pool working.
Proof.
  eapply rtc_l; [apply (step_begin new_pool (42, 7) false 1000 1000 150)|]. apply rtc_once. apply (step_take asked 0 1001).
Qed.

Lemma pool_is_bounded_witness :
  (size (cache working) <= 2048)%nat /\ NoDup (recent working) /\ (forall k, k ∈ recent working <-> is_Some (cache working !! k)) /\
  length (jobs working) = 16%nat /\
  (forall i i' j j', jobs working !! i = Some j -> jobs working !! i' = Some j' -> live j -> live j' -> job_key j = job_key j' -> i = i') /\
  (length [0%nat] <= 4)%nat.
Proof.
  apply (pool_is_bounded working [0%nat]); [apply working_reached|apply NoDup_singleton|].
  intros i Hi. apply list_elem_of_singleton in Hi as ->. eexists. split; [by vm_compute|done].
Defined.
