(* ===== verification/HintEvents.v ===== *)
(** * HintEvents: one query event, from the process to the evidence

    Models [Hints::add] of [src/src/native/dns-attribution.h] and [onEvent] of
    [dns-dispatcher.cpp]: the process of an event is identified by the image
    resolver ([Images]), its path decides the evidence ([Attribution]), and the
    event is logged with the decision.  An event that cannot be processed stops
    the component. *)
From S2P Require Import Prelude Images Numbers DnsWire Attribution.

(** What [add] reports: its measurements are arguments. *)
Record hint_event := { ev_name : list Z; ev_type : Z; ev_pid : Z; ev_qpc : Z; ev_delivery : Z; ev_id : Z; ev_elapsed : Z }.

Definition signed (n : Z) : list Z := if n <? 0 then 45 :: to_string (- n) else to_string n.

Definition status_text (s : Images.Status) : list Z :=
  match s with Images.Known => str "known" | Images.Pending => str "pending" | Images.Unavailable => str "none" end.

Section Events.
Context {W : WideChars}.

Definition hint_line (e : hint_event) (selected : bool) (status : Images.Status) (path : list Z) : list Z :=
  str "HINT " ++ normalizeName (ev_name e) ++ str " type=" ++ to_string (ev_type e) ++ str " pid=" ++ to_string (ev_pid e) ++
  str " selected=" ++ (if selected then str "1" else str "0") ++ str " delivery=" ++ signed (ev_delivery e) ++ str "ms event=" ++
  to_string (ev_id e) ++ str " event-qpc=" ++ signed (ev_qpc e) ++ str " identity=" ++ status_text status ++ str " resolve=" ++
  signed (ev_elapsed e) ++ str "us path=" ++ path.

Record added := { was_selected : bool; accepted : bool; log_line : list Z; hints_after : Hints }.

(** [add]: without a resolver the result is its default, an unavailable one. *)
Definition add (s : Hints) (now : time) (e : hint_event) (resolver : option Images.Result) : added :=
  let identity := default {| Images.path := []; Images.status := Images.Unavailable |} resolver in
  let path := lower (Images.path identity) in
  let selected := negb (bool_decide (path = [])) && isIncluded s path in
  let '(ok, s') := addResolved s now (ev_name e) (ev_type e) path in
  {| was_selected := selected; accepted := ok; log_line := hint_line e selected (Images.status identity) path; hints_after := s' |}.

(** [onEvent]: [None] is an exception of [processEvent]; whether the component
    keeps running. *)
Definition onEvent (running : bool) (processed : option Hints) (s : Hints) : bool * Hints :=
  match processed with Some s' => (running, s') | None => (false, s) end.

Context {S : WideCharsSpec W}.

Lemma lower_twice text : lower (lower text) = lower text.
Proof. unfold lower. rewrite map_map. apply map_ext. intros c. apply towlower_idem. Qed.

End Events.

(** The demonstration's program, identified and not. *)
Definition demo_event : hint_event :=
  {| ev_name := Example.name; ev_type := 1; ev_pid := 4321; ev_qpc := 77; ev_delivery := 12; ev_id := 3006; ev_elapsed := 140 |}.
Definition identified : option Images.Result := Some {| Images.path := Example.app; Images.status := Images.Known |}.
Definition waiting : option Images.Result := Some {| Images.path := []; Images.status := Images.Pending |}.


Example logged_line :
  log_line (add (W:=c_locale) Example.start Example.t0 demo_event waiting) =
  str "HINT example.com type=1 pid=4321 selected=0 delivery=12ms event=3006 event-qpc=77 identity=pending resolve=140us path=".
Proof. by vm_compute. Qed.
