(* ===== verification/PathIdentity.v ===== *)
(** * PathIdentity: the final path of a program

    Models [src/src/native/path-identity.h]: the final name of an existing file,
    and the final path of one that may be absent, through its nearest existing
    ancestor.  What the file system answers is a parameter. *)
From S2P Require Import Prelude.

Inductive attributes := Exists | NotFound | Unavailable.

(** [GetFileAttributesW] (with the error it leaves), and the name
    [GetFinalPathNameByHandleW] gives for a path that can be opened and whose
    name fits; [dos] selects the DOS or the NT form. *)
Class FileSystem := { get_attributes : list Z -> attributes; final_name : list Z -> bool -> option (list Z) }.

Definition unc_prefix : list Z := str "\\?\UNC\".
Definition long_prefix : list Z := str "\\?\".

Definition has_prefix (prefix text : list Z) : bool := bool_decide (take (length prefix) text = prefix).

Definition finalPath `{FileSystem} (path : list Z) (dos : bool) : list Z :=
  match final_name path dos with
  | None => []
  | Some result =>
      let result :=
        if dos then
          if has_prefix unc_prefix result then str "\\" ++ drop 8 result
          else if has_prefix long_prefix result then drop 4 result else result
        else result in
      if (1 <? length result)%nat && (List.last result 0 =? 92) then removelast result else result
  end.

(** [find_last_of(L'\\')]. *)
Fixpoint find_last (text : list Z) : option nat :=
  match text with
  | [] => None
  | c :: rest => match find_last rest with
                 | Some n => Some (S n)
                 | None => if c =? 92 then Some 0%nat else None
                 end
  end.

(** [find(L'\\', from)]. *)
Fixpoint find_from (text : list Z) (from : nat) : option nat :=
  match text, from with
  | [], _ => None
  | c :: rest, O => if c =? 92 then Some 0%nat else S <$> find_from rest 0
  | _ :: rest, S from => S <$> find_from rest from
  end.

(** A drive root opens only with its separator. *)
Definition candidate (existing : list Z) : list Z :=
  if (length existing =? 2)%nat && (nth 1 existing 0 =? 58) then existing ++ [92] else existing.

Section Resolve.
Context {F : FileSystem}.

(** Above [\\server\share] there is nothing more to open. *)
Definition server_share (existing : list Z) (separator : nat) : bool :=
  has_prefix (str "\\") existing && bool_decide (find_from existing 2 = Some separator).

(** One pass per component; [None] when the fuel runs out. *)
Fixpoint resolve_loop (fuel : nat) (dos : bool) (existing remainder : list Z) : option (list Z) :=
  match fuel with
  | O => None
  | S fuel =>
      match existing with
      | [] => Some []
      | _ =>
          match get_attributes (candidate existing) with
          | Exists =>
              let resolved := finalPath (candidate existing) dos in
              Some (if bool_decide (resolved = []) then [] else resolved ++ remainder)
          | Unavailable => Some []
          | NotFound =>
              match find_last existing with
              | None | Some O => Some []
              | Some separator =>
                  if server_share existing separator then Some []
                  else resolve_loop fuel dos (take separator existing) (drop separator existing ++ remainder)
              end
          end
      end
  end.

Definition resolvePath (path : list Z) (dos : bool) : option (list Z) := resolve_loop (S (length path)) dos path [].

(** ** Lemmas *)

Lemma find_last_lt text n : find_last text = Some n -> (n < length text)%nat /\ text !! n = Some 92.
Proof.
  revert n. induction text as [|c text IH]; intros n; simpl; [done|]. destruct (find_last text) as [m|] eqn:E.
  - intros [= <-]. destruct (IH m eq_refl). split; [lia|done].
  - destruct (c =? 92) eqn:Ec; [|done]. intros [= <-]. bool_to_prop. subst. split; [lia|done].
Qed.

(** Every ancestor from [path] down to [a], [a] excepted, is absent. *)
Inductive absent_below (path : list Z) : list Z -> list Z -> Prop :=
| Start_here : absent_below path path []
| Absent a r n : absent_below path a r -> get_attributes (candidate a) = NotFound -> find_last a = Some (S n) ->
    absent_below path (take (S n) a) (drop (S n) a ++ r).

Lemma absent_app path a r : absent_below path a r -> a ++ r = path.
Proof. induction 1 as [|a r n _ IH _ _]; [apply app_nil_r|]. by rewrite app_assoc, take_drop. Qed.

(** The outcome: the nearest existing ancestor's final path and the components
    below it, or nothing. *)
Definition resolution (path : list Z) (dos : bool) (result : list Z) : Prop :=
  result = [] \/
  exists a r, a ++ r = path /\ absent_below path a r /\ get_attributes (candidate a) = Exists /\
    finalPath (candidate a) dos <> [] /\ result = finalPath (candidate a) dos ++ r.

Lemma resolve_loop_spec path dos fuel a r :
  absent_below path a r -> (length a < fuel)%nat -> exists result, resolve_loop fuel dos a r = Some result /\ resolution path dos result.
Proof.
  revert a r. induction fuel as [|fuel IH]; intros a r Ha Hf; [lia|]. cbn [resolve_loop].
  destruct a as [|c a'] eqn:Ea; [eexists; split; [done|by left]|]. rewrite <- Ea in *. clear Ea c a'.
  destruct (get_attributes (candidate a)) eqn:Eg; [|destruct (find_last a) as [[|n]|] eqn:El|]; try (eexists; split; [done|by left]).
  - cbv zeta. case_bool_decide as Hr; (eexists; split; [done|]); [by left|right]. exists a, r. by rewrite (absent_app path a r Ha).
  - destruct (server_share _ _); [eexists; split; [done|by left]|]. destruct (find_last_lt a (S n) El) as [Hl _].
    apply IH; [by apply (Absent path a r n)|]. rewrite length_take. lia.
Qed.

(** [b] with the components [s] after it lies on the way from [a] (with [r]) to
    the path: cutting [b] at its last separators leads to [a]. *)
Inductive on_the_way (a r : list Z) : list Z -> list Z -> Prop :=
| Arrived : on_the_way a r a r
| Cut b s n : find_last b = Some (S n) -> server_share b (S n) = false ->
    on_the_way a r (take (S n) b) (drop (S n) b ++ s) -> on_the_way a r b s.

(** The state of a file system while the components below [a] are being
    created: any of them may exist already, each inside its parent and under
    its own name (it is no link); the others are absent. *)
Record growing (dos : bool) (path a r : list Z) : Prop := {
  top_exists : get_attributes (candidate a) = Exists;
  top_named : finalPath (candidate a) dos <> [];
  grown b s n : on_the_way a r b s -> on_the_way b s path [] -> b <> a -> find_last b = Some (S n) ->
    get_attributes (candidate b) = NotFound \/
    (get_attributes (candidate b) = Exists /\ get_attributes (candidate (take (S n) b)) = Exists /\
     finalPath (candidate b) dos = finalPath (candidate (take (S n) b)) dos ++ drop (S n) b)
}.

Lemma on_the_way_cut a r n b s :
  on_the_way a r b s -> find_last a = Some (S n) -> server_share a (S n) = false -> on_the_way (take (S n) a) (drop (S n) a ++ r) b s.
Proof. intros Hw Hl Hs. induction Hw as [|b s m Hb Hbs _ IH]; [by apply (Cut _ _ a r n); [..|constructor]|]. by apply (Cut _ _ b s m). Qed.

Lemma on_the_way_length a r b s : on_the_way a r b s -> (length a <= length b)%nat.
Proof. induction 1 as [|b s n _ _ _ IH]; [done|]. rewrite length_take in IH. lia. Qed.

Lemma on_the_way_app a r b s : on_the_way a r b s -> b ++ s = a ++ r.
Proof. induction 1 as [|b s n _ _ _ IH]; [done|]. by rewrite app_assoc, take_drop in IH. Qed.

Lemma resolve_step fuel dos b s :
  b <> [] -> get_attributes (candidate b) = Exists -> finalPath (candidate b) dos <> [] ->
  resolve_loop (S fuel) dos b s = Some (finalPath (candidate b) dos ++ s).
Proof. intros Hb Ha Hf. cbn [resolve_loop]. destruct b; [done|]. rewrite Ha. cbv zeta. by rewrite bool_decide_false. Qed.

Lemma growing_resolved dos path a r b s :
  growing dos path a r -> a <> [] -> on_the_way a r b s -> on_the_way b s path [] ->
  (get_attributes (candidate b) = Exists -> finalPath (candidate b) dos <> [] /\ finalPath (candidate b) dos ++ s = finalPath (candidate a) dos ++ r) /\
  forall fuel, (length b < fuel)%nat -> resolve_loop fuel dos b s = Some (finalPath (candidate a) dos ++ r).
Proof.
  intros G Ha. induction 1 as [|b s n Hl Hs Hw IH]; intros Hp.
  { split; [intros _; split; [by apply (top_named dos path a r)|done]|]. intros [|fuel] Hf; [lia|]. by apply resolve_step; [|apply (top_exists dos path a r)|apply (top_named dos path a r)]. }
  destruct IH as [IHe IHl]; [by apply on_the_way_cut|].
  destruct (find_last_lt b (S n) Hl) as [Hn _].
  assert (b <> a) as Hne by (intros ->; apply on_the_way_length in Hw; rewrite length_take in Hw; lia).
  assert (b <> []) by (intros ->; done).
  destruct (grown dos path a r G b s n) as [Hab|(He & Hpar & Hf)]; [by econstructor|done..| |].
  - split; [congruence|]. intros [|fuel] Hfu; [lia|]. cbn [resolve_loop]. destruct b as [|c b'] eqn:Eb; [done|]. rewrite <- Eb in *.
    rewrite Hab, Hl, Hs. apply IHl. rewrite length_take. lia.
  - destruct (IHe Hpar) as [Hn1 Hn2]. rewrite Hf.
    assert (finalPath (candidate (take (S n) b)) dos ++ drop (S n) b <> []) by (destruct (finalPath (candidate (take (S n) b)) dos); done).
    split; [intros _; split; [done|by rewrite <- app_assoc]|]. intros [|fuel] Hfu; [lia|].
    rewrite resolve_step; [|done|done|by rewrite Hf]. by rewrite Hf, <- app_assoc, Hn2.
Qed.
End Resolve.

(** ** The theorems *)

(** Resolving a path always ends, and what it gives is nothing, or the final
    path of the nearest existing ancestor followed by the components below it:
    everything between that ancestor and the path itself is known to be absent,
    so resolution never climbs past something that exists or that could not be
    examined. *)
Theorem resolvePath_nearest (F : FileSystem) (path : list Z) (dos : bool) :
  exists result, resolvePath path dos = Some result /\ resolution path dos result.
Proof. apply resolve_loop_spec; [constructor|lia]. Qed.

(** An alias names the same program before and after it appears.  Whatever
    part of the components below an existing directory has been created so far,
    the path resolves to that directory's final path and those components. *)
Theorem resolvePath_stable (F : FileSystem) (dos : bool) (path a r : list Z) :
  a <> [] -> on_the_way a r path [] -> growing dos path a r ->
  resolvePath path dos = Some (finalPath (candidate a) dos ++ r).
Proof. intros Ha Hw G. apply (growing_resolved dos path a r path []); [done..|constructor|lia]. Qed.

(** ** Examples *)

Definition listed (names : list (list Z)) (aliases : list (list Z * list Z)) : FileSystem := {|
  get_attributes path := if existsb (fun p => bool_decide (p = path)) (names ++ aliases.*1) then Exists else NotFound;
  final_name path dos :=
    match list_find (fun p => p.1 = path) aliases with
    | Some (_, (_, target)) => Some (long_prefix ++ target)
    | None => if existsb (fun p => bool_decide (p = path)) names then Some (long_prefix ++ path) else None
    end
|}.

Example junction_followed :
  @resolvePath (listed [str "C:\"; str "D:\Apps"] [(str "C:\Link", str "D:\Apps")]) (str "C:\Link\bin\app.exe") true
  = Some (str "D:\Apps\bin\app.exe").
Proof. reflexivity. Qed.

Lemma resolvePath_stable_witness :
  @resolvePath (listed [str "C:\"; str "C:\bin"] []) (str "C:\bin\app.exe") true = Some (str "C:\bin\app.exe").
Proof.
  apply (resolvePath_stable (listed [str "C:\"; str "C:\bin"] []) true (str "C:\bin\app.exe") (str "C:") (str "\bin\app.exe")).
  - done.
  - apply (Cut _ _ _ _ 5); [reflexivity..|]. apply (Cut _ _ _ _ 1); [reflexivity..|]. constructor.
  - split; [reflexivity|done|]. intros b s n Hw Hp Hne Hl.
    inversion Hp as [|? ? m Hm _ Hp']; subst; clear Hp; [by left|]. vm_compute in Hm. injection Hm as <-.
    inversion Hp' as [|? ? m Hm _ Hp]; subst; clear Hp'; [right; vm_compute in Hl; injection Hl as <-; vm_compute; done|].
    vm_compute in Hm. injection Hm as <-. inversion Hp as [|? ? m Hm]; subst; [by destruct Hne|]. vm_compute in Hm. done.
Defined.
