(* ===== verification/Trace.v ===== *)
(** * Trace: the dispatcher's event session

    Models [DnsTrace] of [src/src/native/dns-dispatcher.cpp] and the helpers
    around it: what an event record is decoded to, the delay of its delivery,
    the flusher's turn with its counters, the life of the session's handles and
    threads from the constructor to [stop], the rate of refusal details in the
    log, and the file of selected programs.  [Barrier] has the meaning of the
    events; here is how they are read and how the session begins and ends. *)
From Stdlib Require Import ZifyBool.
From S2P Require Import Prelude Numbers DnsWire Attribution Barrier Identity PathIdentity.

(** ** Events *)

(** The provider an event names. *)
Inductive provider := DnsClient | SentinelProvider | OtherProvider.
#[export] Instance provider_eq : EqDecision provider.
Proof. solve_decision. Defined.

Definition kQueryEvent : Z := 3006.

(** A property as the event library gives it: the size it reports and, if it can
    be read then, the bytes. *)
Record property := { p_size : option Z; p_bytes : option (list Z) }.

Record event_record := {
  e_provider : provider; e_id : Z; e_process : Z; e_time : Z;
  e_data : list Z;                                  (* [UserData] *)
  e_property : list Z -> property
}.

Definition eventProperty (e : event_record) (name : list Z) : list Z :=
  match p_size (e_property e name) with
  | None => []
  | Some size => if 4096 <? size then [] else default [] (p_bytes (e_property e name))
  end.

(** The [wchar_t]s of a buffer. *)
Fixpoint utf16_units (bytes : list Z) : list Z :=
  match bytes with
  | lo :: hi :: rest => lo + 256 * hi :: utf16_units rest
  | _ => []
  end.

Fixpoint find_nul (text : list Z) : option nat :=
  match text with
  | [] => None
  | c :: rest => if c =? 0 then Some 0%nat else S <$> find_nul rest
  end.

(** ** The delay of a delivery *)

(** The nearest value of [n/d] with 64 significant bits, ties to even, as a
    mantissa and the power of two it is multiplied by: the extended precision of
    [long double]. *)
Definition exponent_of (n d : Z) : Z :=
  if d <=? n then Z.log2 (n / d) - 63 else - Z.log2_up ((d + n - 1) / n) - 63.

Definition round_half_even (n d : Z) : Z :=
  let q := n / d in
  let r := n mod d in
  if (d <? 2 * r) || ((2 * r =? d) && Z.odd q) then q + 1 else q.

Definition extended (n d : Z) : Z * Z :=
  if n <=? 0 then (0, 0)
  else
    let e := exponent_of n d in
    (if 0 <=? e then round_half_even n (d * 2 ^ e) else round_half_even (n * 2 ^ (- e)) d, e).

(** The same for an integer: one of at most 64 bits is exact. *)
Definition extended_integer (n : Z) : Z :=
  let e := Z.log2 n - 63 in
  if e <=? 0 then n else round_half_even n (2 ^ e) * 2 ^ e.

(** Conversion to an integer, toward zero. *)
Definition toward_zero (v : Z * Z) : Z :=
  let '(q, e) := v in if 0 <=? e then q * 2 ^ e else q / 2 ^ (- e).

Definition kLongLongMax : Z := 2 ^ 63 - 1.

(** The product and the quotient are rounded; [now - then] is exact, both being
    positive 63-bit numbers. *)
Definition qpcElapsedMilliseconds (now then_ frequency : Z) : Z :=
  if (frequency <=? 0) || (now <=? 0) || (then_ <=? 0) || (now <? then_) then -1
  else
    let milliseconds := extended (extended_integer ((now - then_) * 1000)) frequency in
    if kLongLongMax <? toward_zero milliseconds then kLongLongMax else toward_zero milliseconds.

(** ** Decoding *)

(** What [processEvent] calls on the hints. *)
Inductive hint_call :=
| SentinelProcessed (sequence : Z)
| Add (name : list Z) (type process qpc deliveryMilliseconds id : Z).

(** At counter value [now], with the counter's frequency. *)
Definition processEvent (now frequency : Z) (e : event_record) : option hint_call :=
  if bool_decide (e_provider e = SentinelProvider) then
    if negb (length (e_data e) =? 8)%nat then None
    else Some (SentinelProcessed (of_le (e_data e)))
  else if negb (bool_decide (e_provider e = DnsClient)) || negb (e_id e =? kQueryEvent) then None
  else
    let nameData := eventProperty e (str "QueryName") in
    let typeData := eventProperty e (str "QueryType") in
    if (length nameData <? 2)%nat || bool_decide (typeData = []) then None
    else if negb (length nameData mod 2 =? 0)%nat then None
    else
      let name := utf16_units nameData in
      match find_nul name with
      | None => None
      | Some terminator =>
          if (253 <? terminator)%nat then None
          else Some (Add (take terminator name) (of_le (take 2 typeData)) (e_process e) (e_time e)
                         (qpcElapsedMilliseconds now (e_time e) frequency) (e_id e))
      end.

(** ** The flusher *)

(** The local variables of the flusher thread, and the two counters of
    refusals it reports. *)
Record flush_state := {
  lostEvents_ : Z; lostBuffers : Z; flushFailure : Z; nextCounters : Z;
  gAdmissionRefusals : Z; gTunnelRefusals : Z
}.

(** What [FlushTraceW] answers: its status and the session's loss counters. *)
Record flush_answer := { flushed : Z; EventsLost : Z; RealTimeBuffersLost : Z }.

Definition refusal_lines (admission tunnel : Z) : list (list Z) :=
  (if admission =? 0 then [] else [str "WORKERS EXHAUSTED count=" ++ to_string admission]) ++
  (if tunnel =? 0 then [] else [str "TUNNEL LANE REFUSED count=" ++ to_string tunnel]).

(** One turn of the loop at time [now]; [covered] is [lastSequence()] before the
    flush.  The lines it logs, the variables and the hints it leaves. *)
Definition flush_turn (now : Z) (a : flush_answer) (covered : Z) (v : flush_state) (t : Hints) :
  list (list Z) * flush_state * Hints :=
  let due := nextCounters v <=? now in
  let lines := if due then refusal_lines (gAdmissionRefusals v) (gTunnelRefusals v) else [] in
  let next := if due then now + 1000 else nextCounters v in
  let admission := if due then 0 else gAdmissionRefusals v in
  let tunnel := if due then 0 else gTunnelRefusals v in
  if negb (flushed a =? 0) then
    (lines ++ (if flushed a =? flushFailure v then [] else [str "ETW FLUSH FAILED " ++ to_string (flushed a)]),
     {| lostEvents_ := lostEvents_ v; lostBuffers := lostBuffers v; flushFailure := flushed a; nextCounters := next;
        gAdmissionRefusals := admission; gTunnelRefusals := tunnel |}, t)
  else
    let lost := negb (EventsLost a =? lostEvents_ v) || negb (RealTimeBuffersLost a =? lostBuffers v) in
    let t := if lost then lostEvents t now else t in
    (lines ++ (if lost then [str "ETW LOST events=" ++ to_string (EventsLost a) ++ str " buffers=" ++
                             to_string (RealTimeBuffersLost a) ++ str "; refusing direct routes for 10s"] else []),
     {| lostEvents_ := EventsLost a; lostBuffers := RealTimeBuffersLost a; flushFailure := flushFailure v;
        nextCounters := next; gAdmissionRefusals := admission; gTunnelRefusals := tunnel |},
     flushChecked t covered).

(** ** Refusal details *)

(** [logTunnelRefusalDetail]: whether this refusal is logged in detail; the
    exchange of [gNextTunnelDetail] is won unless another thread changed it
    since it was read. *)
Definition logTunnelRefusalDetail (now : Z) (won : bool) (refusals next : Z) : bool * (Z * Z) :=
  let refusals := refusals + 1 in
  if (next <=? now) && won then (true, (refusals, now + 1000)) else (false, (refusals, next)).

(** ** Lines of the log *)

(** Where a line goes: the bounded log, standard output. *)
Inductive log_sink := ToLog (bytes : list Z) | ToOutput (line : list Z).

Definition logLine `{Utf8} (has_log to_file : bool) (line : list Z) : list log_sink :=
  if has_log then
    ToLog (utf8 (line ++ [13; 10])) ::
    (if to_file && bool_decide (take 6 line = str "READY:") then [ToOutput line] else [])
  else [ToOutput line].

(** ** The life of the session *)

(** The calls of the constructor and of [stop] that acquire, use or release
    something, with what came of the acquiring ones. *)
Inductive step_ :=
| StartTrace (ok : bool) | EnableQueries (filtered : bool) | RegisterSentinels (ok : bool) | EnableSentinels | SetWriter
| OpenTrace (ok : bool) | CreateFlushEvent (ok : bool) | ShareFlushEvent | StartConsumer (ok : bool) | StartFlusher (ok : bool)
| StopImages | ClearWriter | UnshareFlushEvent | SignalFlushEvent | JoinFlusher
| DisableQueries | DisableSentinels | StopSession | CloseTrace | JoinConsumer | UnregisterSentinels | CloseFlushEvent.
#[export] Instance step_eq : EqDecision step_.
Proof. solve_decision. Defined.

(** The answers to the constructor's calls. *)
Record answers := {
  a_name : bool;                 (* the trace has a name *)
  a_frequency : bool;            (* [QueryPerformanceFrequency] *)
  a_start : Z; a_filtered : Z; a_unfiltered : Z; a_register : Z; a_sentinels : Z;
  a_open : bool; a_event : bool;
  a_consumer : bool; a_flusher : bool   (* the threads are created *)
}.

(** The members that say what is held. *)
Record handles := {
  session_ : bool; sentinelProvider_ : bool; trace_ : bool; flushRequested_ : bool;
  consumer_ : bool; flusher_ : bool; eventFilter_ : bool
}.

Definition nothing_open : handles := {|
  session_ := false; sentinelProvider_ := false; trace_ := false; flushRequested_ := false;
  consumer_ := false; flusher_ := false; eventFilter_ := true |}.

(** [stop]. *)
Definition stop (h : handles) : list step_ :=
  [StopImages; ClearWriter; UnshareFlushEvent] ++
  (if flushRequested_ h then [SignalFlushEvent] else []) ++
  (if flusher_ h then [JoinFlusher] else []) ++
  (if session_ h then [DisableQueries; DisableSentinels; StopSession] else []) ++
  (if trace_ h then [CloseTrace] else []) ++
  (if consumer_ h then [JoinConsumer] else []) ++
  (if sentinelProvider_ h then [UnregisterSentinels] else []) ++
  (if flushRequested_ h then [CloseFlushEvent] else []).

(** The body of the [try]: the calls made, what is then held, and whether it
    threw. *)
Definition acquire (a : answers) : list step_ * handles * bool :=
  if negb (a_start a =? 0) then ([StartTrace false], nothing_open, true)
  else
    let h := {| session_ := true; sentinelProvider_ := false; trace_ := false; flushRequested_ := false;
                consumer_ := false; flusher_ := false; eventFilter_ := a_filtered a =? 0 |} in
    let s := [StartTrace true; EnableQueries true] ++ (if a_filtered a =? 0 then [] else [EnableQueries false]) in
    if negb (a_filtered a =? 0) && negb (a_unfiltered a =? 0) then (s, h, true)
    else
      let s := s ++ [RegisterSentinels (a_register a =? 0)] in
      if negb (a_register a =? 0) then (s, h, true)
      else
        let h := {| session_ := true; sentinelProvider_ := true; trace_ := false; flushRequested_ := false;
                    consumer_ := false; flusher_ := false; eventFilter_ := eventFilter_ h |} in
        let s := s ++ [EnableSentinels] in
        if negb (a_sentinels a =? 0) then (s, h, true)
        else
          let s := s ++ [SetWriter; OpenTrace (a_open a)] in
          if negb (a_open a) then (s, h, true)
          else
            let h := {| session_ := true; sentinelProvider_ := true; trace_ := true; flushRequested_ := false;
                        consumer_ := false; flusher_ := false; eventFilter_ := eventFilter_ h |} in
            let s := s ++ [CreateFlushEvent (a_event a)] in
            if negb (a_event a) then (s, h, true)
            else
              let s := s ++ [ShareFlushEvent; StartConsumer (a_consumer a)] in
              let h := {| session_ := true; sentinelProvider_ := true; trace_ := true; flushRequested_ := true;
                          consumer_ := a_consumer a; flusher_ := false; eventFilter_ := eventFilter_ h |} in
              if negb (a_consumer a) then (s, h, true)
              else
                (s ++ [StartFlusher (a_flusher a)],
                 {| session_ := true; sentinelProvider_ := true; trace_ := true; flushRequested_ := true;
                    consumer_ := true; flusher_ := a_flusher a; eventFilter_ := eventFilter_ h |},
                 negb (a_flusher a)).

(** The constructor: the calls made and, unless it threw, what is held. *)
Definition construct (a : answers) : list step_ * option handles :=
  if negb (a_name a) || negb (a_frequency a) then ([], None)
  else
    let '(s, h, threw) := acquire a in
    if threw then (s ++ stop h, None) else (s, Some h).

(** The constructor and, if the object was made, its destructor. *)
Definition lifetime (a : answers) : list step_ :=
  match construct a with
  | (s, Some h) => s ++ stop h
  | (s, None) => s
  end.

(** ** The selected programs *)

(** The answers of the file calls of [loadIncludedPaths]. *)
Record file_answers := { f_opens : bool; f_size : option Z; f_read : option (list Z) }.

Definition loadIncludedPaths `{Utf8, WideChars, XDigits, Paths} (f : file_answers) : option (gset (list Z)) :=
  if negb (f_opens f) then None
  else match f_size f with
  | None => None
  | Some size =>
      if 1048576 <? size then None
      else
        bytes ← (if size =? 0 then Some [] else f_read f);
        if negb (Z.of_nat (length bytes) =? size) then None
        else
          let bytes := if bool_decide (take 3 bytes = [239; 187; 191]) then drop 3 bytes else bytes in
          text ← (if bool_decide (bytes = []) then Some [] else wideText bytes);
          result ← parseIncludedText text;
          if bool_decide (result = ∅) && negb (bool_decide (take 17 text = str "# wgps-identities")) then None
          else Some result
  end.

(** [resolveImagePath]: the image's name, then its final path; an image that
    cannot be opened is unknown. *)
Definition resolveImagePath `{FileSystem} (image : option (list Z)) : list Z :=
  match image with
  | None => []
  | Some name => finalPath name true
  end.

(** ** Events: theorems *)

(** A wide string as bytes. *)
Definition wide_data (text : list Z) : list Z := concat (map (to_le 2) text).

Lemma utf16_units_data text rest :
  Forall (fun c => 0 <= c < 65536) text -> utf16_units (wide_data text ++ rest) = text ++ utf16_units rest.
Proof.
  induction 1 as [|c text Hc _ IH]; [done|]. change (wide_data (c :: text)) with (to_le 2 c ++ wide_data text).
  cbn [to_le app]. cbn [utf16_units]. rewrite IH. f_equal.
  rewrite (Z.mod_small (c / 256)); [pose proof (Z.div_mod c 256); lia|].
  split; [apply Z.div_pos; lia|]. apply Z.div_lt_upper_bound; lia.
Qed.

Lemma length_wide_data text : length (wide_data text) = (2 * length text)%nat.
Proof. unfold wide_data. induction text as [|c text IH]; cbn [map concat]; [done|]. rewrite length_app, IH. simpl. lia. Qed.

Lemma find_nul_terminated text rest : Forall (fun c => c <> 0) text -> find_nul (text ++ 0 :: rest) = Some (length text).
Proof. induction 1 as [|c text Hc _ IH]; [done|]. simpl. rewrite (proj2 (Z.eqb_neq _ _)) by done. by rewrite IH. Qed.

(** The record of a query event: a terminated name, whatever follows it, and a
    type of at least two bytes. *)
Definition query_record (process time : Z) (name after type_after : list Z) (type : Z) : event_record := {|
  e_provider := DnsClient; e_id := kQueryEvent; e_process := process; e_time := time; e_data := [];
  e_property key :=
    let bytes := if bool_decide (key = str "QueryName") then wide_data (name ++ 0 :: after) else to_le 2 type ++ type_after in
    {| p_size := Some (Z.of_nat (length bytes)); p_bytes := Some bytes |} |}.

Definition sentinel_record (sequence : Z) : event_record := {|
  e_provider := SentinelProvider; e_id := 1; e_process := 0; e_time := 0; e_data := to_le 8 sequence;
  e_property _ := {| p_size := None; p_bytes := None |} |}.

(** Events are read back as they were written: a sentinel gives its
    sequence number whole, and a query event gives the name up to its terminator
    (up to the 253 characters of a DNS name) and the 16-bit type, whatever bytes
    follow either; a longer name is dropped. *)
Theorem events_read_back now frequency sequence process time name after type_after type :
  0 <= sequence < 2 ^ 64 -> Forall (fun c => 0 < c < 65536) name -> Forall (fun c => 0 <= c < 65536) after ->
  0 <= type < 65536 -> (2 * (length name + S (length after)) <= 4096)%nat -> (length type_after <= 4094)%nat ->
  processEvent now frequency (sentinel_record sequence) = Some (SentinelProcessed sequence) /\
  processEvent now frequency (query_record process time name after type_after type) =
    if (253 <? length name)%nat then None else Some (Add name type process time (qpcElapsedMilliseconds now time frequency) kQueryEvent).
Proof.
  intros Hs Hn Ha Ht Hl Hl2. split.
  { unfold processEvent, sentinel_record. cbn [e_provider e_data]. rewrite bool_decide_true, length_to_le by done.
    cbn [Nat.eqb negb]. rewrite of_le_to_le; [done|]. change (256 ^ Z.of_nat 8) with (2 ^ 64). done. }
  unfold processEvent. cbn [e_provider e_id e_process e_time query_record]. rewrite bool_decide_false, bool_decide_true by done.
  rewrite Z.eqb_refl. cbn [negb orb].
  set (data := wide_data (name ++ 0 :: after)).
  assert (length data = 2 * (length name + S (length after)))%nat as Hd by (unfold data; rewrite length_wide_data, length_app; done).
  assert (eventProperty (query_record process time name after type_after type) (str "QueryName") = data) as ->.
  { unfold eventProperty. cbn [e_property query_record p_size p_bytes]. rewrite bool_decide_true by done. fold data.
    by rewrite (proj2 (Z.ltb_ge _ _)) by lia. }
  assert (eventProperty (query_record process time name after type_after type) (str "QueryType") = to_le 2 type ++ type_after) as ->.
  { unfold eventProperty. cbn [e_property query_record p_size p_bytes]. rewrite bool_decide_false by done.
    rewrite (proj2 (Z.ltb_ge _ _)); [done|]. rewrite length_app, length_to_le. lia. }
  rewrite (proj2 (Nat.ltb_ge _ _)) by lia. rewrite bool_decide_false by done. cbn [orb].
  rewrite Hd, Nat.mul_comm, Nat.Div0.mod_mul. cbn [Nat.eqb negb].
  replace (utf16_units data) with (name ++ 0 :: after).
  2: { unfold data. rewrite <- (app_nil_r (wide_data _)), utf16_units_data; [by rewrite app_nil_r|].
       apply list.Forall_app. split; [|constructor; [lia|done]]. revert Hn. apply Forall_impl. lia. }
  rewrite find_nul_terminated by (revert Hn; apply Forall_impl; lia).
  destruct (_ <? _)%nat; [done|]. rewrite take_app_length.
  change (take 2 (to_le 2 type ++ type_after)) with (to_le 2 type). by rewrite of_le_to_le.
Qed.

Lemma events_read_back_witness :
  processEvent 0 0 (sentinel_record (2 ^ 63)) = Some (SentinelProcessed (2 ^ 63)) /\
  processEvent 0 0 (query_record 40 7 (str "a.io") [5] [] 28) = Some (Add (str "a.io") 28 40 7 (-1) 3006).
Proof.
  apply (events_read_back 0 0 (2 ^ 63) 40 7 (str "a.io") [5] [] 28); [lia| |repeat constructor; lia|lia|simpl; lia..].
  repeat constructor.
Defined.

(** ** The life of the session: theorems *)

(** What is alive while the calls are made. *)
Record alive := {
  l_session : bool; l_provider : bool; l_writer : bool; l_trace : bool; l_event : bool; l_shared : bool;
  l_consumer : bool; l_flusher : bool; l_signalled : bool
}.

Definition none_alive : alive := {|
  l_session := false; l_provider := false; l_writer := false; l_trace := false; l_event := false; l_shared := false;
  l_consumer := false; l_flusher := false; l_signalled := false |}.

(** A call under the rules of what it uses: nothing is acquired twice or used
    after its release; the flusher is joined once it was woken, and before the
    session and the event it uses are gone; the consumer is joined once its
    session or its trace is closed, which ends it. *)
Definition obey (l : alive) (s : step_) : option alive :=
  let put := fun session provider writer trace event shared consumer flusher signalled =>
    Some {| l_session := session; l_provider := provider; l_writer := writer; l_trace := trace; l_event := event;
            l_shared := shared; l_consumer := consumer; l_flusher := flusher; l_signalled := signalled |} in
  let '{| l_session := ss; l_provider := pp; l_writer := ww; l_trace := tt_; l_event := ee; l_shared := hh;
          l_consumer := cc; l_flusher := ff; l_signalled := gg |} := l in
  match s with
  | StartTrace ok => if ss then None else put ok pp ww tt_ ee hh cc ff gg
  | EnableQueries _ | DisableQueries | DisableSentinels => if ss then Some l else None
  | RegisterSentinels ok => if pp then None else put ss ok ww tt_ ee hh cc ff gg
  | EnableSentinels => if ss && pp then Some l else None
  | SetWriter => if pp then put ss pp true tt_ ee hh cc ff gg else None
  | OpenTrace ok => if ss && negb tt_ then put ss pp ww ok ee hh cc ff gg else None
  | CreateFlushEvent ok => if ee then None else put ss pp ww tt_ ok hh cc ff gg
  | ShareFlushEvent => if ee then put ss pp ww tt_ ee true cc ff gg else None
  | StartConsumer ok => if tt_ && negb cc then put ss pp ww tt_ ee hh ok ff gg else None
  | StartFlusher ok => if ss && ee && negb ff then put ss pp ww tt_ ee hh cc ok gg else None
  | StopImages => Some l
  | ClearWriter => put ss pp false tt_ ee hh cc ff gg
  | UnshareFlushEvent => put ss pp ww tt_ ee false cc ff gg
  | SignalFlushEvent => if ee then put ss pp ww tt_ ee hh cc ff true else None
  | JoinFlusher => if ff && gg then put ss pp ww tt_ ee hh cc false gg else None
  | StopSession => if ss && negb ff then put false pp ww tt_ ee hh cc ff gg else None
  | CloseTrace => if tt_ then put ss pp ww false ee hh cc ff gg else None
  | JoinConsumer => if cc && (negb ss || negb tt_) then put ss pp ww tt_ ee hh false ff gg else None
  | UnregisterSentinels => if pp && negb ww then put ss false ww tt_ ee hh cc ff gg else None
  | CloseFlushEvent => if ee && negb hh && negb ff then put ss pp ww tt_ false hh cc ff gg else None
  end.

Fixpoint obeys (l : alive) (steps : list step_) : option alive :=
  match steps with
  | [] => Some l
  | s :: rest => l ← obey l s; obeys l rest
  end.

Definition released (l : alive) : bool :=
  negb (l_session l || l_provider l || l_writer l || l_trace l || l_event l || l_shared l || l_consumer l || l_flusher l).

(** Whichever of the calls that set the event session up fails, or none,
    the session, its handles, its registration and its two threads are each
    released exactly once by the end, in an order in which nothing is used after
    its release and no thread is waited for that was not told to end; an object
    that was made holds everything until then. *)
Theorem session_released a :
  (match obeys none_alive (lifetime a) with Some l => released l | None => false end) = true /\
  (match (construct a).2 with
   | Some h => session_ h && sentinelProvider_ h && trace_ h && flushRequested_ h && consumer_ h && flusher_ h
   | None => true
   end) = true.
Proof.
  unfold lifetime, construct, acquire. destruct a as [n f s1 s2 s3 s4 s5 o ev c fl]. cbn.
  destruct n, f; cbn; try done.
  destruct (s1 =? 0); cbn; try done. destruct (s2 =? 0), (s3 =? 0); cbn; try done;
  destruct (s4 =? 0); cbn; try done; destruct (s5 =? 0); cbn; try done;
  destruct o; cbn; try done; destruct ev; cbn; try done; destruct c; cbn; try done; by destruct fl.
Qed.

(** ** The delay of a delivery: theorems *)

Lemma round_half_even_near n d : 0 < d -> 0 <= n ->
  n / d <= round_half_even n d <= n / d + 1 /\ (round_half_even n d = n / d + 1 -> d <= 2 * (n mod d)).
Proof. intros Hd Hn. unfold round_half_even. destruct (_ || _) eqn:E; [|lia]. split; lia. Qed.

(** A quotient scaled by [s], rounded and toward_zero, is the whole quotient when
    the scale exceeds half the divisor. *)
Lemma round_truncates n d s : 0 < d -> 0 <= n -> 0 < s -> d < 2 * s -> round_half_even (n * s) d / s = n / d.
Proof.
  intros Hd Hn Hs Hds. pose proof (round_half_even_near (n * s) d Hd ltac:(nia)) as [Hr Hup].
  pose proof (Z.div_mod n d ltac:(lia)) as Hm. pose proof (Z.mod_pos_bound n d Hd) as Hb.
  pose proof (Z.div_mod (n * s) d ltac:(lia)) as Hm2. pose proof (Z.mod_pos_bound (n * s) d Hd) as Hb2.
  assert (n / d * s <= n * s / d) as Hlo.
  { apply Z.div_le_lower_bound; [lia|]. nia. }
  assert (n * s / d < (n / d + 1) * s) as Hhi.
  { apply Z.div_lt_upper_bound; [lia|]. nia. }
  symmetry. apply (Z.div_unique_pos _ s _ (round_half_even (n * s) d - s * (n / d))); [|lia].
  split; [lia|]. destruct (decide (round_half_even (n * s) d = n * s / d + 1)) as [E|E]; [|lia].
  specialize (Hup E). rewrite E. destruct (decide (n * s / d + 1 = (n / d + 1) * s)) as [E2|E2]; [|lia].
  exfalso. assert (n * s / d = (n / d + 1) * s - 1) as Eq by lia. rewrite Eq in Hm2.
  assert (n + 1 <= (n / d + 1) * d) by nia. nia.
Qed.

Lemma exponent_scale n d :
  0 < n -> 0 < d -> n < 2 ^ 64 -> exponent_of n d <= 0 /\ (d < 2 ^ 63 -> d < 2 * 2 ^ (- exponent_of n d)).
Proof.
  intros Hn Hd Hb. unfold exponent_of. destruct (d <=? n) eqn:E; bool_to_prop.
  - assert (1 <= n / d) as H1 by (apply Z.div_le_lower_bound; lia).
    assert (n / d < 2 ^ 64) as H2 by (apply Z.div_lt_upper_bound; nia).
    pose proof (Z.log2_spec (n / d) ltac:(lia)) as [Hl1 Hl2].
    assert (Z.log2 (n / d) < 64) as Hl3 by (apply Z.log2_lt_pow2; lia). pose proof (Z.log2_nonneg (n / d)) as Hl0.
    split; [lia|]. intros _.
    replace (- (Z.log2 (n / d) - 63)) with (63 - Z.log2 (n / d)) by lia.
    rewrite <- Z.pow_succ_r by lia. replace (Z.succ (63 - Z.log2 (n / d))) with (64 - Z.log2 (n / d)) by lia.
    assert (d * (n / d) <= n) by (apply Z.mul_div_le; lia).
    assert (2 ^ Z.log2 (n / d) * 2 ^ (64 - Z.log2 (n / d)) = 2 ^ 64) as Hp by (rewrite <- Z.pow_add_r by lia; f_equal; lia).
    assert (0 < 2 ^ (64 - Z.log2 (n / d))) by (apply Z.pow_pos_nonneg; lia). nia.
  - pose proof (Z.log2_up_nonneg ((d + n - 1) / n)). split; [lia|]. intros Hd63.
    assert (2 ^ 63 <= 2 ^ (- (- Z.log2_up ((d + n - 1) / n) - 63))) by (apply Z.pow_le_mono_r; lia). lia.
Qed.

Lemma extended_truncates n d : 0 <= n < 2 ^ 64 -> 0 < d < 2 ^ 63 -> toward_zero (extended n d) = n / d.
Proof.
  intros Hn Hd. unfold extended. destruct (n <=? 0) eqn:E; bool_to_prop.
  { assert (n = 0) as -> by lia. by rewrite Z.div_0_l by lia. }
  destruct (exponent_scale n d) as [He Hs]; [lia..|]. specialize (Hs ltac:(lia)).
  unfold toward_zero. destruct (0 <=? exponent_of n d) eqn:E0; bool_to_prop.
  - replace (exponent_of n d) with 0 in * by lia. change (2 ^ 0) with 1.
    rewrite !Z.mul_1_r. pose proof (round_truncates n d 1 ltac:(lia) ltac:(lia) ltac:(lia) ltac:(simpl in Hs; lia)) as H.
    by rewrite Z.mul_1_r, Z.div_1_r in H.
  - apply round_truncates; [lia..| |done]. apply Z.pow_pos_nonneg; lia.
Qed.


(** C39: the delay reported for an event is the elapsed time in whole
    milliseconds, rounded down and capped at the largest [long long], for every
    pair of counter values whose difference in thousandths fits 64 bits: the
    extended-precision product and quotient lose nothing.  Counter values that
    are missing or run backwards give -1. *)
Theorem qpc_elapsed_exact now then_ frequency :
  now < 2 ^ 63 -> frequency < 2 ^ 63 -> (now - then_) * 1000 < 2 ^ 64 ->
  qpcElapsedMilliseconds now then_ frequency =
    if (0 <? frequency) && (0 <? then_) && (then_ <=? now)
    then Z.min kLongLongMax ((now - then_) * 1000 / frequency) else -1.
Proof.
  intros Hn Hf Hp. unfold qpcElapsedMilliseconds.
  destruct ((0 <? frequency) && (0 <? then_) && (then_ <=? now)) eqn:E; bool_to_prop.
  2: { by replace ((frequency <=? 0) || (now <=? 0) || (then_ <=? 0) || (now <? then_)) with true by lia. }
  replace ((frequency <=? 0) || (now <=? 0) || (then_ <=? 0) || (now <? then_)) with false by lia.
  assert (extended_integer ((now - then_) * 1000) = (now - then_) * 1000) as ->.
  { unfold extended_integer. destruct (decide ((now - then_) * 1000 = 0)) as [->|]; [done|].
    assert (Z.log2 ((now - then_) * 1000) < 64) by (apply Z.log2_lt_pow2; lia).
    by rewrite (proj2 (Z.leb_le _ 0)) by lia. }
  rewrite extended_truncates by lia. destruct (_ <? _) eqn:E2; bool_to_prop; lia.
Qed.

Lemma qpc_elapsed_exact_witness :
  qpcElapsedMilliseconds 123456789012 123450000000 10000000 = 678 /\ qpcElapsedMilliseconds 5 9 10000000 = -1.
Proof. rewrite !qpc_elapsed_exact by lia. by vm_compute. Defined.

(** ** The flusher: theorems *)

(** The thread's variables and a session's answers agree with the loss counter
    of [Barrier]: one counter of losses, of which some were reported. *)
Record counted (v : flush_state) (a : flush_answer) (y : session) (l : Z) : Prop := {
  c_reported : reported y = lostEvents_ v + lostBuffers v;
  c_lost : l = EventsLost a + RealTimeBuffersLost a;
  c_events : lostEvents_ v <= EventsLost a;          (* the session's counters only grow *)
  c_buffers : lostBuffers v <= RealTimeBuffersLost a
}.

(** A successful flush of the real loop, with its two loss counters, is the
    flush step of the abstract session: the same evidence table and the same
    losses reported, so what is proved of that step holds of the loop; a failed
    flush leaves the table and the loss counters alone and confirms nothing. *)
Theorem flush_turn_refines now a covered v y l :
  counted v a y l -> flush y = Read covered l ->
  let '(_, v', t') := flush_turn now a covered v (table y) in
  if flushed a =? 0
  then t' = table (flush_done y now covered l) /\ lostEvents_ v' + lostBuffers v' = reported (flush_done y now covered l)
  else t' = table y /\ lostEvents_ v' + lostBuffers v' = reported y.
Proof.
  intros [C1 C2 C3 C4] Hf. unfold flush_turn, flush_done. destruct (flushed a =? 0); cbn [negb]; [|done].
  cbn [lostEvents_ lostBuffers table reported]. split; [|lia]. f_equal.
  destruct (l =? reported y) eqn:E; bool_to_prop.
  - by replace (negb (EventsLost a =? lostEvents_ v) || negb (RealTimeBuffersLost a =? lostBuffers v)) with false by lia.
  - by replace (negb (EventsLost a =? lostEvents_ v) || negb (RealTimeBuffersLost a =? lostBuffers v)) with true by lia.
Qed.

Definition demo_session : session := {|
  table := newHints ∅ 0; queue := []; lost := 5; reported := 2; flush := Read 4 5 |}.
Definition demo_variables : flush_state := {|
  lostEvents_ := 2; lostBuffers := 0; flushFailure := 0; nextCounters := 1000; gAdmissionRefusals := 3; gTunnelRefusals := 0 |}.
Definition demo_flushed : flush_answer := {| flushed := 0; EventsLost := 4; RealTimeBuffersLost := 1 |}.

Lemma flush_turn_refines_witness :
  (flush_turn 1500 demo_flushed 4 demo_variables (table demo_session)).2 = table (flush_done demo_session 1500 4 5).
Proof.
  assert (counted demo_variables demo_flushed demo_session 5) as Hc by (split; simpl; lia).
  pose proof (flush_turn_refines 1500 demo_flushed 4 demo_variables demo_session 5 Hc eq_refl) as H.
  exact (proj1 H).
Defined.

(** ** Refusal details: theorems *)

(** Refusals at given times: when a detail is logged, and the two counters. *)
Fixpoint refusals_run (calls : list (Z * bool)) (refusals next : Z) : list Z * (Z * Z) :=
  match calls with
  | [] => ([], (refusals, next))
  | (now, won) :: rest =>
      let '(detail, (refusals, next)) := logTunnelRefusalDetail now won refusals next in
      let '(details, last) := refusals_run rest refusals next in
      ((if detail then [now] else []) ++ details, last)
  end.

(** Each at least a second after [next] and after the one before it. *)
Fixpoint spaced_from (next : Z) (times : list Z) : Prop :=
  match times with [] => True | t :: rest => next <= t /\ spaced_from (t + 1000) rest end.

(** Whatever the threads that are refused and whenever, two details are a second
    apart, and every refusal is counted. *)
Theorem refusal_details_spaced calls refusals next :
  let '(details, (refusals', _)) := refusals_run calls refusals next in
  spaced_from next details /\ refusals' = refusals + Z.of_nat (length calls).
Proof.
  revert refusals next. induction calls as [|[now won] rest IH]; intros refusals next; [simpl; lia|].
  cbn [refusals_run length]. unfold logTunnelRefusalDetail. destruct (next <=? now) eqn:E, won; cbn [andb];
    match goal with |- context [refusals_run rest ?r ?n] => specialize (IH r n); destruct (refusals_run rest r n) as [ds [r' n']] end;
    destruct IH as [Hs Hc]; bool_to_prop; (split; [cbn; try split; assumption|lia]).
Qed.

(** ** The selected programs: theorems *)

Section Selected.
Context `{Utf8, WideChars, XDigits, Paths}.

(** The list is accepted only whole: it was read to its announced size, within a
    mebibyte, and is well-formed text; and a plain list names a program. *)
Theorem loadIncludedPaths_whole f result :
  loadIncludedPaths f = Some result ->
  exists size bytes text, f_size f = Some size /\ size <= 1048576 /\ Z.of_nat (length bytes) = size /\
    (size <> 0 -> f_read f = Some bytes) /\ parseIncludedText text = Some result /\
    (take 17 text <> str "# wgps-identities" -> result <> ∅).
Proof.
  unfold loadIncludedPaths. destruct (f_opens f); [|done]. cbn [negb]. destruct (f_size f) as [size|]; [|done].
  destruct (1048576 <? size) eqn:E; [done|]. bool_to_prop.
  destruct (if size =? 0 then Some [] else f_read f) as [bytes|] eqn:Eb; [|done]. cbn [mbind option_bind].
  destruct (Z.of_nat (length bytes) =? size) eqn:Es; [|done]. bool_to_prop. cbn [negb].
  set (rest := if bool_decide (take 3 bytes = _) then _ else _).
  destruct (if bool_decide (rest = []) then Some [] else wideText rest) as [text|]; [|done]. cbn [mbind option_bind].
  destruct (parseIncludedText text) as [r|] eqn:Ep; [|done]. cbn [mbind option_bind].
  destruct (bool_decide (r = ∅) && _) eqn:Er; [done|]. intros [= <-].
  exists size, bytes, text. split; [done|]. split; [done|]. split; [done|]. split; [|split; [done|]].
  - intros Hs. destruct (size =? 0) eqn:E0; bool_to_prop; [done|done].
  - intros Ht He. rewrite bool_decide_true, bool_decide_false in Er by done. done.
Qed.
End Selected.
