(* ===== verification/TraceProperties.v ===== *)
(** * TraceProperties: the blocks passed to the event library

    The session of [DnsTrace] ([src/src/native/dns-dispatcher.cpp]) is described to
    the event library in blocks of bytes that hold a structure followed by names:
    the one the constructor starts the session with, the one the flusher asks the
    loss counters with, and the filter on event identifiers.  A block is modelled
    as the structure's fields, of which [header] is the size (the platform's), and
    the bytes behind it; a copy outside the block is [None]. *)
From S2P Require Import Prelude Trace.

Definition WNODE_FLAG_TRACED_GUID : Z := 0x20000.
Definition EVENT_TRACE_REAL_TIME_MODE : Z := 0x100.
Definition EVENT_TRACE_NO_PER_PROCESSOR_BUFFERING : Z := 0x10000000.
Definition PROCESS_TRACE_MODE_REAL_TIME : Z := 0x100.
Definition PROCESS_TRACE_MODE_RAW_TIMESTAMP : Z := 0x1000.
Definition PROCESS_TRACE_MODE_EVENT_RECORD : Z := 0x10000000.

Definition kProcessTraceMode : Z :=
  Z.lor (Z.lor PROCESS_TRACE_MODE_REAL_TIME PROCESS_TRACE_MODE_EVENT_RECORD) PROCESS_TRACE_MODE_RAW_TIMESTAMP.

(** [static_assert(kProcessTraceMode & PROCESS_TRACE_MODE_RAW_TIMESTAMP);] *)
Example raw_timestamps : has_bits kProcessTraceMode PROCESS_TRACE_MODE_RAW_TIMESTAMP = true.
Proof. reflexivity. Qed.

(** The fields of [EVENT_TRACE_PROPERTIES] the program sets, and the bytes behind
    the structure. *)
Record trace_properties := {
  Wnode_BufferSize : Z; Wnode_Flags : Z; Wnode_ClientContext : Z; BufferSize : Z; MinimumBuffers : Z; MaximumBuffers : Z;
  FlushTimer : Z; LogFileMode : Z; LoggerNameOffset : Z; LogFileNameOffset : Z; names : list Z
}.

(** [properties_.resize(bytes)]: all zero. *)
Definition zeroed_block (bytes : nat) : trace_properties := {|
  Wnode_BufferSize := 0; Wnode_Flags := 0; Wnode_ClientContext := 0; BufferSize := 0; MinimumBuffers := 0; MaximumBuffers := 0;
  FlushTimer := 0; LogFileMode := 0; LoggerNameOffset := 0; LogFileNameOffset := 0; names := replicate bytes 0 |}.

(** [EventIdFilter]: it lets in one identifier. *)
Record EventIdFilter := { filterIn : Z; reserved : Z; count : Z; events : list Z }.
Definition query_filter : EventIdFilter := {| filterIn := 1; reserved := 0; count := 1; events := [kQueryEvent] |}.
Definition filter_bytes (f : EventIdFilter) : list Z :=
  to_le 1 (filterIn f) ++ to_le 1 (reserved f) ++ to_le 2 (count f) ++ wide_data (events f).

Section Blocks.
(** [sizeof(EVENT_TRACE_PROPERTIES)]. *)
Variable header : nat.

(** [memcpy(block + offset, bytes, n)] behind the structure. *)
Definition copy_in (p : trace_properties) (offset : nat) (bytes : list Z) : option trace_properties :=
  if (header <=? offset)%nat && (offset + length bytes <=? header + length (names p))%nat
  then Some {| Wnode_BufferSize := Wnode_BufferSize p; Wnode_Flags := Wnode_Flags p; Wnode_ClientContext := Wnode_ClientContext p;
               BufferSize := BufferSize p; MinimumBuffers := MinimumBuffers p; MaximumBuffers := MaximumBuffers p;
               FlushTimer := FlushTimer p; LogFileMode := LogFileMode p; LoggerNameOffset := LoggerNameOffset p;
               LogFileNameOffset := LogFileNameOffset p;
               names := firstn (offset - header) (names p) ++ bytes ++ skipn (offset - header + length bytes) (names p) |}
  else None.

(** The block the session is started with. *)
Definition session_properties (traceName : list Z) : option trace_properties :=
  let traceNameBytes := ((length traceName + 1) * 2)%nat in
  let bytes := (header + traceNameBytes)%nat in
  let p := zeroed_block traceNameBytes in
  let p := {| Wnode_BufferSize := u32 (Z.of_nat bytes); Wnode_Flags := WNODE_FLAG_TRACED_GUID; Wnode_ClientContext := 1; BufferSize := 4;
              MinimumBuffers := 2; MaximumBuffers := 64; FlushTimer := 1;
              LogFileMode := Z.lor EVENT_TRACE_REAL_TIME_MODE EVENT_TRACE_NO_PER_PROCESSOR_BUFFERING;
              LoggerNameOffset := u32 (Z.of_nat header); LogFileNameOffset := LogFileNameOffset p; names := names p |} in
  copy_in p (Z.to_nat (LoggerNameOffset p)) (wide_data (traceName ++ [0])).

Definition kNameBytes : nat := 1024 * 2.

(** The block of one flush, cleared before each. *)
Definition flush_properties : trace_properties :=
  let p := zeroed_block (2 * kNameBytes) in
  {| Wnode_BufferSize := u32 (Z.of_nat (header + 2 * kNameBytes)); Wnode_Flags := Wnode_Flags p; Wnode_ClientContext := Wnode_ClientContext p;
     BufferSize := BufferSize p; MinimumBuffers := MinimumBuffers p; MaximumBuffers := MaximumBuffers p; FlushTimer := FlushTimer p;
     LogFileMode := LogFileMode p; LoggerNameOffset := u32 (Z.of_nat header); LogFileNameOffset := u32 (Z.of_nat (header + kNameBytes)); names := names p |}.

(** How the library reads a name: characters from its offset up to a terminator,
    within the size the block declares; nothing without a terminator. *)
Definition name_at (p : trace_properties) (offset : Z) : option (list Z) :=
  if (Z.of_nat header <=? offset) && (offset <=? Wnode_BufferSize p) then
    let room := firstn (Z.to_nat (Wnode_BufferSize p - Z.of_nat header)) (names p) in
    let text := utf16_units (skipn (Z.to_nat offset - header) room) in
    n ← find_nul text; Some (firstn n text)
  else None.

(** How the library returns a name: [name] with its terminator at [offset], unless
    it does not fit before [limit]. *)
Definition return_name (p : trace_properties) (offset limit : Z) (name : list Z) : option trace_properties :=
  let bytes := wide_data (name ++ [0]) in
  if offset + Z.of_nat (length bytes) <=? limit then copy_in p (Z.to_nat offset) bytes else None.

Lemma wide_terminated name : length (wide_data (name ++ [0])) = ((length name + 1) * 2)%nat.
Proof. rewrite length_wide_data, length_app. simpl. lia. Qed.

Definition name_chars (name : list Z) : Prop := Forall (fun c => 0 < c < 65536) name.

(** A terminated name is read up to its terminator, whatever follows. *)
Lemma read_terminated name rest :
  name_chars name -> (n ← find_nul (utf16_units (wide_data (name ++ [0]) ++ rest)); Some (firstn n (utf16_units (wide_data (name ++ [0]) ++ rest)))) = Some name.
Proof.
  intros Hn. rewrite utf16_units_data.
  - rewrite <- app_assoc. cbn [app]. rewrite find_nul_terminated by (eapply list.Forall_impl; [exact Hn|]; intros c Hc; cbn in Hc; lia).
    cbn [mbind option_bind]. by rewrite take_app_length.
  - apply list.Forall_app. split; [eapply list.Forall_impl; [exact Hn|]; intros c Hc; cbn in Hc; lia|by repeat constructor].
Qed.

(** The library reads the name at [offset] of a block that holds it there. *)
Lemma name_at_terminated p offset name before after :
  name_chars name -> Wnode_BufferSize p = Z.of_nat (header + length (names p)) ->
  names p = before ++ wide_data (name ++ [0]) ++ after -> offset = Z.of_nat (header + length before) -> name_at p offset = Some name.
Proof.
  intros Hn Hs Hp ->. unfold name_at. rewrite Hs, Hp, !length_app. rewrite !(proj2 (Z.leb_le _ _)) by lia. cbn [andb].
  rewrite take_ge by (rewrite !length_app; lia). rewrite Nat2Z.id. replace (header + length before - header)%nat with (length before) by lia.
  rewrite drop_app_length. by apply read_terminated.
Qed.

(** A session is started under its own name: the block is large enough for the
    name and its terminator and no larger, says so itself, and the library reads
    the name back from it. *)
Theorem session_name_read_back traceName :
  name_chars traceName -> Z.of_nat header + 2 * (Z.of_nat (length traceName) + 1) < 2 ^ 32 ->
  exists p, session_properties traceName = Some p /\ Wnode_BufferSize p = Z.of_nat (header + length (names p)) /\
    name_at p (LoggerNameOffset p) = Some traceName.
Proof.
  intros Hn Hs. unfold session_properties. cbv zeta. cbn [LoggerNameOffset]. rewrite !uN_id by lia. rewrite Nat2Z.id. unfold copy_in.
  cbn [names zeroed_block]. rewrite wide_terminated, length_replicate, Nat.leb_refl, Nat.leb_refl. cbn [andb].
  rewrite Nat.sub_diag, take_0. cbn [app Nat.add]. rewrite drop_ge by (rewrite length_replicate; lia). rewrite app_nil_r.
  eexists. split; [done|]. cbn [Wnode_BufferSize names LoggerNameOffset]. rewrite wide_terminated. split; [done|].
  apply (name_at_terminated _ _ _ [] []); [done|cbn [Wnode_BufferSize names]; by rewrite wide_terminated|by rewrite app_nil_r|by rewrite Nat.add_0_r].
Qed.

(** The flush block has room for both names the library returns: names of up to
    1023 characters are written inside it and neither damages the other. *)
Theorem flush_names_fit logger file :
  name_chars logger -> name_chars file -> (length logger <= 1023)%nat -> (length file <= 1023)%nat -> Z.of_nat header + 4096 < 2 ^ 32 ->
  exists p q, let f := flush_properties in
    return_name f (LoggerNameOffset f) (LogFileNameOffset f) logger = Some p /\
    return_name p (LogFileNameOffset f) (Wnode_BufferSize f) file = Some q /\
    name_at q (LoggerNameOffset f) = Some logger /\ name_at q (LogFileNameOffset f) = Some file.
Proof.
  intros Hl Hf Ll Lf Hs. cbv zeta. unfold flush_properties. remember kNameBytes as room eqn:Er.
  assert (Z.of_nat room = 2048) as Hroom by (by rewrite Er). clear Er. cbn [LoggerNameOffset LogFileNameOffset Wnode_BufferSize].
  rewrite !uN_id by lia. unfold return_name. rewrite !wide_terminated, !(proj2 (Z.leb_le _ _)) by lia.
  unfold copy_in. cbn [names zeroed_block]. rewrite !wide_terminated, length_replicate, !Nat2Z.id, !(proj2 (Nat.leb_le _ _)) by lia. cbn [andb].
  eexists. eexists. split; [done|]. cbn [names]. rewrite Nat.sub_diag, take_0, drop_replicate. cbn [app Nat.add]. set (zeros := replicate _ 0).
  assert (length (wide_data (logger ++ [0]) ++ zeros) = (2 * room)%nat) as Hlen by (unfold zeros; rewrite length_app, wide_terminated, length_replicate; lia).
  rewrite Hlen, !(proj2 (Nat.leb_le _ _)) by lia. cbn [andb]. split; [done|].
  replace (header + room - header)%nat with room by lia. fold zeros.
  assert (firstn room (wide_data (logger ++ [0]) ++ zeros) = wide_data (logger ++ [0]) ++ firstn (room - (length logger + 1) * 2) zeros) as Htake
    by (rewrite take_app_ge, wide_terminated by (rewrite wide_terminated; lia); done).
  set (after := skipn (room + _) _). assert (length after = (room - (length file + 1) * 2)%nat) as Hafter by (unfold after; rewrite length_drop, Hlen; lia).
  assert (length (firstn room (wide_data (logger ++ [0]) ++ zeros)) = room) as Hfirst by (rewrite length_take, Hlen; lia).
  split.
  - apply (name_at_terminated _ _ _ [] (firstn (room - (length logger + 1) * 2) zeros ++ wide_data (file ++ [0]) ++ after)); [done| | |by rewrite Nat.add_0_r].
    + cbn [Wnode_BufferSize names]. rewrite !length_app, Hfirst, wide_terminated, Hafter. lia.
    + cbn [names app]. by rewrite Htake, <- app_assoc.
  - eapply (name_at_terminated _ _ _ (firstn room (wide_data (logger ++ [0]) ++ zeros)) after); [done| |done|by rewrite Hfirst].
    cbn [Wnode_BufferSize names]. rewrite !length_app, Hfirst, wide_terminated, Hafter. lia.
Qed.
End Blocks.

Lemma session_name_read_back_witness :
  exists p, session_properties 120 (str "WgProgramSplit-0123") = Some p /\ name_at 120 p (LoggerNameOffset p) = Some (str "WgProgramSplit-0123").
Proof.
  destruct (session_name_read_back 120 (str "WgProgramSplit-0123")) as (p & H1 & _ & H3); [repeat constructor|vm_compute; done|]. by exists p.
Defined.

(** The six bytes of the filter on query events. *)
Example query_filter_bytes : filter_bytes query_filter = [1; 0; 1; 0; 190; 11].
Proof. reflexivity. Qed.
