(* ===== verification/DispatcherMain.v ===== *)
(** * DispatcherMain: the dispatcher's command line, ingress and shutdown

    Models [wmain] of [src/src/native/dns-dispatcher.cpp] around the parts of
    the other files: which mode and log the arguments choose, the TCP acceptor
    and the UDP loop as they hand clients to workers, the drain at the end, and
    [selectRoute]'s log line.  Admission is one atomic step here; [Capacity] has
    its interleaving. *)
From Stdlib Require Import ZifyBool.
From S2P Require Import Prelude Numbers Text DnsWire Capacity.

(** ** The command line *)

Inductive mode :=
| SelfTest
| StateMode (root : list Z)
| ArgumentMode (arguments : list (list Z))
| Usage.

(** Where the log goes: a bounded file, or standard output. *)
Inductive log_target := LogFile (path : list Z) | LogOutput.

(** [args] starts with the program's name. *)
Definition parse_mode (args : list (list Z)) : mode :=
  let argc := length args in
  let first := nth 1 args [] in
  if (argc =? 2)%nat && bool_decide (first = str "--self-test") then SelfTest
  else if (argc =? 3)%nat && bool_decide (first = str "--state") then StateMode (nth 2 args [])
  else if negb (argc =? 7)%nat && negb (argc =? 8)%nat then Usage
  else ArgumentMode (drop 1 args).

Definition log_of (m : mode) : option log_target :=
  match m with
  | StateMode root => Some (LogFile (root ++ str "\logs\dns-dispatcher.log"))
  | ArgumentMode arguments => Some (match arguments !! 6%nat with Some path => LogFile path | None => LogOutput end)
  | SelfTest | Usage => None
  end.

Definition kExitUsageError : Z := 2.

(** The exit code of the modes that do not serve. *)
Definition early_exit (selfTest : Z) (m : mode) : option Z :=
  match m with
  | SelfTest => Some selfTest
  | Usage => Some kExitUsageError
  | _ => None
  end.

Definition ready_line (apps frequency : Z) (eventFilter : bool) : list Z :=
  str "READY: ETW split-DNS dispatcher on 127.0.0.1:53 (UDP/TCP), apps=" ++ to_string apps ++
  str ", qpc-frequency=" ++ to_string frequency ++ str ", etw-filter=" ++
  (if eventFilter then str "query-event" else str "none").

(** ** Choosing a route *)

(** The line for a query without a process hint; [route] is what [Hints::take]
    gave after [wait] microseconds. *)
Definition selectRoute (q : Question) (transport : list Z) (queryQpc wait : Z) (route : option bool) :
  option bool * list (list Z) :=
  (route,
   match route with
   | Some _ => []
   | None => [str "DNS " ++ q_name q ++ str " type=" ++ to_string (q_type q) ++
              str " -> BLOCKED (no process hint, " ++ transport ++ str ", wait=" ++ to_string wait ++
              str "us, query-qpc=" ++ to_string queryQpc ++ str ")"]
   end).

(** ** Ingress *)

(** [gActiveWorkers], the refusals counted, the workers that run with the client socket each owns (a
    UDP worker owns none), and the client sockets that are open. *)
Record ingress := {
  active : Z;
  refusals : Z;                                   (* [gAdmissionRefusals] *)
  serving : gmap positive (option positive);
  open_clients : gset positive
}.

Definition no_clients : ingress := {| active := 0; refusals := 0; serving := ∅; open_clients := ∅ |}.

(** [acquireWorker]. *)
Definition acquireWorker (s : ingress) : bool * ingress :=
  if active s <? Workers.kMaxWorkers
  then (true, {| active := active s + 1; refusals := refusals s; serving := serving s; open_clients := open_clients s |})
  else (false, {| active := active s; refusals := refusals s + 1; serving := serving s; open_clients := open_clients s |}).

Definition release_worker (s : ingress) : ingress :=
  {| active := active s - 1; refusals := refusals s; serving := serving s; open_clients := open_clients s |}.

Definition start_worker (w : positive) (client : option positive) (s : ingress) : ingress :=
  {| active := active s; refusals := refusals s; serving := <[w := client]> (serving s); open_clients := open_clients s |}.

Definition close_client (c : positive) (s : ingress) : ingress :=
  {| active := active s; refusals := refusals s; serving := serving s; open_clients := open_clients s ∖ {[c]} |}.

(** One turn of the TCP acceptor: [accepted] is the client, if one was ready and
    accepted; [thread] says whether its worker [w] could be created. *)
Definition accept_turn (accepted : option positive) (w : positive) (thread : bool) (s : ingress) : ingress :=
  match accepted with
  | None => s
  | Some client =>
      let s := {| active := active s; refusals := refusals s; serving := serving s; open_clients := {[client]} ∪ open_clients s |} in
      match acquireWorker s with
      | (false, s) => close_client client s
      | (true, s) =>
          if thread then start_worker w (Some client) s
          else close_client client (release_worker s)
      end
  end.

(** One turn of the UDP loop on a packet that is not a liveness query; the
    second component says whether the failure answer was sent. *)
Definition datagram_turn (w : positive) (thread : bool) (s : ingress) : ingress * bool :=
  match acquireWorker s with
  | (false, s) => (s, true)
  | (true, s) => if thread then (start_worker w None s, false) else (release_worker s, true)
  end.

(** A worker ends: its handler closed the client it owned, and the lease is
    given back. *)
Definition worker_done (w : positive) (s : ingress) : ingress :=
  match serving s !! w with
  | None => s
  | Some client =>
      let s := {| active := active s; refusals := refusals s; serving := delete w (serving s); open_clients := open_clients s |} in
      let s := match client with Some c => close_client c s | None => s end in
      release_worker s
  end.

(** Threads and sockets that are created get numbers not in use. *)
Definition client_of (s : ingress) (c : positive) : Prop := exists w, serving s !! w = Some (Some c).

Inductive turn : ingress -> ingress -> Prop :=
| TurnAccept s accepted w thread :
    serving s !! w = None -> (forall c, accepted = Some c -> c ∉ open_clients s) ->
    turn s (accept_turn accepted w thread s)
| TurnDatagram s w thread : serving s !! w = None -> turn s (datagram_turn w thread s).1
| TurnDone s w : turn s (worker_done w s).

Definition reached (s : ingress) : Prop := rtc turn no_clients s.

(** The last steps of [wmain], in order. *)
Inductive final_step := JoinAcceptor | JoinReloader | CloseReloadEvent | DrainWorkers | CloseUdpListener | CloseTcpListener | CleanupSockets.

Definition shutdown (acceptor reloader : bool) : list final_step :=
  (if acceptor then [JoinAcceptor] else []) ++ (if reloader then [JoinReloader; CloseReloadEvent] else []) ++
  [DrainWorkers; CloseUdpListener; CloseTcpListener; CleanupSockets].

(** ** Lemmas *)

Record balanced (s : ingress) : Prop := {
  b_active : active s = Z.of_nat (size (serving s));
  b_limit : active s <= Workers.kMaxWorkers;
  b_clients c : c ∈ open_clients s <-> client_of s c;
  b_owner w1 w2 c : serving s !! w1 = Some (Some c) -> serving s !! w2 = Some (Some c) -> w1 = w2
}.

Lemma balanced_none : balanced no_clients.
Proof. split; simpl; [done|done| |by intros ????]. intros c. split; [set_solver|]. intros [w H]. unfold no_clients in H. cbn in H.
  by rewrite lookup_empty in H.
Qed.

(** The count of refusals plays no part. *)
Lemma balanced_refusals s r :
  balanced s -> balanced {| active := active s; refusals := r; serving := serving s; open_clients := open_clients s |}.
Proof. intros [B1 B2 B3 B4]. by split. Qed.

(** A client that was opened and closed again leaves the sockets as they were. *)
Lemma reopened (c : positive) (m : gset positive) : c ∉ m -> ({[c]} ∪ m) ∖ {[c]} = m.
Proof. set_solver. Qed.

Lemma balanced_start s w client r (m : gset positive) :
  balanced s -> serving s !! w = None -> active s < Workers.kMaxWorkers ->
  (match client with Some c => (c ∉ open_clients s) /\ m = {[c]} ∪ open_clients s | None => m = open_clients s end) ->
  balanced {| active := active s + 1; refusals := r; serving := <[w := client]> (serving s); open_clients := m |}.
Proof.
  intros [B1 B2 B3 B4] Hw Ha Hm. split; cbn [active serving open_clients].
  - rewrite map_size_insert_None by done. lia.
  - lia.
  - intros c. unfold client_of. cbn [serving]. destruct client as [c0|].
    + destruct Hm as [Hc ->]. rewrite elem_of_union, elem_of_singleton, B3. split.
      * intros [->|[w' Hw']]; [exists w; apply lookup_insert_eq|]. exists w'.
        rewrite lookup_insert_ne; [done|]. intros ->. congruence.
      * intros [w' Hw']. destruct (decide (w = w')) as [->|Hne]; [rewrite lookup_insert_eq in Hw'; left; congruence|].
        rewrite lookup_insert_ne in Hw' by done. right. by exists w'.
    + rewrite Hm, B3. split; intros [w' Hw']; exists w'.
      * rewrite lookup_insert_ne; [done|]. intros ->. congruence.
      * destruct (decide (w = w')) as [->|Hne]; [by rewrite lookup_insert_eq in Hw'|]. by rewrite lookup_insert_ne in Hw'.
  - intros w1 w2 c [[<- ->]|[H1 E1]]%lookup_insert_Some [[<- E2]|[H2 E2]]%lookup_insert_Some; [done| | |by apply (B4 w1 w2 c)].
    + destruct Hm as [Hc _]. exfalso. apply Hc, B3. by exists w2.
    + subst client. destruct Hm as [Hc _]. exfalso. apply Hc, B3. by exists w1.
Qed.

Lemma balanced_delete s w client r (m : gset positive) :
  balanced s -> serving s !! w = Some client ->
  (forall c, c ∈ m <-> c ∈ open_clients s /\ client <> Some c) ->
  balanced {| active := active s - 1; refusals := r; serving := delete w (serving s); open_clients := m |}.
Proof.
  intros [B1 B2 B3 B4] Ew Hm.
  assert (size (serving s) = S (size (delete w (serving s)))) as Hsz.
  { rewrite <- (insert_delete_id (serving s) w client Ew) at 1. rewrite map_size_insert_None; [done|]. apply lookup_delete_eq. }
  split; cbn [active serving open_clients]; [lia|lia| |].
  - intros c. rewrite Hm, B3. unfold client_of. cbn [serving]. split.
    + intros [[w' H] Hne]. exists w'. rewrite lookup_delete_ne; [done|]. intros ->. congruence.
    + intros [w' [Hne H]%lookup_delete_Some]. split; [by exists w'|]. intros ->. apply Hne. by apply (B4 w w' c).
  - intros w1 w2 c [_ H1]%lookup_delete_Some [_ H2]%lookup_delete_Some. by apply (B4 w1 w2 c).
Qed.

Lemma balanced_done s w : balanced s -> balanced (worker_done w s).
Proof.
  intros B. unfold worker_done. destruct (serving s !! w) as [[c|]|] eqn:Ew; [| |done].
  - apply (balanced_delete s w (Some c)); [done..|]. intros c'. cbn. rewrite elem_of_difference, elem_of_singleton. naive_solver.
  - apply (balanced_delete s w None); [done..|]. naive_solver.
Qed.

Lemma balanced_turn s s' : balanced s -> turn s s' -> balanced s'.
Proof.
  intros B Ht. destruct Ht as [s accepted w thread Hw Hc|s w thread Hw|s w]; [| |by apply balanced_done].
  - destruct accepted as [c|]; [|done]. specialize (Hc c eq_refl). unfold accept_turn, acquireWorker. cbn [active].
    destruct (active s <? _) eqn:E; bool_to_prop.
    + destruct thread; [by apply (balanced_start s w (Some c))|]. unfold release_worker, close_client. cbn.
      rewrite reopened by done. replace (active s + 1 - 1) with (active s) by lia. by apply balanced_refusals.
    + unfold close_client. cbn. rewrite reopened by done. by apply balanced_refusals.
  - unfold datagram_turn, acquireWorker. destruct (active s <? _) eqn:E; [|by apply balanced_refusals]. bool_to_prop.
    destruct thread; [by apply (balanced_start s w None)|]. unfold release_worker. cbn.
    replace (active s + 1 - 1) with (active s) by lia. by apply balanced_refusals.
Qed.

Lemma ingress_balanced s : reached s -> balanced s.
Proof.
  revert s. apply (rtc_ind_r balanced); [apply balanced_none|]. intros y z _ Hyz Hy. by apply (balanced_turn y).
Qed.

(** ** Theorems *)



(** Every argument list has one meaning, and only the serving modes have a log. *)
Lemma mode_has_log args : (exists t, log_of (parse_mode args) = Some t) <-> early_exit 0 (parse_mode args) = None.
Proof. destruct (parse_mode args); simpl; (split; [by intros []||done|done||by eexists]). Qed.
