(* ===== verification/DispatcherSelfTest.v ===== *)
(** * DispatcherSelfTest: the dispatcher's own tests, run on the model

    Translates the scenarios of [src/src/native/dns-dispatcher-self-test.h] that
    exercise what is modelled: the wire format, the included list, the evidence
    table with its barrier, the worker limit, the delay of events, the physical
    resolvers with their failover, and the exchanges with a scripted peer.  Each
    is an executable program over the model's operations, evaluated here; a
    [Sleep] moves the model's clock.  Scenarios that need threads or real sockets
    run with the other thread's actions at the times the test gives them. *)
From Stdlib Require Import ZifyBool.
From S2P Require Import Prelude Numbers DnsWire Attribution Sockets Upstream Dispatch Transfers Capacity Identity PathIdentity Trace DispatcherMain Taking.

(** ** A test bench *)

(** An object of class [Hints] with the writer it was given and its barrier's
    timeout. *)
Record object := { o_hints : Hints; o_writer : sentinel_writer; o_timeout : Z }.

(** The clock, the objects, and the test's variables [reused] and
    [generation]. *)
Record bench := { b_now : Z; b_objects : list (nat * object); b_reused : bool; b_generation : Z }.

Definition test (A : Type) : Type := bench -> (Z + A) * bench.
#[export] Instance test_ret : MRet test := fun A a b => (inr a, b).
#[export] Instance test_bind : MBind test := fun A B k m b =>
  match m b with (inr a, b') => k a b' | (inl code, b') => (inl code, b') end.

(** [if (!ok) return code;] *)
Definition require (ok : bool) (code : Z) : test unit := fun b => (if ok then inr tt else inl code, b).

Definition no_writer : sentinel_writer := fun _ _ => (false, []).

Definition start : bench := {| b_now := seconds 1000; b_objects := []; b_reused := false; b_generation := 0 |}.

Fixpoint find_object (id : nat) (objects : list (nat * object)) : option object :=
  match objects with
  | [] => None
  | (i, o) :: rest => if (i =? id)%nat then Some o else find_object id rest
  end.

Definition put_object (id : nat) (o : object) (b : bench) : bench :=
  {| b_now := b_now b; b_objects := (id, o) :: List.filter (fun e => negb (e.1 =? id)%nat) (b_objects b);
     b_reused := b_reused b; b_generation := b_generation b |}.

(** [Hints id(apps, window, timeout);] *)
Definition create (id : nat) (apps : list (list Z)) (window timeout : Z) : test unit := fun b =>
  (inr tt, put_object id {| o_hints := newHints (list_to_set apps) (milliseconds window); o_writer := no_writer;
                            o_timeout := milliseconds timeout |} b).

(** On an object that exists; 1000 is no code of the tests. *)
Definition on {A} (id : nat) (f : object -> Z -> A * object) : test A := fun b =>
  match find_object id (b_objects b) with
  | None => (inl 1000, b)
  | Some o => let '(a, o) := f o (b_now b) in (inr a, put_object id o b)
  end.

Definition with_table (o : object) (h : Hints) : object := {| o_hints := h; o_writer := o_writer o; o_timeout := o_timeout o |}.

Definition setSentinelWriter (id : nat) (w : sentinel_writer) : test unit :=
  on id (fun o _ => (tt, {| o_hints := o_hints o; o_writer := w; o_timeout := o_timeout o |})).

Definition sleep_until (t : Z) : test unit := fun b =>
  (inr tt, {| b_now := Z.max (b_now b) t; b_objects := b_objects b; b_reused := b_reused b; b_generation := b_generation b |}).

Definition sleep (ms : Z) : test unit := fun b => sleep_until (b_now b + milliseconds ms) b.
Definition time_now : test Z := fun b => (inr (b_now b), b).

Section Bench.
#[local] Existing Instance c_locale.

Definition add (id : nat) (name path : list Z) : test bool :=
  on id (fun o now => let '(ok, h) := addResolved (o_hints o) now name 1 path in (ok, with_table o h)).

Definition lost_events (id : nat) : test unit :=
  on id (fun o now => (tt, with_table o (lostEvents (o_hints o) now))).

Definition complete_with (id : nat) (name : list Z) (gen : Z) : test unit :=
  on id (fun o now => (tt, with_table o (complete (o_hints o) now (makeKey name 1) gen))).

Definition complete_latest (id : nat) (name : list Z) : test unit := complete_with id name kLatestGeneration.

(** [take(name, 1, &reused, &generation)]. *)
Definition take_ (id : nat) (name : list Z) : test (option bool) := fun b =>
  match find_object id (b_objects b) with
  | None => (inl 1000, b)
  | Some o =>
      let r := Taking.take (o_writer o) (o_timeout o) (b_now b) (o_hints o) name 1 in
      (inr (t_route r),
       put_object id (with_table o (t_hints r))
         {| b_now := t_now r; b_objects := b_objects b; b_reused := t_reused r;
            b_generation := default (b_generation b) (t_generation r) |})
  end.

Definition unsafe (id : nat) (name : list Z) : test bool := fun b =>
  match find_object id (b_objects b) with
  | None => (inl 1000, b)
  | Some o =>
      let '(r, now, h) := Taking.directAnswerUnsafe (o_writer o) (o_timeout o) (b_now b) (o_hints o) name 1 in
      (inr r, put_object id (with_table o h)
                {| b_now := now; b_objects := b_objects b; b_reused := b_reused b; b_generation := b_generation b |})
  end.

Definition reused : test bool := fun b => (inr (b_reused b), b).
Definition last_generation : test Z := fun b => (inr (b_generation b), b).

(** [if (take(name) != route) return code;] *)
Definition expect (id : nat) (name : list Z) (route : option bool) (code : Z) : test unit :=
  r ← take_ id name; require (bool_decide (r = route)) code.

Definition expect_unsafe (id : nat) (name : list Z) (value : bool) (code : Z) : test unit :=
  r ← unsafe id name; require (Bool.eqb r value) code.

Definition expect_reused (value : bool) (code : Z) : test unit := r ← reused; require (Bool.eqb r value) code.

Definition verdict (t : test unit) : Z := match (t start).1 with inl code => code | inr _ => 0 end.

(** ** The programs and barriers of the tests *)

Definition selected_exe : list Z := str "c:\apps\selected.exe".
Definition direct_exe : list Z := str "c:\apps\direct.exe".
Definition unknown_exe : list Z := [].

(** [lateSelectedBarrier]: the selected application's event first, then the
    sentinel, 30 ms later. *)
Definition lateSelectedBarrier (name : list Z) : sentinel_writer := fun n now =>
  let t := now + milliseconds 30 in (true, [OpEvent t name 1 selected_exe; OpSentinel t n; OpFlush t n]).

Definition accepted_only : sentinel_writer := fun _ _ => (true, []).
Definition sentinel_only : sentinel_writer := fun n now => (true, [OpSentinel now n]).

Definition new_object (id : nat) (window timeout : Z) (w : sentinel_writer) : test unit :=
  create id [selected_exe] window timeout ;; setSentinelWriter id w.

(** The usual window and timeout of the class. *)
Definition usual (id : nat) : test unit := new_object id 3000 500 immediate.
End Bench.

(** ** The evidence table *)

Section Scenarios.
#[local] Existing Instance c_locale.

(** The objects of [selfTest], by name. *)
Definition precedence : nat := 1.
Definition unknownLater : nat := 2.
Definition unknownKept : nat := 3.
Definition unknownReuse : nat := 4.
Definition unknownDuring : nat := 5.
Definition inFlight : nat := 6.
Definition noReuse : nat := 7.

(** An event whose process could not be identified. *)
Definition unknown_scenario : test unit :=
  usual precedence ;;
  let name := str "precedence.example" in
  add precedence name unknown_exe ;;
  expect precedence name None 9 ;;
  add precedence name direct_exe ;;
  expect precedence name None 10 ;;
  usual unknownLater ;;
  add unknownLater (str "later.example") direct_exe ;;
  add unknownLater (str "later.example") unknown_exe ;;
  expect unknownLater (str "later.example") None 71 ;;
  new_object unknownKept 0 500 immediate ;;
  add unknownKept (str "kept.example") unknown_exe ;;
  add unknownKept (str "kept.example") selected_exe ;;
  expect unknownKept (str "kept.example") (Some true) 72 ;;
  complete_latest unknownKept (str "kept.example") ;;
  add unknownKept (str "kept.example") direct_exe ;;
  expect unknownKept (str "kept.example") None 73.

(** The reusable route ends before the quarantine does. *)
Definition quarantine_scenario : test unit :=
  new_object unknownReuse 50 500 immediate ;;
  let name := str "reuse.example" in
  add unknownReuse name unknown_exe ;;
  add unknownReuse name selected_exe ;;
  expect unknownReuse name (Some true) 76 ;;
  reuseGeneration ← last_generation;
  complete_with unknownReuse name reuseGeneration ;;
  sleep 80 ;;
  expect unknownReuse name None 77 ;;
  add unknownReuse name direct_exe ;;
  expect unknownReuse name None 78 ;;
  expect_unsafe unknownReuse name true 78 ;;
  lost_events unknownReuse ;;
  add unknownReuse name direct_exe ;;
  expect_unsafe unknownReuse name true 79 ;;
  usual unknownDuring ;;
  add unknownDuring (str "during.example") direct_exe ;;
  expect unknownDuring (str "during.example") (Some false) 74 ;;
  add unknownDuring (str "during.example") unknown_exe ;;
  expect_unsafe unknownDuring (str "during.example") true 75.

(** Selected evidence, reuse of an answered route, and newer events. *)
Definition precedence_scenario : test unit :=
  let name := str "precedence.example" in
  add precedence name selected_exe ;;
  expect precedence name (Some true) 11 ;;
  complete_latest precedence name ;;
  expect precedence name (Some true) 19 ;; expect_reused true 19 ;;
  add precedence name direct_exe ;;
  expect precedence name (Some true) 20 ;; expect_reused false 20.

(** A selected hint while a direct query is in flight. *)
Definition race_scenario : test unit :=
  usual inFlight ;;
  let name := str "race.example" in
  add inFlight name direct_exe ;;
  expect inFlight name (Some false) 33 ;;
  add inFlight name selected_exe ;;
  complete_latest inFlight name ;;
  expect inFlight name (Some true) 34 ;; expect_reused false 34 ;;
  complete_latest inFlight name ;;
  add inFlight name direct_exe ;;
  expect inFlight name (Some true) 35 ;;
  add inFlight name selected_exe ;;
  complete_latest inFlight name ;;
  add inFlight name direct_exe ;;
  expect inFlight name (Some true) 36.

(** Outside the window. *)
Definition window_scenario : test unit :=
  new_object noReuse 0 500 immediate ;;
  add noReuse (str "window.example") selected_exe ;;
  expect noReuse (str "window.example") (Some true) 54 ;;
  complete_latest noReuse (str "window.example") ;;
  add noReuse (str "window.example") direct_exe ;;
  expect noReuse (str "window.example") (Some false) 55 ;;
  add noReuse (str "blocked.example") direct_exe ;;
  r ← take_ noReuse (str "blocked.example");
  require (bool_decide (is_Some r)) 21 ;;
  complete_latest noReuse (str "blocked.example") ;;
  expect noReuse (str "blocked.example") None 22 ;; expect_reused false 22.

(** Lost events: direct evidence is dropped, tunnel evidence is kept. *)
Definition lost_scenario : test unit :=
  let lost := 8%nat in
  create lost [str "selected.exe"] 3000 500 ;; setSentinelWriter lost immediate ;;
  add lost (str "direct.example") (str "direct.exe") ;;
  expect lost (str "direct.example") (Some false) 32 ;;
  complete_latest lost (str "direct.example") ;;
  add lost (str "tunnel.example") (str "selected.exe") ;;
  lost_events lost ;;
  expect lost (str "tunnel.example") (Some true) 37 ;;
  expect lost (str "direct.example") None 38 ;;
  add lost (str "later.example") (str "direct.exe") ;;
  expect lost (str "later.example") None 39 ;;
  add lost (str "later.example") (str "selected.exe") ;;
  expect lost (str "later.example") (Some true) 40.

Definition table_test : test unit :=
  unknown_scenario ;; quarantine_scenario ;; precedence_scenario ;; race_scenario ;; window_scenario.

(** ** The barrier *)

(** [hintProgressDoesNotFinishBarrierTest]: an event, a loss, an overflow and the
    sentinel alone, ten milliseconds apart, do not end the wait; the loss check
    does, and the lost attribution still refuses. *)
Definition progress_writer : sentinel_writer := fun n now =>
  (true, [OpEvent now (str "waiting.example") 1 direct_exe;
          OpLost (now + milliseconds 10);
          OpEvent (now + milliseconds 20) (replicate 300 120) 1 selected_exe;
          OpSentinel (now + milliseconds 30) n;
          OpFlush (now + milliseconds 40) n]).

Definition hintProgressDoesNotFinishBarrierTest : test unit :=
  let hints := 10%nat in
  new_object hints 3000 500 progress_writer ;;
  started ← time_now;
  answer ← take_ hints (str "waiting.example");
  finished ← time_now;
  require ((finished =? started + milliseconds 40) && negb (bool_decide (is_Some answer))) 72.

Definition ordered_object : nat := 11.
Definition reuse : nat := 12.
Definition stalled : nat := 13.

(** The selected query's event comes after its packet. *)
Definition late_scenario : test unit :=
  new_object ordered_object 3000 500 (lateSelectedBarrier (str "order.example")) ;;
  add ordered_object (str "order.example") direct_exe ;;
  expect ordered_object (str "order.example") (Some true) 41 ;;
  usual reuse ;;
  add reuse (str "reuse.example") direct_exe ;;
  expect reuse (str "reuse.example") (Some false) 42 ;;
  complete_latest reuse (str "reuse.example") ;;
  setSentinelWriter reuse (lateSelectedBarrier (str "reuse.example")) ;;
  expect reuse (str "reuse.example") (Some true) 43 ;; expect_reused false 43.

(** Barriers that do not complete. *)
Definition stalled_scenario : test unit :=
  let name := str "stalled.example" in
  new_object stalled 3000 100 accepted_only ;;
  add stalled name direct_exe ;;
  stalledStart ← time_now;
  expect stalled name None 44 ;;
  now ← time_now;
  require ((milliseconds 90 <=? now - stalledStart) && (now - stalledStart <=? seconds 1)) 45 ;;
  setSentinelWriter stalled sentinel_only ;;
  expect stalled name None 46 ;;
  setSentinelWriter stalled no_writer ;;
  expect stalled name None 47 ;;
  add stalled (str "selected.example") selected_exe ;;
  expect stalled (str "selected.example") (Some true) 48.

Definition fallback : nat := 14.
Definition merged : nat := 15.

(** A fallback to TCP raises no event; a hint merged during an exchange. *)
Definition provenance_scenario : test unit :=
  usual fallback ;;
  let name := str "fallback.example" in
  add fallback name selected_exe ;;
  expect fallback name (Some true) 56 ;;
  generation ← last_generation;
  complete_with fallback name generation ;;
  add fallback name direct_exe ;;
  expect fallback name (Some true) 57 ;;
  new_object merged 0 500 immediate ;;
  let name := str "merged.example" in
  add merged name selected_exe ;;
  expect merged name (Some true) 58 ;;
  generation ← last_generation;
  add merged name selected_exe ;;
  complete_with merged name generation ;;
  add merged name direct_exe ;;
  expect merged name (Some true) 59.

Definition inFlightDirect : nat := 16.
Definition lossDuring : nat := 17.
Definition overflowDuring : nat := 18.
Definition none : nat := 19.

(** Answers that are withheld. *)
Definition withheld_scenario : test unit :=
  usual inFlightDirect ;;
  let name := str "merge.example" in
  add inFlightDirect name direct_exe ;;
  expect inFlightDirect name (Some false) 64 ;;
  expect_unsafe inFlightDirect name false 64 ;;
  setSentinelWriter inFlightDirect (lateSelectedBarrier name) ;;
  expect_unsafe inFlightDirect name true 65 ;;
  expect inFlightDirect name (Some true) 65 ;;
  setSentinelWriter stalled no_writer ;;
  expect_unsafe stalled (str "stalled.example") true 66 ;;
  usual lossDuring ;;
  add lossDuring (str "loss.example") direct_exe ;;
  expect lossDuring (str "loss.example") (Some false) 67 ;;
  lost_events lossDuring ;;
  expect_unsafe lossDuring (str "loss.example") true 68 ;;
  usual overflowDuring ;;
  add overflowDuring (str "overflow.example") direct_exe ;;
  expect overflowDuring (str "overflow.example") (Some false) 69 ;;
  add overflowDuring (replicate 300 120) selected_exe ;;
  expect_unsafe overflowDuring (str "overflow.example") true 70 ;;
  usual none ;;
  noneStart ← time_now;
  expect none (str "none.example") None 49 ;;
  now ← time_now;
  require (now - noneStart <=? milliseconds 100) 50.

Definition barrierTest : test unit :=
  hintProgressDoesNotFinishBarrierTest ;; late_scenario ;; stalled_scenario ;; provenance_scenario ;; withheld_scenario.
End Scenarios.

(** The scenarios pass. *)
Theorem table_tests_pass : verdict table_test = 0 /\ verdict lost_scenario = 0 /\ verdict barrierTest = 0.
Proof. split; by vm_compute. Qed.


(** ** Wire format, included list, limits *)

Section Pure.
#[local] Existing Instance c_locale.
#[local] Instance xdigits : XDigits := demo_xdigits.
#[local] Instance paths : Paths := demo_paths.

(** The query of [selfTest]: example.com, type A. *)
Definition example_query : packet :=
  let header := <[5%nat := 1]> (replicate 12 0) in
  header ++ concat (map (fun label => Z.of_nat (length label) :: label) [str "example"; str "com"]) ++ [0; 0; 1; 0; 1].

(** [p[i] = v] and [p[p.size() - i] = v]. *)
Definition at_put (p : packet) (i : nat) (v : Z) : packet := <[i := v]> p.
Definition back_put (p : packet) (i : nat) (v : Z) : packet := <[(length p - i)%nat := v]> p.
Definition byte_at (p : packet) (i : nat) : Z := nth i p 0.

Definition with_edns : packet := at_put example_query 11 1 ++ [0; 0; 41; 4; 208; 0; 0; 0; 0; 0; 0].
Definition small_edns : packet := back_put (back_put with_edns 8 0) 7 100.
Definition cut_edns : packet := firstn (length small_edns - 3) small_edns.

Definition is_value {A} `{EqDecision A} (o : option A) (v : A) : bool := bool_decide (o = Some v).

Definition identity_line (rest : list Z) : list Z := str "# wgps-identities 1" ++ [10] ++ rest.
Definition row (fields : list (list Z)) : list Z :=
  match fields with [] => [] | f :: rest => foldl (fun line x => line ++ [9] ++ x) f rest end.
Definition one : list Z := str "C:\A\One.exe".

Definition damaged_records : list (list Z) :=
  [identity_line (row [one; one; str "0a0b"]);
   identity_line (row [one; []; str "0a0b"] ++ [10]);
   identity_line (row [[]; one; str "0a0b"] ++ [10]);
   identity_line (row [one; one] ++ [10]);
   identity_line (row [one; one; str "0a0"] ++ [10]);
   identity_line (row [one; one; str "0a,,0b"] ++ [10]);
   identity_line (row [one; one; str "zz"] ++ [10]);
   identity_line [10]].

Definition reply_of (query : packet) : packet := at_put query 2 128.
Definition mismatched : packet := at_put (reply_of example_query) 1 (Z.lxor (byte_at (reply_of example_query) 1) 1).
Definition answered_query : packet :=
  at_put (at_put (reply_of example_query) 6 0) 7 1 ++ [192; 12; 0; 1; 0; 1; 0; 0; 1; 44; 0; 4; 1; 2; 3; 4].

(** [selfTest] up to the image resolver. *)
Definition wire_checks : list (bool * Z) :=
  [(is_value (advertisedUdpSize example_query) 512, 60);
   (is_value (advertisedUdpSize with_edns) 1232, 61);
   (is_value (advertisedUdpSize small_edns) 512, 62);
   (is_value (advertisedUdpSize cut_edns) 512, 63);
   (match parseQuestion example_query with
    | Some (Some q) => bool_decide (q_name q = str "example.com") && (q_type q =? 1)
    | _ => false
    end, 1);
   (bool_decide (normalizeName (str "Example.COM.") = str "example.com"), 2);
   (match parseIncludedText (str "  C:\Apps\One.exe" ++ [13; 10] ++ str "# comment" ++ [10] ++ str "C:\Apps\Two.exe" ++ [10]) with
    | Some s => bool_decide (s = {[str "c:\apps\one.exe"; str "c:\apps\two.exe"]})
    | None => false
    end, 3);
   (match parseIncludedText (identity_line (row [one; one; str "0a0b,0C0d"] ++ [10])) with
    | Some s => bool_decide (s = {[str "c:\a\one.exe"]})
    | None => false
    end, 51);
   (is_value (parseIncludedText (identity_line [])) ∅, 52);
   (forallb (fun text => bool_decide (parseIncludedText text = None)) damaged_records, 53);
   (match makeServfail example_query with
    | Some f => (length f =? length example_query)%nat && has_bits (byte_at f 2) 128 && (Z.land (byte_at f 3) 15 =? 2)
    | None => false
    end, 4);
   (is_value (matchingResponse example_query (reply_of example_query)) true, 5);
   (is_value (matchingResponse example_query mismatched) false, 6);
   (match zeroResponseTtls answered_query with
    | Some (true, a) => forallb (fun i => byte_at a (length a - i) =? 0) [10%nat; 9%nat; 8%nat; 7%nat]
    | _ => false
    end, 7)].

(** [acquireWorker] called [n] times: whether all were admitted, and the
    state. *)
Fixpoint acquire_all (n : nat) (s : ingress) : bool * ingress :=
  match n with
  | O => (true, s)
  | S n => let '(ok, s) := acquireWorker s in let '(all, s) := acquire_all n s in (ok && all, s)
  end.

Definition limit_checks : list (bool * Z) :=
  let '(all, full) := acquire_all 256 no_clients in
  let freed := Nat.iter 256 release_worker full in
  [(all, 12); (negb (acquireWorker full).1, 13); (active freed =? 0, 14);
   (qpcElapsedMilliseconds 1500 1000 1000 =? 500, 15);
   (qpcElapsedMilliseconds 999 1000 1000 =? -1, 16);
   (qpcElapsedMilliseconds 1500 1000 0 =? -1, 17);
   (qpcElapsedMilliseconds 0 0 1000 =? -1, 18)].

(** Dotted-decimal text: four numbers of one to three digits, at most 255. *)
Definition octet (text : list Z) : option Z :=
  if (3 <? length text)%nat then None else parseDecimal text 255.

Fixpoint split_at_dots (text : list Z) : list (list Z) :=
  match text with
  | [] => [[]]
  | c :: rest =>
      match split_at_dots rest with
      | label :: more => if c =? 46 then [] :: label :: more else (c :: label) :: more
      | [] => [[c]]
      end
  end.

Definition dotted_decimal (text : list Z) : option Z :=
  octets ← mapM octet (split_at_dots text);
  if (length octets =? 4)%nat then Some (foldl (fun a o => a * 256 + o) 0 octets) else None.

#[local] Instance dotted_inet : Inet := {| inet_pton := dotted_decimal |}.

Definition malformed_resolvers : list (list Z) :=
  [[]; str "192.0.2.1,"; str ",192.0.2.1"; str "192.0.2.1,192.0.2.1"; str "192.0.2.1;192.0.2.2";
   str "192.0.2.1,192.0.2.2,192.0.2.3,192.0.2.4"; str "999.0.2.1"; str "192.0.2.1, 192.0.2.2"].

Definition resolver_checks : list (bool * Z) :=
  [(match resolverList (str "192.0.2.1,198.51.100.2"), resolverList (str "192.0.2.1") with
    | Some two, Some single => (length two =? 2)%nat && (length single =? 1)%nat
    | _, _ => false
    end, 86);
   (forallb (fun text => bool_decide (resolverList text = None)) malformed_resolvers, 88)].
End Pure.

Theorem pure_tests_pass : first_failure (wire_checks ++ limit_checks ++ resolver_checks) = 0.
Proof. by vm_compute. Qed.

(** ** The physical resolvers *)

Section Failover.

(** A [TestResolver] with its [SilentTcp]: whether it answers over UDP, with the
    truncation bit or not; no one answers over TCP. *)
Record test_resolver := { answering : bool; truncate : bool }.

Definition test_reply (query : packet) (r : test_resolver) : packet :=
  at_put query 2 (Z.lor (byte_at query 2) (Z.lor 128 (if truncate r then 2 else 0))).

(** A socket that connects and takes what is sent at once; [arrivals] is what it
    delivers. *)
Definition test_link (query : packet) (arrivals : schedule recv_result) : link := {|
  l_socket := true; l_nonblocking := true; l_bind := true; l_connect := Connected; l_stop := None;
  l_writable := Transfers.Ready 0; l_sent := Z.of_nat (length query); l_sends := [(Transfers.Ready 0, Sent (length query + 2))];
  l_arrivals := arrivals
|}.

(** [TestResolver]: an answer takes a millisecond; when it is not answering it
    takes the datagram and nothing arrives. *)
Definition test_answer (query : packet) (r : test_resolver) : schedule recv_result :=
  if answering r then [(Transfers.Ready 1000, Received (test_reply query r))] else [].

(** [SilentTcp]: the connection is made, the frame taken, nothing arrives. *)
Definition SilentTcp (query : packet) : link := test_link query [].

(** The resolvers' addresses are their numbers. *)
Definition test_network (query : packet) (resolvers : list test_resolver) : Exchanges :=
  timed_exchanges (fun t source resolver timeout now =>
    match t, resolvers !! Z.to_nat resolver with
    | UDP, Some r => test_link query (test_answer query r)
    | _, _ => SilentTcp query
    end).

Definition silent : test_resolver := {| answering := false; truncate := false |}.
Definition plain : test_resolver := {| answering := true; truncate := false |}.
Definition truncating : test_resolver := {| answering := true; truncate := true |}.

(** The lambda [exchange] of [failoverTest]: the milliseconds it took, -1 without
    an answer, who answered, the preference and the time after it. *)
Definition test_exchange (resolvers : list test_resolver) (state : DirectResolvers.state) (answeredBy : nat) (now : Z) :
  Z * nat * DirectResolvers.state * Z :=
  let '(r, state, ended, _) := DirectResolvers.directExchange
    (fun index timeout now => @exchange (test_network example_query resolvers) UDP example_query 0 (Z.of_nat index) timeout now)
    state (length resolvers) (now + DirectResolvers.ms DirectResolvers.kDirectBudgetMilliseconds) now false in
  match r with
  | Some (_, index) => ((ended - now) / 1000000, index, state, ended)
  | None => (-1, answeredBy, state, ended)
  end.

(** The loop that waits for the primary to be used again. *)
Fixpoint recovery_loop (fuel : nat) (recovering : Z) (state : DirectResolvers.state) (answeredBy : nat) (now : Z) :
  Z + (nat * Z) :=
  match fuel with
  | O => inr (answeredBy, now)
  | S fuel =>
      if DirectResolvers.ms 3000 <=? now - recovering then inr (answeredBy, now)
      else
        let '(took, answeredBy, state, now) := test_exchange [plain; plain] state answeredBy now in
        if took <? 0 then inl 84
        else if (answeredBy =? 0)%nat then inr (answeredBy, now)
        else recovery_loop fuel recovering state answeredBy (now + DirectResolvers.ms 100)
  end.

Definition within (low value high : Z) : bool := (low <=? value) && (value <=? high).
Definition test_start : Z := DirectResolvers.ms 1000000.
Definition budget : Z := DirectResolvers.kDirectBudgetMilliseconds.

Definition preference_checks : list (bool * Z) :=
  let state := {| DirectResolvers.preferFor := DirectResolvers.ms 600; DirectResolvers.preferred := 0;
                  DirectResolvers.probePrimaryAt := 0 |} in
  let '(first, answeredBy, state, now) := test_exchange [silent; plain] state 9 test_start in
  let '(preferred, answeredBy2, state, now) := test_exchange [silent; plain] state answeredBy now in
  [(within 1000 first 2500 && (answeredBy =? 1)%nat, 82);
   (within 0 preferred 500 && (answeredBy2 =? 1)%nat, 83)] ++
  match recovery_loop 40 now state answeredBy2 now with
  | inl code => [(false, code)]
  | inr (answeredBy, ended) => [((answeredBy =? 0)%nat && ((ended - now) / 1000000 <=? 1500), 85)]
  end.

Definition test_routes (count : nat) : Routes :=
  {| directSource := 0; directDns := map Z.of_nat (seq 0 count); tunnelSource := 0; tunnelDns := 0 |}.

Definition elapsed (ended : Z) : Z := (ended - test_start) / 1000000.

Definition deadline_checks : list (bool * Z) :=
  let fresh := DirectResolvers.new in
  [(match @exchangeUdpRoute (test_network example_query [silent; silent; truncating]) example_query false (test_routes 3) true fresh test_start with
    | Some out => bool_decide (is_Some (response out)) && negb (completed out) && (resolverIndex out =? 2)%nat &&
                  (elapsed (finished out) <=? budget + 400)
    | None => false
    end, 86);
   (let out := @exchangeTcpRoute (test_network example_query [silent; silent]) example_query false (test_routes 2) true fresh test_start in
    negb (bool_decide (is_Some (response out))) && within (budget - 400) (elapsed (finished out)) (budget + 400), 87);
   (let out := @exchangeTcpRoute (test_network example_query [silent; plain]) example_query false (test_routes 2) true fresh test_start in
    bool_decide (is_Some (response out)) && (elapsed (finished out) <=? budget + 400), 89)].

Definition failoverTest : list (bool * Z) := preference_checks ++ deadline_checks.

(** ** The tunnel's share *)

(** A lease is constructed by one thread: the load, then one turn. *)
Definition lease_on (l : ExchangeLimit.limit) (id : positive) : ExchangeLimit.limit :=
  ExchangeLimit.acquire_step (ExchangeLimit.acquire_step l id false) id false.

Definition allowed (l : ExchangeLimit.limit) (id : positive) : bool :=
  ExchangeLimit.holds_place (ExchangeLimit.lease_of l id).

Definition held_leases : list positive := map Pos.of_nat (seq 1 128).

Definition tunnelCapacityTest : list (bool * Z) :=
  let network := test_network example_query [plain] in
  let routes := test_routes 1 in
  let full := foldl lease_on (ExchangeLimit.created 128) held_leases in
  let next := 200%positive in
  let route tunnel lease := @exchangeUdpRoute network example_query tunnel routes lease DirectResolvers.new test_start in
  let answered o := match o with Some out => bool_decide (is_Some (response out)) | None => false end in
  let limited := negb (allowed (lease_on full next) next) in
  let free := foldl ExchangeLimit.release_step full held_leases in
  [(forallb (allowed full) held_leases, 91);
   (limited && negb (answered (route true (negb limited))), 92);
   (limited && negb (bool_decide (is_Some (response (@exchangeTcpRoute network example_query true routes (negb limited) DirectResolvers.new test_start)))), 93);
   (answered (route false true), 94);
   (ExchangeLimit.active_ full =? 128, 95);
   (answered (route true (allowed (lease_on free next) next)) && (ExchangeLimit.active_ (ExchangeLimit.release_step (lease_on free next) next) =? 0), 96);
   (allowed (lease_on free next) next, 97);
   (ExchangeLimit.active_ (ExchangeLimit.release_step (lease_on free next) next) =? 0, 98)].

(** ** Exchanges with a scripted peer *)

(** The server thread of [exchangeTest], given what the client puts on the wire:
    what it sends back, a millisecond later.  It answers only the query itself,
    after a datagram with another identifier if there is a decoy. *)
Definition test_server (query : packet) (tcp decoy : bool) (wire : list Z) : schedule recv_result :=
  let reply := at_put query 2 128 in
  let sent bytes := (Transfers.Ready 1000, Received bytes) in
  if tcp then
    match receiveAll [Received (firstn 2 wire)] 2 with
    | None => []
    | Some (size, _) =>
        let size := Z.to_nat (default 0 (read16 size 0)) in
        match receiveAll [Received (skipn 2 wire)] size with
        | None => []
        | Some (request, _) =>
            if negb (bool_decide (request = query)) then []
            else let frame := (sendDnsFrame reply [Sent (length reply + 2)]).2 in [sent (firstn 2 frame); sent (skipn 2 frame)]
        end
    end
  else if negb (length wire =? length query)%nat then []
  else
    let other := at_put reply 1 (Z.lxor (byte_at reply 1) 1) in
    (if decoy then [sent other] else []) ++ [sent reply].

Definition exchangeTest (query : packet) (tcp decoy : bool) : bool :=
  let wire := if tcp then (sendDnsFrame query [Sent (length query + 2)]).2 else query in
  let l := test_link query (test_server query tcp decoy wire) in
  let answer := if tcp then tcp_exchange query l 4000 0 else udp_exchange query l 4000 0 in
  bool_decide (answer.1 = Some (Some (at_put query 2 128))).

Definition exchange_checks : list (bool * Z) :=
  [(exchangeTest example_query false false && exchangeTest example_query true false && exchangeTest example_query false true, 29)].

(** The largest UDP payload and the largest frame: the query followed by
    zeros. *)
Definition large_query (size : nat) : packet := example_query ++ replicate (size - length example_query) 0.

Definition large_checks : list (bool * Z) :=
  [(exchangeTest (large_query (Z.to_nat 65507)) false false && exchangeTest (large_query (Z.to_nat 65507)) true false, 30);
   (exchangeTest (large_query (Z.to_nat 65535)) true false, 31)].
End Failover.

Theorem network_tests_pass :
  first_failure failoverTest = 0 /\ first_failure tunnelCapacityTest = 0 /\ first_failure exchange_checks = 0 /\ first_failure large_checks = 0.
Proof. split_and!; by vm_compute. Qed.
