(* ===== verification/Runner.v ===== *)
(** * Runner: the bounded runner and its result

    Models [src/src/native/bounded-run.h], the runner every component uses for a
    program it waits on (strict base64, bounded pipe draining, containment before
    the first instruction, the result frame), and the frame's reader
    [resultFrame] of [tray-support.h].  Operating-system answers are arguments;
    the tray's base64 decoder is a system call, a parameter with its documented
    inverse law. *)
From S2P Require Import Prelude Numbers Identity.

(** ** Base64 *)

Definition kAlphabet : list Z := str "ABCDEFGHIJKLMNOPQRSTUVWXYZabcdefghijklmnopqrstuvwxyz0123456789+/".

Definition letter (n : Z) : Z := nth (Z.to_nat n) kAlphabet 0.

(** The four characters of up to three bytes; an absent byte counts as zero and
    its character is padding. *)
Definition group_of (a : Z) (b c : option Z) : list Z :=
  let value := Z.lor (Z.lor (Z.shiftl a 16) (Z.shiftl (default 0 b) 8)) (default 0 c) in
  [letter (Z.land (Z.shiftr value 18) 63); letter (Z.land (Z.shiftr value 12) 63);
   match b with Some _ => letter (Z.land (Z.shiftr value 6) 63) | None => 61 end;
   match c with Some _ => letter (Z.land value 63) | None => 61 end].

Fixpoint base64Encode (bytes : list Z) : list Z :=
  match bytes with
  | [] => []
  | [a] => group_of a None None
  | [a; b] => group_of a (Some b) None
  | a :: b :: c :: rest => group_of a (Some b) (Some c) ++ base64Encode rest
  end.

(** The digit of a character; [last_two]: it is one of the last two. *)
Definition digit_of (c : Z) (last_two : bool) : Z :=
  if (65 <=? c) && (c <=? 90) then c - 65
  else if (97 <=? c) && (c <=? 122) then c - 97 + 26
  else if (48 <=? c) && (c <=? 57) then c - 48 + 52
  else if c =? 43 then 62
  else if c =? 47 then 63
  else if (c =? 61) && last_two then 0 else -1.

(** The loop: the value, a 32-bit register, the bits it has not given out, the
    padding seen and the bytes so far. *)
Fixpoint decode_loop (text : list Z) (value bits : Z) (padding : nat) (result : list Z) : option (list Z * nat) :=
  match text with
  | [] => Some (result, padding)
  | c :: rest =>
      let digit := digit_of c (length text <=? 2)%nat in
      let padding := if (c =? 61) && (length text <=? 2)%nat then S padding else padding in
      if (digit <? 0) || (negb (padding =? 0)%nat && negb (c =? 61)) then None
      else
        let value := Z.lor (u32 (Z.shiftl value 6)) digit in
        let bits := bits + 6 in
        if 8 <=? bits
        then decode_loop rest value (bits - 8) padding (result ++ [Z.land (Z.shiftr value (bits - 8)) 255])
        else decode_loop rest value bits padding result
  end.

(** Empty on any malformed input. *)
Definition base64Decode (text : list Z) : list Z :=
  if (length text =? 0)%nat || negb (length text mod 4 =? 0)%nat then []
  else match decode_loop text 0 0 0 [] with
       | Some (result, padding) => take (length result - padding) result
       | None => []
       end.

(** *** What encoding writes, decoding reads *)

Lemma digit_letter n b : 0 <= n < 64 -> digit_of (letter n) b = n.
Proof.
  intros Hn. assert (n ∈ seqZ 0 64) as H by (apply elem_of_seqZ; lia). revert H. vm_compute (seqZ 0 64).
  intros H. repeat (apply elem_of_cons in H as [->|H]; [by destruct b|]). by apply elem_of_nil in H.
Qed.

Lemma letter_not_pad n : 0 <= n < 64 -> (letter n =? 61) = false.
Proof.
  intros Hn. assert (n ∈ seqZ 0 64) as H by (apply elem_of_seqZ; lia). revert H. vm_compute (seqZ 0 64).
  intros H. repeat (apply elem_of_cons in H as [->|H]; [done|]). by apply elem_of_nil in H.
Qed.

Lemma push_digit value digit : 0 <= digit < 64 -> Z.lor (u32 (Z.shiftl value 6)) digit = u32 (value * 64) + digit.
Proof.
  intros Hd. rewrite Z.shiftl_mul_pow2 by lia. unfold uN. change (2 ^ 32) with (2 ^ 26 * 2 ^ 6). change (value * 64) with (value * 2 ^ 6).
  rewrite Z.mul_mod_distr_r by lia. by apply lor_mul_low.
Qed.

(** One character that is a digit. *)
Lemma decode_digit c rest value bits result n :
  digit_of c (length (c :: rest) <=? 2)%nat = n -> 0 <= n < 64 -> (c =? 61) = false ->
  decode_loop (c :: rest) value bits 0 result =
    let value := u32 (value * 64) + n in
    if 8 <=? bits + 6 then decode_loop rest value (bits - 2) 0 (result ++ [(value / 2 ^ (bits - 2)) mod 256])
    else decode_loop rest value (bits + 6) 0 result.
Proof.
  intros Hd Hn Hc. cbn [decode_loop]. rewrite Hd, Hc. cbn [andb Nat.eqb negb orb]. rewrite (proj2 (Z.ltb_ge n 0)) by lia. cbn [orb].
  rewrite push_digit by done. cbv zeta. destruct (8 <=? bits + 6) eqn:E; [|done]. bool_to_prop.
  replace (bits + 6 - 8) with (bits - 2) by lia. change 255 with (Z.ones 8). by rewrite Z.land_ones, Z.shiftr_div_pow2 by lia.
Qed.

(** Padding among the last two characters counts as a zero digit. *)
Lemma decode_pad rest value bits padding result :
  (length rest <= 1)%nat ->
  decode_loop (61 :: rest) value bits padding result =
    let value := u32 (value * 64) + 0 in
    if 8 <=? bits + 6 then decode_loop rest value (bits - 2) (S padding) (result ++ [(value / 2 ^ (bits - 2)) mod 256])
    else decode_loop rest value (bits + 6) (S padding) result.
Proof.
  intros Hl. cbn [decode_loop]. change (length (61 :: rest)) with (S (length rest)). rewrite (proj2 (Nat.leb_le _ _)) by lia.
  change (digit_of 61 true) with 0. cbn [andb orb negb Z.ltb Z.compare Z.eqb Pos.eqb Nat.eqb].
  rewrite push_digit by lia. cbv zeta. destruct (8 <=? bits + 6) eqn:E; [|done]. bool_to_prop.
  replace (bits + 6 - 8) with (bits - 2) by lia. change 255 with (Z.ones 8). by rewrite Z.land_ones, Z.shiftr_div_pow2 by lia.
Qed.

(** The three bytes of four digits, as the register gives them out. *)
Lemma register_bytes value w x y z :
  0 <= w < 64 -> 0 <= x < 64 -> 0 <= y < 64 -> 0 <= z < 64 ->
  let v1 := u32 (value * 64) + w in let v2 := u32 (v1 * 64) + x in
  let v3 := u32 (v2 * 64) + y in let v4 := u32 (v3 * 64) + z in
  (v2 / 2 ^ 4) mod 256 = w * 4 + x / 16 /\ (v3 / 2 ^ 2) mod 256 = x mod 16 * 16 + y / 4 /\
  (v4 / 2 ^ 0) mod 256 = y mod 4 * 64 + z.
Proof.
  intros Hw Hx Hy Hz v1 v2 v3 v4. unfold v4, v3, v2, v1, uN. change (2 ^ 4) with 16. change (2 ^ 2) with 4. change (2 ^ 0) with 1.
  change (2 ^ 32) with 4294967296. repeat split; Z.to_euclidean_division_equations; lia.
Qed.

Ltac decode_bits b :=
  cbv zeta; let e := eval vm_compute in (8 <=? b + 6) in change (8 <=? b + 6) with e; cbv iota;
  try (let e := eval vm_compute in (b + 6) in change (b + 6) with e);
  try (let e := eval vm_compute in (b - 2) in change (b - 2) with e).
Ltac decode_next :=
  match goal with |- context [decode_loop (letter ?n :: ?r) ?v ?b 0 ?res] =>
    rewrite (decode_digit (letter n) r v b res n)
      by (apply digit_letter || apply letter_not_pad || idtac; first [done | Z.to_euclidean_division_equations; lia]);
    decode_bits b
  end.
Ltac decode_padding :=
  match goal with |- context [decode_loop (61 :: ?r) ?v ?b ?p ?res] =>
    rewrite (decode_pad r v b p res) by (simpl; lia); decode_bits b
  end.

Lemma decode_group w x y z rest value result :
  0 <= w < 64 -> 0 <= x < 64 -> 0 <= y < 64 -> 0 <= z < 64 ->
  exists value', decode_loop (letter w :: letter x :: letter y :: letter z :: rest) value 0 0 result =
    decode_loop rest value' 0 0 (result ++ [w * 4 + x / 16; x mod 16 * 16 + y / 4; y mod 4 * 64 + z]).
Proof.
  intros Hw Hx Hy Hz. pose proof (register_bytes value w x y z Hw Hx Hy Hz) as Hb. cbv zeta in Hb. destruct Hb as (<- & <- & <-).
  eexists. do 4 decode_next. rewrite <- !app_assoc. reflexivity.
Qed.

Lemma letter_land v : 0 <= Z.land v 63 < 64.
Proof. change 63 with (Z.ones 6). rewrite Z.land_ones by lia. apply Z.mod_pos_bound. lia. Qed.

(** The digits of three bytes, as numbers. *)
Lemma group_digits a b c :
  is_byte a -> is_byte b -> is_byte c ->
  let value := Z.lor (Z.lor (Z.shiftl a 16) (Z.shiftl b 8)) c in
  Z.land (Z.shiftr value 18) 63 = a / 4 /\ Z.land (Z.shiftr value 12) 63 = a mod 4 * 16 + b / 16 /\
  Z.land (Z.shiftr value 6) 63 = b mod 16 * 4 + c / 64 /\ Z.land value 63 = c mod 64.
Proof.
  intros Ha Hb Hc value. unfold is_byte in *.
  assert (value = a * 65536 + b * 256 + c) as ->.
  { unfold value. rewrite !Z.shiftl_mul_pow2 by lia. change (2 ^ 16) with (256 * 2 ^ 8). rewrite Z.mul_assoc.
    rewrite <- (Z.lor_assoc _ _ c), (lor_mul_low b 8 c) by lia.
    replace (a * 256 * 2 ^ 8) with (a * 2 ^ 16) by lia. rewrite lor_mul_low by lia. lia. }
  change 63 with (Z.ones 6). rewrite !Z.land_ones, !Z.shiftr_div_pow2 by lia.
  change (2 ^ 18) with 262144. change (2 ^ 12) with 4096. change (2 ^ 6) with 64.
  repeat split; Z.to_euclidean_division_equations; lia.
Qed.

Lemma encode_group a b c : is_byte a -> is_byte b -> is_byte c ->
  group_of a (Some b) (Some c) = map letter [a / 4; a mod 4 * 16 + b / 16; b mod 16 * 4 + c / 64; c mod 64].
Proof. intros Ha Hb Hc. unfold group_of. simpl. destruct (group_digits a b c Ha Hb Hc) as (-> & -> & -> & ->). done. Qed.

Lemma encode_pair a b : is_byte a -> is_byte b ->
  group_of a (Some b) None = map letter [a / 4; a mod 4 * 16 + b / 16; b mod 16 * 4] ++ [61].
Proof.
  intros Ha Hb. unfold group_of. simpl. destruct (group_digits a b 0 Ha Hb) as (-> & -> & -> & _); [by unfold is_byte|].
  by rewrite Z.add_0_r.
Qed.

Lemma encode_single a : is_byte a -> group_of a None None = map letter [a / 4; a mod 4 * 16] ++ [61; 61].
Proof.
  intros Ha. unfold group_of. simpl. assert (is_byte 0) as H0 by (by unfold is_byte).
  destruct (group_digits a 0 0 Ha H0 H0) as (-> & -> & _). by rewrite Z.add_0_r.
Qed.

Lemma base64Encode_length bytes : (length (base64Encode bytes) mod 4 = 0)%nat.
Proof.
  induction bytes as [bytes IH] using (induction_ltof1 _ (@length Z)). destruct bytes as [|a [|b [|c rest]]]; try done.
  cbn [base64Encode]. rewrite length_app. change (length (group_of a (Some b) (Some c))) with 4%nat.
  rewrite Nat.add_comm. rewrite <- (Nat.mul_1_l 4) at 1. rewrite Nat.Div0.mod_add. apply IH. unfold ltof. simpl. lia.
Qed.

Lemma decode_encode bytes value result :
  Forall is_byte bytes ->
  exists tail padding, decode_loop (base64Encode bytes) value 0 0 result = Some (result ++ bytes ++ tail, padding) /\ length tail = padding.
Proof.
  revert value result. induction bytes as [bytes IH] using (induction_ltof1 _ (@length Z)). intros value result Hb.
  destruct bytes as [|a [|b [|c rest]]].
  - exists [], 0%nat. by rewrite !app_nil_r.
  - apply list.Forall_cons in Hb as [Ha _]. unfold is_byte in Ha. cbn [base64Encode]. rewrite encode_single by done. cbn [map app].
    destruct (register_bytes value (a / 4) (a mod 4 * 16) 0 0) as (E1 & E2 & E3); [Z.to_euclidean_division_equations; lia..|].
    cbv zeta in E1, E2, E3. exists [0; 0], 2%nat. split; [|done]. do 2 decode_next. do 2 decode_padding. cbn [decode_loop].
    rewrite E1, E2, E3, <- !app_assoc. cbn [app]. repeat f_equal; Z.to_euclidean_division_equations; lia.
  - apply list.Forall_cons in Hb as [Ha Hb]. apply list.Forall_cons in Hb as [Hb _]. unfold is_byte in Ha, Hb.
    cbn [base64Encode]. rewrite encode_pair by done. cbn [map app].
    destruct (register_bytes value (a / 4) (a mod 4 * 16 + b / 16) (b mod 16 * 4) 0) as (E1 & E2 & E3); [Z.to_euclidean_division_equations; lia..|].
    cbv zeta in E1, E2, E3. exists [0], 1%nat. split; [|done]. do 3 decode_next. decode_padding. cbn [decode_loop].
    rewrite E1, E2, E3, <- !app_assoc. cbn [app]. repeat f_equal; Z.to_euclidean_division_equations; lia.
  - apply list.Forall_cons in Hb as [Ha Hb]. apply list.Forall_cons in Hb as [Hb Hc]. apply list.Forall_cons in Hc as [Hc Hr].
    cbn [base64Encode]. rewrite encode_group by done. cbn [map app]. unfold is_byte in Ha, Hb, Hc.
    destruct (decode_group (a / 4) (a mod 4 * 16 + b / 16) (b mod 16 * 4 + c / 64) (c mod 64) (base64Encode rest) value result) as (v & ->);
      [Z.to_euclidean_division_equations; lia..|].
    destruct (IH rest ltac:(unfold ltof; simpl; lia) v (result ++ [a; b; c]) Hr) as (t & p & Ht & Hp). exists t, p. split; [|done].
    replace (a / 4 * 4 + (a mod 4 * 16 + b / 16) / 16) with a by (Z.to_euclidean_division_equations; lia).
    replace ((a mod 4 * 16 + b / 16) mod 16 * 16 + (b mod 16 * 4 + c / 64) / 4) with b by (Z.to_euclidean_division_equations; lia).
    replace ((b mod 16 * 4 + c / 64) mod 4 * 64 + c mod 64) with c by (Z.to_euclidean_division_equations; lia).
    rewrite Ht. by rewrite <- app_assoc.
Qed.

Lemma base64_decoded bytes : bytes <> [] -> Forall is_byte bytes -> base64Decode (base64Encode bytes) = bytes.
Proof.
  intros Hne Hb. unfold base64Decode. rewrite base64Encode_length.
  destruct (decode_encode bytes 0 [] Hb) as (tail & p & -> & Hp).
  assert (base64Encode bytes <> []) as He by (by destruct bytes as [|a [|b [|c rest]]]).
  destruct (base64Encode bytes); [done|]. cbn [length Nat.eqb orb negb app]. rewrite length_app, Hp, Nat.add_sub. apply take_app_length.
Qed.

(** Strict base64 loses nothing: every nonempty byte string is decoded back
    from its encoding. *)
Theorem base64_roundtrip bytes :
  bytes <> [] -> Forall is_byte bytes -> base64Decode (base64Encode bytes) = bytes.
Proof. apply base64_decoded. Qed.

Lemma base64_roundtrip_witness : base64Decode (base64Encode [0; 255; 97; 128]) = [0; 255; 97; 128].
Proof. apply base64_roundtrip; [done|]. repeat constructor; done. Defined.

Example base64_strict :
  base64Encode (str "ab") = str "YWI=" /\ base64Decode (str "YW=I") = [] /\ base64Decode (str "YWI") = [] /\ base64Decode (str "YW*=") = [].
Proof. repeat split; by vm_compute. Qed.

(** ** Draining a pipe *)

Definition kRunLimitBytes : nat := Z.to_nat 65536.
Record RunPipe := { kept : list Z; truncated : bool }.

(** One successful read of [drainRunPipe]. *)
Definition drain_read (pipe : RunPipe) (chunk : list Z) : RunPipe :=
  let room := (if length (kept pipe) <? kRunLimitBytes then kRunLimitBytes - length (kept pipe) else 0)%nat in
  {| kept := kept pipe ++ take room chunk; truncated := truncated pipe || (room <? length chunk)%nat |}.

(** Until a read fails or returns nothing. *)
Fixpoint drainRunPipe (reads : list (list Z)) (pipe : RunPipe) : RunPipe :=
  match reads with
  | [] | [] :: _ => pipe
  | chunk :: reads => drainRunPipe reads (drain_read pipe chunk)
  end.

(** What the producer wrote before the reads ended. *)
Fixpoint stream (reads : list (list Z)) : list Z :=
  match reads with
  | [] | [] :: _ => []
  | chunk :: reads => chunk ++ stream reads
  end.

Lemma drain_read_take written chunk :
  drain_read {| kept := take kRunLimitBytes written; truncated := (kRunLimitBytes <? length written)%nat |} chunk =
  {| kept := take kRunLimitBytes (written ++ chunk); truncated := (kRunLimitBytes <? length (written ++ chunk))%nat |}.
Proof.
  unfold drain_read. simpl. rewrite length_take, length_app, take_app. generalize kRunLimitBytes as limit. intros limit.
  destruct (Nat.le_gt_cases (length written) limit) as [Hl|Hl].
  - rewrite Nat.min_r by lia. replace (if (length written <? limit)%nat then (limit - length written)%nat else 0%nat) with (limit - length written)%nat.
    2:{ destruct (length written <? limit)%nat eqn:E; bool_to_prop; lia. }
    f_equal. rewrite (proj2 (Nat.ltb_ge limit (length written))) by lia. simpl.
    destruct (limit - length written <? length chunk)%nat eqn:E1, (limit <? length written + length chunk)%nat eqn:E2; bool_to_prop; lia || done.
  - rewrite Nat.min_l by lia. rewrite Nat.ltb_irrefl. replace (limit - length written)%nat with 0%nat by lia. f_equal.
    rewrite (proj2 (Nat.ltb_lt limit (length written))), (proj2 (Nat.ltb_lt limit (length written + length chunk))) by lia. done.
Qed.

Lemma drain_prefix reads written :
  drainRunPipe reads {| kept := take kRunLimitBytes written; truncated := (kRunLimitBytes <? length written)%nat |} =
  {| kept := take kRunLimitBytes (written ++ stream reads); truncated := (kRunLimitBytes <? length (written ++ stream reads))%nat |}.
Proof.
  revert written. induction reads as [|[|c chunk] reads IH]; intros written; simpl; [by rewrite app_nil_r..|].
  rewrite drain_read_take, IH. by rewrite <- app_assoc.
Qed.

(** The kept bytes are the stream's first 65536, and truncation is reported
    exactly when there were more. *)
Lemma drain_bounded reads :
  drainRunPipe reads {| kept := []; truncated := false |} =
  {| kept := take kRunLimitBytes (stream reads); truncated := (kRunLimitBytes <? length (stream reads))%nat |}.
Proof.
  pose proof (drain_prefix reads []) as H. rewrite take_nil in H. exact H.
Qed.

(** ** The result frame *)

(** [std::to_string] of a signed value. *)
Definition to_string_signed (n : Z) : list Z := if n <? 0 then 45 :: to_string (- n) else to_string n.

Definition crlf : list Z := [13; 10].
Definition flag (b : bool) : list Z := if b then str "1" else str "0".

(** What a run reports: the exit code if it exited, and both streams. *)
Record run_report := { r_exit : option Z; r_timedOut : bool; r_runtime : Z; r_out : RunPipe; r_err : RunPipe }.

Definition run_frame (r : run_report) : list Z :=
  str "WGPS-RUN 1" ++ crlf ++ str "exit=" ++ (match r_exit r with Some code => to_string code | None => [] end) ++ crlf ++
  str "timedout=" ++ flag (r_timedOut r) ++ crlf ++ str "runtime=" ++ to_string_signed (r_runtime r) ++ crlf ++
  str "stdout-truncated=" ++ flag (truncated (r_out r)) ++ crlf ++ str "stderr-truncated=" ++ flag (truncated (r_err r)) ++ crlf ++
  str "stdout=" ++ base64Encode (kept (r_out r)) ++ crlf ++ str "stderr=" ++ base64Encode (kept (r_err r)) ++ crlf.

(** [runFailure]'s frame. *)
Definition failure_frame (reason : list Z) (error : Z) : list Z :=
  str "WGPS-RUN 1" ++ crlf ++ str "error=" ++ reason ++ str " (" ++ to_string error ++ str ")" ++ crlf.

(** ** Reading the frame *)

(** [CryptStringToBinaryA]: the bytes of base64 text, or nothing. *)
Class Unbase64 := { crypt_decode : list Z -> option (list Z) }.
Class Unbase64Spec (B : Unbase64) := {
  crypt_decode_encode bytes : bytes <> [] -> Forall is_byte bytes -> crypt_decode (base64Encode bytes) = Some bytes
}.

(** [std::from_chars] on a whole 32-bit unsigned text. *)
Definition from_chars (text : list Z) : option Z :=
  if negb (bool_decide (text = [])) && forallb is_digit text && (denote text 0 <? 2 ^ 32) then Some (denote text 0) else None.

Definition strip_cr (line : list Z) : list Z := if List.last line 0 =? 13 then removelast line else line.

(** A line after the header: a new field, or nothing when it is empty. *)
Definition read_field (fields : option (gmap (list Z) (list Z))) (line : list Z) : option (gmap (list Z) (list Z)) :=
  fields ← fields;
  if bool_decide (line = []) then Some fields
  else '(key, value) ← cut 61 line;
       if bool_decide (fields !! key = None) then Some (<[key := value]> fields) else None.

Definition frame_fields (frame : list Z) : option (gmap (list Z) (list Z)) :=
  if bool_decide (frame = []) || negb (List.last frame 0 =? 10) then None
  else match map strip_cr (removelast (split_lines frame)) with
       | header :: lines => if bool_decide (header = str "WGPS-RUN 1") then foldl read_field (Some ∅) lines else None
       | [] => None
       end.

Section Frame.
Context {U : Utf8} {B : Unbase64}.

(** [unbase64]: [None] when it throws. *)
Definition unbase64 (text : list Z) : option (list Z) := if bool_decide (text = []) then Some [] else crypt_decode text.

(** Strict output refuses invalid UTF-8, display output replaces it. *)
Definition decode_output (strict : bool) (bytes : list Z) : option (list Z) :=
  if strict then wideText bytes else Some (if bool_decide (bytes = []) then [] else wide bytes).

Definition field (fields : gmap (list Z) (list Z)) (key : String.string) : list Z := default [] (fields !! str key).

(** The message of a finished run: its own stream, else the other, else a
    default. *)
Definition result_message (strict : bool) (code : Z) (fields : gmap (list Z) (list Z)) : option (list Z) :=
  let own := if code =? 0 then "stdout"%string else "stderr"%string in
  let rest := if code =? 0 then "stderr"%string else "stdout"%string in
  message ← unbase64 (field fields own) ≫= decode_output strict;
  message ← (if bool_decide (message = []) then unbase64 (field fields rest) ≫= decode_output strict else Some message);
  Some (if bool_decide (message = [])
        then if code =? 0 then str "The operation completed." else str "The operation failed (exit " ++ to_string code ++ str ")."
        else message).

(** [resultFrame]: success and the message; [None] when it throws. *)
Definition resultFrame (frame : list Z) (strict : bool) : option (bool * list Z) :=
  fields ← frame_fields frame;
  match fields !! str "error" with
  | Some error => Some (false, if bool_decide (error = []) then [] else wide error)
  | None =>
      if negb (forallb (fun key => bool_decide (is_Some (fields !! str key)))
           ["exit"; "timedout"; "stdout-truncated"; "stderr-truncated"; "stdout"; "stderr"]%string) then None
      else if negb (bool_decide (field fields "timedout" = str "0")) then Some (false, str "The operation exceeded its deadline.")
      else if negb (bool_decide (field fields "stdout-truncated" = str "0")) || negb (bool_decide (field fields "stderr-truncated" = str "0"))
      then Some (false, str "The operation produced too much output.")
      else
        code ← from_chars (field fields "exit");
        message ← result_message strict code fields;
        Some (code =? 0, message)
  end.
End Frame.

(** ** Lines *)

Definition frame_of (lines : list (list Z)) : list Z := concat (map (fun l => l ++ crlf) lines).

Lemma split_lines_cons l rest : 10 ∉ l -> split_lines (l ++ 10 :: rest) = l :: split_lines rest.
Proof.
  induction l as [|c l IH]; intros Hl; [done|]. apply not_elem_of_cons in Hl as [Hc Hl]. cbn [app split_lines].
  rewrite (proj2 (Z.eqb_neq _ _)) by done. by rewrite IH.
Qed.

Lemma split_frame lines : Forall (fun l => 10 ∉ l) lines -> split_lines (frame_of lines) = map (fun l => l ++ [13]) lines ++ [[]].
Proof.
  induction 1 as [|l lines Hl _ IH]; [done|]. unfold frame_of in *. cbn [map concat]. unfold crlf at 1. rewrite <- app_assoc. cbn [app].
  replace (l ++ 13 :: 10 :: concat (map (fun l => l ++ crlf) lines)) with ((l ++ [13]) ++ 10 :: concat (map (fun l => l ++ crlf) lines))
    by (by rewrite <- app_assoc).
  rewrite split_lines_cons by set_solver. by rewrite IH.
Qed.

Lemma strip_cr_line l : strip_cr (l ++ [13]) = l.
Proof. unfold strip_cr. by rewrite last_last, removelast_last. Qed.

Lemma frame_of_last lines : lines <> [] -> List.last (frame_of lines) 0 = 10.
Proof.
  intros Hne. destruct (exists_last Hne) as (l & x & ->). unfold frame_of. rewrite map_app, concat_app. cbn [map concat].
  rewrite app_nil_r. replace (x ++ crlf) with ((x ++ [13]) ++ [10]) by (by rewrite <- app_assoc).
  rewrite app_assoc. apply last_last.
Qed.

Lemma frame_fields_lines lines :
  Forall (fun l => 10 ∉ l) lines ->
  frame_fields (frame_of (str "WGPS-RUN 1" :: lines)) = foldl read_field (Some ∅) lines.
Proof.
  intros Hl. unfold frame_fields. rewrite frame_of_last by done. rewrite bool_decide_false by done. rewrite Z.eqb_refl. cbn [negb orb].
  rewrite split_frame; [|by constructor; [vm_compute; set_solver|]]. rewrite removelast_last, map_map.
  rewrite (map_ext _ (fun l => l)) by (intros; apply strip_cr_line). rewrite map_id. by rewrite bool_decide_true.
Qed.

(** A line [key=value]. *)
Definition field_of (key : String.string) (value : list Z) : list Z := str key ++ 61 :: value.

Lemma read_field_line fields key value :
  61 ∉ str key -> fields !! str key = None -> read_field (Some fields) (field_of key value) = Some (<[str key := value]> fields).
Proof.
  intros Hk Hf. unfold read_field, field_of. cbn [mbind option_bind]. rewrite bool_decide_false by (by destruct (str key)).
  rewrite cut_app by done. cbn [mbind option_bind]. by rewrite bool_decide_true.
Qed.

(** The lines of a report's frame. *)
Definition report_lines (r : run_report) : list (list Z) := [
  field_of "exit" (match r_exit r with Some code => to_string code | None => [] end);
  field_of "timedout" (flag (r_timedOut r)); field_of "runtime" (to_string_signed (r_runtime r));
  field_of "stdout-truncated" (flag (truncated (r_out r))); field_of "stderr-truncated" (flag (truncated (r_err r)));
  field_of "stdout" (base64Encode (kept (r_out r))); field_of "stderr" (base64Encode (kept (r_err r)))].

Lemma run_frame_lines r : run_frame r = frame_of (str "WGPS-RUN 1" :: report_lines r).
Proof.
  unfold run_frame, frame_of, report_lines, field_of. cbn [map concat]. rewrite app_nil_r. rewrite <- !app_assoc.
  change (str "exit=") with (str "exit" ++ [61]). change (str "timedout=") with (str "timedout" ++ [61]).
  change (str "runtime=") with (str "runtime" ++ [61]). change (str "stdout-truncated=") with (str "stdout-truncated" ++ [61]).
  change (str "stderr-truncated=") with (str "stderr-truncated" ++ [61]). change (str "stdout=") with (str "stdout" ++ [61]).
  change (str "stderr=") with (str "stderr" ++ [61]). rewrite <- !app_assoc. done.
Qed.

(** The fields a report's frame holds. *)
Definition report_fields (r : run_report) : gmap (list Z) (list Z) :=
  <[str "stderr" := base64Encode (kept (r_err r))]> (<[str "stdout" := base64Encode (kept (r_out r))]>
  (<[str "stderr-truncated" := flag (truncated (r_err r))]> (<[str "stdout-truncated" := flag (truncated (r_out r))]>
  (<[str "runtime" := to_string_signed (r_runtime r)]> (<[str "timedout" := flag (r_timedOut r)]>
  (<[str "exit" := match r_exit r with Some code => to_string code | None => [] end]> ∅)))))).

Lemma letter_char n : 0 <= n < 64 -> letter n <> 10.
Proof.
  intros Hn. assert (n ∈ seqZ 0 64) as H by (apply elem_of_seqZ; lia). revert H. vm_compute (seqZ 0 64).
  intros H. repeat (apply elem_of_cons in H as [->|H]; [by vm_compute|]). by apply elem_of_nil in H.
Qed.

Lemma group_no_newline a b c : 10 ∉ group_of a b c.
Proof.
  assert (forall v, letter (Z.land v 63) <> 10) as Hl by (intros v; apply letter_char, letter_land).
  unfold group_of. cbv zeta. rewrite !not_elem_of_cons. repeat split; try (intros H; by apply (Hl _ (eq_sym H))).
  - destruct b; [|done]. intros H. by apply (Hl _ (eq_sym H)).
  - destruct c; [|done]. intros H. by apply (Hl _ (eq_sym H)).
  - by apply not_elem_of_nil.
Qed.

Lemma encode_no_newline bytes : 10 ∉ base64Encode bytes.
Proof.
  induction bytes as [bytes IH] using (induction_ltof1 _ (@length Z)). destruct bytes as [|a [|b [|c rest]]];
    [by apply not_elem_of_nil|apply group_no_newline..|]. cbn [base64Encode]. rewrite not_elem_of_app. split; [apply group_no_newline|].
  apply IH. unfold ltof. simpl. lia.
Qed.

Lemma digits_no_newline n : 0 <= n < 2 ^ 64 -> 10 ∉ to_string n.
Proof.
  intros Hn Hin. destruct (to_string_spec n Hn) as (_ & Hd & _). rewrite forallb_forall in Hd.
  apply list_elem_of_In, Hd in Hin. done.
Qed.

(** What a runner can report: a 32-bit exit code, a 64-bit runtime, bytes. *)
Definition report_ok (r : run_report) : Prop :=
  (forall code, r_exit r = Some code -> 0 <= code < 2 ^ 32) /\ - 2 ^ 63 < r_runtime r < 2 ^ 63 /\
  Forall is_byte (kept (r_out r)) /\ Forall is_byte (kept (r_err r)).

Lemma field_no_newline key value : 10 ∉ str key -> 10 ∉ value -> 10 ∉ field_of key value.
Proof. intros Hk Hv. unfold field_of. rewrite not_elem_of_app, not_elem_of_cons. done. Qed.

Lemma report_lines_ok r : report_ok r -> Forall (fun l => 10 ∉ l) (report_lines r).
Proof.
  intros (Hc & Hr & _). unfold report_lines.
  assert (forall b, 10 ∉ flag b) as Hf by (intros []; vm_compute; set_solver).
  repeat (apply list.Forall_cons; split; [apply field_no_newline; [vm_compute; set_solver|]|]); try done.
  - destruct (r_exit r) as [code|] eqn:E; [|by apply not_elem_of_nil]. apply digits_no_newline. specialize (Hc code eq_refl). lia.
  - unfold to_string_signed. destruct (r_runtime r <? 0) eqn:E; bool_to_prop; rewrite ?not_elem_of_cons; [split; [done|]|];
      apply digits_no_newline; lia.
  - apply encode_no_newline.
  - apply encode_no_newline.
Qed.

Lemma run_frame_fields r : report_ok r -> frame_fields (run_frame r) = Some (report_fields r).
Proof.
  intros Hr. rewrite run_frame_lines, frame_fields_lines by (by apply report_lines_ok). unfold report_lines, report_fields.
  cbn [foldl]. repeat (rewrite read_field_line; [|vm_compute; set_solver|repeat (rewrite lookup_insert_ne by (by vm_compute)); done]). done.
Qed.

Lemma from_chars_to_string code : 0 <= code < 2 ^ 32 -> from_chars (to_string code) = Some code.
Proof.
  intros Hc. destruct (to_string_spec code) as (Hne & Hd & Hv); [lia|]. unfold from_chars.
  rewrite bool_decide_false, Hd, Hv by done. cbn [negb andb]. by rewrite (proj2 (Z.ltb_lt _ _)) by lia.
Qed.

Section Report.
Context {U : Utf8} {B : Unbase64} {S : Unbase64Spec B}.

Lemma unbase64_encode bytes : Forall is_byte bytes -> unbase64 (base64Encode bytes) = Some bytes.
Proof.
  intros Hb. unfold unbase64. destruct bytes as [|b bytes]; [done|].
  rewrite bool_decide_false; [by apply crypt_decode_encode|]. by destruct bytes as [|? [|? ?]].
Qed.

(** What the reader shows of a finished run. *)
Definition shown (strict : bool) (code : Z) (own rest : list Z) : option (list Z) :=
  message ← decode_output strict own;
  message ← (if bool_decide (message = []) then decode_output strict rest else Some message);
  Some (if bool_decide (message = [])
        then if code =? 0 then str "The operation completed." else str "The operation failed (exit " ++ to_string code ++ str ")."
        else message).

Definition report_result (strict : bool) (r : run_report) : option (bool * list Z) :=
  if r_timedOut r then Some (false, str "The operation exceeded its deadline.")
  else if truncated (r_out r) || truncated (r_err r) then Some (false, str "The operation produced too much output.")
  else code ← r_exit r;
       message ← (if code =? 0 then shown strict code (kept (r_out r)) (kept (r_err r))
                  else shown strict code (kept (r_err r)) (kept (r_out r)));
       Some (code =? 0, message).

Ltac look_up := unfold report_fields; repeat first [rewrite lookup_insert_eq; reflexivity | rewrite lookup_insert_ne by (by vm_compute)].

Lemma report_field r key v : report_fields r !! str key = Some v -> field (report_fields r) key = v.
Proof. intros H. unfold field. by rewrite H. Qed.

(** The runner's frame is read back exactly: whatever bytes the program
    wrote, the reader sees success exactly for a run that ended in time, within
    the output limit, with exit code zero, and shows the stream that belongs to
    the outcome. *)
Theorem run_frame_read_back r strict : report_ok r -> resultFrame (run_frame r) strict = report_result strict r.
Proof.
  intros Hr. unfold resultFrame. rewrite run_frame_fields by done. cbn [mbind option_bind].
  assert (forall key v, report_fields r !! str key = Some v -> field (report_fields r) key = v) as Hf by (intros; by apply report_field).
  assert (report_fields r !! str "error" = None) as -> by (unfold report_fields; repeat (rewrite lookup_insert_ne by (by vm_compute)); done).
  assert (forallb (fun key => bool_decide (is_Some (report_fields r !! str key)))
           ["exit"; "timedout"; "stdout-truncated"; "stderr-truncated"; "stdout"; "stderr"]%string = true) as ->.
  { apply forallb_forall. intros key Hkey. apply bool_decide_true. apply list_elem_of_In in Hkey.
    repeat (apply elem_of_cons in Hkey as [->|Hkey];
      [eexists; look_up|]). by apply elem_of_nil in Hkey. }
  cbn [negb].
  rewrite (Hf "timedout"%string (flag (r_timedOut r))), (Hf "stdout-truncated"%string (flag (truncated (r_out r)))),
    (Hf "stderr-truncated"%string (flag (truncated (r_err r)))),
    (Hf "exit"%string (match r_exit r with Some code => to_string code | None => [] end))
    by look_up.
  unfold report_result. destruct (r_timedOut r); [done|]. destruct (truncated (r_out r)), (truncated (r_err r)); try done.
  cbn [flag orb negb]. rewrite !bool_decide_true by done. cbn [negb orb]. destruct Hr as (Hc & _ & Ho & He).
  destruct (r_exit r) as [code|]; [|done]. rewrite from_chars_to_string by (by apply Hc). cbn [mbind option_bind].
  unfold result_message. cbv zeta.
  assert (field (report_fields r) "stdout" = base64Encode (kept (r_out r))) as Eo by (apply Hf; look_up).
  assert (field (report_fields r) "stderr" = base64Encode (kept (r_err r))) as Ee by (apply Hf; look_up).
  unfold shown. by destruct (code =? 0); rewrite Eo, Ee, !unbase64_encode by done.
Qed.
End Report.

(** ** One bounded run *)

Definition kRunDrainMilliseconds : Z := 2000.
Definition kRunMaximumTimeout : Z := 600000.

(** What the operating system answers, in the order it is asked. *)
Record run_env := {
  e_job : bool; e_pipes : bool; e_nul : bool; e_attributes : bool; e_update : bool; e_launch : bool;
  e_contained : bool; e_reader0 : bool; e_reader1 : bool; e_started_stops : bool; e_spent : Z; e_exits : Z -> bool;
  e_code : option Z; e_readers_stop : bool; e_runtime : Z; e_out : list (list Z); e_err : list (list Z); e_error : Z
}.

(** What the runner does to the program, and the frame it writes. *)
Inductive run_action :=
  LaunchSuspended | TerminateProgram | EndJob | ConfirmContained | StartReader (i : nat) | Resume | WaitFor (left : Z)
| WriteFrame (frame : list Z) | AbandonRunner.

Definition failed (e : run_env) (reason : String.string) : list run_action := [WriteFrame (failure_frame (str reason) (e_error e))].

(** [abandonRun]: the job is ended, and this process at once. *)
Definition abandonRun (e : run_env) : list run_action := EndJob :: failed e "a reader did not stop" ++ [AbandonRunner].

(** [std::string(w.begin(), w.end())]: each character narrowed. *)
Definition narrow (text : list Z) : list Z := map u8 text.

(** The arguments, if they are valid: the timeout and the command's bytes. *)
Definition run_arguments (timeoutText encodedCommand : list Z) : option (Z * list Z) :=
  timeout ← parseDecimal (narrow timeoutText) kRunMaximumTimeout;
  let command := base64Decode encodedCommand in
  if bool_decide (command = []) || negb (Nat.even (length command)) then None else Some (timeout, command).

(** The readers are running: the program runs, its deadline counted from the
    runner's start. *)
Definition run_contained (timeout : Z) (e : run_env) : list run_action :=
  let left := if timeout <=? e_spent e then 0 else timeout - e_spent e in
  let timedOut := negb (e_exits e left) in
  [Resume; WaitFor left] ++ (if timedOut then [EndJob] else []) ++
  (if negb (e_readers_stop e) then abandonRun e
   else [WriteFrame (run_frame {| r_exit := if timedOut then None else e_code e; r_timedOut := timedOut; r_runtime := e_runtime e;
           r_out := drainRunPipe (e_out e) {| kept := []; truncated := false |};
           r_err := drainRunPipe (e_err e) {| kept := []; truncated := false |} |}); EndJob]).

(** [boundedRun], from its arguments. *)
Definition boundedRun (timeoutText encodedCommand : list Z) (e : run_env) : list run_action :=
  match run_arguments timeoutText encodedCommand with
  | None => failed e "invalid arguments"
  | Some (timeout, _) =>
      if negb (e_job e) then failed e "cannot create the job"
      else if negb (e_pipes e) then failed e "cannot create a pipe"
      else if negb (e_nul e) then failed e "cannot open NUL"
      else if negb (e_attributes e) then failed e "cannot limit inheritance"
      else if negb (e_update e) then failed e "cannot limit inheritance or set the job"
      else if negb (e_launch e) then failed e "cannot start the program"
      else if negb (e_contained e) then LaunchSuspended :: TerminateProgram :: failed e "cannot contain the program"
      else if negb (e_reader0 e && e_reader1 e) then
        [LaunchSuspended; ConfirmContained] ++ (if e_reader0 e then [StartReader 0] else []) ++
        (if e_reader1 e then [StartReader 1] else []) ++ [EndJob] ++
        (if (e_reader0 e || e_reader1 e) && negb (e_started_stops e) then abandonRun e else failed e "cannot start a reader")
      else [LaunchSuspended; ConfirmContained; StartReader 0; StartReader 1] ++ run_contained timeout e
  end.

(** The program is under control in every history of the runner: it runs an
    instruction only after its containment was confirmed and both readers
    started, and it or its job is ended, or it exited within its deadline. *)
Definition controlled (timeout : Z) (e : run_env) (actions : list run_action) : Prop :=
  (Resume ∈ actions -> exists left post,
     actions = [LaunchSuspended; ConfirmContained; StartReader 0; StartReader 1; Resume; WaitFor left] ++ post /\
     0 <= left /\ left + Z.min (e_spent e) timeout = timeout /\ EndJob ∈ post) /\
  (LaunchSuspended ∈ actions -> Resume ∉ actions -> TerminateProgram ∈ actions \/ EndJob ∈ actions).

Lemma failed_only_reports e reason : (Resume ∉ failed e reason) /\ LaunchSuspended ∉ failed e reason.
Proof. unfold failed. generalize (failure_frame (str reason) (e_error e)). intros f. set_solver. Qed.

Lemma run_contained_ends timeout e :
  exists left post, run_contained timeout e = [Resume; WaitFor left] ++ post /\
    left = (if timeout <=? e_spent e then 0 else timeout - e_spent e) /\ EndJob ∈ post.
Proof.
  eexists _, _. split; [reflexivity|]. split; [done|]. apply elem_of_app. right. destruct (negb (e_readers_stop e)); [by left|by right; left].
Qed.

(** C29: the bounded runner keeps every program under control: it runs nothing
    before containment is confirmed and its output is read, its deadline counts
    from the runner's own start, and whatever call fails, a program that was
    created is ended, by itself or with its whole job. *)
Theorem run_is_controlled timeoutText encodedCommand e :
  0 <= e_spent e ->
  match run_arguments timeoutText encodedCommand with
  | Some (timeout, command) => 0 <= timeout <= kRunMaximumTimeout /\ controlled timeout e (boundedRun timeoutText encodedCommand e)
  | None => LaunchSuspended ∉ boundedRun timeoutText encodedCommand e
  end.
Proof.
  intros Hs. unfold boundedRun. destruct (run_arguments timeoutText encodedCommand) as [[timeout command]|] eqn:E; [|apply failed_only_reports].
  assert (0 <= timeout <= kRunMaximumTimeout) as Ht.
  { unfold run_arguments in E. destruct (parseDecimal _ _) as [t|] eqn:Ep; [|done]. cbn [mbind option_bind] in E.
    destruct (_ || _); [done|]. injection E as <- _. rewrite parseDecimal_spec in Ep by (unfold kRunMaximumTimeout; lia).
    destruct (_ && _) eqn:Eb; [|done]. injection Ep as <-. split; [|bool_to_prop; by auto with lia].
    apply (denote_ge _ 0); [by bool_to_prop|lia]. }
  split; [done|]. assert (forall reason, controlled timeout e (failed e reason)) as Hf.
  { intros reason. destruct (failed_only_reports e reason) as [H1 H2]. split; intros H; contradiction. }
  destruct (negb (e_job e)); [apply Hf|]. destruct (negb (e_pipes e)); [apply Hf|]. destruct (negb (e_nul e)); [apply Hf|].
  destruct (negb (e_attributes e)); [apply Hf|]. destruct (negb (e_update e)); [apply Hf|]. destruct (negb (e_launch e)); [apply Hf|].
  destruct (negb (e_contained e)).
  { destruct (failed_only_reports e "cannot contain the program") as [H1 H2]. revert H1 H2. generalize (failed e "cannot contain the program").
    intros l H1 H2. split; [intros H; exfalso; set_solver|]. intros _ _. left. set_solver. }
  destruct (negb (e_reader0 e && e_reader1 e)).
  { destruct (failed_only_reports e "cannot start a reader") as [H1 H2]. destruct (failed_only_reports e "a reader did not stop") as [H3 H4].
    unfold abandonRun. revert H1 H2 H3 H4. generalize (failed e "cannot start a reader"), (failed e "a reader did not stop").
    intros l l' H1 H2 H3 H4. split; [intros H; exfalso|intros _ _; right; set_solver].
    destruct (e_reader0 e), (e_reader1 e), (e_started_stops e); set_solver. }
  destruct (run_contained_ends timeout e) as (left & post & -> & Hl & Hend).
  split; [|intros _ Hn; destruct Hn; set_solver]. intros _. exists left, post. split; [done|]. split; [|split; [|done]]; subst left;
    destruct (timeout <=? e_spent e) eqn:El; bool_to_prop; lia.
Qed.

(** ** Examples *)

#[local] Instance demo_crypt : Unbase64 := {| crypt_decode text := Some (base64Decode text) |}.
#[local] Instance demo_crypt_spec : Unbase64Spec demo_crypt.
Proof. split. intros bytes Hne Hb. simpl. by rewrite base64_decoded. Qed.

Definition demo_report : run_report :=
  {| r_exit := Some 5; r_timedOut := false; r_runtime := 120;
     r_out := {| kept := []; truncated := false |}; r_err := {| kept := str "no such tunnel"; truncated := false |} |}.

Lemma run_frame_read_back_witness :
  resultFrame (U:=demo_utf8) (run_frame demo_report) true = report_result (U:=demo_utf8) true demo_report.
Proof.
  apply run_frame_read_back. split; [by intros code [= <-]|]. split; [vm_compute; done|]. split; [constructor|]. repeat constructor; done.
Defined.

Example failed_run_shown : report_result (U:=demo_utf8) true demo_report = Some (false, str "no such tunnel").
Proof. by vm_compute. Qed.

Definition demo_env : run_env :=
  {| e_job := true; e_pipes := true; e_nul := true; e_attributes := true; e_update := true; e_launch := true; e_contained := true;
     e_reader0 := true; e_reader1 := true; e_started_stops := true; e_spent := 40; e_exits := fun left => 100 <? left; e_code := Some 0;
     e_readers_stop := true; e_runtime := 90; e_out := [str "ok"]; e_err := []; e_error := 0 |}.

Lemma run_is_controlled_witness :
  0 <= 30000 <= kRunMaximumTimeout /\ controlled 30000 demo_env (boundedRun (str "30000") (base64Encode [97; 0; 98; 0]) demo_env).
Proof. apply (run_is_controlled (str "30000") (base64Encode [97; 0; 98; 0]) demo_env). vm_compute. done. Defined.
