(* ===== verification/RunnerIo.v ===== *)
(** * RunnerIo: how the runner's frame leaves it

    Models [writeRunFrame] and [stopReaders] of [src/src/native/bounded-run.h]:
    the loop that writes the frame in as many parts as the pipe takes, and the
    two stages in which the readers of a program's output are stopped.  What the
    pipe takes and what the waits answer are arguments, one entry for each call. *)
From S2P Require Import Prelude Numbers DnsWire Identity Runner.

(** ** The frame *)

(** One [WriteFile]: [None] when it fails, else how many of the offered bytes it
    took.  The result is what has been written; the loop returns when a write
    fails or takes nothing. *)
Fixpoint writeRunFrame (text : list Z) (writes : list (option nat)) : list Z :=
  match text, writes with
  | [], _ => []
  | _, Some (S n) :: writes => firstn (S n) text ++ writeRunFrame (drop (S n) text) writes
  | _, _ => []
  end.

(** ** The readers *)

(** What [stopReaders] does to them. *)
Inductive stop_action := WaitReaders (milliseconds : Z) | EndReadersJob | CancelReads.

(** The loop of a hundred attempts: from the 21st, their reads are cancelled.
    [stopped i] is whether the [i]-th wait of the loop does not time out. *)
Fixpoint stop_loop (attempts attempt : nat) (stopped : nat -> bool) : list stop_action * bool :=
  match attempts with
  | O => ([], false)
  | S attempts =>
      if stopped attempt then ([WaitReaders 50], true)
      else
        let '(actions, ok) := stop_loop attempts (S attempt) stopped in
        (WaitReaders 50 :: (if (20 <=? attempt)%nat then [CancelReads] else []) ++ actions, ok)
  end.

Definition stopReaders (grace : Z) (first : bool) (stopped : nat -> bool) : list stop_action * bool :=
  if first then ([WaitReaders grace], true)
  else let '(actions, ok) := stop_loop 100 0 stopped in (WaitReaders grace :: EndReadersJob :: actions, ok).

(** The time the waits may take together. *)
Definition waits (actions : list stop_action) : Z :=
  foldr (fun a sum => match a with WaitReaders ms => ms + sum | _ => sum end) 0 actions.

Lemma stop_loop_bounds attempts attempt stopped :
  0 <= waits (stop_loop attempts attempt stopped).1 <= 50 * Z.of_nat attempts /\
  ((stop_loop attempts attempt stopped).2 = true <-> exists i, (attempt <= i < attempt + attempts)%nat /\ stopped i = true).
Proof.
  revert attempt. induction attempts as [|attempts IH]; intros attempt; cbn [stop_loop].
  - split; [simpl; lia|]. split; [done|]. intros (i & Hi & _). lia.
  - destruct (stopped attempt) eqn:E.
    + split; [simpl; lia|]. split; [|done]. intros _. exists attempt. split; [lia|done].
    + specialize (IH (S attempt)). destruct (stop_loop attempts (S attempt) stopped) as [actions ok]. cbn [fst snd] in *.
      destruct IH as [Hw Hok]. split.
      * destruct (20 <=? attempt)%nat; cbn [waits foldr app] in *; unfold waits in Hw; lia.
      * rewrite Hok. split; intros (i & Hi & Hs); exists i; (split; [|done]); [lia|]. destruct (decide (i = attempt)) as [->|]; [congruence|lia].
Qed.

(** The readers are stopped or given up within five seconds and the grace period,
    the program's job is ended whenever they outlive the grace period, and they
    are reported as stopped exactly when a wait for both did not time out. *)
Theorem stop_readers_bounded grace first stopped :
  0 <= grace ->
  waits (stopReaders grace first stopped).1 <= grace + 5000 /\
  (first = false -> EndReadersJob ∈ (stopReaders grace first stopped).1) /\
  ((stopReaders grace first stopped).2 = true <-> first = true \/ exists i, (i < 100)%nat /\ stopped i = true).
Proof.
  intros Hg. unfold stopReaders. destruct first; [split; [simpl; lia|]; split; [done|]; tauto|].
  pose proof (stop_loop_bounds 100 0 stopped) as [Hw Hok]. destruct (stop_loop 100 0 stopped) as [actions ok]. cbn [fst snd] in *.
  split; [cbn [waits foldr]; unfold waits in Hw; lia|]. split; [intros _; right; left|]. rewrite Hok. split.
  - intros (i & Hi & Hs). right. exists i. split; [lia|done].
  - intros [?|(i & Hi & Hs)]; [done|]. exists i. split; [lia|done].
Qed.

Lemma stop_readers_bounded_witness :
  waits (stopReaders 2000 false (fun i => (i =? 30)%nat)).1 <= 7000 /\ (stopReaders 2000 false (fun i => (i =? 30)%nat)).2 = true.
Proof.
  destruct (stop_readers_bounded 2000 false (fun i => (i =? 30)%nat)) as (H1 & _ & H2); [lia|]. split; [exact H1|].
  apply H2. right. exists 30%nat. split; [lia|reflexivity].
Defined.

(** ** A cut frame *)

Lemma writeRunFrame_prefix text writes : writeRunFrame text writes `prefix_of` text.
Proof.
  revert text. induction writes as [|w writes IH]; intros [|c text]; try apply prefix_nil.
  cbn [writeRunFrame]. destruct w as [[|n]|]; try apply prefix_nil. transitivity (firstn (S n) (c :: text) ++ drop (S n) (c :: text)).
  - apply prefix_app, IH.
  - by rewrite take_drop.
Qed.

Lemma writeRunFrame_whole text writes :
  (length text <= length writes)%nat -> Forall (fun w => exists n, w = Some (S n)) writes -> writeRunFrame text writes = text.
Proof.
  intros Hl Hw. revert text Hl. induction Hw as [|w writes [n ->] _ IH]; intros [|c text] Hl; try done; [simpl in Hl; lia|].
  cbn [writeRunFrame]. rewrite IH; [apply take_drop|]. rewrite length_drop. simpl in *. lia.
Qed.

Lemma last_in l (x : Z) : l <> [] -> List.last l x ∈ l.
Proof. intros Hne. destruct (exists_last Hne) as (l' & y & ->). rewrite last_last. set_solver. Qed.

Lemma last_app_ne (a b : list Z) : b <> [] -> List.last (a ++ b) 0 = List.last b 0.
Proof. intros Hne. destruct (exists_last Hne) as (b' & y & ->). by rewrite app_assoc, !last_last. Qed.

Lemma prefix_of_longer (a b l : list Z) : a `prefix_of` l -> b `prefix_of` l -> (length a <= length b)%nat -> a `prefix_of` b.
Proof.
  intros Ha Hb Hle. destruct (prefix_weak_total a b l Ha Hb) as [?|Hba]; [done|].
  assert (b = a) as -> by (apply prefix_length_eq; done). done.
Qed.

(** A beginning of a frame stops within a line or after some lines. *)
Lemma cut_lines p lines :
  Forall (fun l => 10 ∉ l) lines -> p `prefix_of` frame_of lines ->
  p = [] \/ List.last p 0 <> 10 \/ exists n, p = frame_of (firstn n lines) /\ (p <> frame_of lines -> (n < length lines)%nat).
Proof.
  intros Hl. revert p. induction Hl as [|l lines Hl _ IH]; intros p Hp; [left; by apply prefix_nil_inv|].
  change (frame_of (l :: lines)) with ((l ++ crlf) ++ frame_of lines) in *.
  destruct (decide (length (l ++ crlf) <= length p)%nat) as [Hlen|Hlen].
  - assert (l ++ crlf `prefix_of` p) as [q ->] by (eapply prefix_of_longer; [by apply prefix_app_r|done|done]).
    apply prefix_app_inv in Hp. destruct (decide (q = [])) as [->|Hq0]; [|destruct (IH q Hp) as [->|[Hq|(n & -> & Hn)]]; [done| |]].
    + right. right. exists 1%nat. split; [done|]. intros Hne. destruct lines; [done|simpl; lia].
    + right. left. by rewrite last_app_ne.
    + right. right. exists (S n). split; [done|]. intros Hne. simpl. apply (proj1 (Nat.succ_lt_mono _ _)), Hn. congruence.
  - destruct (decide (p = [])) as [->|Hne]; [by left|]. right. left. intros Hlast.
    assert (p `prefix_of` l ++ [13]) as [q Hq].
    { apply (prefix_of_longer _ _ ((l ++ crlf) ++ frame_of lines)); [done| |rewrite !length_app in *; simpl in *; lia].
      exists (10 :: frame_of lines). by rewrite <- !app_assoc. }
    apply (last_in p 0) in Hne. rewrite Hlast in Hne. assert (10 ∈ l ++ [13]) as H by (rewrite Hq; set_solver). set_solver.
Qed.

(** The lines up to the last add no field of another name. *)
Lemma fields_subset lines fields fields' key :
  foldl read_field (Some fields) lines = Some fields' -> fields !! key = None ->
  Forall (fun l => forall value, cut 61 l <> Some (key, value)) lines -> fields' !! key = None.
Proof.
  intros H Hk Hl. revert fields H Hk. induction Hl as [|l lines Hl _ IH]; intros fields H Hk; cbn [foldl] in H; [by injection H as <-|].
  destruct (read_field (Some fields) l) as [next|] eqn:E; [apply (IH next H)|].
  - revert E. unfold read_field. cbn [mbind option_bind]. case_bool_decide; [by intros [= <-]|].
    destruct (cut 61 l) as [[k v]|]; [|done]. cbn [mbind option_bind]. case_bool_decide; [|done]. intros [= <-].
    rewrite lookup_insert_ne; [done|]. intros ->. by apply (Hl v).
  - exfalso. clear -H. induction lines as [|l' lines IH]; [done|]. by apply IH.
Qed.

Lemma early_keys r :
  Forall (fun l => forall value, cut 61 l <> Some (str "error", value)) (firstn 6 (report_lines r)) /\
  Forall (fun l => forall value, cut 61 l <> Some (str "stderr", value)) (firstn 6 (report_lines r)).
Proof.
  split; cbn [firstn report_lines]; repeat (apply list.Forall_cons; split;
    [unfold field_of; intros value; rewrite cut_app by (vm_compute; set_solver); intros [= H _]; vm_compute in H; discriminate|]); done.
Qed.

Section Cut.
Context {U : Utf8} {B : Unbase64}.

(** C30: a run whose result did not arrive whole is never taken for a success.
    However the pipe takes the runner's frame, what is written is a beginning of
    it, and the tray reads any beginning but the whole as nothing: the result is
    refused, even when it ends between two lines.  When every write takes
    something, the whole frame is written. *)
Theorem cut_frame_refused r strict writes :
  report_ok r ->
  let written := writeRunFrame (run_frame r) writes in
  written `prefix_of` run_frame r /\
  (written <> run_frame r -> resultFrame written strict = None) /\
  ((length (run_frame r) <= length writes)%nat -> Forall (fun w => exists n, w = Some (S n)) writes -> written = run_frame r).
Proof.
  intros Hr written. split; [apply writeRunFrame_prefix|]. split; [|apply writeRunFrame_whole]. subst written.
  pose proof (writeRunFrame_prefix (run_frame r) writes) as Hp. revert Hp. generalize (writeRunFrame (run_frame r) writes). intros p Hp Hne.
  pose proof (report_lines_ok r Hr) as Hl. rewrite run_frame_lines in *.
  assert (frame_fields p = None \/ exists fields, frame_fields p = Some fields /\ fields !! str "error" = None /\ fields !! str "stderr" = None) as Hf.
  { destruct (cut_lines p (str "WGPS-RUN 1" :: report_lines r)) as [->|[Hlast|(n & -> & Hn)]];
      [by constructor; [vm_compute; set_solver|]|done|..].
    - by left.
    - left. unfold frame_fields. by rewrite (proj2 (Z.eqb_neq _ _)), orb_true_r.
    - specialize (Hn Hne). destruct n as [|n]; [by left|]. cbn [firstn]. rewrite frame_fields_lines by (by apply Forall_take).
      destruct (foldl read_field (Some ∅) (firstn n (report_lines r))) as [fields|] eqn:E; [right|by left].
      exists fields. split; [done|]. assert (n <= 6)%nat as Hn6 by (simpl in Hn; lia).
      rewrite <- (Nat.min_l n 6 Hn6), <- firstn_firstn in E. destruct (early_keys r) as [K1 K2].
      split; (eapply fields_subset; [exact E|done|by apply Forall_take]). }
  unfold resultFrame. destruct Hf as [->|(fields & -> & He & Hs)]; [done|]. cbn [mbind option_bind]. rewrite He.
  destruct (forallb _ _) eqn:E; [|done]. rewrite forallb_forall in E.
  specialize (E "stderr"%string ltac:(simpl; tauto)). apply bool_decide_eq_true in E as [? E]. congruence.
Qed.
End Cut.

#[local] Instance own_crypt : Unbase64 := {| crypt_decode text := Some (base64Decode text) |}.

(** The runner dies after the line of the exit code. *)
Lemma cut_frame_refused_witness :
  resultFrame (U:=demo_utf8) (writeRunFrame (run_frame demo_report) [Some 12; Some 8; None]%nat) true = None /\
  length (writeRunFrame (run_frame demo_report) [Some 12; Some 8; None]%nat) = 20%nat.
Proof.
  split; [|vm_compute; reflexivity]. apply cut_frame_refused; [|vm_compute; discriminate].
  split; [by intros code [= <-]|]. split; [vm_compute; done|]. split; [constructor|]. repeat constructor; done.
Defined.
