(* ===== verification/Commands.v ===== *)
(** * Commands: quoting what is passed to programs and shown in menus

    Models [quote], [applications] and [menuText] of
    [src/src/native/tray-support.h], [quoteArgument] of
    [controller-service.cpp] and the command lines both build.  How a started
    program splits its command line is the runtime's documented rule, a
    parameter with that rule as its law. *)
From S2P Require Import Prelude Numbers DnsWire Identity.

(** ** Quoting *)

Definition slashes (n : nat) : list Z := replicate n 92.

(** [quote]: the loop over the characters, with the backslashes pending. *)
Fixpoint quote_loop (value : list Z) (pending : nat) (result : list Z) : list Z :=
  match value with
  | [] => result ++ slashes (pending * 2) ++ [34]
  | c :: rest =>
      if c =? 92 then quote_loop rest (S pending) result
      else quote_loop rest 0 (result ++ slashes (pending * (if c =? 34 then 2 else 1)) ++ (if c =? 34 then [92] else []) ++ [c])
  end.

Definition quote (value : list Z) : list Z := quote_loop value 0 [34].

(** [quoteArgument], the service's own version. *)
Fixpoint quoteArgument_loop (value : list Z) (backslashes : nat) (result : list Z) : list Z :=
  match value with
  | [] => (result ++ slashes (backslashes * 2)) ++ [34]
  | c :: rest =>
      if c =? 92 then quoteArgument_loop rest (S backslashes) result
      else if c =? 34 then quoteArgument_loop rest 0 ((result ++ slashes (backslashes * 2 + 1)) ++ [c])
      else quoteArgument_loop rest 0 ((result ++ slashes backslashes) ++ [c])
  end.

Definition quoteArgument (value : list Z) : list Z := quoteArgument_loop value 0 [34].

(** ** The runtime's rule *)

(** Reading the rest of a quoted argument: its text, and what follows its
    closing quote. *)
Class ArgumentRule := { read_quoted : list Z -> option (list Z * list Z) }.

Definition prefixed (text : list Z) (r : option (list Z * list Z)) : option (list Z * list Z) :=
  '(a, rest) ← r; Some (text ++ a, rest).

(** Documented: an even number of backslashes before a quote gives half of them
    and ends the argument (a quote directly after it would not), an odd number
    gives half of them and a literal quote, and backslashes before any other
    character are literal. *)
Class ArgumentRuleSpec (R : ArgumentRule) := {
  read_plain n c rest : c <> 92 -> c <> 34 -> read_quoted (slashes n ++ c :: rest) = prefixed (slashes n ++ [c]) (read_quoted rest);
  read_literal n rest : read_quoted (slashes (n * 2 + 1) ++ 34 :: rest) = prefixed (slashes n ++ [34]) (read_quoted rest);
  read_closing n rest : head rest <> Some 34 -> read_quoted (slashes (n * 2) ++ 34 :: rest) = Some (slashes n, rest)
}.

(** ** Both versions agree *)

Lemma slashes_app a b : slashes a ++ slashes b = slashes (a + b).
Proof. unfold slashes. by rewrite replicate_add. Qed.

Lemma quote_loops value pending result : quote_loop value pending result = quoteArgument_loop value pending result.
Proof.
  revert pending result. induction value as [|c value IH]; intros pending result; simpl; [by rewrite <- app_assoc|].
  destruct (c =? 92); [apply IH|]. rewrite IH. destruct (c =? 34).
  - by rewrite <- slashes_app, <- !app_assoc.
  - by rewrite Nat.mul_1_r, <- app_assoc.
Qed.

Section Reading.
Context {R : ArgumentRule} {S : ArgumentRuleSpec R}.

Lemma prefixed_app a b r : prefixed a (prefixed b r) = prefixed (a ++ b) r.
Proof. unfold prefixed. destruct r as [[x rest]|]; simpl; [by rewrite app_assoc|done]. Qed.

(** What the loop appends to its result. *)
Lemma quote_loop_app value pending result : quote_loop value pending result = result ++ quote_loop value pending [].
Proof.
  revert pending result. induction value as [|c value IH]; intros pending result; simpl; [done|].
  destruct (c =? 92); [apply IH|]. rewrite IH. rewrite (IH 0%nat (slashes _ ++ _)). by rewrite <- !app_assoc.
Qed.

Lemma read_quote_loop value pending rest :
  head rest <> Some 34 -> read_quoted (quote_loop value pending [] ++ rest) = Some (slashes pending ++ value, rest).
Proof.
  intros Hr. revert pending. induction value as [|c value IH]; intros pending; simpl.
  - rewrite <- app_assoc. simpl. rewrite read_closing by done. by rewrite app_nil_r.
  - destruct (c =? 92) eqn:E; bool_to_prop.
    + subst c. by rewrite IH, <- Nat.add_1_r, <- slashes_app, <- app_assoc.
    + rewrite quote_loop_app, <- !app_assoc. destruct (c =? 34) eqn:E2; bool_to_prop.
      * subst c. replace (slashes (pending * 2) ++ [92] ++ [34] ++ quote_loop value 0 [] ++ rest)
          with (slashes (pending * 2 + 1) ++ 34 :: (quote_loop value 0 [] ++ rest)) by (rewrite <- slashes_app, <- app_assoc; done).
        rewrite read_literal, IH. simpl. by rewrite <- app_assoc.
      * rewrite Nat.mul_1_r. simpl. rewrite read_plain, IH by done. simpl. by rewrite <- app_assoc.
Qed.

(** What a component quotes, the started program reads: for every text,
    whatever quotes and backslashes it holds, the tray's and the service's
    quoting are the same text, and reading it back after its opening quote gives
    exactly the value and leaves the rest of the command line. *)
Theorem quoted_argument_read_back value rest :
  head rest <> Some 34 ->
  quote value = quoteArgument value /\ exists body, quote value = 34 :: body /\ read_quoted (body ++ rest) = Some (value, rest).
Proof.
  intros Hr. split; [apply quote_loops|]. exists (quote_loop value 0 []). split; [apply quote_loop_app|].
  by rewrite read_quote_loop.
Qed.
End Reading.

(** *** A reader of that rule *)

(** Backslashes counted, then what follows them. *)
Fixpoint read_rule (text : list Z) (pending : nat) : option (list Z * list Z) :=
  match text with
  | [] => None
  | c :: rest =>
      if c =? 92 then read_rule rest (S pending)
      else if c =? 34 then
        if Nat.even pending then Some (slashes (Nat.div2 pending), rest)
        else prefixed (slashes (Nat.div2 pending) ++ [34]) (read_rule rest 0)
      else prefixed (slashes pending ++ [c]) (read_rule rest 0)
  end.

#[local] Instance documented_rule : ArgumentRule := {| read_quoted text := read_rule text 0 |}.

Lemma read_rule_slashes n rest pending : read_rule (slashes n ++ rest) pending = read_rule rest (n + pending).
Proof. revert pending. induction n as [|n IH]; intros pending; simpl; [done|]. rewrite IH. f_equal. lia. Qed.

#[local] Instance documented_rule_spec : ArgumentRuleSpec documented_rule.
Proof.
  split; simpl; intros; rewrite read_rule_slashes, Nat.add_0_r; simpl.
  - by rewrite (proj2 (Z.eqb_neq c 92)), (proj2 (Z.eqb_neq c 34)) by done.
  - rewrite Nat.add_1_r, Nat.even_succ, Nat.odd_mul, andb_false_r, Nat.mul_comm. by rewrite Nat.div2_succ_double.
  - rewrite Nat.even_mul, orb_true_r, Nat.mul_comm. by rewrite Nat.div2_double.
Qed.

Definition demo_argument : list Z := str "C:\dir with space\" ++ [34] ++ str "x\".

Lemma quoted_argument_read_back_witness :
  quote demo_argument = quoteArgument demo_argument /\
  exists body, quote demo_argument = 34 :: body /\ read_quoted (body ++ str " -Action") = Some (demo_argument, str " -Action").
Proof. apply quoted_argument_read_back. done. Defined.

(** ** The command lines *)

(** [Action::run]'s runner command and [Action::execute]'s child. *)
Definition run_command (runner : list Z) (timeout : Z) (encoded : list Z) : list Z :=
  quote runner ++ str " --run " ++ to_string timeout ++ str " " ++ encoded.

Definition action_command (powershell script action value : list Z) : list Z :=
  quote powershell ++ str " -NoProfile -NonInteractive -ExecutionPolicy Bypass -File " ++ quote script ++
  str " -Action " ++ quote action ++ (if bool_decide (value = []) then [] else str " -InputPath " ++ quote value).

(** [launchController]'s command line. *)
Definition controller_command (powershell script : list Z) (stopEvent : Z) : list Z :=
  quoteArgument powershell ++ str " -NoProfile -NonInteractive -ExecutionPolicy Bypass -WindowStyle Hidden -File " ++
  quoteArgument script ++ str " -StopEventHandle " ++ to_string stopEvent.

(** ** Menus *)

(** [menuText]: an ampersand is doubled, so that it is shown. *)
Fixpoint menuText (text : list Z) : list Z :=
  match text with
  | [] => []
  | c :: rest => if c =? 38 then 38 :: 38 :: menuText rest else c :: menuText rest
  end.

(** What a menu shows of its text: two ampersands are one, and a single one
    underlines the next character and is not shown. *)
Fixpoint menu_shown (text : list Z) : list Z :=
  match text with
  | [] => []
  | 38 :: 38 :: rest => 38 :: menu_shown rest
  | 38 :: rest => menu_shown rest
  | c :: rest => c :: menu_shown rest
  end.

(** [applications]: the listed programs, [None] when it throws. *)
Definition application_line (line : list Z) : option (list Z) :=
  match trim line with
  | [] => None
  | c :: t => if c =? 35 then None else Some (c :: t)
  end.

Definition applications `{Utf8} (bytes : list Z) : option (list (list Z)) :=
  text ← wideText bytes;
  let text := match text with c :: rest => if c =? 65279 then rest else text | [] => text end in
  let result := omap application_line (split_lines text) in
  if (60000 <? Z.of_nat (length result)) then None else Some result.

(** [status]: what the two state files say. *)
Definition tray_status (active enabled : bool) : list Z :=
  if active then str "Enabled" else if enabled then str "Starting / recovering" else str "Disabled".

Lemma menuText_shown text : menu_shown (menuText text) = text.
Proof.
  induction text as [|c text IH]; [done|]. simpl. destruct (c =? 38) eqn:E; bool_to_prop; [subst; cbn; by rewrite IH|].
  rewrite <- IH at 2. destruct c as [|c|c]; try done. repeat (destruct c as [c|c|]; try done).
Qed.

(** The tray and the dispatcher read a plain list alike: the programs the tray
    lists are the ones the dispatcher selects. *)
Lemma listed_alike `{WideChars} `{Paths} line :
  listed_line line = (fun p => lower (canonicalPath p)) <$> application_line line.
Proof. unfold listed_line, application_line. destruct (trim line) as [|c t]; [done|]. by destruct (c =? 35). Qed.

Lemma plain_lists_agree `{WideChars} `{XDigits} `{Paths} text s :
  take (length kIdentityHeader) text <> kIdentityHeader -> parseIncludedText text = Some s ->
  forall p, p ∈ s <-> exists app, app ∈ omap application_line (split_lines text) /\ p = lower (canonicalPath app).
Proof.
  intros Hh. unfold parseIncludedText. rewrite bool_decide_false by done. intros [= <-] p. rewrite elem_of_list_to_set, list_elem_of_omap.
  setoid_rewrite list_elem_of_omap. setoid_rewrite listed_alike. split.
  - intros (line & Hl & Hp). apply fmap_Some in Hp as (app & Ha & ->). exists app. split; [by exists line|done].
  - intros (app & (line & Hl & Ha) & ->). exists line. split; [done|]. by rewrite Ha.
Qed.
