(* ===== verification/Wfp.v ===== *)
(** * Wfp: the payload filters

    Models the filter set of [src/src/native/wfp-probe.cpp]: the rules every
    included application gets, the drafting of a filter, the visit of the whole
    set, and the signatures by which verification compares what the filter
    engine holds with what was meant.  The engine itself and the transactions
    on it are in [WfpEngine]. *)
From stdpp Require Import sorting.
From S2P Require Import Prelude Numbers Identity Identify.

(** ** Identities and flags *)

Record GUID := guid { Data1 : Z; Data2 : Z; Data3 : Z; Data4 : list Z }.

#[export] Instance GUID_eq_dec : EqDecision GUID.
Proof. solve_decision. Defined.

Definition kProviderPersistent : Z := 0x1.
Definition kSublayerPersistent : Z := 0x1.
Definition kCalloutPersistent : Z := 0x10000.
Definition kUsesProviderContext : Z := 0x20000.
Definition kCalloutRegistered : Z := 0x40000.
Definition kContextPersistent : Z := 0x1.
Definition kFilterPersistent : Z := 0x1.
Definition kFilterBootTime : Z := 0x2.
Definition kHasProviderContext : Z := 0x4.
Definition kClearActionRight : Z := 0x8.
Definition kSublayerWeight : Z := 0xffff.

Definition kProvider := guid 0xaf8ce9d2 0x71b6 0x4050 [0x84; 0x47; 0x0e; 0xbb; 0xc4; 0x25; 0x58; 0xde].
Definition kSublayer := guid 0xf79561bc 0x0027 0x4152 [0x9a; 0x46; 0xc8; 0xc7; 0x30; 0x91; 0x1a; 0xbb].
Definition kLayerBindV4 := guid 0x66978cad 0xc704 0x42ac [0x86; 0xac; 0x7c; 0x1a; 0x23; 0x1b; 0xd2; 0x53].
Definition kLayerConnectV4 := guid 0xc6e63c8c 0xb784 0x4562 [0xaa; 0x7d; 0x0a; 0x67; 0xcf; 0xca; 0xf9; 0xa3].
Definition kLayerAuthConnectV4 := guid 0xc38d57d1 0x05a7 0x4c33 [0x90; 0x4f; 0x7f; 0xbc; 0xee; 0xe6; 0x0e; 0x82].
Definition kLayerRecvAcceptV4 := guid 0xe1cd9fe7 0xf4b5 0x4273 [0x96; 0xc0; 0x59; 0x2e; 0x48; 0x7b; 0x86; 0x50].
Definition kLayerConnectV6 := guid 0x4a72393b 0x319f 0x44bc [0x84; 0xc3; 0xba; 0x54; 0xdc; 0xb3; 0xb6; 0xb4].
Definition kLayerRecvAcceptV6 := guid 0xa3b42c97 0x9f04 0x4672 [0xb8; 0x7e; 0xce; 0xe9; 0xc4; 0x83; 0x25; 0x7f].
Definition kConditionAppId := guid 0xd78e1e87 0x8644 0x4ea5 [0x94; 0x37; 0xd8; 0x09; 0xec; 0xef; 0xc9; 0x71].
Definition kConditionFlags := guid 0x632ce23b 0x5167 0x435c [0x86; 0xd7; 0xe9; 0x03; 0x68; 0x4a; 0xa8; 0x0c].
Definition kConditionLocalAddress := guid 0xd9ee00de 0xc1ef 0x4617 [0xbf; 0xe3; 0xff; 0xd8; 0xf5; 0xa0; 0x89; 0x57].
Definition kCalloutBind := guid 0xb16b0a6e 0x2b2a 0x41a3 [0x8b; 0x39; 0xbd; 0x3f; 0xfc; 0x85; 0x5f; 0xf8].
Definition kCalloutConnect := guid 0xb80ca14a 0xa807 0x4ef2 [0x87; 0x2d; 0x4b; 0x1a; 0x51; 0x82; 0x54; 0x02].

(** [fwptypes.h]. *)
Definition FWP_ACTION_FLAG_CALLOUT : Z := 0x4000.
Definition FWP_ACTION_BLOCK : Z := 0x1001.
Definition FWP_ACTION_CALLOUT_TERMINATING : Z := 0x5003.
Definition FWP_MATCH_EQUAL : Z := 0.
Definition FWP_MATCH_FLAGS_NONE_SET : Z := 8.
Definition FWP_MATCH_NOT_EQUAL : Z := 10.
Definition FWP_CONDITION_FLAG_IS_LOOPBACK : Z := 1.
Definition FWPM_GENERAL_CONTEXT : Z := 8.

(** ** Rules *)

Record CalloutRule := { c_key : GUID; c_layer : GUID; c_name : list Z }.

Definition kCallouts : list CalloutRule := [
  {| c_key := kCalloutBind; c_layer := kLayerBindV4; c_name := str "PIA bind redirect" |};
  {| c_key := kCalloutConnect; c_layer := kLayerConnectV4; c_name := str "PIA connect redirect" |}
].

Record FilterRule := {
  r_layer : GUID; r_action : Z; r_callout : option GUID; exceptLoopback : bool; exceptTunnel : bool; r_name : list Z
}.

Definition kRules : list FilterRule := [
  {| r_layer := kLayerBindV4; r_action := FWP_ACTION_CALLOUT_TERMINATING; r_callout := Some kCalloutBind;
     exceptLoopback := false; exceptTunnel := false; r_name := str "Included app UDP bind" |};
  {| r_layer := kLayerConnectV4; r_action := FWP_ACTION_CALLOUT_TERMINATING; r_callout := Some kCalloutConnect;
     exceptLoopback := false; exceptTunnel := false; r_name := str "Included app TCP connect" |};
  {| r_layer := kLayerAuthConnectV4; r_action := FWP_ACTION_BLOCK; r_callout := None;
     exceptLoopback := true; exceptTunnel := true; r_name := str "Included app IPv4 connect outside the tunnel" |};
  {| r_layer := kLayerRecvAcceptV4; r_action := FWP_ACTION_BLOCK; r_callout := None;
     exceptLoopback := true; exceptTunnel := true; r_name := str "Included app IPv4 accept outside the tunnel" |};
  {| r_layer := kLayerConnectV6; r_action := FWP_ACTION_BLOCK; r_callout := None;
     exceptLoopback := true; exceptTunnel := false; r_name := str "Included app IPv6 connect block" |};
  {| r_layer := kLayerRecvAcceptV6; r_action := FWP_ACTION_BLOCK; r_callout := None;
     exceptLoopback := true; exceptTunnel := false; r_name := str "Included app IPv6 accept block" |}
].

Definition sameGuid (left right : GUID) : bool := bool_decide (left = right).

Definition ownedBy (provider : option GUID) : bool :=
  match provider with Some key => sameGuid key kProvider | None => false end.

(** ** Filters *)

Inductive condition_value :=
| Uint8 (n : Z) | Uint16 (n : Z) | Uint32 (n : Z) | ByteBlob (data : option (list Z)) | OtherValue (type : Z).

Record condition := { fieldKey : GUID; matchType : Z; conditionValue : condition_value }.

(** [FWPM_FILTER0]; an absent callout or context key is the zero [GUID]. *)
Record filter0 := {
  filterId : Z; filterKey : GUID; displayName : list Z; flags : Z; providerKey : option GUID;
  providerData : option (list Z); layerKey : GUID; subLayerKey : GUID; weight : Z; actionType : Z;
  calloutKey : GUID; providerContextKey : GUID; filterCondition : list condition
}.

Definition zero_guid : GUID := guid 0 0 0 [0; 0; 0; 0; 0; 0; 0; 0].

(** One identifier with the tag of its entry, as bytes. *)
Record AppEntry := { appId : list Z; tag : list Z }.

Definition draft_conditions (rule : FilterRule) (app : AppEntry) (tunnelIp : Z) : list condition :=
  [{| fieldKey := kConditionAppId; matchType := FWP_MATCH_EQUAL; conditionValue := ByteBlob (Some (appId app)) |}] ++
  (if exceptLoopback rule then
     [{| fieldKey := kConditionFlags; matchType := FWP_MATCH_FLAGS_NONE_SET; conditionValue := Uint32 FWP_CONDITION_FLAG_IS_LOOPBACK |}]
   else []) ++
  (if exceptTunnel rule then
     [{| fieldKey := kConditionLocalAddress; matchType := FWP_MATCH_NOT_EQUAL; conditionValue := Uint32 tunnelIp |}]
   else []).

Definition draftFilter (rule : FilterRule) (app : AppEntry) (context : GUID) (tunnelIp : Z) (bootTime : bool) : filter0 :=
  let flags := kFilterPersistent in
  let flags := match r_callout rule with Some _ => Z.lor flags kHasProviderContext | None => Z.lor flags kClearActionRight end in
  let flags := if bootTime then Z.lor (Z.land flags (unot 32 kFilterPersistent)) kFilterBootTime else flags in
  {| filterId := 0; filterKey := zero_guid; displayName := r_name rule; flags := flags;
     providerKey := Some kProvider; providerData := Some (tag app); layerKey := r_layer rule;
     subLayerKey := if bootTime then zero_guid else kSublayer; weight := 15; actionType := r_action rule;
     calloutKey := default zero_guid (r_callout rule);
     providerContextKey := match r_callout rule with Some _ => context | None => zero_guid end;
     filterCondition := draft_conditions rule app tunnelIp |}.

(** The filters of one rule: the persistent one and, for a block, its boot-time
    copy; redirects only when they are wanted. *)
Definition rule_filters (app : AppEntry) (context : GUID) (tunnelIp : Z) (withRedirects : bool) (rule : FilterRule) : list filter0 :=
  match r_callout rule with
  | Some _ => if withRedirects then [draftFilter rule app context tunnelIp false] else []
  | None => [draftFilter rule app context tunnelIp false; draftFilter rule app context tunnelIp true]
  end.

(** The filters [forEachFilter] visits, in order. *)
Definition forEachFilter (apps : list AppEntry) (context : GUID) (tunnelIp : Z) (withRedirects : bool) : list filter0 :=
  concat (map (fun app => concat (map (rule_filters app context tunnelIp withRedirects) kRules)) apps).

(** ** Signatures *)

(** [%0<width>x]: the value's hexadecimal digits, zero-filled. *)
Fixpoint hex_digits (width : nat) (n : Z) : list Z :=
  match width with
  | O => []
  | S width => hex_digits width (n / 16) ++ [hexDigitChar (n mod 16)]
  end.

Definition guidText (value : GUID) : list Z :=
  hex_digits 8 (Data1 value) ++ str "-" ++ hex_digits 4 (Data2 value) ++ str "-" ++ hex_digits 4 (Data3 value) ++ str "-" ++
  hexBytes (take 2 (Data4 value)) ++ str "-" ++ hexBytes (drop 2 (Data4 value)).

Definition value_text (v : condition_value) : list Z :=
  match v with
  | Uint8 n => str "u8:" ++ to_string n
  | Uint16 n => str "u16:" ++ to_string n
  | Uint32 n => str "u32:" ++ to_string n
  | ByteBlob (Some data) => str "blob:" ++ hexBytes data
  | ByteBlob None => str "blob:null"
  | OtherValue type => str "type:" ++ to_string type
  end.

Definition conditionText (c : condition) : list Z :=
  guidText (fieldKey c) ++ str "/" ++ to_string (matchType c) ++ str "/" ++ value_text (conditionValue c).

Definition filterSignature (f : filter0) : list Z :=
  let conditions := sort_texts (map conditionText (filterCondition f)) in
  let bootTime := has_bits (flags f) kFilterBootTime in
  let text := guidText (layerKey f) ++ str " sublayer:" ++ (if bootTime then str "default" else guidText (subLayerKey f)) ++
              str " action:" ++ to_string (actionType f) in
  let text := if has_bits (actionType f) FWP_ACTION_FLAG_CALLOUT then text ++ str " callout:" ++ guidText (calloutKey f) else text in
  let text := text ++ (if has_bits (flags f) kFilterPersistent then str " persistent" else if bootTime then str " boottime" else str " dynamic") in
  let text := if has_bits (flags f) kClearActionRight then text ++ str " hard" else text in
  let text := if has_bits (flags f) kHasProviderContext then text ++ str " context:" ++ guidText (providerContextKey f) else text in
  let text := text ++ str " tag:" ++ (match providerData f with Some data => hexBytes data | None => [] end) in
  foldl (fun text c => text ++ str " " ++ c) text conditions.

Definition expectedSignatures (apps : list AppEntry) (context : GUID) (tunnelIp : Z) : list (list Z) :=
  sort_texts (map filterSignature (forEachFilter apps context tunnelIp true)).

(** ** Reading a signature back *)

Definition guid_ok (g : GUID) : Prop :=
  0 <= Data1 g < 16 ^ 8 /\ 0 <= Data2 g < 16 ^ 4 /\ 0 <= Data3 g < 16 ^ 4 /\ length (Data4 g) = 8%nat /\ Forall is_byte (Data4 g).

Definition value_ok (v : condition_value) : Prop :=
  match v with
  | Uint8 n | Uint16 n | Uint32 n | OtherValue n => 0 <= n < 2 ^ 32
  | ByteBlob (Some data) => Forall is_byte data
  | ByteBlob None => True
  end.

Definition condition_ok (c : condition) : Prop :=
  guid_ok (fieldKey c) /\ 0 <= matchType c < 2 ^ 32 /\ value_ok (conditionValue c).

(** The fields of a filter are within their widths. *)
Record filter_ok (f : filter0) : Prop := {
  layer_ok : guid_ok (layerKey f);
  sublayer_ok : guid_ok (subLayerKey f);
  callout_ok : guid_ok (calloutKey f);
  context_ok : guid_ok (providerContextKey f);
  action_ok : 0 <= actionType f < 2 ^ 32;
  data_ok : Forall is_byte (default [] (providerData f));
  conditions_ok : Forall condition_ok (filterCondition f)
}.

(** What a signature tells of a filter. *)
Record same_effect (f g : filter0) : Prop := {
  same_layer : layerKey f = layerKey g;
  same_bootTime : has_bits (flags f) kFilterBootTime = has_bits (flags g) kFilterBootTime;
  same_sublayer : has_bits (flags f) kFilterBootTime = false -> subLayerKey f = subLayerKey g;
  same_action : actionType f = actionType g;
  same_callout : has_bits (actionType f) FWP_ACTION_FLAG_CALLOUT = true -> calloutKey f = calloutKey g;
  same_persistent : has_bits (flags f) kFilterPersistent = has_bits (flags g) kFilterPersistent;
  same_hard : has_bits (flags f) kClearActionRight = has_bits (flags g) kClearActionRight;
  same_has_context : has_bits (flags f) kHasProviderContext = has_bits (flags g) kHasProviderContext;
  same_context : has_bits (flags f) kHasProviderContext = true -> providerContextKey f = providerContextKey g;
  same_tag : default [] (providerData f) = default [] (providerData g);
  same_conditions : filterCondition f ≡ₚ filterCondition g
}.

Lemma hex_digits_length w n : length (hex_digits w n) = w.
Proof. revert n. induction w as [|w IH]; intros n; simpl; [done|]. rewrite length_app, IH. simpl. lia. Qed.

Lemma hexDigitChar_inj a b : 0 <= a < 16 -> 0 <= b < 16 -> hexDigitChar a = hexDigitChar b -> a = b.
Proof. intros Ha Hb H. rewrite <- (hexDigit_char a), <- (hexDigit_char b), H by done. done. Qed.

Lemma hex_digits_inj w n m : 0 <= n < 16 ^ Z.of_nat w -> 0 <= m < 16 ^ Z.of_nat w -> hex_digits w n = hex_digits w m -> n = m.
Proof.
  revert n m. induction w as [|w IH]; intros n m Hn Hm H; [simpl in *; lia|]. cbn [hex_digits] in H. rewrite Nat2Z.inj_succ, Z.pow_succ_r in * by lia.
  apply app_inj_2 in H as [H1 H2]; [|done]. injection H2 as H2.
  apply hexDigitChar_inj in H2; [|apply Z.mod_pos_bound; lia..].
  apply IH in H1; [|split; [apply Z.div_pos; lia|apply Z.div_lt_upper_bound; lia]..].
  rewrite (Z.div_mod n 16), (Z.div_mod m 16) by lia. by rewrite H1, H2.
Qed.

Lemma hexBytes_inj a b : Forall is_byte a -> Forall is_byte b -> hexBytes a = hexBytes b -> a = b.
Proof. intros Ha Hb H. apply (inj Some). by rewrite <- (parse_hexBytes a Ha), <- (parse_hexBytes b Hb), H. Qed.

Lemma guidText_length g : guid_ok g -> length (guidText g) = 36%nat.
Proof.
  intros (_ & _ & _ & H & _). unfold guidText. rewrite !length_app, !hex_digits_length, !hexBytes_length, length_take, length_drop, H. done.
Qed.

Lemma guidText_inj g h : guid_ok g -> guid_ok h -> guidText g = guidText h -> g = h.
Proof.
  intros (Hg1 & Hg2 & Hg3 & Hg4 & Hg5) (Hh1 & Hh2 & Hh3 & Hh4 & Hh5) H. unfold guidText in H.
  apply app_inj_1 in H as [E1 H]; [|by rewrite !hex_digits_length]. apply app_inj_1 in H as [_ H]; [|done].
  apply app_inj_1 in H as [E2 H]; [|by rewrite !hex_digits_length]. apply app_inj_1 in H as [_ H]; [|done].
  apply app_inj_1 in H as [E3 H]; [|by rewrite !hex_digits_length]. apply app_inj_1 in H as [_ H]; [|done].
  apply app_inj_1 in H as [E4 H]; [|by rewrite !hexBytes_length, !length_take, Hg4, Hh4]. apply app_inj_1 in H as [_ E5]; [|done].
  apply hex_digits_inj in E1, E2, E3; [|done..].
  apply hexBytes_inj in E4, E5; [|by auto using Forall_take, Forall_drop..].
  destruct g as [g1 g2 g3 g4], h as [h1 h2 h3 h4]; simpl in *. subst. f_equal. by rewrite <- (take_drop 2 g4), <- (take_drop 2 h4), E4, E5.
Qed.

(** *** Words *)

(** The words of a signature. *)
Definition kind_word (f : filter0) : list Z :=
  if has_bits (flags f) kFilterPersistent then str "persistent"
  else if has_bits (flags f) kFilterBootTime then str "boottime" else str "dynamic".

Definition tail_words (f : filter0) : list (list Z) :=
  (if has_bits (flags f) kClearActionRight then [str "hard"] else []) ++
  (if has_bits (flags f) kHasProviderContext then [str "context:" ++ guidText (providerContextKey f)] else []) ++
  [str "tag:" ++ hexBytes (default [] (providerData f))] ++
  sort_texts (map conditionText (filterCondition f)).

Definition words (f : filter0) : list (list Z) :=
  [guidText (layerKey f);
   str "sublayer:" ++ (if has_bits (flags f) kFilterBootTime then str "default" else guidText (subLayerKey f));
   str "action:" ++ to_string (actionType f)] ++
  (if has_bits (actionType f) FWP_ACTION_FLAG_CALLOUT then [str "callout:" ++ guidText (calloutKey f)] else []) ++
  [kind_word f] ++ tail_words f.

Definition spaced (l : list (list Z)) : list Z := concat (map (cons 32) l).

Lemma spaced_app a b : spaced (a ++ b) = spaced a ++ spaced b.
Proof. unfold spaced. by rewrite map_app, concat_app. Qed.

Lemma foldl_spaced l text : foldl (fun text c => text ++ str " " ++ c) text l = text ++ spaced l.
Proof.
  revert text. induction l as [|c l IH]; intros text; simpl; [by rewrite app_nil_r|]. rewrite IH, <- app_assoc. done.
Qed.

Lemma signature_words f : 32 :: filterSignature f = spaced (words f).
Proof.
  unfold filterSignature, words, tail_words, kind_word. rewrite foldl_spaced, !spaced_app.
  destruct (has_bits (actionType f) _), (has_bits (flags f) kFilterPersistent), (has_bits (flags f) kFilterBootTime),
    (has_bits (flags f) kClearActionRight), (has_bits (flags f) kHasProviderContext), (providerData f);
    cbn [default]; unfold spaced; cbn [map concat]; rewrite <- ?app_assoc, ?app_nil_r; reflexivity.
Qed.

Lemma spaced_inj a b :
  Forall (fun w => 32 ∉ w) a -> Forall (fun w => 32 ∉ w) b -> spaced a = spaced b -> a = b.
Proof.
  intros Ha. revert b. induction Ha as [|w a Hw Ha IH]; intros b Hb H; destruct Hb as [|v b Hv Hb]; [done..|].
  unfold spaced in *. cbn [map concat app] in H. injection H as H.
  assert (forall l, concat (map (cons 32) l) = [] \/ exists r, concat (map (cons 32) l) = 32 :: r) as Hsp.
  { intros [|x l]; [by left|right]. simpl. eauto. }
  assert (forall x y r s, (32 ∉ x) -> (32 ∉ y) -> (r = [] \/ exists r', r = 32 :: r') -> (s = [] \/ exists s', s = 32 :: s') -> x ++ r = y ++ s -> x = y /\ r = s) as Hcut.
  { clear. induction x as [|c x IH]; intros [|d y] r s Hx Hy Hr Hs E; simpl in *.
    - done.
    - exfalso. destruct Hr as [->|[r' ->]]; [done|]. injection E as <- _. apply Hy. by left.
    - exfalso. destruct Hs as [->|[s' ->]]; [done|]. injection E as -> _. apply Hx. by left.
    - injection E as -> E. apply not_elem_of_cons in Hx as [_ Hx], Hy as [_ Hy]. destruct (IH y r s) as [-> ->]; done. }
  destruct (Hcut w v _ _ Hw Hv (Hsp a) (Hsp b) H) as [-> E]. f_equal. by apply IH.
Qed.

(** No word holds a space. *)
Lemma hex_no_space c : c ∈ str "0123456789abcdef" -> c <> 32.
Proof. vm_compute (str _). set_unfold. naive_solver. Qed.

Lemma hexBytes_no_space data : Forall is_byte data -> 32 ∉ hexBytes data.
Proof. intros H Hin. apply hexBytes_chars in Hin; [|done]. by apply hex_no_space in Hin. Qed.

Lemma hex_digits_chars w n c : c ∈ hex_digits w n -> c ∈ str "0123456789abcdef".
Proof.
  revert n. induction w as [|w IH]; intros n; cbn [hex_digits]; [by intros ?%elem_of_nil|].
  intros [H|H]%elem_of_app; [by apply (IH (n / 16))|]. apply list_elem_of_singleton in H as ->.
  apply hexDigitChar_class, Z.mod_pos_bound. lia.
Qed.

Lemma to_string_no c n : 0 <= n < 2 ^ 64 -> is_digit c = false -> c ∉ to_string n.
Proof.
  intros Hn Hc Hin. destruct (to_string_spec n Hn) as (_ & Hd & _). rewrite forallb_forall in Hd.
  apply list_elem_of_In, Hd in Hin. congruence.
Qed.

Lemma not_elem_app {A} (x : A) a b : (x ∉ a) -> (x ∉ b) -> x ∉ a ++ b.
Proof. intros Ha Hb. rewrite elem_of_app. naive_solver. Qed.

Ltac split_no := repeat match goal with |- _ ∉ _ ++ _ => apply not_elem_app end.

(** A character that is neither a hexadecimal digit nor a dash. *)
Lemma guidText_no c g : guid_ok g -> (c ∉ str "0123456789abcdef") -> (c ∉ str "-") -> c ∉ guidText g.
Proof.
  intros (_ & _ & _ & _ & Hb) Hh Hd. unfold guidText.
  split_no; try done; intros Hin;
    first [apply hex_digits_chars in Hin | apply hexBytes_chars in Hin; [|by auto using Forall_take, Forall_drop]]; done.
Qed.

Lemma str_no c s : existsb (Z.eqb c) (str s) = false -> c ∉ str s.
Proof.
  intros H Hin. apply list_elem_of_In in Hin.
  assert (existsb (Z.eqb c) (str s) = true) by (apply existsb_exists; eexists; split; [done|apply Z.eqb_refl]). congruence.
Qed.

Ltac no_char := split_no; try (apply str_no; reflexivity);
  try (apply guidText_no; [done|apply str_no; reflexivity..]).

Lemma value_no_space v : value_ok v -> 32 ∉ value_text v.
Proof.
  destruct v as [n|n|n|[data|]|n]; cbn [value_text value_ok]; intros H; no_char; try (apply to_string_no; [lia|done]). by apply hexBytes_no_space.
Qed.

Lemma condition_no_space c : condition_ok c -> 32 ∉ conditionText c.
Proof.
  intros (Hg & Hm & Hv). unfold conditionText. no_char; [apply to_string_no; [lia|done]|by apply value_no_space].
Qed.

Lemma words_no_space f : filter_ok f -> Forall (fun w => 32 ∉ w) (words f).
Proof.
  intros [H1 H2 H3 H4 H5 H6 H7]. unfold words, tail_words, kind_word.
  repeat apply Forall_app_2; repeat apply Forall_cons_2; repeat case_match; repeat apply Forall_cons_2; try apply Forall_nil_2; no_char.
  all: try (apply to_string_no; [lia|done]); try by apply hexBytes_no_space.
  apply list.Forall_forall. intros w Hw. rewrite sort_texts_elem in Hw. apply list_elem_of_fmap in Hw as (c & -> & Hc).
  apply condition_no_space. by eapply list.Forall_forall in H7.
Qed.

(** *** Injectivity *)

(** Two texts cut at the same separator. *)
Lemma cut_inj (c : Z) (a b a' b' : list Z) : (c ∉ a) -> (c ∉ a') -> a ++ c :: b = a' ++ c :: b' -> a = a' /\ b = b'.
Proof. intros Ha Ha' H. pose proof (cut_app c a b Ha) as E. rewrite H, cut_app in E by done. by injection E as -> ->. Qed.

Lemma hex_not_null data : Forall is_byte data -> hexBytes data <> str "null".
Proof.
  intros Hd H. assert (110 ∈ hexBytes data) as Hin by (rewrite H; vm_compute (str _); by left).
  apply hexBytes_chars in Hin; [|done]. revert Hin. by apply str_no.
Qed.

Lemma value_text_inj v w : value_ok v -> value_ok w -> value_text v = value_text w -> v = w.
Proof.
  intros Hv Hw H. destruct v as [n|n|n|[data|]|n], w as [m|m|m|[data'|]|m]; cbn [value_text value_ok] in *; try discriminate H; try done.
  1-3, 7: apply app_inv_head, to_string_inj in H; [by subst|lia..].
  - apply app_inv_head, hexBytes_inj in H; [by subst|done..].
  - by apply (app_inv_head (str "blob:") (hexBytes data) (str "null")), hex_not_null in H.
  - by apply (app_inv_head (str "blob:") (str "null") (hexBytes data')), eq_sym, hex_not_null in H.
Qed.

Lemma conditionText_inj c d : condition_ok c -> condition_ok d -> conditionText c = conditionText d -> c = d.
Proof.
  intros (Hc1 & Hc2 & Hc3) (Hd1 & Hd2 & Hd3) H. unfold conditionText in H.
  apply app_inj_1 in H as [E1 H]; [|by rewrite !guidText_length]. apply guidText_inj in E1; [|done..].
  change (str "/") with [47] in H. injection H as H. apply cut_inj in H as [E2 E3]; [|apply to_string_no; [lia|done]..].
  apply to_string_inj in E2; [|lia..]. apply value_text_inj in E3; [|done..]. destruct c, d; simpl in *. by subst.
Qed.

Lemma map_inj_perm {A B} (f : A -> B) (P : A -> Prop) a b :
  (forall x y, P x -> P y -> f x = f y -> x = y) -> Forall P a -> Forall P b -> map f a ≡ₚ map f b -> a ≡ₚ b.
Proof.
  intros Hf Ha. revert b. induction Ha as [|x a Hx Ha IH]; intros b Hb H; simpl in H.
  - apply Permutation_nil_l in H. destruct b; [done|discriminate].
  - assert (f x ∈ map f b) as Hin by (rewrite <- H; by left). apply list_elem_of_fmap in Hin as (y & Hy & Hyb).
    apply elem_of_Permutation in Hyb as [b' Hb']. rewrite Hb' in Hb |- *. inversion Hb as [|? ? Py Hb'']; subst.
    assert (x = y) as -> by (by apply Hf). apply perm_skip, IH; [done|]. rewrite Hb' in H. simpl in H. by apply Permutation_cons_inv in H.
Qed.

Lemma sublayer_word f g :
  filter_ok f -> filter_ok g ->
  (if has_bits (flags f) kFilterBootTime then str "default" else guidText (subLayerKey f)) =
  (if has_bits (flags g) kFilterBootTime then str "default" else guidText (subLayerKey g)) ->
  has_bits (flags f) kFilterBootTime = has_bits (flags g) kFilterBootTime /\
  (has_bits (flags f) kFilterBootTime = false -> subLayerKey f = subLayerKey g).
Proof.
  intros Hf Hg H. pose proof (guidText_length _ (sublayer_ok f Hf)) as Lf. pose proof (guidText_length _ (sublayer_ok g Hg)) as Lg.
  destruct (has_bits (flags f) _), (has_bits (flags g) _); [done| | |].
  - rewrite <- H in Lg. discriminate Lg.
  - rewrite H in Lf. discriminate Lf.
  - split; [done|]. intros _. apply guidText_inj in H; [done|by apply sublayer_ok..].
Qed.

Lemma kind_word_inj f g :
  has_bits (flags f) kFilterBootTime = has_bits (flags g) kFilterBootTime -> kind_word f = kind_word g ->
  has_bits (flags f) kFilterPersistent = has_bits (flags g) kFilterPersistent.
Proof.
  unfold kind_word. intros ->. destruct (has_bits (flags f) kFilterPersistent), (has_bits (flags g) kFilterPersistent), (has_bits (flags g) kFilterBootTime); done.
Qed.

(** The words after the kind tell whether the filter is hard, its context, its
    tag and its conditions. *)
Lemma tail_words_inj f g :
  filter_ok f -> filter_ok g -> tail_words f = tail_words g ->
  has_bits (flags f) kClearActionRight = has_bits (flags g) kClearActionRight /\
  has_bits (flags f) kHasProviderContext = has_bits (flags g) kHasProviderContext /\
  (has_bits (flags f) kHasProviderContext = true -> providerContextKey f = providerContextKey g) /\
  default [] (providerData f) = default [] (providerData g) /\
  sort_texts (map conditionText (filterCondition f)) = sort_texts (map conditionText (filterCondition g)).
Proof.
  intros Hf Hg. pose proof (hexBytes_inj _ _ (data_ok f Hf) (data_ok g Hg)) as Hd.
  pose proof (guidText_inj _ _ (context_ok f Hf) (context_ok g Hg)) as Hc. unfold tail_words. revert Hd Hc.
  generalize (sort_texts (map conditionText (filterCondition f))), (sort_texts (map conditionText (filterCondition g))),
    (default [] (providerData f)), (default [] (providerData g)), (guidText (providerContextKey f)), (guidText (providerContextKey g)).
  intros cf cg df dg tf tg Hd Hc H.
  destruct (has_bits (flags f) kClearActionRight), (has_bits (flags g) kClearActionRight),
    (has_bits (flags f) kHasProviderContext), (has_bits (flags g) kHasProviderContext); try discriminate H;
    simpl in H; simplify_eq; repeat match goal with E : str _ ++ _ = str _ ++ _ |- _ => apply app_inv_head in E end;
    repeat split; try discriminate; auto.
Qed.

Lemma cons_eq {A} (x y : A) l k : x :: l = y :: k -> x = y /\ l = k.
Proof. by intros [= -> ->]. Qed.

Lemma signature_same_effect (f g : filter0) :
  filter_ok f -> filter_ok g -> filterSignature f = filterSignature g -> same_effect f g.
Proof.
  intros Hf Hg H. assert (words f = words g) as E.
  { apply spaced_inj; [by apply words_no_space..|]. by rewrite <- !signature_words, H. }
  clear H. unfold words in E. cbn [app] in E.
  apply cons_eq in E as [E1 E]. apply cons_eq in E as [E2 E]. apply cons_eq in E as [E3 E].
  apply guidText_inj in E1; [|by apply layer_ok..]. apply app_inv_head, sublayer_word in E2 as [Hb Hs]; [|done..].
  pose proof (action_ok f Hf). pose proof (action_ok g Hg). apply app_inv_head, to_string_inj in E3; [|lia..].
  rewrite <- E3 in E.
  assert ((has_bits (actionType f) FWP_ACTION_FLAG_CALLOUT = true -> calloutKey f = calloutKey g) /\
          kind_word f :: tail_words f = kind_word g :: tail_words g) as [Hc Et].
  { destruct (has_bits (actionType f) _); [|by split]. apply cons_eq in E as [Ec E]. split; [intros _|done].
    apply app_inv_head, guidText_inj in Ec; [done|by apply callout_ok..]. }
  apply cons_eq in Et as [Ek Et]. apply tail_words_inj in Et as (Hh & Hp & Hx & Ht & Hs'); [|done..].
  split; try done; [by apply kind_word_inj|].
  apply (map_inj_perm conditionText condition_ok); [apply conditionText_inj|by apply conditions_ok..|].
  unfold sort_texts in Hs'. by rewrite <- (merge_sort_Permutation lex_le (map conditionText (filterCondition f))), Hs', merge_sort_Permutation.
Qed.

Lemma same_signature f g : same_effect f g -> filterSignature f = filterSignature g.
Proof.
  intros [H1 H2 H3 H4 H5 H6 H7 H8 H9 H10 H11]. apply (inj (cons 32)). rewrite !signature_words. f_equal.
  unfold words, tail_words, kind_word. rewrite H1, H2, H4, H6, H7, H8, H10.
  rewrite (sort_texts_perm (map conditionText (filterCondition f)) (map conditionText (filterCondition g))) by (by apply Permutation_map).
  rewrite H2 in H3. rewrite H4 in H5. rewrite H8 in H9.
  destruct (has_bits (flags g) kFilterBootTime), (has_bits (actionType g) _), (has_bits (flags g) kHasProviderContext);
    rewrite ?H3, ?H5, ?H9 by done; reflexivity.
Qed.

(** A signature is everything that decides what a filter does.  Two filters
    with the same signature are at the same layer and sublayer, have the same
    action and callout, are equally persistent, boot-time and hard, refer to the
    same context, carry the same tag and have the same conditions. *)
Theorem signature_faithful (f g : filter0) :
  filter_ok f -> filter_ok g -> filterSignature f = filterSignature g -> same_effect f g.
Proof. apply signature_same_effect. Qed.

Ltac known_guid :=
  split_and!; simpl; try lia; repeat (apply Forall_cons_2; [unfold is_byte; lia|]); apply Forall_nil_2.

(** ** What the filters stop *)

(** A connection as the authorization layers see it: the layer, the program's
    identifier, the condition flags and the local address. *)
Record traffic := { t_layer : GUID; t_appId : list Z; t_flags : Z; t_local : Z }.

Section Matching.
(** How the engine reads conditions this set never uses. *)
Variable other : traffic -> condition -> bool.

(** The documented meaning of the conditions the rules use. *)
Definition holds (t : traffic) (c : condition) : bool :=
  match conditionValue c with
  | ByteBlob (Some data) =>
      if sameGuid (fieldKey c) kConditionAppId && (matchType c =? FWP_MATCH_EQUAL) then bool_decide (data = t_appId t) else other t c
  | Uint32 n =>
      if sameGuid (fieldKey c) kConditionFlags && (matchType c =? FWP_MATCH_FLAGS_NONE_SET) then negb (has_bits (t_flags t) n)
      else if sameGuid (fieldKey c) kConditionLocalAddress && (matchType c =? FWP_MATCH_NOT_EQUAL) then negb (t_local t =? n)
      else other t c
  | _ => other t c
  end.

(** A filter matches at its own layer when, for every field it names, one of its
    conditions on that field holds. *)
Definition matches (t : traffic) (f : filter0) : bool :=
  sameGuid (layerKey f) (t_layer t) &&
  forallb (fun c => existsb (fun d => sameGuid (fieldKey c) (fieldKey d) && holds t d) (filterCondition f)) (filterCondition f).

(** A block nothing in a later sublayer overrides: of the persistent set, or of
    the boot-time copy that covers the start of the system. *)
Definition hard_block (bootTime : bool) (f : filter0) : Prop :=
  actionType f = FWP_ACTION_BLOCK /\ has_bits (flags f) kClearActionRight = true /\
  has_bits (flags f) kFilterBootTime = bootTime /\ has_bits (flags f) kFilterPersistent = negb bootTime /\
  (bootTime = false -> subLayerKey f = kSublayer).

(** Traffic of an included program that leaves the host outside the tunnel. *)
Definition outside_tunnel (ids : list (list Z)) (tunnelIp : Z) (t : traffic) : Prop :=
  t_appId t ∈ ids /\ has_bits (t_flags t) FWP_CONDITION_FLAG_IS_LOOPBACK = false /\
  (t_layer t = kLayerConnectV6 \/ t_layer t = kLayerRecvAcceptV6 \/
   ((t_layer t = kLayerAuthConnectV4 \/ t_layer t = kLayerRecvAcceptV4) /\ t_local t <> tunnelIp)).

Lemma forallb_perm {A} (p : A -> bool) a b : a ≡ₚ b -> forallb p a = forallb p b.
Proof. induction 1 as [|x a b _ IH|x y a|a b c _ IH1 _ IH2]; simpl; [done|by rewrite IH|by rewrite !andb_assoc, (andb_comm (p x))|congruence]. Qed.

Lemma existsb_perm {A} (p : A -> bool) a b : a ≡ₚ b -> existsb p a = existsb p b.
Proof. induction 1 as [|x a b _ IH|x y a|a b c _ IH1 _ IH2]; simpl; [done|by rewrite IH|by rewrite !orb_assoc, (orb_comm (p x))|congruence]. Qed.

(** Filters with the same signature stop the same traffic. *)
Lemma same_matches t f g : same_effect f g -> matches t f = matches t g.
Proof.
  intros H. unfold matches. rewrite (same_layer f g H), (forallb_perm _ _ _ (same_conditions f g H)). f_equal.
  induction (filterCondition g) as [|c l IH] at 1 3; simpl; [done|]. rewrite IH. f_equal. apply existsb_perm, (same_conditions f g H).
Qed.

Lemma same_hard_block bootTime f g : same_effect f g -> hard_block bootTime f -> hard_block bootTime g.
Proof.
  intros H (H1 & H2 & H3 & H4 & H5). unfold hard_block.
  rewrite <- (same_action f g H), <- (same_hard f g H), <- (same_bootTime f g H), <- (same_persistent f g H).
  repeat split; try done. intros Hb. rewrite <- (same_sublayer f g H) by congruence. by apply H5.
Qed.

Lemma elem_of_forEach f apps context tunnelIp withRedirects :
  f ∈ forEachFilter apps context tunnelIp withRedirects <->
  exists app rule, app ∈ apps /\ rule ∈ kRules /\ f ∈ rule_filters app context tunnelIp withRedirects rule.
Proof.
  unfold forEachFilter. split.
  - intros H. apply list_elem_of_In, in_concat in H as (l & Hl & Hf). apply in_map_iff in Hl as (app & <- & Ha).
    apply in_concat in Hf as (k & Hk & Hf). apply in_map_iff in Hk as (rule & <- & Hr). exists app, rule. by rewrite !list_elem_of_In.
  - intros (app & rule & Ha & Hr & Hf). rewrite !list_elem_of_In in *. apply in_concat. eexists. split; [by apply in_map|].
    apply in_concat. eexists. split; [by apply in_map|done].
Qed.

Lemma block_matches rule app context tunnelIp bootTime t :
  exceptLoopback rule = true ->
  matches t (draftFilter rule app context tunnelIp bootTime) =
    sameGuid (r_layer rule) (t_layer t) && bool_decide (appId app = t_appId t) &&
    negb (has_bits (t_flags t) FWP_CONDITION_FLAG_IS_LOOPBACK) && (negb (exceptTunnel rule) || negb (t_local t =? tunnelIp)).
Proof.
  intros Hl. unfold matches, draftFilter, draft_conditions. cbn [layerKey filterCondition]. rewrite Hl.
  destruct (sameGuid (r_layer rule) (t_layer t)); [|done]. cbn [andb].
  destruct (exceptTunnel rule); simpl; unfold holds; simpl; rewrite ?andb_true_r, ?orb_false_r, ?orb_true_r; cbn [andb].
  all: destruct (bool_decide (appId app = t_appId t)), (has_bits (t_flags t) FWP_CONDITION_FLAG_IS_LOOPBACK), (t_local t =? tunnelIp); reflexivity.
Qed.

(** What the rules that block have in common. *)
Definition block_shape (rule : FilterRule) : Prop :=
  r_action rule = FWP_ACTION_BLOCK ->
  r_callout rule = None /\ exceptLoopback rule = true /\
  (exceptTunnel rule = true -> r_layer rule = kLayerAuthConnectV4 \/ r_layer rule = kLayerRecvAcceptV4) /\
  (exceptTunnel rule = false -> r_layer rule = kLayerConnectV6 \/ r_layer rule = kLayerRecvAcceptV6).

Lemma blocks_only : Forall block_shape kRules.
Proof.
  unfold kRules. repeat (apply Forall_cons_2; [intros Ha; first [discriminate Ha | split_and!; try reflexivity; intros Ht; first [discriminate Ht | by left | by right]]|]).
  apply Forall_nil_2.
Qed.

Lemma blocks_all layer tunnel :
  (tunnel = true /\ (layer = kLayerAuthConnectV4 \/ layer = kLayerRecvAcceptV4)) \/
  (tunnel = false /\ (layer = kLayerConnectV6 \/ layer = kLayerRecvAcceptV6)) ->
  exists rule, rule ∈ kRules /\ r_layer rule = layer /\ r_action rule = FWP_ACTION_BLOCK /\ r_callout rule = None /\
    exceptLoopback rule = true /\ exceptTunnel rule = tunnel.
Proof.
  intros [(-> & [-> | ->])|(-> & [-> | ->])]; eexists;
    [split; [by apply (list_elem_of_lookup_2 kRules 2)|]|split; [by apply (list_elem_of_lookup_2 kRules 3)|]
    |split; [by apply (list_elem_of_lookup_2 kRules 4)|]|split; [by apply (list_elem_of_lookup_2 kRules 5)|]]; repeat split.
Qed.

Lemma payload_blocked (apps : list AppEntry) (context : GUID) (tunnelIp : Z) (withRedirects bootTime : bool) (t : traffic) :
  (exists f, f ∈ forEachFilter apps context tunnelIp withRedirects /\ hard_block bootTime f /\ matches t f = true) <->
  outside_tunnel (map appId apps) tunnelIp t.
Proof.
  split.
  - intros (f & Hf & (Ha & _) & Hm). apply elem_of_forEach in Hf as (app & rule & Happ & Hrule & Hf).
    assert (exists b, f = draftFilter rule app context tunnelIp b) as [b ->].
    { unfold rule_filters in Hf. destruct (r_callout rule), withRedirects; set_unfold in Hf; naive_solver. }
    destruct (proj1 (list.Forall_forall _ _) blocks_only rule Hrule Ha) as (_ & Hl & Ht & Hn). rewrite block_matches in Hm by done. unfold sameGuid in Hm. bool_to_prop.
    split; [apply list_elem_of_fmap; eauto|]. split; [done|].
    assert (r_layer rule = t_layer t) as <- by done.
    destruct (exceptTunnel rule); [|destruct (Hn eq_refl); auto]. right. right. split; [by apply Ht|].
    simpl in *. bool_to_prop. done.
  - intros (Happ & Hl & Ht). apply list_elem_of_fmap in Happ as (app & Hid & Happ).
    destruct (blocks_all (t_layer t) (if decide (t_layer t = kLayerConnectV6 \/ t_layer t = kLayerRecvAcceptV6) then false else true))
      as (rule & Hrule & Hlay & Hact & Hc & Hlo & Htun); [case_decide; naive_solver|].
    exists (draftFilter rule app context tunnelIp bootTime). split; [|split].
    + apply elem_of_forEach. exists app, rule. split; [done|]. split; [done|]. unfold rule_filters. rewrite Hc.
      destruct bootTime; set_unfold; auto.
    + unfold hard_block, draftFilter. cbn [actionType flags subLayerKey]. rewrite Hc. destruct bootTime; done.
    + rewrite block_matches by done. unfold sameGuid. rewrite Hlay, !bool_decide_true, Hl, Htun by done. simpl.
      case_decide; simpl; [done|]. apply negb_true_iff, Z.eqb_neq. naive_solver.
Qed.

Definition rule_ok (rule : FilterRule) : Prop :=
  guid_ok (r_layer rule) /\ 0 <= r_action rule < 2 ^ 32 /\ guid_ok (default zero_guid (r_callout rule)).

Lemma rules_ok : Forall rule_ok kRules.
Proof.
  unfold kRules. repeat (apply Forall_cons_2; [split; [known_guid|split; [done|known_guid]]|]). apply Forall_nil_2.
Qed.

(** A drafted filter is within its fields' widths. *)
Lemma draft_ok rule app context tunnelIp bootTime :
  rule ∈ kRules -> Forall is_byte (appId app) -> Forall is_byte (tag app) -> guid_ok context -> 0 <= tunnelIp < 2 ^ 32 ->
  filter_ok (draftFilter rule app context tunnelIp bootTime).
Proof.
  intros Hr Ha Ht Hc Hip. destruct (proj1 (list.Forall_forall _ _) rules_ok rule Hr) as (Hl & Hact & Hco).
  split; cbn [draftFilter layerKey subLayerKey calloutKey providerContextKey actionType providerData filterCondition default]; try done.
  - destruct bootTime; known_guid.
  - destruct (r_callout rule); [done|known_guid].
  - unfold draft_conditions. repeat apply Forall_app_2; repeat case_match; repeat apply Forall_cons_2; try apply Forall_nil_2.
    all: split; [known_guid|]; split; [done|]; cbn [conditionValue value_ok]; done.
Qed.

(** C8: the payload filters stop exactly the traffic they should.  Of the set
    built for a list of identifiers, some hard block matches a connection, in the
    persistent set and likewise in the boot-time copies, if and only if it is of
    an included program, not loopback, and IPv6 or bound to an IPv4 address other
    than the tunnel's; with or without the redirects. *)
Theorem payload_blocked_exact (apps : list AppEntry) (context : GUID) (tunnelIp : Z) (withRedirects bootTime : bool) (t : traffic) :
  (exists f, f ∈ forEachFilter apps context tunnelIp withRedirects /\ hard_block bootTime f /\ matches t f = true) <->
  outside_tunnel (map appId apps) tunnelIp t.
Proof. apply payload_blocked. Qed.
End Matching.

Lemma signature_faithful_witness :
  let app := {| appId := [97; 0]; tag := [98; 0] |} in
  let f := draftFilter (nth 2 kRules (hd (Build_FilterRule zero_guid 0 None false false []) kRules)) app zero_guid 7 false in
  same_effect f f.
Proof.
  intros app f. assert (filter_ok f) as Hf.
  { apply draft_ok; [by apply (list_elem_of_lookup_2 kRules 2)|repeat (apply Forall_cons_2; [done|]); apply Forall_nil_2..|known_guid|done]. }
  apply (signature_faithful f f Hf Hf). reflexivity.
Defined.
