(* ===== verification/WfpEngine.v ===== *)
(** * WfpEngine: installing, verifying and removing the payload filters

    Models the operations of [src/src/native/wfp-probe.cpp] on the filter
    engine: the snapshot of everything the project owns, [describeMismatch],
    [install], [removeAll] and the commands of [wmain].  The engine is a service
    of the system: the class [Engine] holds its calls ([None] is a failure that
    [check] turns into an exception) and [EngineSpec] what the platform documents
    about them.  A transaction that is not committed leaves the engine as it was
    at its start. *)
From stdpp Require Import sorting.
From S2P Require Import Prelude Numbers Identity Identify Wfp.

(** ** Objects *)

Record callout0 := { co_key : GUID; co_flags : Z; co_provider : option GUID; co_layer : GUID }.
Record context0 := { cx_key : GUID; cx_id : Z; cx_flags : Z; cx_provider : option GUID; cx_type : Z; cx_data : option (list Z) }.
Record sublayer0 := { sl_key : GUID; sl_flags : Z; sl_provider : option GUID; sl_weight : Z }.

(** What an engine holds; of providers, the flags of the project's own. *)
Record contents := {
  provider : option Z; filters : list filter0; callouts : list callout0;
  contexts : list context0; sublayers : list sublayer0
}.

Class Engine := {
  engine : Type;
  begin_transaction : engine -> bool;
  commit_transaction : engine -> bool;
  get_provider : engine -> option (option Z);              (* [Some None]: not found *)
  enum_filters : engine -> option GUID -> option (list filter0);   (* every filter, or the project's at a layer *)
  enum_callouts : engine -> option GUID -> option (list callout0);
  enum_contexts : engine -> bool -> option (list context0);        (* every context, or the project's general ones *)
  enum_sublayers : engine -> bool -> option (list sublayer0);
  get_callout : engine -> GUID -> option (option callout0);
  add_provider : engine -> Z -> option engine;
  add_filter : engine -> filter0 -> option engine;
  add_callout : engine -> callout0 -> option engine;
  add_context : engine -> context0 -> option engine;
  add_sublayer : engine -> sublayer0 -> option engine;
  delete_provider : engine -> option engine;
  delete_filter : engine -> Z -> option engine;
  delete_callout : engine -> GUID -> option engine;
  delete_context : engine -> Z -> option engine;
  delete_sublayer : engine -> GUID -> option engine;
  new_guid : nat -> option GUID
}.

(** ** What the project owns *)

Record OwnedCallout := { oc_key : GUID; oc_flags : Z; oc_layer : GUID }.
Record OwnedContext := { ox_key : GUID; ox_id : Z; ox_flags : Z; ox_type : Z; ox_data : list Z }.
Record OwnedSublayer := { os_key : GUID; os_flags : Z; os_weight : Z }.

Record Owned := {
  o_provider : option Z; o_filters : list OwnedFilter; o_callouts : list OwnedCallout;
  o_contexts : list OwnedContext; o_sublayers : list OwnedSublayer
}.

Definition owned_empty (o : Owned) : bool :=
  bool_decide (o_provider o = None) && bool_decide (length (o_filters o) = 0%nat) && bool_decide (length (o_callouts o) = 0%nat) &&
  bool_decide (length (o_contexts o) = 0%nat) && bool_decide (length (o_sublayers o) = 0%nat).

(** Bytes as UTF-16 text, when their number is even. *)
Fixpoint wide_units (bytes : list Z) : option (list Z) :=
  match bytes with
  | [] => Some []
  | [_] => None
  | low :: high :: rest => cons (Z.lor low (Z.shiftl high 8)) <$> wide_units rest
  end.

(** The identifier condition; a later one replaces an earlier one. *)
Definition filter_appId (conditions : list condition) : list Z :=
  foldl (fun id c =>
    match conditionValue c with
    | ByteBlob (Some data) => if sameGuid (fieldKey c) kConditionAppId then data else id
    | _ => id
    end) [] conditions.

Definition owned_filter (f : filter0) : OwnedFilter :=
  ownedFilter (filterId f) (filterSignature f) (providerData f ≫= wide_units) (filter_appId (filterCondition f)).

Definition calloutRule (key : GUID) : option CalloutRule := List.find (fun rule => sameGuid (c_key rule) key) kCallouts.

Definition calloutCurrent (c : OwnedCallout) : bool :=
  match calloutRule (oc_key c) with
  | Some rule => sameGuid (c_layer rule) (oc_layer c) && has_bits (oc_flags c) kCalloutPersistent && has_bits (oc_flags c) kUsesProviderContext
  | None => false
  end.

Definition sublayerCurrent (s : OwnedSublayer) : bool :=
  sameGuid (os_key s) kSublayer && has_bits (os_flags s) kSublayerPersistent && (os_weight s =? kSublayerWeight).

(** A 32-bit value as its bytes in memory. *)
Definition le32 (n : Z) : list Z := [Z.land n 255; Z.land (Z.shiftr n 8) 255; Z.land (Z.shiftr n 16) 255; Z.land (Z.shiftr n 24) 255].

(** [ContextData]: the tunnel address, no name server rewrite. *)
Definition contextFor (tunnelIp : Z) : list Z := le32 tunnelIp ++ le32 0 ++ le32 0.

Definition contextMatches (data : list Z) (tunnelIp : Z) : bool :=
  (length data =? 12)%nat && bool_decide (data = contextFor tunnelIp).

(** [std::set_difference] of sorted texts. *)
Definition lex_ltb (a b : list Z) : bool := negb (lex_leb b a).
Fixpoint set_difference (a : list (list Z)) : list (list Z) -> list (list Z) :=
  match a with
  | [] => fun _ => []
  | x :: a' =>
      fix go (b : list (list Z)) : list (list Z) :=
        match b with
        | [] => x :: a'
        | y :: b' => if lex_ltb x y then x :: set_difference a' b else if lex_ltb y x then go b' else set_difference a' b'
        end
  end.

Definition text_of_size {A} (l : list A) : list Z := to_string (Z.of_nat (length l)).

(** The empty text when what is owned is exactly the set [install] creates. *)
Definition describeMismatch (o : Owned) (apps : list AppEntry) (tunnelIp : Z) : list Z :=
  match o_provider o with
  | None => str "the provider is missing"
  | Some flags =>
      if negb (has_bits flags kProviderPersistent) then str "the provider is not persistent"
      else if negb (length (o_sublayers o) =? 1)%nat || negb (forallb sublayerCurrent (take 1 (o_sublayers o))) then
        str "expected the persistent sublayer alone, found " ++ text_of_size (o_sublayers o) ++ str " sublayer(s)"
      else
        let current := List.filter calloutCurrent (o_callouts o) in
        if negb (length (o_callouts o) =? length kCallouts)%nat || negb (length current =? length kCallouts)%nat then
          str "expected both persistent PIA callouts, found " ++ text_of_size current ++ str " of " ++ text_of_size (o_callouts o)
        else
          match o_contexts o with
          | [context] =>
              if negb (has_bits (ox_flags context) kContextPersistent) || negb (ox_type context =? FWPM_GENERAL_CONTEXT) ||
                 negb (contextMatches (ox_data context) tunnelIp)
              then str "the provider context does not carry this tunnel address"
              else
                let actual := sort_texts (map f_signature (o_filters o)) in
                let expected := expectedSignatures apps (ox_key context) tunnelIp in
                if bool_decide (actual = expected) then []
                else str "expected " ++ text_of_size expected ++ str " filter(s), found " ++ text_of_size actual ++
                     str " with " ++ text_of_size (set_difference expected actual) ++ str " missing"
          | _ => str "expected one provider context, found " ++ text_of_size (o_contexts o)
          end
  end.

Section Operations.
Context {E : Engine}.

(** [enumerate]: batches of 256 until a short one; [entries] is what the handle
    yields. *)
Definition kBatch : nat := 256.
Fixpoint enumerate {A} (fuel : nat) (entries : list A) : list A :=
  match fuel with
  | O => []
  | S fuel =>
      let batch := take kBatch entries in
      batch ++ (if (length batch <? kBatch)%nat then [] else enumerate fuel (drop kBatch entries))
  end.
Definition enumerated {A} (entries : list A) : list A := enumerate (S (length entries)) entries.

Definition distinctLayers (callouts : bool) : list GUID :=
  foldl (fun layers layer => if existsb (fun known => sameGuid known layer) layers then layers else layers ++ [layer]) []
    (if callouts then map c_layer kCallouts else map r_layer kRules).

(** One list per layer, [None] if a call fails. *)
Fixpoint each_layer {A} (enum : GUID -> option (list A)) (layers : list GUID) : option (list A) :=
  match layers with
  | [] => Some []
  | layer :: layers => l ← enum layer; rest ← each_layer enum layers; Some (enumerated l ++ rest)
  end.

Definition owned_callout (c : callout0) : OwnedCallout :=
  {| oc_key := co_key c; oc_flags := co_flags c; oc_layer := co_layer c |}.
Definition owned_context (c : context0) : OwnedContext :=
  {| ox_key := cx_key c; ox_id := cx_id c; ox_flags := cx_flags c; ox_type := cx_type c;
     ox_data := if cx_type c =? FWPM_GENERAL_CONTEXT then default [] (cx_data c) else [] |}.
Definition owned_sublayer (s : sublayer0) : OwnedSublayer :=
  {| os_key := sl_key s; os_flags := sl_flags s; os_weight := sl_weight s |}.

Definition snapshot (e : engine) (everyLayer : bool) : option Owned :=
  p ← get_provider e;
  fs ← (if everyLayer then enumerated <$> enum_filters e None else each_layer (fun l => enum_filters e (Some l)) (distinctLayers false));
  cs ← (if everyLayer then enumerated <$> enum_callouts e None else each_layer (fun l => enum_callouts e (Some l)) (distinctLayers true));
  xs ← enum_contexts e everyLayer;
  ss ← enum_sublayers e everyLayer;
  Some {| o_provider := p;
          o_filters := map owned_filter (List.filter (fun f => ownedBy (providerKey f)) fs);
          o_callouts := map owned_callout (List.filter (fun c => ownedBy (co_provider c)) cs);
          o_contexts := map owned_context (List.filter (fun c => ownedBy (cx_provider c)) (enumerated xs));
          o_sublayers := map owned_sublayer (List.filter (fun s => ownedBy (sl_provider s)) (enumerated ss)) |}.

(** A sequence of calls that stops at the first failure. *)
Fixpoint for_each {A} (f : engine -> A -> option engine) (l : list A) (e : engine) : option engine :=
  match l with
  | [] => Some e
  | x :: l => e ← f e x; for_each f l e
  end.

Definition deleteFiltersAndContexts (e : engine) (o : Owned) : option engine :=
  e ← for_each (fun e f => delete_filter e (f_id f)) (o_filters o) e;
  for_each (fun e c => delete_context e (ox_id c)) (o_contexts o) e.

Definition callout_foreign (e : engine) (rule : CalloutRule) : option bool :=
  existing ← get_callout e (c_key rule);
  Some (match existing with Some c => negb (ownedBy (co_provider c)) | None => false end).

Fixpoint calloutsForeign_loop (e : engine) (rules : list CalloutRule) (foreign : bool) : option bool :=
  match rules with
  | [] => Some foreign
  | rule :: rules => f ← callout_foreign e rule; calloutsForeign_loop e rules (foreign || f)
  end.
Definition calloutsForeign (e : engine) : option bool := calloutsForeign_loop e kCallouts false.

Definition addCallout (e : engine) (rule : CalloutRule) : option engine :=
  add_callout e {| co_key := c_key rule; co_flags := Z.lor kCalloutPersistent kUsesProviderContext;
                   co_provider := Some kProvider; co_layer := c_layer rule |}.

(** The stale callouts go; what is left of [kCallouts] is to be added. *)
Fixpoint settle_callouts (existing : list OwnedCallout) (toAdd : list CalloutRule) (e : engine) : option (list CalloutRule * engine) :=
  match existing with
  | [] => Some (toAdd, e)
  | c :: existing =>
      if calloutCurrent c then settle_callouts existing (List.filter (fun rule => negb (sameGuid (c_key rule) (oc_key c))) toAdd) e
      else e ← delete_callout e (oc_key c); settle_callouts existing toAdd e
  end.

Fixpoint settle_sublayers (existing : list OwnedSublayer) (present : bool) (e : engine) : option (bool * engine) :=
  match existing with
  | [] => Some (present, e)
  | s :: existing =>
      if sublayerCurrent s then settle_sublayers existing true e
      else e ← delete_sublayer e (os_key s); settle_sublayers existing present e
  end.

(** Each filter with a fresh key, numbered from [n]. *)
Fixpoint add_filters (fs : list filter0) (n : nat) (e : engine) : option engine :=
  match fs with
  | [] => Some e
  | f :: fs =>
      key ← new_guid n;
      e ← add_filter e {| filterId := filterId f; filterKey := key; displayName := displayName f; flags := flags f;
             providerKey := providerKey f; providerData := providerData f; layerKey := layerKey f; subLayerKey := subLayerKey f;
             weight := weight f; actionType := actionType f; calloutKey := calloutKey f;
             providerContextKey := providerContextKey f; filterCondition := filterCondition f |};
      add_filters fs (S n) e
  end.

(** The body of [install], inside its transaction: whether the callouts belong
    to another provider, and the engine to commit. *)
Definition install_body (apps : list AppEntry) (tunnelIp : Z) (e : engine) : option (bool * engine) :=
  foreign ← calloutsForeign e;
  existing ← snapshot e false;
  e ← match o_provider existing with
      | Some flags => if has_bits flags kProviderPersistent then Some e else None
      | None => add_provider e kProviderPersistent
      end;
  e ← deleteFiltersAndContexts e existing;
  '(toAdd, e) ← settle_callouts (o_callouts existing) kCallouts e;
  '(present, e) ← settle_sublayers (o_sublayers existing) false e;
  e ← (if present : bool then Some e
       else add_sublayer e {| sl_key := kSublayer; sl_flags := kSublayerPersistent; sl_provider := Some kProvider; sl_weight := kSublayerWeight |});
  e ← (if foreign then Some e else for_each addCallout toAdd e);
  key ← new_guid 0;
  e ← add_context e {| cx_key := key; cx_id := 0; cx_flags := kContextPersistent; cx_provider := Some kProvider;
                       cx_type := FWPM_GENERAL_CONTEXT; cx_data := Some (contextFor tunnelIp) |};
  e ← add_filters (forEachFilter apps key tunnelIp (negb foreign)) 1 e;
  Some (foreign, e).

(** A transaction: aborted, and the engine as it was, unless it is committed. *)
Definition transaction {A : Type} (e : engine) (body : engine -> option (A * engine)) : (option A * engine)%type :=
  if negb (begin_transaction e) then (None, e)
  else match body e with
       | Some (a, e') => if commit_transaction e' then (Some a, e') else (None, e)
       | None => (None, e)
       end.

Inductive install_result := Installed | CalloutInUse | InstallFailed.

Definition install (apps : list AppEntry) (tunnelIp : Z) (e : engine) : install_result * engine :=
  match transaction e (install_body apps tunnelIp) with
  | (None, e) => (InstallFailed, e)
  | (Some foreign, e) => (if foreign then CalloutInUse else Installed, e)
  end.

Definition remove_body (e : engine) : option (Owned * engine) :=
  existing ← snapshot e true;
  e ← deleteFiltersAndContexts e existing;
  e ← for_each (fun e c => delete_callout e (oc_key c)) (o_callouts existing) e;
  e ← for_each (fun e s => delete_sublayer e (os_key s)) (o_sublayers existing) e;
  e ← (match o_provider existing with Some _ => delete_provider e | None => Some e end);
  Some (existing, e).

Definition removeAll (e : engine) : option Owned * engine := transaction e remove_body.

Definition readSnapshot (e : engine) (everyLayer : bool) : option Owned :=
  fst (transaction e (fun e => o ← snapshot e everyLayer; Some (o, e))).

(** Of both callouts, whether the driver has registered them. *)
Fixpoint registered_loop (e : engine) (rules : list CalloutRule) : option bool :=
  match rules with
  | [] => Some true
  | rule :: rules =>
      found ← get_callout e (c_key rule);
      match found with
      | None => None
      | Some c => if has_bits (co_flags c) kCalloutRegistered then registered_loop e rules else Some false
      end
  end.
Definition calloutsRegistered (e : engine) : option bool := registered_loop e kCallouts.
End Operations.

(** ** What the platform documents of the engine *)

Definition set_provider (c : contents) (p : option Z) : contents :=
  {| provider := p; filters := filters c; callouts := callouts c; contexts := contexts c; sublayers := sublayers c |}.
Definition set_filters (c : contents) (l : list filter0) : contents :=
  {| provider := provider c; filters := l; callouts := callouts c; contexts := contexts c; sublayers := sublayers c |}.
Definition set_callouts (c : contents) (l : list callout0) : contents :=
  {| provider := provider c; filters := filters c; callouts := l; contexts := contexts c; sublayers := sublayers c |}.
Definition set_contexts (c : contents) (l : list context0) : contents :=
  {| provider := provider c; filters := filters c; callouts := callouts c; contexts := l; sublayers := sublayers c |}.
Definition set_sublayers (c : contents) (l : list sublayer0) : contents :=
  {| provider := provider c; filters := filters c; callouts := callouts c; contexts := contexts c; sublayers := l |}.

(** An added object is stored as it was given: a filter gets its identifier (and
    a boot-time one the default sublayer), a callout may already be registered. *)
Definition stored_callout (c c' : callout0) : Prop :=
  co_key c' = co_key c /\ co_provider c' = co_provider c /\ co_layer c' = co_layer c /\
  has_bits (co_flags c') kCalloutPersistent = has_bits (co_flags c) kCalloutPersistent /\
  has_bits (co_flags c') kUsesProviderContext = has_bits (co_flags c) kUsesProviderContext.
Definition stored_context (c c' : context0) : Prop :=
  cx_key c' = cx_key c /\ cx_flags c' = cx_flags c /\ cx_provider c' = cx_provider c /\ cx_type c' = cx_type c /\ cx_data c' = cx_data c.

Class EngineSpec (E : Engine) := {
  look : engine -> contents;
  get_provider_spec e p : get_provider e = Some p -> p = provider (look e);
  get_callout_spec e k c : get_callout e k = Some c -> c = List.find (fun c => sameGuid (co_key c) k) (callouts (look e));
  enum_filters_all e l : enum_filters e None = Some l -> l ≡ₚ filters (look e);
  enum_filters_layer e g l : enum_filters e (Some g) = Some l ->
    l ≡ₚ List.filter (fun f => ownedBy (providerKey f) && sameGuid (layerKey f) g) (filters (look e));
  enum_callouts_all e l : enum_callouts e None = Some l -> l ≡ₚ callouts (look e);
  enum_callouts_layer e g l : enum_callouts e (Some g) = Some l ->
    l ≡ₚ List.filter (fun c => ownedBy (co_provider c) && sameGuid (co_layer c) g) (callouts (look e));
  enum_contexts_all e l : enum_contexts e true = Some l -> l ≡ₚ contexts (look e);
  enum_contexts_general e l : enum_contexts e false = Some l ->
    l ≡ₚ List.filter (fun c => ownedBy (cx_provider c) && (cx_type c =? FWPM_GENERAL_CONTEXT)) (contexts (look e));
  enum_sublayers_all e l : enum_sublayers e true = Some l -> l ≡ₚ sublayers (look e);
  enum_sublayers_owned e l : enum_sublayers e false = Some l -> l ≡ₚ List.filter (fun s => ownedBy (sl_provider s)) (sublayers (look e));
  add_provider_spec e p e' : add_provider e p = Some e' -> look e' = set_provider (look e) (Some p);
  add_filter_spec e f e' : add_filter e f = Some e' ->
    exists f', same_effect f f' /\ providerKey f' = providerKey f /\ (filterId f' ∉ filterId <$> filters (look e)) /\
      look e' = set_filters (look e) (f' :: filters (look e));
  add_callout_spec e c e' : add_callout e c = Some e' ->
    exists c', stored_callout c c' /\ (co_key c ∉ co_key <$> callouts (look e)) /\ look e' = set_callouts (look e) (c' :: callouts (look e));
  add_context_spec e c e' : add_context e c = Some e' ->
    exists c', stored_context c c' /\ (cx_id c' ∉ cx_id <$> contexts (look e)) /\ look e' = set_contexts (look e) (c' :: contexts (look e));
  add_sublayer_spec e s e' : add_sublayer e s = Some e' ->
    (sl_key s ∉ sl_key <$> sublayers (look e)) /\ look e' = set_sublayers (look e) (s :: sublayers (look e));
  delete_provider_spec e e' : delete_provider e = Some e' -> look e' = set_provider (look e) None;
  delete_filter_spec e id e' : delete_filter e id = Some e' ->
    look e' = set_filters (look e) (List.filter (fun f => negb (filterId f =? id)) (filters (look e)));
  delete_callout_spec e k e' : delete_callout e k = Some e' ->
    look e' = set_callouts (look e) (List.filter (fun c => negb (sameGuid (co_key c) k)) (callouts (look e)));
  delete_context_spec e id e' : delete_context e id = Some e' ->
    look e' = set_contexts (look e) (List.filter (fun c => negb (cx_id c =? id)) (contexts (look e)));
  delete_sublayer_spec e k e' : delete_sublayer e k = Some e' ->
    look e' = set_sublayers (look e) (List.filter (fun s => negb (sameGuid (sl_key s) k)) (sublayers (look e)))
}.

(** Keys and identifiers name one object each. *)
Record unique_keys (c : contents) : Prop := {
  unique_filters : NoDup (filterId <$> filters c);
  unique_callouts : NoDup (co_key <$> callouts c);
  unique_contexts : NoDup (cx_id <$> contexts c);
  unique_sublayers : NoDup (sl_key <$> sublayers c)
}.

(** ** Lists *)

Lemma filterb_perm {A} (p : A -> bool) a b : a ≡ₚ b -> List.filter p a ≡ₚ List.filter p b.
Proof.
  induction 1 as [|x a b _ IH|x y a|a b c _ IH1 _ IH2]; simpl; [done| | |by etrans]; repeat case_match; auto using Permutation_refl.
  apply perm_swap.
Qed.

Lemma filterb_filterb {A} (p q : A -> bool) l : List.filter p (List.filter q l) = List.filter (fun x => q x && p x) l.
Proof. induction l as [|x l IH]; simpl; [done|]. destruct (q x); simpl; [destruct (p x); by rewrite IH|done]. Qed.

Lemma filterb_ext {A} (p q : A -> bool) l : (forall x, x ∈ l -> p x = q x) -> List.filter p l = List.filter q l.
Proof.
  induction l as [|x l IH]; intros H; simpl; [done|]. rewrite H by by left. rewrite IH; [done|]. intros y Hy. apply H. by right.
Qed.

Lemma filterb_all {A} (p : A -> bool) l : (forall x, x ∈ l -> p x = true) -> List.filter p l = l.
Proof. intros H. rewrite (filterb_ext p (fun _ => true)) by done. clear H. induction l; simpl; congruence. Qed.

Lemma filterb_none {A} (p : A -> bool) l : (forall x, x ∈ l -> p x = false) -> List.filter p l = [].
Proof. intros H. rewrite (filterb_ext p (fun _ => false)) by done. clear H. by induction l. Qed.

Lemma elem_of_filterb {A} (p : A -> bool) l x : x ∈ List.filter p l <-> x ∈ l /\ p x = true.
Proof. by rewrite !list_elem_of_In, filter_In. Qed.

Lemma filterb_app {A} (p : A -> bool) a b : List.filter p (a ++ b) = List.filter p a ++ List.filter p b.
Proof. induction a as [|x a IH]; simpl; [done|]. destruct (p x); simpl; by rewrite IH. Qed.

Lemma enumerated_all {A} (l : list A) : enumerated l = l.
Proof.
  unfold enumerated. assert (forall fuel (k : list A), (length k < fuel)%nat -> enumerate fuel k = k) as H; [|apply H; lia].
  induction fuel as [|fuel IH]; intros k Hk; [lia|]. cbn [enumerate]. unfold kBatch in *. rewrite length_take.
  destruct (_ <? _)%nat eqn:En; bool_to_prop.
  - rewrite app_nil_r. apply take_ge. lia.
  - rewrite IH; [apply take_drop|]. rewrite length_drop. lia.
Qed.

Lemma filterb_split {A} (p q r : A -> bool) l :
  (forall x, p x = q x || r x) -> (forall x, q x = true -> r x = false) -> List.filter p l ≡ₚ List.filter q l ++ List.filter r l.
Proof.
  intros Hp Hd. induction l as [|x l IH]; simpl; [done|]. rewrite Hp. specialize (Hd x).
  destruct (q x); simpl; [rewrite Hd by done; by rewrite IH|]. destruct (r x); [|done]. rewrite IH. apply Permutation_middle.
Qed.

Lemma eqb_decide (a b : Z) : (a =? b) = bool_decide (a = b).
Proof. case_bool_decide; [by apply Z.eqb_eq|by apply Z.eqb_neq]. Qed.

Lemma sameGuid_eq a b : sameGuid a b = true <-> a = b.
Proof. unfold sameGuid. apply bool_decide_eq_true. Qed.

(** ** What a snapshot shows *)

Section Snapshot.
Context {E : Engine} {S : EngineSpec E}.

Lemma each_layer_perm {A} (owned : A -> bool) (layer : A -> GUID) (all : list A) (enum : GUID -> option (list A)) layers l :
  (forall g l, enum g = Some l -> l ≡ₚ List.filter (fun x => owned x && sameGuid (layer x) g) all) ->
  NoDup layers -> each_layer enum layers = Some l ->
  l ≡ₚ List.filter (fun x => owned x && existsb (sameGuid (layer x)) layers) all.
Proof.
  intros He Hn. revert l. induction Hn as [|g layers Hg Hn IH]; intros l H; simpl in H.
  - injection H as <-. rewrite filterb_none; [done|]. intros x _. apply andb_false_r.
  - destruct (enum g) as [k|] eqn:Eg; [|done]. simpl in H. destruct (each_layer enum layers) as [k'|] eqn:El; [|done].
    injection H as <-. rewrite enumerated_all, (He g k Eg), (IH k' eq_refl). symmetry. apply filterb_split.
    + intros x. simpl. destruct (owned x); [done|]. done.
    + intros x H. apply andb_true_iff in H as [_ H]. apply sameGuid_eq in H. apply andb_false_iff. right.
      apply not_true_iff_false. intros (y & Hy & Hs)%existsb_exists. apply sameGuid_eq in Hs. apply Hg. apply list_elem_of_In. congruence.
Qed.

Definition visible_filter (f : filter0) : bool := ownedBy (providerKey f) && existsb (sameGuid (layerKey f)) (distinctLayers false).
Definition visible_callout (c : callout0) : bool := ownedBy (co_provider c) && existsb (sameGuid (co_layer c)) (distinctLayers true).
Definition visible_context (c : context0) : bool := ownedBy (cx_provider c) && (cx_type c =? FWPM_GENERAL_CONTEXT).
Definition visible_sublayer (s : sublayer0) : bool := ownedBy (sl_provider s).

Lemma distinct_nodup b : NoDup (distinctLayers b).
Proof. apply (bool_decide_unpack (NoDup (distinctLayers b))). destruct b; vm_compute; exact I. Qed.

(** The project's objects a snapshot of the known layers shows. *)
Record shows (c : contents) (o : Owned) : Prop := {
  shows_provider : o_provider o = provider c;
  shows_filters : o_filters o ≡ₚ map owned_filter (List.filter visible_filter (filters c));
  shows_callouts : o_callouts o ≡ₚ map owned_callout (List.filter visible_callout (callouts c));
  shows_contexts : o_contexts o ≡ₚ map owned_context (List.filter visible_context (contexts c));
  shows_sublayers : o_sublayers o ≡ₚ map owned_sublayer (List.filter visible_sublayer (sublayers c))
}.

Lemma filterb_twice {A} (p q : A -> bool) l k : l ≡ₚ List.filter q k -> (forall x, q x = true -> p x = true) -> List.filter p l ≡ₚ List.filter q k.
Proof.
  intros H Hpq. rewrite (filterb_perm p _ _ H), filterb_filterb, (filterb_ext _ q); [done|]. intros x _. destruct (q x) eqn:Eq; [|done]. simpl. by apply Hpq.
Qed.

Lemma snapshot_shows e o : snapshot e false = Some o -> shows (look e) o.
Proof.
  unfold snapshot. cbv beta iota. intros H.
  destruct (get_provider e) as [p|] eqn:Ep; [|done]. cbn [mbind option_bind fmap option_fmap option_map] in H. apply get_provider_spec in Ep.
  destruct (each_layer (fun l => enum_filters e (Some l)) (distinctLayers false)) as [fs|] eqn:Ef; [|done]. cbn [mbind option_bind fmap option_fmap option_map] in H.
  destruct (each_layer (fun l => enum_callouts e (Some l)) (distinctLayers true)) as [cs|] eqn:Ec; [|done]. cbn [mbind option_bind fmap option_fmap option_map] in H.
  destruct (enum_contexts e false) as [xs|] eqn:Ex; [|done]. cbn [mbind option_bind fmap option_fmap option_map] in H. destruct (enum_sublayers e false) as [ss|] eqn:Es; [|done].
  cbn [mbind option_bind fmap option_fmap option_map] in H. apply (inj Some) in H. subst o.
  apply (each_layer_perm (fun f => ownedBy (providerKey f)) layerKey (filters (look e))) in Ef; [|intros g l; apply enum_filters_layer|apply distinct_nodup].
  apply (each_layer_perm (fun c => ownedBy (co_provider c)) co_layer (callouts (look e))) in Ec; [|intros g l; apply enum_callouts_layer|apply distinct_nodup].
  apply enum_contexts_general in Ex. apply enum_sublayers_owned in Es.
  split; cbn [o_provider o_filters o_callouts o_contexts o_sublayers]; rewrite ?enumerated_all; [done|..]; apply Permutation_map, filterb_twice; try done.
  all: intros x Hx; by apply andb_true_iff in Hx as [Hx _].
Qed.

Lemma snapshot_all e o : snapshot e true = Some o ->
  o_provider o = provider (look e) /\
  o_filters o ≡ₚ map owned_filter (List.filter (fun f => ownedBy (providerKey f)) (filters (look e))) /\
  o_callouts o ≡ₚ map owned_callout (List.filter (fun c => ownedBy (co_provider c)) (callouts (look e))) /\
  o_contexts o ≡ₚ map owned_context (List.filter (fun c => ownedBy (cx_provider c)) (contexts (look e))) /\
  o_sublayers o ≡ₚ map owned_sublayer (List.filter (fun s => ownedBy (sl_provider s)) (sublayers (look e))).
Proof.
  unfold snapshot. cbv beta iota. intros H.
  destruct (get_provider e) as [p|] eqn:Ep; [|done]. cbn [mbind option_bind fmap option_fmap option_map] in H. apply get_provider_spec in Ep.
  destruct (enum_filters e None) as [fs|] eqn:Ef; [|done]. cbn [mbind option_bind fmap option_fmap option_map] in H. apply enum_filters_all in Ef.
  destruct (enum_callouts e None) as [cs|] eqn:Ec; [|done]. cbn [mbind option_bind fmap option_fmap option_map] in H. apply enum_callouts_all in Ec.
  destruct (enum_contexts e true) as [xs|] eqn:Ex; [|done]. cbn [mbind option_bind fmap option_fmap option_map] in H. destruct (enum_sublayers e true) as [ss|] eqn:Es; [|done].
  cbn [mbind option_bind fmap option_fmap option_map] in H. apply (inj Some) in H. subst o. apply enum_contexts_all in Ex. apply enum_sublayers_all in Es.
  cbn [o_provider o_filters o_callouts o_contexts o_sublayers]. rewrite !enumerated_all.
  split_and!; [done|apply Permutation_map, filterb_perm; done..].
Qed.
End Snapshot.

(** ** What the operations do *)

Section Operate.
Context {E : Engine} {S : EngineSpec E}.

(** Deleting a list of objects by their keys, for any kind of object. *)
Lemma for_each_delete {X Y K} `{EqDecision K} (del : engine -> K -> option engine) (name : X -> K) (key : Y -> K)
    (get : contents -> list Y) (set : contents -> list Y -> contents) :
  (forall c l, get (set c l) = l) -> (forall c l k, set (set c l) k = set c k) -> (forall c, set c (get c) = c) ->
  (forall e k e', del e k = Some e' -> look e' = set (look e) (List.filter (fun y => negb (bool_decide (key y = k))) (get (look e)))) ->
  forall l e e', for_each (fun e x => del e (name x)) l e = Some e' ->
    look e' = set (look e) (List.filter (fun y => negb (bool_decide (key y ∈ name <$> l))) (get (look e))).
Proof.
  intros Hgs Hss Hsg Hdel. induction l as [|x l IH]; intros e e' H; simpl in H.
  - injection H as <-. rewrite filterb_all; [done|]. intros y _. done.
  - destruct (del e (name x)) as [e1|] eqn:Ed; [|done]. simpl in H. rewrite (IH e1 e' H), (Hdel e (name x) e1 Ed), Hgs, Hss. f_equal.
    rewrite filterb_filterb. apply filterb_ext. intros y _. csimpl. rewrite <- negb_orb. f_equal.
    rewrite <- bool_decide_or. apply bool_decide_ext. by rewrite elem_of_cons.
Qed.

Lemma delete_filters_spec l e e' :
  for_each (fun e f => delete_filter e (f_id f)) l e = Some e' ->
  look e' = set_filters (look e) (List.filter (fun f => negb (bool_decide (filterId f ∈ f_id <$> l))) (filters (look e))).
Proof.
  apply (for_each_delete delete_filter f_id filterId filters set_filters); [done|done|by intros []|].
  intros e1 k e2 H. rewrite (delete_filter_spec _ _ _ H). f_equal. apply filterb_ext. intros f _. f_equal. apply eqb_decide.
Qed.

Lemma delete_contexts_spec l e e' :
  for_each (fun e c => delete_context e (ox_id c)) l e = Some e' ->
  look e' = set_contexts (look e) (List.filter (fun c => negb (bool_decide (cx_id c ∈ ox_id <$> l))) (contexts (look e))).
Proof.
  apply (for_each_delete delete_context ox_id cx_id contexts set_contexts); [done|done|by intros []|].
  intros e1 k e2 H. rewrite (delete_context_spec _ _ _ H). f_equal. apply filterb_ext. intros f _. f_equal. apply eqb_decide.
Qed.

Lemma delete_callouts_spec l e e' :
  for_each (fun e c => delete_callout e (oc_key c)) l e = Some e' ->
  look e' = set_callouts (look e) (List.filter (fun c => negb (bool_decide (co_key c ∈ oc_key <$> l))) (callouts (look e))).
Proof. apply (for_each_delete delete_callout oc_key co_key callouts set_callouts); [done|done|by intros []|]. apply delete_callout_spec. Qed.

Lemma delete_sublayers_spec l e e' :
  for_each (fun e s => delete_sublayer e (os_key s)) l e = Some e' ->
  look e' = set_sublayers (look e) (List.filter (fun s => negb (bool_decide (sl_key s ∈ os_key <$> l))) (sublayers (look e))).
Proof. apply (for_each_delete delete_sublayer os_key sl_key sublayers set_sublayers); [done|done|by intros []|]. apply delete_sublayer_spec. Qed.

Lemma delete_both_spec o e e' :
  deleteFiltersAndContexts e o = Some e' ->
  look e' = set_contexts (set_filters (look e) (List.filter (fun f => negb (bool_decide (filterId f ∈ f_id <$> o_filters o))) (filters (look e))))
              (List.filter (fun c => negb (bool_decide (cx_id c ∈ ox_id <$> o_contexts o))) (contexts (look e))).
Proof.
  unfold deleteFiltersAndContexts. destruct (for_each _ (o_filters o) e) as [e1|] eqn:E1; [|done]. simpl. intros H.
  by rewrite (delete_contexts_spec _ _ _ H), (delete_filters_spec _ _ _ E1).
Qed.

(** Settling keeps the current objects and deletes the stale ones. *)
Lemma settle_callouts_spec existing toAdd e r e' :
  settle_callouts existing toAdd e = Some (r, e') ->
  for_each (fun e c => delete_callout e (oc_key c)) (List.filter (fun c => negb (calloutCurrent c)) existing) e = Some e' /\
  r = List.filter (fun rule => negb (bool_decide (c_key rule ∈ oc_key <$> List.filter calloutCurrent existing))) toAdd.
Proof.
  revert toAdd e. induction existing as [|c existing IH]; intros toAdd e H; cbn [settle_callouts] in H.
  - injection H as <- <-. split; [done|]. symmetry. apply filterb_all. intros rule _. done.
  - cbn [List.filter]. destruct (calloutCurrent c) eqn:Ec.
    + destruct (IH _ _ H) as [H1 ->]. split; [done|]. rewrite filterb_filterb. apply filterb_ext. intros rule _. csimpl. rewrite <- negb_orb.
      f_equal. unfold sameGuid. rewrite <- bool_decide_or. apply bool_decide_ext. by rewrite elem_of_cons.
    + destruct (delete_callout e (oc_key c)) as [e1|] eqn:Ed; [|done]. destruct (IH _ _ H) as [H1 H2]. split; [|done]. simpl. by rewrite Ed.
Qed.

Lemma settle_sublayers_spec existing present e r e' :
  settle_sublayers existing present e = Some (r, e') ->
  for_each (fun e s => delete_sublayer e (os_key s)) (List.filter (fun s => negb (sublayerCurrent s)) existing) e = Some e' /\
  r = present || existsb sublayerCurrent existing.
Proof.
  revert present e. induction existing as [|c existing IH]; intros present e H; cbn [settle_sublayers] in H.
  - injection H as <- <-. simpl. by rewrite orb_false_r.
  - cbn [List.filter existsb]. destruct (sublayerCurrent c) eqn:Ec.
    + destruct (IH _ _ H) as [H1 ->]. by rewrite orb_true_r.
    + destruct (delete_sublayer e (os_key c)) as [e1|] eqn:Ed; [|done]. destruct (IH _ _ H) as [H1 H2]. split; [|done]. simpl. by rewrite Ed.
Qed.

(** The stored form of a filter that was added. *)
Definition stored_filter (f f' : filter0) : Prop := same_effect f f' /\ providerKey f' = providerKey f.

Lemma add_filters_spec fs n e e' :
  add_filters fs n e = Some e' ->
  exists added, Forall2 stored_filter fs added /\ look e' = set_filters (look e) (rev added ++ filters (look e)).
Proof.
  revert n e. induction fs as [|f fs IH]; intros n e H; cbn [add_filters] in H.
  - injection H as <-. exists []. split; [constructor|]. by destruct (look e).
  - destruct (new_guid n) as [key|]; [|done]. cbn [mbind option_bind] in H. destruct (add_filter e _) as [e1|] eqn:Ea; [|done].
    apply add_filter_spec in Ea as (f' & Hs & Hp & _ & Hl). destruct (IH _ _ H) as (added & Hf & Hl').
    exists (f' :: added). split.
    + constructor; [|done]. split; [|done]. destruct Hs; split; done.
    + rewrite Hl', Hl. simpl. by rewrite <- app_assoc.
Qed.

Definition added_callout (rule : CalloutRule) (c : callout0) : Prop :=
  co_key c = c_key rule /\ co_provider c = Some kProvider /\ co_layer c = c_layer rule /\
  has_bits (co_flags c) kCalloutPersistent = true /\ has_bits (co_flags c) kUsesProviderContext = true.

Lemma add_callouts_spec rules e e' :
  for_each addCallout rules e = Some e' ->
  exists added, Forall2 added_callout rules added /\ look e' = set_callouts (look e) (rev added ++ callouts (look e)).
Proof.
  revert e. induction rules as [|rule rules IH]; intros e H; simpl in H.
  - injection H as <-. exists []. split; [constructor|]. by destruct (look e).
  - destruct (addCallout e rule) as [e1|] eqn:Ea; [|done]. apply add_callout_spec in Ea as (c & (H1 & H2 & H3 & H4 & H5) & _ & Hl).
    destruct (IH _ H) as (added & Hf & Hl'). exists (c :: added). split; [constructor; [repeat split; done|done]|].
    rewrite Hl', Hl. simpl. by rewrite <- app_assoc.
Qed.
End Operate.

(** The next call of a sequence succeeded. *)
Ltac next_call H := match type of H with (mbind _ ?m = _) => let e := fresh "e" in let Eq := fresh "Ec" in destruct m as [e|] eqn:Eq; [cbn [mbind option_bind] in H|done] end.

(** ** What is left and what is added *)

Section Installed.
Context {E : Engine} {S : EngineSpec E}.

Lemma owned_filter_id f : f_id (owned_filter f) = filterId f.
Proof. unfold owned_filter, ownedFilter. by repeat case_match. Qed.

Lemma owned_filter_signature f : f_signature (owned_filter f) = filterSignature f.
Proof. unfold owned_filter, ownedFilter. by repeat case_match. Qed.

(** Objects whose keys were all listed are gone. *)
Lemma deleted_gone {X Y K} `{EqDecision K} (key : Y -> K) (name : X -> K) (view : Y -> X) (visible : Y -> bool) (l : list Y) (o : list X) :
  (forall y, name (view y) = key y) -> o ≡ₚ map view (List.filter visible l) ->
  List.filter visible (List.filter (fun y => negb (bool_decide (key y ∈ name <$> o))) l) = [].
Proof.
  intros Hn Ho. apply filterb_none. intros y [Hy Hd]%elem_of_filterb. apply not_true_iff_false. intros Hv.
  rewrite bool_decide_true in Hd; [done|]. rewrite Ho, <- (Hn y). apply list_elem_of_fmap_2, list_elem_of_fmap_2, elem_of_filterb. done.
Qed.

Lemma same_key {Y K} (key : Y -> K) (l : list Y) x y : NoDup (key <$> l) -> x ∈ l -> y ∈ l -> key x = key y -> x = y.
Proof.
  intros Hn [i Hi]%list_elem_of_lookup [j Hj]%list_elem_of_lookup Hk.
  assert (i = j) as ->; [|congruence]. apply (NoDup_lookup (key <$> l) i j (key x)); [done|by rewrite list_lookup_fmap, Hi|by rewrite list_lookup_fmap, Hj, Hk].
Qed.

(** Of the visible objects, those that are not stale stay. *)
Lemma stale_gone {X Y K} `{EqDecision K} (key : Y -> K) (name : X -> K) (view : Y -> X) (visible : Y -> bool) (current : X -> bool) (l : list Y) (o : list X) :
  (forall y, name (view y) = key y) -> NoDup (key <$> l) -> o ≡ₚ map view (List.filter visible l) ->
  List.filter visible (List.filter (fun y => negb (bool_decide (key y ∈ name <$> List.filter (fun x => negb (current x)) o))) l) =
  List.filter (fun y => current (view y)) (List.filter visible l).
Proof.
  intros Hn Hu Ho. rewrite !filterb_filterb. apply filterb_ext. intros y Hy. rewrite andb_comm. destruct (visible y) eqn:Hv; [|done]. simpl.
  assert (key y ∈ name <$> List.filter (fun x => negb (current x)) o <-> current (view y) = false) as Hiff.
  - rewrite (filterb_perm _ _ _ Ho). split.
    + intros (x & Hk & Hx)%list_elem_of_fmap. apply elem_of_filterb in Hx as [Hx Hc]. apply list_elem_of_fmap in Hx as (z & -> & Hz).
      apply elem_of_filterb in Hz as [Hz _]. rewrite Hn in Hk. rewrite (same_key key l y z Hu Hy Hz Hk). by apply negb_true_iff.
    + intros Hc. rewrite <- Hn. apply list_elem_of_fmap_2, elem_of_filterb. split; [|by rewrite Hc]. apply list_elem_of_fmap_2, elem_of_filterb. done.
  - destruct (current (view y)) eqn:Ec; [rewrite bool_decide_false; [done|naive_solver]|rewrite bool_decide_true; [done|naive_solver]].
Qed.

(** Deleting what was listed leaves exactly the rest. *)
Lemma deleted_exact {X Y K} `{EqDecision K} (key : Y -> K) (name : X -> K) (view : Y -> X) (owned : Y -> bool) (l : list Y) (o : list X) :
  (forall y, name (view y) = key y) -> NoDup (key <$> l) -> o ≡ₚ map view (List.filter owned l) ->
  List.filter (fun y => negb (bool_decide (key y ∈ name <$> o))) l = List.filter (fun y => negb (owned y)) l.
Proof.
  intros Hn Hu Ho. apply filterb_ext. intros y Hy. f_equal. destruct (owned y) eqn:Ey.
  - apply bool_decide_true. rewrite Ho, <- (Hn y). apply list_elem_of_fmap_2, list_elem_of_fmap_2, elem_of_filterb. done.
  - apply bool_decide_false. rewrite Ho. intros (x & Hk & Hx)%list_elem_of_fmap. apply list_elem_of_fmap in Hx as (z & -> & [Hz Hoz]%elem_of_filterb).
    rewrite Hn in Hk. rewrite (same_key key l y z Hu Hy Hz Hk) in Ey. congruence.
Qed.

(** What is not the project's stays. *)
Lemma foreign_kept {X Y K} `{EqDecision K} (key : Y -> K) (name : X -> K) (view : Y -> X) (visible : Y -> bool) (l : list Y) (o : list X) y :
  (forall y, name (view y) = key y) -> NoDup (key <$> l) -> (forall x, x ∈ o -> exists z, z ∈ l /\ visible z = true /\ x = view z) ->
  y ∈ l -> visible y = false -> y ∈ List.filter (fun y => negb (bool_decide (key y ∈ name <$> o))) l.
Proof.
  intros Hn Hu Ho Hy Hv. apply elem_of_filterb. split; [done|]. rewrite bool_decide_false; [done|].
  intros (x & Hk & Hx)%list_elem_of_fmap. destruct (Ho x Hx) as (z & Hz & Hvz & ->). rewrite Hn in Hk.
  rewrite (same_key key l y z Hu Hy Hz Hk) in Hv. congruence.
Qed.

Lemma filterb_keys {Y K} (key : Y -> K) (p : Y -> bool) l : NoDup (key <$> l) -> NoDup (key <$> List.filter p l).
Proof.
  induction l as [|y l IH]; csimpl; [done|]. intros [Hy Hl]%list.NoDup_cons. destruct (p y); [|by apply IH]. csimpl.
  apply list.NoDup_cons. split; [|by apply IH]. intros (z & Hz & [Hin _]%elem_of_filterb)%list_elem_of_fmap. apply Hy. rewrite Hz. by apply list_elem_of_fmap_2.
Qed.

Lemma one_key {Y K} (key : Y -> K) (k : K) (l : list Y) :
  NoDup (key <$> l) -> (forall y, y ∈ l -> key y = k) -> l <> [] -> exists y, l = [y].
Proof.
  intros Hn Hk Hl. destruct l as [|y [|z l]]; [done|by exists y|]. exfalso. csimpl in Hn. apply list.NoDup_cons in Hn as [Hn _]. apply Hn.
  rewrite (Hk y), <- (Hk z) by set_solver. by left.
Qed.

(** At most one sublayer is current: they share the key. *)
Lemma one_current_sublayer c :
  unique_keys c -> existsb sublayerCurrent (map owned_sublayer (List.filter visible_sublayer (sublayers c))) = true ->
  exists s, List.filter (fun s => sublayerCurrent (owned_sublayer s)) (List.filter visible_sublayer (sublayers c)) = [s].
Proof.
  intros Hu (x & Hx & Hc)%existsb_exists. apply in_map_iff in Hx as (s & <- & Hs).
  apply (one_key sl_key kSublayer).
  - apply filterb_keys, filterb_keys, unique_sublayers, Hu.
  - intros y [_ Hy]%elem_of_filterb. unfold sublayerCurrent in Hy. bool_to_prop. by apply sameGuid_eq.
  - intros Hn. assert (s ∈ []) as Hin by (rewrite <- Hn; apply elem_of_filterb; split; [by apply list_elem_of_In|done]). by apply elem_of_nil in Hin.
Qed.

(** The visible callouts after the missing ones were added to the current ones. *)
Lemma callouts_complete (kept added : list callout0) (toAdd : list CalloutRule) :
  NoDup (co_key <$> kept) -> (forall c, c ∈ kept -> calloutCurrent (owned_callout c) = true) ->
  toAdd = List.filter (fun rule => negb (bool_decide (c_key rule ∈ co_key <$> kept))) kCallouts ->
  Forall2 added_callout toAdd added -> length (added ++ kept) = length kCallouts.
Proof.
  intros Hn Hc -> Ha. assert (co_key <$> added = c_key <$> List.filter (fun rule => negb (bool_decide (c_key rule ∈ co_key <$> kept))) kCallouts) as Hk.
  { induction Ha as [|rule c rules cs (Hk & _) _ IH]; [done|]. csimpl. by rewrite Hk, IH. }
  assert (co_key <$> (added ++ kept) ≡ₚ c_key <$> kCallouts) as Hp; [|by apply Permutation_length in Hp; rewrite !length_fmap in Hp].
  rewrite fmap_app, Hk. apply NoDup_Permutation.
  - apply list.NoDup_app. split_and!; [apply filterb_keys; apply (bool_decide_unpack (NoDup (c_key <$> kCallouts))); vm_compute; exact I| |done].
    intros k (rule & -> & [_ Hr]%elem_of_filterb)%list_elem_of_fmap Hin. by rewrite bool_decide_true in Hr.
  - apply (bool_decide_unpack (NoDup (c_key <$> kCallouts))). vm_compute. exact I.
  - intros k. rewrite elem_of_app. split.
    + intros [(rule & -> & [Hr _]%elem_of_filterb)%list_elem_of_fmap|(c & -> & Hin)%list_elem_of_fmap]; [by apply list_elem_of_fmap_2|].
      specialize (Hc c Hin). unfold calloutCurrent in Hc. destruct (calloutRule _) as [rule|] eqn:Er; [|done].
      apply find_some in Er as [Hr Hs]. apply sameGuid_eq in Hs. simpl in Hs. rewrite <- Hs. by apply list_elem_of_fmap_2, list_elem_of_In.
    + intros (rule & -> & Hr)%list_elem_of_fmap. destruct (decide (c_key rule ∈ co_key <$> kept)); [by right|left].
      apply list_elem_of_fmap_2, elem_of_filterb. by rewrite bool_decide_false.
Qed.

Lemma added_current rule c : rule ∈ kCallouts -> added_callout rule c -> calloutCurrent (owned_callout c) = true /\ visible_callout c = true.
Proof.
  intros Hr (H1 & H2 & H3 & H4 & H5). unfold calloutCurrent, visible_callout. simpl. rewrite H1, H2, H3, H4, H5. revert Hr.
  unfold kCallouts. intros [->|[->|[]%elem_of_nil]%elem_of_cons]%elem_of_cons; done.
Qed.

(** What an installation leaves in the engine. *)
Record installed (apps : list AppEntry) (tunnelIp : Z) (foreign : bool) (before after : contents) : Prop := {
  in_provider : exists flags, provider after = Some flags /\ has_bits flags kProviderPersistent = true;
  in_sublayer : exists s, List.filter visible_sublayer (sublayers after) = [s] /\ sublayerCurrent (owned_sublayer s) = true;
  in_callouts : foreign = false -> length (List.filter visible_callout (callouts after)) = length kCallouts /\
    forall c, c ∈ List.filter visible_callout (callouts after) -> calloutCurrent (owned_callout c) = true;
  in_filters : exists x added, List.filter visible_context (contexts after) = [x] /\ has_bits (cx_flags x) kContextPersistent = true /\
    cx_type x = FWPM_GENERAL_CONTEXT /\ cx_data x = Some (contextFor tunnelIp) /\
    Forall2 stored_filter (forEachFilter apps (cx_key x) tunnelIp (negb foreign)) added /\
    List.filter visible_filter (filters after) = rev added;
  in_others : forall f, f ∈ filters before -> visible_filter f = false -> f ∈ filters after
}.

Lemma layers_known : Forall (fun rule => existsb (sameGuid (r_layer rule)) (distinctLayers false) = true) kRules.
Proof. unfold kRules. repeat (apply Forall_cons_2; [reflexivity|]). apply Forall_nil_2. Qed.

Lemma draft_visible f apps context tunnelIp redirects : f ∈ forEachFilter apps context tunnelIp redirects -> visible_filter f = true.
Proof.
  intros (app & rule & _ & Hr & Hf)%elem_of_forEach. pose proof (proj1 (list.Forall_forall _ _) layers_known rule Hr) as Hl.
  assert (exists b, f = draftFilter rule app context tunnelIp b) as [b ->].
  { unfold rule_filters in Hf. destruct (r_callout rule), redirects; set_unfold in Hf; naive_solver. }
  exact Hl.
Qed.

Lemma added_visible apps context tunnelIp redirects added :
  Forall2 stored_filter (forEachFilter apps context tunnelIp redirects) added -> List.filter visible_filter (rev added) = rev added.
Proof.
  intros H. apply filterb_all. intros f Hf. apply list_elem_of_In, in_rev, list_elem_of_In in Hf.
  apply list_elem_of_lookup in Hf as [i Hi]. destruct (Forall2_lookup_r _ _ _ _ _ H Hi) as (d & Hd & Hs & Hp).
  apply list_elem_of_lookup_2, draft_visible in Hd. unfold visible_filter in *. by rewrite Hp, <- (same_layer d f Hs).
Qed.

Definition the_sublayer : sublayer0 :=
  {| sl_key := kSublayer; sl_flags := kSublayerPersistent; sl_provider := Some kProvider; sl_weight := kSublayerWeight |}.

Definition stale_callouts (o : Owned) : list OwnedCallout := List.filter (fun c => negb (calloutCurrent c)) (o_callouts o).
Definition stale_sublayers (o : Owned) : list OwnedSublayer := List.filter (fun s => negb (sublayerCurrent s)) (o_sublayers o).
Definition missing_callouts (o : Owned) : list CalloutRule :=
  List.filter (fun rule => negb (bool_decide (c_key rule ∈ oc_key <$> List.filter calloutCurrent (o_callouts o)))) kCallouts.

(** The contents an installation commits, from the snapshot it took. *)
Definition committed_contents (c : contents) (o : Owned) (p : Z) (fs : list filter0) (cs : list callout0) (x : context0) : contents := {|
  provider := Some p;
  filters := rev fs ++ List.filter (fun f => negb (bool_decide (filterId f ∈ f_id <$> o_filters o))) (filters c);
  callouts := rev cs ++ List.filter (fun k => negb (bool_decide (co_key k ∈ oc_key <$> stale_callouts o))) (callouts c);
  contexts := x :: List.filter (fun k => negb (bool_decide (cx_id k ∈ ox_id <$> o_contexts o))) (contexts c);
  sublayers := (if existsb sublayerCurrent (o_sublayers o) then [] else [the_sublayer]) ++
    List.filter (fun s => negb (bool_decide (sl_key s ∈ os_key <$> stale_sublayers o))) (sublayers c)
|}.

Lemma provider_step e o e1 :
  shows (look e) o ->
  match o_provider o with Some p => if has_bits p kProviderPersistent then Some e else None | None => add_provider e kProviderPersistent end = Some e1 ->
  exists p, has_bits p kProviderPersistent = true /\ look e1 = set_provider (look e) (Some p).
Proof.
  intros Ho. pose proof (shows_provider _ _ Ho) as Hp. destruct (o_provider o) as [p|].
  - destruct (has_bits p _) eqn:Eb; [|done]. intros [= <-]. exists p. split; [done|]. rewrite Hp. by destruct (look e).
  - intros Ha. apply add_provider_spec in Ha. by exists kProviderPersistent.
Qed.

Lemma install_commits apps tunnelIp e foreign e' :
  install_body apps tunnelIp e = Some (foreign, e') ->
  exists o p fs cs x, shows (look e) o /\ has_bits p kProviderPersistent = true /\ look e' = committed_contents (look e) o p fs cs x /\
    (foreign = false -> Forall2 added_callout (missing_callouts o) cs) /\ (foreign = true -> cs = []) /\
    has_bits (cx_flags x) kContextPersistent = true /\ cx_provider x = Some kProvider /\ cx_type x = FWPM_GENERAL_CONTEXT /\
    cx_data x = Some (contextFor tunnelIp) /\ Forall2 stored_filter (forEachFilter apps (cx_key x) tunnelIp (negb foreign)) fs.
Proof.
  unfold install_body. intros H. next_call H. next_call H. next_call H. next_call H. next_call H. destruct e4 as [toAdd e4].
  next_call H. destruct e5 as [present e5]. next_call H. next_call H. next_call H. next_call H. next_call H. injection H as -> ->.
  rename e1 into o. apply snapshot_shows in Ec0 as Ho. apply provider_step in Ec1 as (p & Hp & L1); [|done].
  apply delete_both_spec in Ec2 as L2. apply settle_callouts_spec in Ec3 as [L3 ->]. apply delete_callouts_spec in L3.
  apply settle_sublayers_spec in Ec4 as [L4 ->]. apply delete_sublayers_spec in L4.
  assert (look e6 = set_sublayers (look e5) ((if existsb sublayerCurrent (o_sublayers o) then [] else [the_sublayer]) ++ sublayers (look e5))) as L5.
  { simpl in Ec5. destruct (existsb _ _); [injection Ec5 as ->; by destruct (look e6)|by apply add_sublayer_spec in Ec5 as [_ ->]]. }
  assert (exists cs, (foreign = false -> Forall2 added_callout (missing_callouts o) cs) /\ (foreign = true -> cs = []) /\
    look e7 = set_callouts (look e6) (rev cs ++ callouts (look e6))) as (cs & Hc1 & Hc2 & L6).
  { destruct foreign; [injection Ec6 as ->; exists []; by destruct (look e7)|]. apply add_callouts_spec in Ec6 as (cs & Hc & ->). by exists cs. }
  apply add_context_spec in Ec8 as (x & (X1 & X2 & X3 & X4 & X5) & _ & L7). simpl in X1, X2, X3, X4, X5. subst.
  apply add_filters_spec in Ec9 as (fs & Hf & L8).
  exists o, p, fs, cs, x. split_and!; try done; [|by rewrite X2].
  rewrite L8, L7, L6, L5, L4, L3, L2, L1. reflexivity.
Qed.

Lemma sublayer_settled c o :
  unique_keys c -> o_sublayers o ≡ₚ map owned_sublayer (List.filter visible_sublayer (sublayers c)) ->
  exists s, List.filter visible_sublayer ((if existsb sublayerCurrent (o_sublayers o) then [] else [the_sublayer]) ++
      List.filter (fun s => negb (bool_decide (sl_key s ∈ os_key <$> stale_sublayers o))) (sublayers c)) = [s] /\
    sublayerCurrent (owned_sublayer s) = true.
Proof.
  intros Hu Os. rewrite filterb_app. unfold stale_sublayers.
  rewrite (stale_gone sl_key os_key owned_sublayer visible_sublayer sublayerCurrent); [|done|apply Hu|done].
  rewrite (existsb_perm _ _ _ Os). destruct (existsb _ _) eqn:Ex.
  - destruct (one_current_sublayer c Hu Ex) as [s Hs]. exists s. split; [done|].
    assert (s ∈ [s]) as Hin by by left. rewrite <- Hs in Hin. by apply elem_of_filterb in Hin as [_ ?].
  - exists the_sublayer. split; [|done]. change (List.filter visible_sublayer [the_sublayer]) with [the_sublayer]. rewrite filterb_none; [done|]. intros s Hs. apply not_true_iff_false. intros Hc.
    apply not_true_iff_false in Ex. apply Ex, existsb_exists. exists (owned_sublayer s). split; [|done]. by apply in_map, list_elem_of_In.
Qed.

Lemma callouts_settled c o cs :
  unique_keys c -> o_callouts o ≡ₚ map owned_callout (List.filter visible_callout (callouts c)) ->
  Forall2 added_callout (missing_callouts o) cs ->
  let l := List.filter visible_callout (rev cs ++ List.filter (fun k => negb (bool_decide (co_key k ∈ oc_key <$> stale_callouts o))) (callouts c)) in
  length l = length kCallouts /\ forall k, k ∈ l -> calloutCurrent (owned_callout k) = true.
Proof.
  intros Hu Oc Ha. assert (forall k, k ∈ rev cs -> calloutCurrent (owned_callout k) = true /\ visible_callout k = true) as Hcs.
  { intros k Hk. apply list_elem_of_In, in_rev, list_elem_of_In, list_elem_of_lookup in Hk as [i Hi].
    destruct (Forall2_lookup_r _ _ _ _ _ Ha Hi) as (rule & Hr & Hk). apply list_elem_of_lookup_2, elem_of_filterb in Hr as [Hr _]. by apply (added_current rule). }
  rewrite filterb_app, (filterb_all _ (rev cs)) by (intros k Hk; by apply Hcs). unfold stale_callouts.
  rewrite (stale_gone co_key oc_key owned_callout visible_callout calloutCurrent); [|done|apply Hu|done].
  set (kept := List.filter (fun y => calloutCurrent (owned_callout y)) (List.filter visible_callout (callouts c))). cbv zeta. split.
  - rewrite length_app, length_rev, <- length_app. apply (callouts_complete kept cs (missing_callouts o)); [|by intros k [_ Hk]%elem_of_filterb| |done].
    + apply filterb_keys, filterb_keys, Hu.
    + unfold missing_callouts. apply filterb_ext. intros rule _. f_equal. apply bool_decide_ext.
      rewrite (filterb_perm _ _ _ Oc). subst kept. rewrite !list_elem_of_fmap. split.
      * intros (y & -> & [Hy Hc]%elem_of_filterb). apply list_elem_of_fmap in Hy as (z & -> & Hz). exists z. split; [done|]. by apply elem_of_filterb.
      * intros (z & -> & [Hz Hc]%elem_of_filterb). exists (owned_callout z). split; [done|]. apply elem_of_filterb. split; [by apply list_elem_of_fmap_2|done].
  - intros k [Hk|[_ Hk]%elem_of_filterb]%elem_of_app; [by apply Hcs|done].
Qed.

Lemma install_contents apps tunnelIp e foreign e' :
  unique_keys (look e) -> install_body apps tunnelIp e = Some (foreign, e') -> installed apps tunnelIp foreign (look e) (look e').
Proof.
  intros Hu (o & p & fs & cs & x & Ho & Hp & -> & Hc1 & Hc2 & X1 & X2 & X3 & X4 & Hf)%install_commits.
  destruct Ho as [_ Of Oc Ox Os].
  split; cbn [committed_contents provider filters callouts contexts sublayers].
  - by exists p.
  - by apply sublayer_settled.
  - intros Hfo. by apply callouts_settled; [| |apply Hc1].
  - exists x, fs. cbn [List.filter]. rewrite (deleted_gone cx_id ox_id owned_context visible_context), filterb_app by done.
    rewrite (deleted_gone filterId f_id owned_filter visible_filter) by (done || apply owned_filter_id).
    assert (visible_context x = true) as -> by (unfold visible_context; rewrite X2, X3; done).
    rewrite (added_visible _ _ _ _ _ Hf), app_nil_r. done.
  - intros f Hin Hv. apply elem_of_app. right. eapply (foreign_kept filterId f_id owned_filter visible_filter); [apply owned_filter_id|apply Hu| |done|done].
    intros y Hy. rewrite Of in Hy. apply list_elem_of_fmap in Hy as (z & -> & [Hz Hv']%elem_of_filterb). eauto.
Qed.
End Installed.

(** ** Consequences *)

Section Theorems.
Context {E : Engine} {S : EngineSpec E}.

Lemma stored_signatures drafts added : Forall2 stored_filter drafts added -> map filterSignature added = map filterSignature drafts.
Proof. induction 1 as [|d f drafts added [Hs _] _ IH]; simpl; [done|]. by rewrite IH, (same_signature d f Hs). Qed.

Lemma installed_verified apps tunnelIp before c o :
  installed apps tunnelIp false before c -> shows c o -> describeMismatch o apps tunnelIp = [].
Proof.
  intros [(p & Hp & Hpp) (s & Hs & Hsc) Hc (x & added & Hx & Hxf & Hxt & Hxd & Hf & Hvf) _] [Op Of Oc Ox Os]. destruct (Hc eq_refl) as [Hlen Hcur]. clear Hc.
  unfold describeMismatch. rewrite Op, Hp, Hpp. cbn [negb].
  rewrite Hs in Os. apply Permutation_singleton_r in Os. rewrite Os. cbn [length take forallb Nat.eqb]. rewrite Hsc. cbn [negb orb andb].
  assert (List.filter calloutCurrent (o_callouts o) = o_callouts o) as ->.
  { apply filterb_all. intros k Hk. rewrite Oc in Hk. apply list_elem_of_fmap in Hk as (z & -> & Hz). by apply Hcur. }
  apply Permutation_length in Oc. rewrite length_map, Hlen in Oc. rewrite Oc. cbn [length kCallouts Nat.eqb negb orb].
  rewrite Hx in Ox. apply Permutation_singleton_r in Ox. rewrite Ox. cbn [ox_flags ox_type ox_data ox_key owned_context].
  rewrite Hxf, Hxt, Hxd, Z.eqb_refl. cbn [negb orb default from_option id].
  assert (contextMatches (contextFor tunnelIp) tunnelIp = true) as -> by (unfold contextMatches; by rewrite bool_decide_true). cbn [negb].
  rewrite bool_decide_true; [done|]. unfold expectedSignatures. apply sort_texts_perm.
  pose proof (stored_signatures _ _ Hf) as Hsig. cbn [negb] in Hsig. rewrite (Permutation_map f_signature Of), map_map, Hvf, <- Hsig.
  rewrite (map_ext _ filterSignature) by apply owned_filter_signature. apply Permutation_map. symmetry. apply Permutation_rev.
Qed.

Lemma installed_blocks other apps tunnelIp foreign before c bootTime t :
  installed apps tunnelIp foreign before c -> outside_tunnel (map appId apps) tunnelIp t ->
  exists f, f ∈ filters c /\ hard_block bootTime f /\ matches other t f = true.
Proof.
  intros [_ _ _ (x & added & _ & _ & _ & _ & Hf & Hvf) _] Ht.
  apply (payload_blocked other apps (cx_key x) tunnelIp (negb foreign) bootTime t) in Ht as (d & Hd & Hb & Hm).
  apply list_elem_of_lookup in Hd as [i Hi]. destruct (Forall2_lookup_l _ _ _ _ _ Hf Hi) as (f & Hfi & Hs & _). exists f. split_and!.
  - assert (f ∈ rev added) as Hin by (apply list_elem_of_In; rewrite <- in_rev; by eapply list_elem_of_In, list_elem_of_lookup_2).
    rewrite <- Hvf in Hin. by apply elem_of_filterb in Hin as [? _].
  - by apply (same_hard_block bootTime d f).
  - by rewrite <- (same_matches other t d f).
Qed.

(** The fields of what the engine holds, and of what is asked for, are within
    their widths. *)
Record contents_ok (c : contents) : Prop := {
  filters_ok f : f ∈ filters c -> filter_ok f;
  contexts_ok x : x ∈ contexts c -> guid_ok (cx_key x)
}.
Record apps_ok (apps : list AppEntry) (tunnelIp : Z) : Prop := {
  ids_bytes app : app ∈ apps -> Forall is_byte (appId app) /\ Forall is_byte (tag app);
  address_range : 0 <= tunnelIp < 2 ^ 32
}.

(** Nothing is wrong: the one context, and the signatures. *)
Lemma describe_nothing o apps tunnelIp :
  describeMismatch o apps tunnelIp = [] ->
  exists x, o_contexts o = [x] /\ sort_texts (map f_signature (o_filters o)) = expectedSignatures apps (ox_key x) tunnelIp.
Proof.
  unfold describeMismatch. destruct (o_provider o) as [p|]; [|discriminate].
  destruct (negb (has_bits p _)); [discriminate|]. destruct (_ || _); [discriminate|]. cbv zeta.
  destruct (negb (length (o_callouts o) =? _)%nat || _); [discriminate|].
  destruct (o_contexts o) as [|x [|y l]]; [discriminate| |discriminate]. destruct (_ || _); [discriminate|].
  case_bool_decide as He; [|discriminate]. intros _. by exists x.
Qed.

Lemma drafted_ok apps tunnelIp context redirects f :
  apps_ok apps tunnelIp -> guid_ok context -> f ∈ forEachFilter apps context tunnelIp redirects -> filter_ok f.
Proof.
  intros Ha Hc (app & rule & Happ & Hr & Hf)%elem_of_forEach. destruct (ids_bytes _ _ Ha app Happ) as [H1 H2]. pose proof (address_range _ _ Ha).
  assert (exists b, f = draftFilter rule app context tunnelIp b) as [b ->]; [|by apply draft_ok].
  unfold rule_filters in Hf. destruct (r_callout rule), redirects; set_unfold in Hf; naive_solver.
Qed.

Lemma verified_block other e o apps tunnelIp bootTime t :
  contents_ok (look e) -> apps_ok apps tunnelIp -> snapshot e false = Some o -> describeMismatch o apps tunnelIp = [] ->
  outside_tunnel (map appId apps) tunnelIp t ->
  exists f, f ∈ filters (look e) /\ hard_block bootTime f /\ matches other t f = true.
Proof.
  intros Hok Ha Ho%snapshot_shows (x & Hx & He)%describe_nothing Ht.
  assert (guid_ok (ox_key x)) as Hg.
  { assert (x ∈ o_contexts o) as Hin by (rewrite Hx; by left). rewrite (shows_contexts _ _ Ho) in Hin.
    apply list_elem_of_fmap in Hin as (y & -> & [Hy _]%elem_of_filterb). by apply (contexts_ok _ Hok). }
  apply (payload_blocked other apps (ox_key x) tunnelIp true bootTime t) in Ht as (d & Hd & Hb & Hm).
  assert (filterSignature d ∈ sort_texts (map f_signature (o_filters o))) as Hin.
  { rewrite He. unfold expectedSignatures. apply sort_texts_elem, list_elem_of_fmap_2, Hd. }
  apply sort_texts_elem, list_elem_of_fmap in Hin as (y & Hy & Hin). rewrite (shows_filters _ _ Ho) in Hin.
  apply list_elem_of_fmap in Hin as (f & -> & [Hf _]%elem_of_filterb). rewrite owned_filter_signature in Hy.
  apply signature_same_effect in Hy; [|by eapply drafted_ok|by apply (filters_ok _ Hok)]. exists f. split_and!; [done|by apply (same_hard_block bootTime d f)|].
  by rewrite <- (same_matches other t d f).
Qed.
End Theorems.

(** C7: installing the payload filters either leaves the filter engine exactly
    as it was, or leaves it stopping every connection of an included program
    outside the tunnel, from boot on, and every filter of others in place; and
    when it reports success without reservation, any later verification of the
    same inputs, as long as nothing else changed the engine, finds nothing to
    report. *)
Theorem install_outcome (E : Engine) (S : EngineSpec E) (other : traffic -> condition -> bool)
    (apps : list AppEntry) (tunnelIp : Z) (e e' : engine) (r : install_result) :
  unique_keys (look e) -> install apps tunnelIp e = (r, e') ->
  (r = InstallFailed -> e' = e) /\
  (r <> InstallFailed ->
     (forall bootTime t, outside_tunnel (map appId apps) tunnelIp t ->
        exists f, f ∈ filters (look e') /\ hard_block bootTime f /\ matches other t f = true) /\
     (forall f, f ∈ filters (look e) -> ownedBy (providerKey f) = false -> f ∈ filters (look e'))) /\
  (r = Installed -> forall o, snapshot e' false = Some o -> describeMismatch o apps tunnelIp = []).
Proof.
  intros Hu. unfold install, transaction. destruct (begin_transaction e); cbn [negb]; [|by intros [= <- <-]].
  destruct (install_body apps tunnelIp e) as [[foreign e1]|] eqn:Eb; [|by intros [= <- <-]].
  destruct (commit_transaction e1); [|by intros [= <- <-]]. intros [= <- <-]. pose proof (install_contents _ _ _ _ _ Hu Eb) as Hi.
  split_and!; [by destruct foreign|intros _; split|].
  - intros bootTime t. by apply (installed_blocks other apps tunnelIp foreign (look e)).
  - intros f Hf Ho. apply (in_others _ _ _ _ _ Hi); [done|]. unfold visible_filter. by rewrite Ho.
  - destruct foreign; [done|]. intros _ o Ho%snapshot_shows. by apply (installed_verified apps tunnelIp (look e) (look e1)).
Qed.

(** Verification is to be trusted.  When it finds nothing wrong with what
    the filter engine holds, every connection of an included program outside the
    tunnel meets a hard block in the engine, of the persistent set and of its
    boot-time copy. *)
Theorem verified_blocks (E : Engine) (S : EngineSpec E) (other : traffic -> condition -> bool)
    (e : engine) (o : Owned) (apps : list AppEntry) (tunnelIp : Z) (bootTime : bool) (t : traffic) :
  contents_ok (look e) -> apps_ok apps tunnelIp -> snapshot e false = Some o -> describeMismatch o apps tunnelIp = [] ->
  outside_tunnel (map appId apps) tunnelIp t ->
  exists f, f ∈ filters (look e) /\ hard_block bootTime f /\ matches other t f = true.
Proof. apply verified_block. Qed.

(** Removal takes away the project's objects and nothing else: it either
    leaves the engine as it was, or with exactly the filters, callouts, contexts
    and sublayers of others, and without the project's provider. *)
Theorem remove_exact (E : Engine) (S : EngineSpec E) (e e' : engine) (r : option Owned) :
  unique_keys (look e) -> removeAll e = (r, e') ->
  (r = None -> e' = e) /\
  (r <> None ->
     provider (look e') = None /\
     filters (look e') = List.filter (fun f => negb (ownedBy (providerKey f))) (filters (look e)) /\
     callouts (look e') = List.filter (fun c => negb (ownedBy (co_provider c))) (callouts (look e)) /\
     contexts (look e') = List.filter (fun c => negb (ownedBy (cx_provider c))) (contexts (look e)) /\
     sublayers (look e') = List.filter (fun s => negb (ownedBy (sl_provider s))) (sublayers (look e))).
Proof.
  intros Hu. unfold removeAll, transaction. destruct (begin_transaction e); cbn [negb]; [|by intros [= <- <-]].
  destruct (remove_body e) as [[o e1]|] eqn:Eb; [|by intros [= <- <-]].
  destruct (commit_transaction e1); [|by intros [= <- <-]]. intros [= <- <-]. split; [done|intros _].
  unfold remove_body in Eb. next_call Eb. next_call Eb. next_call Eb. next_call Eb. next_call Eb. injection Eb as -> ->.
  apply snapshot_all in Ec as (Op & Of & Oc & Ox & Os). apply delete_both_spec in Ec0 as L1. apply delete_callouts_spec in Ec1 as L2.
  apply delete_sublayers_spec in Ec2 as L3.
  assert (look e1 = set_provider (look e4) None) as L4.
  { destruct (o_provider o) as [p|]; [by apply delete_provider_spec in Ec3|]. injection Ec3 as ->. rewrite L3, L2, L1. unfold set_provider, set_sublayers, set_callouts, set_contexts, set_filters. simpl. by rewrite <- Op. }
  rewrite L4, L3, L2, L1. cbn [set_provider set_sublayers set_callouts set_contexts set_filters provider filters callouts contexts sublayers].
  destruct Hu as [U1 U2 U3 U4]. split_and!; [done|..].
  - by apply (deleted_exact filterId f_id owned_filter); [apply owned_filter_id|..].
  - by apply (deleted_exact co_key oc_key owned_callout).
  - by apply (deleted_exact cx_id ox_id owned_context).
  - by apply (deleted_exact sl_key os_key owned_sublayer).
Qed.

(** ** An engine that keeps its objects in lists *)

Section ListEngine.
Definition fresh_id (ids : list Z) : Z := 1 + foldr Z.max 0 ids.

Lemma fresh_id_new ids : fresh_id ids ∉ ids.
Proof.
  assert (forall x, x ∈ ids -> x <= foldr Z.max 0 ids) as H; [|intros Hin%H; unfold fresh_id in Hin; lia].
  induction ids as [|i ids IH]; intros x; simpl; [by intros ?%elem_of_nil|]. intros [->|Hx]%elem_of_cons; [lia|]. specialize (IH x Hx). lia.
Qed.

Definition with_id (f : filter0) (id : Z) : filter0 := {|
  filterId := id; filterKey := filterKey f; displayName := displayName f; flags := flags f; providerKey := providerKey f;
  providerData := providerData f; layerKey := layerKey f; subLayerKey := subLayerKey f; weight := weight f; actionType := actionType f;
  calloutKey := calloutKey f; providerContextKey := providerContextKey f; filterCondition := filterCondition f |}.

Definition list_engine : Engine := {|
  engine := contents;
  begin_transaction _ := true;
  commit_transaction _ := true;
  get_provider c := Some (provider c);
  enum_filters c l := Some (match l with
    | None => filters c
    | Some g => List.filter (fun f => ownedBy (providerKey f) && sameGuid (layerKey f) g) (filters c) end);
  enum_callouts c l := Some (match l with
    | None => callouts c
    | Some g => List.filter (fun k => ownedBy (co_provider k) && sameGuid (co_layer k) g) (callouts c) end);
  enum_contexts c every := Some (if every then contexts c
    else List.filter (fun k => ownedBy (cx_provider k) && (cx_type k =? FWPM_GENERAL_CONTEXT)) (contexts c));
  enum_sublayers c every := Some (if every then sublayers c else List.filter (fun s => ownedBy (sl_provider s)) (sublayers c));
  get_callout c k := Some (List.find (fun c => sameGuid (co_key c) k) (callouts c));
  add_provider c p := Some (set_provider c (Some p));
  add_filter c f := Some (set_filters c (with_id f (fresh_id (filterId <$> filters c)) :: filters c));
  add_callout c k := if bool_decide (co_key k ∈ co_key <$> callouts c) then None else Some (set_callouts c (k :: callouts c));
  add_context c x := Some (set_contexts c ({| cx_key := cx_key x; cx_id := fresh_id (cx_id <$> contexts c); cx_flags := cx_flags x;
    cx_provider := cx_provider x; cx_type := cx_type x; cx_data := cx_data x |} :: contexts c));
  add_sublayer c s := if bool_decide (sl_key s ∈ sl_key <$> sublayers c) then None else Some (set_sublayers c (s :: sublayers c));
  delete_provider c := Some (set_provider c None);
  delete_filter c id := Some (set_filters c (List.filter (fun f => negb (filterId f =? id)) (filters c)));
  delete_callout c k := Some (set_callouts c (List.filter (fun x => negb (sameGuid (co_key x) k)) (callouts c)));
  delete_context c id := Some (set_contexts c (List.filter (fun x => negb (cx_id x =? id)) (contexts c)));
  delete_sublayer c k := Some (set_sublayers c (List.filter (fun x => negb (sameGuid (sl_key x) k)) (sublayers c)));
  new_guid n := Some (guid (Z.of_nat n) 1 1 [1; 1; 1; 1; 1; 1; 1; 1])
|}.

Program Definition list_engine_spec : EngineSpec list_engine := {| look c := c |}.
Solve All Obligations with (intros; simpl in *; simplify_eq; try done).
Next Obligation.
  intros c f c' [= <-]. eexists. split; [|split; [|split; [|reflexivity]]]; [by split|done|]. simpl. apply fresh_id_new.
Qed.
Next Obligation.
  intros c k c' H. simpl in H. case_bool_decide; [done|]. injection H as <-. by exists k.
Qed.
Next Obligation.
  intros c x c' [= <-]. eexists. split; [|split; [|reflexivity]]; [by repeat split|]. simpl. apply fresh_id_new.
Qed.
Next Obligation.
  intros c s c' H. simpl in H. case_bool_decide; [done|]. by injection H as <-.
Qed.
End ListEngine.

(** One included program, an empty engine but for a filter of another provider. *)
Definition demo_app : AppEntry := {| appId := [97; 0; 0; 0]; tag := [97; 0] |}.
Definition demo_any : filter0 := {|
  filterId := 9; filterKey := zero_guid; displayName := []; flags := 1; providerKey := None; providerData := None;
  layerKey := kLayerConnectV6; subLayerKey := zero_guid; weight := 1; actionType := FWP_ACTION_BLOCK;
  calloutKey := zero_guid; providerContextKey := zero_guid; filterCondition := [] |}.
Definition demo_contents : contents := {| provider := None; filters := [demo_any]; callouts := []; contexts := []; sublayers := [] |}.

Definition demo_ip : Z := 0x0a000002.
Definition demo_rest : traffic -> condition -> bool := fun _ _ => false.
Definition demo_traffic : traffic := {| t_layer := kLayerAuthConnectV4; t_appId := appId demo_app; t_flags := 0; t_local := 0x0a000003 |}.

Lemma demo_outside : outside_tunnel (map appId [demo_app]) demo_ip demo_traffic.
Proof. split; [by left|]. split; [done|]. right. right. split; [by left|done]. Qed.

Ltac unique_demo := split; [apply (bool_decide_unpack (NoDup _)); vm_compute; exact I..].

Lemma install_outcome_witness :
  let result := @install list_engine [demo_app] demo_ip demo_contents in
  fst result = Installed /\
  exists f, f ∈ filters (@look list_engine list_engine_spec (snd result)) /\ hard_block true f /\ matches demo_rest demo_traffic f = true.
Proof.
  intros result. assert (fst result = Installed) as Hr by (vm_compute; reflexivity). split; [exact Hr|].
  destruct (install_outcome list_engine list_engine_spec demo_rest [demo_app] demo_ip demo_contents (snd result) (fst result)) as (_ & H & _);
    [unique_demo|apply surjective_pairing|].
  destruct H as [H _]; [rewrite Hr; discriminate|]. exact (H true demo_traffic demo_outside).
Defined.

Definition demo_ready : contents := {|
  provider := Some 1; filters := forEachFilter [demo_app] zero_guid demo_ip true;
  callouts := map (fun rule => {| co_key := c_key rule; co_flags := 0x30000; co_provider := Some kProvider; co_layer := c_layer rule |}) kCallouts;
  contexts := [{| cx_key := zero_guid; cx_id := 1; cx_flags := 1; cx_provider := Some kProvider; cx_type := FWPM_GENERAL_CONTEXT;
                  cx_data := Some (contextFor demo_ip) |}];
  sublayers := [the_sublayer] |}.

Definition demo_snapshot : Owned :=
  match @snapshot list_engine demo_ready false with
  | Some o => o
  | None => {| o_provider := None; o_filters := []; o_callouts := []; o_contexts := []; o_sublayers := [] |}
  end.

Lemma zero_guid_ok : guid_ok zero_guid.
Proof. known_guid. Qed.

Lemma demo_apps_ok : apps_ok [demo_app] demo_ip.
Proof.
  split; [|done]. intros app Happ. apply list_elem_of_singleton in Happ as ->.
  split; repeat (apply Forall_cons_2; [done|]); apply Forall_nil_2.
Qed.

Lemma verified_blocks_witness :
  exists f, f ∈ filters demo_ready /\ hard_block false f /\ matches demo_rest demo_traffic f = true.
Proof.
  apply (verified_blocks list_engine list_engine_spec demo_rest demo_ready demo_snapshot [demo_app] demo_ip false demo_traffic).
  - split; [intros f; apply drafted_ok; [apply demo_apps_ok|apply zero_guid_ok]|].
    intros x Hx. apply list_elem_of_singleton in Hx as ->. apply zero_guid_ok.
  - apply demo_apps_ok.
  - vm_compute. reflexivity.
  - vm_compute. reflexivity.
  - apply demo_outside.
Defined.

(** A boot-time copy alone is not enough: without the persistent block
    verification names what is missing. *)
Example missing_named :
  describeMismatch (default demo_snapshot (@snapshot list_engine (set_filters demo_ready (drop 3 (filters demo_ready))) false)) [demo_app] demo_ip =
  str "expected 10 filter(s), found 7 with 3 missing".
Proof. vm_compute. reflexivity. Qed.

Definition demo_mixed : contents :=
  set_filters (set_provider demo_contents (Some 1)) (with_id (hd demo_any (filters demo_ready)) 4 :: filters demo_contents).

Lemma remove_exact_witness :
  let result := @removeAll list_engine demo_mixed in
  filters (@look list_engine list_engine_spec (snd result)) = List.filter (fun f => negb (ownedBy (providerKey f))) (filters demo_mixed).
Proof.
  intros result. assert (is_Some (fst result)) as Hr by (vm_compute; eexists; reflexivity).
  destruct (remove_exact list_engine list_engine_spec demo_mixed (snd result) (fst result)) as [_ H]; [unique_demo|apply surjective_pairing|].
  destruct H as (_ & Hf & _); [by destruct Hr as [? ->]|]. exact Hf.
Defined.
