(* ===== verification/WfpProbe.v ===== *)
(** * WfpProbe: the commands of the filter tool

    Models [wmain] of [src/src/native/wfp-probe.cpp] with what it reads and
    writes: the list of programs ([parseIncludedText], [loadIncludedPaths]), the
    refusal of the project's own components, the record of identities beside the
    list, and the [install], [verify] and [remove] commands with their exit
    codes.  It composes [Identify] (who each listed program is), [Identity] (the
    record) and [WfpEngine] (the filter engine). *)
From S2P Require Import Prelude Numbers DnsWire Identity Identify Wfp WfpEngine.

Definition kExitFailed : Z := 1.
Definition kExitUsage : Z := 2.
Definition kExitCalloutInUse : Z := 3.
Definition kExitUnregistered : Z := 4.

(** ** The list *)

(** A line of the list, if it names a program: its listed spelling, lowered. *)
Definition list_entry (line : list Z) : option (list Z) :=
  match trim line with
  | [] => None
  | c :: t => if c =? 35 then None else Some (ascii_lower (c :: t))
  end.

Definition parseIncludedText (text : list Z) : gset (list Z) := list_to_set (omap list_entry (split_lines text)).

Section Probe.
Context {E : Engine} {P : Platform} {U : Utf8}.

(** [None]: an exception, [kExitFailed].  [file] is the list's bytes, if it could
    be read. *)
Definition loadIncludedPaths (file : option (list Z)) : option (gset (list Z)) :=
  bytes ← file;
  if 1048576 <? Z.of_nat (length bytes) then None
  else
    let bytes := if bool_decide (take 3 bytes = [239; 187; 191]) then drop 3 bytes else bytes in
    text ← wideText bytes;
    let result := parseIncludedText text in
    if bool_decide (result = ∅) then None else Some result.

Definition insideDirectory (path directory : list Z) : bool :=
  negb (bool_decide (directory = [])) && (length directory <? length path)%nat && bool_decide (take (length directory) path = directory).

(** A listed entry is one of the project's own programs. *)
Definition lists_component (components : list Z) (listed : gset (list Z)) : bool :=
  existsb (fun entry => insideDirectory entry components || insideDirectory (ascii_lower (fst (resolve entry))) components) (elements listed).

(** An entry with identifiers to filter and no path to attribute its names by. *)
Definition unattributed (identified : Identities) : bool :=
  existsb (fun e => negb (bool_decide (ids e.2 = [])) && bool_decide (r_path e.2 = [])) (ordered identified).

Definition app_entries (identified : Identities) : list AppEntry :=
  map (fun e => {| appId := e.2; tag := wide_bytes e.1 |}) (AppIds identified).

(** ** The record beside the list *)

(** At most four mebibytes, and empty when it cannot be read. *)
Definition readText (file : option (list Z)) : list Z :=
  match file with
  | Some bytes => if Z.of_nat (length bytes) <=? 4194304 then bytes else []
  | None => []
  end.

Definition identitiesPathFor (listPath : list Z) : list Z :=
  (fix directory (text : list Z) : list Z :=
     match text with
     | [] => []
     | c :: rest => if existsb (fun d => (d =? 92) || (d =? 47)) (c :: rest) then c :: directory rest else []
     end) listPath ++ str "resolved-identities.tsv".

(** ** The commands *)

Inductive Mode := Invalid | Install | Remove | Verify | Status.

Definition parseMode (argv : list (list Z)) : Mode :=
  match argv with
  | [_; word] => if bool_decide (word = str "remove") then Remove else if bool_decide (word = str "status") then Status else Invalid
  | [_; word; _; _] => if bool_decide (word = str "install") then Install else if bool_decide (word = str "verify") then Verify else Invalid
  | _ => Invalid
  end.

(** The world a command runs in: the engine and the record. *)
Record world := { w_engine : engine; w_record : option (list Z) }.

(** What it is given: whether the engine opens, the list, the project's own
    directory, the tunnel address, whether the record can be replaced, and what
    [selfTest] returns. *)
Record inputs := {
  engine_opens : bool; list_file : option (list Z); components : option (list Z); tunnel : option Z; record_written : bool;
  self_test : Z
}.

(** The common end of [install] and [verify]. *)
Definition confirm (mode : Mode) (apps : list AppEntry) (tunnelIp : Z) (w : world) : Z * world :=
  match readSnapshot (w_engine w) false with
  | None => (kExitFailed, w)
  | Some o =>
      if negb (bool_decide (describeMismatch o apps tunnelIp = [])) then (kExitFailed, w)
      else match calloutsRegistered (w_engine w) with
           | None => (kExitFailed, w)
           | Some registered =>
               match mode with
               | Install => (0, w)
               | _ => if registered then (0, w) else (kExitUnregistered, w)
               end
           end
  end.

Definition apply_filters (mode : Mode) (i : inputs) (w : world) : Z * world :=
  match loadIncludedPaths (list_file i), components i with
  | Some listed, Some directory =>
      if lists_component directory listed then (kExitFailed, w)
      else match tunnel i with
      | None => (kExitFailed, w)
      | Some tunnelIp =>
          if negb (engine_opens i) then (kExitFailed, w)
          else
            let recorded := readText (w_record w) in
            match readSnapshot (w_engine w) false with
            | None => (kExitFailed, w)
            | Some o =>
                let identified := identifyApps listed (parseIdentities recorded) (o_filters o) in
                if unattributed identified then (kExitFailed, w)
                else
                  let serialized := serializeIdentities identified in
                  let apps := app_entries identified in
                  match mode with
                  | Install =>
                      match install apps tunnelIp (w_engine w) with
                      | (InstallFailed, e) => (kExitFailed, {| w_engine := e; w_record := w_record w |})
                      | (CalloutInUse, e) => (kExitCalloutInUse, {| w_engine := e; w_record := w_record w |})
                      | (Installed, e) =>
                          if record_written i then confirm mode apps tunnelIp {| w_engine := e; w_record := Some serialized |}
                          else (kExitFailed, {| w_engine := e; w_record := w_record w |})
                      end
                  | _ =>
                      if negb (bool_decide (serialized = recorded)) then (kExitFailed, w)
                      else confirm mode apps tunnelIp w
                  end
            end
      end
  | _, _ => (kExitFailed, w)
  end.

Definition remove_filters (i : inputs) (w : world) : Z * world :=
  if negb (engine_opens i) then (kExitFailed, w)
  else match removeAll (w_engine w) with
  | (None, e) => (kExitFailed, {| w_engine := e; w_record := w_record w |})
  | (Some _, e) =>
      let w := {| w_engine := e; w_record := w_record w |} in
      match readSnapshot e true with
      | Some remaining => if owned_empty remaining then (0, w) else (kExitFailed, w)
      | None => (kExitFailed, w)
      end
  end.

Definition self_test_asked (argv : list (list Z)) : bool :=
  match argv with [_; word] => bool_decide (word = str "--self-test") | _ => false end.

Definition wmain (argv : list (list Z)) (i : inputs) (w : world) : Z * world :=
  if self_test_asked argv then (self_test i, w)
  else match parseMode argv with
  | Invalid => (kExitUsage, w)
  | Remove => remove_filters i w
  | Status => if negb (engine_opens i) then (kExitFailed, w)
              else match readSnapshot (w_engine w) false with Some _ => (0, w) | None => (kExitFailed, w) end
  | mode => apply_filters mode i w
  end.
End Probe.

(** ** What an exit code says *)

Section Commands.
Context {E : Engine} {S : EngineSpec E} {P : Platform} {U : Utf8}.

Lemma filters_mode argv : parseMode argv = Install \/ parseMode argv = Verify -> self_test_asked argv = false.
Proof. destruct argv as [|a [|word [|b argv]]]; try done. simpl. repeat case_bool_decide; by intros []. Qed.

Lemma confirm_spec mode apps tunnelIp w code w' :
  confirm mode apps tunnelIp w = (code, w') -> code = 0 \/ code = kExitUnregistered ->
  w' = w /\ exists o, snapshot (w_engine w) false = Some o /\ describeMismatch o apps tunnelIp = [].
Proof.
  unfold confirm, readSnapshot, transaction. intros H Hc. destruct (begin_transaction _); cbn [negb fst] in H; [|simplify_eq; by destruct Hc].
  destruct (snapshot (w_engine w) false) as [o|]; cbn [mbind option_bind fst] in H; [|simplify_eq; by destruct Hc].
  destruct (commit_transaction _); cbn [fst] in H; [|simplify_eq; by destruct Hc].
  case_bool_decide as Hd; cbn [negb] in H; [|simplify_eq; by destruct Hc].
  destruct (calloutsRegistered (w_engine w)) as [r|]; [|simplify_eq; by destruct Hc].
  destruct mode, r; simplify_eq; eauto.
Qed.

Lemma record_unread (file : option (list Z)) identified : serializeIdentities identified = readText file -> file = Some (serializeIdentities identified).
Proof.
  unfold readText. intros H. assert (serializeIdentities identified <> []) as Hn by (unfold serializeIdentities; discriminate).
  destruct file as [bytes|]; [|congruence]. destruct (_ <=? _); congruence.
Qed.

Lemma app_entries_ids identified : map appId (app_entries identified) = map snd (AppIds identified).
Proof. unfold app_entries. by rewrite map_map. Qed.

Lemma app_entries_elem (m : Identities) entry identity id :
  m !! entry = Some identity -> id ∈ all_ids identity -> id ∈ map appId (app_entries m).
Proof.
  intros Hm (l & Hl & Hid)%list_elem_of_In%in_concat. apply in_map_iff in Hl as (g & <- & Hg). rewrite app_entries_ids.
  apply list_elem_of_fmap. exists (entry ++ 9 :: g_path g, id). split; [done|]. apply AppIds_elem.
  exists entry, identity, g. by rewrite !list_elem_of_In.
Qed.

Lemma readSnapshot_snapshot e every o : readSnapshot e every = Some o -> snapshot e every = Some o.
Proof.
  unfold readSnapshot, transaction. destruct (begin_transaction e); [|done]. cbn [negb].
  destruct (snapshot e every) as [o'|]; [|done]. cbn [mbind option_bind]. by destruct (commit_transaction e).
Qed.

(** A successful run confirmed its filters and left its record. *)
Lemma apply_filters_spec mode i w code w' :
  mode = Install \/ mode = Verify -> apply_filters mode i w = (code, w') -> code = 0 \/ code = kExitUnregistered ->
  exists listed o0 o tunnelIp identified, loadIncludedPaths (list_file i) = Some listed /\ tunnel i = Some tunnelIp /\
    snapshot (w_engine w) false = Some o0 /\
    identified = identifyApps listed (parseIdentities (readText (w_record w))) (o_filters o0) /\ unattributed identified = false /\
    w_record w' = Some (serializeIdentities identified) /\
    snapshot (w_engine w') false = Some o /\ describeMismatch o (app_entries identified) tunnelIp = [].
Proof.
  intros Hm H Hc. assert (forall w1, (kExitFailed, w1) = (code, w') -> False) as Hfail by (intros w1 [= <- _]; by destruct Hc).
  unfold apply_filters in H. destruct (loadIncludedPaths (list_file i)) as [listed|]; [|by apply Hfail in H].
  destruct (components i) as [directory|]; [|by apply Hfail in H]. destruct (lists_component directory listed); [by apply Hfail in H|].
  destruct (tunnel i) as [ip|]; [|by apply Hfail in H]. destruct (engine_opens i); cbn [negb] in H; [|by apply Hfail in H].
  destruct (readSnapshot (w_engine w) false) as [o0|] eqn:Eo; [|by apply Hfail in H]. apply readSnapshot_snapshot in Eo. cbv zeta in H.
  set (identified := identifyApps _ _ _) in H. destruct (unattributed identified) eqn:Eu; [by apply Hfail in H|].
  destruct Hm as [-> | ->].
  - destruct (install _ ip (w_engine w)) as [[] e]; [|injection H as <- _; by destruct Hc|by apply Hfail in H].
    destruct (record_written i); [|by apply Hfail in H]. apply confirm_spec in H as (-> & o & Ho & Hd); [|done].
    exists listed, o0, o, ip, identified. done.
  - case_bool_decide as Hr; cbn [negb] in H; [|by apply Hfail in H]. apply confirm_spec in H as (-> & o & Ho & Hd); [|done].
    apply record_unread in Hr. exists listed, o0, o, ip, identified. done.
Qed.
End Commands.

(** C6: a filter command that succeeds leaves every listed program protected.
    When [install] or [verify] ends with exit code zero, or [verify] with the
    code that only the driver is missing, the record beside the list is that of
    the identities found, every identity with filters has a path its names are
    attributed by, and every connection of any of their identifiers outside the
    tunnel meets a hard block of the filter engine, from boot on. *)
Theorem probe_protects (E : Engine) (S : EngineSpec E) (P : Platform) (U : Utf8) (other : traffic -> condition -> bool)
    (argv : list (list Z)) (i : inputs) (w w' : world) (code : Z) :
  parseMode argv = Install \/ parseMode argv = Verify -> wmain argv i w = (code, w') -> code = 0 \/ code = kExitUnregistered ->
  contents_ok (look (w_engine w')) ->
  exists listed tunnelIp identified, loadIncludedPaths (list_file i) = Some listed /\ tunnel i = Some tunnelIp /\
    dom identified = listed /\ w_record w' = Some (serializeIdentities identified) /\
    (forall entry identity, identified !! entry = Some identity -> ids identity <> [] -> r_path identity <> []) /\
    (apps_ok (app_entries identified) tunnelIp -> forall entry identity id bootTime t,
       identified !! entry = Some identity -> id ∈ all_ids identity -> outside_tunnel [id] tunnelIp t ->
       exists f, f ∈ filters (look (w_engine w')) /\ hard_block bootTime f /\ matches other t f = true).
Proof.
  intros Hm H Hc Hok. assert (apply_filters (parseMode argv) i w = (code, w')) as Ha by (unfold wmain in H; rewrite (filters_mode _ Hm) in H; destruct Hm as [Em|Em]; by rewrite Em in *).
  destruct (apply_filters_spec _ _ _ _ _ Hm Ha Hc) as (listed & o0 & o & ip & m & Hl & Ht & _ & -> & Hu & Hr & Ho & Hd).
  eexists listed, ip, _. split; [done|]. split; [done|]. split; [|split; [exact Hr|split]].
  - apply set_eq. intros entry. rewrite elem_of_dom, identifyApps_lookup. case_bool_decide; naive_solver.
  - intros entry identity Hm' Hi Hp. apply not_true_iff_false in Hu. apply Hu, existsb_exists. exists (entry, identity). split.
    + apply list_elem_of_In. unfold ordered. rewrite sorting.merge_sort_Permutation. by apply elem_of_map_to_list.
    + simpl. by rewrite bool_decide_false, bool_decide_true.
  - intros Happs entry identity id bootTime t Hm' Hid (Hta & Htl & Htt). apply list_elem_of_singleton in Hta.
    apply (verified_block other (w_engine w') o _ ip bootTime t Hok Happs Ho Hd). split; [|done]. rewrite Hta. by eapply app_entries_elem.
Qed.

(** ** Example: verifying one program *)

Definition demo_platform : Platform := {|
  resolve entry := (entry, str "\device\volume" ++ drop 2 entry); presentId _ := []; downcase := None |}.
Definition demo_utf8 : Utf8 := {| utf8 t := t; wide t := t; valid _ := True; wellformed _ := true |}.
Definition demo_program : list Z := str "c:\a.exe".
Definition demo_identified : Identities := @identifyApps demo_platform {[demo_program]} ∅ [].

Definition demo_engine : contents := {|
  provider := Some 1; filters := forEachFilter (app_entries demo_identified) zero_guid demo_ip true;
  callouts := map (fun rule => {| co_key := c_key rule; co_flags := 0x70000; co_provider := Some kProvider; co_layer := c_layer rule |}) kCallouts;
  contexts := contexts demo_ready; sublayers := [the_sublayer] |}.

Definition demo_world : @world list_engine := {|
  w_engine := (demo_engine : @engine list_engine); w_record := Some (@serializeIdentities demo_utf8 demo_identified) |}.
Definition demo_inputs : inputs := {|
  engine_opens := true; list_file := Some (str "# programs" ++ [13; 10] ++ demo_program ++ [13; 10]);
  components := Some (str "c:\split\bin\"); tunnel := Some demo_ip; record_written := true; self_test := 0 |}.
Definition demo_argv : list (list Z) := [str "wfp-probe.exe"; str "verify"; str "list"; str "10.0.0.2"].

Lemma demo_entries_ok : apps_ok (app_entries demo_identified) demo_ip.
Proof.
  split; [|done]. assert (forallb (fun a => forallb (fun b => (0 <=? b) && (b <? 256)) (appId a ++ tag a)) (app_entries demo_identified) = true) as H
    by (vm_compute; reflexivity).
  rewrite forallb_forall in H. intros app Happ%list_elem_of_In%H. rewrite forallb_app in Happ. apply andb_true_iff in Happ as [H1 H2].
  rewrite !forallb_forall in *. split; apply list.Forall_forall; intros b Hb%list_elem_of_In; [apply H1 in Hb|apply H2 in Hb]; bool_to_prop; done.
Qed.

Lemma probe_protects_witness :
  let result := @wmain list_engine demo_platform demo_utf8 demo_argv demo_inputs demo_world in
  fst result = 0 /\ exists listed tunnelIp identified,
    @loadIncludedPaths demo_utf8 (list_file demo_inputs) = Some listed /\ tunnel demo_inputs = Some tunnelIp /\ dom identified = listed /\
    w_record (snd result) = Some (@serializeIdentities demo_utf8 identified).
Proof.
  intros result. assert (fst result = 0) as Hr by (vm_compute; reflexivity). split; [exact Hr|].
  destruct (probe_protects list_engine list_engine_spec demo_platform demo_utf8 demo_rest demo_argv demo_inputs demo_world (snd result) (fst result))
    as (listed & ip & m & H1 & H2 & H3 & H4 & _); [right; vm_compute; reflexivity|apply surjective_pairing|left; exact Hr| |exact (ex_intro _ listed (ex_intro _ ip (ex_intro _ m (conj H1 (conj H2 (conj H3 H4))))))].
  assert (w_engine (snd result) = w_engine demo_world) as -> by (vm_compute; reflexivity).
  split; [intros f; apply drafted_ok; [apply demo_entries_ok|apply zero_guid_ok]|].
  intros x Hx. apply list_elem_of_singleton in Hx as ->. apply zero_guid_ok.
Defined.
