(* ===== verification/WfpReport.v ===== *)
(** * WfpReport: what the filter tool says

    Models the standard output of [wmain] of [src/src/native/wfp-probe.cpp]: the
    counts of [describeCounts], the warnings for entries without a present
    executable, and the one line that announces success.  The exit codes and the
    effects are in [WfpProbe]; the texts of errors, which carry the system's
    codes, are not modelled. *)
From S2P Require Import Prelude Numbers Identity Identify PathIdentity Wfp WfpEngine WfpProbe.

(** [find] of a text in another, other than [npos]. *)
Fixpoint has_text (needle text : list Z) : bool :=
  has_prefix needle text || match text with [] => false | _ :: rest => has_text needle rest end.

Definition describeCounts (o : Owned) : list Z :=
  let bootTime := List.filter (fun f => has_text (str " boottime") (f_signature f)) (o_filters o) in
  text_of_size (o_filters o) ++ str " filter(s) including " ++ text_of_size bootTime ++ str " boot-time, " ++
  text_of_size (o_contexts o) ++ str " provider context(s), " ++ text_of_size (o_callouts o) ++ str " callout(s), " ++
  text_of_size (o_sublayers o) ++ str " sublayer(s)" ++ (if bool_decide (o_provider o = None) then [] else str ", provider").

Section Output.
Context {E : Engine} {P : Platform} {U : Utf8}.

(** The warning of an entry, if it gets one. *)
Definition warning (e : list Z * ResolvedIdentity) : list (list Z) :=
  match source e.2 with
  | Present => []
  | Derived => [str "WARNING: listed executable is absent; its filters stay in place for its return: " ++ utf8 e.1]
  | Retained => [str "WARNING: listed executable's path cannot be resolved; its recorded identity is kept: " ++ utf8 e.1]
  | NoIdentity => [str "WARNING: listed executable's path cannot be resolved and it has no filters: " ++ utf8 e.1]
  end.

Definition warnings (identified : Identities) : list (list Z) := concat (map warning (ordered identified)).

(** The line after the filters are confirmed. *)
Definition confirm_output (mode : Mode) (identified : Identities) (apps : list AppEntry) (tunnelIp : Z) (w : world) : list (list Z) :=
  match readSnapshot (w_engine w) false with
  | None => []
  | Some o =>
      if negb (bool_decide (describeMismatch o apps tunnelIp = [])) then []
      else match calloutsRegistered (w_engine w) with
           | None => []
           | Some registered =>
               match mode with
               | Install =>
                   [str "READY: persistent payload filters installed for " ++ to_string (Z.of_nat (size identified)) ++
                    str " listed application(s); " ++
                    (if registered then str "PIA callouts registered." else str "PIA callouts are not registered until the PIA driver loads.")]
               | _ =>
                   if registered
                   then [str "PASS: persistent payload filters match " ++ to_string (Z.of_nat (size identified)) ++
                         str " included application(s) and the tunnel address; PIA callouts registered."]
                   else []
               end
           end
  end.

Definition apply_output (mode : Mode) (i : inputs) (w : world) : list (list Z) :=
  match loadIncludedPaths (list_file i), components i with
  | Some listed, Some directory =>
      if lists_component directory listed then []
      else match tunnel i with
      | None => []
      | Some tunnelIp =>
          if negb (engine_opens i) then []
          else
            let recorded := readText (w_record w) in
            match readSnapshot (w_engine w) false with
            | None => []
            | Some o =>
                let identified := identifyApps listed (parseIdentities recorded) (o_filters o) in
                if unattributed identified then []
                else
                  let serialized := serializeIdentities identified in
                  let apps := app_entries identified in
                  warnings identified ++
                  match mode with
                  | Install =>
                      match install apps tunnelIp (w_engine w) with
                      | (Installed, e) =>
                          if record_written i then confirm_output mode identified apps tunnelIp {| w_engine := e; w_record := Some serialized |}
                          else []
                      | _ => []
                      end
                  | _ =>
                      if negb (bool_decide (serialized = recorded)) then []
                      else confirm_output mode identified apps tunnelIp w
                  end
            end
      end
  | _, _ => []
  end.

Definition remove_output (i : inputs) (w : world) : list (list Z) :=
  if negb (engine_opens i) then []
  else match removeAll (w_engine w) with
  | (None, _) => []
  | (Some removed, e) =>
      match readSnapshot e true with
      | Some remaining =>
          if owned_empty remaining
          then [str "REMOVED: " ++ describeCounts removed ++ str "; no WireGuard Program Split WFP objects remain."] else []
      | None => []
      end
  end.

Definition status_output (i : inputs) (w : world) : list (list Z) :=
  if negb (engine_opens i) then []
  else match readSnapshot (w_engine w) false with
  | Some owned =>
      if owned_empty owned then [str "ABSENT: no WireGuard Program Split WFP objects are installed."]
      else [str "PRESENT: " ++ describeCounts owned ++ str "."]
  | None => []
  end.

(** The lines of a command's standard output. *)
Definition output (argv : list (list Z)) (i : inputs) (w : world) : list (list Z) :=
  match parseMode argv with
  | Invalid => []
  | Remove => remove_output i w
  | Status => status_output i w
  | mode => apply_output mode i w
  end.

(** A line that announces success. *)
Definition announces (line : list Z) : bool :=
  existsb (fun word => has_prefix word line) [str "READY: "; str "PASS: "; str "REMOVED: "; str "PRESENT: "; str "ABSENT: "].

Lemma warnings_silent identified : existsb announces (warnings identified) = false.
Proof.
  apply not_true_iff_false. rewrite existsb_exists. intros (line & Hin & Ha). unfold warnings in Hin.
  apply in_concat in Hin as (l & Hl & Hin). apply in_map_iff in Hl as (e & <- & _). unfold warning in Hin.
  destruct (source e.2); simpl in Hin; try done; destruct Hin as [<-|[]]; discriminate Ha.
Qed.

Lemma confirm_announced mode identified apps tunnelIp w :
  existsb announces (confirm_output mode identified apps tunnelIp w) = (fst (confirm mode apps tunnelIp w) =? 0).
Proof.
  unfold confirm_output, confirm. destruct (readSnapshot _ _) as [o|]; [|done].
  destruct (negb _); [done|]. destruct (calloutsRegistered _) as [[]|]; [|by destruct mode|done]; by destruct mode.
Qed.

(** A command announces success exactly when it succeeds.  The standard
    output of [install], [verify], [remove] and [status] holds a READY, PASS,
    REMOVED, PRESENT or ABSENT line if and only if the exit code is zero;
    warnings are none of these. *)
Theorem success_announced (argv : list (list Z)) (i : inputs) (w : world) :
  parseMode argv <> Invalid -> existsb announces (output argv i w) = (fst (wmain argv i w) =? 0).
Proof.
  intros Hm. assert (self_test_asked argv = false) as Ht.
  { destruct argv as [|a [|word [|b argv]]]; try done. simpl in *. repeat case_bool_decide; by subst. }
  unfold output, wmain. rewrite Ht. destruct (parseMode argv) eqn:Em; [done| | | |].
  - unfold apply_output, apply_filters. destruct (loadIncludedPaths _) as [listed|], (components i) as [d|]; try done.
    destruct (lists_component d listed); [done|]. destruct (tunnel i); [|done]. destruct (negb _); [done|].
    destruct (readSnapshot _ _) as [o|]; [|done]. cbv zeta. destruct (unattributed _); [done|].
    rewrite existsb_app, warnings_silent. destruct (install _ _ _) as [[] e]; try done. destruct (record_written i); [|done].
    apply confirm_announced.
  - unfold remove_output, remove_filters. destruct (negb _); [done|]. destruct (removeAll _) as [[o|] e]; [|done].
    cbv zeta. destruct (readSnapshot e true) as [r|]; [|done]. by destruct (owned_empty r).
  - unfold apply_output, apply_filters. destruct (loadIncludedPaths _) as [listed|], (components i) as [d|]; try done.
    destruct (lists_component d listed); [done|]. destruct (tunnel i); [|done]. destruct (negb _); [done|].
    destruct (readSnapshot _ _) as [o|]; [|done]. cbv zeta. destruct (unattributed _); [done|].
    rewrite existsb_app, warnings_silent. destruct (negb _); [done|]. apply confirm_announced.
  - unfold status_output. destruct (negb _); [done|]. destruct (readSnapshot _ _) as [o|]; [|done].
    by destruct (owned_empty o).
Qed.
End Output.

Lemma success_announced_witness :
  existsb announces (@output list_engine demo_platform demo_utf8 demo_argv demo_inputs demo_world) = true /\
  fst (@wmain list_engine demo_platform demo_utf8 demo_argv demo_inputs demo_world) = 0.
Proof.
  assert (fst (@wmain list_engine demo_platform demo_utf8 demo_argv demo_inputs demo_world) = 0) as H by (vm_compute; reflexivity).
  split; [|exact H]. rewrite (@success_announced list_engine demo_platform demo_utf8 demo_argv demo_inputs demo_world); [by rewrite H|].
  vm_compute. discriminate.
Defined.

(** ** The component directory *)

(** [componentDirectory]: the lower-cased directory of this program, with its
    separator; [None] when it throws. *)
Definition componentDirectory `{FileSystem} (module : option (list Z)) : option (list Z) :=
  name ← module;
  let path := ascii_lower (finalPath name true) in
  separator ← find_last path;
  Some (take (S separator) path).

(** Whatever lies beside this program, at any depth, counts as its component. *)
Lemma beside_is_component `{FileSystem} module directory name :
  componentDirectory module = Some directory -> name <> [] -> insideDirectory (directory ++ name) directory = true.
Proof.
  unfold componentDirectory. destruct module as [m|]; [|done]. cbn [mbind option_bind]. destruct (find_last _) as [n|] eqn:E; [|done].
  cbn [mbind option_bind]. intros [= <-] Hne. apply find_last_lt in E as [Hn _]. unfold insideDirectory.
  assert (length (take (S n) (ascii_lower (finalPath m true))) = S n) as Hl by (apply length_take_le; lia).
  rewrite bool_decide_false by (intros Hz; by rewrite Hz in Hl). rewrite length_app, take_app_length, bool_decide_true by done.
  rewrite (proj2 (Nat.ltb_lt _ _)); [done|]. destruct name; [done|simpl; lia].
Qed.
