(* ===== verification/WfpSelfTest.v ===== *)
(** * WfpSelfTest: the filter tool's own test, run on the model

    Translates [src/src/native/wfp-probe-self-test.h]: the rules, drafts and
    signatures of the filters, the verification of the installed set and of sets
    that differ from it, the identities of listed programs with their record, and
    the resolution of absent files.  The test is an executable value, the first
    failing check's code; it is evaluated here.  What the operating system answers
    in it (the test's own path, the case mapping, the address conversion) is that
    of small fixed instances. *)
From stdpp Require Import sorting.
From S2P Require Import Prelude Numbers DnsWire Identity Identify PathIdentity Wfp WfpEngine WfpProbe WfpReport.

(** [derivedAppId] of [wfp-probe-identity.h]. *)
Definition derivedAppId `{FileSystem} (path : list Z) : list Z :=
  let resolved := default [] (resolvePath path false) in
  if bool_decide (resolved = []) then [] else appIdFromNtPath resolved.

(** ** The fixtures *)

Definition ascii_text : Utf8 := {| utf8 t := t; wide t := t; valid t := Forall (fun c => 0 <= c < 128) t; wellformed := forallb (fun c => c <? 128) |}.
#[local] Existing Instance ascii_text.

Definition one : list Z := [111; 0; 110; 0; 101; 0].
Definition two : list Z := [116; 0; 119; 0; 111; 0].
Definition oneTag : list Z := wide_bytes (str "c:\apps\one.exe" ++ 9 :: str "c:\real\one.exe").
Definition twoTag : list Z := wide_bytes (str "c:\apps\two.exe" ++ 9 :: str "c:\real\two.exe").
Definition oneEntry : AppEntry := {| appId := one; tag := oneTag |}.
Definition twoEntry : AppEntry := {| appId := two; tag := twoTag |}.
Definition contextKey : GUID := guid 0x01234567 0x89ab 0xcdef [1; 2; 3; 4; 5; 6; 7; 8].
Definition kTunnel : Z := 0xc0000201.
Definition apps : list AppEntry := [oneEntry; twoEntry].
Definition contextBytes : list Z := contextFor kTunnel.

(** ** Parsing *)

Definition argument_list (words : list String.string) : list (list Z) := map str words.

Definition installArguments := argument_list ["wfp-probe.exe"; "install"; "apps.txt"; "192.0.2.1"].
Definition verifyArguments := argument_list ["wfp-probe.exe"; "verify"; "apps.txt"; "192.0.2.1"].
Definition removeArguments := argument_list ["wfp-probe.exe"; "remove"].
Definition statusArguments := argument_list ["wfp-probe.exe"; "status"].
Definition legacyArguments := argument_list ["wfp-probe.exe"; "apps.txt"; "192.0.2.1"].

Definition is_mode (words : list (list Z)) (mode : Mode) : bool :=
  match parseMode words, mode with
  | Install, Install | Verify, Verify | Remove, Remove | Status, Status | Invalid, Invalid => true
  | _, _ => false
  end.

Definition included : gset (list Z) :=
  parseIncludedText (str "C:\Apps\One.exe" ++ [13; 10] ++ str "# comment" ++ [10] ++ str "C:\Apps\Two.exe" ++ [10]).

Definition parsing_checks : list (bool * Z) :=
  [((size included =? 2)%nat && bool_decide (str "c:\apps\one.exe" ∈ included) && bool_decide (str "c:\apps\two.exe" ∈ included), 3);
   ((nth 0 contextBytes 0 =? 1) && (nth 3 contextBytes 0 =? 0xc0) && (nth 4 contextBytes 0 =? 0) && (nth 8 contextBytes 0 =? 0), 4);
   (contextMatches contextBytes 0xc0000201 && negb (contextMatches contextBytes 0xc0000202), 5);
   (is_mode installArguments Install && is_mode verifyArguments Verify && is_mode removeArguments Remove &&
    is_mode statusArguments Status && is_mode legacyArguments Invalid && is_mode (firstn 3 installArguments) Invalid &&
    is_mode (firstn 2 installArguments) Invalid, 6)].

(** ** The rules *)

(** The kinds of filter a rule can give. *)
Inductive drafted := Redirect | Block4 | Block6.

(** The checks of one draft: its kind, or the failing check's code. *)
Definition check_draft (f : filter0) : Z + drafted :=
  let at_ n := nth n (filterCondition f) {| fieldKey := zero_guid; matchType := 0; conditionValue := OtherValue 0 |} in
  let count := length (filterCondition f) in
  if negb (bool_decide (providerData f = Some oneTag)) then inl 35
  else if negb (has_bits (flags f) kFilterPersistent) || negb (ownedBy (providerKey f)) || negb (sameGuid (subLayerKey f) kSublayer) then inl 7
  else if negb (match conditionValue (at_ 0%nat) with ByteBlob (Some data) => bool_decide (data = one) | _ => false end) ||
          negb (sameGuid (fieldKey (at_ 0%nat)) kConditionAppId) then inl 8
  else if actionType f =? FWP_ACTION_CALLOUT_TERMINATING then
    if negb (has_bits (flags f) kHasProviderContext) || has_bits (flags f) kClearActionRight ||
       negb (sameGuid (providerContextKey f) contextKey) || negb (count =? 1)%nat then inl 9
    else inr Redirect
  else if negb (actionType f =? FWP_ACTION_BLOCK) || has_bits (flags f) kHasProviderContext || negb (has_bits (flags f) kClearActionRight) ||
          (count <? 2)%nat || negb (sameGuid (fieldKey (at_ 1%nat)) kConditionFlags) ||
          negb (matchType (at_ 1%nat) =? FWP_MATCH_FLAGS_NONE_SET) ||
          negb (match conditionValue (at_ 1%nat) with Uint32 n => n =? FWP_CONDITION_FLAG_IS_LOOPBACK | _ => false end) then inl 10
  else if sameGuid (layerKey f) kLayerAuthConnectV4 || sameGuid (layerKey f) kLayerRecvAcceptV4 then
    if negb (count =? 3)%nat || negb (sameGuid (fieldKey (at_ 2%nat)) kConditionLocalAddress) ||
       negb (matchType (at_ 2%nat) =? FWP_MATCH_NOT_EQUAL) ||
       negb (match conditionValue (at_ 2%nat) with Uint32 n => n =? kTunnel | _ => false end) then inl 11
    else inr Block4
  else if sameGuid (layerKey f) kLayerConnectV6 || sameGuid (layerKey f) kLayerRecvAcceptV6 then
    if negb (count =? 2)%nat then inl 12 else inr Block6
  else inl 28.

(** The loop over the rules, with the counts of redirects and blocks. *)
Fixpoint check_rules (rules : list FilterRule) (redirects ipv4Blocks ipv6Blocks : nat) : Z + (nat * nat * nat) :=
  match rules with
  | [] => inr (redirects, ipv4Blocks, ipv6Blocks)
  | rule :: rules =>
      match check_draft (draftFilter rule oneEntry contextKey kTunnel false) with
      | inl code => inl code
      | inr Redirect => check_rules rules (S redirects) ipv4Blocks ipv6Blocks
      | inr Block4 => check_rules rules redirects (S ipv4Blocks) ipv6Blocks
      | inr Block6 => check_rules rules redirects ipv4Blocks (S ipv6Blocks)
      end
  end.

Definition third_rule : FilterRule := nth 2 kRules {| r_layer := zero_guid; r_action := 0; r_callout := None;
  exceptLoopback := false; exceptTunnel := false; r_name := [] |}.

Definition rules_checks : list (bool * Z) :=
  match check_rules kRules 0 0 0 with
  | inl code => [(false, code)]
  | inr counts => [(bool_decide (counts = (2, 2, 2)%nat) && (length kRules =? 6)%nat, 13)]
  end ++
  [(negb (bool_decide (filterSignature (draftFilter third_rule oneEntry contextKey (kTunnel + 1) false) =
                       filterSignature (draftFilter third_rule oneEntry contextKey kTunnel false))), 26);
   (insideDirectory (str "c:\program files\wgps\bin\dns-dispatcher.exe") (str "c:\program files\wgps\bin\") &&
    negb (insideDirectory (str "c:\program files\wgps\bin2\app.exe") (str "c:\program files\wgps\bin\")) &&
    negb (insideDirectory (str "c:\apps\app.exe") []), 27)].

(** ** The installed set *)

(** The filters of [forEachFilter], recorded with identifiers from 100 on. *)
Fixpoint recorded_filters (fs : list filter0) (nextId : Z) : list OwnedFilter :=
  match fs with
  | [] => []
  | f :: fs =>
      let r := owned_filter f in
      {| f_id := nextId; f_signature := f_signature r; f_tag := f_tag r; f_path := f_path r; f_appId := f_appId r |}
      :: recorded_filters fs (nextId + 1)
  end.

Definition all_filters : list filter0 := forEachFilter apps contextKey kTunnel true.

Definition owned : Owned := {|
  o_provider := Some kProviderPersistent;
  o_filters := recorded_filters all_filters 100;
  o_callouts := map (fun rule => {| oc_key := c_key rule; oc_flags := Z.lor kCalloutPersistent kUsesProviderContext; oc_layer := c_layer rule |}) kCallouts;
  o_contexts := [{| ox_key := contextKey; ox_id := 7; ox_flags := kContextPersistent; ox_type := FWPM_GENERAL_CONTEXT; ox_data := contextBytes |}];
  o_sublayers := [{| os_key := kSublayer; os_flags := kSublayerPersistent; os_weight := kSublayerWeight |}] |}.

(** [bootCopies]: a copy that is not a hard block alone spoils the count. *)
Definition bootCopies (fs : list filter0) : Z :=
  foldl (fun count f =>
    if has_bits (flags f) kFilterBootTime then
      let count := if has_bits (flags f) kFilterPersistent || negb (has_bits (flags f) kClearActionRight) ||
                      negb (actionType f =? FWP_ACTION_BLOCK) || negb (sameGuid (subLayerKey f) zero_guid) ||
                      negb (ownedBy (providerKey f)) then 1000 else count in
      count + 1
    else count) 0 fs.

Definition withoutRedirects : Z :=
  foldl (fun count f => count + (if has_bits (actionType f) FWP_ACTION_FLAG_CALLOUT then 1000 else 1)) 0
    (forEachFilter apps contextKey kTunnel false).

Definition matches_set (o : Owned) (apps : list AppEntry) (tunnelIp : Z) : bool := bool_decide (describeMismatch o apps tunnelIp = []).

Definition front_filter : OwnedFilter := nth 0 (o_filters owned) (owned_filter (draftFilter third_rule oneEntry contextKey kTunnel false)).

Definition set_checks : list (bool * Z) :=
  [((bootCopies all_filters =? 8) && (length (o_filters owned) =? 20)%nat && matches_set owned apps kTunnel, 14);
   (bool_decide (describeCounts owned =
      str "20 filter(s) including 8 boot-time, 1 provider context(s), 2 callout(s), 1 sublayer(s), provider"), 29);
   (withoutRedirects =? 16, 30);
   (bool_decide (f_tag front_filter = str "c:\apps\one.exe") && bool_decide (f_path front_filter = str "c:\real\one.exe") &&
    bool_decide (f_appId front_filter = one), 31)].

(** ** Identities *)

Definition hereId : list Z := [104; 0; 0; 0].
Definition linkId : list Z := [108; 0; 0; 0].
Definition staleId : list Z := [97; 0; 0; 0].

(** [resolveTest] and [presentTest]. *)
Definition test_platform : Platform := {|
  resolve entry :=
    if bool_decide (entry = str "c:\apps\here.exe") then (str "C:\Real\here.exe", str "\Device\V\Real\here.exe")
    else if bool_decide (entry = str "c:\apps\gone.exe") then (str "C:\Real\gone.exe", str "\Device\V\Real\Gone.exe")
    else ([], []);
  presentId path := if bool_decide (path = str "C:\Real\here.exe") then hereId else [];
  downcase := None |}.

(** Where nothing resolves. *)
Definition unresolving : Platform := {| resolve _ := ([], []); presentId _ := []; downcase := None |}.

Definition kept (path id : list Z) : ResolvedIdentity := {| source := Retained; r_path := path; ids := [id]; others := [] |}.

Definition record : Identities := {[str "c:\apps\link.exe" := kept (str "D:\Apps\Real.exe") linkId]}.

Definition identified : Identities :=
  @identifyApps test_platform (list_to_set (map str ["c:\apps\here.exe"; "c:\apps\gone.exe"; "c:\apps\one.exe"; "c:\apps\link.exe"; "c:\apps\new.exe"]))
    record (o_filters owned).

(** [at]: a missing entry is an exception of the test. *)
Definition is_identity (m : Identities) (entry : list Z) (expected : ResolvedIdentity) : bool :=
  match m !! entry with
  | Some i => bool_decide (r_path i = r_path expected) && bool_decide (ids i = ids expected) &&
              match source i, source expected with
              | Present, Present | Derived, Derived | Retained, Retained | NoIdentity, NoIdentity => true
              | _, _ => false
              end
  | None => false
  end.

Definition stale : Identities := {[str "c:\apps\one.exe" := kept (str "c:\stale\a.exe") staleId]}.

Definition interrupted : ResolvedIdentity :=
  default unidentified (@identifyApps test_platform {[str "c:\apps\one.exe"]} stale (o_filters owned) !! str "c:\apps\one.exe").

Definition pair_map : Identities := {[str "c:\apps\one.exe" := interrupted]}.
Definition rereadPair : Identities := parseIdentities (serializeIdentities pair_map).
Definition pairIds : list AppEntry := app_entries pair_map.

Definition valid_record : list Z := serializeIdentities stale.

Definition damaged : list (list Z) :=
  [removelast valid_record; valid_record ++ str "x" ++ [10]; valid_record ++ str "e" ++ 9 :: str "p" ++ 9 :: str "0g" ++ [10];
   valid_record ++ str "e" ++ 9 :: str "p" ++ 9 :: str "0" ++ [10]; valid_record ++ str "e" ++ 9 :: str "p" ++ 9 :: str "00," ++ [10];
   valid_record ++ str "e" ++ 9 :: 9 :: str "00" ++ [10]; valid_record ++ [10]; str "# wgps-identities 1"].

Definition reread : Identities := parseIdentities (serializeIdentities identified).

Definition identity_checks : list (bool * Z) :=
  [(is_identity identified (str "c:\apps\here.exe") {| source := Present; r_path := str "c:\real\here.exe"; ids := [hereId]; others := [] |} &&
    is_identity identified (str "c:\apps\gone.exe")
      {| source := Derived; r_path := str "c:\real\gone.exe"; ids := [appIdFromNtPath (str "\device\v\real\gone.exe")]; others := [] |} &&
    is_identity identified (str "c:\apps\one.exe") (kept (str "c:\real\one.exe") one) &&
    is_identity identified (str "c:\apps\link.exe") (kept (str "D:\Apps\Real.exe") linkId) &&
    match identified !! str "c:\apps\new.exe" with
    | Some unknown => match source unknown, ids unknown with NoIdentity, [] => true | _, _ => false end
    | None => false
    end, 36);
   (bool_decide (r_path interrupted = str "c:\real\one.exe") && bool_decide (ids interrupted = [one]) &&
    match others interrupted with
    | [g] => bool_decide (g_path g = str "c:\stale\a.exe") && bool_decide (g_ids g = [staleId])
    | _ => false
    end, 40);
   (bool_decide (serializeIdentities rereadPair = serializeIdentities pair_map) &&
    match rereadPair !! str "c:\apps\one.exe" with Some i => (length (others i) =? 1)%nat | None => false end, 43);
   (match pairIds with [a; b] => negb (bool_decide (tag a = tag b)) | _ => false end, 44);
   (forallb (fun text => bool_decide (parseIdentities text = ∅)) damaged, 41);
   ((size (parseIdentities valid_record) =? 1)%nat && bool_decide (parseIdentities (str "# wgps-identities 1" ++ [10]) = ∅), 42);
   ((size reread =? 4)%nat && bool_decide (reread !! str "c:\apps\new.exe" = None) &&
    bool_decide (r_path <$> reread !! str "c:\apps\link.exe" = Some (str "D:\Apps\Real.exe")) &&
    bool_decide (ids <$> reread !! str "c:\apps\gone.exe" = ids <$> identified !! str "c:\apps\gone.exe") &&
    bool_decide (serializeIdentities reread = serializeIdentities identified) && bool_decide (parseIdentities (str "not a record") = ∅), 39)].

(** ** Sets that differ *)

Definition retainedIds : list AppEntry :=
  app_entries (@identifyApps unresolving (list_to_set (map str ["c:\apps\one.exe"; "c:\apps\two.exe"])) ∅ (o_filters owned)).

Definition with_filters (l : list OwnedFilter) : Owned := {| o_provider := o_provider owned; o_filters := l;
  o_callouts := o_callouts owned; o_contexts := o_contexts owned; o_sublayers := o_sublayers owned |}.
Definition with_contexts (l : list OwnedContext) : Owned := {| o_provider := o_provider owned; o_filters := o_filters owned;
  o_callouts := o_callouts owned; o_contexts := l; o_sublayers := o_sublayers owned |}.
Definition with_callouts (l : list OwnedCallout) : Owned := {| o_provider := o_provider owned; o_filters := o_filters owned;
  o_callouts := l; o_contexts := o_contexts owned; o_sublayers := o_sublayers owned |}.
Definition with_sublayers (l : list OwnedSublayer) : Owned := {| o_provider := o_provider owned; o_filters := o_filters owned;
  o_callouts := o_callouts owned; o_contexts := o_contexts owned; o_sublayers := l |}.
Definition with_provider (flags : Z) : Owned := {| o_provider := Some flags; o_filters := o_filters owned;
  o_callouts := o_callouts owned; o_contexts := o_contexts owned; o_sublayers := o_sublayers owned |}.

(** The first context under another key, the first callout not persistent. *)
Definition other_key (c : OwnedContext) : OwnedContext := {| ox_key := guid (Z.lxor (Data1 (ox_key c)) 1) (Data2 (ox_key c)) (Data3 (ox_key c)) (Data4 (ox_key c));
  ox_id := ox_id c; ox_flags := ox_flags c; ox_type := ox_type c; ox_data := ox_data c |}.
Definition not_persistent (c : OwnedCallout) : OwnedCallout :=
  {| oc_key := oc_key c; oc_flags := Z.land (oc_flags c) (unot 32 kCalloutPersistent); oc_layer := oc_layer c |}.

(** The third rule's draft without its hard block, as a signature. *)
Definition soft_signature : list Z :=
  let f := draftFilter third_rule oneEntry contextKey kTunnel false in
  filterSignature {| filterId := filterId f; filterKey := filterKey f; displayName := displayName f;
    flags := Z.land (flags f) (unot 32 kClearActionRight); providerKey := providerKey f; providerData := providerData f;
    layerKey := layerKey f; subLayerKey := subLayerKey f; weight := weight f; actionType := actionType f;
    calloutKey := calloutKey f; providerContextKey := providerContextKey f; filterCondition := filterCondition f |}.

Definition signed (signature : list Z) (f : OwnedFilter) : OwnedFilter :=
  {| f_id := f_id f; f_signature := signature; f_tag := f_tag f; f_path := f_path f; f_appId := f_appId f |}.

Definition change_first {A} (f : A -> A) (l : list A) : list A := match l with [] => [] | x :: l => f x :: l end.

Definition difference_checks : list (bool * Z) :=
  [(matches_set owned retainedIds kTunnel, 37);
   (negb (matches_set owned apps 0xc0000202), 15);
   (negb (matches_set owned [oneEntry] kTunnel), 16);
   (negb (matches_set (with_filters (removelast (o_filters owned))) apps kTunnel), 17);
   (negb (matches_set (with_filters (o_filters owned ++ firstn 1 (o_filters owned))) apps kTunnel), 18);
   (negb (matches_set (with_contexts (o_contexts owned ++ firstn 1 (o_contexts owned))) apps kTunnel), 19);
   (negb (matches_set (with_contexts (change_first other_key (o_contexts owned))) apps kTunnel), 20);
   (negb (matches_set (with_callouts (change_first not_persistent (o_callouts owned))) apps kTunnel), 21);
   (negb (matches_set (with_provider 0) apps kTunnel), 22);
   (negb (matches_set (with_sublayers (o_sublayers owned ++ [{| os_key := contextKey; os_flags := kSublayerPersistent; os_weight := kSublayerWeight |}])) apps kTunnel), 23);
   (negb (matches_set (with_filters (alter (signed soft_signature) 3%nat (o_filters owned))) apps kTunnel), 24);
   (negb (owned_empty owned) &&
    owned_empty {| o_provider := None; o_filters := []; o_callouts := []; o_contexts := []; o_sublayers := [] |}, 25)].

(** ** Paths and letters *)

(** A volume with the test's own directory, and nothing else. *)
Definition test_directory : list Z := str "C:\Build".
Definition selfPath : list Z := test_directory ++ str "\wfp-probe.exe".
Definition test_volume : FileSystem := {|
  get_attributes path := if bool_decide (ascii_lower path ∈ [ascii_lower test_directory; ascii_lower selfPath]) then Exists else NotFound;
  final_name path dos :=
    let long := if dos then str "\\?\C:" else str "\Device\HarddiskVolume1" in
    if bool_decide (ascii_lower path = ascii_lower test_directory) then Some (long ++ str "\Build")
    else if bool_decide (ascii_lower path = ascii_lower selfPath) then Some (long ++ str "\Build\wfp-probe.exe") else None |}.
#[local] Existing Instance test_volume.

(** The engine's identifier of the test's executable: its NT name, ASCII
    lowered. *)
Definition engineId : list Z := wide_bytes (str "\device\harddiskvolume1\build\wfp-probe.exe") ++ [0; 0].

(** [RtlDowncaseUnicodeString] on the letters of Latin-1. *)
Definition latin_lower (c : Z) : Z :=
  if ((65 <=? c) && (c <=? 90)) || ((0xc0 <=? c) && (c <=? 0xde) && negb (c =? 0xd7)) then c + 32 else c.
Definition latin_platform : Platform := {|
  resolve _ := ([], []); presentId _ := [];
  downcase := Some (fun bytes => units ← wide_units bytes; Some (wide_bytes (map latin_lower units))) |}.

Definition mixed : list Z := str "\device\x\" ++ [0xc9] ++ str " a.exe".
Definition mixedId : list Z := wide_bytes mixed ++ [0; 0].
Definition loweredId : list Z := @fullyLowered latin_platform mixedId.

Definition path_checks : list (bool * Z) :=
  [(bool_decide (derivedAppId selfPath = engineId) && bool_decide (derivedAppId (ascii_lower selfPath) = engineId), 32);
   (bool_decide (resolvePath (test_directory ++ str "\absent dir\absent.exe") true =
      Some (finalPath test_directory true ++ str "\absent dir\absent.exe")) &&
    bool_decide (resolvePath (test_directory ++ str "\absent.exe") false = Some (finalPath test_directory false ++ str "\absent.exe")), 38);
   (negb (bool_decide (loweredId = mixedId)) && (length loweredId =? length mixedId)%nat &&
    bool_decide (wide_units loweredId = Some (str "\device\x\" ++ [0xe9] ++ str " a.exe" ++ [0])) &&
    bool_decide (@fullyLowered latin_platform loweredId = loweredId), 34);
   (bool_decide (derivedAppId (str "nowhere\app.exe") = []) &&
    bool_decide (ascii_lower (str "C:\" ++ [0xc9] ++ str "X.EXE") = str "c:\" ++ [0xc9] ++ str "x.exe"), 33)].

(** ** The test *)

Definition selfTest : Z :=
  first_failure (parsing_checks ++ rules_checks ++ set_checks ++ identity_checks ++ difference_checks ++ path_checks).

Theorem wfp_self_test_passes : selfTest = 0.
Proof. by vm_compute. Qed.
