(* ===== verification/Files.v ===== *)
(** * Files: records replaced whole, and read within a bound

    Models the file operations the native programs share their state by:
    [writeAtomically], [readBytes], [publishLoaded] and [replaceTraceSession] of
    [src/src/native/dns-dispatcher-state.h], [writeTextAtomically] and [readText]
    of [wfp-probe-identity.h], [readSmallFile] and [republishProcessId] of
    [dispatcher-supervisor.h] and [readFile] of [tray-support.h].

    A disk remembers every state its files passed through: any of them is what
    another process may read, and what remains if the writer, or the machine,
    stops there.  Every answer of the system (which calls fail, how much a write
    wrote) is an argument. *)
From S2P Require Import Prelude Numbers DnsWire Identity Supervisor Inputs Wfp.

Abbreviation files := (gmap (list Z) (list Z)).

(** ** The disk *)

(** The files now, and every state since the start, in order. *)
Record disk := { current : files; seen : list files }.

Definition untouched (f : files) : disk := {| current := f; seen := [f] |}.

Definition change (f : files -> files) (d : disk) : disk :=
  {| current := f (current d); seen := seen d ++ [f (current d)] |}.

(** The answers one replacement gets: whether the temporary file is created, the
    lengths its contents pass through while they are written, how much is
    written in the end and what [WriteFile] and [FlushFileBuffers] return, the
    attempts to rename, and whether the temporary file can be deleted. *)
Record answers := {
  a_created : bool; a_partial : list nat; a_written : nat; a_reported : bool; a_flushed : bool;
  a_moves : list bool; a_deleted : bool
}.

(** [WriteFile] into the empty file [name]: its contents grow by prefixes. *)
Definition write_file (name text : list Z) (a : answers) (d : disk) : bool * disk :=
  let put n := change (<[name := firstn n text]>) in
  (a_reported a && (a_written a =? length text)%nat,
   put (a_written a) (foldl (fun d n => put n d) d (a_partial a))).

(** [MoveFileExW] with [MOVEFILE_REPLACE_EXISTING]: one step, or nothing. *)
Definition move_file (source target : list Z) (ok : bool) (d : disk) : bool * disk :=
  match ok, current d !! source with
  | true, Some text => (true, change (fun f => <[target := text]> (delete source f)) d)
  | _, _ => (false, d)
  end.

Definition delete_file (name : list Z) (ok : bool) (d : disk) : disk := if ok then change (delete name) d else d.

(** [path + L"." + std::to_wstring(GetCurrentProcessId()) + L".tmp"]. *)
Definition temporary_name (path : list Z) (pid : Z) : list Z := path ++ str "." ++ to_string pid ++ str ".tmp".

(** The renames of [writeAtomically]: at most [attempts], 50 ms apart. *)
Fixpoint move_attempts (attempts : nat) (first : bool) (source target : list Z) (moves : list bool) (slept : Z) (d : disk) : bool * Z * disk :=
  match attempts with
  | O => (false, slept, d)
  | S attempts =>
      let slept := if first then slept else slept + 50 in
      match move_file source target (List.hd false moves) d with
      | (true, d) => (true, slept, d)
      | (false, d) => move_attempts attempts false source target (List.tl moves) slept d
      end
  end.

Definition kAttempts : nat := 20.

(** [false]: an exception. *)
Definition writeAtomically (pid : Z) (path bytes : list Z) (a : answers) (d : disk) : bool * Z * disk :=
  let temporary := temporary_name path pid in
  if negb (a_created a) then (false, 0, d)
  else
    let '(ok, d) := write_file temporary bytes a (change (<[temporary := []]>) d) in
    let '(replaced, slept, d) := if ok : bool then move_attempts kAttempts true temporary path (a_moves a) 0 d else (false, 0, d) in
    if replaced : bool then (true, slept, d) else (false, slept, delete_file temporary (a_deleted a) d).

(** [writeTextAtomically]: flushed, and renamed once. *)
Definition writeTextAtomically (pid : Z) (path text : list Z) (a : answers) (d : disk) : bool * disk :=
  let temporary := temporary_name path pid in
  if negb (a_created a) then (false, d)
  else
    let '(wrote, d) := write_file temporary text a (change (<[temporary := []]>) d) in
    let '(moved, d) := if wrote && a_flushed a then move_file temporary path (List.hd false (a_moves a)) d else (false, d) in
    if moved : bool then (true, d) else (false, delete_file temporary (a_deleted a) d).

(** ** Reading *)

(** What the system answers a reader: whether the file opens, its size, and what
    [ReadFile] yields of the bytes asked for. *)
Record reading := { r_opens : bool; r_size : option Z; r_data : option (list Z) }.

Definition kReadLimit : Z := 4 * 1024 * 1024.

(** [readBytes]: [None] is an exception. *)
Definition readBytes (r : reading) : option (list Z) :=
  if negb (r_opens r) then None
  else match r_size r with
  | Some size =>
      if size <=? kReadLimit then
        if size =? 0 then Some []
        else data ← r_data r; if Z.of_nat (length data) =? size then Some data else None
      else None
  | None => None
  end.

(** [readText]: empty when it cannot be read. *)
Definition readText (r : reading) : list Z :=
  if negb (r_opens r) then []
  else match r_size r with
  | Some size =>
      if size <=? kReadLimit then
        if size =? 0 then []
        else match r_data r with
             | Some data => if Z.of_nat (length data) =? size then data else []
             | None => []
             end
      else []
  | None => []
  end.

(** [readFile] of the tray: [None] is an exception. *)
Definition readFile (limit : Z) (r : reading) : option (list Z) :=
  if negb (r_opens r) then None
  else match r_size r with
  | Some size =>
      if (size <? 0) || (limit <? size) then None
      else if size =? 0 then Some []
      else data ← r_data r; if Z.of_nat (length data) =? size then Some data else None
  | None => None
  end.

(** [readSmallFile]: at most 255 bytes. *)
Definition readSmallFile (r : reading) : list Z :=
  if negb (r_opens r) then [] else match r_data r with Some data => firstn 255 data | None => [] end.

(** The answers for a file that is not changing; [cap] bytes are asked for. *)
Definition steady (contents : option (list Z)) : reading := {|
  r_opens := match contents with Some _ => true | None => false end;
  r_size := Z.of_nat ∘ length <$> contents; r_data := contents |}.

(** ** The three published files *)

Definition loaded_inputs (root : list Z) : list Z := root ++ str "\state\dns-dispatcher-loaded-inputs.txt".
Definition loaded_identities (root : list Z) : list Z := root ++ str "\state\dns-dispatcher-loaded-identities.tsv".
Definition status_file (root : list Z) : list Z := root ++ str "\state\dns-dispatcher-status.txt".

(** [publishLoaded]: an exception ends it. *)
Definition publish_files (pid : Z) (root : list Z) (inputs : StateInputs) (generation : Z) (a b c : answers) (d : disk) : bool * disk :=
  let '(ok, _, d) := writeAtomically pid (loaded_inputs root) (inputsBytes inputs) a d in
  if negb ok then (false, d)
  else
    let '(ok, _, d) := writeAtomically pid (loaded_identities root) (identitiesBytes inputs) b d in
    if negb ok then (false, d)
    else
      let '(ok, _, d) := writeAtomically pid (status_file root) (status_text pid generation) c d in
      (ok, d).

(** [republishProcessId], with the line it logs. *)
Definition republishProcessId (path temporary : list Z) (processId : Z) (r : reading) (a : answers) (d : disk) : list (list Z) * disk :=
  match republished (readSmallFile r) processId with
  | None => ([], d)
  | Some text =>
      if negb (a_created a) then ([], d)
      else
        let '(ok, d) := write_file temporary text a (change (<[temporary := []]>) d) in
        let '(moved, d) := if ok : bool then move_file temporary path (List.hd false (a_moves a)) d else (false, d) in
        if moved : bool
        then ([str "Republished the process ID of DNS dispatcher " ++ to_string processId ++ str "."], d)
        else ([], delete_file temporary (a_deleted a) d)
  end.

(** ** What a replacement does *)

(** From [d] to [d'], and in every state between, only [names] changed. *)
Definition only (names : list (list Z)) (d d' : disk) : Prop :=
  exists new, seen d' = seen d ++ new /\ current d' = List.last new (current d) /\
    Forall (fun f : files => forall q, (q ∉ names) -> f !! q = current d !! q) new.

Lemma only_refl names d : only names d d.
Proof. exists []. by rewrite app_nil_r. Qed.

Lemma only_current names d d' q : only names d d' -> (q ∉ names) -> current d' !! q = current d !! q.
Proof.
  intros (new & _ & -> & Hall) Hq. destruct new as [|f new] using rev_ind; [done|]. rewrite last_last.
  apply list.Forall_app in Hall as [_ Hall]. apply list.Forall_cons in Hall as [Hf _]. by apply Hf.
Qed.

Lemma only_trans names d1 d2 d3 : only names d1 d2 -> only names d2 d3 -> only names d1 d3.
Proof.
  intros H12 (new' & Es' & Ec' & Hall'). pose proof (only_current names d1 d2) as Hc.
  destruct H12 as (new & Es & Ec & Hall). exists (new ++ new'). rewrite Es', Es, app_assoc. split; [done|]. split.
  - rewrite Ec', Ec. destruct new' as [|f new'] using rev_ind; [by rewrite app_nil_r|]. by rewrite app_assoc, !last_last.
  - apply list.Forall_app. split; [done|]. eapply list.Forall_impl; [exact Hall'|]. intros f Hf q Hq. cbv beta in Hf.
    rewrite Hf by done. apply Hc; [|done]. by exists new.
Qed.

Lemma only_change names f d : (forall (g : files) q, (q ∉ names) -> f g !! q = g !! q) -> only names d (change f d).
Proof. intros Hf. exists [f (current d)]. repeat split. constructor; [intros q Hq; by apply Hf|constructor]. Qed.

Lemma only_put name text d : only [name] d (change (<[name := text]>) d).
Proof. apply only_change. intros g q Hq. apply lookup_insert_ne. apply not_elem_of_cons in Hq as [Hq _]. congruence. Qed.

Lemma only_delete name ok d : only [name] d (delete_file name ok d).
Proof.
  destruct ok; [|apply only_refl]. apply only_change. intros g q Hq. apply lookup_delete_ne.
  apply not_elem_of_cons in Hq as [Hq _]. congruence.
Qed.

Lemma write_file_spec name text a d ok d' :
  write_file name text a d = (ok, d') -> only [name] d d' /\ (ok = true -> current d' !! name = Some text).
Proof.
  unfold write_file. intros [= <- <-]. split.
  - eapply only_trans; [|apply only_put]. clear. generalize d. induction (a_partial a) as [|n l IH]; intros d0; [apply only_refl|].
    eapply only_trans; [apply only_put|apply IH].
  - intros [_ Hn%Nat.eqb_eq]%andb_true_iff. simpl. rewrite lookup_insert_eq, Hn. f_equal. apply firstn_all.
Qed.

(** A replacement of [path] by [text] through [temporary]: in every state [path]
    has its former contents or, if it succeeds, exactly [text]; nothing but the
    two names changes, and in the end [path] is [text] if it succeeds and as before if
    not. *)
Record replacement (path temporary text : list Z) (ok : bool) (d d' : disk) : Prop := {
  rp_only : only [path; temporary] d d';
  rp_whole f : f ∈ seen d' -> (f ∈ seen d) \/ f !! path = current d !! path \/ (ok = true /\ f !! path = Some text);
  rp_end : current d' !! path = if ok then Some text else current d !! path
}.

Lemma only_more names names' d d' : (forall q, q ∈ names -> q ∈ names') -> only names d d' -> only names' d d'.
Proof.
  intros Hn (new & Es & Ec & Hall). exists new. split; [done|]. split; [done|].
  eapply list.Forall_impl; [exact Hall|]. intros f Hf q Hq. apply Hf. by intros ?%Hn.
Qed.

Lemma only_seen names d d' f : only names d d' -> f ∈ seen d' -> (f ∈ seen d) \/ (forall q, (q ∉ names) -> f !! q = current d !! q).
Proof.
  intros (new & -> & _ & Hall) [Hf|Hf]%elem_of_app; [by left|right]. rewrite list.Forall_forall in Hall. by apply Hall.
Qed.

Lemma replacement_kept path temporary text d d' :
  path <> temporary -> only [temporary] d d' -> replacement path temporary text false d d'.
Proof.
  intros Hne H. assert (path ∉ [temporary]) as Hp by (rewrite list_elem_of_singleton; done). split.
  - eapply only_more; [|exact H]. intros q Hq. by right.
  - intros f Hf. destruct (only_seen _ _ _ _ H Hf) as [?|Hq]; [by left|right; left; by apply Hq].
  - by apply (only_current [temporary]).
Qed.

Lemma replacement_moved path temporary text d d' ok d'' :
  path <> temporary -> only [temporary] d d' -> current d' !! temporary = Some text ->
  move_file temporary path ok d' = (true, d'') -> replacement path temporary text true d d''.
Proof.
  intros Hne H Ht Hm. unfold move_file in Hm. rewrite Ht in Hm. destruct ok; [|done]. injection Hm as <-.
  assert (path ∉ [temporary]) as Hp by (rewrite list_elem_of_singleton; done). split.
  - eapply only_trans; [eapply only_more; [|exact H]; intros q Hq; by right|]. apply only_change. intros g q Hq.
    rewrite !not_elem_of_cons in Hq. rewrite lookup_insert_ne, lookup_delete_ne by naive_solver. done.
  - intros f. cbn [change seen]. rewrite elem_of_app, list_elem_of_singleton. intros [Hf| ->].
    + destruct (only_seen _ _ _ _ H Hf) as [?|Hq]; [by left|right; left; by apply Hq].
    + right. right. split; [done|]. apply lookup_insert_eq.
  - cbn [change current]. apply lookup_insert_eq.
Qed.

Lemma move_file_refused source target ok d d' : move_file source target ok d = (false, d') -> d' = d.
Proof. unfold move_file. destruct ok, (current d !! source); by intros [= <-]. Qed.

Lemma move_attempts_spec attempts first source target moves slept d r slept' d' :
  move_attempts attempts first source target moves slept d = (r, slept', d') ->
  slept <= slept' <= slept + 50 * Z.of_nat (if first then attempts - 1 else attempts)%nat /\
  if r then exists ok, move_file source target ok d = (true, d') else d' = d.
Proof.
  revert first moves slept. induction attempts as [|attempts IH]; intros first moves slept; cbn [move_attempts].
  { intros [= <- <- <-]. destruct first; simpl; split; try done; lia. }
  destruct (move_file source target (List.hd false moves) d) as [[] d1] eqn:Em.
  - intros [= <- <- <-]. split; [destruct first; lia|eauto].
  - apply move_file_refused in Em as ->. intros H. apply IH in H as [Hs Hr]. split; [|done].
    destruct first; simpl in *; lia.
Qed.

Lemma temporary_differs path pid : path <> temporary_name path pid.
Proof.
  unfold temporary_name. intros H. apply (f_equal length) in H. rewrite !length_app in H. cbn [length str] in H.
  change (length (str ".")) with 1%nat in H. lia.
Qed.

Lemma writeAtomically_replaces pid path bytes a d ok slept d' :
  writeAtomically pid path bytes a d = (ok, slept, d') ->
  replacement path (temporary_name path pid) bytes ok d d' /\ 0 <= slept <= 950.
Proof.
  unfold writeAtomically. set (t := temporary_name path pid). pose proof (temporary_differs path pid : path <> t) as Hne.
  destruct (a_created a); cbn [negb].
  2: { intros [= <- <- <-]. split; [apply replacement_kept; [done|apply only_refl]|lia]. }
  pose proof (only_put t [] d) as H0. destruct (write_file t bytes a _) as [w d1] eqn:Ew.
  apply write_file_spec in Ew as [Hw Ht]. pose proof (only_trans _ _ _ _ H0 Hw) as H1. destruct w; cycle 1.
  { intros [= <- <- <-]. split; [|lia]. apply replacement_kept; [done|]. eapply only_trans; [exact H1|apply only_delete]. }
  destruct (move_attempts _ _ _ _ _ _ _) as [[r s] d2] eqn:Em. apply move_attempts_spec in Em as [Hs Hr].
  change (0 + 50 * Z.of_nat (kAttempts - 1)) with 950 in Hs. destruct r.
  - intros [= <- <- <-]. destruct Hr as [ok2 Hr]. split; [|lia]. eapply replacement_moved; eauto.
  - subst. intros [= <- <- <-]. split; [|lia]. apply replacement_kept; [done|]. eapply only_trans; [exact H1|apply only_delete].
Qed.

(** One write and one rename through [temporary], as [writeTextAtomically] and
    [republishProcessId] make them. *)
Lemma replaced_once path temporary text a wrote d d1 proceed moved d2 :
  path <> temporary -> write_file temporary text a (change (<[temporary := []]>) d) = (wrote, d1) ->
  (if wrote && proceed then move_file temporary path (List.hd false (a_moves a)) d1 else (false, d1)) = (moved, d2) ->
  replacement path temporary text moved d (if moved then d2 else delete_file temporary (a_deleted a) d2).
Proof.
  intros Hne Ew Em. apply write_file_spec in Ew as [Hw Ht]. pose proof (only_trans _ _ _ _ (only_put temporary [] d) Hw) as H1.
  destruct wrote; cbn [andb] in Em; [|injection Em as <- <-; apply replacement_kept; [done|eapply only_trans; [exact H1|apply only_delete]]].
  destruct proceed; [|injection Em as <- <-; apply replacement_kept; [done|eapply only_trans; [exact H1|apply only_delete]]].
  destruct moved; [eapply replacement_moved; eauto|]. apply move_file_refused in Em as ->.
  apply replacement_kept; [done|]. eapply only_trans; [exact H1|apply only_delete].
Qed.

Lemma writeTextAtomically_replaces pid path text a d ok d' :
  writeTextAtomically pid path text a d = (ok, d') -> replacement path (temporary_name path pid) text ok d d'.
Proof.
  unfold writeTextAtomically. pose proof (temporary_differs path pid) as Hne. destruct (a_created a); cbn [negb].
  2: { intros [= <- <-]. apply replacement_kept; [done|apply only_refl]. }
  destruct (write_file _ _ _ _) as [w d1] eqn:Ew. destruct (if w && a_flushed a then _ else _) as [m d2] eqn:Em.
  pose proof (replaced_once _ _ _ _ _ _ _ _ _ _ Hne Ew Em) as H. destruct m; by intros [= <- <-].
Qed.

Lemma republishProcessId_replaces path temporary processId r a d lines d' :
  path <> temporary -> republishProcessId path temporary processId r a d = (lines, d') ->
  (lines = [] /\ d' = d /\ readSmallFile r = to_string processId) \/
  replacement path temporary (to_string processId) (bool_decide (lines <> [])) d d'.
Proof.
  intros Hne. unfold republishProcessId, republished. case_bool_decide as Hr; [intros [= <- <-]; by left|].
  destruct (a_created a); cbn [negb].
  2: { intros [= <- <-]. right. apply replacement_kept; [done|apply only_refl]. }
  destruct (write_file _ _ _ _) as [w d1] eqn:Ew. destruct (if w then _ else _) as [m d2] eqn:Em.
  assert ((if w && true then move_file temporary path (List.hd false (a_moves a)) d1 else (false, d1)) = (m, d2)) as Em'
    by (by rewrite andb_true_r).
  pose proof (replaced_once _ _ _ _ _ _ _ true _ _ Hne Ew Em') as H. destruct m; intros [= <- <-]; by right.
Qed.

(** ** Publication in order *)

Lemma rooted_differ (root a b : list Z) : a <> b -> root ++ a <> root ++ b.
Proof. intros H E. by apply app_inv_head in E. Qed.

Ltac names_differ :=
  unfold temporary_name, loaded_inputs, loaded_identities, status_file; rewrite <- ?app_assoc; apply rooted_differ; discriminate.

(** The files a publication writes do not meet: neither each other nor the
    temporary names. *)
Lemma published_names root pid :
  let t p := temporary_name p pid in
  let i := loaded_inputs root in let n := loaded_identities root in let s := status_file root in
  (n ∉ [i; t i]) /\ (s ∉ [i; t i]) /\ (i ∉ [n; t n]) /\ (s ∉ [n; t n]) /\ (i ∉ [s; t s]) /\ (n ∉ [s; t s]).
Proof.
  intros t i n s. subst t i n s. cbv beta. rewrite !not_elem_of_cons. repeat split; try apply not_elem_of_nil; names_differ.
Qed.

(** What the three files hold. *)
Definition published (root : list Z) (f : files) : option (list Z) * option (list Z) * option (list Z) :=
  (f !! loaded_inputs root, f !! loaded_identities root, f !! status_file root).

(** The order of a publication: the state of the three files after its first
    [n] replacements. *)
Definition stage (root : list Z) (pid : Z) (inputs : StateInputs) (generation : Z) (f : files) (n : nat) :
    option (list Z) * option (list Z) * option (list Z) :=
  (if (1 <=? n)%nat then Some (inputsBytes inputs) else f !! loaded_inputs root,
   if (2 <=? n)%nat then Some (identitiesBytes inputs) else f !! loaded_identities root,
   if (3 <=? n)%nat then Some (status_text pid generation) else f !! status_file root).

(** The first [n] replacements are done, and no state went further. *)
Record progress (root : list Z) (pid : Z) (inputs : StateInputs) (generation : Z) (f0 : files) (n : nat) (d : disk) : Prop := {
  pr_now : published root (current d) = stage root pid inputs generation f0 n;
  pr_seen f : f ∈ seen d -> exists m, (m <= n)%nat /\ published root f = stage root pid inputs generation f0 m
}.

(** The next replacement, if it succeeds, is one step. *)
Lemma progress_step root pid inputs generation f0 n path text ok d d' :
  replacement path (temporary_name path pid) text ok d d' -> progress root pid inputs generation f0 n d ->
  (path, text) = nth n [(loaded_inputs root, inputsBytes inputs); (loaded_identities root, identitiesBytes inputs);
                        (status_file root, status_text pid generation)] (path, text) -> (n < 3)%nat ->
  progress root pid inputs generation f0 (if ok then S n else n) d'.
Proof.
  intros [Honly Hwhole Hend] [Hd Hseen] Hn Hlt. destruct (published_names root pid) as (N1 & N2 & N3 & N4 & N5 & N6).
  assert (forall f, (forall q, (q ∉ [path; temporary_name path pid]) -> f !! q = current d !! q) ->
          (f !! path = current d !! path -> published root f = stage root pid inputs generation f0 n) /\
          (f !! path = Some text -> published root f = stage root pid inputs generation f0 (S n))) as Hf.
  { intros f Hq. unfold published, stage in *.
    destruct n as [|[|[|n]]]; [| | |lia]; simpl in Hn; injection Hn as -> ->; cbn [Nat.leb] in *; injection Hd as E1 E2 E3;
      [rewrite (Hq (loaded_identities root)), (Hq (status_file root)) by done
      |rewrite (Hq (loaded_inputs root)), (Hq (status_file root)) by done
      |rewrite (Hq (loaded_inputs root)), (Hq (loaded_identities root)) by done]; split; intros ->; congruence. }
  split.
  - destruct (Hf (current d')) as [H1 H2]; [intros q; by apply only_current|]. destruct ok; [by apply H2|by apply H1].
  - intros f Hin. destruct (Hwhole f Hin) as [Ho|Hp].
    { destruct (Hseen f Ho) as (m & Hm & E). exists m. split; [destruct ok; lia|done]. }
    destruct (only_seen _ _ _ f Honly Hin) as [Ho|Hq].
    { destruct (Hseen f Ho) as (m & Hm & E). exists m. split; [destruct ok; lia|done]. }
    destruct Hp as [Hp|[-> Hp]]; [exists n|exists (S n)]; (split; [try destruct ok; lia|by apply (Hf f Hq)]).
Qed.

Lemma publish_files_progress pid root inputs generation a b c f0 ok d' :
  publish_files pid root inputs generation a b c (untouched f0) = (ok, d') ->
  exists n, (n <= 3)%nat /\ ok = (n =? 3)%nat /\ progress root pid inputs generation f0 n d'.
Proof.
  unfold publish_files. intros H. assert (progress root pid inputs generation f0 0 (untouched f0)) as P0.
  { split; [done|]. intros f Hf. apply list_elem_of_singleton in Hf as ->. by exists 0%nat. }
  destruct (writeAtomically pid (loaded_inputs root) _ a _) as [[ok1 s1] d1] eqn:E1. apply writeAtomically_replaces in E1 as [E1 _].
  apply (progress_step _ _ _ _ _ _ _ _ _ _ _ E1) in P0 as P1; [|done|lia]. destruct ok1; cbn [negb] in H.
  2: { injection H as <- <-. exists 0%nat. split; [lia|done]. }
  destruct (writeAtomically pid (loaded_identities root) _ b _) as [[ok2 s2] d2] eqn:E2. apply writeAtomically_replaces in E2 as [E2 _].
  apply (progress_step _ _ _ _ _ _ _ _ _ _ _ E2) in P1 as P2; [|done|lia]. destruct ok2; cbn [negb] in H.
  2: { injection H as <- <-. exists 1%nat. split; [lia|done]. }
  destruct (writeAtomically pid (status_file root) _ c _) as [[ok3 s3] d3] eqn:E3. apply writeAtomically_replaces in E3 as [E3 _].
  apply (progress_step _ _ _ _ _ _ _ _ _ _ _ E3) in P2 as P3; [|done|lia]. injection H as <- <-.
  exists (if ok3 then 3 else 2)%nat. split; [destruct ok3; lia|]. by destruct ok3.
Qed.

(** C23: a publication is never seen half done.  Whatever calls fail, and at
    whatever point the dispatcher stops, the three published files are, for every
    reader, those before the publication or with the first one, two or three
    replaced, each replaced whole: a status that is new comes with the inputs and
    the identities it announces.  A publication that returns has replaced all
    three, and what it leaves is what the loaded state's own model
    ([Inputs.publishLoaded]) says for the writes that succeeded. *)
Theorem publication_ordered pid root inputs generation a b c f0 ok d' :
  publish_files pid root inputs generation a b c (untouched f0) = (ok, d') ->
  (forall f, f ∈ seen d' ->
     (exists n, (n <= 3)%nat /\ published root f = stage root pid inputs generation f0 n) /\
     (f !! status_file root = Some (status_text pid generation) -> f0 !! status_file root <> Some (status_text pid generation) ->
      f !! loaded_inputs root = Some (inputsBytes inputs) /\ f !! loaded_identities root = Some (identitiesBytes inputs))) /\
  (forall d : loaded, published root f0 = (f_inputs d, f_identities d, f_status d) ->
     exists w, ok = w_inputs w && w_identities w && w_status w /\
       published root (current d') =
         (f_inputs (publishLoaded pid inputs generation w d), f_identities (publishLoaded pid inputs generation w d),
          f_status (publishLoaded pid inputs generation w d))).
Proof.
  intros H. apply publish_files_progress in H as (n & Hn & -> & [Hnow Hseen]). split.
  - intros f (m & Hm & Hp)%Hseen. split; [exists m; split; [lia|done]|]. intros Hs Hs0. unfold published, stage in Hp.
    destruct m as [|[|[|m]]]; [..|injection Hp as -> -> _; done]; cbn [Nat.leb] in Hp; injection Hp as _ _ Es; congruence.
  - intros d Hd. exists {| w_inputs := (1 <=? n)%nat; w_identities := (2 <=? n)%nat; w_status := (3 <=? n)%nat |}.
    unfold publishLoaded. cbn [w_inputs w_identities w_status f_inputs f_identities f_status]. rewrite Hnow. injection Hd as D1 D2 D3.
    destruct n as [|[|[|[|n]]]]; [..|lia]; (split; [done|]); unfold stage; cbn [Nat.leb andb]; congruence.
Qed.

(** The second write fails after half its bytes, in the middle of a
    publication. *)
Definition demo_published : StateInputs := {|
  inputsBytes := str "inputs"; identitiesBytes := str "identities";
  i_routes := {| Dispatch.directSource := 1; Dispatch.directDns := [2]; Dispatch.tunnelSource := 3; Dispatch.tunnelDns := 4 |};
  i_included := ∅ |}.
Definition all_well : answers := {| a_created := true; a_partial := [0; 2]%nat; a_written := 6; a_reported := true; a_flushed := true;
  a_moves := [false; true]; a_deleted := true |}.
Definition half_written : answers := {| a_created := true; a_partial := []; a_written := 5; a_reported := true; a_flushed := true;
  a_moves := [true]; a_deleted := false |}.
Definition demo_root : list Z := str "C:\P".
Definition demo_before : files := {[status_file demo_root := status_text 7 1]}.

Lemma publication_ordered_witness :
  let result := publish_files 7 demo_root demo_published 2 all_well half_written all_well (untouched demo_before) in
  fst result = false /\
  published demo_root (current (snd result)) = (Some (str "inputs"), None, Some (status_text 7 1)) /\
  forall f, f ∈ seen (snd result) -> exists n, (n <= 3)%nat /\ published demo_root f = stage demo_root 7 demo_published 2 demo_before n.
Proof.
  intros result. split; [vm_compute; reflexivity|]. split; [vm_compute; reflexivity|].
  destruct (publication_ordered 7 demo_root demo_published 2 all_well half_written all_well demo_before (fst result) (snd result)) as [H _];
    [apply surjective_pairing|]. intros f Hf. by apply H.
Defined.

(** ** Reading what was written *)

(** A reader gets the whole contents or nothing, within its bound: what
    [readBytes], [readText] and the tray's [readFile] return is exactly what the
    system read of a file of that size, at most four mebibytes (or the given
    limit), and a file that is not changing is read exactly; [readSmallFile]
    reads at most 255 bytes of it. *)
Theorem bounded_reads (limit : Z) (r : reading) :
  0 <= limit ->
  (forall bytes, readBytes r = Some bytes -> Z.of_nat (length bytes) <= kReadLimit /\ r_size r = Some (Z.of_nat (length bytes))) /\
  Z.of_nat (length (readText r)) <= kReadLimit /\
  (forall bytes, readFile limit r = Some bytes -> Z.of_nat (length bytes) <= limit /\ r_size r = Some (Z.of_nat (length bytes))) /\
  (length (readSmallFile r) <= 255)%nat /\
  (forall contents, r = steady (Some contents) ->
     (Z.of_nat (length contents) <= kReadLimit -> readBytes r = Some contents /\ readText r = contents) /\
     (Z.of_nat (length contents) <= limit -> readFile limit r = Some contents) /\
     readSmallFile r = firstn 255 contents).
Proof.
  intros Hl. split; [|split; [|split; [|split]]].
  - intros bytes. unfold readBytes. destruct (r_opens r), (r_size r) as [size|]; cbn [negb]; try done.
    destruct (Z.leb_spec size kReadLimit); [|done]. destruct (Z.eqb_spec size 0) as [->|]; [by intros [= <-]|].
    destruct (r_data r) as [data|]; simpl; [|done]. destruct (Z.eqb_spec (Z.of_nat (length data)) size) as [<-|]; [by intros [= <-]|done].
  - unfold readText. destruct (r_opens r), (r_size r) as [size|]; cbn [negb]; try done.
    destruct (Z.leb_spec size kReadLimit); [|done]. destruct (size =? 0); [done|].
    destruct (r_data r) as [data|]; [|done]. destruct (Z.eqb_spec (Z.of_nat (length data)) size); [lia|done].
  - intros bytes. unfold readFile. destruct (r_opens r), (r_size r) as [size|]; cbn [negb]; try done.
    destruct (Z.ltb_spec size 0), (Z.ltb_spec limit size); cbn [orb]; try done. destruct (Z.eqb_spec size 0) as [->|]; [by intros [= <-]|].
    destruct (r_data r) as [data|]; simpl; [|done]. destruct (Z.eqb_spec (Z.of_nat (length data)) size) as [<-|]; [by intros [= <-]|done].
  - unfold readSmallFile. destruct (r_opens r), (r_data r) as [data|]; cbn [negb]; try (simpl; lia). rewrite length_firstn. lia.
  - intros contents ->. unfold readBytes, readText, readFile, readSmallFile, steady. cbn [r_opens r_size r_data negb fmap option_fmap option_map compose].
    assert (forall (A : Type) (x y : A), (if Z.of_nat (length contents) =? 0 then x else y) = match contents with [] => x | _ => y end) as Hz
      by (intros; by destruct contents).
    split; [|split; [|done]].
    + intros Hc. rewrite (proj2 (Z.leb_le _ _)) by done. rewrite !Hz. simpl. rewrite Z.eqb_refl. by destruct contents.
    + intros Hc. destruct (Z.ltb_spec (Z.of_nat (length contents)) 0), (Z.ltb_spec limit (Z.of_nat (length contents))); try lia. cbn [orb].
      rewrite Hz. simpl. rewrite Z.eqb_refl. by destruct contents.
Qed.

Lemma bounded_reads_witness :
  0 <= 10 /\ readBytes (steady (Some (str "record"))) = Some (str "record") /\ readFile 3 (steady (Some (str "record"))) = None.
Proof.
  split; [lia|]. destruct (bounded_reads 10 (steady (Some (str "record")))) as (_ & _ & _ & _ & H); [lia|].
  split; [|reflexivity]. apply (H (str "record")); [done|]. vm_compute. discriminate.
Defined.

(** ** The trace session's name *)

Section Session.
Context {U : Utf8} {US : Utf8Spec U}.

Definition kPrefix : list Z := str "WireGuardProgramSplitDnsEtw-".

Definition session_file (root : list Z) : list Z := root ++ str "\state\dns-etw-session.txt".

(** [swprintf] of the process identifier, the counter and the tick count. *)
Definition session_name (pid counter tick : Z) : list Z :=
  kPrefix ++ hex_digits 8 (u32 pid) ++ hex_digits 16 (u64 counter) ++ hex_digits 8 (Z.land tick 0xffffffff).

(** The session a state file names, if it is one of these. *)
Definition named_session (bytes : list Z) : option (list Z) :=
  text ← wideText bytes;
  let previous := trim text in
  if starts_with kPrefix previous && (length previous =? length kPrefix + 32)%nat then Some previous else None.

(** The session to stop, the new name ([None] is an exception) and the disk. *)
Definition replaceTraceSession (pid counter tick : Z) (root : list Z) (r : reading) (a : answers) (d : disk) :
    option (list Z) * option (list Z) * disk :=
  let stopped := readBytes r ≫= named_session in
  let name := session_name pid counter tick in
  let '(ok, _, d) := writeAtomically pid (session_file root) name a d in
  (stopped, if ok : bool then Some name else None, d).

(** *** A name is recognised again *)

Lemma wide_ascii_text text : Forall (fun c => 0 <= c < 128) text -> wide text = text.
Proof.
  destruct valid_nil as [Hv Hu]. intros H. rewrite <- (app_nil_r text) at 1. rewrite wide_ascii by done.
  assert (wide [] = []) as -> by (rewrite <- Hu at 1; by apply wide_utf8). apply app_nil_r.
Qed.

Lemma wellformed_ascii_text text : text <> [] -> Forall (fun c => 0 <= c < 128) text -> wellformed text = true.
Proof.
  intros Hne H. induction H as [|c text Hc Ht IH]; [done|]. destruct text as [|c' text]; [by apply wellformed_ascii|].
  apply (wellformed_app [c]); [by apply wellformed_ascii|by apply IH].
Qed.

Definition plain_char (c : Z) : bool := (33 <=? c) && (c <? 127).

Lemma hex_plain w n : forallb plain_char (hex_digits w n) = true.
Proof.
  apply forallb_forall. intros c Hc%list_elem_of_In%hex_digits_chars.
  assert (forallb plain_char (str "0123456789abcdef") = true) as H by (vm_compute; reflexivity).
  rewrite forallb_forall in H. by apply H, list_elem_of_In.
Qed.

Lemma session_name_plain pid counter tick : forallb plain_char (session_name pid counter tick) = true.
Proof. unfold session_name. rewrite !forallb_app, !hex_plain. vm_compute. reflexivity. Qed.

Lemma session_name_length pid counter tick : length (session_name pid counter tick) = (length kPrefix + 32)%nat.
Proof. unfold session_name. rewrite !length_app, !hex_digits_length. lia. Qed.

Lemma session_recognised pid counter tick : named_session (session_name pid counter tick) = Some (session_name pid counter tick).
Proof.
  pose proof (session_name_plain pid counter tick) as Hp. pose proof (session_name_length pid counter tick) as Hl.
  assert (starts_with kPrefix (session_name pid counter tick) = true) as Hs.
  { unfold starts_with, session_name. apply bool_decide_true. apply take_app_length. }
  set (name := session_name pid counter tick) in *. rewrite forallb_forall in Hp.
  assert (Forall (fun c => 0 <= c < 128) name) as Ha.
  { apply list.Forall_forall. intros c Hc%list_elem_of_In%Hp. unfold plain_char in Hc. bool_to_prop. lia. }
  assert (name <> []) as Hne by (intros E; rewrite E in Hl; discriminate Hl).
  unfold named_session, wideText. rewrite bool_decide_false, wellformed_ascii_text by done. simpl. rewrite wide_ascii_text by done.
  rewrite trim_none, Hs, Hl, Nat.eqb_refl; [done|]. apply list.Forall_forall. intros c Hc%list_elem_of_In%Hp.
  unfold plain_char in Hc. bool_to_prop. unfold is_blank. destruct (Z.eqb_spec c 32), (Z.eqb_spec c 9), (Z.eqb_spec c 13); lia || done.
Qed.

(** *** Launches *)

(** The files and the trace sessions that run. *)
Record tracing := { t_files : files; t_sessions : gset (list Z) }.

Definition stop_session (stopped : option (list Z)) (s : gset (list Z)) : gset (list Z) :=
  match stopped with Some name => s ∖ {[name]} | None => s end.

(** One launch reads the state file, stops the session it names and writes its
    own; it may fail, or end at any state of the disk, or start its session.  A
    dispatcher that stops in order ends its session, and other files change. *)
Inductive launches (root : list Z) : tracing -> tracing -> Prop :=
| Launched pid counter tick a s stopped name d (started : bool) :
    replaceTraceSession pid counter tick root (steady (t_files s !! session_file root)) a (untouched (t_files s)) = (stopped, Some name, d) ->
    launches root s {| t_files := current d; t_sessions := (if started then {[name]} else ∅) ∪ stop_session stopped (t_sessions s) |}
| Died pid counter tick a s stopped result d f :
    replaceTraceSession pid counter tick root (steady (t_files s !! session_file root)) a (untouched (t_files s)) = (stopped, result, d) ->
    f ∈ seen d -> launches root s {| t_files := f; t_sessions := stop_session stopped (t_sessions s) |}
| Ended s name : launches root s {| t_files := t_files s; t_sessions := t_sessions s ∖ {[name]} |}
| Elsewhere s f : f !! session_file root = t_files s !! session_file root ->
    launches root s {| t_files := f; t_sessions := t_sessions s |}.

(** The state file names the only session that may run. *)
Definition accounted (root : list Z) (s : tracing) : Prop :=
  forall name, name ∈ t_sessions s -> exists pid counter tick,
    name = session_name pid counter tick /\ t_files s !! session_file root = Some name.

Lemma steady_session_read root s name pid counter tick :
  name = session_name pid counter tick -> t_files s !! session_file root = Some name ->
  readBytes (steady (t_files s !! session_file root)) ≫= named_session = Some name.
Proof.
  intros Hn ->. unfold readBytes, steady. cbn [r_opens r_size r_data negb fmap option_fmap option_map compose].
  assert (length name = 60%nat) as -> by (by rewrite Hn, session_name_length).
  change (Z.of_nat 60 <=? kReadLimit) with true. change (Z.of_nat 60 =? 0) with false. cbn [mbind option_bind].
  rewrite Hn, session_name_length. change (Z.of_nat (length kPrefix + 32) =? Z.of_nat 60) with true. apply session_recognised.
Qed.

(** What the launch reads is stopped, so nothing is left running. *)
Lemma launch_stops root s pid counter tick a stopped result d :
  accounted root s ->
  replaceTraceSession pid counter tick root (steady (t_files s !! session_file root)) a (untouched (t_files s)) = (stopped, result, d) ->
  stop_session stopped (t_sessions s) = ∅ /\ (forall name, result = Some name -> name = session_name pid counter tick /\
    current d !! session_file root = Some name).
Proof.
  intros Ha H. unfold replaceTraceSession in H. destruct (writeAtomically _ _ _ _ _) as [[ok slept] d'] eqn:Ew.
  apply writeAtomically_replaces in Ew as [[_ _ Hend] _]. injection H as <- <- <-. split.
  - apply set_eq. intros name. split; [|by intros ?%elem_of_empty]. unfold stop_session. intros Hn.
    assert (name ∈ t_sessions s) as Hin by (destruct (_ ≫= _); [by apply elem_of_difference in Hn as [? _]|done]).
    destruct (Ha name Hin) as (p & c & t & En & Ef). rewrite (steady_session_read root s name p c t En Ef) in Hn.
    apply elem_of_difference in Hn as [_ Hn]. by rewrite elem_of_singleton in Hn.
  - intros name Hr. destruct ok; [|done]. injection Hr as <-. split; done.
Qed.

Lemma accounted_step root s s' : accounted root s -> launches root s s' -> accounted root s'.
Proof.
  intros Ha H. destruct H as [pid counter tick a s stopped name d started H|pid counter tick a s stopped result d f H Hf|s name|s f Hf].
  - destruct (launch_stops root s _ _ _ _ _ _ _ Ha H) as [-> Hr]. destruct (Hr name eq_refl) as [En Ef].
    intros name' Hin. cbn [t_sessions t_files] in *. rewrite right_id_L in Hin by apply _.
    destruct started; [apply elem_of_singleton in Hin as ->|by apply elem_of_empty in Hin]. eauto.
  - destruct (launch_stops root s _ _ _ _ _ _ _ Ha H) as [Hs _]. intros name Hin. cbn [t_sessions] in Hin. rewrite Hs in Hin.
    by apply elem_of_empty in Hin.
  - intros name' [Hin _]%elem_of_difference. by apply Ha.
  - intros name Hin. cbn [t_files]. rewrite Hf. by apply Ha.
Qed.

End Session.

(** A dispatcher that died with its session running, and the next launch. *)
Definition demo_name : list Z := session_name 7 1000 5000.
Definition sixty : answers := {| a_created := true; a_partial := [3]%nat; a_written := 60; a_reported := true; a_flushed := true;
  a_moves := [true]; a_deleted := true |}.
Definition demo_launch : option (list Z) * option (list Z) * disk :=
  @replaceTraceSession Identity.demo_utf8 7 1000 5000 demo_root (steady None) sixty (untouched ∅).
Definition demo_tracing : tracing := {| t_files := current demo_launch.2; t_sessions := {[demo_name]} ∪ stop_session None ∅ |}.

Lemma demo_launched : @launches Identity.demo_utf8 demo_root {| t_files := ∅; t_sessions := ∅ |} demo_tracing.
Proof.
  apply (Launched demo_root 7 1000 5000 sixty {| t_files := ∅; t_sessions := ∅ |} None demo_name demo_launch.2 true).
  assert (demo_launch.1 = (None, Some demo_name)) as <- by (vm_compute; reflexivity). apply surjective_pairing.
Qed.

