(* ===== verification/Service.v ===== *)
(** * Service: the controller's service host

    Models [src/src/native/controller-service.cpp] apart from the runner
    ([Runner]), the dispatcher supervisor ([Supervisor]) and the quoting of the
    command line ([Commands]): what the host reports to the service manager,
    why it stops and what it writes about it, the launch of the controller, and
    the life of [serviceMain] from registration to the last handle it closes.
    What Windows answers is the class [Os]; what the host does to the outside
    world is a trace of [effect]s in the order it does them.  [LogPipe] models
    the pump of [src/src/native/log-pipe.h]. *)
From S2P Require Import Prelude Numbers Commands.

Definition kStopTimeoutMilliseconds : Z := 240000.
Definition kShutdownGraceMilliseconds : Z := 2000.

(** The service states, controls and error codes of [winsvc.h]/[winerror.h]. *)
Definition SERVICE_STOPPED : Z := 1.
Definition SERVICE_START_PENDING : Z := 2.
Definition SERVICE_STOP_PENDING : Z := 3.
Definition SERVICE_RUNNING : Z := 4.
Definition SERVICE_ACCEPT_STOP : Z := 1.
Definition SERVICE_ACCEPT_SHUTDOWN : Z := 4.
Definition SERVICE_ACCEPT_PRESHUTDOWN : Z := 256.
Definition SERVICE_CONTROL_STOP : Z := 1.
Definition SERVICE_CONTROL_INTERROGATE : Z := 4.
Definition SERVICE_CONTROL_SHUTDOWN : Z := 5.
Definition SERVICE_CONTROL_PRESHUTDOWN : Z := 15.
Definition NO_ERROR : Z := 0.
Definition ERROR_CALL_NOT_IMPLEMENTED : Z := 120.
Definition STILL_ACTIVE : Z := 259.
Definition ERROR_SERVICE_SPECIFIC_ERROR : Z := 1066.
Definition ERROR_PROCESS_ABORTED : Z := 1067.
Definition ERROR_TIMEOUT : Z := 1460.

Definition acceptedControls (state : Z) : Z :=
  if state =? SERVICE_RUNNING
  then Z.lor (Z.lor SERVICE_ACCEPT_STOP SERVICE_ACCEPT_SHUTDOWN) SERVICE_ACCEPT_PRESHUTDOWN
  else 0.

Definition isShutdownControl (control : Z) : bool :=
  (control =? SERVICE_CONTROL_SHUTDOWN) || (control =? SERVICE_CONTROL_PRESHUTDOWN).

Inductive StopPath :=
  ShutdownControl | ChildEndedByShutdown | ChildExited | ServiceStop | ServiceStopFailed | ServiceStopForced.

Definition describeStop (path : StopPath) (code : Z) : list Z :=
  match path with
  | ShutdownControl => str "stopped cleanly for system shutdown (shutdown control received); stack left for boot-time adoption"
  | ChildEndedByShutdown => str "stopped cleanly for system shutdown (controller ended first with code " ++ to_string code ++ str ")"
  | ChildExited => str "controller exited unexpectedly with code " ++ to_string code ++ str "; reporting failure so SCM restarts it"
  | ServiceStop => str "service stop completed with clean stack cleanup"
  | ServiceStopFailed => str "service stop failed with code " ++ to_string code
  | ServiceStopForced => str "service stop forced after the cleanup window expired"
  end.

(** ** The host log's lines *)

(** [%02u] and [%04u]. *)
Definition padded (width : nat) (n : Z) : list Z :=
  replicate (width - length (to_string n)) 48 ++ to_string n.

Record local_time := {
  wYear : Z; wMonth : Z; wDay : Z; wHour : Z; wMinute : Z; wSecond : Z
}.

Inductive zone_mode := ZoneUnknown | ZoneStandard | ZoneDaylight.
Record time_zone := { Bias : Z; StandardBias : Z; DaylightBias : Z }.

(** Minutes east of UTC. *)
Definition east_of (mode : zone_mode) (zone : time_zone) : Z :=
  - (Bias zone + match mode with ZoneDaylight => DaylightBias zone | ZoneStandard => StandardBias zone | ZoneUnknown => 0 end).

Definition time_stamp (now : local_time) (east : Z) : list Z :=
  padded 4 (wYear now) ++ str "-" ++ padded 2 (wMonth now) ++ str "-" ++ padded 2 (wDay now) ++ str "T" ++
  padded 2 (wHour now) ++ str ":" ++ padded 2 (wMinute now) ++ str ":" ++ padded 2 (wSecond now) ++
  (if east <? 0 then str "-" else str "+") ++ padded 2 (Z.abs east / 60) ++ str ":" ++ padded 2 (Z.abs east mod 60).

Definition host_line (now : local_time) (east : Z) (message : list Z) : list Z :=
  time_stamp now east ++ str " controller-service: " ++ message ++ [13; 10].

(** ** What the host does *)

(** [SERVICE_STATUS]; the service type never changes. *)
Record status := {
  dwCurrentState : Z; dwControlsAccepted : Z; dwWin32ExitCode : Z;
  dwServiceSpecificExitCode : Z; dwCheckPoint : Z; dwWaitHint : Z
}.

Inductive handle := StopEvent | ShutdownEvent | Job | NullInput | Process | Thread | SupervisorStop | Pipe.

Inductive effect :=
| SetServiceStatus (s : status)
| HostLog (line : list Z)
| Opened (h : handle)
| Closed (h : handle)
| Launched (application command : list Z)
| TerminatedProcess
| TerminatedJob
| SupervisorStarted
| SupervisorJoined
| ServiceMainDone.

#[global] Instance handle_eq_dec : EqDecision handle.
Proof. solve_decision. Defined.

(** [gStatus]'s check point and what has been done so far. *)
Record host := { checkpoint : Z; done_so_far : list effect }.

Definition emit (e : effect) (h : host) : host :=
  {| checkpoint := checkpoint h; done_so_far := done_so_far h ++ [e] |}.

Definition reportStatus (state win32ExitCode serviceExitCode waitHint : Z) (h : host) : host :=
  let point := if (state =? SERVICE_START_PENDING) || (state =? SERVICE_STOP_PENDING) then u32 (checkpoint h + 1) else 0 in
  {| checkpoint := point;
     done_so_far := done_so_far h ++ [SetServiceStatus {|
       dwCurrentState := state; dwControlsAccepted := acceptedControls state; dwWin32ExitCode := win32ExitCode;
       dwServiceSpecificExitCode := serviceExitCode; dwCheckPoint := point; dwWaitHint := waitHint |}] |}.

Record ExitReport := { win32ExitCode : Z; serviceExitCode : Z }.

Definition unrequestedExitReport (duringShutdown : bool) (childExitCode : Z) : ExitReport :=
  if duringShutdown then {| win32ExitCode := NO_ERROR; serviceExitCode := 0 |}
  else {| win32ExitCode := ERROR_SERVICE_SPECIFIC_ERROR; serviceExitCode := if childExitCode =? 0 then 1 else childExitCode |}.

(** The two events the control handler may set: absent, or present and
    signalled or not. *)
Record signals := { gStopEvent : option bool; gShutdownEvent : option bool }.

Definition controlHandler (control : Z) (s : signals) : Z * signals :=
  if control =? SERVICE_CONTROL_INTERROGATE then (NO_ERROR, s)
  else if isShutdownControl control then
    (NO_ERROR, {| gStopEvent := gStopEvent s; gShutdownEvent := (fun _ => true) <$> gShutdownEvent s |})
  else if negb (control =? SERVICE_CONTROL_STOP) then (ERROR_CALL_NOT_IMPLEMENTED, s)
  else (NO_ERROR, {| gStopEvent := (fun _ => true) <$> gStopEvent s; gShutdownEvent := gShutdownEvent s |}).

(** ** What Windows answers *)

Class Os := {
  register_handler : bool;
  stop_event_error : option Z;        (* [None]: the event was created *)
  shutdown_event_error : option Z;
  job_created : bool;
  limits_set : bool;
  pipe_created : bool;                (* the log pipe, with its pump *)
  directories_made : bool;
  null_opened : bool;
  null_inheritable : bool;
  system_directory : option (list Z); (* [GetSystemDirectoryW], when it fits *)
  process_created : bool;
  process_assigned : bool;
  thread_resumed : bool;
  launch_error : Z;                   (* [GetLastError] after a failed launch *)
  stop_event_value : Z;               (* the numeric value of the stop event's handle *)
  supervisor_event : bool;
  first_wait : Z;                     (* which of stop, child, shutdown was signalled first *)
  start_tick : Z;                     (* [GetTickCount64] when the stop begins *)
  child_timed_out : nat -> bool;      (* the [i]-th wait of a second for the child *)
  check_tick : nat -> Z;              (* the clock read in the [i]-th loop condition *)
  now_tick : nat -> Z;                (* and in the [i]-th loop body *)
  child_alive : bool;                 (* after the window *)
  terminate_error : option Z;         (* [None]: the job was terminated *)
  child_ended : bool;                 (* within the last five seconds *)
  exit_code : Z + Z;                  (* [inl]: the child's exit code; [inr]: the error that hid it *)
  shutting_down : bool;               (* [GetSystemMetrics(SM_SHUTTINGDOWN)] *)
  shutdown_in_grace : bool;           (* the shutdown event within the grace period *)
  time_now : local_time;
  zone_now : zone_mode * time_zone
}.

Section Host.
Context {os : Os} (gControllerScript : list Z).

Definition appendHostLog (message : list Z) : host -> host :=
  emit (HostLog (host_line time_now (east_of (fst zone_now) (snd zone_now)) message)).

(** [path / name]. *)
Definition path_join (directory name : list Z) : list Z :=
  if List.last directory 0 =? 92 then directory ++ name else directory ++ [92] ++ name.

Definition powerShellPath : list Z :=
  match system_directory with
  | None => []
  | Some directory => path_join (path_join (path_join directory (str "WindowsPowerShell")) (str "v1.0")) (str "powershell.exe")
  end.

Definition launchController (h : host) : bool * host :=
  if negb directories_made then (false, h)
  else if negb pipe_created then (false, h)
  else if negb null_opened then (false, h)
  else
    let h := emit (Opened NullInput) h in
    if negb null_inheritable then (false, emit (Closed NullInput) h)
    else
      let powerShell := powerShellPath in
      if bool_decide (powerShell = []) then (false, emit (Closed NullInput) h)
      else
        let command := controller_command powerShell gControllerScript stop_event_value in
        if negb process_created then (false, emit (Closed NullInput) h)
        else
          let h := emit (Closed NullInput) (emit (Opened Thread) (emit (Opened Process) (emit (Launched powerShell command) h))) in
          if negb process_assigned || negb thread_resumed then
            (false, emit (Closed Process) (emit (Closed Thread) (emit TerminatedProcess h)))
          else (true, emit (Closed Thread) h).

Definition systemShuttingDown : bool := if shutting_down then true else shutdown_in_grace.

(** The wait for a child that was asked to stop; [None] when the fuel runs out. *)
Fixpoint stop_wait (fuel i : nat) (deadline : Z) (h : host) : option host :=
  match fuel with
  | O => None
  | S fuel =>
      if child_timed_out i && (check_tick i <? deadline) then
        let now := now_tick i in
        let remaining := if deadline <=? now then 0 else u32 (deadline - now) in
        stop_wait fuel (S i) deadline (reportStatus SERVICE_STOP_PENDING NO_ERROR 0 remaining h)
      else Some h
  end.

Definition stop_fuel : nat := S (Z.to_nat kStopTimeoutMilliseconds).

(** What stopping ended in: forced or not, and the failure it reports. *)
Definition stop_outcome : bool * Z :=
  let forced := child_alive in
  let stopFailure := if forced then match terminate_error with Some e => e | None => NO_ERROR end else NO_ERROR in
  let stopFailure := if negb child_ended && (stopFailure =? NO_ERROR) then ERROR_TIMEOUT else stopFailure in
  let stopFailure :=
    match exit_code with
    | inr error => if stopFailure =? NO_ERROR then error else stopFailure
    | inl code => if negb forced && negb (code =? NO_ERROR) && (stopFailure =? NO_ERROR) then code else stopFailure
    end in
  let stopFailure := if forced && (stopFailure =? NO_ERROR) then ERROR_PROCESS_ABORTED else stopFailure in
  (forced, stopFailure).

Definition stop_requested (h : host) : option host :=
  let h := reportStatus SERVICE_STOP_PENDING NO_ERROR 0 kStopTimeoutMilliseconds h in
  let deadline := u64 (start_tick + kStopTimeoutMilliseconds) in
  match stop_wait stop_fuel 0 deadline h with
  | None => None
  | Some h =>
      let '(forced, stopFailure) := stop_outcome in
      let h := if forced then emit TerminatedJob h else h in
      let path := if forced then ServiceStopForced else if stopFailure =? NO_ERROR then ServiceStop else ServiceStopFailed in
      let h := appendHostLog (describeStop path stopFailure) h in
      Some (if stopFailure =? NO_ERROR then reportStatus SERVICE_STOPPED NO_ERROR 0 0 h
            else reportStatus SERVICE_STOPPED ERROR_SERVICE_SPECIFIC_ERROR stopFailure 0 h)
  end.

Definition shutdown_requested (h : host) : host :=
  appendHostLog (describeStop ShutdownControl 0) (reportStatus SERVICE_STOPPED NO_ERROR 0 0 h).

Definition child_gone (h : host) : host :=
  let childExitCode := match exit_code with inl code => code | inr _ => 1 end in
  let duringShutdown := systemShuttingDown in
  let report := unrequestedExitReport duringShutdown childExitCode in
  let h := appendHostLog (describeStop (if duringShutdown then ChildEndedByShutdown else ChildExited) childExitCode) h in
  reportStatus SERVICE_STOPPED (win32ExitCode report) (serviceExitCode report) 0 h.

(** The destructors at the end of the scope, innermost first. *)
Definition stop_supervisor (h : host) : host :=
  if supervisor_event then emit (Closed SupervisorStop) (emit SupervisorJoined h) else h.

Definition close_pipe (h : host) : host := if pipe_created then emit (Closed Pipe) h else h.

Definition close_events (h : host) : host := emit (Closed ShutdownEvent) (emit (Closed StopEvent) h).

Definition running (h : host) : option host :=
  let h := reportStatus SERVICE_RUNNING NO_ERROR 0 0 h in
  let h := if supervisor_event then emit SupervisorStarted (emit (Opened SupervisorStop) h) else h in
  let ended := if first_wait =? 2 then Some (shutdown_requested h)
               else if first_wait =? 0 then stop_requested h
               else Some (child_gone h) in
  (fun h => stop_supervisor (close_events (emit (Closed Job) (emit (Closed Process) h)))) <$> ended.

Definition serviceMain (h : host) : option host :=
  emit ServiceMainDone <$>
  if negb register_handler then Some h
  else
    let h := reportStatus SERVICE_START_PENDING NO_ERROR 0 30000 h in
    match stop_event_error with
    | Some error => Some (reportStatus SERVICE_STOPPED error 0 0 h)
    | None =>
        let h := emit (Opened StopEvent) h in
        match shutdown_event_error with
        | Some error => Some (reportStatus SERVICE_STOPPED error 0 0 (emit (Closed StopEvent) h))
        | None =>
            let h := emit (Opened ShutdownEvent) h in
            let h := if job_created then emit (Opened Job) h else h in
            let h := if pipe_created then emit (Opened Pipe) h else h in
            let '(launched, h) := if negb job_created || negb limits_set then (false, h) else launchController h in
            close_pipe <$>
            if negb launched then
              let h := if job_created then emit (Closed Job) h else h in
              Some (reportStatus SERVICE_STOPPED (if launch_error =? 0 then ERROR_SERVICE_SPECIFIC_ERROR else launch_error) 1 0
                      (close_events h))
            else running h
        end
    end.

(** ** Specification *)

(** The statuses the service manager was told, in order. *)
Definition reports (trace : list effect) : list status :=
  omap (fun e => match e with SetServiceStatus s => Some s | _ => None end) trace.

(** The clock moves: each wait of a second that timed out advances it by a
    millisecond at least, and it never runs back. *)
Class Clock : Prop := {
  start_range : 0 <= start_tick < 2 ^ 64 - kStopTimeoutMilliseconds;
  check_advances i : start_tick + Z.of_nat i + 1 <= check_tick i;
  now_monotone i : check_tick i <= now_tick i
}.

Definition pending (s : status) : Prop :=
  dwCurrentState s = SERVICE_STOP_PENDING /\ dwWin32ExitCode s = NO_ERROR /\ dwControlsAccepted s = 0 /\
  0 <= dwWaitHint s <= kStopTimeoutMilliseconds.

(** The order of states the service manager accepts: a pending state is repeated
    only with a higher check point, and nothing follows [SERVICE_STOPPED]. *)
Inductive legal (s t : status) : Prop :=
| Starts : dwCurrentState s = SERVICE_START_PENDING -> dwCurrentState t = SERVICE_RUNNING ->
    dwControlsAccepted t <> 0 -> legal s t
| Stopping : dwCurrentState s = SERVICE_RUNNING -> pending t -> dwCheckPoint t = 1 -> legal s t
| Progress : pending s -> pending t -> dwCheckPoint t = dwCheckPoint s + 1 -> legal s t
| Stops : dwCurrentState s <> SERVICE_STOPPED -> dwCurrentState t = SERVICE_STOPPED -> dwControlsAccepted t = 0 -> legal s t.

Fixpoint legal_run (s : status) (l : list status) : Prop :=
  match l with
  | [] => dwCurrentState s = SERVICE_STOPPED
  | t :: l => legal s t /\ legal_run t l
  end.

(** The handles open after a trace; [None] when one is opened twice or closed
    while it is not open. *)
Fixpoint live (trace : list effect) (open : list handle) : option (list handle) :=
  match trace with
  | [] => Some open
  | Opened h :: trace => if bool_decide (h ∈ open) then None else live trace (h :: open)
  | Closed h :: trace => if bool_decide (h ∈ open) then live trace (filter (fun k => k <> h) open) else None
  | _ :: trace => live trace open
  end.

(** The final report: what the service manager acts on. *)
Definition final_report (trace : list effect) : option (Z * Z) :=
  (fun s => (dwWin32ExitCode s, dwServiceSpecificExitCode s)) <$> list.last (reports trace).

End Host.

(** ** Lemmas *)

Section Facts.
Context {os : Os} (script : list Z).

Lemma stop_wait_spec `{!Clock} fuel i h :
  Z.of_nat i <= kStopTimeoutMilliseconds < Z.of_nat (fuel + i) -> 0 <= checkpoint h -> checkpoint h + Z.of_nat fuel < 2 ^ 32 ->
  exists h' ps, stop_wait fuel i (start_tick + kStopTimeoutMilliseconds) h = Some h' /\
    done_so_far h' = done_so_far h ++ (SetServiceStatus <$> ps) /\
    (forall s l, pending s -> dwCheckPoint s = checkpoint h -> (forall t, pending t -> legal_run t l) -> legal_run s (ps ++ l)).
Proof.
  revert i h. induction fuel as [|fuel IH]; intros i h Hi Hc Hm; [lia|]. cbn [stop_wait].
  destruct (child_timed_out i && (check_tick i <? start_tick + kStopTimeoutMilliseconds)) eqn:E.
  2: { exists h, []. rewrite app_nil_r. repeat split; simpl; auto. }
  apply andb_true_iff in E as [_ E]. bool_to_prop. pose proof (check_advances i). pose proof (now_monotone i). pose proof start_range.
  set (remaining := if _ <=? now_tick i then 0 else _).
  assert (0 <= remaining <= kStopTimeoutMilliseconds) as Hr.
  { subst remaining. unfold kStopTimeoutMilliseconds in *. destruct (_ <=? now_tick i) eqn:En; bool_to_prop; [lia|]. rewrite (uN_id 32) by lia. lia. }
  edestruct (IH (S i) (reportStatus SERVICE_STOP_PENDING NO_ERROR 0 remaining h)) as (h' & ps & -> & Hd & Hl); [lia| | |].
  - simpl. rewrite (uN_id 32) by lia. lia.
  - simpl. rewrite (uN_id 32) by lia. lia.
  - simpl in Hd, Hl. rewrite (uN_id 32) in Hd, Hl by lia. eexists h', (_ :: ps). split; [done|]. split.
    { rewrite Hd, <- app_assoc. simpl. reflexivity. }
    intros s l Hs Hsc Hend. simpl. split; [|apply Hl; [|done..]]; [apply Progress; [done| |simpl; lia]|]; (repeat split; simpl; done || apply Hr).
Qed.

Definition stopped (win32 specific : Z) : status := {|
  dwCurrentState := SERVICE_STOPPED; dwControlsAccepted := 0; dwWin32ExitCode := win32;
  dwServiceSpecificExitCode := specific; dwCheckPoint := 0; dwWaitHint := 0 |}.

(** What a stop reports, from its outcome. *)
Definition stop_report (failure : Z) : status :=
  if failure =? NO_ERROR then stopped NO_ERROR 0 else stopped ERROR_SERVICE_SPECIFIC_ERROR failure.

Lemma stop_fuel_value : Z.of_nat stop_fuel = kStopTimeoutMilliseconds + 1.
Proof. unfold stop_fuel. rewrite Nat2Z.inj_succ, Z2Nat.id; done. Qed.

Lemma stop_requested_spec `{!Clock} h :
  checkpoint h = 0 ->
  exists h' ps line, stop_requested h = Some h' /\
    done_so_far h' = done_so_far h ++ (SetServiceStatus <$> ps) ++ (if child_alive then [TerminatedJob] else []) ++
      [HostLog line; SetServiceStatus (stop_report (snd stop_outcome))] /\
    (forall s, dwCurrentState s = SERVICE_RUNNING -> legal_run s (ps ++ [stop_report (snd stop_outcome)])).
Proof.
  intros Hc. unfold stop_requested. pose proof start_range.
  rewrite (uN_id 64) by (unfold kStopTimeoutMilliseconds in *; lia).
  pose proof stop_fuel_value as Hf. generalize dependent stop_fuel. intros fuel Hf.
  edestruct (stop_wait_spec fuel 0 (reportStatus SERVICE_STOP_PENDING NO_ERROR 0 kStopTimeoutMilliseconds h)) as (h' & ps & -> & Hd & Hl).
  1-3: simpl; rewrite ?Hc, ?(uN_id 32 (0 + 1)), ?Nat.add_0_r by lia; unfold kStopTimeoutMilliseconds in *; lia.
  assert (fst stop_outcome = child_alive) as Hforced by done.
  destruct stop_outcome as [forced failure]. simpl in Hforced. subst forced. cbn [snd].
  simpl in Hd, Hl. eexists _, (_ :: ps), (host_line time_now (east_of (fst zone_now) (snd zone_now)) (describeStop
    (if child_alive then ServiceStopForced else if failure =? NO_ERROR then ServiceStop else ServiceStopFailed) failure)).
  split; [reflexivity|]. split.
  - unfold appendHostLog, stop_report.
    destruct child_alive, (failure =? NO_ERROR); simpl; rewrite Hd, <- !app_assoc; reflexivity.
  - intros s Hs. simpl. rewrite Hc in *. split; [apply Stopping; [done|repeat split; done|done]|]. apply Hl; [repeat split; done|done|].
    intros t Ht. unfold stop_report. destruct (failure =? NO_ERROR); simpl; (split; [|done]); (apply Stops; [|done..]); by destruct Ht as [-> _].
Qed.

Lemma reports_app t1 t2 : reports (t1 ++ t2) = reports t1 ++ reports t2.
Proof. apply omap_app. Qed.

Lemma reports_statuses ps : reports (SetServiceStatus <$> ps) = ps.
Proof. induction ps as [|p ps IH]; [done|]. unfold reports in *. csimpl. by rewrite IH. Qed.

Lemma live_app t1 t2 open : live (t1 ++ t2) open = live t1 open ≫= live t2.
Proof. revert open. induction t1 as [|[] t1 IH]; intros open; simpl; auto; by case_bool_decide. Qed.

Lemma live_statuses ps open : live (SetServiceStatus <$> ps) open = Some open.
Proof. by induction ps. Qed.

(** The controller was launched: the conditions of the code, in its order. *)
Definition launched_ok : bool :=
  job_created && limits_set && directories_made && pipe_created && null_opened && null_inheritable &&
  negb (bool_decide (powerShellPath = [])) && process_created && process_assigned && thread_resumed.

(** What the manager is told at the end. *)
Definition verdict : Z * Z :=
  match stop_event_error, shutdown_event_error with
  | Some error, _ | None, Some error => (error, 0)
  | None, None =>
      if launched_ok then
        if first_wait =? 2 then (NO_ERROR, 0)
        else if first_wait =? 0 then
          if snd stop_outcome =? NO_ERROR then (NO_ERROR, 0) else (ERROR_SERVICE_SPECIFIC_ERROR, snd stop_outcome)
        else if systemShuttingDown then (NO_ERROR, 0)
        else (ERROR_SERVICE_SPECIFIC_ERROR, match exit_code with inl code => if code =? 0 then 1 else code | inr _ => 1 end)
      else (if launch_error =? 0 then ERROR_SERVICE_SPECIFIC_ERROR else launch_error, 1)
  end.

(** A complete life: every handle closed, the states in a legal order, the
    verdict reported last. *)
Definition complete_life (t : list effect) : Prop :=
  live t [] = Some [] /\ list.last t = Some ServiceMainDone /\
  (exists first l, reports t = first :: l /\ dwCurrentState first = SERVICE_START_PENDING /\ legal_run first l) /\
  final_report t = Some verdict.

Definition fresh : host := {| checkpoint := 0; done_so_far := [] |}.

Ltac legal_steps :=
  repeat match goal with
  | |- _ /\ _ => split
  | |- legal_run _ _ => cbn [legal_run]
  | |- legal _ _ => first [apply Stops; done | apply Starts; done]
  | |- _ => done
  end.

(** A life whose trace is concrete. *)
Ltac finish_life :=
  eexists; split; [reflexivity|]; split; [reflexivity|]; split; [reflexivity|]; split;
  [eexists _, _; split; [reflexivity|]; legal_steps | try reflexivity].

(** A life that ends in a stop: the statuses of the wait in the middle. *)
Lemma stop_life pre post open ps line failure first s t :
  t = (pre ++ (SetServiceStatus <$> ps) ++ (if child_alive then [TerminatedJob] else []) ++
       [HostLog line; SetServiceStatus (stop_report failure)]) ++ post ->
  live pre [] = Some open -> live post open = Some [] -> reports pre = [first; s] -> reports post = [] ->
  list.last post = Some ServiceMainDone -> dwCurrentState first = SERVICE_START_PENDING -> legal first s ->
  legal_run s (ps ++ [stop_report failure]) ->
  live t [] = Some [] /\ list.last t = Some ServiceMainDone /\
  (exists first l, reports t = first :: l /\ dwCurrentState first = SERVICE_START_PENDING /\ legal_run first l) /\
  final_report t = Some (if failure =? NO_ERROR then (NO_ERROR, 0) else (ERROR_SERVICE_SPECIFIC_ERROR, failure)).
Proof.
  intros -> Hpre Hpost Rpre Rpost Hlast Hfirst Hlegal Hrun.
  assert (reports ((pre ++ (SetServiceStatus <$> ps) ++ (if child_alive then [TerminatedJob] else []) ++
       [HostLog line; SetServiceStatus (stop_report failure)]) ++ post) = first :: s :: ps ++ [stop_report failure]) as Hr.
  { rewrite !reports_app, Rpre, Rpost, reports_statuses, app_nil_r. by destruct child_alive. }
  split; [|split; [|split]].
  - rewrite !live_app, Hpre. simpl. rewrite live_app, live_statuses. simpl. rewrite live_app. by destruct child_alive.
  - by rewrite last_app, Hlast.
  - eexists _, _. split; [exact Hr|]. split; [done|]. by split.
  - unfold final_report. rewrite Hr, !app_comm_cons, last_snoc. unfold stop_report. by destruct (failure =? NO_ERROR).
Qed.

Lemma service_life `{!Clock} : register_handler = true -> exists h, serviceMain script fresh = Some h /\ complete_life (done_so_far h).
Proof.
  intros Hreg. unfold serviceMain. rewrite Hreg. unfold complete_life, verdict, launched_ok.
  destruct stop_event_error as [e|]; [finish_life|].
  destruct shutdown_event_error as [e|]; [finish_life|].
  unfold running, launchController, stop_supervisor, close_pipe, close_events.
  destruct job_created; [|destruct pipe_created, (launch_error =? 0); finish_life].
  destruct limits_set; [|destruct pipe_created, (launch_error =? 0); finish_life].
  destruct directories_made; [|destruct pipe_created, (launch_error =? 0); finish_life].
  destruct pipe_created; [|destruct (launch_error =? 0); finish_life].
  destruct null_opened; [|destruct (launch_error =? 0); finish_life].
  destruct null_inheritable; [|destruct (launch_error =? 0); finish_life].
  destruct (bool_decide (powerShellPath = [])); [destruct (launch_error =? 0); finish_life|].
  destruct process_created; [|destruct (launch_error =? 0); finish_life].
  destruct process_assigned; [|destruct (launch_error =? 0); finish_life].
  destruct thread_resumed; [|destruct (launch_error =? 0); finish_life].
  cbn [negb orb andb]. destruct (first_wait =? 2); [destruct supervisor_event; finish_life|].
  destruct (first_wait =? 0).
  - set (h0 := if supervisor_event then _ else _).
    destruct (stop_requested_spec h0) as (h' & ps & line & -> & Hd & Hl); [by subst h0; destruct supervisor_event|].
    eexists; split; [reflexivity|]. generalize dependent (snd stop_outcome). intros failure Hd Hl.
    eapply (stop_life (done_so_far h0) ([Closed Process; Closed Job; Closed StopEvent; Closed ShutdownEvent] ++
      (if supervisor_event then [SupervisorJoined; Closed SupervisorStop] else []) ++ [Closed Pipe; ServiceMainDone])
      ((if supervisor_event then [SupervisorStop] else []) ++ [Process; Pipe; Job; ShutdownEvent; StopEvent])).
    + rewrite <- Hd. destruct supervisor_event; simpl; rewrite <- !app_assoc; reflexivity.
    + subst h0. destruct supervisor_event; reflexivity.
    + destruct supervisor_event; reflexivity.
    + subst h0. destruct supervisor_event; reflexivity.
    + destruct supervisor_event; reflexivity.
    + destruct supervisor_event; reflexivity.
    + reflexivity.
    + apply Starts; done.
    + by apply Hl.
  - unfold child_gone, unrequestedExitReport. destruct systemShuttingDown; [destruct supervisor_event; finish_life|].
    destruct exit_code as [code|]; [destruct (code =? 0) eqn:Ec|]; destruct supervisor_event; finish_life.
Qed.

(** A failed call leaves an error code. *)
Record error_codes : Prop := {
  stop_event_code e : stop_event_error = Some e -> e <> NO_ERROR;
  shutdown_event_code e : shutdown_event_error = Some e -> e <> NO_ERROR;
  exit_code_code e : exit_code = inr e -> e <> NO_ERROR
}.

(** The child ended by itself in time, with its own success. *)
Definition clean_stop : Prop := child_alive = false /\ child_ended = true /\ exit_code = inl NO_ERROR.

Lemma stop_outcome_clean : error_codes -> (snd stop_outcome = NO_ERROR <-> clean_stop).
Proof.
  intros He. pose proof (exit_code_code He) as Hx. unfold stop_outcome, clean_stop, NO_ERROR in *.
  destruct child_alive, child_ended, exit_code as [code|error], terminate_error as [e|]; simpl; try specialize (Hx _ eq_refl);
    repeat match goal with |- context [?x =? 0] => destruct (x =? 0) eqn:?; simpl end; bool_to_prop; subst; simpl;
    (split; [|intros (? & ? & ?)]); naive_solver.
Qed.

(** The manager is told of success. *)
Definition ended_well : Prop :=
  stop_event_error = None /\ shutdown_event_error = None /\ launched_ok = true /\
  (first_wait = 2 \/ (first_wait = 0 /\ clean_stop) \/ (first_wait <> 0 /\ first_wait <> 2 /\ systemShuttingDown = true)).

Lemma verdict_well : error_codes -> (verdict.1 = NO_ERROR <-> ended_well).
Proof.
  intros He. pose proof (stop_outcome_clean He) as Hs. unfold verdict, ended_well.
  destruct stop_event_error as [e|] eqn:E1; [pose proof (stop_event_code He e E1); simpl; naive_solver|].
  destruct shutdown_event_error as [e|] eqn:E2; [pose proof (shutdown_event_code He e E2); simpl; naive_solver|].
  destruct launched_ok; [|destruct (launch_error =? 0) eqn:El; bool_to_prop; simpl; unfold NO_ERROR, ERROR_SERVICE_SPECIFIC_ERROR; naive_solver].
  destruct (first_wait =? 2) eqn:F2; bool_to_prop; [naive_solver|].
  destruct (first_wait =? 0) eqn:F0; bool_to_prop.
  - destruct (snd stop_outcome =? NO_ERROR) eqn:Eo; bool_to_prop; simpl; naive_solver.
  - destruct systemShuttingDown; simpl; naive_solver.
Qed.
End Facts.

(** ** The theorems *)

(** Whatever Windows answers, a registered service host runs to its end:
    it reports its states in an order the service manager accepts (starting,
    perhaps running, stopping with growing check points and wait hints within
    the four minutes, and stopped exactly once and last), every handle it opened
    is closed exactly once, and only then is the end of [serviceMain] signalled.
    The clock is assumed to advance. *)
Theorem service_runs_to_stopped (os : Os) (clock : Clock) (script : list Z) :
  register_handler = true ->
  exists h first l, serviceMain script fresh = Some h /\
    reports (done_so_far h) = first :: l /\ dwCurrentState first = SERVICE_START_PENDING /\ legal_run first l /\
    live (done_so_far h) [] = Some [] /\ list.last (done_so_far h) = Some ServiceMainDone.
Proof.
  intros Hr. destruct (service_life script Hr) as (h & Hs & Hlive & Hlast & (first & l & Hrep & Hf & Hrun) & _). eauto 10.
Qed.

(** C28: the service manager is told of a failure, and so restarts the host,
    exactly when something failed: a stop is a success only if the controller
    ended by itself in time with exit code zero, a controller that ends unasked
    is a failure unless the system is shutting down, a shutdown is a success, and
    a host that could not launch its controller failed. *)
Theorem service_failure_exact (os : Os) (clock : Clock) (script : list Z) :
  register_handler = true -> error_codes ->
  exists h win32 specific, serviceMain script fresh = Some h /\
    final_report (done_so_far h) = Some (win32, specific) /\ (win32 = NO_ERROR <-> ended_well).
Proof.
  intros Hr He. destruct (service_life script Hr) as (h & Hs & _ & _ & _ & Hv).
  exists h, verdict.1, verdict.2. rewrite Hv, <- surjective_pairing. split; [done|]. split; [done|]. by apply verdict_well.
Qed.

(** Interrogation changes nothing, a stop control asks only for a stop, and a
    shutdown control never does: the stack is kept for the next boot. *)
Theorem controls_separate (control : Z) (s : signals) :
  gStopEvent (snd (controlHandler control s)) <> gStopEvent s -> control = SERVICE_CONTROL_STOP.
Proof.
  unfold controlHandler. destruct (control =? SERVICE_CONTROL_INTERROGATE); [done|].
  destruct (isShutdownControl control); [done|].
  destruct (control =? SERVICE_CONTROL_STOP) eqn:E; bool_to_prop; [done|]. done.
Qed.

(** ** Examples *)

Definition demo_time : local_time := {| wYear := 2025; wMonth := 3; wDay := 7; wHour := 9; wMinute := 5; wSecond := 0 |}.

(** A host asked to stop whose controller takes two seconds. *)
Definition demo_os : Os := {|
  register_handler := true; stop_event_error := None; shutdown_event_error := None; job_created := true;
  limits_set := true; pipe_created := true; directories_made := true; null_opened := true; null_inheritable := true;
  system_directory := Some (str "C:\Windows\system32"); process_created := true; process_assigned := true;
  thread_resumed := true; launch_error := 0; stop_event_value := 212; supervisor_event := true; first_wait := 0;
  start_tick := 5000; child_timed_out i := (i <? 2)%nat; check_tick i := 6000 + 1000 * Z.of_nat i;
  now_tick i := 6000 + 1000 * Z.of_nat i; child_alive := false; terminate_error := None; child_ended := true;
  exit_code := inl 0; shutting_down := false; shutdown_in_grace := false; time_now := demo_time;
  zone_now := (ZoneDaylight, {| Bias := 300; StandardBias := 0; DaylightBias := -60 |})
|}.

Lemma demo_clock : @Clock demo_os.
Proof. split; simpl; unfold kStopTimeoutMilliseconds; lia. Qed.

Example demo_line : host_line demo_time (@east_of (fst (@zone_now demo_os)) (snd (@zone_now demo_os))) (describeStop ChildExited 3) =
  str "2025-03-07T09:05:00-04:00 controller-service: controller exited unexpectedly with code 3; reporting failure so SCM restarts it" ++ [13; 10].
Proof. reflexivity. Qed.

Lemma service_runs_to_stopped_witness :
  exists h first l, @serviceMain demo_os (str "C:\x\src\Controller.ps1") fresh = Some h /\
    reports (done_so_far h) = first :: l /\ dwCurrentState first = SERVICE_START_PENDING /\ legal_run first l /\
    live (done_so_far h) [] = Some [] /\ list.last (done_so_far h) = Some ServiceMainDone.
Proof. apply (service_runs_to_stopped demo_os demo_clock). reflexivity. Defined.

Lemma service_failure_exact_witness :
  exists h win32 specific, @serviceMain demo_os (str "C:\x\src\Controller.ps1") fresh = Some h /\
    final_report (done_so_far h) = Some (win32, specific) /\ (win32 = NO_ERROR <-> @ended_well demo_os).
Proof. apply (service_failure_exact demo_os demo_clock); [reflexivity|]. split; intros e H; discriminate H. Defined.

Lemma controls_separate_witness : SERVICE_CONTROL_STOP = SERVICE_CONTROL_STOP.
Proof.
  apply (controls_separate SERVICE_CONTROL_STOP {| gStopEvent := Some false; gShutdownEvent := Some false |}). discriminate.
Defined.

(** ** The log pipe's pump

    [drain] reads until a read fails; each read gives the bytes and what
    [stopping_] is once they are written.  The result is what reaches the log. *)
Module LogPipe.

Definition kFinalBytes : Z := 65536.

Fixpoint drain (reads : list (list Z * bool)) (finalBytes : Z) (written : list (list Z)) : list (list Z) :=
  match reads with
  | [] => written
  | (bytes, stopping) :: reads =>
      let written := written ++ [bytes] in
      if stopping then
        let finalBytes := finalBytes - Z.min finalBytes (Z.of_nat (length bytes)) in
        if finalBytes =? 0 then written else drain reads finalBytes written
      else drain reads finalBytes written
  end.

Definition pump (reads : list (list Z * bool)) : list (list Z) := drain reads kFinalBytes [].

Definition size (chunks : list (list Z)) : Z := Z.of_nat (sum_list (length <$> chunks)).

Lemma drain_running chunks rest finalBytes written :
  drain (((fun c => (c, false)) <$> chunks) ++ rest) finalBytes written = drain rest finalBytes (written ++ chunks).
Proof.
  revert written. induction chunks as [|c chunks IH]; intros written; simpl; [by rewrite app_nil_r|].
  by rewrite IH, <- app_assoc.
Qed.

Lemma drain_stopping chunks finalBytes written :
  0 < finalBytes -> Forall (fun c => Z.of_nat (length c) <= 4096) chunks ->
  exists k, drain ((fun c => (c, true)) <$> chunks) finalBytes written = written ++ take k chunks /\
    size (take k chunks) < finalBytes + 4096 /\ (size chunks < finalBytes -> take k chunks = chunks).
Proof.
  intros Hf Hc. revert finalBytes written Hf. induction Hc as [|c chunks Hc _ IH]; intros finalBytes written Hf; csimpl.
  { exists 0%nat. rewrite app_nil_r. split; [done|]. split; [unfold size; simpl; lia|done]. }
  destruct (_ =? 0) eqn:E; bool_to_prop.
  - exists 1%nat. simpl. rewrite take_0. split; [done|]. unfold size. simpl. split; [lia|]. lia.
  - destruct (IH (finalBytes - Z.min finalBytes (Z.of_nat (length c))) (written ++ [c])) as (k & -> & Hk & Hall); [lia|].
    exists (S k). simpl. rewrite <- app_assoc. split; [done|]. unfold size in *. csimpl. rewrite !Nat2Z.inj_add.
    split; [lia|]. intros H. rewrite Hall by lia. done.
Qed.

(** Everything the controller printed before the stop reaches the log in
    order; afterwards the pump takes what is left in the pipe, all of it if it is
    less than 64 KiB, and never more than 64 KiB and one read, so a descendant
    that keeps writing cannot hold up the end of the host. *)
Theorem pump_drains (before after : list (list Z)) :
  Forall (fun c => Z.of_nat (length c) <= 4096) after ->
  exists k, pump (((fun c => (c, false)) <$> before) ++ ((fun c => (c, true)) <$> after)) = before ++ take k after /\
    size (take k after) < kFinalBytes + 4096 /\ (size after < kFinalBytes -> take k after = after).
Proof.
  intros H. unfold pump. rewrite drain_running, app_nil_l. by apply drain_stopping.
Qed.

Lemma pump_drains_witness :
  exists k, pump [(str "a", false); (str "b", true); (str "c", true)] = [str "a"] ++ take k [str "b"; str "c"] /\
    size (take k [str "b"; str "c"]) < kFinalBytes + 4096 /\
    (size [str "b"; str "c"] < kFinalBytes -> take k [str "b"; str "c"] = [str "b"; str "c"]).
Proof. apply (pump_drains [str "a"] [str "b"; str "c"]). repeat constructor; simpl; lia. Defined.
End LogPipe.
