(* ===== verification/NativeSelfTest.v ===== *)
(** * NativeSelfTest: the tests of the logs and of the image resolver

    Translates [src/src/native/log-self-test.h], [async-log-self-test.h] and
    [dns-image-resolver-self-test.h]: each test is an executable program over the
    models of [Logs], [Service] and [Images], with the other threads' actions at
    the times the test gives them, and is evaluated here.  What a test checks of
    the process itself (its handle count, the lifetime of a captured object) is in
    [Handles]. *)
From S2P Require Import Prelude Numbers Logs Service Images.

(** ** The rotating file *)

Module LogTest.
Import BoundedLog.

Definition new_log (limit : Z) : log := {| disk := ∅; limit_ := limit; size_ := 0; file_ := false |}.

(** The file system of the test: everything succeeds, but a file that a reader
    holds without delete sharing cannot be renamed. *)
Definition fine (held : bool) : answers := {|
  creates := true; sizes := true; moves := fun index => negb (held && (index =? 1)%nat); creates2 := true; sizes2 := true;
  writes := true; written := 65536 |}.

(** Writes one after another; whether all of them succeeded. *)
Fixpoint write_all (messages : list (list Z)) (s : log) : bool * log :=
  match messages with
  | [] => (true, s)
  | m :: messages =>
      let '(ok, s) := write s m (fine false) in
      if ok : bool then write_all messages s else (false, s)
  end.

Definition capped (s : log) : bool := forallb (fun e => Z.of_nat (length e.2) <=? 512) (map_to_list (disk s)).

Definition line : list Z := replicate 127 120 ++ [10].

Definition rotation_test : bool :=
  let '(written, s) := write_all (replicate 100 line) (new_log 512) in
  let '(accepted, s1) := write s (replicate 512 121) (fine true) in
  let '(recovered, s2) := write s1 (str "recovered" ++ [10]) (fine false) in
  written && capped s && (size (disk s) =? 4)%nat && negb accepted && capped s1 && recovered && capped s2.

(** A hundred kilobytes through the pipe, while the pump runs. *)
Definition pipe_test : bool :=
  let '(_, s) := write_all (LogPipe.pump (map (fun c => (c, false)) (replicate 100 (replicate 1024 112)))) (new_log 512) in
  capped s && bool_decide (is_Some (disk s !! 3%nat)).

(** Output written before the stop, with the writing end still held: it is
    drained, and the cancelled read ends the pump. *)
Definition held_test : bool :=
  let '(_, s) := write_all (LogPipe.pump [(str "held" ++ [10], true)]) (new_log 512) in len s 0 =? 5.

Definition logSelfTest : bool := rotation_test && pipe_test && held_test.
End LogTest.

(** ** The asynchronous log *)

Module AsyncLogTest.
Import AsyncLog.

(** One outstanding message per producer: each writes and waits for its line; here
    in turns, in every interleaving in [LogContention]. *)
Fixpoint produce (messages : list (list Z)) (s : ring) (reported : Z) (received : list (list Z)) : option (ring * list (list Z)) :=
  match messages with
  | [] => Some (s, received)
  | m :: messages =>
      let '(ok, s) := write s m true in
      if negb ok then None
      else let '(lines, s, reported) := writer_turn s reported in
           if bool_decide (m ∈ lines) then produce messages s reported (received ++ lines) else None
  end.

Definition producer_line (i n : nat) : list Z := to_string (Z.of_nat i) ++ str ":" ++ to_string (Z.of_nat n) ++ [13; 10].

(** The eight producers, one turn each, 128 times. *)
Definition producer_lines : list (list Z) := concat (map (fun n => map (fun i => producer_line i n) (seq 0 8)) (seq 0 128)).

Definition asyncLogContentionSelfTest : bool :=
  match produce producer_lines empty_ring 0 [] with
  | None => false
  | Some (s, received) =>
      (dropped s =? 0) &&
      forallb (fun i => Nat.eqb (length (List.filter (fun l => nth 0 l 0 =? 48 + Z.of_nat i) received)) 128) (seq 0 8)
  end.

(** An empty queue still reports its last loss. *)
Definition asyncLogFinalDropSelfTest : bool :=
  let '(accepted, s) := write empty_ring (replicate (Z.to_nat (kMaxMessageBytes + 1)) 120) true in
  let '(lines, _, _) := writer_turn s 0 in
  negb accepted && (dropped s =? 1) && bool_decide (lines = [str "LOG QUEUE DROPPED 1" ++ [13; 10]]).

(** [n] writes of the same message: how many were accepted. *)
Fixpoint flood (n : nat) (m : list Z) (s : ring) (accepted : Z) : Z * ring :=
  match n with
  | O => (accepted, s)
  | S n => let '(ok, s) := write s m true in flood n m s (if ok : bool then accepted + 1 else accepted)
  end.

(** The writer holds one message in a sink that does not return; the queue stays
    bounded. *)
Definition asyncLogSelfTest : bool :=
  let '(ok, s) := write empty_ring (str "start" ++ [13; 10]) true in
  let '(lines, s, _) := writer_turn s 0 in
  let '(accepted, s) := flood 512 (replicate 4096 120) s 0 in
  ok && (length lines =? 1)%nat && (accepted <=? kMaxBytes / 4096) && (0 <? dropped s).
End AsyncLogTest.

(** ** The image resolver *)

Module ImageTest.

Definition old_path : list Z := str "c:\apps\old.exe".
Definition direct_path : list Z := str "c:\apps\direct.exe".

(** What becomes of a call of [identifyPinned] while it waits: [during] acts on
    the pool (workers take and finish jobs), and the wait may be cancelled. *)
Definition identifyPinned (s : pool) (key : Key) (wait now : Z) (stopping cancelled : bool) (during : pool -> pool) : Result * pool :=
  match identify_begin s key stopping now now wait with
  | (Some r, _, s) => (r, s)
  | (None, _, s) => identify_end (during s) key cancelled now now
  end.

Definition is_pending (r : Result) : bool := match status r with Pending => true | _ => false end.
Definition is_unavailable (r : Result) : bool := match status r with Unavailable => true | _ => false end.
Definition has_path (r : Result) (p : list Z) : bool := bool_decide (path r = p).

(** 128 times, the blocked process stays pending and the other is answered. *)
Fixpoint alternate (n : nat) (s : pool) (now : Z) : bool * pool :=
  match n with
  | O => (true, s)
  | S n =>
      let '(a, s) := identifyPinned s (1234, 1) 40 now false false id in
      let '(b, s) := identifyPinned s (1234, 2) 40 now false false id in
      if is_pending a && has_path b direct_path then alternate n s (now + 1) else (false, s)
  end.

(** Worker 0 blocks in the first resolution until it is released. *)
Definition imageResolverSelfTest : bool :=
  let '(r1, s) := identifyPinned new_pool (1234, 1) 40 1000 false false (fun s => worker_take s 0 1000) in
  let '(r2, s) := identifyPinned s (1234, 2) 40 1040 false false (fun s => worker_finish (worker_take s 1 1040) 1 direct_path) in
  let '(steady, s) := alternate 128 s 1050 in
  let calls := (length (resolved s) + length (List.filter (fun b => bool_decide (is_Some b)) (busy s)))%nat in
  let s := worker_finish s 0 old_path in
  let '(late, s) := identifyPinned s (1234, 1) 40 1300 false false id in
  let '(r3, s) := identifyPinned s (1234, 2) 40 1300 false false id in
  is_pending r1 && has_path r2 direct_path && steady && (calls =? 2)%nat && has_path late old_path && has_path r3 direct_path.

(** Every worker is blocked; later processes are pending at once. *)
Fixpoint occupy (workers : list nat) (s : pool) (now : Z) : bool * pool :=
  match workers with
  | [] => (true, s)
  | w :: workers =>
      let '(r, s) := identifyPinned s (100 + Z.of_nat w, 1) 30 now false false (fun s => worker_take s w now) in
      let '(ok, s) := occupy workers s (now + 30) in
      (is_pending r && ok, s)
  end.

(** No call waits: each is answered before its wait. *)
Fixpoint refused_all (keys : list Z) (s : pool) (now : Z) : bool * pool :=
  match keys with
  | [] => (true, s)
  | k :: keys =>
      match identify_begin s (k, 1) false now now 30 with
      | (Some r, _, s) => let '(ok, s) := refused_all keys s now in (is_pending r && ok, s)
      | (None, _, s) => (false, s)
      end
  end.

Definition imageResolverExhaustionTest : bool :=
  let '(blocked, s) := occupy (seq 0 kWorkers) new_pool 1000 in
  let '(refused, s) := refused_all (seqZ 1000 128) s (1000 + 4 * 30 + 60) in
  let calls := (length (resolved s) + length (List.filter (fun b => bool_decide (is_Some b)) (busy s)))%nat in
  blocked && refused && (calls =? kWorkers)%nat.

Definition imageResolverCancellationTest : bool :=
  let '(r, s) := identifyPinned new_pool (1234, 1) 5000 1000 false true (fun s => worker_take s 0 1000) in
  let '(after, _) := identifyPinned s (1234, 2) 5000 1001 true true id in
  is_unavailable r && is_unavailable after.

(** Twenty processes whose resolution takes 300 milliseconds: each call waits its
    allowance, in nanoseconds from [now]. *)
Fixpoint wait_for (keys : list Z) (s : pool) (b : budget) (now : Z) : pool * Z :=
  match keys with
  | [] => (s, now)
  | k :: keys =>
      match identify_begin s (k, 1) false (now / ms 1) (now / ms 1) kWaitMilliseconds with
      | (Some _, _, s) => wait_for keys s b now
      | (None, _, s) =>
          let took := ms (allowance (window b now) kWaitMilliseconds 0) in
          wait_for keys s (wait_step b kWaitMilliseconds now 0 took) (now + took)
      end
  end.

Definition imageResolverWaitBudgetTest : bool :=
  let start := ms 5000 in
  let '(warm, s) := identifyPinned new_pool (10, 1) kWaitMilliseconds 5000 false false (fun s => worker_finish (worker_take s 0 5000) 0 direct_path) in
  let '(s, finish) := wait_for (seqZ 100 20) s {| windowStarted := start; waited := 0 |} start in
  let '(again, _) := identifyPinned s (10, 1) kWaitMilliseconds (finish / ms 1) false false id in
  has_path warm direct_path && (finish - start <? ms 400) && has_path again direct_path.
End ImageTest.

Theorem native_self_tests_pass :
  LogTest.logSelfTest = true /\
  AsyncLogTest.asyncLogContentionSelfTest = true /\ AsyncLogTest.asyncLogFinalDropSelfTest = true /\ AsyncLogTest.asyncLogSelfTest = true /\
  ImageTest.imageResolverSelfTest = true /\ ImageTest.imageResolverExhaustionTest = true /\
  ImageTest.imageResolverCancellationTest = true /\ ImageTest.imageResolverWaitBudgetTest = true.
Proof. split_and!; vm_compute; reflexivity. Qed.
