(* ===== verification/DispatcherTests.v ===== *)
(** * DispatcherTests: the rest of the dispatcher's self-test

    The tests of [src/src/native/dns-dispatcher-self-test.h] that combine
    components: events whose process is identified by the image resolver
    ([Images], [HintEvents]), a log whose sink is blocked ([Logs]), the table's
    capacity, and [selfTest] itself, which runs every part in its order and ends
    with the first code that is not zero. *)
From S2P Require Import Prelude Images Numbers Logs DnsWire Attribution Taking HintEvents NativeSelfTest Capacity Contention Transfers DispatcherSelfTest.

(** ** Events with a process *)

Section Events.
#[local] Existing Instance c_locale.

(** The test's own process, as [OpenProcess] and [GetProcessTimes] identify
    it. *)
Definition this_process : Images.Key := (4321, 77).

Definition tick (now : Z) : Z := now / 1000000.

(** [identify] of this process; [during] is what the workers do while it waits.
    A call that ends pending has waited its whole allowance. *)
Definition identify_this (pool : Images.pool) (wait : Z) (during : Images.pool -> Images.pool) : test (Images.Result * Images.pool) :=
  now ← time_now;
  let '(r, pool) := ImageTest.identifyPinned pool this_process wait (tick now) false false during in
  (if ImageTest.is_pending r then sleep wait else mret tt) ;; mret (r, pool).

(** [if (result.status == Pending) { Sleep(10); result = identify(...); }], at
    most [n] times. *)
Fixpoint identify_again (n : nat) (wait : Z) (during : Images.pool -> Images.pool) (r : Images.Result) (pool : Images.pool) :
  test (Images.Result * Images.pool) :=
  match n with
  | O => mret (r, pool)
  | S n =>
      if ImageTest.is_pending r
      then sleep 10 ;; '(r, pool) ← identify_this pool wait during; identify_again n wait during r pool
      else mret (r, pool)
  end.

(** [hints.add(name, 1, GetCurrentProcessId(), 0, 0, kQueryEvent)]: what it logs,
    and the pool. *)
Definition hint_add (id : nat) (name : list Z) (wait : Z) (during : Images.pool -> Images.pool) (pool : Images.pool) :
  test (list Z * Images.pool) :=
  before ← time_now; '(r, pool) ← identify_this pool wait during; after ← time_now;
  line ← on id (fun o now =>
    let e := {| ev_name := name; ev_type := 1; ev_pid := this_process.1; ev_qpc := 0; ev_delivery := 0; ev_id := 3006;
                ev_elapsed := (after - before) / 1000 |} in
    let a := HintEvents.add (o_hints o) now e (Some r) in (log_line a, with_table o (hints_after a)));
  mret (line, pool).

Definition set_included (id : nat) (apps : list (list Z)) : test unit :=
  on id (fun o _ => (tt, with_table o (setIncluded (o_hints o) (list_to_set apps)))).

Definition image_hints (id : nat) : test unit := create id [] 3000 100 ;; setSentinelWriter id immediate.

Definition slow : list Z := str "slow.example".
Definition pending_hints : nat := 20.

(** [pendingImageTest]: while the resolution hangs in the worker the name is
    unknown, and neither a reload nor the late result lifts that; an event after
    it is decided by the new list. *)
Definition pendingImageTest : test unit :=
  image_hints pending_hints ;; add pending_hints slow direct_exe ;;
  start ← time_now;
  '(_, pool) ← hint_add pending_hints slow 40 (fun s => worker_take s 0 (tick start)) new_pool;
  now ← time_now; require (now - start <=? milliseconds 250) 101 ;;
  expect pending_hints slow None 101 ;; expect_unsafe pending_hints slow true 101 ;;
  set_included pending_hints [direct_exe] ;;
  let pool := worker_finish pool 0 direct_exe in
  '(r, pool) ← identify_this pool 40 Datatypes.id; '(r, pool) ← identify_again 20 40 Datatypes.id r pool;
  require (negb (bool_decide (Images.path r = []))) 102 ;; expect pending_hints slow None 102 ;;
  hint_add pending_hints (str "after.example") 40 Datatypes.id pool ;; expect pending_hints (str "after.example") (Some true) 103.

(** A worker that resolves this process at once. *)
Definition prompt (path : list Z) (pool : Images.pool) : Images.pool := worker_finish (worker_take pool 0 0) 0 path.

Definition blocked_hints : nat := 21.

(** [n] events, each logged to a queue whose writer does not come back. *)
Fixpoint add_logged (n : nat) (pool : Images.pool) (log : AsyncLog.ring) : test (Images.pool * AsyncLog.ring) :=
  match n with
  | O => mret (pool, log)
  | S n =>
      '(line, pool) ← hint_add blocked_hints (str "logs.example") kWaitMilliseconds (prompt direct_exe) pool;
      add_logged n pool (AsyncLog.write log (line ++ [13; 10]) true).2
  end.

(** [blockedHintLogTest]: the sink has taken the first line and blocks; a thousand
    events are recorded all the same, within a second, and lines are dropped. *)
Definition blockedHintLogTest : test unit :=
  '(r, pool) ← identify_this new_pool kWaitMilliseconds (prompt direct_exe);
  '(r, pool) ← identify_again 20 kWaitMilliseconds (prompt direct_exe) r pool;
  require (negb (bool_decide (Images.path r = []))) 106 ;;
  let '(entered, log) := AsyncLog.take_message (AsyncLog.write AsyncLog.empty_ring (str "start" ++ [13; 10]) true).2 in
  require (bool_decide (is_Some entered)) 107 ;;
  image_hints blocked_hints ;; start ← time_now;
  '(_, log) ← add_logged 1000 pool log;
  route ← take_ blocked_hints (str "logs.example"); now ← time_now;
  require ((now - start <=? seconds 1) && bool_decide (route = Some false) && negb (AsyncLog.dropped log =? 0)) 108.

(** The cache: the second answer is the first one. *)
Definition cache_check (resolveImagePath : list Z) : test unit :=
  '(first, pool) ← identify_this new_pool kWaitMilliseconds (prompt resolveImagePath);
  '(first, pool) ← identify_again 20 kWaitMilliseconds (prompt resolveImagePath) first pool;
  '(cached, _) ← identify_this pool kWaitMilliseconds Datatypes.id;
  require (negb (bool_decide (Images.path first = [])) && bool_decide (Images.path first = Images.path cached)) 8.
End Events.

Example image_tests_pass :
  verdict pendingImageTest = 0 /\ verdict blockedHintLogTest = 0 /\ verdict (cache_check (str "c:\tools\dns-dispatcher.exe")) = 0.
Proof. split_and!; by vm_compute. Qed.

(** ** The table's capacity *)

Section Capacity.
#[local] Existing Instance c_locale.

Definition bounded_hints : nat := 22.
Definition host_name (i : nat) : list Z := str "host" ++ to_string (Z.of_nat i).

(** [for (i = 0; i < kMaxHints; ++i) if (!addResolved(L"host" + i)) return 23;] *)
Fixpoint fill (i n : nat) : test unit :=
  match n with
  | O => mret tt
  | S n => ok ← add bounded_hints (host_name i) (str "direct.exe"); require ok 23 ;; fill (S i) n
  end.

(** A full table refuses, quarantines direct routes, and recovers once its
    entries expired. *)
Definition overflow_and_recover : test unit :=
  full ← add bounded_hints (str "overflow") (str "selected.exe"); require (negb full) 24 ;;
  add bounded_hints (host_name 0) (str "direct.exe") ;; expect bounded_hints (host_name 0) None 25 ;;
  sleep 10100 ;;
  again ← add bounded_hints (str "recovered") (str "selected.exe"); require again 26 ;;
  expect bounded_hints (str "recovered") (Some true) 27.

Definition bounded_scenario (capacity : nat) : test unit :=
  create bounded_hints [str "selected.exe"] 3000 500 ;; setSentinelWriter bounded_hints immediate ;;
  fill 0 capacity ;; overflow_and_recover.

(** *** Names of lower-case letters and digits are their own normal form *)

Definition plain_name (c : Z) : Prop := is_blank c = false /\ towlower c = c /\ c <> 46.

Lemma normalize_plain v : Forall plain_name v -> normalizeName v = v.
Proof.
  intros H. assert (forall u, Forall plain_name u -> drop_blank u = u) as Hb by (intros [|c u] Hu; [done|]; simpl; apply list.Forall_cons in Hu as [(-> & _) _]; done).
  assert (lower v = v) as Hl by (unfold lower; rewrite <- (map_id v) at 2; apply map_ext_Forall; eapply list.Forall_impl; [exact H|]; intros c (_ & ? & _); done).
  assert (Forall plain_name (rev v)) as Hr by (by apply Forall_rev).
  unfold normalizeName, trim. rewrite (Hb v H), (Hb (rev v) Hr), rev_involutive, Hl.
  assert (drop_dots (rev v) = rev v) as ->; [|apply rev_involutive].
  destruct Hr as [|c u (_ & _ & Hc) Hu]; [done|]. simpl. by destruct (Z.eqb_spec c 46).
Qed.

Lemma host_plain i : Z.of_nat i < 2 ^ 64 -> Forall plain_name (host_name i).
Proof.
  intros Hi. apply list.Forall_app. split; [repeat constructor; done|]. apply list.Forall_forall. intros c Hc.
  destruct (to_string_spec (Z.of_nat i)) as (_ & Hd & _); [lia|]. rewrite forallb_forall in Hd. apply list_elem_of_In, Hd in Hc.
  unfold is_digit in Hc. bool_to_prop. unfold plain_name, is_blank. simpl.
  rewrite (proj2 (Z.leb_gt 65 c)) by lia. split; [|split; [done|lia]].
  repeat (rewrite (proj2 (Z.eqb_neq c _)) by lia). done.
Qed.

Definition host_key (i : nat) : list Z := makeKey (host_name i) 1.

Lemma host_key_inj i j : Z.of_nat i < 2 ^ 64 -> Z.of_nat j < 2 ^ 64 -> host_key i = host_key j -> i = j.
Proof.
  intros Hi Hj H. destruct (makeKey_inj (host_name i) (host_name j) 1 1) as [H' _]; [lia|lia|exact H|]. clear H. rename H' into H. rewrite !normalize_plain in H by (by apply host_plain).
  apply app_inj_1 in H as [_ H]; [|done]. apply to_string_inj in H; lia.
Qed.

(** The table after [i] hosts, all at [now]. *)
Definition filled (now : Z) (i : nat) (h : Hints) : Prop :=
  size (hints h) = i /\ (forall k, is_Some (hints h !! k) <-> exists j, (j < i)%nat /\ k = host_key j) /\
  (forall k p, hints h !! k = Some p -> expires p = now + seconds 10) /\ nextExpiry h <= now + seconds 1 /\
  included h = {[str "selected.exe"]} /\ overloadedUntil h <= now /\ reuseWindow h = milliseconds 3000.

(** A scan while every entry lives changes nothing but its own time. *)
Lemma expire_keeps h now :
  (forall k p, hints h !! k = Some p -> now < expires p) ->
  hints (expire h now) = hints h /\ nextExpiry (expire h now) <= Z.max (nextExpiry h) (now + seconds 1) /\
  included (expire h now) = included h /\ overloadedUntil (expire h now) = overloadedUntil h /\ reuseWindow (expire h now) = reuseWindow h.
Proof.
  intros He. unfold expire. destruct (now <? nextExpiry h); [split_and!; try done; lia|]. cbn [set_expiry hints nextExpiry included overloadedUntil reuseWindow].
  split_and!; try done; [|lia]. apply map_filter_id. intros k p Hp. exact (He k p Hp).
Qed.

Lemma expire_filled now i h : filled now i h -> filled now i (expire h now).
Proof.
  intros (Hz & Hk & He & Hn & Hi & Ho & Hw). destruct (expire_keeps h now) as (E1 & E2 & E3 & E4 & E5).
  { intros k p Hp. rewrite (He k p Hp). unfold seconds. lia. }
  unfold filled. rewrite E1, E3, E4, E5. split_and!; try done. lia.
Qed.

Lemma host_length i : (length (host_name i) <= 253)%nat.
Proof.
  unfold host_name. rewrite length_app. pose proof (to_string_length (Z.of_nat i)). change (length (str "host")) with 4%nat. lia.
Qed.

Lemma host_added now i h :
  0 <= now -> (i < kMaxHints)%nat -> filled now i h ->
  exists h', addResolved h now (host_name i) 1 (str "direct.exe") = (true, h') /\ filled now (S i) h'.
Proof.
  intros H0 Hlt Hf. apply expire_filled in Hf. unfold addResolved. set (h1 := expire h now) in *.
  pose proof Hf as (Hz & Hk & He & Hn & Hi & Ho & Hw).
  assert (hints h1 !! host_key i = None) as Hnew.
  { apply eq_None_not_Some. intros (j & Hj & E)%Hk. unfold kMaxHints in *. apply host_key_inj in E; lia. }
  rewrite (proj2 (Nat.ltb_ge 253 (length (host_name i)))), Hz, (proj2 (Nat.leb_gt kMaxHints i)) by (done || apply host_length).
  cbn [orb andb]. eexists. split; [done|]. change (makeKey (host_name i) 1) with (host_key i). rewrite Hnew. unfold filled.
  cbn [set_generations hints nextExpiry included overloadedUntil reuseWindow]. rewrite map_size_insert_None, Hz by done.
  split; [done|]. split; [|split; [|done]].
  - intros k. rewrite lookup_insert_is_Some, Hk. split.
    + intros [<-|[_ (j & Hj & ->)]]; [exists i|exists j]; (split; [lia|done]).
    + intros (j & Hj & ->). destruct (decide (j = i)) as [->|Hne]; [by left|right]. split; [|exists j; split; [lia|done]].
      unfold kMaxHints in *. intros E%host_key_inj; lia.
  - intros k p [[_ <-]|[_ Hp]]%lookup_insert_Some; [|by eapply He]. unfold note_event, seconds. cbn -[Z.max Z.mul Z.add]. destruct (0 <=? now); cbn -[Z.max Z.mul Z.add]; lia.
Qed.

(** A bench with the one object. *)
Definition with_hints (now : Z) (h : Hints) (b : bench) : Prop :=
  b_now b = now /\ b_objects b = [(bounded_hints, {| o_hints := h; o_writer := immediate; o_timeout := milliseconds 500 |})].

Lemma add_runs now h b name path ok h' :
  with_hints now h b -> addResolved h now name 1 path = (ok, h') ->
  exists b', add bounded_hints name path b = (inr ok, b') /\ with_hints now h' b'.
Proof.
  intros [Hnow Hobj] Ha. unfold add, on. rewrite Hobj. cbn [find_object Nat.eqb bounded_hints o_hints]. rewrite Hnow, Ha.
  eexists. split; [done|]. split; [done|]. cbn [put_object b_objects]. by rewrite Hobj.
Qed.

Lemma take_runs now h b name r :
  with_hints now h b -> Taking.take immediate (milliseconds 500) now h name 1 = r ->
  exists b', take_ bounded_hints name b = (inr (t_route r), b') /\ with_hints (t_now r) (t_hints r) b'.
Proof.
  intros [Hnow Hobj] Ht. unfold take_. rewrite Hobj. cbn [find_object Nat.eqb bounded_hints o_hints o_writer o_timeout]. rewrite Hnow, Ht.
  eexists. split; [done|]. split; [done|]. cbn [put_object b_objects b_now]. by rewrite ?Hobj.
Qed.

Lemma fill_runs now n : forall i h b,
  0 <= now -> (i + n <= kMaxHints)%nat -> filled now i h -> with_hints now h b ->
  exists h' b', fill i n b = (inr tt, b') /\ filled now (i + n) h' /\ with_hints now h' b'.
Proof.
  induction n as [|n IH]; intros i h b H0 Hle Hf Hb; [exists h, b; rewrite Nat.add_0_r; by split|].
  destruct (host_added now i h H0) as (h1 & Ha & Hf1); [lia|done|]. destruct (add_runs _ _ _ _ _ _ _ Hb Ha) as (b1 & Hr1 & Hb1).
  destruct (IH (S i) h1 b1) as (h2 & b2 & Hr & Hf2 & Hb2); [done|lia|done|done|].
  exists h2, b2. split; [|by replace (i + S n)%nat with (S i + n)%nat by lia].
  cbn [fill]. unfold mbind, test_bind. rewrite Hr1. exact Hr.
Qed.

(** What the test asks of the full table. *)
Lemma full_refuses now h :
  0 <= now -> filled now kMaxHints h ->
  exists h2 h3, addResolved h now (str "overflow") 1 (str "selected.exe") = (false, h2) /\
    addResolved h2 now (host_name 0) 1 (str "direct.exe") = (true, h3) /\
    overloadedUntil h3 = now + seconds 10 /\ nextExpiry h3 <= now + seconds 1 /\ included h3 = {[str "selected.exe"]} /\
    reuseWindow h3 = milliseconds 3000 /\ forall k p, hints h3 !! k = Some p -> expires p <= now + seconds 10.
Proof.
  intros H0 Hf. apply expire_filled in Hf as Hf1. set (h1 := expire h now) in *.
  pose proof Hf1 as (Hz & Hk & He & Hn & Hi & Ho & Hw).
  assert (hints h1 !! makeKey (str "overflow") 1 = None) as Hnew.
  { apply eq_None_not_Some. intros (j & Hj & E)%Hk. destruct (makeKey_inj (str "overflow") (host_name j) 1 1) as [E' _]; [lia|lia|exact E|].
    unfold kMaxHints in *. rewrite (normalize_plain (host_name j)) in E' by (apply host_plain; lia). by apply (f_equal head) in E'. }
  exists (set_overloaded h1 (now + seconds 10)). unfold addResolved at 1. fold h1. rewrite Hnew, Hz.
  change (253 <? length (str "overflow"))%nat with false. rewrite Nat.leb_refl, bool_decide_false by (by intros [? ?]).
  cbn [orb andb negb]. destruct (expire_keeps (set_overloaded h1 (now + seconds 10)) now) as (E1 & E2 & E3 & E4 & E5).
  { intros k p Hp. rewrite (He k p Hp). unfold seconds. lia. }
  unfold addResolved. set (h2 := expire (set_overloaded h1 (now + seconds 10)) now) in *.
  cbn [set_overloaded hints nextExpiry included overloadedUntil reuseWindow] in *.
  assert (is_Some (hints h1 !! host_key 0)) as H00 by (apply Hk; exists 0%nat; split; [unfold kMaxHints; lia|done]).
  rewrite (proj2 (Nat.ltb_ge 253 (length (host_name 0)))) by apply host_length. rewrite E1.
  change (makeKey (host_name 0) 1) with (host_key 0). rewrite (bool_decide_true _ H00), andb_false_r. cbn [orb].
  eexists. split; [done|]. split; [done|]. cbn [set_generations hints nextExpiry included overloadedUntil reuseWindow].
  split_and!; [done|lia|congruence|congruence|].
  intros k p [[_ <-]|[_ Hp]]%lookup_insert_Some; [|rewrite (He k p Hp); lia]. destruct H00 as [q Hq]. rewrite Hq. specialize (He _ _ Hq).
  unfold note_event, seconds in *. change (default Attribution.fresh (Some q)) with q. rewrite He. rewrite (proj2 (Z.leb_gt (now + 10 * 1000000000) now)) by lia.
  destruct (Attribution.answered q); cbn [retire expires]; rewrite He; lia.
Qed.

(** Once all of it expired, a new event is taken and routes. *)
Lemma full_recovers now h :
  0 <= now -> nextExpiry h <= now -> (forall k p, hints h !! k = Some p -> expires p <= now) -> included h = {[str "selected.exe"]} ->
  overloadedUntil h <= now ->
  exists h', addResolved h now (str "recovered") 1 (str "selected.exe") = (true, h') /\
    t_route (Taking.take immediate (milliseconds 500) now h' (str "recovered") 1) = Some true.
Proof.
  intros H0 Hn He Hi Ho. unfold addResolved. set (key := makeKey (str "recovered") 1).
  assert (hints (expire h now) = ∅) as Hempty.
  { unfold expire. rewrite (proj2 (Z.ltb_ge _ _)) by done. cbn [set_expiry hints]. apply map_empty. intros k.
    apply map_lookup_filter_None. right. intros p Hp Hlt. specialize (He k p Hp). cbn in Hlt. lia. }
  assert (overloadedUntil (expire h now) = overloadedUntil h) as Ho1 by apply expire_fields.
  assert (now < nextExpiry (expire h now)) as Hnext by (unfold expire; rewrite (proj2 (Z.ltb_ge _ _)) by done; cbn; unfold seconds; lia).
  rewrite Hempty, lookup_empty. set (h1 := expire h now) in *. rewrite map_size_empty.
  change (253 <? length (str "recovered"))%nat with false. cbn [orb andb]. change (kMaxHints <=? 0)%nat with false. cbn [andb].
  assert (negb (bool_decide (str "selected.exe" = [])) && isIncluded h (lower (str "selected.exe")) = true) as ->.
  { unfold isIncluded. rewrite Hi. by vm_compute. }
  eexists. split; [done|]. set (p := note_event _ _ _ _ _ _). unfold Taking.take. fold key. cbn [set_generations overloadedUntil].
  rewrite Ho1, (proj2 (Z.ltb_ge now (overloadedUntil h))) by done. unfold decideRoute, expire. cbn [set_generations nextExpiry].
  rewrite (proj2 (Z.ltb_lt _ _) Hnext). cbn [set_generations hints]. rewrite lookup_insert_eq.
  assert ((expires p <=? now) = false) as -> by (apply Z.leb_gt; unfold p, note_event, seconds; cbn -[Z.max Z.mul Z.add]; destruct (0 <=? now); cbn -[Z.max Z.mul Z.add]; lia).
  assert (Attribution.answered p = false /\ tunnel p = true) as [-> ->] by (unfold p, note_event; cbn; by destruct (0 <=? now)).
  done.
Qed.

Lemma filled_new now : 0 <= now -> filled now 0 (newHints {[str "selected.exe"]} (milliseconds 3000)).
Proof.
  intros H0. unfold filled. cbn [newHints hints nextExpiry included overloadedUntil reuseWindow]. rewrite map_size_empty.
  split; [done|]. split; [|split; [intros k p; by rewrite lookup_empty|unfold seconds; split_and!; try done; lia]].
  intros k. rewrite lookup_empty. split; [by intros [? ?]|]. intros (j & Hj & _). lia.
Qed.

Lemma overflow_runs now h b :
  0 <= now -> filled now kMaxHints h -> with_hints now h b -> (overflow_and_recover b).1 = inr tt.
Proof.
  intros H0 Hf Hb. destruct (full_refuses now h H0 Hf) as (h2 & h3 & A2 & A3 & Ho & Hn & Hi & Hw & He).
  destruct (add_runs _ _ _ _ _ _ _ Hb A2) as (b2 & R2 & Hb2). destruct (add_runs _ _ _ _ _ _ _ Hb2 A3) as (b3 & R3 & Hb3).
  assert (Taking.take immediate (milliseconds 500) now h3 (host_name 0) 1 = decided_as None false now h3 (makeKey (host_name 0) 1)) as T3.
  { unfold Taking.take. rewrite Ho. by rewrite (proj2 (Z.ltb_lt now (now + seconds 10))) by (unfold seconds; lia). }
  destruct (take_runs _ _ _ _ _ Hb3 T3) as (b4 & R4 & Hb4). cbn [decided_as t_now t_hints t_route] in *.
  set (later := now + milliseconds 10100). destruct (full_recovers later h3) as (h5 & A5 & T5);
    [unfold later, milliseconds; lia|unfold later, milliseconds, seconds in *; lia| |done|unfold later, milliseconds, seconds in *; lia|].
  { intros k p Hp. specialize (He k p Hp). unfold later, milliseconds, seconds in *. lia. }
  assert (exists b5, sleep 10100 b4 = (inr tt, b5) /\ with_hints later h3 b5) as (b5 & R5 & Hb5).
  { unfold sleep, sleep_until. eexists. split; [done|]. destruct Hb4 as [En Eo]. split; [|exact Eo]. cbn [b_now]. rewrite En.
    unfold later, milliseconds. lia. }
  destruct (add_runs _ _ _ _ _ _ _ Hb5 A5) as (b6 & R6 & Hb6). destruct (take_runs _ _ _ (str "recovered") _ Hb6 eq_refl) as (b7 & R7 & _).
  unfold overflow_and_recover, expect, mbind, test_bind. rewrite R2. cbn [require negb]. rewrite R3, R4. cbn [require].
  rewrite R5, R6. cbn [require]. by rewrite R7, T5.
Qed.

(** The test passes with a table of the program's own capacity. *)
Theorem capacity_test_passes : verdict (bounded_scenario kMaxHints) = 0.
Proof.
  set (now := seconds 1000). assert (0 <= now) as H0 by done. unfold verdict, bounded_scenario, mbind, test_bind.
  remember kMaxHints as capacity eqn:Ec. set (h0 := newHints (list_to_set [str "selected.exe"]) (milliseconds 3000)).
  set (b0 := {| b_now := now; b_objects := [(bounded_hints, {| o_hints := h0; o_writer := immediate; o_timeout := milliseconds 500 |})];
                b_reused := false; b_generation := 0 |}).
  assert (create bounded_hints [str "selected.exe"] 3000 500 start = (inr tt, put_object bounded_hints {| o_hints := h0; o_writer := no_writer; o_timeout := milliseconds 500 |} start)) as -> by done.
  assert (setSentinelWriter bounded_hints immediate (put_object bounded_hints {| o_hints := h0; o_writer := no_writer; o_timeout := milliseconds 500 |} start) = (inr tt, b0)) as -> by done.
  assert (h0 = newHints {[str "selected.exe"]} (milliseconds 3000)) as E0 by (unfold h0; f_equal; set_solver).
  destruct (fill_runs now capacity 0 h0 b0 H0) as (h1 & b1 & R1 & Hf & Hb); [lia|rewrite E0; by apply filled_new|done|].
  rewrite R1. simpl in Hf. subst capacity. by rewrite (overflow_runs now h1 b1 H0 Hf Hb).
Qed.
End Capacity.


(** ** The whole test *)

(** [if (code) return code;] *)
Fixpoint first_code (codes : list Z) : Z :=
  match codes with [] => 0 | code :: codes => if code =? 0 then first_code codes else code end.

(** [if (!ok) return code;] *)
Definition failing (ok : bool) (code : Z) : Z := if ok then 0 else code.

(** [selfTest]; [steps] is how the scheduler runs the callers of
    [tunnelCapacityTest], and [path] what [resolveImagePath] returns.  The count of
    barrier waiters, checked last, is that of the calls in progress: none. *)
Definition selfTest (steps : list (nat * bool)) (path : list Z) : Z :=
  first_code [
    first_failure wire_checks;
    verdict (cache_check path);
    verdict table_test;
    first_failure limit_checks;
    verdict (bounded_scenario kMaxHints);
    verdict lost_scenario;
    verdict barrierTest;
    first_failure failoverTest;
    first_failure tunnelCapacityTest;
    contest_verdict (contend steps contest_start);
    failing AsyncLogTest.asyncLogSelfTest 100;
    failing AsyncLogTest.asyncLogContentionSelfTest 110;
    failing AsyncLogTest.asyncLogFinalDropSelfTest 112;
    failing ImageTest.imageResolverSelfTest 104;
    failing ImageTest.imageResolverExhaustionTest 105;
    failing ImageTest.imageResolverCancellationTest 109;
    failing ImageTest.imageResolverWaitBudgetTest 111;
    verdict pendingImageTest;
    verdict blockedHintLogTest;
    first_failure resolver_checks;
    failing socketDeadlineTest 28;
    first_failure exchange_checks;
    first_failure large_checks].

Lemma first_code_zero codes : Forall (fun c => c = 0) codes -> first_code codes = 0.
Proof. induction 1 as [|c codes -> _ IH]; [done|exact IH]. Qed.

Lemma failing_true ok code : ok = true -> failing ok code = 0.
Proof. by intros ->. Qed.

Lemma wire_checks_pass : first_failure wire_checks = 0.
Proof. by vm_compute. Qed.

Lemma limit_checks_pass : first_failure limit_checks = 0.
Proof. by vm_compute. Qed.

Lemma resolver_checks_pass : first_failure resolver_checks = 0.
Proof. by vm_compute. Qed.

(** The dispatcher's own test passes on the model, however its competing callers
    are scheduled. *)
Theorem self_test_passes steps :
  joined (contend steps contest_start) = true -> selfTest steps (str "c:\tools\dns-dispatcher.exe") = 0.
Proof.
  intros Hj. pose proof (contention_test_passes steps) as (_ & _ & Hc). specialize (Hc Hj).
  destruct table_tests_pass as (T1 & T2 & T3). destruct image_tests_pass as (I1 & I2 & I3).
  destruct native_self_tests_pass as (_ & N1 & N2 & N3 & N4 & N5 & N6 & N7). destruct network_tests_pass as (F1 & F2 & F3 & F4).
  apply first_code_zero. unfold selfTest.
  constructor; [exact wire_checks_pass|]. constructor; [exact I3|]. constructor; [exact T1|]. constructor; [exact limit_checks_pass|]. constructor; [exact capacity_test_passes|].
  constructor; [exact T2|]. constructor; [exact T3|]. constructor; [exact F1|]. constructor; [exact F2|]. constructor; [exact Hc|].
  constructor; [exact (failing_true _ _ N3)|]. constructor; [exact (failing_true _ _ N1)|]. constructor; [exact (failing_true _ _ N2)|]. constructor; [exact (failing_true _ _ N4)|]. constructor; [exact (failing_true _ _ N5)|].
  constructor; [exact (failing_true _ _ N6)|]. constructor; [exact (failing_true _ _ N7)|]. constructor; [exact I1|]. constructor; [exact I2|]. constructor; [exact resolver_checks_pass|].
  constructor; [exact (failing_true _ _ deadline_test_passes)|]. constructor; [exact F3|]. constructor; [exact F4|].
  constructor.
Qed.
