(* ===== verification/Programs.v ===== *)
(** * Programs: the entry points of the native programs

    Models [wmain] of [src/src/native/tunnel-host.cpp], [wmain] of
    [src/src/native/controller-service.cpp] with [hostLogPath] and the loop of
    [superviseDispatcher] ([dispatcher-supervisor.h]), and [selectFile] and
    [wWinMain] of [src/src/native/tray.cpp]: how each reads its command line,
    what it does in which order, and the exit code it ends with.  What the parts
    they start do is modelled elsewhere ([Runner], [Service], [Supervisor],
    [Tray], [TrayWindow]); what Windows answers is a record of inputs. *)
From S2P Require Import Prelude Numbers DnsWire Identity Runner Service.

(** ** Paths of the standard library *)

Definition is_slash (c : Z) : bool := (c =? 92) || (c =? 47).
Definition is_letter (c : Z) : bool := ((65 <=? c) && (c <=? 90)) || ((97 <=? c) && (c <=? 122)).

Fixpoint until_slash (text : list Z) : nat :=
  match text with c :: rest => if is_slash c then O else S (until_slash rest) | [] => O end.
Fixpoint slash_count (text : list Z) : nat :=
  match text with c :: rest => if is_slash c then S (slash_count rest) else O | [] => O end.

(** A drive, or the server of a network path. *)
Definition root_name (path : list Z) : nat :=
  match path with
  | c :: 58 :: _ => if is_letter c then 2%nat else O
  | a :: b :: c :: rest =>
      if is_slash a && is_slash b && negb (is_slash c) then
        if ((c =? 63) || (c =? 46)) && match rest with d :: _ => is_slash d | [] => false end then 3%nat else S (S (until_slash (c :: rest)))
      else O
  | _ => O
  end.

(** Where the part after the root begins. *)
Definition relative_begin (path : list Z) : nat := let n := root_name path in (n + slash_count (drop n path))%nat.

Fixpoint drop_while (p : Z -> bool) (text : list Z) : list Z :=
  match text with c :: rest => if p c then drop_while p rest else text | [] => [] end.

(** [path::parent_path]. *)
Definition parent_path (path : list Z) : list Z :=
  let r := relative_begin path in
  take r path ++ reverse (drop_while is_slash (drop_while (fun c => negb (is_slash c)) (reverse (drop r path)))).

Example parents :
  parent_path (str "C:\Apps\bin\tray.exe") = str "C:\Apps\bin" /\ parent_path (str "C:\tray.exe") = str "C:\" /\
  parent_path (str "\\server\share\bin\x.exe") = str "\\server\share\bin" /\ parent_path (str "C:\") = str "C:\".
Proof. vm_compute. done. Qed.

(** ** The tunnel host *)

Module TunnelHost.
Record inputs := {
  module_name : option (list Z);      (* [GetModuleFileNameW]; [None]: it failed *)
  directory_set : bool; library : bool; procedure : bool; service_result : bool
}.
Inductive effect := SetDllDirectory (directory : list Z) | LoadLibrary (path : list Z) | RunTunnel (profile : list Z).

(** [wmain]: the exit code, and what it did. *)
Definition wmain (argv : list (list Z)) (i : inputs) : Z * list effect :=
  if negb (length argv =? 3)%nat || negb (bool_decide (nth 1 argv [] = str "/service")) then (2, [])
  else match module_name i with
  | None => (3, [])
  | Some executable =>
      let directory := parent_path executable in
      let set := SetDllDirectory directory in
      let load := LoadLibrary (path_join directory (str "tunnel.dll")) in
      if negb (directory_set i) then (4, [set])
      else if negb (library i) then (5, [set; load])
      else if negb (procedure i) then (6, [set; load])
      else (if service_result i then 0 else 7, [set; load; RunTunnel (nth 2 argv [])])
  end.
End TunnelHost.

(** ** The service's program *)

Module ServiceProgram.
Definition kServiceName : list Z := str "WireGuardProgramSplitController".

Inductive mode :=
| SelfTest | CheckHandles (expected excluded : list Z) | Run (timeout encoded : list Z)
| SuperviseOnly (root : list Z) | Serve (script : list Z) | Usage.

(** The guards of [wmain], in their order. *)
Definition parse_mode (argv : list (list Z)) : mode :=
  let argc := length argv in
  let first := nth 1 argv [] in
  if (argc =? 2)%nat && bool_decide (first = str "--self-test") then SelfTest
  else if (argc =? 4)%nat && bool_decide (first = str "--check-inherited-handles") then CheckHandles (nth 2 argv []) (nth 3 argv [])
  else if (argc =? 4)%nat && bool_decide (first = str "--run") then Run (nth 2 argv []) (nth 3 argv [])
  else if (argc =? 3)%nat && bool_decide (first = str "--supervise-dispatcher") then SuperviseOnly (nth 2 argv [])
  else if negb (argc =? 3)%nat || negb (bool_decide (first = str "/service")) then Usage
  else Serve (nth 2 argv []).

(** [_wcstoui64] in base 10: blanks, a sign, and the digits up to the first
    other character; a value that does not fit gives the largest. *)
Fixpoint skip_blanks (text : list Z) : list Z :=
  match text with c :: rest => if (c =? 32) || ((9 <=? c) && (c <=? 13)) then skip_blanks rest else text | [] => [] end.
Fixpoint decimal_prefix (text : list Z) (value : Z) : Z :=
  match text with
  | c :: rest => if (48 <=? c) && (c <=? 57) then decimal_prefix rest (value * 10 + (c - 48)) else value
  | [] => value
  end.
Definition wcstoui64 (text : list Z) : Z :=
  let '(negative, digits) := match skip_blanks text with 45 :: rest => (true, rest) | 43 :: rest => (false, rest) | rest => (false, rest) end in
  let value := decimal_prefix digits 0 in
  if 2 ^ 64 - 1 <? value then 2 ^ 64 - 1 else if negative then (- value) mod 2 ^ 64 else value.

(** What [boundedRun] returns, from what it did last: 4 is the code it ends
    itself with. *)
Definition run_code (actions : list run_action) : Z :=
  match List.last actions AbandonRunner with AbandonRunner => 4 | EndJob => 0 | _ => 3 end.

Definition hostLogPath (script : list Z) : list Z :=
  path_join (path_join (parent_path (parent_path script)) (str "logs")) (str "controller-service.log").

Record inputs := {
  self_test : Z;                    (* what [selfTest] returns *)
  set_event : Z -> bool;            (* [SetEvent] on a handle's value *)
  run_answers : run_env;            (* what the runner is answered *)
  done_event : bool;                (* the event [serviceMain] sets last was created *)
  dispatcher_connected : bool       (* [StartServiceCtrlDispatcherW] *)
}.

Inductive program_effect :=
| EventSet (handle : Z)
| Ran (action : run_action)
| OpenedLog (path : list Z)
| Supervised (root : list Z)
| Served (script : list Z)
| WaitedForServiceMain
| UsageShown.

Definition wmain (argv : list (list Z)) (i : inputs) : Z * list program_effect :=
  match parse_mode argv with
  | SelfTest => (self_test i, [])
  | CheckHandles expected excluded =>
      if negb (set_event i (wcstoui64 expected)) then (1, [EventSet (wcstoui64 expected)])
      else (0, [EventSet (wcstoui64 expected); EventSet (wcstoui64 excluded)])
  | Run timeout encoded =>
      let actions := boundedRun timeout encoded (run_answers i) in (run_code actions, map Ran actions)
  | SuperviseOnly root =>
      (0, [OpenedLog (path_join (path_join root (str "logs")) (str "controller-service.log")); Supervised root])
  | Usage => (2, [UsageShown])
  | Serve script =>
      if negb (dispatcher_connected i) then (3, [OpenedLog (hostLogPath script)])
      else (0, [OpenedLog (hostLogPath script); Served script] ++ if done_event i then [WaitedForServiceMain] else [])
  end.

(** The supervised directory is the installation's, two levels above the script. *)
Example log_beside_script : hostLogPath (str "C:\WGPS\src\Controller.ps1") = str "C:\WGPS\logs\controller-service.log".
Proof. by vm_compute. Qed.

(** *** [superviseDispatcher] *)

(** One turn: whether the stop event is set when it is asked, and whether
    [superviseLoop] throws. *)
Record turn := { stop_set : bool; threw : bool }.
Inductive loop_effect := LoopRan | FailureLogged | Paused (milliseconds : Z).

(** The turns until the stop event is set; [None]: it never is.  An unexpected
    failure is logged, and supervision goes on a second later or at the stop. *)
Fixpoint supervise_turns (turns : list turn) : option (list loop_effect) :=
  match turns with
  | [] => None
  | t :: turns =>
      if stop_set t then Some []
      else rest ← supervise_turns turns; Some (LoopRan :: (if threw t then [FailureLogged; Paused 1000] else []) ++ rest)
  end.

(** Whether sockets were started and ended, around the turns. *)
Inductive supervision := SocketsStarted | SocketsEnded | Turn (e : loop_effect).
Definition superviseDispatcher (sockets : bool) (turns : list turn) : option (list supervision) :=
  effects ← supervise_turns turns;
  Some ((if sockets then [SocketsStarted] else []) ++ map Turn effects ++ (if sockets then [SocketsEnded] else [])).

Definition logged (e : supervision) : bool := match e with Turn FailureLogged => true | _ => false end.
Definition loops (e : supervision) : bool := match e with Turn LoopRan => true | _ => false end.

Lemma supervise_turns_counts turns : 
  Exists (fun t => stop_set t = true) turns ->
  exists effects before rest t, supervise_turns turns = Some effects /\ turns = before ++ t :: rest /\ stop_set t = true /\
    Forall (fun t => stop_set t = false) before /\
    length (List.filter loops (map Turn effects)) = length before /\
    length (List.filter logged (map Turn effects)) = length (List.filter threw before).
Proof.
  induction turns as [|t turns IH]; [by inversion 1|]. intros H. cbn [supervise_turns]. destruct (stop_set t) eqn:Es.
  { exists [], [], turns, t. split_and!; done || constructor. }
  apply Exists_cons in H as [?|H]; [congruence|]. destruct (IH H) as (effects & before & rest & t' & E & -> & Hs & Hb & Hl & Ht).
  rewrite E. cbn [mbind option_bind]. eexists _, (t :: before), rest, t'. split; [reflexivity|]. split; [done|]. split; [done|].
  split; [by constructor|]. cbn [map List.filter loops logged length]. rewrite map_app, !List.filter_app.
  destruct (threw t) eqn:Et; cbn [map app List.filter loops logged length]; rewrite ?Et; cbn [length]; by rewrite Hl, Ht.
Qed.

(** Supervision never ends the host: every turn before the stop runs the loop,
    every failure of it is logged and the next turn runs all the same, and the
    sockets are ended exactly when they were started. *)
Theorem supervision_goes_on sockets turns :
  Exists (fun t => stop_set t = true) turns ->
  exists effects before rest t, superviseDispatcher sockets turns = Some effects /\ turns = before ++ t :: rest /\ stop_set t = true /\
    Forall (fun t => stop_set t = false) before /\
    length (List.filter loops effects) = length before /\
    length (List.filter logged effects) = length (List.filter threw before) /\
    (SocketsEnded ∈ effects <-> SocketsStarted ∈ effects).
Proof.
  intros H. destruct (supervise_turns_counts turns H) as (effects & before & rest & t & E & Hb & Hs & Hf & Hl & Ht).
  unfold superviseDispatcher. rewrite E. cbn [mbind option_bind]. eexists _, before, rest, t. split; [reflexivity|].
  split; [done|]. split; [done|]. split; [done|]. rewrite !List.filter_app.
  destruct sockets; cbn [List.filter loops logged app]; rewrite ?app_nil_r; (split; [done|]); (split; [done|]).
  - split; intros _; [by left|]. right. apply elem_of_app. right. by left.
  - rewrite !list_elem_of_In, !in_map_iff. naive_solver.
Qed.

Lemma supervision_goes_on_witness :
  exists effects, superviseDispatcher true [{| stop_set := false; threw := true |}; {| stop_set := false; threw := false |}; {| stop_set := true; threw := false |}] = Some effects /\
    (SocketsEnded ∈ effects <-> SocketsStarted ∈ effects).
Proof.
  destruct (supervision_goes_on true [{| stop_set := false; threw := true |}; {| stop_set := false; threw := false |}; {| stop_set := true; threw := false |}])
    as (effects & _ & _ & _ & E & _ & _ & _ & _ & _ & H); [right; right; left; reflexivity|]. exists effects. split; [exact E|exact H].
Defined.
End ServiceProgram.

(** ** The tray's program *)

(** [utf8] of the tray refuses text that is not valid. *)
Class Utf8Strict := { utf8_strict : list Z -> option (list Z) }.
Class Utf8StrictSpec (U : Utf8) (T : Utf8Strict) := { strict_valid a : valid a -> utf8_strict a = Some (utf8 a) }.

Module TrayProgram.
(** [selectFile]: the chosen path, empty when the dialog was closed, or the
    message it throws.  The dialog ends with a path, without one, or with an
    error. *)
Inductive dialog := Chosen (path : list Z) | Dismissed | DialogFailed.

Definition selectFile (com : bool) (d : dialog) : list Z + list Z :=
  if negb com then inr (str "Cannot initialize the Windows shell")
  else match d with
  | Chosen path => inl path
  | DialogFailed => inr (str "The file dialog failed.")
  | Dismissed => inl []
  end.

(** What the wait for a mutex returns. *)
Inductive wait := Acquired | Abandoned | Busy | WaitFailed.

Record inputs := {
  arguments : option (list (list Z));   (* [CommandLineToArgvW] *)
  self_test : option (list Z);          (* what [selfTest] throws *)
  com_ready : bool;
  profile_dialog : bool -> dialog;      (* the dialog's end, by the kind of file *)
  written : option Z;                   (* what [WriteFile] wrote of the reply *)
  module_path : option (list Z);        (* [GetModuleFileNameW], when it fits *)
  present : list Z -> bool;             (* [exists] *)
  host_mutex : bool; host_wait : wait; ui_mutex : bool; ui_wait : wait;
  supervised : Z;                       (* the code [supervise] returns *)
  taskbar_message : bool; class_registered : bool; window_created : bool;
  messages : list Z                     (* what each [GetMessageW] returns *)
}.

Inductive effect :=
| Replied (reply : list Z) | HostHeld | HostReleased | SupervisedUi (program directory : list Z)
| UiHeld | UiReleased | WindowMade | Handled | ErrorText (message : list Z) | ErrorBox (message : list Z).

(** The message loop: the last result of [GetMessageW], [None] while it runs. *)
Fixpoint message_loop (results : list Z) : option Z * list effect :=
  match results with
  | [] => (None, [])
  | r :: results => if 0 <? r then let '(last, effects) := message_loop results in (last, Handled :: effects) else (Some r, [])
  end.

(** How the body of the [try] ends. *)
Inductive ending := Code (code : Z) | StillRunning | Throws (message : list Z).

Section Program.
Context {T : Utf8Strict} (i : inputs).

(** [--pick-app] and [--pick-profile]. *)
Definition pick (profile : bool) : ending * list effect :=
  match selectFile (com_ready i) (profile_dialog i profile) with
  | inr message => (Throws message, [])
  | inl selected =>
      match (if bool_decide (selected = []) then Some (str "CANCEL") else reply ← utf8_strict selected; Some (str "SELECT:" ++ reply)) with
      | None => (Throws (str "Invalid Unicode in tray data"), [])
      | Some reply => (Code (if bool_decide (written i = Some (Z.of_nat (length reply))) then 0 else 1), [Replied reply])
      end
  end.

(** The host of the interface: one at a time, restarting it. *)
Definition host_ui (program root : list Z) : ending * list effect :=
  if negb (host_mutex i) then (Throws (str "Cannot open tray supervisor mutex"), [])
  else match host_wait i with
  | Busy => (Code 0, [])
  | WaitFailed => (Throws (str "Cannot acquire tray supervisor mutex"), [])
  | _ =>
      (if supervised i =? 0 then Code 0
       else Throws (str "The tray UI repeatedly failed. Start it again after resolving the failure."),
       [HostHeld; SupervisedUi program root; HostReleased])
  end.

(** The interface itself. *)
Definition run_ui : ending * list effect :=
  if negb (ui_mutex i) then (Throws (str "Cannot open tray instance mutex"), [])
  else match ui_wait i with
  | Busy => (Code 0, [])
  | WaitFailed => (Throws (str "Cannot acquire tray instance mutex"), [])
  | _ =>
      if negb (taskbar_message i) then (Throws (str "Cannot register shell recovery message"), [UiHeld])
      else if negb (class_registered i) then (Throws (str "Cannot register tray window"), [UiHeld])
      else if negb (window_created i) then (Throws (str "Cannot create tray window"), [UiHeld])
      else match message_loop (messages i) with
      | (None, effects) => (StillRunning, UiHeld :: WindowMade :: effects)
      | (Some result, effects) => (Code (if result <? 0 then 1 else 0), UiHeld :: WindowMade :: effects ++ [UiReleased])
      end
  end.

Definition kInputs : list (list Z) := [str "\src\TrayActions.ps1"; str "\state\included-apps.txt"; str "\state\installation.json"].

Definition body (command : list Z) : ending * list effect :=
  if bool_decide (command = str "--self-test") then
    (match self_test i with None => Code 0 | Some message => Throws message end, [])
  else if bool_decide (command = str "--pick-app") || bool_decide (command = str "--pick-profile") then
    pick (bool_decide (command = str "--pick-profile"))
  else
    let smoke := bool_decide (command = str "--smoke-test") in
    if negb (bool_decide (command = [])) && negb smoke && negb (bool_decide (command = str "--ui")) then (Code 2, [])
    else match module_path i with
    | None => (Throws (str "Cannot locate tray installation"), [])
    | Some program =>
        let root := parent_path (parent_path program) in
        if negb smoke && negb (forallb (fun path => present i (root ++ path)) kInputs)
        then (Throws (str "Missing tray installation input"), [])
        else if bool_decide (command = []) then host_ui program root
        else run_ui
    end.

(** Failures of the file selection and the tests are not shown in a box. *)
Definition silent (command : list Z) : bool :=
  existsb (fun c => bool_decide (command = str c)) ["--self-test"; "--smoke-test"; "--pick-app"; "--pick-profile"]%string.

(** [wWinMain]: the exit code ([None] while it runs), and what it did. *)
Definition wWinMain : option Z * list effect :=
  match arguments i with
  | None => (Some 2, [])
  | Some argv =>
      let command := if (length argv =? 2)%nat then nth 1 argv [] else [] in
      if (2 <? length argv)%nat then (Some 2, [])
      else match body command with
      | (Code code, effects) => (Some code, effects)
      | (StillRunning, effects) => (None, effects)
      | (Throws message, effects) =>
          (Some 1, effects ++ ErrorText message :: if silent command then [] else [ErrorBox message])
      end
  end.
End Program.

(** Messages are handled, and the interface supervised, only while the mutex of
    that role is held. *)
Fixpoint guarded (host ui : bool) (effects : list effect) : bool :=
  match effects with
  | [] => true
  | HostHeld :: rest => negb host && guarded true ui rest
  | HostReleased :: rest => host && guarded false ui rest
  | SupervisedUi _ _ :: rest => host && guarded host ui rest
  | UiHeld :: rest => negb ui && guarded host true rest
  | UiReleased :: rest => ui && guarded host false rest
  | WindowMade :: rest | Handled :: rest => ui && guarded host ui rest
  | _ :: rest => guarded host ui rest
  end.

(** Holding what it was given, a trace that only reports. *)
Definition reports (effects : list effect) : bool :=
  forallb (fun e => match e with Replied _ | ErrorText _ | ErrorBox _ => true | _ => false end) effects.

Lemma guarded_reports effects host ui : reports effects = true -> guarded host ui effects = true.
Proof. induction effects as [|e effects IH]; [done|]. by destruct e. Qed.

Lemma guarded_loop results host rest :
  guarded host true ((message_loop results).2 ++ rest) = guarded host true rest.
Proof.
  induction results as [|r results IH]; [done|]. cbn [message_loop]. destruct (0 <? r); [|done].
  destruct (message_loop results) as [last effects]. done.
Qed.

Section Guarded.
Context {T : Utf8Strict} (i : inputs).

Lemma body_guarded command e effects tail :
  body i command = (e, effects) -> reports tail = true -> guarded false false (effects ++ tail) = true.
Proof.
  intros H Ht. pose proof (fun h u => guarded_reports tail h u Ht) as Hg. unfold body in H. destruct (bool_decide (command = str "--self-test")).
  { injection H as _ <-. apply Hg. }
  destruct (_ || _).
  { unfold pick in H. destruct (selectFile _ _) as [selected|m]; [|injection H as _ <-; apply Hg].
    destruct (if bool_decide _ then _ else _) as [reply|]; injection H as _ <-; apply Hg. }
  destruct (_ && _); [injection H as _ <-; apply Hg|]. destruct (module_path i) as [program|]; [|injection H as _ <-; apply Hg].
  destruct (_ && _); [injection H as _ <-; apply Hg|]. destruct (bool_decide (command = [])).
  - unfold host_ui in H. destruct (negb (host_mutex i)); [injection H as _ <-; apply Hg|].
    destruct (host_wait i); injection H as _ <-; cbn [app guarded negb andb]; apply Hg.
  - unfold run_ui in H. destruct (negb (ui_mutex i)); [injection H as _ <-; apply Hg|].
    destruct (ui_wait i); try (injection H as _ <-; apply Hg).
    all: destruct (negb (taskbar_message i)); [injection H as _ <-; apply Hg|]; destruct (negb (class_registered i)); [injection H as _ <-; apply Hg|];
      destruct (negb (window_created i)); [injection H as _ <-; apply Hg|].
    all: pose proof (guarded_loop (messages i) false) as Hm; destruct (message_loop (messages i)) as [[result|] es]; injection H as _ <-;
      cbn [app guarded negb andb]; rewrite <- ?app_assoc, Hm; cbn [app guarded negb andb]; apply Hg.
Qed.

(** One tray at a time.  Whatever Windows answers, messages are handled and the
    interface is supervised only under the mutex of that role, which is taken
    once and released last; and the program ends with 1 only after it reported why, or a reply was
    not written, or the message loop failed. *)
Theorem tray_single_instance code effects :
  wWinMain i = (code, effects) ->
  guarded false false effects = true /\
  (code = Some 1 -> (exists m, ErrorText m ∈ effects) \/ (exists r, Replied r ∈ effects) \/ UiReleased ∈ effects).
Proof.
  unfold wWinMain. destruct (arguments i) as [argv|]; [|by intros [= <- <-]]. cbv zeta. set (command := if (length argv =? 2)%nat then nth 1 argv [] else []).
  destruct (2 <? length argv)%nat; [by intros [= <- <-]|].
  destruct (body i command) as [e es] eqn:E. pose proof (body_guarded command e es) as Hb.
  destruct e as [c| |m]; intros [= <- <-].
  - split; [rewrite <- (app_nil_r es); by apply Hb|]. intros [= ->]. right. revert E. unfold body.
    repeat (case_bool_decide; [destruct (self_test i); discriminate|]). destruct (_ || _).
    { unfold pick. destruct (selectFile _ _); [|done]. destruct (if bool_decide _ then _ else _) as [reply|]; [|done].
      intros [= _ <-]. left. exists reply. by left. }
    destruct (_ && _); [done|]. destruct (module_path i); [|done]. destruct (_ && _); [done|]. destruct (bool_decide (command = [])).
    { unfold host_ui. destruct (negb _); [done|]. destruct (host_wait i); try done; by destruct (supervised i =? 0). }
    unfold run_ui. destruct (negb (ui_mutex i)); [done|]. destruct (ui_wait i); try done.
    all: destruct (negb (taskbar_message i)); [done|]; destruct (negb (class_registered i)); [done|]; destruct (negb (window_created i)); [done|].
    all: destruct (message_loop (messages i)) as [[result|] ms]; [|done]; intros [= _ <-]; right; do 2 right; apply elem_of_app; right; by left.
  - split; [rewrite <- (app_nil_r es); by apply Hb|done].
  - split; [apply Hb; [done|]; by destruct (silent command)|]. intros _. left. exists m. apply elem_of_app. right. by left.
Qed.
End Guarded.
End TrayProgram.
