(* ===== verification/Tray.v ===== *)
(** * Tray: keeping the tray alive, and its one action at a time

    [Restart] models [src/src/native/tray-supervisor.h]: the restart budget and
    the loop that keeps the tray's interface running.  [Action] models the class
    of [src/src/native/tray-support.h] that runs one operation at a time beside
    the interface: starting it, taking its result, closing the interface while
    it runs, and the worker's own steps, which interleave with the interface's
    under the shared state's lock. *)
From S2P Require Import Prelude.

Module Restart.

(** [TrayRestartBudget]. *)
Record budget := { retries : nat; baseDelay : Z }.

(** The delay before the next start, [None] when the budget is spent. *)
Definition failed (b : budget) (awakeLifetime : Z) : option Z * budget :=
  let n := if 600000 <=? awakeLifetime then 0%nat else retries b in
  if (n =? 3)%nat then (None, {| retries := n; baseDelay := baseDelay b |})
  else (Some (u32 (Z.shiftl (baseDelay b) (Z.of_nat n))), {| retries := S n; baseDelay := baseDelay b |}).

(** One start of the interface: it could not be created, it ended with a code
    after some time awake, or it could not be observed. *)
Inductive launch := NotCreated (error : Z) | Ended (code awake : Z) | Unobserved.
Record attempt := { shutting_before : bool; outcome : launch; shutting_after : bool }.

Definition ERROR_GEN_FAILURE : Z := 31.

Inductive verdict := Code (code : Z) | CannotObserve.

(** The loop over successive attempts, with the delays slept; [None] when it is
    still running after the last of them. *)
Fixpoint supervise (attempts : list attempt) (b : budget) (slept : list Z) : option (verdict * list Z) :=
  match attempts with
  | [] => None
  | a :: attempts =>
      if shutting_before a then Some (Code 0, slept)
      else match outcome a with
      | Unobserved => Some (CannotObserve, slept)
      | o =>
          let '(code, awake) := match o with
                                | NotCreated error => (if error =? 0 then ERROR_GEN_FAILURE else error, 0)
                                | Ended code awake => (code, awake)
                                | Unobserved => (0, 0)
                                end in
          if (code =? 0) || shutting_after a then Some (Code 0, slept)
          else match failed b awake with
               | (None, _) => Some (Code code, slept)
               | (Some wait, b) => supervise attempts b (slept ++ [wait])
               end
      end
  end.

(** An interface that lasted ten minutes. *)
Definition lasted (a : attempt) : bool := match outcome a with Ended _ awake => 600000 <=? awake | _ => false end.
Definition long_runs (l : list attempt) : nat := length (List.filter lasted l).

Definition total (delays : list Z) : Z := foldr Z.add 0 delays.

(** What a budget may still sleep, in multiples of its first delay. *)
Definition left (n : nat) : Z := 2 ^ 3 - 2 ^ Z.of_nat n.

Lemma failed_spec b awake :
  (retries b <= 3)%nat -> 0 <= baseDelay b < 2 ^ 29 ->
  (failed b awake = (None, b) /\ retries b = 3%nat /\ awake < 600000) \/
  exists n, (n < 3)%nat /\ failed b awake = (Some (baseDelay b * 2 ^ Z.of_nat n), {| retries := S n; baseDelay := baseDelay b |}) /\
    (if 600000 <=? awake then n = 0%nat else n = retries b).
Proof.
  intros Hr Hb. unfold failed. set (n := if 600000 <=? awake then 0%nat else retries b).
  assert (n <= 3)%nat as Hn by (subst n; destruct (_ <=? _); lia). destruct (n =? 3)%nat eqn:E; bool_to_prop.
  - left. subst n. destruct (600000 <=? awake) eqn:Ea; [lia|]. bool_to_prop. rewrite E. destruct b; simpl in *. by subst.
  - right. exists n. split; [lia|]. rewrite Z.shiftl_mul_pow2 by lia. rewrite (uN_id 32).
    + split; [done|]. subst n. by destruct (_ <=? _).
    + assert (0 < 2 ^ Z.of_nat n <= 2 ^ 2) by (split; [lia|apply Z.pow_le_mono_r; lia]). nia.
Qed.

(** One failed start after another, for one attempt: it ends the loop, or the
    loop goes on with a delay. *)
Lemma supervise_step a l b slept :
  (exists v, supervise (a :: l) b slept = Some (v, slept)) \/
  exists awake wait b', failed b awake = (Some wait, b') /\ supervise (a :: l) b slept = supervise l b' (slept ++ [wait]) /\
    lasted a = (600000 <=? awake).
Proof.
  cbn [supervise]. unfold lasted. destruct (shutting_before a); [left; eauto|].
  destruct (outcome a) as [error|code awake|]; [|destruct ((code =? 0) || _); [left; eauto|]|left; eauto].
  - destruct (_ || _); [left; eauto|]. destruct (failed b 0) as [[wait|] b'] eqn:E; [right|left; eauto]. by exists 0, wait, b'.
  - destruct (failed b awake) as [[wait|] b'] eqn:E; [right|left; eauto]. by exists awake, wait, b'.
Qed.

Lemma left_nonneg n : (n <= 3)%nat -> 0 <= left n.
Proof. intros H. unfold left. assert (2 ^ Z.of_nat n <= 2 ^ 3) by (apply Z.pow_le_mono_r; lia). lia. Qed.

Lemma left_step n : left n = 2 ^ Z.of_nat n + left (S n).
Proof. unfold left. rewrite Nat2Z.inj_succ, Z.pow_succ_r by lia. lia. Qed.

Lemma supervise_spec l b slept :
  (retries b <= 3)%nat -> 0 <= baseDelay b < 2 ^ 29 -> (4 + 4 * long_runs l <= length l + retries b)%nat ->
  exists v delays, supervise l b slept = Some (v, slept ++ delays) /\
    total delays <= baseDelay b * (left (retries b) + 7 * Z.of_nat (long_runs l)) /\
    (length delays <= 3 - retries b + 3 * long_runs l)%nat.
Proof.
  revert b slept. induction l as [|a l IH]; intros b slept Hr Hb Hl; [simpl in Hl; lia|].
  pose proof (left_nonneg (retries b) Hr) as Hleft.
  destruct (supervise_step a l b slept) as [[v ->]|(awake & wait & b' & Hf & -> & Ha)].
  { exists v, []. rewrite app_nil_r. split; [done|]. simpl. split; [nia|lia]. }
  destruct (failed_spec b awake Hr Hb) as [(Hf' & _)|(n & Hn & Hf' & Hlong)]; rewrite Hf' in Hf; [done|]. injection Hf as <- <-.
  assert (long_runs (a :: l) = if 600000 <=? awake then S (long_runs l) else long_runs l) as Hruns
    by (unfold long_runs; simpl; rewrite Ha; by destruct (600000 <=? awake)).
  destruct (IH {| retries := S n; baseDelay := baseDelay b |} (slept ++ [baseDelay b * 2 ^ Z.of_nat n])) as (v & delays & -> & Ht & Hd);
    [simpl; lia|done| |].
  { simpl in *. rewrite Hruns in Hl. destruct (600000 <=? awake); lia. }
  exists v, (baseDelay b * 2 ^ Z.of_nat n :: delays). rewrite <- app_assoc. split; [done|]. cbn [retries baseDelay] in *. cbn [total foldr length].
  fold (total delays). rewrite Hruns. pose proof (left_step n) as Hs. destruct (600000 <=? awake); subst n.
  - change (left 1) with 6 in *. change (2 ^ Z.of_nat 0) with 1. split; [rewrite Nat2Z.inj_succ; nia|lia].
  - split; [nia|lia].
Qed.

(** The tray's host is patient but bounded.  Whatever becomes of each start
    of the interface, the host returns after at most four starts and four more
    for each one that lasted ten minutes, having slept at most fourteen seconds
    for each of those series. *)
Theorem supervise_bounded (l : list attempt) :
  (4 + 4 * long_runs l <= length l)%nat ->
  exists v delays, supervise l {| retries := 0; baseDelay := 2000 |} [] = Some (v, delays) /\
    total delays <= 14000 * (1 + Z.of_nat (long_runs l)) /\ (length delays <= 3 + 3 * long_runs l)%nat.
Proof.
  intros H. destruct (supervise_spec l {| retries := 0; baseDelay := 2000 |} []) as (v & delays & Hs & Ht & Hd); [simpl; lia..|].
  exists v, delays. split; [done|]. cbn [retries baseDelay] in *. change (left 0) with 7 in Ht. split; lia.
Qed.

Definition crash (awake : Z) : attempt := {| shutting_before := false; outcome := Ended 5 awake; shutting_after := false |}.

Example crashes_in_a_row :
  supervise (replicate 4 (crash 10)) {| retries := 0; baseDelay := 2000 |} [] = Some (Code 5, [2000; 4000; 8000]).
Proof. reflexivity. Qed.

Lemma supervise_bounded_witness :
  let l := crash 600000 :: replicate 7 (crash 10) in
  exists v delays, supervise l {| retries := 0; baseDelay := 2000 |} [] = Some (v, delays) /\
    total delays <= 14000 * (1 + Z.of_nat (long_runs l)) /\ (length delays <= 3 + 3 * long_runs l)%nat.
Proof. intros l. apply (supervise_bounded l). vm_compute. lia. Defined.
End Restart.

Module Action.

Record Result := { ok : bool; message : list Z }.

(** The state the interface and the worker share, [done] being its event. *)
Record State := { done : bool; stop : bool; finishMutation : bool; result : Result }.

Definition new_state : State := {| done := false; stop := false; finishMutation := false; result := {| ok := false; message := [] |} |}.

(** The interface's side: the state and whether the thread is joinable. *)
Record Action := { state_ : option State; joinable : bool }.

Definition busy (a : Action) : bool := match state_ a with Some s => negb (done s) | None => false end.

Definition mutating (a : Action) : bool := match state_ a with Some s => finishMutation s && busy a | None => false end.

(** [None]: an exception, another operation is running.  [created]: the
    completion event could be made. *)
Definition start (created : bool) (a : Action) : option Action :=
  if busy a then None else if negb created then None else Some {| state_ := Some new_state; joinable := true |}.

Definition take (a : Action) : Result * Action :=
  match state_ a with
  | Some s => if busy a then ({| ok := false; message := [] |}, a) else (result s, {| state_ := None; joinable := false |})
  | None => ({| ok := false; message := [] |}, a)
  end.

(** The destructor up to its wait: what it leaves in the shared state. *)
Definition close (a : Action) : option State :=
  match state_ a with
  | Some s =>
      if negb (joinable a) then Some s
      else if finishMutation s && busy a then Some s
      else Some {| done := done s; stop := true; finishMutation := finishMutation s; result := result s |}
  | None => None
  end.

(** The worker: choosing a file in a first bounded run, about to take the lock,
    in the run that does the work, or with a result to deliver. *)
Inductive worker := Choosing | Deciding | Working | Ending (r : Result) | Over.

(** A started operation: the shared state, the worker, whether it changes
    something ([action != Status]), whether the worker ended its runner by
    force, whether that was because the runner could not be followed any more
    (its pipe or the clock could not be read), and the interface, until it is
    closed. *)
Record running := { shared : State; at_ : worker; changes : bool; terminated : bool; broken : bool; ui : bool }.

Definition failure (text : list Z) : Result := {| ok := false; message := text |}.

Definition with_worker (r : running) (w : worker) : running :=
  {| shared := shared r; at_ := w; changes := changes r; terminated := terminated r; broken := broken r; ui := ui r |}.

(** The lock before the work: [stop] cancels, otherwise a change is marked. *)
Definition begin_work (r : running) : running :=
  if negb (changes r) then with_worker r Working
  else if stop (shared r) then with_worker r (Ending (failure (str "Tray action cancelled")))
  else {| shared := {| done := done (shared r); stop := stop (shared r); finishMutation := true; result := result (shared r) |};
          at_ := Working; changes := changes r; terminated := terminated r; broken := broken r; ui := ui r |}.

(** A turn of [run]'s loop: nothing yet, out of time, or unable to read the clock
    or the runner's pipe. *)
Inductive turn := Quiet | Expired | Unreadable.

Definition ended_by_force (r : running) (text : list Z) (unreadable : bool) : running :=
  {| shared := shared r; at_ := Ending (failure text); changes := changes r; terminated := true; broken := unreadable; ui := ui r |}.

(** A throw ends the runner; the return of an unfinished change leaves it alone. *)
Definition poll (t : turn) (r : running) : running :=
  if stop (shared r) then ended_by_force r (str "Tray action cancelled") (broken r)
  else match t with
  | Expired =>
      if finishMutation (shared r) then
        with_worker r (Ending (failure (str "The change may still be finishing. Check its status before another change.")))
      else ended_by_force r (str "Tray action timed out") (broken r)
  | Unreadable => ended_by_force r (str "Cannot read action result") true
  | Quiet => r
  end.

Definition deliver (res : Result) (r : running) : running :=
  {| shared := {| done := true; stop := stop (shared r); finishMutation := finishMutation (shared r); result := res |};
     at_ := Over; changes := changes r; terminated := terminated r; broken := broken r; ui := ui r |}.

(** The interface closes: the destructor on the shared state. *)
Definition close_ui (r : running) : running :=
  match close {| state_ := Some (shared r); joinable := true |} with
  | Some s => {| shared := s; at_ := at_ r; changes := changes r; terminated := terminated r; broken := broken r; ui := false |}
  | None => r
  end.

Inductive step : running -> running -> Prop :=
| Chosen r : at_ r = Choosing -> step r (with_worker r Deciding)
| Declined r res : at_ r = Choosing -> step r (with_worker r (Ending res))
| Choosing_turn r t : at_ r = Choosing -> step r (poll t r)
| Decided r : at_ r = Deciding -> step r (begin_work r)
| Work_refused r res : at_ r = Working -> stop (shared r) = true -> step r (with_worker r (Ending res))
| Working_turn r t : at_ r = Working -> step r (poll t r)
| Worked r res : at_ r = Working -> step r (with_worker r (Ending res))
| Delivered r res : at_ r = Ending res -> step r (deliver res r)
| Closed r : ui r = true -> step r (close_ui r).

(** A just-started operation: one that asks for a file first, or not. *)
Definition started (picks changing : bool) : running :=
  {| shared := new_state; at_ := if picks then Choosing else Deciding; changes := changing; terminated := false; broken := false; ui := true |}.

(** What holds at each point of the worker. *)
Definition consistent (r : running) : Prop :=
  let s := shared r in
  match at_ r with
  | Choosing | Deciding => done s = false /\ terminated r = false /\ finishMutation s = false
  | Working => done s = false /\ terminated r = false /\ finishMutation s = changes r /\ (stop s = true -> finishMutation s = false)
  | Ending _ => done s = false /\ (finishMutation s = true -> terminated r = true -> broken r = true) /\ (stop s = true -> finishMutation s = false)
  | Over => done s = true /\ (finishMutation s = true -> terminated r = true -> broken r = true)
  end.

Lemma started_consistent picks changing : consistent (started picks changing).
Proof. by destruct picks. Qed.

Lemma poll_consistent t r : at_ r = Choosing \/ at_ r = Working -> consistent r -> consistent (poll t r).
Proof.
  unfold consistent, poll, ended_by_force. destruct r as [[d s f res] w c te b u]. cbn [shared at_ changes terminated broken ui done stop finishMutation result with_worker].
  intros [-> | ->]; destruct s, t, f; cbn [shared at_ changes terminated broken ui done stop finishMutation result with_worker]; intuition congruence.
Qed.

Lemma close_consistent r : consistent r -> consistent (close_ui r).
Proof.
  unfold consistent, close_ui, close, busy. destruct r as [[d s f res] w c te b u].
  cbn [shared at_ changes terminated broken ui done stop finishMutation result state_ joinable negb].
  destruct w, d, f; cbn [shared at_ changes terminated broken ui done stop finishMutation result negb andb]; intuition congruence.
Qed.

Lemma begin_consistent r : at_ r = Deciding -> consistent r -> consistent (begin_work r).
Proof.
  unfold consistent, begin_work. destruct r as [[d s f res] w c te b u]. cbn [shared at_ changes terminated broken ui done stop finishMutation result with_worker].
  intros ->. destruct c, s; cbn [shared at_ changes terminated broken ui done stop finishMutation result with_worker negb]; intuition congruence.
Qed.

Lemma step_consistent r r' : consistent r -> step r r' -> consistent r'.
Proof.
  intros Hc Hs. destruct Hs as [r Hw|r re Hw|r ex Hw|r Hw|r re Hw Hst|r ex Hw|r re Hw|r re Hw|r Hu];
    [ | |apply poll_consistent; auto|by apply begin_consistent| |apply poll_consistent; auto| | |by apply close_consistent];
    unfold consistent in *; rewrite Hw in Hc; cbn [with_worker deliver shared at_ terminated broken done finishMutation stop] in *; intuition congruence.
Qed.

(** Closing the tray never interrupts a change.  However the interface and
    the worker interleave after a start, once a change has begun its runner is
    not ended by the tray, unless it can no longer be followed; a cancellation
    reaches only an operation that has not begun to change anything; and an
    operation delivers its result before it is over. *)
Theorem change_not_interrupted (picks changing : bool) (r : running) :
  rtc step (started picks changing) r ->
  (finishMutation (shared r) = true -> broken r = false -> terminated r = false) /\
  (stop (shared r) = true -> done (shared r) = false -> finishMutation (shared r) = false) /\
  (done (shared r) = true <-> at_ r = Over).
Proof.
  intros H. assert (consistent r) as Hc.
  { revert H. apply (rtc_ind_r (fun r => consistent r)); [apply started_consistent|]. intros x y _ Hs Hx. by apply (step_consistent x y). }
  unfold consistent in Hc. destruct (at_ r), (terminated r), (broken r); intuition congruence.
Qed.

Lemma change_not_interrupted_witness :
  let r := close_ui (begin_work (started false true)) in
  finishMutation (shared r) = true /\ terminated r = false.
Proof.
  intros r. split; [reflexivity|].
  destruct (change_not_interrupted false true r) as (H & _); [|apply H; [reflexivity|reflexivity]].
  apply (rtc_l _ _ (begin_work (started false true))); [apply Decided; reflexivity|].
  apply (rtc_l _ _ r); [apply Closed; reflexivity|apply rtc_refl].
Defined.

(** Only one operation runs at a time: a start is refused exactly while one is. *)
Theorem start_refused (a : Action) : start true a = None <-> busy a = true.
Proof. unfold start. by destruct (busy a). Qed.
End Action.
