(* ===== verification/Handles.v ===== *)
(** * Handles: what the native programs open, close and hand to their children

    Models the operations that create processes, pipes, threads and events:
    [createWithInheritedHandles] of [src/src/native/inherited-process.h],
    [adoptDispatcher], [imageMatches], [startDispatcher] and [startNrptHelper] of
    [dispatcher-supervisor.h], [LogPipe] of [log-pipe.h], the construction and
    destruction of [AsyncLog] ([async-log.h]) and of [ImageResolver] with its
    [identify] ([dns-image-resolver.h]), and the launch of [supervise] in
    [tray-supervisor.h].

    A program is a function of the table of open handles and of the answers of
    the system, one for every call that can fail; a failing call leaves its error
    code behind, and closing a handle may overwrite that code.  Closing a handle
    that is not open is a fault. *)
From S2P Require Import Prelude.

Abbreviation handle := nat.

(** An answer: whether the call succeeds, and the error code it leaves. *)
Record answer := { succeeds : bool; code : Z }.

(** [w_spawned]: what each child process inherited. *)
Record world := {
  w_next : handle; w_open : list (handle * bool); w_fault : bool; w_error : Z; w_spawned : list (list handle);
  w_answers : list answer
}.

Definition sys (A : Type) : Type := world -> A * world.
#[export] Instance sys_ret : MRet sys := fun A a w => (a, w).
#[export] Instance sys_bind : MBind sys := fun A B k m w => let '(a, w) := m w in k a w.

(** ** The system's calls *)

Definition with_open (w : world) (l : list (handle * bool)) : world :=
  {| w_next := w_next w; w_open := l; w_fault := w_fault w; w_error := w_error w; w_spawned := w_spawned w; w_answers := w_answers w |}.
Definition with_error (w : world) (e : Z) : world :=
  {| w_next := w_next w; w_open := w_open w; w_fault := w_fault w; w_error := e; w_spawned := w_spawned w; w_answers := w_answers w |}.

(** A call without handles; without an answer it fails. *)
Definition ask : sys bool := fun w =>
  match w_answers w with
  | [] => (false, w)
  | a :: answers =>
      (succeeds a, {| w_next := w_next w; w_open := w_open w; w_fault := w_fault w;
                      w_error := if succeeds a then w_error w else code a; w_spawned := w_spawned w; w_answers := answers |})
  end.

(** A new handle, inheritable or not. *)
Definition fresh_handle (inheritable : bool) : sys handle := fun w =>
  (w_next w, {| w_next := S (w_next w); w_open := (w_next w, inheritable) :: w_open w; w_fault := w_fault w; w_error := w_error w;
                w_spawned := w_spawned w; w_answers := w_answers w |}).

(** A call that opens one: [CreateFileW], [CreateEventW], [OpenProcess],
    [CreateThread]. *)
Definition open_handle (inheritable : bool) : sys (option handle) :=
  ok ← ask; if ok : bool then h ← fresh_handle inheritable; mret (Some h) else mret None.

(** [CreatePipe]: a reading and a writing end. *)
Definition open_pipe (inheritable : bool) : sys (option (handle * handle)) :=
  ok ← ask;
  if ok : bool then reader ← fresh_handle inheritable; writer ← fresh_handle inheritable; mret (Some (reader, writer)) else mret None.

Definition is_open (h : handle) (w : world) : bool := existsb (fun e => (e.1 =? h)%nat) (w_open w).

(** [CloseHandle]; the last error may be overwritten. *)
Definition close_handle (h : handle) : sys unit := fun w =>
  let w' := match w_answers w with
            | [] => w
            | a :: answers => {| w_next := w_next w; w_open := w_open w; w_fault := w_fault w; w_error := code a;
                                 w_spawned := w_spawned w; w_answers := answers |}
            end in
  if is_open h w' then (tt, with_open w' (List.filter (fun e => negb (e.1 =? h)%nat) (w_open w')))
  else (tt, {| w_next := w_next w'; w_open := w_open w'; w_fault := true; w_error := w_error w'; w_spawned := w_spawned w';
               w_answers := w_answers w' |}).

Definition close_if (h : option handle) : sys unit := match h with Some h => close_handle h | None => mret tt end.

(** [SetHandleInformation(h, HANDLE_FLAG_INHERIT, 0)]. *)
Definition unshare (h : handle) : sys unit := fun w =>
  (tt, with_open w (map (fun e => if (e.1 =? h)%nat then (e.1, false) else e) (w_open w))).
Definition protect (h : handle) : sys bool :=
  ok ← ask; if ok : bool then _ ← unshare h; mret true else mret false.

Definition get_error : sys Z := fun w => (w_error w, w).
Definition set_error (e : Z) : sys unit := fun w => (tt, with_error w e).

(** [CreateProcessW] with a list of handles to inherit, each of which has to be
    open and inheritable: the process and its first thread. *)
Definition inherits (w : world) (h : handle) : bool := existsb (fun e => (e.1 =? h)%nat && e.2) (w_open w).

Definition can_inherit (allowed : list handle) : sys bool := fun w => (forallb (inherits w) allowed, w).
Definition spawned (allowed : list handle) : sys unit := fun w =>
  (tt, {| w_next := w_next w; w_open := w_open w; w_fault := w_fault w; w_error := w_error w;
          w_spawned := w_spawned w ++ [allowed]; w_answers := w_answers w |}).

Definition create_process (allowed : list handle) : sys (option (handle * handle)) :=
  ok ← ask;
  possible ← can_inherit allowed;
  if ok && possible then
    process ← fresh_handle false; thread ← fresh_handle false; _ ← spawned allowed; mret (Some (process, thread))
  else mret None.

(** ** Children *)

(** [createWithInheritedHandles]: the first initialisation only asks for the
    size. *)
Definition createWithInheritedHandles (allowed : list handle) : sys (option (handle * handle)) :=
  _ ← ask;
  initialized ← ask;
  if negb initialized then mret None
  else
    updated ← ask;
    created ← (if updated : bool then create_process allowed else mret None);
    savedError ← get_error;
    _ ← ask;   (* [DeleteProcThreadAttributeList], which may set the error *)
    _ ← set_error savedError;
    mret created.

(** [startDispatcher]: the process handle. *)
Definition startDispatcher : sys (option handle) :=
  ready ← open_handle true;
  output ← match ready with Some h => mret (Some h) | None => open_handle true end;
  input ← open_handle true;
  match output, input with
  | Some output, Some input =>
      created ← createWithInheritedHandles [input; output];
      error ← get_error;
      _ ← close_handle output;
      _ ← close_handle input;
      _ ← set_error error;
      match created with
      | None => mret None
      | Some (process, thread) => _ ← close_handle thread; mret (Some process)
      end
  | _, _ =>
      error ← get_error;
      _ ← close_if output;
      _ ← close_if input;
      _ ← set_error error;
      mret None
  end.

(** [startNrptHelper]: inherits nothing. *)
Definition startNrptHelper (powerShell_found : bool) : sys (option handle) :=
  if negb powerShell_found then mret None
  else
    created ← create_process [];
    match created with
    | None => mret None
    | Some (process, thread) => _ ← close_handle thread; mret (Some process)
    end.

(** [imageMatches]: whether the image is read, and equal. *)
Definition imageMatches : sys bool := read ← ask; if negb read then mret false else ask.

(** [adoptDispatcher] on a candidate; [running] is what the wait says. *)
Definition adopt_process (candidate : Z) (running : bool) : sys (option handle) :=
  if candidate =? 0 then mret None
  else
    process ← open_handle false;
    match process with
    | None => mret None
    | Some process =>
        matching ← (if running then imageMatches else mret false);
        if negb matching then _ ← close_handle process; mret None else mret (Some process)
    end.

(** One launch of the tray's [supervise]: both handles are released; [None] when
    the process cannot be created, [Some false] when it cannot be observed. *)
Definition tray_launch : sys (option bool) :=
  created ← create_process [];
  match created with
  | None => mret None
  | Some (process, thread) =>
      waited ← ask;
      observed ← (if waited : bool then ask else mret false);
      _ ← close_handle thread;
      _ ← close_handle process;
      mret (Some observed)
  end.

(** ** The log pipe *)

Record log_pipe := { lp_reader : option handle; lp_writer : option handle; lp_pump : option handle }.
Definition no_pipe : log_pipe := {| lp_reader := None; lp_writer := None; lp_pump := None |}.

(** [LogPipe::LogPipe]: the reading end is not inherited. *)
Definition new_log_pipe : sys log_pipe :=
  ends ← open_pipe true;
  match ends with
  | None => mret no_pipe
  | Some (reader, writer) =>
      isolated ← protect reader;
      if negb isolated then _ ← close_handle reader; _ ← close_handle writer; mret no_pipe
      else
        pump ← open_handle false;
        match pump with
        | None => _ ← close_handle reader; _ ← close_handle writer; mret no_pipe
        | Some pump => mret {| lp_reader := Some reader; lp_writer := Some writer; lp_pump := Some pump |}
        end
  end.

(** [n] waits that time out, each followed by a cancellation. *)
Fixpoint cancel_reads (n : nat) : sys unit := match n with O => mret tt | S n => _ ← ask; cancel_reads n end.

(** [~LogPipe]. *)
Definition end_log_pipe (p : log_pipe) (timeouts : nat) : sys unit :=
  match lp_pump p with
  | Some pump =>
      _ ← close_if (lp_writer p);
      _ ← cancel_reads timeouts;
      _ ← close_handle pump;
      close_if (lp_reader p)
  | None => _ ← close_if (lp_reader p); close_if (lp_writer p)
  end.

(** ** State shared with worker threads *)

(** A [std::shared_ptr] to a state that owns [sh_events]: the last of its owners
    closes them. *)
Record shared := { sh_events : list handle; sh_owners : nat }.

Fixpoint close_all (l : list handle) : sys unit := match l with [] => mret tt | h :: l => _ ← close_handle h; close_all l end.

Definition release (s : shared) : sys shared :=
  match sh_owners s with
  | S O => _ ← close_all (sh_events s); mret {| sh_events := []; sh_owners := 0 |}
  | n => mret {| sh_events := sh_events s; sh_owners := pred n |}
  end.

Fixpoint release_times (n : nat) (s : shared) : sys shared :=
  match n with O => mret s | S n => s ← release s; release_times n s end.

(** *** The asynchronous log *)

Record async_log := { al_state : shared; al_ready : bool; al_thread : option handle; al_accepting : bool }.

(** [AsyncLog::AsyncLog]: the writer thread owns the state too. *)
Definition new_async_log : sys async_log :=
  ready ← open_handle false;
  match ready with
  | None => mret {| al_state := {| sh_events := []; sh_owners := 1 |}; al_ready := false; al_thread := None; al_accepting := false |}
  | Some ready =>
      thread ← open_handle false;
      match thread with
      | Some thread =>
          mret {| al_state := {| sh_events := [ready]; sh_owners := 2 |}; al_ready := true; al_thread := Some thread; al_accepting := true |}
      | None =>
          mret {| al_state := {| sh_events := [ready]; sh_owners := 1 |}; al_ready := true; al_thread := None; al_accepting := false |}
      end
  end.

(** [~AsyncLog]: at most two waits of half a second, then the log's own share. *)
Definition end_async_log (l : async_log) : sys shared :=
  match al_thread l with
  | None => release (al_state l)
  | Some thread =>
      ended ← ask;
      _ ← (if ended : bool then mret true else _ ← ask; ask);
      _ ← close_handle thread;
      release (al_state l)
  end.

(** *** The image resolver *)

Fixpoint open_events (n : nat) : sys (list (option handle)) :=
  match n with O => mret [] | S n => h ← open_handle false; rest ← open_events n; mret (h :: rest) end.

Definition opened (l : list (option handle)) : list handle := omap id l.

(** The workers, until one cannot be started. *)
Fixpoint start_workers (n : nat) (threads : list handle) : sys (list handle * bool) :=
  match n with
  | O => mret (threads, true)
  | S n =>
      thread ← open_handle false;
      match thread with
      | Some thread => start_workers n (threads ++ [thread])
      | None => mret (threads, false)
      end
  end.

(** [stopWorkers]: each handle after one wait for all. *)
Definition stopWorkers (threads : list handle) : sys unit :=
  _ ← cancel_reads (length threads);
  _ ← (match threads with [] => mret false | _ => ask end);
  close_all threads.

Definition kSlots : nat := 16.
Definition kWorkers : nat := 4.

(** What a construction leaves: the shared state with its owners (the object's
    own share included while it exists), the threads it holds, and how many
    workers run. *)
Record image_resolver := { ir_state : shared; ir_threads : list handle; ir_running : nat; ir_constructed : bool }.

Definition new_image_resolver : sys image_resolver :=
  events ← open_events (2 + kSlots);
  let state := {| sh_events := opened events; sh_owners := 1 |} in
  if negb (forallb (fun h => match h with Some _ => true | None => false end) events) then
    state ← release state;
    mret {| ir_state := state; ir_threads := []; ir_running := 0; ir_constructed := false |}
  else
    started ← start_workers kWorkers [];
    let '(threads, all_started) := started in
    let state := {| sh_events := sh_events state; sh_owners := 1 + length threads |} in
    if all_started : bool then
      mret {| ir_state := state; ir_threads := threads; ir_running := length threads; ir_constructed := true |}
    else
      _ ← stopWorkers threads;
      state ← release state;
      mret {| ir_state := state; ir_threads := []; ir_running := length threads; ir_constructed := false |}.

(** [~ImageResolver], then its share. *)
Definition end_image_resolver (r : image_resolver) : sys shared :=
  _ ← stopWorkers (ir_threads r);
  release (ir_state r).

(** [identify] up to [identifyPinned], which owns the handle it is given. *)
Definition identify_process (stopped : bool) : sys (option handle) :=
  if stopped then mret None
  else
    process ← open_handle false;
    match process with
    | None => mret None
    | Some process => times ← ask; if negb times then _ ← close_handle process; mret None else mret (Some process)
    end.

(** ** Ownership *)

(** The open handles are distinct and older than the next one. *)
Record sound (w : world) : Prop := {
  so_distinct : NoDup (w_open w).*1;
  so_old : Forall (fun h => (h < w_next w)%nat) (w_open w).*1
}.

(** [m] takes over [need] and leaves [give]: from any table that holds [need]
    and others, it closes nothing twice, leaves exactly [give] of its result and
    the others open, and no child it creates inherits any of the others. *)
Definition owns {A} (need : list handle) (m : sys A) (give : A -> list handle) : Prop :=
  forall w others, sound w -> (w_open w).*1 ≡ₚ need ++ others ->
  let '(a, w') := m w in
  sound w' /\ w_fault w' = w_fault w /\ (w_open w').*1 ≡ₚ give a ++ others /\
  exists children, w_spawned w' = w_spawned w ++ children /\ Forall (fun l => forall h, h ∈ l -> h ∉ others) children.

Lemma owns_ret {A} (a : A) need give : need ≡ₚ give a -> owns need (mret a) give.
Proof.
  intros Hp w others Hw Ho. cbn. split; [done|]. split; [done|]. split; [by rewrite Ho, Hp|]. exists []. by rewrite app_nil_r.
Qed.

Lemma owns_perm {A} need need' (m : sys A) give : need ≡ₚ need' -> owns need m give -> owns need' m give.
Proof. intros Hp H w others Hw Ho. apply H; [done|]. by rewrite Ho, Hp. Qed.

Lemma owns_give {A} need (m : sys A) give give' : (forall a, give a ≡ₚ give' a) -> owns need m give -> owns need m give'.
Proof. intros Hp H w others Hw Ho. specialize (H w others Hw Ho). destruct (m w) as [a w']. by rewrite <- Hp. Qed.

(** A first part that needs [need] of what is owned; the rest is framed. *)
Lemma owns_bind {A B} need rest (m : sys A) give (k : A -> sys B) give' :
  owns need m give -> (forall a, owns (give a ++ rest) (k a) give') -> owns (need ++ rest) (m ≫= k) give'.
Proof.
  intros Hm Hk w others Hw Ho. rewrite <- app_assoc in Ho. specialize (Hm w (rest ++ others) Hw Ho). unfold mbind, sys_bind.
  destruct (m w) as [a w1]. destruct Hm as (Hw1 & Hf1 & Ho1 & c1 & Hc1 & Hi1). rewrite app_assoc in Ho1.
  specialize (Hk a w1 others Hw1 Ho1). destruct (k a w1) as [b w2]. destruct Hk as (Hw2 & Hf2 & Ho2 & c2 & Hc2 & Hi2).
  split; [done|]. split; [congruence|]. split; [done|]. exists (c1 ++ c2). rewrite Hc2, Hc1, app_assoc. split; [done|].
  apply list.Forall_app. split; [|done]. eapply list.Forall_impl; [exact Hi1|]. intros l Hl h Hh Hin. apply (Hl h Hh).
  apply elem_of_app. by right.
Qed.

Lemma owns_frame {A} need rest (m : sys A) give : owns need m give -> owns (need ++ rest) m (fun a => give a ++ rest).
Proof.
  intros Hm w others Hw Ho. rewrite <- app_assoc in Ho. specialize (Hm w (rest ++ others) Hw Ho). destruct (m w) as [a w'].
  destruct Hm as (Hw' & Hf & Ho' & c & Hc & Hi). split; [done|]. split; [done|]. rewrite <- app_assoc. split; [done|]. exists c. split; [done|].
  eapply list.Forall_impl; [exact Hi|]. intros l Hl h Hh Hin. apply (Hl h Hh), elem_of_app. by right.
Qed.

(** *** The calls *)

Lemma owns_ask : owns [] ask (fun _ => []).
Proof.
  intros w others Hw Ho. unfold ask. destruct (w_answers w) as [|a l]; cbn; (split; [|split; [done|split; [done|exists []; by rewrite app_nil_r]]]).
  - done.
  - destruct Hw; by split.
Qed.

Lemma owns_get_error : owns [] get_error (fun _ => []).
Proof. intros w others Hw Ho. cbn. split; [done|]. split; [done|]. split; [done|]. exists []. by rewrite app_nil_r. Qed.

Lemma owns_set_error e : owns [] (set_error e) (fun _ => []).
Proof. intros w others Hw Ho. cbn. split; [destruct Hw; by split|]. split; [done|]. split; [done|]. exists []. by rewrite app_nil_r. Qed.

Lemma owns_fresh b : owns [] (fresh_handle b) (fun h => [h]).
Proof.
  intros w others [Hd Hold] Ho. cbn. split; [|split; [done|split; [by rewrite Ho|exists []; by rewrite app_nil_r]]]. split; cbn.
  - apply list.NoDup_cons. split; [|done]. intros Hin. rewrite list.Forall_forall in Hold. specialize (Hold _ Hin). lia.
  - constructor; [lia|]. eapply list.Forall_impl; [exact Hold|]. intros h Hh. cbv beta in Hh. lia.
Qed.

Lemma filter_closed (l : list (handle * bool)) h others :
  NoDup l.*1 -> l.*1 ≡ₚ h :: others -> (List.filter (fun e => negb (e.1 =? h)%nat) l).*1 ≡ₚ others.
Proof.
  intros Hd Hp. assert (List.filter (fun x => negb (x =? h)%nat) l.*1 ≡ₚ others) as H.
  { assert (NoDup (h :: others)) as [Hn Ho]%list.NoDup_cons by (by rewrite <- Hp).
    transitivity (List.filter (fun x => negb (x =? h)%nat) (h :: others)).
    - clear -Hp. induction Hp as [|x a b _ IH|x y a|a b c _ IH1 _ IH2]; simpl; [done| | |by transitivity (List.filter (fun x => negb (x =? h)%nat) b)].
      + destruct (x =? h)%nat; simpl; [done|by constructor].
      + destruct (x =? h)%nat, (y =? h)%nat; simpl; try done. constructor.
    - simpl. rewrite Nat.eqb_refl. simpl. clear -Hn. induction others as [|x l IH]; [done|]. apply not_elem_of_cons in Hn as [Hx Hn]. simpl.
      rewrite (proj2 (Nat.eqb_neq x h)) by done. simpl. by rewrite IH. }
  rewrite <- H. clear. induction l as [|[x b] l IH]; [done|]. simpl. destruct (x =? h)%nat; simpl; [done|]. by rewrite IH.
Qed.

Lemma filter_fst_sublist (p : handle * bool -> bool) (l : list (handle * bool)) : (List.filter p l).*1 `sublist_of` l.*1.
Proof. induction l as [|e l IH]; simpl; [done|]. destruct (p e); simpl; by constructor. Qed.

Lemma owns_close h : owns [h] (close_handle h) (fun _ => []).
Proof.
  intros w others Hw Ho. unfold close_handle. set (w' := match w_answers w with [] => w | _ => _ end).
  assert (w_open w' = w_open w /\ w_next w' = w_next w /\ w_fault w' = w_fault w /\ w_spawned w' = w_spawned w) as (Eo & En & Ef & Es)
    by (subst w'; by destruct (w_answers w)).
  assert (is_open h w' = true) as ->.
  { unfold is_open. rewrite Eo. apply existsb_exists. assert (h ∈ (w_open w).*1) as Hin by (rewrite Ho; by left).
    apply list_elem_of_fmap in Hin as (e & -> & He). exists e. split; [by apply list_elem_of_In|apply Nat.eqb_refl]. }
  destruct Hw as [Hd Hold]. cbn [with_open w_fault w_open w_next w_spawned]. rewrite Eo. split; [split; cbn; rewrite ?Eo, ?En|].
  - eapply sublist_NoDup; [exact Hd|apply filter_fst_sublist].
  - rewrite list.Forall_forall in *. intros x Hx. apply Hold. eapply elem_of_sublist; [exact Hx|apply filter_fst_sublist].
  - split; [done|]. split; [by apply filter_closed|]. exists []. by rewrite app_nil_r.
Qed.

Lemma owns_unshare h : owns [] (unshare h) (fun _ => []).
Proof.
  intros w others [Hd Hold] Ho. unfold unshare, with_open. assert (forall l : list (handle * bool), (map (fun e => if (e.1 =? h)%nat then (e.1, false) else e) l).*1 = l.*1) as Hm.
  { induction l as [|e l IH]; [done|]. cbn [map]. rewrite !fmap_cons, IH. by destruct (e.1 =? h)%nat. }
  split; [split; cbn [w_open w_next]; by rewrite Hm|]. split; [done|]. split; [cbn [w_open]; by rewrite Hm|]. exists []. by rewrite app_nil_r.
Qed.

(** A child inherits only what its creator owns. *)
Lemma owns_spawned allowed need : (forall h, h ∈ allowed -> h ∈ need) -> owns need (spawned allowed) (fun _ => need).
Proof.
  intros Ha w others [Hd Hold] Ho. cbn. split; [by split|]. split; [done|]. split; [done|]. exists [allowed]. split; [done|].
  constructor; [|constructor]. intros h Hh%Ha Hin. rewrite Ho in Hd. apply list.NoDup_app in Hd as (_ & Hd & _). by apply (Hd h).
Qed.

Lemma owns_can_inherit allowed : owns [] (can_inherit allowed) (fun _ => []).
Proof. intros w others Hw Ho. cbn. split; [done|]. split; [done|]. split; [done|]. exists []. by rewrite app_nil_r. Qed.

(** *** Sequences of calls *)

(** Each rule runs one call of a sequence on what is owned so far. *)
Lemma ask_then {A} need (k : bool -> sys A) give : (forall ok, owns need (k ok) give) -> owns need (ask ≫= k) give.
Proof. intros H. apply (owns_bind [] need _ _ _ _ owns_ask). exact H. Qed.

Lemma error_then {A} need (k : Z -> sys A) give : (forall e, owns need (k e) give) -> owns need (get_error ≫= k) give.
Proof. intros H. apply (owns_bind [] need _ _ _ _ owns_get_error). exact H. Qed.

Lemma set_error_then {A} need e (k : unit -> sys A) give : owns need (k tt) give -> owns need (set_error e ≫= k) give.
Proof. intros H. apply (owns_bind [] need _ _ _ _ (owns_set_error e)). by intros []. Qed.

Lemma close_then {A} need rest h (k : unit -> sys A) give :
  need ≡ₚ h :: rest -> owns rest (k tt) give -> owns need (close_handle h ≫= k) give.
Proof. intros Hp H. apply (owns_perm (h :: rest)); [done|]. apply (owns_bind [h] rest _ _ _ _ (owns_close h)). by intros []. Qed.

Lemma open_then {A} need b (k : option handle -> sys A) give :
  owns need (k None) give -> (forall h, owns (h :: need) (k (Some h)) give) -> owns need (open_handle b ≫= k) give.
Proof.
  intros Hn Hs. apply (owns_bind [] need (open_handle b) (fun o => match o with Some h => [h] | None => [] end)).
  - apply ask_then. intros []; [|by apply owns_ret]. apply (owns_bind [] [] _ _ _ _ (owns_fresh b)). intros h. by apply owns_ret.
  - intros [h|]; [apply Hs|exact Hn].
Qed.

Lemma pipe_then {A} need b (k : option (handle * handle) -> sys A) give :
  owns need (k None) give -> (forall r w, owns (r :: w :: need) (k (Some (r, w))) give) -> owns need (open_pipe b ≫= k) give.
Proof.
  intros Hn Hs. apply (owns_bind [] need (open_pipe b) (fun o => match o with Some (r, w) => [r; w] | None => [] end)).
  - apply ask_then. intros []; [|by apply owns_ret]. apply (owns_bind [] [] _ _ _ _ (owns_fresh b)). intros r.
    apply (owns_bind [] [r] _ _ _ _ (owns_fresh b)). intros w. apply owns_ret. solve_Permutation.
  - intros [[r w]|]; [apply Hs|exact Hn].
Qed.

Lemma protect_then {A} need h (k : bool -> sys A) give : (forall ok, owns need (k ok) give) -> owns need (protect h ≫= k) give.
Proof.
  intros H. apply (owns_bind [] need (protect h) (fun _ => [])); [|exact H].
  apply ask_then. intros []; [|by apply owns_ret]. apply (owns_bind [] [] _ _ _ _ (owns_unshare h)). intros []. by apply owns_ret.
Qed.

Definition of_process (o : option (handle * handle)) : list handle := match o with Some (p, t) => [p; t] | None => [] end.

Lemma owns_create_process need allowed :
  (forall h, h ∈ allowed -> h ∈ need) -> owns need (create_process allowed) (fun o => of_process o ++ need).
Proof.
  intros Ha. apply ask_then. intros ok. apply (owns_bind [] need _ _ _ _ (owns_can_inherit allowed)). intros possible.
  destruct (ok && possible); [|by apply owns_ret]. apply (owns_bind [] need _ _ _ _ (owns_fresh false)). intros p.
  apply (owns_bind [] (p :: need) _ _ _ _ (owns_fresh false)). intros t. cbn [app].
  apply (owns_perm ((t :: p :: need) ++ [])); [by rewrite app_nil_r|]. apply (owns_bind (t :: p :: need) [] (spawned allowed) (fun _ => t :: p :: need)).
  - apply owns_spawned. intros h Hh%Ha. by do 2 right.
  - intros []. apply owns_ret. rewrite app_nil_r. apply perm_swap.
Qed.

Lemma owns_create need allowed :
  (forall h, h ∈ allowed -> h ∈ need) -> owns need (createWithInheritedHandles allowed) (fun o => of_process o ++ need).
Proof.
  intros Ha. apply ask_then. intros _. apply ask_then. intros []; [|by apply owns_ret]. apply ask_then. intros updated.
  apply (owns_perm (need ++ [])); [by rewrite app_nil_r|].
  apply (owns_bind need [] _ (fun o => of_process o ++ need)).
  - destruct updated; [by apply owns_create_process|by apply owns_ret].
  - intros o. apply error_then. intros e. apply ask_then. intros _. apply set_error_then. apply owns_ret. by rewrite app_nil_r.
Qed.

Lemma create_then {A} need allowed (create : sys (option (handle * handle))) (k : option (handle * handle) -> sys A) give :
  create = create_process allowed \/ create = createWithInheritedHandles allowed -> (forall h, h ∈ allowed -> h ∈ need) ->
  owns need (k None) give -> (forall p t, owns (p :: t :: need) (k (Some (p, t))) give) -> owns need (create ≫= k) give.
Proof.
  intros Hc Ha Hn Hs. apply (owns_perm (need ++ [])); [by rewrite app_nil_r|].
  apply (owns_bind need [] _ (fun o => of_process o ++ need)).
  - destruct Hc as [-> | ->]; [by apply owns_create_process|by apply owns_create].
  - intros [[p t]|]; rewrite app_nil_r; [apply Hs|exact Hn].
Qed.

Lemma ret_then {A B} (a : A) need (k : A -> sys B) give : owns need (k a) give -> owns need (mret a ≫= k) give.
Proof. intros H. exact H. Qed.

Ltac own_perm := cbn [of_process app]; first [reflexivity | solve_Permutation].

(** A list without one of its elements. *)
Ltac without h l :=
  match l with
  | h :: ?t => constr:(t)
  | ?x :: ?t => let t' := without h t in constr:(x :: t')
  end.

(** One call of a sequence, with its outcomes. *)
Ltac call :=
  match goal with
  | |- owns _ (mret _) _ => apply owns_ret; own_perm
  | |- owns _ (mret _ ≫= _) _ => apply ret_then
  | |- owns _ (ask ≫= _) _ => apply ask_then; intros []
  | |- owns _ (get_error ≫= _) _ => apply error_then; intros ?
  | |- owns _ (set_error _ ≫= _) _ => apply set_error_then
  | |- owns _ (protect _ ≫= _) _ => apply protect_then; intros []
  | |- owns _ (open_handle _ ≫= _) _ => apply open_then; [|intros ?]
  | |- owns _ (open_pipe _ ≫= _) _ => apply pipe_then; [|intros ? ?]
  | |- owns ?l (close_handle ?h ≫= _) _ => let rest := without h l in apply (close_then l rest h); [own_perm|]
  end; cbn [negb close_if].

Definition held (o : option handle) : list handle := match o with Some h => [h] | None => [] end.

Lemma owns_startDispatcher : owns [] startDispatcher held.
Proof.
  unfold startDispatcher. repeat call.
  all: eapply create_then; [right; reflexivity|intros ?; rewrite !elem_of_cons; tauto| |intros p t]; repeat call.
Qed.

Lemma owns_startNrptHelper found : owns [] (startNrptHelper found) held.
Proof.
  unfold startNrptHelper. destruct found; cbn [negb]; [|call].
  eapply create_then; [left; reflexivity|by intros h ?%elem_of_nil| |intros p t]; repeat call.
Qed.

Lemma owns_imageMatches : owns [] imageMatches (fun _ => []).
Proof. unfold imageMatches. call; [apply owns_ask|call]. Qed.

Lemma owns_adopt candidate running : owns [] (adopt_process candidate running) held.
Proof.
  unfold adopt_process. destruct (candidate =? 0); [call|]. repeat call. apply (owns_bind [] _ _ (fun _ => [])).
  - destruct running; [apply owns_imageMatches|call].
  - intros []; cbn [app negb]; repeat call.
Qed.

Lemma owns_tray_launch : owns [] tray_launch (fun _ => []).
Proof.
  unfold tray_launch. eapply create_then; [left; reflexivity|by intros h ?%elem_of_nil| |intros p t]; repeat call.
Qed.

Lemma owns_identify stopped : owns [] (identify_process stopped) held.
Proof. unfold identify_process. destruct stopped; repeat call. Qed.

(** *** The log pipe *)

Definition pipe_handles (p : log_pipe) : list handle := held (lp_reader p) ++ held (lp_writer p) ++ held (lp_pump p).

Lemma owns_new_log_pipe : owns [] new_log_pipe pipe_handles.
Proof. unfold new_log_pipe. repeat call. Qed.

Lemma owns_cancel n : owns [] (cancel_reads n) (fun _ => []).
Proof. induction n as [|n IH]; cbn [cancel_reads]; [call|]. call; exact IH. Qed.

Lemma owns_close_if o : owns (held o) (close_if o) (fun _ => []).
Proof. destruct o; cbn [close_if held]; [apply owns_close|call]. Qed.

Lemma owns_end_log_pipe p timeouts : owns (pipe_handles p) (end_log_pipe p timeouts) (fun _ => []).
Proof.
  unfold end_log_pipe, pipe_handles. destruct (lp_pump p) as [pump|].
  - apply (owns_perm (held (lp_writer p) ++ pump :: held (lp_reader p))).
    { cbn [held]. solve_Permutation. }
    apply (owns_bind _ _ _ _ _ _ (owns_close_if (lp_writer p))). intros []. cbn [app].
    apply (owns_bind [] _ _ _ _ _ (owns_cancel timeouts)). intros []. cbn [app].
    eapply close_then; [reflexivity|]. apply owns_close_if.
  - cbn [held]. apply (owns_bind _ _ _ _ _ _ (owns_close_if (lp_reader p))). intros []. rewrite app_nil_r. apply owns_close_if.
Qed.

(** *** Shared states *)

Lemma owns_close_all l : owns l (close_all l) (fun _ => []).
Proof. induction l as [|h l IH]; cbn [close_all]; [call|]. eapply close_then; [reflexivity|exact IH]. Qed.

(** The handles a state still owns. *)
Definition shared_handles (s : shared) : list handle := match sh_owners s with O => [] | S _ => sh_events s end.

Lemma owns_release s : (1 <= sh_owners s)%nat ->
  owns (shared_handles s) (release s) (fun s' => shared_handles s').
Proof.
  intros H. unfold release, shared_handles. destruct s as [events [|[|n]]]; cbn in *; [lia| |by apply owns_ret].
  apply (owns_perm (events ++ [])); [by rewrite app_nil_r|]. apply (owns_bind _ _ _ _ _ _ (owns_close_all events)). intros []. by apply owns_ret.
Qed.

Lemma release_owners s w : sh_owners (release s w).1 = pred (sh_owners s).
Proof.
  unfold release. destruct s as [events [|[|n]]]; cbn; try done. unfold mbind, sys_bind. by destruct (close_all events w).
Qed.

(** The same, with the number of owners left. *)
Lemma release_then {A} s n need (k : shared -> sys A) give : sh_owners s = S n -> need ≡ₚ shared_handles s ->
  (forall s', sh_owners s' = n -> owns (shared_handles s') (k s') give) -> owns need (release s ≫= k) give.
Proof.
  intros Hn Hp Hk w others Hw Ho. pose proof (owns_release s) as H. rewrite Hn in H. specialize (H ltac:(lia) w others Hw).
  rewrite Hp in Ho. specialize (H Ho). pose proof (release_owners s w) as Hr. unfold mbind, sys_bind.
  destruct (release s w) as [s' w1]. cbn [fst] in Hr. rewrite Hn in Hr. destruct H as (Hw1 & Hf1 & Ho1 & c1 & Hc1 & Hi1).
  specialize (Hk s' Hr w1 others Hw1 Ho1). destruct (k s' w1) as [b w2]. destruct Hk as (Hw2 & Hf2 & Ho2 & c2 & Hc2 & Hi2).
  split; [done|]. split; [congruence|]. split; [done|]. exists (c1 ++ c2). rewrite Hc2, Hc1, app_assoc. split; [done|].
  by apply list.Forall_app.
Qed.

Lemma owns_release_times n s : sh_owners s = n -> owns (shared_handles s) (release_times n s) (fun _ => []).
Proof.
  revert s. induction n as [|n IH]; intros s Hn; cbn [release_times].
  - apply owns_ret. unfold shared_handles. by rewrite Hn.
  - by eapply release_then.
Qed.

(** *** The asynchronous log and the image resolver *)

Definition async_handles (l : async_log) : list handle := shared_handles (al_state l) ++ held (al_thread l).

Lemma owns_new_async_log : owns [] new_async_log async_handles.
Proof. unfold new_async_log. repeat call. Qed.

Lemma owns_open_events n : owns [] (open_events n) opened.
Proof.
  induction n as [|n IH]; cbn [open_events]; [call|]. call.
  - apply (owns_bind [] [] _ _ _ _ IH). intros rest. apply owns_ret. by rewrite app_nil_r.
  - apply (owns_bind [] [h] _ _ _ _ IH). intros rest. apply owns_ret. cbn [opened omap list_omap id]. rewrite Permutation_app_comm. done.
Qed.

Lemma owns_start_workers n threads : owns threads (start_workers n threads) fst.
Proof.
  revert threads. induction n as [|n IH]; intros threads; cbn [start_workers]; [call|]. call; [call|].
  apply (owns_perm (threads ++ [h])); [|apply IH]. by rewrite Permutation_app_comm.
Qed.

Lemma owns_stopWorkers threads : owns threads (stopWorkers threads) (fun _ => []).
Proof.
  unfold stopWorkers. apply (owns_bind [] _ _ _ _ _ (owns_cancel _)). intros []. cbn [app].
  destruct threads as [|h l]; [apply ret_then, owns_close_all|]. call; apply owns_close_all.
Qed.

(** What is held of a resolver: its state, by all its owners, and its threads;
    a failed construction has given up its own share. *)
Definition resolver_handles (r : image_resolver) : list handle := shared_handles (ir_state r) ++ ir_threads r.

(** A first part whose result is known to satisfy [P]. *)
Lemma owns_bind_where {A B} (P : A -> Prop) need rest (m : sys A) give (k : A -> sys B) give' :
  owns need m give -> (forall w, P (m w).1) -> (forall a, P a -> owns (give a ++ rest) (k a) give') -> owns (need ++ rest) (m ≫= k) give'.
Proof.
  intros Hm HP Hk w others Hw Ho. specialize (HP w). revert HP. rewrite <- app_assoc in Ho. specialize (Hm w (rest ++ others) Hw Ho).
  unfold mbind, sys_bind. destruct (m w) as [a w1]. intros HP. destruct Hm as (Hw1 & Hf1 & Ho1 & c1 & Hc1 & Hi1). rewrite app_assoc in Ho1.
  specialize (Hk a HP w1 others Hw1 Ho1). destruct (k a w1) as [b w2]. destruct Hk as (Hw2 & Hf2 & Ho2 & c2 & Hc2 & Hi2).
  split; [done|]. split; [congruence|]. split; [done|]. exists (c1 ++ c2). rewrite Hc2, Hc1, app_assoc. split; [done|].
  apply list.Forall_app. split; [|done]. eapply list.Forall_impl; [exact Hi1|]. intros l Hl h Hh Hin. apply (Hl h Hh).
  apply elem_of_app. by right.
Qed.

(** A log from its construction on: some workers end before the object is
    destroyed, the others (a sink that ignores its cancellation) after it. *)
Definition async_log_life (early : bool) : sys unit :=
  l ← new_async_log;
  s ← (match al_thread l with
       | Some thread =>
           if early then
             state ← release (al_state l);
             end_async_log {| al_state := state; al_ready := al_ready l; al_thread := Some thread; al_accepting := al_accepting l |}
           else end_async_log l
       | None => end_async_log l
       end);
  _ ← release_times (sh_owners s) s;
  mret tt.

Lemma new_async_owners w :
  let l := (new_async_log w).1 in sh_owners (al_state l) = match al_thread l with Some _ => 2%nat | None => 1%nat end.
Proof.
  unfold new_async_log, open_handle, mbind, sys_bind, ask. destruct (w_answers w) as [|[[] c] [|[[] c'] l]]; done.
Qed.

Lemma owns_end_async_log l : (1 <= sh_owners (al_state l))%nat -> owns (async_handles l) (end_async_log l) shared_handles.
Proof.
  intros H. unfold end_async_log, async_handles. destruct (al_thread l) as [t|]; cbn [held].
  - apply (owns_perm (t :: shared_handles (al_state l))); [by rewrite Permutation_app_comm|].
    apply ask_then. intros ended. apply (owns_bind [] _ _ (fun _ => [])).
    { destruct ended; [call|]. apply ask_then. intros _. apply owns_ask. }
    intros _. cbn [app]. eapply close_then; [reflexivity|by apply owns_release].
  - rewrite app_nil_r. by apply owns_release.
Qed.

Lemma owns_async_log_life early : owns [] (async_log_life early) (fun _ => []).
Proof.
  unfold async_log_life.
  apply (owns_bind_where (fun l => sh_owners (al_state l) = match al_thread l with Some _ => 2%nat | None => 1%nat end)
    [] [] _ _ _ _ owns_new_async_log new_async_owners). intros l Hl.
  apply (owns_bind _ _ _ shared_handles).
  - assert (1 <= sh_owners (al_state l))%nat as H1 by (rewrite Hl; case_match; lia).
    destruct (al_thread l) as [t|] eqn:Et; [destruct early|]; try by apply owns_end_async_log.
    unfold async_handles. rewrite Et. cbn [held].
    apply (owns_bind_where (fun s => sh_owners s = 1%nat) _ [t] (release (al_state l)) shared_handles).
    + by apply owns_release.
    + intros w. by rewrite release_owners, Hl.
    + intros s Hs. apply (owns_end_async_log {| al_state := s; al_ready := al_ready l; al_thread := Some t; al_accepting := al_accepting l |}).
      cbn [al_state]. lia.
  - intros s. rewrite app_nil_r. apply (owns_perm (shared_handles s ++ [])); [by rewrite app_nil_r|].
    apply (owns_bind _ _ _ _ _ _ (owns_release_times _ s eq_refl)). intros s'. call.
Qed.

(** A resolver from its construction on: [early] of its workers end before it is
    destroyed. *)
Definition image_resolver_life (early : nat) : sys unit :=
  r ← new_image_resolver;
  if ir_constructed r then
    state ← release_times (Nat.min early (ir_running r)) (ir_state r);
    s ← end_image_resolver {| ir_state := state; ir_threads := ir_threads r; ir_running := ir_running r; ir_constructed := true |};
    _ ← release_times (sh_owners s) s;
    mret tt
  else
    _ ← release_times (sh_owners (ir_state r)) (ir_state r);
    mret tt.

Lemma owns_new_image_resolver : owns [] new_image_resolver resolver_handles.
Proof.
  unfold new_image_resolver. apply (owns_bind [] [] _ _ _ _ (owns_open_events _)). intros events. rewrite app_nil_r. cbv zeta.
  destruct (forallb _ events); cbn [negb].
  - apply (owns_perm ([] ++ opened events)); [done|]. apply (owns_bind [] _ _ fst _ _ (owns_start_workers _ [])). intros [threads []]; cbn [fst sh_events].
    + apply owns_ret. unfold resolver_handles, shared_handles. cbn. by rewrite Permutation_app_comm.
    + apply (owns_bind _ _ _ _ _ _ (owns_stopWorkers threads)). intros []. cbn [app].
      eapply release_then; [reflexivity|done|]. intros s' _. apply owns_ret. unfold resolver_handles. cbn. by rewrite app_nil_r.
  - eapply release_then; [reflexivity|done|]. intros s' _. apply owns_ret. unfold resolver_handles. cbn. by rewrite app_nil_r.
Qed.

Lemma new_resolver_owners w : let r := (new_image_resolver w).1 in
  sh_owners (ir_state r) = ((if ir_constructed r then 1 else 0) + ir_running r)%nat /\ (ir_constructed r = false -> ir_threads r = []).
Proof.
  destruct (new_image_resolver w) as [r w'] eqn:E. cbn [fst]. cbv zeta. unfold new_image_resolver, mbind, sys_bind in E.
  destruct (open_events _ w) as [events w1]. destruct (negb _).
  - pose proof (release_owners {| sh_events := opened events; sh_owners := 1 |} w1) as H. destruct (release _ w1) as [s w2].
    injection E as <- _. cbn [fst] in H. cbn [ir_state ir_constructed ir_running ir_threads]. by rewrite H.
  - destruct (start_workers _ _ w1) as [[threads []] w2]; [by injection E as <- _|]. destruct (stopWorkers threads w2) as [? w3].
    pose proof (release_owners {| sh_events := opened events; sh_owners := 1 + length threads |} w3) as H.
    cbn [sh_events] in E. destruct (release _ w3) as [s w4]. injection E as <- _. cbn [fst] in H.
    cbn [ir_state ir_constructed ir_running ir_threads]. by rewrite H.
Qed.

Lemma release_times_owners n s w : (n <= sh_owners s)%nat -> sh_owners (release_times n s w).1 = (sh_owners s - n)%nat.
Proof.
  revert s w. induction n as [|n IH]; intros s w Hn; cbn [release_times]; [cbn; lia|]. unfold mbind, sys_bind.
  pose proof (release_owners s w) as H. destruct (release s w) as [s' w']. cbn [fst] in H. rewrite IH; lia.
Qed.

Lemma owns_release_some n s : (n <= sh_owners s)%nat -> owns (shared_handles s) (release_times n s) shared_handles.
Proof.
  revert s. induction n as [|n IH]; intros s Hn; cbn [release_times]; [by apply owns_ret|].
  eapply release_then; [|done|]; [instantiate (1 := pred (sh_owners s)); lia|]. intros s' Hs. apply IH. lia.
Qed.

Lemma owns_image_resolver_life early : owns [] (image_resolver_life early) (fun _ => []).
Proof.
  unfold image_resolver_life.
  apply (owns_bind_where (fun r => sh_owners (ir_state r) = ((if ir_constructed r then 1 else 0) + ir_running r)%nat /\ (ir_constructed r = false -> ir_threads r = []))
    [] [] _ _ _ _ owns_new_image_resolver new_resolver_owners).
  intros r [Hr Ht]. rewrite app_nil_r. unfold resolver_handles. destruct (ir_constructed r).
  - apply (owns_bind_where (fun s => (1 <= sh_owners s)%nat) _ _ _ shared_handles); [apply owns_release_some; lia| |].
    { intros w. rewrite release_times_owners; lia. }
    intros s Hs. unfold end_image_resolver. cbn [ir_threads ir_state]. apply (owns_perm ((ir_threads r ++ shared_handles s) ++ [])); [rewrite app_nil_r; by rewrite Permutation_app_comm|].
    apply (owns_bind _ _ _ shared_handles).
    + apply (owns_bind _ _ _ _ _ _ (owns_stopWorkers _)). intros []. cbn [app]. by apply owns_release.
    + intros s'. rewrite app_nil_r. apply (owns_perm (shared_handles s' ++ [])); [by rewrite app_nil_r|].
      apply (owns_bind _ _ _ _ _ _ (owns_release_times _ s' eq_refl)). intros s''. call.
  - rewrite Ht by done. apply (owns_bind _ _ _ _ _ _ (owns_release_times _ (ir_state r) eq_refl)). intros s'. call.
Qed.

(** A log pipe from its construction on, with [timeouts] waits for its pump. *)
Definition log_pipe_life (timeouts : nat) : sys unit := p ← new_log_pipe; end_log_pipe p timeouts.

Lemma owns_log_pipe_life timeouts : owns [] (log_pipe_life timeouts) (fun _ => []).
Proof.
  unfold log_pipe_life. apply (owns_bind [] [] _ _ _ _ owns_new_log_pipe). intros p. rewrite app_nil_r. apply owns_end_log_pipe.
Qed.


(** With a file and another handle open, a dispatcher started on the second
    attempt at its output inherits its input and output alone. *)
Definition busy_world : world := {| w_next := 3; w_open := [(2, true); (1, false)]%nat; w_fault := false; w_error := 0; w_spawned := [];
  w_answers := map (fun ok : bool => {| succeeds := ok; code := 5 |}) [false; true; true; false; true; true; true; true] |}.

Example dispatcher_started :
  let '(result, w) := startDispatcher busy_world in
  result = Some 5%nat /\ (w_open w).*1 = [5; 2; 1]%nat /\ w_fault w = false /\ w_spawned w = [[4; 3]]%nat.
Proof. vm_compute. done. Qed.
