(* ===== verification/TrayRun.v ===== *)
(** * TrayRun: one bounded run of a tray action

    Models [Action::run] and [Action::execute] of [src/src/native/tray-support.h]:
    the runner's process with the handles it is given, the loop that reads its
    result frame under a deadline, and the order of an action's runs.  What the
    runner writes and when is an argument, one entry for every turn of the loop.
    The shared state and its interleaving with the interface are in [Tray], the
    frame's format in [Runner]. *)
From S2P Require Import Prelude Numbers DnsWire Identity Runner Commands Handles Inputs.

Definition kFrameLimit : Z := 256 * 1024.

(** ** Reading the frame *)

(** One turn: the stop flag, the awake clock ([None] when it cannot be read), the
    flag of a change under way, the bytes the pipe offers (0 also when it cannot
    be asked), what is read of them, whether the process has ended by the end of
    the turn's wait, and whether the pipe offers more then. *)
Record frame_turn := {
  ft_stop : bool; ft_now : option Z; ft_finish : bool; ft_available : Z; ft_read : option (list Z); ft_exited : bool; ft_more : bool
}.

Inductive loop_end :=
| LoopThrew (message : list Z)              (* the runner is terminated *)
| StillFinishing                            (* it is left to finish *)
| Finished (frame : list Z) (overflow : bool).

(** At most 4096 bytes are read at a time; what exceeds the limit is dropped. *)
Definition append_frame (frame chunk : list Z) (overflow : bool) : list Z * bool :=
  if Z.of_nat (length frame + length chunk) <=? kFrameLimit then (frame ++ chunk, overflow) else (frame, true).

(** [None]: the turns end before the loop does. *)
Fixpoint frame_loop (turns : list frame_turn) (deadline : Z) (frame : list Z) (overflow : bool) : option loop_end :=
  match turns with
  | [] => None
  | t :: turns =>
      if ft_stop t then Some (LoopThrew (str "Tray action cancelled"))
      else match ft_now t with
      | None => Some (LoopThrew (str "Cannot read the awake-time clock"))
      | Some now =>
          if deadline <=? now then
            Some (if ft_finish t then StillFinishing else LoopThrew (str "Tray action timed out"))
          else if negb (ft_available t =? 0) then
            match ft_read t with
            | None => Some (LoopThrew (str "Cannot read action result"))
            | Some bytes =>
                let '(frame, overflow) := append_frame frame (firstn (Z.to_nat (Z.min (ft_available t) 4096)) bytes) overflow in
                frame_loop turns deadline frame overflow
            end
          else if ft_exited t then
            if ft_more t then frame_loop turns deadline frame overflow else Some (Finished frame overflow)
          else frame_loop turns deadline frame overflow
      end
  end.

(** ** The run *)

Inductive outcome :=
| Thrown (message : list Z)
| BadFrame                                   (* [resultFrame] throws *)
| Returned (ok : bool) (message : list Z).

Definition still_finishing : list Z := str "The change may still be finishing. Check its status before another change.".

Section Run.
Context {U : Utf8} {B : Unbase64}.

Definition run_result (strict : bool) (e : loop_end) : outcome :=
  match e with
  | LoopThrew message => Thrown message
  | StillFinishing => Returned false still_finishing
  | Finished frame overflow =>
      if overflow then Thrown (str "Tray action result exceeds its limit")
      else match resultFrame frame strict with Some (ok, message) => Returned ok message | None => BadFrame end
  end.

(** A throwing loop terminates the runner. *)
Definition end_loop (e : loop_end) : sys unit :=
  match e with LoopThrew _ => _ ← ask; _ ← ask; mret tt | _ => mret tt end.

(** [Action::run] with the loop's end; locals are released in reverse order. *)
Definition run (stopped strict : bool) (encoded : option (list Z)) (e : loop_end) : sys outcome :=
  if stopped then mret (Thrown (str "Tray action cancelled"))
  else match encoded with
  | None => mret (Thrown (str "Cannot encode tray action"))
  | Some _ =>
      ends ← open_pipe true;
      match ends with
      | None => mret (Thrown (str "Cannot create action pipe"))
      | Some (output, writer) =>
          isolated ← protect output;
          if negb isolated then
            _ ← close_handle writer; _ ← close_handle output; mret (Thrown (str "Cannot protect action pipe"))
          else
            input ← open_handle true;
            error ← open_handle true;
            match input, error with
            | Some input, Some error =>
                created ← createWithInheritedHandles [input; writer; error];
                match created with
                | None =>
                    _ ← close_handle error; _ ← close_handle input; _ ← close_handle writer; _ ← close_handle output;
                    mret (Thrown (str "Cannot start bounded tray action"))
                | Some (process, thread) =>
                    resumed ← (if strict then _ ← ask; ask else mret true : sys bool);
                    if negb resumed then
                      _ ← ask; _ ← ask;
                      _ ← close_handle thread; _ ← close_handle process; _ ← close_handle error; _ ← close_handle input;
                      _ ← close_handle writer; _ ← close_handle output;
                      mret (Thrown (str "Cannot resume file selection"))
                    else
                      _ ← close_handle writer;
                      clock ← ask;   (* [awakeMilliseconds] for the deadline *)
                      _ ← (if clock : bool then end_loop e else mret tt);
                      _ ← close_handle thread; _ ← close_handle process; _ ← close_handle error; _ ← close_handle input;
                      _ ← close_handle output;
                      mret (if clock : bool then run_result strict e else Thrown (str "Cannot read the awake-time clock"))
                end
            | _, _ =>
                _ ← close_if error; _ ← close_if input; _ ← close_handle writer; _ ← close_handle output;
                mret (Thrown (str "Cannot create action streams"))
            end
      end
  end.

(** ** An action *)

(** What an action asks of [run]: the child's command line, its time and whether
    its output is strict; [mark]: a change is marked before. *)
Inductive request := Pick (child : list Z) | Mark | Act (child : list Z) (timeout : Z).

(** The second half: the mark and the controller's command.  [answer] is what
    [run] returns for a child, [stopped] whether the operation is stopped at the
    mark, [system] the system directory. *)
Definition act_on (root action value : list Z) (answer : list Z -> outcome) (stopped : bool) (system : option (list Z)) :
    list request * outcome :=
  let changes := negb (bool_decide (action = str "Status")) in
  if changes && stopped then ([], Thrown (str "Tray action cancelled"))
  else
    let marked := if changes then [Mark] else [] in
    match system with
    | None => (marked, Thrown (str "Cannot find Windows PowerShell"))
    | Some directory =>
        let child := action_command (directory ++ str "\WindowsPowerShell\v1.0\powershell.exe") (root ++ str "\src\TrayActions.ps1") action value in
        (marked ++ [Act child (if bool_decide (action = str "Import") then 240000 else 30000)], answer child)
    end.

(** The requests made, in order, and the outcome. *)
Definition execute (root action value : list Z) (answer : list Z -> outcome) (stopped : bool) (system : option (list Z)) :
    list request * outcome :=
  if bool_decide (action = str "PickAdd") || bool_decide (action = str "PickImport") then
    let picked := quote (root ++ str "\bin\tray.exe") ++
                  (if bool_decide (action = str "PickAdd") then str " --pick-app" else str " --pick-profile") in
    match answer picked with
    | Returned true message =>
        if bool_decide (message = str "CANCEL") then ([Pick picked], Returned true [])
        else if negb (starts_with (str "SELECT:") message) || (length message <=? 7)%nat then
          ([Pick picked], Thrown (str "Invalid file-picker result"))
        else
          let '(requests, o) :=
            act_on root (if bool_decide (action = str "PickAdd") then str "Add" else str "Import") (drop 7 message) answer stopped system in
          (Pick picked :: requests, o)
    | o => ([Pick picked], o)
    end
  else act_on root action value answer stopped system.
End Run.

(** ** What a frame holds *)

Lemma append_frame_limit frame chunk overflow :
  Z.of_nat (length frame) <= kFrameLimit -> Z.of_nat (length (append_frame frame chunk overflow).1) <= kFrameLimit.
Proof. unfold append_frame. intros H. case_match eqn:E; [|done]. cbn [fst]. bool_to_prop. by rewrite length_app. Qed.

(** What the turns up to the loop's end read. *)
Fixpoint read_of (turns : list frame_turn) : list Z :=
  match turns with
  | [] => []
  | t :: turns =>
      if negb (ft_available t =? 0)
      then firstn (Z.to_nat (Z.min (ft_available t) 4096)) (default [] (ft_read t)) ++ read_of turns
      else if ft_exited t && negb (ft_more t) then [] else read_of turns
  end.

Lemma frame_loop_spec turns deadline frame overflow result overflow' :
  Z.of_nat (length frame) <= kFrameLimit -> frame_loop turns deadline frame overflow = Some (Finished result overflow') ->
  Z.of_nat (length result) <= kFrameLimit /\ (overflow = true -> overflow' = true) /\
  (overflow' = false -> result = frame ++ read_of turns) /\
  (overflow = false -> Z.of_nat (length (frame ++ read_of turns)) <= kFrameLimit -> overflow' = false).
Proof.
  revert frame overflow. induction turns as [|t turns IH]; intros frame overflow Hl; [done|]. cbn [frame_loop read_of].
  destruct (ft_stop t); [done|]. destruct (ft_now t) as [now|]; [|done]. destruct (deadline <=? now); [by destruct (ft_finish t)|].
  destruct (ft_available t =? 0); cbn [negb].
  - destruct (ft_exited t), (ft_more t); cbn [andb negb]; try by apply IH. intros [= <- <-]. rewrite app_nil_r. done.
  - destruct (ft_read t) as [bytes|]; [|done]. cbn [default]. set (chunk := firstn _ _).
    pose proof (append_frame_limit frame chunk overflow Hl) as Hl'. destruct (append_frame frame chunk overflow) as [frame' o'] eqn:Ea.
    intros H. apply IH in H as (H1 & H2 & H3 & H4); [|done]. unfold append_frame in Ea. case_match eqn:E; injection Ea as <- <-.
    + rewrite <- app_assoc in H3, H4. done.
    + split; [done|]. specialize (H2 eq_refl) as ->. split; [done|]. split; [done|]. intros -> Hlen. bool_to_prop. rewrite !length_app in Hlen. lia.
Qed.

(** A tray action's result is read whole or refused.  When the loop ends
    with the process, the frame is exactly what its turns read, as long as that
    is at most 256 KiB, and otherwise the result is refused; no more than that is
    ever kept. *)
Theorem frame_read_whole turns deadline frame overflow :
  frame_loop turns deadline [] false = Some (Finished frame overflow) ->
  Z.of_nat (length frame) <= kFrameLimit /\
  (overflow = false <-> Z.of_nat (length (read_of turns)) <= kFrameLimit) /\
  (overflow = false -> frame = read_of turns) /\
  (overflow = true -> forall (U : Utf8) (B : Unbase64) strict,
     run_result strict (Finished frame overflow) = Thrown (str "Tray action result exceeds its limit")).
Proof.
  intros H. apply frame_loop_spec in H as (H1 & _ & H3 & H4); [|vm_compute; discriminate]. cbn [app] in *.
  split; [done|]. split; [|split; [done|by intros -> U B strict]]. split; [intros Ho; by rewrite <- H3|by apply H4].
Qed.

(** A frame in two reads, then the end. *)
Definition data_turn (bytes : list Z) : frame_turn := {| ft_stop := false; ft_now := Some 10; ft_finish := false;
  ft_available := Z.of_nat (length bytes); ft_read := Some bytes; ft_exited := false; ft_more := false |}.
Definition last_turn : frame_turn := {| ft_stop := false; ft_now := Some 20; ft_finish := false; ft_available := 0; ft_read := None;
  ft_exited := true; ft_more := false |}.

Lemma frame_read_whole_witness :
  frame_loop [data_turn (str "WGPS-RUN 1"); data_turn [10]; last_turn] 1000 [] false = Some (Finished (str "WGPS-RUN 1" ++ [10]) false) /\
  str "WGPS-RUN 1" ++ [10] = read_of [data_turn (str "WGPS-RUN 1"); data_turn [10]; last_turn].
Proof.
  assert (frame_loop [data_turn (str "WGPS-RUN 1"); data_turn [10]; last_turn] 1000 [] false = Some (Finished (str "WGPS-RUN 1" ++ [10]) false)) as H
    by (vm_compute; reflexivity).
  split; [exact H|]. apply (frame_read_whole _ _ _ _ H). reflexivity.
Defined.

(** The loop ends: once the clock has reached the deadline, at the latest. *)
Theorem frame_loop_ends turns deadline frame overflow :
  Exists (fun t => match ft_now t with Some now => deadline <= now | None => True end) turns ->
  frame_loop turns deadline frame overflow <> None.
Proof.
  intros H. revert frame overflow. induction H as [t turns Ht|t turns _ IH]; intros frame overflow; cbn [frame_loop].
  - destruct (ft_stop t); [done|]. destruct (ft_now t) as [now|]; [|done]. by rewrite (proj2 (Z.leb_le deadline now)).
  - destruct (ft_stop t); [done|]. destruct (ft_now t); [|done]. destruct (deadline <=? _); [done|]. destruct (negb _).
    + destruct (ft_read t); [|done]. destruct (append_frame _ _ _). apply IH.
    + destruct (ft_exited t), (ft_more t); done || apply IH.
Qed.

(** Every handle of a run is released, and the runner gets its three streams
    alone. *)
Theorem run_releases (U : Utf8) (B : Unbase64) stopped strict encoded e : owns [] (run stopped strict encoded e) (fun _ => []).
Proof.
  unfold run. destruct stopped; [call|]. destruct encoded; [|call]. repeat call.
  eapply create_then; [right; reflexivity|intros ?; rewrite !elem_of_cons; tauto|repeat call|intros p t].
  apply (owns_bind [] _ _ (fun _ => [])); [destruct strict; [call; apply owns_ask|call]|]. intros []; cbn [negb app]; repeat call.
  apply (owns_bind [] _ _ (fun _ => [])); [destruct e; cbn [end_loop]; repeat call|]. intros []. cbn [app]. repeat call.
Qed.

(** ** What an action asks for *)

(** The requests of the second half. *)
Record acted (action : list Z) (stopped : bool) (requests : list request) (o : outcome) (marks acts : list request) : Prop := {
  ac_requests : requests = marks ++ acts;
  ac_marks : marks = [] \/ marks = [Mark];
  ac_acts r : r ∈ acts -> exists child timeout, r = Act child timeout;
  ac_one : (length acts <= 1)%nat;
  ac_first : acts <> [] -> action <> str "Status" -> marks = [Mark] /\ stopped = false;
  ac_nothing message : acts = [] -> o <> Returned true message
}.

Lemma act_on_acted root action value answer stopped system requests o :
  act_on root action value answer stopped system = (requests, o) -> exists marks acts, acted action stopped requests o marks acts.
Proof.
  unfold act_on. cbv zeta. case_bool_decide as Ha; cbn [negb andb].
  - destruct system as [d|]; intros [= <- <-]; [exists [], [Act (action_command (d ++ str "\WindowsPowerShell\v1.0\powershell.exe") (root ++ str "\src\TrayActions.ps1") action value) (if bool_decide (action = str "Import") then 240000 else 30000)]|exists [], []];
      split; try done; auto; [intros r ->%list_elem_of_singleton; eauto|by intros r ?%elem_of_nil].
  - destruct stopped; [intros [= <- <-]; exists [], []; split; try done; auto; by intros r ?%elem_of_nil|].
    destruct system as [d|]; intros [= <- <-]; [exists [Mark], [Act (action_command (d ++ str "\WindowsPowerShell\v1.0\powershell.exe") (root ++ str "\src\TrayActions.ps1") action value) (if bool_decide (action = str "Import") then 240000 else 30000)]|exists [Mark], []];
      split; try done; auto; [intros r ->%list_elem_of_singleton; eauto|by intros r ?%elem_of_nil].
Qed.

(** A change is marked before it is made, and only then.  An action's
    requests are at most one file selection, then, for anything but [Status], the
    mark, then at most one controller command; nothing is run after an unmarked
    change was stopped, a file selection was cancelled, or it failed. *)
Theorem change_marked_first root action value answer stopped system requests o :
  execute root action value answer stopped system = (requests, o) ->
  exists picks marks acts, requests = picks ++ marks ++ acts /\
    (forall r, r ∈ picks -> exists child, r = Pick child) /\ (length picks <= 1)%nat /\
    (marks = [] \/ marks = [Mark]) /\ (forall r, r ∈ acts -> exists child timeout, r = Act child timeout) /\ (length acts <= 1)%nat /\
    (acts <> [] -> action <> str "Status" -> marks = [Mark] /\ stopped = false) /\
    (acts = [] -> forall message, o = Returned true message -> message = [] /\ picks <> []).
Proof.
  assert (forall child, exists picks : list request, [Pick child] = picks ++ [] ++ [] /\ (forall r, r ∈ picks -> exists c, r = Pick c) /\
    (length picks <= 1)%nat /\ picks <> []) as Hp.
  { intros child. exists [Pick child]. split; [done|]. split; [|done]. intros r ->%list_elem_of_singleton. eauto. }
  unfold execute. destruct (_ || _) eqn:Ep; cbv zeta.
  - set (child := _ ++ _). destruct (Hp child) as (picks & E & H1 & H2 & H3). destruct (answer child) as [m| |[] m].
    3: destruct (bool_decide (m = str "CANCEL")); [|destruct (negb _ || _)].
    5: { destruct (act_on _ _ _ _ _ _) as [rs o'] eqn:Ea. intros [= <- <-]. apply act_on_acted in Ea as (marks & acts & [A1 A2 A3 A4 A5 A6]).
         exists [Pick child], marks, acts. rewrite A1. split; [done|]. split; [intros r ->%list_elem_of_singleton; eauto|]. split; [done|].
         split; [done|]. split; [done|]. split; [done|]. split; [|intros Ha message Ho; by apply (A6 message) in Ha].
         intros Hne _. apply A5; [done|]. by case_bool_decide. }
    all: intros [= <- <-]; exists picks, [], []; rewrite E; (split; [done|]); do 2 (split; [done|]); (split; [by left|]);
      (split; [by intros r ?%elem_of_nil|]); (split; [simpl; lia|]); (split; [done|]); intros _ message; try done.
    by intros [= <-].
  - intros H. apply act_on_acted in H as (marks & acts & [A1 A2 A3 A4 A5 A6]). exists [], marks, acts. split; [done|].
    split; [by intros r ?%elem_of_nil|]. split; [simpl; lia|]. do 4 (split; [done|]). intros Ha message Ho. by apply (A6 message) in Ha.
Qed.

(** A program is selected and added. *)
Definition demo_answer (child : list Z) : outcome :=
  if bool_decide (child = quote (str "C:\P\bin\tray.exe") ++ str " --pick-app") then Returned true (str "SELECT:D:\App.exe")
  else Returned true (str "Added.").

Lemma change_marked_first_witness :
  let result := execute (str "C:\P") (str "PickAdd") [] demo_answer false (Some (str "C:\Windows\System32")) in
  length result.1 = 3%nat /\ nth 1 result.1 (Pick []) = Mark /\
  exists picks marks acts, result.1 = picks ++ marks ++ acts /\ (length picks <= 1)%nat /\ (length acts <= 1)%nat.
Proof.
  intros result. split; [vm_compute; reflexivity|]. split; [vm_compute; reflexivity|].
  destruct (change_marked_first (str "C:\P") (str "PickAdd") [] demo_answer false (Some (str "C:\Windows\System32")) result.1 result.2)
    as (picks & marks & acts & H1 & _ & H2 & _ & _ & H3 & _); [apply surjective_pairing|]. exists picks, marks, acts. done.
Defined.
