(* ===== verification/ProgramTests.v ===== *)
(** * ProgramTests: the self-tests of the service, the tray and their children

    Translates [selfTest] of [src/src/native/controller-service.cpp], [selfTest]
    of [src/src/native/tray.cpp] and [inheritedProcessSelfTest] of
    [inherited-process-self-test.h]: executable programs over the models of the
    parts they test, evaluated here.  The tray's test converts real UTF-8, for
    which an instance of the conversion is defined.  The child of the third test
    is the service's own program in its [--check-inherited-handles] mode: an event
    is set exactly when its handle was inherited. *)
From S2P Require Import Prelude Numbers DnsWire Identity Runner Commands Supervisor Service NativeSelfTest Handles Programs.

(** ** The service *)

Module ServiceTest.
(** [text.find(part) != npos]. *)
Fixpoint contains (part text : list Z) : bool :=
  bool_decide (take (length part) text = part) || match text with [] => false | _ :: rest => contains part rest end.

(** A base64 text read back, for each length; length 0 only encodes. *)
Definition base64_test : bool :=
  forallb (fun length => let bytes := take length (seqZ 0 256) in (length =? 0)%nat || bool_decide (base64Decode (base64Encode bytes) = bytes))
    [0; 1; 2; 3; 256]%nat.

Definition has_flag (value flag : Z) : bool := negb (Z.land value flag =? 0).

Definition status_tests : bool :=
  (statusProcessId (str "pid=1234" ++ [13; 10] ++ str "generation=2" ++ [13; 10]) =? 1234) && (statusProcessId (str "generation=2") =? 0) &&
  (statusProcessId (str "pid=") =? 0) && (statusProcessId (str "pid=99999999999") =? 0) &&
  (statusProcessId (str "pid=4294967295" ++ [10]) =? 4294967295) && (statusProcessId (str "pid=4294967296") =? 0) &&
  (statusProcessId (str "pid=99999999999999999999999999") =? 0) && (statusProcessId (str "pid=12x") =? 0) &&
  (statusProcessId (str "pid=-1") =? 0) && (statusProcessId (str "pid= 12") =? 0).

(** Each check with the code it fails with, in the order of the test. *)
Definition checks (inherited : bool) : list (bool * Z) := [
  (bool_decide (ServiceProgram.kServiceName = str "WireGuardProgramSplitController"), 1);
  (bool_decide (quoteArgument (str "C:\Program Files\WireGuard\Controller.ps1") = [34] ++ str "C:\Program Files\WireGuard\Controller.ps1" ++ [34]), 2);
  (bool_decide (quoteArgument (str "C:\ends-with-slash\") = [34] ++ str "C:\ends-with-slash\\" ++ [34]), 3);
  ((win32ExitCode (unrequestedExitReport true 1) =? NO_ERROR) && (serviceExitCode (unrequestedExitReport true 1) =? 0), 4);
  ((win32ExitCode (unrequestedExitReport false 1) =? ERROR_SERVICE_SPECIFIC_ERROR) && (serviceExitCode (unrequestedExitReport false 1) =? 1), 5);
  ((win32ExitCode (unrequestedExitReport false 0) =? ERROR_SERVICE_SPECIFIC_ERROR) && (serviceExitCode (unrequestedExitReport false 0) =? 1), 6);
  (has_flag (acceptedControls SERVICE_RUNNING) SERVICE_ACCEPT_STOP && has_flag (acceptedControls SERVICE_RUNNING) SERVICE_ACCEPT_SHUTDOWN &&
   has_flag (acceptedControls SERVICE_RUNNING) SERVICE_ACCEPT_PRESHUTDOWN, 7);
  ((acceptedControls SERVICE_STOP_PENDING =? 0) && (acceptedControls SERVICE_START_PENDING =? 0), 8);
  (isShutdownControl SERVICE_CONTROL_PRESHUTDOWN && isShutdownControl SERVICE_CONTROL_SHUTDOWN &&
   negb (isShutdownControl SERVICE_CONTROL_STOP) && negb (isShutdownControl SERVICE_CONTROL_INTERROGATE), 9);
  (contains (str "system shutdown") (describeStop ShutdownControl 0), 10);
  (contains (str "system shutdown") (describeStop ChildEndedByShutdown 1), 11);
  (contains (str "unexpectedly") (describeStop ChildExited 3) && contains (str "code 3") (describeStop ChildExited 3), 12);
  (contains (str "code 5") (describeStop ServiceStopFailed 5), 13);
  (contains (str "forced") (describeStop ServiceStopForced 0), 14);
  (contains (str "clean") (describeStop ServiceStop 0), 15);
  (LogTest.logSelfTest, 16);
  (status_tests, 17);
  (base64_test, 18);
  (bool_decide (base64Encode (str "ab") = str "YWI=") && bool_decide (base64Decode (str "YW=I") = []) &&
   bool_decide (base64Decode (str "YWI") = []) && bool_decide (base64Decode (str "YW*=") = []), 19);
  (inherited, 20);
  (negb (dispatcherFailurePersistent 3 1000 3999) && negb (dispatcherFailurePersistent 50 1000 10999) &&
   negb (dispatcherFailurePersistent 2 1000 11000) && negb (dispatcherFailurePersistent 3 1000 999) &&
   dispatcherFailurePersistent 3 1000 11000, 21)].

Fixpoint first_failure (l : list (bool * Z)) : Z :=
  match l with [] => 0 | (ok, failure) :: rest => if ok then first_failure rest else failure end.

Definition selfTest (inherited : bool) : Z := first_failure (checks inherited).
End ServiceTest.

(** ** Inherited handles *)

Module InheritTest.
(** The child is the service's program; it can set the events it inherited. *)
Definition child (executable : list Z) (inherited : list handle) (expected excluded : handle) : Z * list ServiceProgram.program_effect :=
  ServiceProgram.wmain [executable; str "--check-inherited-handles"; to_string (Z.of_nat expected); to_string (Z.of_nat excluded)]
    {| ServiceProgram.self_test := 0; ServiceProgram.set_event h := existsb (fun i => Z.of_nat i =? h) inherited;
       ServiceProgram.run_answers := demo_env; ServiceProgram.done_event := true; ServiceProgram.dispatcher_connected := true |}.

(** Whether the event was set: asked for by the child, and inherited. *)
Definition was_set (inherited : list handle) (effects : list ServiceProgram.program_effect) (event : handle) : bool :=
  existsb (fun e => match e with ServiceProgram.EventSet h => h =? Z.of_nat event | _ => false end) effects &&
  existsb (Nat.eqb event) inherited.

Definition inherited_by_last : sys (list handle) := fun w => (List.last (w_spawned w) [], w).

(** The handles are closed in the order of the structure that owns them. *)
Definition inheritedProcessSelfTest (executable : list Z) : sys bool :=
  named ← ask;
  if negb named then mret false
  else
    allowed ← open_handle true;
    excluded ← open_handle true;
    input ← open_handle true;
    match allowed, excluded, input with
    | Some a, Some b, Some c =>
        created ← createWithInheritedHandles [c; a];
        match created with
        | None => _ ← close_handle a; _ ← close_handle b; _ ← close_handle c; mret false
        | Some (process, thread) =>
            _ ← close_handle thread;
            ended ← ask;              (* within five seconds *)
            read ← ask;               (* its exit code, or its end *)
            inherited ← inherited_by_last;
            let '(returned, effects) := child executable inherited a b in
            _ ← close_handle process;
            let result := ended && read && (returned =? 0) && was_set inherited effects a && negb (was_set inherited effects b) in
            _ ← close_handle a; _ ← close_handle b; _ ← close_handle c; mret result
        end
    | _, _, _ => _ ← close_if allowed; _ ← close_if excluded; _ ← close_if input; mret false
    end.

Lemma owns_inherited_by_last : forall {A} need (k : list handle -> sys A) give,
  (forall l, owns need (k l) give) -> owns need (inherited_by_last ≫= k) give.
Proof. intros A need k give H w Hw. apply (H (List.last (w_spawned w) []) w Hw). Qed.

(** The test releases what it opens, whatever fails. *)
Theorem inherit_test_releases executable : owns [] (inheritedProcessSelfTest executable) (fun _ => []).
Proof.
  unfold inheritedProcessSelfTest. repeat call.
  eapply create_then; [right; reflexivity|intros ?; rewrite !elem_of_cons; tauto|repeat call|intros p t]. call. call. 
  all: call. all: apply owns_inherited_by_last; intros l; destruct (child _ _ _ _); repeat call.
Qed.

(** With another inheritable handle open in this process, which is not passed on. *)
Definition ready_world : world := {| w_next := 8; w_open := [(7, true)]%nat; w_fault := false; w_error := 0; w_spawned := [];
  w_answers := replicate 20 {| succeeds := true; code := 0 |} |}.

Example inherit_test_passes :
  let '(result, w) := inheritedProcessSelfTest (str "C:\WGPS\bin\controller-service.exe") ready_world in
  result = true /\ w_open w = [(7, true)]%nat /\ w_fault w = false /\ w_spawned w = [[10; 8]]%nat.
Proof. vm_compute. done. Qed.
End InheritTest.

(** ** The tray *)

Module TrayTest.
(** *** UTF-8 *)

(** A character beyond the ASCII range from its continuation bytes: [least] is
    the smallest it may be. *)
Definition continuation (b : Z) : bool := (128 <=? b) && (b <? 192).
Definition low6 (b : Z) : Z := Z.land b 63.

Fixpoint decode_utf8 (fuel : nat) (bytes : list Z) : option (list Z) :=
  match fuel with
  | O => None
  | S fuel =>
      match bytes with
      | [] => Some []
      | a :: rest =>
          if a <? 128 then cons a <$> decode_utf8 fuel rest
          else match rest with
          | b :: rest2 =>
              if (192 <=? a) && (a <? 224) && continuation b then
                let c := Z.land a 31 * 64 + low6 b in if c <? 128 then None else cons c <$> decode_utf8 fuel rest2
              else match rest2 with
              | d :: rest3 =>
                  if (224 <=? a) && (a <? 240) && continuation b && continuation d then
                    let c := Z.land a 15 * 4096 + low6 b * 64 + low6 d in
                    if (c <? 2048) || ((55296 <=? c) && (c <? 57344)) then None else cons c <$> decode_utf8 fuel rest3
                  else match rest3 with
                  | e :: rest4 =>
                      if (240 <=? a) && (a <? 248) && continuation b && continuation d && continuation e then
                        let c := Z.land a 7 * 262144 + low6 b * 4096 + low6 d * 64 + low6 e in
                        if (c <? 65536) || (1114112 <=? c) then None
                        else (fun t => 55296 + (c - 65536) / 1024 :: 56320 + (c - 65536) mod 1024 :: t) <$> decode_utf8 fuel rest4
                      else None
                  | [] => None
                  end
              | [] => None
              end
          | [] => None
          end
      end
  end.

Definition of_utf8 (bytes : list Z) : option (list Z) := decode_utf8 (S (length bytes)) bytes.

(** Characters up to U+FFFF outside the surrogates, and pairs of those. *)
Fixpoint to_utf8 (units : list Z) : list Z :=
  match units with
  | [] => []
  | u :: rest =>
      if u <? 128 then u :: to_utf8 rest
      else if u <? 2048 then 192 + u / 64 :: 128 + u mod 64 :: to_utf8 rest
      else if (55296 <=? u) && (u <? 56320) then
        match rest with
        | v :: rest' => let c := 65536 + (u - 55296) * 1024 + (v - 56320) in
                        240 + c / 262144 :: 128 + c / 4096 mod 64 :: 128 + c / 64 mod 64 :: 128 + c mod 64 :: to_utf8 rest'
        | [] => []
        end
      else 224 + u / 4096 :: 128 + u / 64 mod 64 :: 128 + u mod 64 :: to_utf8 rest
  end.

Definition is_some {A} (o : option A) : bool := match o with Some _ => true | None => false end.

(** Bytes that are not UTF-8 are shown as one replacement character. *)
#[local] Instance real_utf8 : Utf8 := {|
  utf8 := to_utf8; wide b := default [65533] (of_utf8 b); valid a := of_utf8 (to_utf8 a) = Some a; wellformed b := is_some (of_utf8 b) |}.

(** [CryptStringToBinaryA]: refuses what is not base64. *)
#[local] Instance real_base64 : Unbase64 :=
  {| crypt_decode text := let bytes := base64Decode text in if bool_decide (bytes = []) then None else Some bytes |}.

(** *** [selfTest] *)

Definition lines_of (lines : list String.string) : list Z := concat (map (fun l => str l ++ [10]) lines).
Definition frame_with (fields : list String.string) : list Z := lines_of ("WGPS-RUN 1"%string :: fields).

Definition shown_as (r : option (bool * list Z)) (message : list Z) : bool := match r with Some (_, m) => bool_decide (m = message) | None => false end.
Definition frame_ok (r : option (bool * list Z)) : bool := match r with Some (ok, _) => ok | None => false end.
Definition frame_failed (r : option (bool * list Z)) : bool := match r with Some (ok, _) => negb ok | None => false end.

Definition include_bytes : list Z :=
  [239; 187; 191] ++ str "# comment" ++ [13; 10] ++ str " C:\Jos" ++ [195; 169] ++ str "\App.exe " ++ [13; 10; 10] ++ str "D:\App.exe" ++ [10].
Definition accented : list Z := str "C:\Jos" ++ [233] ++ str "\App.exe".

Definition ended (exit out : String.string) : list Z :=
  frame_with [String.append "exit=" exit; "timedout=0"; "stdout-truncated=0"; "stderr-truncated=0"; String.append "stdout=" out; "stderr="]%string.

Definition required (awake : Z) : list (bool * String.string) := [
  (bool_decide (quote [] = [34; 34]), "Empty argument"%string);
  (bool_decide (quote (str "C:\A B\") = [34] ++ str "C:\A B\\" ++ [34]), "Trailing slash"%string);
  (bool_decide (quote (str "a" ++ [34] ++ str "b") = [34] ++ str "a\" ++ [34] ++ str "b" ++ [34]), "Embedded quote"%string);
  (match applications include_bytes with Some [first; _] => bool_decide (first = accented) | _ => false end, "UTF-8 include list"%string);
  (match applications include_bytes with
   | Some (first :: _) => bool_decide (utf8 first = str "C:\Jos" ++ [195; 169] ++ str "\App.exe") | _ => false end, "Unicode output"%string);
  (bool_decide (menuText (str "A&B") = str "A&&B"), "Menu escaping"%string);
  (shown_as (resultFrame (ended "0" "T0s=") false) (str "OK"), "Runner output"%string);
  (frame_failed (resultFrame (frame_with ["exit=0"; "timedout=1"; "stdout-truncated=0"; "stderr-truncated=0"; "stdout="; "stderr="]%string) false), "Runner deadline"%string);
  (frame_ok (resultFrame (ended "0" "/w==") false), "Display decoding preserves success"%string);
  (frame_failed (resultFrame (ended "3762504530" "") false), "Unsigned Windows crash code"%string);
  (frame_failed (resultFrame (frame_with ["error=launch failed"]%string) false), "Runner launch error"%string);
  (frame_failed (resultFrame (frame_with ["exit=0"; "timedout=0"; "stdout-truncated=1"; "stderr-truncated=0"; "stdout="; "stderr="]%string) false), "Runner truncation"%string);
  (0 <? awake, "Awake-time clock"%string);
  (negb (is_some (resultFrame (frame_with ["exit=0"; "exit=1"]%string) false)), "Duplicate frame"%string);
  (forallb (fun frame => negb (is_some (resultFrame frame false)))
     [lines_of ["no header"]%string; frame_with ["exit=0"]%string; ended "0" "%%%"; str "WGPS-RUN 1" ++ [10] ++ str "error=unfinished"],
   "Incomplete or malformed frame"%string);
  (negb (is_some (applications [255])), "Invalid UTF-8"%string)].

(** The message of the first requirement that fails, which [require] throws. *)
Definition selfTest (awake : Z) : option String.string :=
  match List.find (fun r => negb r.1) (required awake) with Some (_, message) => Some message | None => None end.
End TrayTest.

(** The self-tests of the service and of the tray pass on the model: no check of
    the service fails, the handles test included, and no requirement of the tray
    throws. *)
Theorem program_tests_pass :
  ServiceTest.selfTest (InheritTest.inheritedProcessSelfTest (str "C:\WGPS\bin\controller-service.exe") InheritTest.ready_world).1 = 0 /\
  ServiceTest.selfTest false = 20 /\
  TrayTest.selfTest 1 = None /\ TrayTest.selfTest 0 = Some "Awake-time clock"%string.
Proof. split_and!; vm_compute; reflexivity. Qed.
