(* ===== verification/Requests.v ===== *)
(** * Requests: from the tray's request to the runner and back

    Composes the tray ([Commands], [TrayRun]), the service's program
    ([Programs]), the runner ([Runner], [RunnerIo]) and the file picker
    ([Programs.TrayProgram]): the command line the tray starts the runner with is
    the request the runner reads, and the file the user picks is the file the
    controller is asked for.  [base64] is the tray's, over the system's encoder.
    How a program's command line becomes its arguments is the runtime's
    documented rule, a parameter with that rule as its laws. *)
From S2P Require Import Prelude Numbers DnsWire Identity Runner RunnerIo Inputs Commands Handles TrayRun WfpEngine Programs.

(** ** The tray's encoding of a command *)

(** The bytes of UTF-16 text. *)
Definition utf16 (units : list Z) : list Z := concat (map (fun u => [u mod 256; u / 256]) units).

(** [CryptBinaryToStringW] without line breaks; the terminating zero it may
    leave is taken off. *)
Class Base64Encoder := { crypt_encode : list Z -> option (list Z) }.
Class Base64EncoderSpec (E : Base64Encoder) := {
  crypt_encode_text bytes : Forall is_byte bytes -> exists zeros, crypt_encode bytes = Some (base64Encode bytes ++ replicate zeros 0)
}.

Fixpoint drop_zeros (reversed : list Z) : list Z :=
  match reversed with c :: rest => if c =? 0 then drop_zeros rest else reversed | [] => [] end.

Definition base64 `{Base64Encoder} (command : list Z) : option (list Z) :=
  encoded ← crypt_encode (utf16 command); Some (reverse (drop_zeros (reverse encoded))).

(** ** The runtime's arguments *)

Definition blank_or_end (rest : list Z) : Prop := rest = [] \/ head rest = Some 32.

Class CommandLine := { split_command : list Z -> list (list Z); split_arguments : list Z -> list (list Z) }.

(** Documented: the program's name is what its quotes enclose; arguments are
    separated by blanks, and backslashes are literal where no quote follows. *)
Class CommandLineSpec (C : CommandLine) := {
  split_program name rest : 34 ∉ name -> blank_or_end rest -> split_command (34 :: name ++ 34 :: rest) = name :: split_arguments rest;
  split_word word rest : word <> [] -> Forall (fun c => c <> 9 /\ c <> 32 /\ c <> 34) word -> blank_or_end rest ->
    split_arguments (32 :: word ++ rest) = word :: split_arguments rest;
  split_end : split_arguments [] = []
}.

(** ** Text without quotes *)

Lemma quote_loop_plain value pending :
  34 ∉ value -> value <> [] -> List.last value 0 <> 92 -> quote_loop value pending [] = slashes pending ++ value ++ [34].
Proof.
  revert pending. induction value as [|c value IH]; intros pending Hq Hne Hl; [done|]. apply not_elem_of_cons in Hq as [Hc Hq].
  cbn [quote_loop]. destruct (c =? 92) eqn:E; bool_to_prop.
  - subst c. destruct value as [|d value]; [done|]. rewrite IH by done. rewrite <- Nat.add_1_r, <- slashes_app, <- app_assoc. done.
  - rewrite (proj2 (Z.eqb_neq c 34)) by congruence. rewrite Nat.mul_1_r. cbn [app]. rewrite quote_loop_app. destruct value as [|d value].
    + cbn [quote_loop]. rewrite <- app_assoc. done.
    + rewrite IH by done. rewrite <- !app_assoc. done.
Qed.

Lemma quote_plain value : 34 ∉ value -> value <> [] -> List.last value 0 <> 92 -> quote value = 34 :: value ++ [34].
Proof. intros. unfold quote. rewrite quote_loop_app, quote_loop_plain by done. done. Qed.

Definition plain_char (c : Z) : Prop := c <> 9 /\ c <> 32 /\ c <> 34.

Lemma letter_plain n : 0 <= n < 64 -> plain_char (letter n) /\ letter n <> 0.
Proof.
  intros Hn. assert (n ∈ seqZ 0 64) as H by (apply elem_of_seqZ; lia). revert H. vm_compute (seqZ 0 64).
  intros H. repeat (apply elem_of_cons in H as [->|H]; [by vm_compute|]). by apply elem_of_nil in H.
Qed.

Lemma group_plain a b c : Forall (fun x => plain_char x /\ x <> 0) (group_of a b c).
Proof.
  assert (forall v, plain_char (letter (Z.land v 63)) /\ letter (Z.land v 63) <> 0) as Hl by (intros v; apply letter_plain, letter_land).
  assert (plain_char 61 /\ 61 <> 0) as Hp by (by vm_compute).
  unfold group_of. cbv zeta. repeat constructor; try apply Hl; destruct b, c; first [apply Hl | apply Hp].
Qed.

Lemma encode_plain bytes : Forall (fun x => plain_char x /\ x <> 0) (base64Encode bytes).
Proof.
  induction bytes as [bytes IH] using (induction_ltof1 _ (@length Z)). destruct bytes as [|a [|b [|c rest]]]; [constructor|apply group_plain..|].
  cbn [base64Encode]. apply list.Forall_app. split; [apply group_plain|]. apply IH. unfold ltof. simpl. lia.
Qed.

Lemma digits_plain n : 0 <= n < 2 ^ 64 -> Forall plain_char (to_string n) /\ to_string n <> [] /\ narrow (to_string n) = to_string n.
Proof.
  intros Hn. destruct (to_string_spec n Hn) as (Hne & Hd & _). rewrite forallb_forall in Hd.
  assert (forall c, c ∈ to_string n -> 48 <= c <= 57) as Hc.
  { intros c Hin. apply list_elem_of_In, Hd in Hin. unfold is_digit in Hin. bool_to_prop. lia. }
  split; [|split; [done|]].
  - apply list.Forall_forall. intros c Hin. specialize (Hc c Hin). unfold plain_char. lia.
  - unfold narrow. rewrite <- (map_id (to_string n)) at 2. apply map_ext_in. intros c Hin. apply list_elem_of_In, Hc in Hin.
    unfold u8. apply Z.mod_small. lia.
Qed.

(** ** UTF-16 *)

Lemma utf16_bytes units : Forall (fun u => 0 <= u < 65536) units -> Forall is_byte (utf16 units) /\ length (utf16 units) = (2 * length units)%nat.
Proof.
  induction 1 as [|u units Hu _ [IH1 IH2]]; [done|]. unfold utf16 in *. cbn [map concat app length]. split; [|lia].
  repeat constructor; try done; try (apply Z.mod_pos_bound; lia); try (apply Z.div_pos; lia). all: try (apply Z.div_lt_upper_bound; lia).
  all: try (apply Z.mod_pos_bound; lia).
Qed.

Lemma utf16_units units : Forall (fun u => 0 <= u < 65536) units -> wide_units (utf16 units) = Some units.
Proof.
  induction 1 as [|u units Hu _ IH]; [done|]. unfold utf16 in *. cbn [map concat app wide_units]. rewrite IH. cbn [fmap option_fmap option_map].
  f_equal. f_equal. rewrite Z.shiftl_mul_pow2, Z.lor_comm, lor_mul_low by (lia || (apply Z.mod_pos_bound; lia)).
  pose proof (Z.div_mod u 256). change (2 ^ 8) with 256. lia.
Qed.

Section Request.
Context {E : Base64Encoder} {ES : Base64EncoderSpec E}.

Lemma drop_zeros_reversed text zeros : Forall (fun x => plain_char x /\ x <> 0) text -> reverse (drop_zeros (reverse (text ++ replicate zeros 0))) = text.
Proof.
  intros Ht. rewrite reverse_app, reverse_replicate. induction zeros as [|zeros IH]; [|done]. cbn [replicate app].
  destruct (reverse text) as [|c rest] eqn:Er; cbn [drop_zeros]; [|rewrite (proj2 (Z.eqb_neq c 0)); [by rewrite <- Er, reverse_involutive|]].
  - by rewrite <- (reverse_involutive text), Er.
  - rewrite list.Forall_forall in Ht. apply (Ht c). rewrite <- elem_of_reverse, Er. by left.
Qed.

Lemma base64_encoded child : Forall (fun u => 0 <= u < 65536) child -> base64 child = Some (base64Encode (utf16 child)).
Proof.
  intros Hc. unfold base64. destruct (crypt_encode_text (utf16 child)) as [zeros ->]; [by apply utf16_bytes|]. cbn [mbind option_bind].
  f_equal. apply drop_zeros_reversed, encode_plain.
Qed.

Lemma utf16_not_nil child : child <> [] -> utf16 child <> [].
Proof. by destruct child. Qed.

Lemma run_arguments_encoded timeout child :
  0 <= timeout <= kRunMaximumTimeout -> child <> [] -> Forall (fun u => 0 <= u < 65536) child ->
  run_arguments (to_string timeout) (base64Encode (utf16 child)) = Some (timeout, utf16 child).
Proof.
  intros Ht Hne Hc. destruct (utf16_bytes child Hc) as [Hb Hl]. unfold run_arguments. unfold kRunMaximumTimeout in *.
  destruct (digits_plain timeout) as (_ & _ & ->); [lia|]. rewrite parseDecimal_to_string by lia. cbn [mbind option_bind].
  rewrite base64_decoded by (done || by apply utf16_not_nil). cbv zeta. rewrite bool_decide_false by (by apply utf16_not_nil).
  rewrite Hl, Nat.even_mul. done.
Qed.

Section Split.
Context {C : CommandLine} {CS : CommandLineSpec C}.

Definition runner_of (root : list Z) : list Z := root ++ str "\bin\controller-service.exe".

Lemma run_line_split root timeout encoded :
  34 ∉ root -> 0 <= timeout <= kRunMaximumTimeout -> encoded <> [] -> Forall plain_char encoded ->
  split_command (run_command (runner_of root) timeout encoded) = [runner_of root; str "--run"; to_string timeout; encoded].
Proof.
  intros Hr Ht Hne He. destruct (digits_plain timeout) as (Hd & Hdn & _); [unfold kRunMaximumTimeout in *; lia|].
  assert (34 ∉ runner_of root) as Hq by (unfold runner_of; rewrite not_elem_of_app; split; [done|vm_compute; set_solver]).
  unfold run_command. rewrite quote_plain; [|done|unfold runner_of; by destruct root|unfold runner_of; rewrite last_app_ne by done; by vm_compute].
  cbn [app]. rewrite <- app_assoc. cbn [app]. rewrite split_program; [|done|by right]. f_equal.
  change (str " --run ") with (32 :: str "--run" ++ [32]). change (str " ") with [32]. rewrite <- !app_comm_cons, <- app_assoc. cbn [app].
  rewrite split_word; [|done|repeat constructor; vm_compute; done|by right]. f_equal.
  rewrite split_word; [|done|done|by right]. f_equal. rewrite <- (app_nil_r encoded) at 1. rewrite split_word; [|done|done|by left].
  by rewrite split_end.
Qed.

(** C36: what the tray asks for is what the runner runs.  For every
    installation directory, time and command line, the command the tray starts
    the service's program with is split into arguments that select the runner,
    and the runner reads exactly that time and that command, character by
    character, whatever quotes, blanks and Unicode it holds. *)
Theorem run_request_understood root timeout child :
  34 ∉ root -> 0 <= timeout <= kRunMaximumTimeout -> child <> [] -> Forall (fun u => 0 <= u < 65536) child ->
  exists encoded bytes, base64 child = Some encoded /\
    ServiceProgram.parse_mode (split_command (run_command (runner_of root) timeout encoded)) = ServiceProgram.Run (to_string timeout) encoded /\
    run_arguments (to_string timeout) encoded = Some (timeout, bytes) /\ wide_units bytes = Some child.
Proof.
  intros Hr Ht Hne Hc. exists (base64Encode (utf16 child)), (utf16 child). split; [by apply base64_encoded|]. split; [|split].
  - rewrite run_line_split; [done|done|done| |eapply list.Forall_impl; [apply encode_plain|by intros x [? _]]].
    intros H. apply (f_equal base64Decode) in H. rewrite base64_decoded in H by (apply utf16_bytes, Hc || by apply utf16_not_nil).
    vm_compute (base64Decode []) in H. by apply utf16_not_nil in H.
  - by apply run_arguments_encoded.
  - by apply utf16_units.
Qed.
End Split.
End Request.

(** *** A splitter of that rule, for arguments without quotes *)

Fixpoint blank_words (text : list Z) : list (list Z) :=
  match text with
  | [] => []
  | c :: rest =>
      if c =? 32 then blank_words rest
      else match rest with
           | [] => [[c]]
           | d :: _ => if d =? 32 then [c] :: blank_words rest
                       else match blank_words rest with w :: ws => (c :: w) :: ws | [] => [[c]] end
           end
  end.

Fixpoint to_quote (text : list Z) : list Z * list Z :=
  match text with
  | [] => ([], [])
  | c :: rest => if c =? 34 then ([], rest) else let '(name, rest) := to_quote rest in (c :: name, rest)
  end.

Lemma to_quote_name name rest : 34 ∉ name -> to_quote (name ++ 34 :: rest) = (name, rest).
Proof.
  induction name as [|c name IH]; intros Hq; [done|]. apply not_elem_of_cons in Hq as [Hc Hq]. cbn [app to_quote].
  rewrite (proj2 (Z.eqb_neq c 34)) by congruence. by rewrite IH.
Qed.

Lemma blank_words_word word rest :
  word <> [] -> Forall plain_char word -> blank_or_end rest -> blank_words (word ++ rest) = word :: blank_words rest.
Proof.
  intros Hne Hw Hr. revert Hne. induction Hw as [|c word (_ & Hc & _) Hw IH]; intros Hne; [done|]. cbn [app blank_words].
  rewrite (proj2 (Z.eqb_neq c 32)) by done. destruct word as [|d word].
  - cbn [app]. destruct rest as [|r rest]; [done|]. destruct Hr as [?|[= ->]]; done.
  - specialize (IH ltac:(done)). cbn [app] in *. inversion Hw as [|? ? (_ & Hd & _) _]; subst.
    rewrite (proj2 (Z.eqb_neq d 32)) by done. by rewrite IH.
Qed.

#[local] Instance blank_rule : CommandLine := {|
  split_command text := match text with 34 :: rest => let '(name, rest) := to_quote rest in name :: blank_words rest | _ => [] end;
  split_arguments := blank_words |}.

#[local] Instance blank_rule_spec : CommandLineSpec blank_rule.
Proof.
  split; cbn [split_command split_arguments blank_rule]; intros.
  - by rewrite to_quote_name.
  - cbn [blank_words]. rewrite Z.eqb_refl. by apply blank_words_word.
  - done.
Qed.

#[local] Instance plain_encoder : Base64Encoder := {| crypt_encode bytes := Some (base64Encode bytes ++ [0]) |}.
#[local] Instance plain_encoder_spec : Base64EncoderSpec plain_encoder.
Proof. split. intros bytes _. by exists 1%nat. Qed.

Definition demo_child : list Z := quote (str "C:\Windows\powershell.exe") ++ str " -Action " ++ quote [1046; 32; 34; 12354].

Lemma units_checked units : forallb (fun u => (0 <=? u) && (u <? 65536)) units = true -> Forall (fun u => 0 <= u < 65536) units.
Proof. intros H. apply list.Forall_forall. intros u Hu. rewrite forallb_forall in H. apply list_elem_of_In, H in Hu. bool_to_prop. lia. Qed.

Lemma run_request_understood_witness :
  exists encoded bytes, base64 demo_child = Some encoded /\
    ServiceProgram.parse_mode (split_command (run_command (runner_of (str "C:\Program Files\WGPS")) 30000 encoded)) = ServiceProgram.Run (to_string 30000) encoded /\
    run_arguments (to_string 30000) encoded = Some (30000, bytes) /\ wide_units bytes = Some demo_child.
Proof.
  apply run_request_understood; [vm_compute; set_solver|vm_compute; split; discriminate|done|].
  apply units_checked. vm_compute. reflexivity.
Defined.

(** ** The picked file *)

(** A run of the picker that ended in time: what the runner was answered. *)
Record ended_well (timeout : Z) (e : run_env) (output : list Z) : Prop := {
  ew_exits : e_exits e (if timeout <=? e_spent e then 0 else timeout - e_spent e) = true; ew_code : e_code e = Some 0; ew_stop : e_readers_stop e = true;
  ew_runtime : - 2 ^ 63 < e_runtime e < 2 ^ 63; ew_out : stream (e_out e) = output; ew_err : stream (e_err e) = []
}.

Section Picked.
Context {U : Utf8} {US : Utf8Spec U} {T : Utf8Strict} {TS : Utf8StrictSpec U T} {B : Unbase64} {BS : Unbase64Spec B}.

Lemma wide_ascii_prefix ascii bytes : Forall (fun c => 0 <= c < 128) ascii -> wide (ascii ++ bytes) = ascii ++ wide bytes.
Proof.
  induction 1 as [|c ascii Hc _ IH]; [done|]. destruct valid_nil as [Hv Hn]. pose proof (wide_app [] c (ascii ++ bytes) Hv Hc) as H.
  rewrite Hn in H. cbn [app] in *. by rewrite H, IH.
Qed.

Lemma wellformed_ascii_prefix ascii bytes :
  Forall (fun c => 0 <= c < 128) ascii -> wellformed bytes = true -> wellformed (ascii ++ bytes) = true.
Proof.
  induction 1 as [|c ascii Hc _ IH]; intros Hb; [done|]. change ((c :: ascii) ++ bytes) with ([c] ++ (ascii ++ bytes)).
  apply wellformed_app; [by apply wellformed_ascii|by apply IH].
Qed.

Lemma select_ascii : Forall (fun c => 0 <= c < 128) (str "SELECT:").
Proof. vm_compute. repeat constructor; discriminate. Qed.

Lemma reply_decoded path : valid path -> wideText (str "SELECT:" ++ utf8 path) = Some (str "SELECT:" ++ path).
Proof.
  intros Hv. unfold wideText. rewrite bool_decide_false by done. rewrite wellformed_ascii_prefix by (apply select_ascii || by apply wellformed_utf8).
  rewrite wide_ascii_prefix by apply select_ascii. by rewrite wide_utf8.
Qed.

(** The frame of a run that ended well is read as success with its output. *)
Lemma ended_well_frame timeout e output text :
  ended_well timeout e output -> Forall is_byte output -> (length output <= kRunLimitBytes)%nat -> output <> [] -> wideText output = Some text -> text <> [] ->
  exists frame, WriteFrame frame ∈ run_contained timeout e /\ resultFrame frame true = Some (true, text).
Proof.
  intros [Hx Hc Hs Hr Ho He] Hb Hl Hne Ht Htn. unfold run_contained. cbv zeta. rewrite Hx, Hs, Hc. cbn [negb].
  eexists. split; [apply elem_of_app; right; apply elem_of_app; right; left; reflexivity|].
  rewrite !drain_bounded, Ho, He, firstn_all2 by done. rewrite run_frame_read_back.
  - unfold report_result, shown. cbn [r_timedOut r_out r_err r_exit kept truncated]. rewrite (proj2 (Nat.ltb_ge _ _)) by done.
    rewrite take_nil. cbn [length Nat.ltb Nat.leb orb mbind option_bind]. rewrite Z.eqb_refl. unfold decode_output. rewrite Ht. cbn [mbind option_bind].
    rewrite !bool_decide_false by done. cbn [mbind option_bind]. rewrite ?bool_decide_false by done. done.
  - split; [by intros code [= <-]|]. split; [done|]. rewrite take_nil. done.
Qed.

Definition picked_kind (profile : bool) : list Z := if profile then str "PickImport" else str "PickAdd".
Definition picked_action (profile : bool) : list Z := if profile then str "Import" else str "Add".
Definition picker_child (root : list Z) (profile : bool) : list Z :=
  quote (root ++ str "\bin\tray.exe") ++ (if profile then str " --pick-profile" else str " --pick-app").

End Picked.

(** *** A selected program *)

#[local] Instance ascii_text : Utf8 := demo_utf8.
#[local] Instance ascii_text_spec : Utf8Spec ascii_text := demo_utf8_spec.
#[local] Instance ascii_strict : Utf8Strict := {| utf8_strict a := Some a |}.
#[local] Instance ascii_strict_spec : Utf8StrictSpec ascii_text ascii_strict.
Proof. by split. Qed.
#[local] Instance own_decoder : Unbase64 := demo_crypt.
#[local] Instance own_decoder_spec : Unbase64Spec own_decoder := demo_crypt_spec.

Definition picked_path : list Z := str "D:\My App\App.exe".

Definition picker_inputs : TrayProgram.inputs := {|
  TrayProgram.arguments := Some [str "tray.exe"; str "--pick-app"]; TrayProgram.self_test := None; TrayProgram.com_ready := true;
  TrayProgram.profile_dialog := fun _ => TrayProgram.Chosen picked_path; TrayProgram.written := Some 24; TrayProgram.module_path := None;
  TrayProgram.present := fun _ => true; TrayProgram.host_mutex := true; TrayProgram.host_wait := TrayProgram.Acquired;
  TrayProgram.ui_mutex := true; TrayProgram.ui_wait := TrayProgram.Acquired; TrayProgram.supervised := 0; TrayProgram.taskbar_message := true;
  TrayProgram.class_registered := true; TrayProgram.window_created := true; TrayProgram.messages := [] |}.

Definition picker_env : run_env :=
  {| e_job := true; e_pipes := true; e_nul := true; e_attributes := true; e_update := true; e_launch := true; e_contained := true;
     e_reader0 := true; e_reader1 := true; e_started_stops := true; e_spent := 40; e_exits := fun _ => true; e_code := Some 0;
     e_readers_stop := true; e_runtime := 9000; e_out := [str "SELECT:"; picked_path]; e_err := []; e_error := 0 |}.

