(* ===== verification/TrayWindow.v ===== *)
(** * TrayWindow: the tray's interface

    Models the class [Tray] of [src/src/native/tray.cpp]: the notification icon,
    the menu, and the window procedure, as a state machine over the operation of
    [Tray].  The system's answers to one message are a record; while a menu is
    shown, other messages are dispatched, so choosing an entry is a step of its
    own that acts on the list the menu was built from. *)
From S2P Require Import Prelude Commands Tray.
Import Tray.Action.

(** ** Data *)

Definition toggle : Z := 1.
Definition add : Z := 2.
Definition importProfile : Z := 3.
Definition logs : Z := 4.
Definition lastError : Z := 5.
Definition quit : Z := 6.
Definition removeBase : Z := 100.
Definition title : list Z := str "WireGuard Program Split".

Definition WM_CONTEXTMENU : Z := 0x7b.
Definition NIN_KEYSELECT : Z := 0x401.
Definition WM_RBUTTONUP : Z := 0x205.
Definition WM_LBUTTONDBLCLK : Z := 0x203.

(** What the interface does to the outside world, and the results it takes. *)
Inductive event :=
  | Notice (message : list Z) (good : bool)
  | Taken (r : Result)
  | Started (name input : list Z)
  | BlockShutdown | UnblockShutdown
  | Focused | LogsOpened | Shown (message : list Z)
  | Destroyed.

Record tray := {
  action : Action; szTip : list Z; version4 : bool; lastActionError : list Z;
  alive : bool; menus : list (list (list Z)); events : list event
}.

Definition with_action t a := {| action := a; szTip := szTip t; version4 := version4 t; lastActionError := lastActionError t;
  alive := alive t; menus := menus t; events := events t |}.
Definition with_icon t tip v := {| action := action t; szTip := tip; version4 := v; lastActionError := lastActionError t;
  alive := alive t; menus := menus t; events := events t |}.
Definition with_error t e := {| action := action t; szTip := szTip t; version4 := version4 t; lastActionError := e;
  alive := alive t; menus := menus t; events := events t |}.
Definition with_menus t m := {| action := action t; szTip := szTip t; version4 := version4 t; lastActionError := lastActionError t;
  alive := alive t; menus := m; events := events t |}.
Definition does e t := {| action := action t; szTip := szTip t; version4 := version4 t; lastActionError := lastActionError t;
  alive := alive t; menus := menus t; events := events t ++ [e] |}.

(** What the system answers during one message. *)
Record answers := {
  q_status : list Z;                  (* [status(root)] *)
  q_apps : option (list (list Z));    (* the list of programs, where it can be read *)
  q_enabled : bool;                   (* the file that enables the tunnel exists *)
  q_menu : bool; q_removal : bool;    (* the popup menus are created *)
  q_add : bool; q_modify : bool; q_version : bool;  (* [Shell_NotifyIconW], by request *)
  q_created : bool;                   (* an operation can be started *)
  q_logs : bool;                      (* the file browser starts *)
  q_controller : option (list Z);     (* the controller's recorded error, where readable *)
  q_filter : bool; q_timer : bool     (* the message filter and the timer are set *)
}.

(** ** Operations *)

Definition notice (message : list Z) (good : bool) (t : tray) : tray := does (Notice (firstn 255 message) good) t.

Definition complete (t : tray) : tray :=
  if bool_decide (state_ (action t) = None) || busy (action t) then t
  else
    let '(r, a) := Tray.Action.take (action t) in
    let t := does UnblockShutdown (does (Taken r) (with_action t a)) in
    let t := if negb (ok r) then with_error t (message r) else t in
    if negb (bool_decide (message r = [])) then notice (message r) (ok r) t else t.

Definition update (q : answers) (create : bool) (t : tray) : tray :=
  let text := title ++ str " - " ++ q_status q in
  if negb create && bool_decide (text = szTip t) then t
  else
    let tip := firstn 127 text in
    let updated := if create then q_add q || q_modify q else q_modify q in
    if negb updated then with_icon t [] (version4 t)
    else with_icon t tip (if create then q_version q else version4 t).

(** [start(name, input)]. *)
Definition start_action (q : answers) (name input : list Z) (t : tray) : tray :=
  let t := complete t in
  match Tray.Action.start (q_created q) (action t) with
  | Some a => does (Started name input) (with_action t a)
  | None => notice (str (if busy (action t) then "Another tray operation is still running"
                         else "Cannot create action completion event")) false t
  end.

(** [DestroyWindow], with the messages it sends before it returns. *)
Definition destroy (t : tray) : tray :=
  does Destroyed {| action := action t; szTip := szTip t; version4 := version4 t; lastActionError := lastActionError t;
                    alive := false; menus := menus t; events := events t |}.

(** An entry of the menu: whether it can be chosen, its command and its text. *)
Record item := { enabled : bool; id : Z; text : list Z }.

Definition removal_items (idle : bool) (apps : list (list Z)) : list item :=
  imap (fun i app => {| enabled := idle; id := removeBase + Z.of_nat i; text := menuText app |}) apps.

(** The entries of [menu()], separators left out; the one that opens the removal
    menu has no command. *)
Definition menu_items (q : answers) (t : tray) : list item :=
  let idle := negb (busy (action t)) in
  let entry e i s := {| enabled := e; id := i; text := s |} in
  let apps := default [] (q_apps q) in
  [entry false 0 (str "Status: " ++ q_status q);
   entry idle toggle (if q_enabled q then str "Disable" else str "Enable");
   entry idle add (str "Add application...")] ++
  (if q_removal q
   then entry (negb (bool_decide (apps = [])) && idle) 0 (str "Remove application") :: removal_items idle apps else []) ++
  [entry idle importProfile (str "Import WireGuard profile...");
   entry true logs (str "Open logs"); entry true lastError (str "Show last error");
   entry idle quit (str "Exit tray (VPN stays as set)")].

(** [menu()] up to [TrackPopupMenu]. *)
Definition open_menu (q : answers) (t : tray) : tray :=
  let t := complete t in
  if negb (q_menu q) then t else with_menus t (default [] (q_apps q) :: menus t).

(** The text of the last error. *)
Definition error_text (q : answers) (t : tray) : list Z :=
  let own := if bool_decide (lastActionError t = []) then [] else str "Last tray operation error:" ++ 10 :: lastActionError t in
  match q_controller q with
  | Some e => (if bool_decide (own = []) then [] else own ++ [10; 10]) ++ str "Controller:" ++ 10 :: e
  | None => if bool_decide (own = []) then str "No readable error has been recorded." else own
  end.

(** The rest of [menu()], for the chosen command and the list it was built
    from; an exception reaches [windowProcedure]. *)
Definition choose (q : answers) (command : Z) (apps : list (list Z)) (t : tray) : tray :=
  let t := if command =? 0 then does Focused t else t in
  let idle := negb (busy (action t)) in
  match (if removeBase <=? command then apps !! Z.to_nat (command - removeBase) else None) with
  | Some app =>
      if idle then start_action q (str "Remove") app t else t
  | None =>
      if command =? toggle then if idle then start_action q (str "Toggle") [] t else t
      else if (command =? add) || (command =? importProfile) then
        if idle then start_action q (if command =? add then str "PickAdd" else str "PickImport") [] t else t
      else if command =? logs then
        if q_logs q then does LogsOpened t else notice (str "The tray operation failed.") false t
      else if command =? lastError then does (Shown (error_text q t)) t
      else if command =? quit then if idle then destroy t else t
      else t
  end.

(** ** The window procedure *)

Inductive msg :=
  | TaskbarCreated | WM_CREATE | WM_TIMER | Callback (e : Z) | WM_CLOSE
  | WM_QUERYENDSESSION | WM_ENDSESSION (ending : bool)
  | Chosen_ (command : Z).   (* the shown menu returns *)

Definition message_ (smoke : bool) (q : answers) (m : msg) (t : tray) : Z * tray :=
  match m with
  | TaskbarCreated => (0, update q true t)
  | WM_CREATE =>
      if negb (q_filter q) then (-1, t)
      else let t := update q true t in if negb (q_timer q) then (-1, t) else (0, t)
  | WM_TIMER =>
      if smoke then (0, destroy t)
      else (0, complete (update q (bool_decide (szTip t = [])) t))
  | Callback e =>
      if (version4 t && ((e =? WM_CONTEXTMENU) || (e =? NIN_KEYSELECT))) || (negb (version4 t) && (e =? WM_RBUTTONUP))
      then (0, open_menu q t)
      else if (e =? WM_LBUTTONDBLCLK) && negb (busy (action t)) then (0, start_action q (str "Toggle") [] t)
      else (0, t)
  | WM_CLOSE => (0, if busy (action t) then t else destroy t)
  | WM_QUERYENDSESSION => if mutating (action t) then (0, does BlockShutdown t) else (1, t)
  | WM_ENDSESSION ending => (0, if ending then destroy t else does UnblockShutdown t)
  | Chosen_ command =>
      match menus t with
      | apps :: rest => (0, choose q command apps (with_menus t rest))
      | [] => (0, t)
      end
  end.

(** ** Runs: messages, and the worker's two steps on the shared state *)

Definition worker_marks (s : State) : State :=
  {| done := done s; stop := stop s; finishMutation := true; result := result s |}.
Definition worker_delivers (r : Result) (s : State) : State :=
  {| done := true; stop := stop s; finishMutation := finishMutation s; result := r |}.
Definition with_state (t : tray) (s : State) : tray :=
  with_action t {| state_ := Some s; joinable := joinable (action t) |}.

Definition fresh (t : tray) : Prop := state_ (action t) = None /\ events t = [] /\ menus t = [].

(** [reached smoke t delivered]: a run of the interface, with the results its
    workers delivered, in order. *)
Inductive reached (smoke : bool) : tray -> list Result -> Prop :=
| reached_fresh t : fresh t -> reached smoke t []
| reached_message t l q m : reached smoke t l -> reached smoke (message_ smoke q m t).2 l
| reached_marks t l s : reached smoke t l -> state_ (action t) = Some s -> done s = false ->
    reached smoke (with_state t (worker_marks s)) l
| reached_delivers t l s r : reached smoke t l -> state_ (action t) = Some s -> done s = false ->
    reached smoke (with_state t (worker_delivers r s)) (l ++ [r]).

Definition taken (es : list event) : list Result := omap (fun e => match e with Taken r => Some r | _ => None end) es.
Definition started_count (es : list event) : nat := length (List.filter (fun e => match e with Started _ _ => true | _ => false end) es).

(** The result waiting to be taken. *)
Definition pending_result (a : Action) : list Result :=
  match state_ a with Some s => if done s then [result s] else [] | None => [] end.

(** Results accounted for: taken ones and the waiting one; and operations: one
    more was started than was delivered exactly while one runs. *)
Definition accounted (t : tray) : list Result := taken (events t) ++ pending_result (action t).
Definition balanced (t : tray) (delivered : list Result) : Prop :=
  accounted t = delivered /\
  started_count (events t) = (length delivered + if busy (action t) then 1 else 0)%nat.

Lemma taken_app es es' : taken (es ++ es') = taken es ++ taken es'.
Proof. apply omap_app. Qed.
Lemma started_count_app es es' : started_count (es ++ es') = (started_count es + started_count es')%nat.
Proof. unfold started_count. by rewrite List.filter_app, length_app. Qed.

(** Steps that neither take a result nor start or end an operation. *)
Definition silent (e : event) : Prop := match e with Taken _ | Started _ _ => False | _ => True end.

Lemma does_balanced e t l : silent e -> balanced t l -> balanced (does e t) l.
Proof.
  intros He [Ha Hs]. unfold balanced, accounted in *. cbn [does events action].
  rewrite taken_app, started_count_app. destruct e; try done; cbn; rewrite app_nil_r, Nat.add_0_r; done.
Qed.

Lemma complete_balanced t l : balanced t l -> balanced (complete t) l.
Proof.
  intros Hb. unfold complete. destruct (bool_decide _ || busy (action t)) eqn:E; [done|].
  apply orb_false_iff in E as [E Eb]. apply bool_decide_eq_false in E.
  assert (balanced (does (Taken (Tray.Action.take (action t)).1) (with_action t (Tray.Action.take (action t)).2)) l) as Ht.
  { destruct Hb as [Ha Hs]. unfold balanced, accounted, pending_result, Tray.Action.take, busy in *.
    destruct (state_ (action t)) as [s|]; [|done]. destruct (done s); [|done].
    cbn [does with_action events action state_ fst snd negb] in *.
    rewrite taken_app, started_count_app, app_nil_r, Hs. split; [done|]. cbn. lia. }
  destruct (Tray.Action.take (action t)) as [r a]. cbn [fst snd] in Ht.
  assert (balanced (does UnblockShutdown (does (Taken r) (with_action t a))) l) as Hu by (by apply does_balanced).
  set (u := does UnblockShutdown _) in *. clearbody u.
  assert (balanced (if negb (ok r) then with_error u (message r) else u) l) as Hw by (by destruct (ok r)).
  destruct (negb (bool_decide (message r = []))); [by apply does_balanced|done].
Qed.

(** Completing leaves nothing that could be overwritten. *)
Lemma complete_settles t : busy (action (complete t)) = false -> state_ (action (complete t)) = None.
Proof.
  unfold complete. destruct (bool_decide _ || busy (action t)) eqn:E.
  - intros Hb. rewrite Hb, orb_false_r in E. by apply bool_decide_eq_true in E.
  - apply orb_false_iff in E as [E Eb]. apply bool_decide_eq_false in E. unfold Tray.Action.take. rewrite Eb.
    destruct (state_ (action t)) as [s|]; [|done]. cbn. by repeat case_match.
Qed.

Lemma start_balanced q name input t l : balanced t l -> balanced (start_action q name input t) l.
Proof.
  intros Hb. apply complete_balanced in Hb. unfold start_action. destruct (Tray.Action.start _ _) as [a|] eqn:E; [|by apply does_balanced].
  unfold Tray.Action.start in E. destruct (busy (action (complete t))) eqn:Eb; [done|]. destruct (negb (q_created q)); [done|].
  apply (inj Some) in E. subst a. destruct Hb as [Ha Hs]. apply complete_settles in Eb as En.
  unfold balanced, accounted, pending_result in *. rewrite En, app_nil_r in Ha. rewrite Eb in Hs.
  cbn [does with_action events action state_]. rewrite taken_app, started_count_app. cbn. rewrite !app_nil_r. split; [done|lia].
Qed.

Lemma update_balanced q create t l : balanced t l -> balanced (update q create t) l.
Proof. unfold update. by repeat case_match. Qed.

Lemma destroy_balanced t l : balanced t l -> balanced (destroy t) l.
Proof. intros Hb. unfold destroy. by apply does_balanced. Qed.

Lemma choose_balanced q command apps t l : balanced t l -> balanced (choose q command apps t) l.
Proof.
  intros Hb. unfold choose. set (u := if command =? 0 then _ else t).
  assert (balanced u l) as Hu by (subst u; destruct (command =? 0); [by apply does_balanced|done]). clearbody u.
  destruct (if removeBase <=? command then _ else _) as [app|]; [destruct (negb _); [by apply start_balanced|done]|].
  repeat match goal with |- balanced (if ?b then _ else _) _ => destruct b end;
    first [exact Hu|by apply start_balanced|by apply does_balanced|by apply destroy_balanced].
Qed.

Lemma message_balanced smoke q m t l : balanced t l -> balanced (message_ smoke q m t).2 l.
Proof.
  intros Hb. destruct m as [| | |e| | |ending|command]; cbn [message_].
  - by apply update_balanced.
  - repeat case_match; cbn [snd]; try done; by apply update_balanced.
  - case_match; cbn [snd]; [by apply destroy_balanced|by apply complete_balanced, update_balanced].
  - repeat case_match; cbn [snd]; try done; [|by apply start_balanced]. unfold open_menu.
    apply complete_balanced in Hb. by destruct (negb (q_menu q)).
  - case_match; cbn [snd]; [done|by apply destroy_balanced].
  - case_match; cbn [snd]; [by apply does_balanced|done].
  - case_match; cbn [snd]; [by apply destroy_balanced|by apply does_balanced].
  - destruct (menus t); cbn [snd]; [done|]. by apply choose_balanced.
Qed.

Lemma reached_balanced smoke t l : reached smoke t l -> balanced t l.
Proof.
  induction 1 as [t (Hs & He & _)|t l q m _ IH|t l s _ IH Hs Hd|t l s r _ IH Hs Hd].
  - unfold balanced, accounted, pending_result, busy. by rewrite Hs, He.
  - by apply message_balanced.
  - destruct IH as [Ha Hc]. unfold balanced, accounted, pending_result, busy in *. rewrite Hs, Hd in *. cbn. by rewrite Hd.
  - destruct IH as [Ha Hc]. unfold balanced, accounted, pending_result, busy in *. rewrite Hs, Hd in *.
    rewrite app_nil_r in Ha. cbn [with_state with_action worker_delivers events action state_ done result negb] in *.
    rewrite length_app. cbn [length]. split; [by rewrite Ha|lia].
Qed.

(** The interface loses no result and starts nothing twice: in every run,
    whatever the system answers, the results it took are those its operations
    delivered, in order, all but at most the last, which waits to be taken; and
    one operation more was started than was delivered exactly while one runs. *)
Theorem results_all_taken smoke t delivered :
  reached smoke t delivered ->
  delivered = taken (events t) ++ pending_result (action t) /\
  started_count (events t) = (length delivered + if busy (action t) then 1 else 0)%nat.
Proof. intros [Ha Hs]%reached_balanced. by split. Qed.

(** ** What ends the interface *)

Lemma complete_alive t : alive (complete t) = alive t.
Proof. unfold complete. destruct (_ || _); [done|]. destruct (Tray.Action.take _) as [r a]. by repeat case_match. Qed.
Lemma start_alive q name input t : alive (start_action q name input t) = alive t.
Proof. unfold start_action. rewrite <- (complete_alive t). by destruct (Tray.Action.start _ _). Qed.
Lemma update_alive q create t : alive (update q create t) = alive t.
Proof. unfold update. by repeat case_match. Qed.

Lemma choose_alive q command apps t :
  alive t = true -> alive (choose q command apps t) = false -> busy (action t) = false.
Proof.
  intros Ha. unfold choose. set (u := if command =? 0 then _ else t).
  assert (alive u = true /\ action u = action t) as [Hu Ht] by (subst u; by destruct (command =? 0)). clearbody u.
  rewrite <- Ht. destruct (busy (action u)); [|done]. cbn [negb].
  destruct (if removeBase <=? command then _ else _) as [app|]; [congruence|].
  repeat match goal with |- alive (if ?b then _ else _) = _ -> _ => destruct b end; cbn; congruence.
Qed.

(** The interface goes away only when nothing is under way: no message
    but the end of the session destroys its window while an operation runs,
    and the end of the session is refused while one is changing something. *)
Theorem window_outlives_operation q m t :
  (alive t = true -> alive (message_ false q m t).2 = false -> m <> WM_ENDSESSION true -> busy (action t) = false) /\
  ((message_ false q WM_QUERYENDSESSION t).1 = 0 <-> mutating (action t) = true).
Proof.
  split.
  - intros Ha Hd Hm. destruct m as [| | |e| | |ending|command]; cbn [message_] in Hd.
    + cbn [snd] in Hd. rewrite update_alive in Hd. congruence.
    + repeat case_match; cbn [snd] in Hd; rewrite ?update_alive in Hd; congruence.
    + cbn [snd] in Hd. rewrite complete_alive, update_alive in Hd. congruence.
    + repeat case_match; cbn [snd] in Hd; rewrite ?start_alive in Hd; try congruence.
      unfold open_menu in Hd. case_match; cbn [with_menus alive] in Hd; rewrite complete_alive in Hd; congruence.
    + cbn in Hd. destruct (busy (action t)); [congruence|done].
    + case_match; cbn in Hd; congruence.
    + destruct ending; [done|]. cbn in Hd. congruence.
    + destruct (menus t) as [|apps rest]; cbn in Hd; [congruence|]. by eapply (choose_alive q command apps (with_menus t rest)).
  - cbn [message_]. by destruct (mutating (action t)).
Qed.

(** What the menu shows is what it removes: the entry at each position
    shows the listed program, ampersands included, and choosing it while no
    operation runs starts the removal of exactly that program, even if the list
    on disk has changed since. *)
Theorem removal_is_shown q apps rest t i app :
  menus t = apps :: rest -> apps !! i = Some app -> busy (action t) = false -> q_created q = true ->
  exists it, removal_items true apps !! i = Some it /\ menu_shown (text it) = app /\
    List.last (events (message_ false q (Chosen_ (id it)) t).2) Focused = Started (str "Remove") app.
Proof.
  intros Hm Hi Hb Hc. exists {| enabled := true; id := removeBase + Z.of_nat i; text := menuText app |}.
  split; [unfold removal_items; by rewrite list_lookup_imap, Hi|]. split; [apply menuText_shown|].
  cbn [message_ id]. rewrite Hm. cbn [snd]. unfold choose, removeBase.
  rewrite (proj2 (Z.eqb_neq (100 + Z.of_nat i) 0)), (proj2 (Z.leb_le 100 _)) by lia.
  replace (Z.to_nat (100 + Z.of_nat i - 100)) with i by lia. rewrite Hi. cbn [with_menus action]. rewrite Hb. cbn [negb].
  unfold start_action. set (u := complete _). assert (busy (action u) = false) as Hu.
  { subst u. unfold complete, Tray.Action.take. cbn [with_menus action]. rewrite Hb, orb_false_r.
    destruct (state_ (action t)) eqn:Es; cbn; [by repeat case_match|]. unfold busy. cbn. by rewrite Es. }
  unfold Tray.Action.start. rewrite Hu, Hc. cbn [negb does events with_action]. apply last_last.
Qed.

(** While an operation runs, the menu offers nothing that would start another
    one or leave: only the logs and the last error can be chosen. *)
Theorem busy_menu_reads_only q t it :
  busy (action t) = true -> it ∈ menu_items q t -> enabled it = true -> id it = logs \/ id it = lastError.
Proof.
  intros Hb Hin He. unfold menu_items in Hin. rewrite Hb in Hin. cbn [negb] in Hin. rewrite andb_false_r in Hin.
  assert (forall apps, it ∉ removal_items false apps) as Hr.
  { intros apps Hi. unfold removal_items in Hi. apply elem_of_lookup_imap in Hi as (i & app & -> & _). done. }
  destruct (q_removal q); cbn [app] in Hin; repeat (apply elem_of_cons in Hin as [->|Hin]; [by auto|]);
    rewrite ?elem_of_app in Hin; repeat (destruct Hin as [Hin|Hin]; [by apply Hr in Hin|]);
    repeat (apply elem_of_cons in Hin as [->|Hin]; [by auto|]); by apply not_elem_of_nil in Hin.
Qed.

(** ** A concrete run *)

Module DemoTray.

Definition willing : answers :=
  {| q_status := str "Enabled"; q_apps := Some [str "C:\A&B\app.exe"]; q_enabled := true; q_menu := true; q_removal := true; q_add := true; q_modify := true;
     q_version := true; q_created := true; q_logs := true; q_controller := None; q_filter := true; q_timer := true |}.
Definition t0 : tray :=
  {| action := {| state_ := None; joinable := false |}; szTip := []; version4 := false; lastActionError := [];
     alive := true; menus := []; events := [] |}.
Definition outcome : Result := {| ok := false; message := str "refused" |}.
(** A double click starts an operation, it fails, and the timer reports it. *)
Definition t1 : tray := (message_ false willing (Callback WM_LBUTTONDBLCLK) t0).2.
Definition t2 : tray := with_state t1 (worker_delivers outcome new_state).
Definition t3 : tray := (message_ false willing WM_TIMER t2).2.
(** A menu is open. *)
Definition t4 : tray := (message_ false willing (Callback WM_RBUTTONUP) t0).2.

End DemoTray.
Import DemoTray.

Lemma results_all_taken_witness : [outcome] = taken (events t3) ++ pending_result (action t3) /\ started_count (events t3) = 1%nat.
Proof.
  apply (results_all_taken false t3 [outcome]).
  apply (reached_message false t2 [outcome]). apply (reached_delivers false t1 [] new_state outcome); [|reflexivity|reflexivity].
  apply (reached_message false t0 []). apply reached_fresh. repeat split.
Defined.

Lemma removal_is_shown_witness :
  exists it, removal_items true [str "C:\A&B\app.exe"] !! 0%nat = Some it /\ menu_shown (text it) = str "C:\A&B\app.exe" /\
    List.last (events (message_ false willing (Chosen_ (id it)) t4).2) Focused = Started (str "Remove") (str "C:\A&B\app.exe").
Proof. apply (removal_is_shown willing [str "C:\A&B\app.exe"] [] t4 0); reflexivity. Defined.

Lemma window_outlives_operation_witness : busy (action t0) = false.
Proof. apply (window_outlives_operation willing WM_CLOSE t0); [reflexivity|reflexivity|discriminate]. Defined.

Lemma busy_menu_reads_only_witness : id {| enabled := true; id := logs; text := str "Open logs" |} = logs \/ logs = lastError.
Proof.
  apply (busy_menu_reads_only willing t1 {| enabled := true; id := logs; text := str "Open logs" |}); [reflexivity| |reflexivity].
  change (menu_items willing t1) with (firstn 6 (menu_items willing t1) ++ {| enabled := true; id := logs; text := str "Open logs" |} :: skipn 7 (menu_items willing t1)).
  apply elem_of_app. right. left.
Defined.
